(* ===== verification/_CoqProject ===== *)
-Q . S2P
Prelude.v
Mem.v
Vm.v
Dec.v
Xec.v
Object.v
ObjData.v
Case.v
ObjMod.v
Utf.v
Styx.v
Chan.v
AltPass.v
Sched.v
Pool.v
Gc.v
GcMark.v
GcPool.v
GcInv.v
GcFree.v
GcRun.v
GcOps.v
GcAlloc.v
GcGrow.v
GcNew.v
GcStep.v
GcWalk.v
GcLive.v
GcEpoch.v
GcDemo.v
Str.v
StrInv.v
StrNew.v
StrText.v
StrOps.v
StrPool.v
Clean.v
Path.v
Ns.v
NsInv.v
NsMount.v
NsWalk.v
NsDev.v
NsDemo.v
