(* ===== verification/Prelude.v ===== *)
(** * Inferno64NG: verification of the Dis virtual machine, its object files, heap, strings, channels, name space, Styx and UTF-8

    Inferno is an operating system whose programs, written in Limbo, are
    compiled to object files for the Dis virtual machine and see every resource
    as a file served over the Styx (9P) protocol.  This development models, in
    the form in which the C code computes them, the parts that decide what a
    compiled program means and what crosses the wire, for the 64-bit build
    ([WORD] is 64 bits, [ulong] 64, [int] and [Rune] 32).

    ** The program's parts and the files that model them

    - [Prelude]: machine integers with their wrap-around, the state-and-error
      monad [ST] (a value and a state, an error and the state at the call of
      [error], or [Fault] for undefined behaviour and exhausted fuel),
      little-endian byte strings, congruence modulo 2^64, bit fields.
    - [Mem], [Vm]: the byte-addressed memory of a Dis program and the state of
      the interpreter (interp.h: REG, the register set [R], types, heap,
      arrays, strings).
    - [Dec] (libinterp/dec.c, libinterp/decgen.c): the operand decoders, one
      definition per C function, and the generator that prints them.
    - [Xec] (libinterp/xec.c): the instructions on words, bytes and bigs,
      branches, case, indexing, allocation checks, fixed-point arithmetic,
      exponentiation.  A definition has the name of its [OP].
    - [Object] (limbo/dis.c and libinterp/load.c): operands, constants and the
      instruction section, written by the compiler and parsed by the loader.
    - [ObjData] (same files): the data section; the writer's cache is the
      record [WS], the loader's destination and its stack the record [LS].
    - [Case] (across limbo/dis.c, load.c, xec.c): the case statement from the
      compiler's labels to the jump the machine takes.
    - [ObjMod] (limbo/com.c modcom, dis.c, load.c parsemod): the whole module;
      the translation to native code at the end of parsemod is a parameter.
    - [Utf] (lib9/rune.c, lib9/utf*.c): UTF-8.
    - [Styx] (lib9/convS2M.c, lib9/convM2S.c, include/fcall.h): messages.
    - [Chan] (libinterp/xec.c cqadd to irecv, libinterp/alt.c, emu/port/dis.c):
      channels, alternation and the run queue; the state is the record [sys],
      and the invariant [Chan.Inv] says who waits where.  [AltPass] proves what
      the passes of an alt do; [Sched] has the steps of the whole system, the
      channel as a queue, and the theorems about them.
    - [Pool] (emu/port/alloc.c): the allocator; the state is the record [Pool],
      arenas of blocks and the tree of the free ones, and the invariant
      [Pool.pool_ok].
    - [Gc] (libinterp/gc.c, heap.c, load.c unload): the collector, destroy and
      the free functions over the state [gcs], whose blocks are those of a
      [Pool].  [GcMark] proves what marking does, [GcPool] what freeing does to
      the walk, [GcInv] has the invariant [inv], [GcFree] and [GcRun] prove that
      destroy and rungc keep it.
    - [GcOps], [GcAlloc], [GcGrow], [GcNew] (libinterp/xec.c, heap.c,
      emu/port/alloc.c): the instructions that move pointers and make data;
      [GcGrow] is what becomes of the pool under a collector at its walk when an
      allocation takes a block, adds an arena of the host's memory or extends the
      first, whose limit the collector keeps as it was; [GcStep] has the steps of
      the machine and the collector together.  [GcWalk], [GcLive] and [GcEpoch] follow the
      collector from epoch to epoch, and [GcDemo] has heaps to which the theorems
      apply.
    - [Str] (libinterp/string.c, heap.c): strings, in bytes or runes, counted and
      shared by slots, over an allocator given by the class [Blocks].  [StrInv]
      has the invariant [sinv], what is asked of the allocator ([BlocksOk]), and
      the values of the slots ([abs]); [StrNew] the routines that make strings,
      [StrText] comparison and UTF-8, [StrOps] the instructions.  [StrPool] gives
      the [Pool] of the heap as the allocator, and strings in it to which the
      theorems apply.
    - [Clean] (lib9/cleanname.c), [Path] (emu/port/chan.c): path names and the
      names of channels: cleanname in its buffer against [clean], which works on
      the elements; addelem, cleancname, parsename and validname.
    - [Ns] (emu/port/chan.c, pgrp.c): the name space of a process group: channels and
      mount heads with their counts, the mount table, mounting, unmounting and the
      walk of a path, over devices given by the class [Dev].  [NsInv] has the
      invariant [inv], that every count is that of the references there are, and what
      each routine does to it; [NsMount] what mounting does, seen as a map from files
      to unions; [NsWalk] walking, against the taking of one name after the other
      ([elem_steps]), from what is asked of devices ([DevLaws]); [NsDev]
      (emu/port/dev.c, devroot.c) the devices of the kernel, which keep that;
      [NsDemo] a name space to which the theorems apply.

    The compiler's writer ([Object], [ObjData], [ObjMod]) and the machine's
    loader meet in the bytes of the object file; the loader's instructions and
    tables are what [Dec] and [Xec] work on; [Object.compiled_operands] and
    [Case.case_statement] are proved across the three.

    ** What the theorems show

    - Object files: what the compiler writes the loader reads back, for
      operands, instructions, data and whole modules, and the addresses a
      compiled instruction computes are those the compiler meant.
    - Decoding: the decoders are what the generator prints and compute the
      effective addresses of the addressing modes.
    - Instructions: their effect on every branch, the bounds of indexing, the
      equivalence of the binary search of case with a linear search, the
      termination and value of exponentiation, and the inputs on which the
      checks and loops of the code fail.
    - UTF-8: encoding and decoding are inverse, decoding accepts exactly the
      shortest encodings of the code points, the string functions terminate
      and agree with the sequence of runes.
    - Styx: packing refines the wire format of the protocol, unpacking is safe
      on arbitrary bytes and accepts only encodings, and the two are inverse.
    - Channels: in every reachable state the queues list exactly the blocked
      programs and nothing that could be communicated is left waiting; a
      channel refines a queue of the data sent; an alt carries out one ready
      alternative and leaves no mark; every ready program gets its turn; and
      two alts the code's check does not catch, both of which fault: one loses
      the queue it stands in twice, the other receives from its own program
      and copies from a nil pointer.
    - The allocator: blocks in use never overlap, the search is best fit, free
      neighbours are joined, every call returns.
    - The collector: along every run of instructions and slices no block a
      program can come to is freed and the data keeps its types; destroy and
      rungc always complete; a walk ends and frees all it was to sweep; with no
      program at work every epoch ends and all garbage, cycles included, goes;
      and the run by which mcall, which omits the barrier, loses data.
    - Strings: the instructions on counted, shared strings refine operations on
      lists of characters and stay within the blocks; comparison is the order of
      the characters; conversion from bytes is safe on any and inverse to that to
      C text; and the two uses, [s += s] and a wide character put into an empty
      string, with which the code writes out of a block.
    - Path names: cleanname stays in its buffer and makes the name of the same
      place without ".", empty elements and what ".." takes; parsename and addelem
      together make the cleaned name; and the offsets that growparse loses.
    - The name space: mounting and unmounting change what is on one file as they
      should, copy unions, and are refused when they must be; walk gives the devices
      many names at once and stops at mount points, and comes to where the names one
      by one come to, all the way or not at all; every reference taken is given up
      and no lock is kept, but for the mount that finds no memory; the walk of the
      kernel's devices is what this rests on; and a directory mounted twice over, at
      which walk is not what its comment says.

    ** Conventions

    An address is an integer; memory is a partial map from addresses, and a
    read outside it is [Fault].  A C string or byte array is the list of the
    bytes from the pointer to the end of its object.  A loop that is not
    structural has fuel: an exponent or a table length is halved at most 63
    times, so 64 rounds are enough ([Xec.case_fuel], [Xec.iexp_fuel]); a loop
    over a string has one round per byte.  Theorems say that the fuel suffices;
    none is conditional on a loop returning.

    ** Not modelled

    The native code generators of libinterp (their meaning is that of seven
    processors), the Limbo compiler in front of the object file, the kernel's
    files and devices beyond the name space and the walk, graphics and Tk, cryptography, formatted output,
    and everything that is input and output through the host.  dispath (the
    source path after the last section, which the loader does not read) is left
    out of the object file.  In [Chan] an element is one cell and a front and
    size add without overflow (a buffer of less than 2^30 elements); killprog,
    process groups and the hand-over of the interpreter between host threads
    are left out.  Built-in modules' types, the frames of calls, and the cons and
    newa instructions are not steps of the run of the collector; nor is the head
    or tail of nil, at which the host itself traps.  The strings' theorem
    ([StrOps.strings_refine]) leaves out the two uses that write out of a block.  The strings of
    [Str] are apart from the heap of [Gc]: they have no colours, and their
    allocator gets no more memory from the host.  [Ns] has one process at work on a
    name space at a time; namec, the copying of name spaces and the mount driver are
    left out.  cvtca and the conversions of
    numbers to and from strings are left out. *)

From Stdlib Require Export ZArith Lia.
From stdpp Require Export base tactics option list gmap sets strings numbers.

Open Scope Z_scope.

(** ** Machine integers *)

Definition M8 : Z := 256.
Definition M16 : Z := 65536.
Definition M32 : Z := 4294967296.
Definition M64 : Z := 18446744073709551616.

Definition u8 (x : Z) : Z := x mod M8.
Definition u16 (x : Z) : Z := x mod M16.
Definition u32 (x : Z) : Z := x mod M32.
Definition u64 (x : Z) : Z := x mod M64.
Definition s8 (x : Z) : Z := (x + 128) mod M8 - 128.
Definition s16 (x : Z) : Z := (x + 32768) mod M16 - 32768.
Definition s32 (x : Z) : Z := (x + 2147483648) mod M32 - 2147483648.
Definition s64 (x : Z) : Z := (x + 9223372036854775808) mod M64 - 9223372036854775808.

Ltac unfold_ints := unfold u8, u16, u32, u64, s8, s16, s32, s64, M8, M16, M32, M64 in *.
Ltac int_lia := unfold_ints; Z.div_mod_to_equations; lia.

Lemma s64_id x : -9223372036854775808 <= x < 9223372036854775808 -> s64 x = x.
Proof. intros. int_lia. Qed.
Lemma s64_u64 x : s64 (u64 x) = s64 x.
Proof. int_lia. Qed.
Lemma u64_s64 x : u64 (s64 x) = u64 x.
Proof. int_lia. Qed.

(** ** Stateful computations that can fail

    The C code keeps its state in memory and reports errors by a [longjmp]
    ([error(exBounds)]), which keeps every change of the state made so far.
    A computation over the state [S] therefore returns a value and a state,
    or an error string and the state at the call of [error], or is undefined
    ([Fault]: a wild pointer, a division by zero, fuel exhausted). *)

Inductive outcome (S A : Type) : Type :=
  | Ok (a : A) (s : S)
  | Err (e : string) (s : S)
  | Fault.
Arguments Ok {S A} a s.
Arguments Err {S A} e s.
Arguments Fault {S A}.

Definition ST (S A : Type) : Type := S -> outcome S A.

#[export] Instance ST_ret {S} : MRet (ST S) := fun A a s => Ok a s.
#[export] Instance ST_bind {S} : MBind (ST S) := fun A B k c s =>
  match c s with
  | Ok a s' => k a s'
  | Err e s' => Err e s'
  | Fault => Fault
  end.
#[export] Instance ST_fmap {S} : FMap (ST S) := fun A B f c s =>
  match c s with
  | Ok a s' => Ok (f a) s'
  | Err e s' => Err e s'
  | Fault => Fault
  end.

(** [error(s)] of the C code. *)
Definition error {S A} (e : string) : ST S A := fun s => Err e s.
Definition fault {S A} : ST S A := fun _ => Fault.
Definition gets {S A} (f : S -> A) : ST S A := fun s => Ok (f s) s.
Definition modify {S} (f : S -> S) : ST S unit := fun s => Ok tt (f s).
Definition of_option {S A} (o : option A) : ST S A :=
  match o with Some a => mret a | None => fault end.
Definition when {S} (b : bool) (c : ST S unit) : ST S unit :=
  if b then c else mret tt.

Lemma bind_ok {S A B} (c : ST S A) (k : A -> ST S B) a s s' :
  c s = Ok a s' -> (c ≫= k) s = k a s'.
Proof. intros E. unfold mbind, ST_bind. by rewrite E. Qed.

Lemma bind_err {S A B} (c : ST S A) (k : A -> ST S B) e s s' :
  c s = Err e s' -> (c ≫= k) s = Err e s'.
Proof. intros E. unfold mbind, ST_bind. by rewrite E. Qed.

Lemma bind_ok_inv {S A B} (c : ST S A) (k : A -> ST S B) b s s'' :
  (c ≫= k) s = Ok b s'' -> exists a s', c s = Ok a s' /\ k a s' = Ok b s''.
Proof. unfold mbind, ST_bind. destruct (c s) eqn:E; intros; simplify_eq; eauto. Qed.

(** Case analysis on an innermost optional value the goal matches on. *)
Ltac case_opt :=
  match goal with
  | |- context [match ?o with Some _ => _ | None => _ end] =>
      lazymatch o with
      | context [match _ with _ => _ end] => fail
      | _ => destruct o eqn:?
      end
  end.

(** ** Little-endian byte strings *)

Fixpoint le_bytes (n : nat) (v : Z) : list Z :=
  match n with
  | O => []
  | Datatypes.S n => u8 v :: le_bytes n (v / M8)
  end.

Fixpoint le_val (bs : list Z) : Z :=
  match bs with
  | [] => 0
  | b :: bs => b + M8 * le_val bs
  end.

Definition is_byte (b : Z) : Prop := 0 <= b < M8.
#[export] Instance is_byte_dec b : Decision (is_byte b).
Proof. unfold is_byte. apply _. Defined.

Definition pow8 (n : nat) : Z := 256 ^ Z.of_nat n.

Lemma pow8_S n : pow8 (Datatypes.S n) = 256 * pow8 n.
Proof. unfold pow8. rewrite Nat2Z.inj_succ, Z.pow_succ_r; lia. Qed.
Lemma pow8_pos n : 0 < pow8 n.
Proof. unfold pow8. apply Z.pow_pos_nonneg; lia. Qed.

Lemma length_le_bytes n v : length (le_bytes n v) = n.
Proof. revert v. induction n; simpl; auto. Qed.

Lemma le_val_bytes n v : le_val (le_bytes n v) = v mod pow8 n.
Proof.
  revert v. induction n as [|n IH]; intros v.
  - unfold pow8. simpl. by rewrite Z.mod_1_r.
  - cbn [le_bytes le_val]. rewrite IH, pow8_S. unfold u8, M8.
    pose proof (pow8_pos n). rewrite Z.rem_mul_r by lia. lia.
Qed.

Lemma u8_byte x : is_byte (u8 x).
Proof. unfold is_byte, u8, M8. apply Z.mod_pos_bound. lia. Qed.

Lemma le_bytes_bytes n v : Forall is_byte (le_bytes n v).
Proof. revert v. induction n; constructor; auto using u8_byte. Qed.

Lemma le_val_bound bs : Forall is_byte bs -> 0 <= le_val bs < pow8 (length bs).
Proof.
  induction 1 as [|b bs Hb _ IH]; cbn [le_val length].
  - unfold pow8. simpl. lia.
  - rewrite pow8_S. unfold is_byte, M8 in *. lia.
Qed.

Lemma le_bytes_val bs : Forall is_byte bs -> le_bytes (length bs) (le_val bs) = bs.
Proof.
  induction 1 as [|b bs Hb _ IH]; cbn [le_val le_bytes length]; [done|].
  unfold is_byte, u8, M8 in *. f_equal.
  - rewrite Z.mul_comm, Z.mod_add by lia. by apply Z.mod_small.
  - rewrite Z.mul_comm, Z.div_add by lia.
    rewrite (Z.div_small b) by lia. by rewrite Z.add_0_l.
Qed.

Lemma bind_ret_unit {S} (c : ST S unit) s : (c ;; mret tt) s = c s.
Proof. unfold mbind, ST_bind. by destruct (c s) as [[] ?| |]. Qed.

(** ** Decision by enumeration of a range *)

Lemma forall_range (P : Z -> bool) n :
  forallb P (seqZ 0 n) = true -> forall x, 0 <= x < n -> P x = true.
Proof.
  intros Hb x Hx. rewrite forallb_forall in Hb. apply Hb.
  apply list_elem_of_In, elem_of_seqZ. lia.
Qed.

#[global] Arguments u8 : simpl never.
#[global] Arguments u16 : simpl never.
#[global] Arguments u32 : simpl never.
#[global] Arguments u64 : simpl never.
#[global] Arguments s8 : simpl never.
#[global] Arguments s16 : simpl never.
#[global] Arguments s32 : simpl never.
#[global] Arguments s64 : simpl never.

(** ** Congruence modulo 2^64

    [x ≡₆₄ y]: the two integers have the same 64-bit representation.  It is a
    ring congruence, so products and powers can be rewritten under [s64]. *)

Definition eq64 (x y : Z) : Prop := exists k, x = y + k * M64.

#[export] Instance eq64_equiv : Equivalence eq64.
Proof.
  split.
  - intros x. exists 0. lia.
  - intros x y [k ->]. exists (- k). lia.
  - intros x y z [k ->] [l ->]. exists (k + l). lia.
Qed.
#[export] Instance eq64_add : Proper (eq64 ==> eq64 ==> eq64) Z.add.
Proof. intros x x' [k ->] y y' [l ->]. exists (k + l). lia. Qed.
#[export] Instance eq64_sub : Proper (eq64 ==> eq64 ==> eq64) Z.sub.
Proof. intros x x' [k ->] y y' [l ->]. exists (k - l). lia. Qed.
#[export] Instance eq64_mul : Proper (eq64 ==> eq64 ==> eq64) Z.mul.
Proof. intros x x' [k ->] y y' [l ->]. exists (x' * l + k * y' + k * l * M64). lia. Qed.
#[export] Instance eq64_opp : Proper (eq64 ==> eq64) Z.opp.
Proof. intros x x' [k ->]. exists (- k). lia. Qed.

Lemma eq64_pow x x' n : eq64 x x' -> eq64 (x ^ n) (x' ^ n).
Proof.
  intros Hx. destruct (Z.le_gt_cases 0 n) as [Hn|Hn].
  - revert n Hn. apply natlike_ind; [done|]. intros n Hn IH.
    rewrite !Z.pow_succ_r by done. by apply eq64_mul.
  - by rewrite !Z.pow_neg_r.
Qed.

Lemma eq64_eq x y : x = y -> eq64 x y.
Proof. by intros ->. Qed.
Lemma eq64_mod x y : eq64 x y <-> x mod M64 = y mod M64.
Proof.
  split.
  - intros [k ->]. by rewrite Z.mod_add.
  - intros E. exists (x / M64 - y / M64). unfold M64 in *. Z.div_mod_to_equations. lia.
Qed.
Lemma eq64_s64 x : eq64 (s64 x) x.
Proof. apply eq64_mod. int_lia. Qed.
Lemma eq64_u64 x : eq64 (u64 x) x.
Proof. apply eq64_mod. int_lia. Qed.
#[export] Instance s64_proper : Proper (eq64 ==> eq) s64.
Proof. intros x y E%eq64_mod. int_lia. Qed.
Lemma s64_eq_iff x y : s64 x = s64 y <-> eq64 x y.
Proof. rewrite eq64_mod. split; int_lia. Qed.
Lemma s64_range x : -9223372036854775808 <= s64 x < 9223372036854775808.
Proof. int_lia. Qed.

(** ** Bit fields side by side *)

Lemma land_shiftl_low a b k : 0 <= k -> 0 <= b < 2 ^ k -> Z.land (Z.shiftl a k) b = 0.
Proof.
  intros Hk Hb. apply Z.bits_inj'. intros n Hn. rewrite Z.land_spec, Z.bits_0.
  destruct (Z.lt_ge_cases n k).
  - by rewrite Z.shiftl_spec_low.
  - replace (Z.testbit b n) with false; [apply andb_false_r|]. symmetry.
    destruct (decide (b = 0)) as [->|]; [apply Z.bits_0|].
    apply Z.bits_above_log2; [lia|]. apply Z.lt_le_trans with k; [|done].
    apply Z.log2_lt_pow2; lia.
Qed.

Lemma lor_shiftl a b k : 0 <= k -> 0 <= b < 2 ^ k -> Z.lor (Z.shiftl a k) b = a * 2 ^ k + b.
Proof.
  intros Hk Hb. rewrite <- Z.add_nocarry_lor by by apply land_shiftl_low.
  by rewrite Z.shiftl_mul_pow2.
Qed.
