(* ===== verification/Mem.v ===== *)
(** * Byte-addressed memory

    The store the Dis interpreter and its instructions share: a finite map
    from addresses to bytes, read and written little-endian at a width of
    [n] bytes (the amd64 layout).  An access to an address outside the map
    is undefined. *)

From S2P Require Import Prelude.

Abbreviation memory := (gmap Z Z).

Fixpoint load_bytes (m : memory) (a : Z) (n : nat) : option (list Z) :=
  match n with
  | O => Some []
  | Datatypes.S n => b ← m !! a; bs ← load_bytes m (a + 1) n; Some (b :: bs)
  end.

Fixpoint put_bytes (m : memory) (a : Z) (bs : list Z) : memory :=
  match bs with
  | [] => m
  | b :: bs => put_bytes (<[a := b]> m) (a + 1) bs
  end.

(** Are the [n] bytes from [a] all mapped? *)
Fixpoint mapped (m : memory) (a : Z) (n : nat) : bool :=
  match n with
  | O => true
  | Datatypes.S n => match m !! a with Some _ => mapped m (a + 1) n | None => false end
  end.

Definition store_bytes (m : memory) (a : Z) (bs : list Z) : option memory :=
  if mapped m a (length bs) then Some (put_bytes m a bs) else None.

Definition load (n : nat) (m : memory) (a : Z) : option Z := le_val <$> load_bytes m a n.
Definition store (n : nat) (m : memory) (a v : Z) : option memory :=
  store_bytes m a (le_bytes n v).

Section memory_lemmas.
Implicit Types (m : memory) (a b : Z).

Lemma put_bytes_lookup_out m a bs b :
  b < a \/ a + Z.of_nat (length bs) <= b -> put_bytes m a bs !! b = m !! b.
Proof.
  revert m a. induction bs as [|x bs IH]; intros m a Hb; cbn in *; [done|].
  rewrite IH by lia. apply lookup_insert_ne. lia.
Qed.

Lemma load_bytes_put_out m a bs b n :
  b + Z.of_nat n <= a \/ a + Z.of_nat (length bs) <= b ->
  load_bytes (put_bytes m a bs) b n = load_bytes m b n.
Proof.
  revert b. induction n as [|n IH]; intros b Hb; cbn [load_bytes]; [done|].
  rewrite put_bytes_lookup_out by lia. by rewrite IH by lia.
Qed.

Lemma load_bytes_put_same m a bs : load_bytes (put_bytes m a bs) a (length bs) = Some bs.
Proof.
  revert m a. induction bs as [|x bs IH]; intros m a; cbn; [done|].
  rewrite put_bytes_lookup_out by lia. rewrite lookup_insert_eq. cbn.
  by rewrite IH.
Qed.

Lemma mapped_put m a bs b n : mapped m b n = true -> mapped (put_bytes m a bs) b n = true.
Proof.
  revert m a. induction bs as [|x bs IH]; intros m a Hm; cbn; [done|].
  apply IH. clear IH. revert b Hm. induction n as [|n IHn]; intros b Hm; cbn in *; [done|].
  rewrite lookup_insert. destruct (decide (a = b)) as [->|].
  - destruct (m !! b); [|done]. by apply IHn.
  - destruct (m !! b); [|done]. by apply IHn.
Qed.

Lemma mapped_load m a n : mapped m a n = true <-> is_Some (load_bytes m a n).
Proof.
  revert a. induction n as [|n IH]; intros a; cbn; [split; eauto|].
  destruct (m !! a) eqn:E; cbn.
  - rewrite IH. destruct (load_bytes m (a + 1) n); cbn; split; intros [? ?]; simplify_eq; eauto.
  - split; [done|intros [? ?]; simplify_eq].
Qed.

Lemma load_store_same n m m' a v :
  store n m a v = Some m' -> load n m' a = Some (v mod pow8 n).
Proof.
  unfold store, store_bytes, load. case_match; [|done]. intros [= <-].
  pose proof (load_bytes_put_same m a (le_bytes n v)) as E.
  rewrite length_le_bytes in E. rewrite E. cbn. by rewrite le_val_bytes.
Qed.

Lemma load_store_other n k m m' a b v :
  store n m a v = Some m' ->
  b + Z.of_nat k <= a \/ a + Z.of_nat n <= b ->
  load k m' b = load k m b.
Proof.
  unfold store, store_bytes, load. case_match; [|done]. intros [= <-] Hb.
  by rewrite load_bytes_put_out by (rewrite length_le_bytes; lia).
Qed.

Lemma store_mapped n m m' a v b k :
  store n m a v = Some m' -> mapped m b k = true -> mapped m' b k = true.
Proof. unfold store, store_bytes. case_match; [|done]. intros [= <-]. apply mapped_put. Qed.

Lemma store_is_Some n m a v : mapped m a n = true -> is_Some (store n m a v).
Proof. unfold store, store_bytes. rewrite length_le_bytes. intros ->. eauto. Qed.

Lemma load_is_Some n m a : mapped m a n = true -> is_Some (load n m a).
Proof. unfold load. rewrite mapped_load. intros [? ->]. cbn. eauto. Qed.

Lemma mapped_of_load n m a v : load n m a = Some v -> mapped m a n = true.
Proof. unfold load. rewrite mapped_load. destruct (load_bytes m a n); eauto; done. Qed.
End memory_lemmas.

(** Well-formed memory: cells are bytes at 64-bit addresses. *)
Definition byte_mem (m : memory) : Prop :=
  map_Forall (fun a b => 0 <= a < M64 /\ is_byte b) m.

Lemma load_bytes_bytes m a n bs :
  byte_mem m -> load_bytes m a n = Some bs -> Forall is_byte bs /\ length bs = n.
Proof.
  intros Hm. revert a bs. induction n as [|n IH]; intros a bs; cbn; [intros [= <-]; auto|].
  destruct (m !! a) eqn:E; cbn; [|done].
  destruct (load_bytes m (a + 1) n) eqn:E'; cbn; [|done]. intros [= <-].
  destruct (IH _ _ E') as [? <-]. split; [constructor|]; auto. by apply (Hm a).
Qed.

Lemma load_bound n m a v : byte_mem m -> load n m a = Some v -> 0 <= v < pow8 n.
Proof.
  unfold load. intros Hm. destruct (load_bytes m a n) eqn:E; cbn; [|done]. intros [= <-].
  destruct (load_bytes_bytes _ _ _ _ Hm E) as [Hb <-]. by apply le_val_bound.
Qed.

Lemma mapped_range m a n i :
  byte_mem m -> mapped m a n = true -> 0 <= i < Z.of_nat n -> 0 <= a + i < M64.
Proof.
  intros Hm. revert a i. induction n as [|n IH]; intros a i; cbn; [lia|].
  destruct (m !! a) eqn:E; [|done]. intros Hn Hi.
  destruct (decide (i = 0)) as [->|].
  - apply Hm in E as [? _]. lia.
  - replace (a + i) with (a + 1 + (i - 1)) by lia. apply IH; [done|lia].
Qed.

Lemma load_range n m a v i :
  byte_mem m -> load n m a = Some v -> 0 <= i < Z.of_nat n -> 0 <= a + i < M64.
Proof. intros Hm Hl. eapply mapped_range; eauto using mapped_of_load. Qed.

Lemma put_bytes_byte_mem m a bs :
  byte_mem m -> mapped m a (length bs) = true -> Forall is_byte bs ->
  byte_mem (put_bytes m a bs).
Proof.
  intros Hm Hd Hb. revert m a Hm Hd. induction Hb as [|x bs Hx _ IH]; intros m a Hm Hd; cbn in *; [done|].
  destruct (m !! a) eqn:E; [|done]. apply IH.
  - apply map_Forall_insert_2; [|done]. split; [|done]. by apply (Hm a z).
  - apply (mapped_put m a [x]); done.
Qed.

Lemma store_byte_mem n m m' a v : byte_mem m -> store n m a v = Some m' -> byte_mem m'.
Proof.
  unfold store, store_bytes. case_match; [|done]. intros Hm [= <-].
  apply put_bytes_byte_mem; auto using le_bytes_bytes.
Qed.

(** An address computed from the address of a loaded cell does not wrap. *)
Lemma padd_in_load n m a v i :
  byte_mem m -> load n m a = Some v -> 0 <= i < Z.of_nat n -> u64 (a + i) = a + i.
Proof. intros Hm Hl Hi. apply Z.mod_small. eapply load_range; eauto. Qed.

#[global] Arguments load : simpl never.
#[global] Arguments store : simpl never.
