(* ===== verification/Vm.v ===== *)
(** * The state of the Dis virtual machine

    include/interp.h and include/isa.h: the register set [REG R], the heap
    headers, the type descriptors and the module links, over the byte memory
    of [Mem].  Addresses and pointers are unsigned 64-bit integers; a [WORD]
    is read signed.  Everything an instruction can reach through an operand
    (frames, module data, records, list cells, array elements and the
    instructions themselves) is in the memory; the headers of heap blocks,
    the [Array] and [String] structures and the type descriptors, which only
    the interpreter's own code touches, are records indexed by the address
    of the block. *)

From S2P Require Import Prelude Mem.

(** ** Constants of include/isa.h and include/interp.h *)

Definition IBY2WD : Z := 8.
Definition IBY2LG : Z := 8.
Definition NREG : Z := 5.
Definition nil : Z := 0.
(** [#define H ((void* )(-1))] *)
Definition H : Z := M64 - 1.
Definition Runeself : Z := 128.

Definition exBounds : string := "array bounds error".
Definition exNilref : string := "dereference of nil".
Definition exNegsize : string := "negative array size".
Definition exHeap : string := "out of memory: heap".
Definition exNomem : string := "out of memory: main".
Definition exOp : string := "illegal dis instruction".
Definition exTcheck : string := "type check".
Definition exModule : string := "module not loaded".
Definition exAlt : string := "alt send/recv on same chan".

(** ** The register set *)

(** [R.t] is not a field: the middle operand can point to it ([R.m = &R.t]),
    so it lives in the memory, at the address [aRt] of the machine. *)
Record REG := mkREG {
  R_PC : Z;  (* program counter: address of an Inst *)
  R_MP : Z;  (* module data *)
  R_FP : Z;  (* frame pointer *)
  R_SP : Z;  (* stack pointer *)
  R_TS : Z;  (* top of the allocated stack *)
  R_EX : Z;  (* extent register *)
  R_M : Z;   (* current module link *)
  R_IC : Z;  (* instruction count left in this quantum *)
  R_s : Z;   (* source operand *)
  R_d : Z;   (* destination operand *)
  R_m : Z;   (* middle operand *)
}.

(** ** Type descriptors *)

(** The function pointers [Type.free]: those of heap.c, and [FreeOther f] for
    the functions other C modules install. *)
Inductive freefn := FreeHeap | FreeArray | FreeList | FreeString | FreeNil | FreeOther (f : Z).

Record Ty := mkTy {
  t_ref : Z;
  t_free : freefn;
  t_size : Z;
  t_np : Z;          (* bytes of the pointer map *)
  t_map : list Z;    (* one bit per word, most significant first *)
}.

(** Addresses of the static descriptors of heap.c. *)
Definition Tarray : Z := 64.
Definition Tstring : Z := 128.
Definition Tlist : Z := 192.
Definition Tptr : Z := 256.

(** ** Heap blocks *)

Record Heap := mkHeap {
  h_color : Z;
  h_ref : Z;     (* uvlong *)
  h_t : Z;       (* Type*, nil when the block has none *)
  h_msize : Z;   (* data bytes of the pool block that holds it *)
}.

Record Arr := mkArr { a_len : Z; a_t : Z; a_root : Z; a_data : Z }.

(** A string holds [len] bytes ([len >= 0]) or [-len] runes ([len < 0]);
    [max] is its capacity in the unit it is used in. *)
Record Str := mkStr { s_len : Z; s_max : Z; s_data : list Z }.

Record Modlink := mkModlink {
  ml_MP : Z;
  ml_compiled : bool;
  ml_prog : Z;           (* address of the first instruction *)
  ml_type : list Z;      (* type descriptors *)
}.

Record VM := mkVM {
  R : REG;
  mem : memory;
  aRt : Z;
  types : gmap Z Ty;
  heaps : gmap Z Heap;
  arrays : gmap Z Arr;
  strs : gmap Z Str;
  mods : gmap Z Modlink;
  gchalt : Z;
  mutator : Z;
  nprop : Z;
}.

Definition with_R (f : REG -> REG) (s : VM) : VM :=
  mkVM (f (R s)) (mem s) (aRt s) (types s) (heaps s) (arrays s) (strs s) (mods s) (gchalt s) (mutator s) (nprop s).
Definition with_mem (f : memory -> memory) (s : VM) : VM :=
  mkVM (R s) (f (mem s)) (aRt s) (types s) (heaps s) (arrays s) (strs s) (mods s) (gchalt s) (mutator s) (nprop s).
Definition with_types (f : gmap Z Ty -> gmap Z Ty) (s : VM) : VM :=
  mkVM (R s) (mem s) (aRt s) (f (types s)) (heaps s) (arrays s) (strs s) (mods s) (gchalt s) (mutator s) (nprop s).
Definition with_heaps (f : gmap Z Heap -> gmap Z Heap) (s : VM) : VM :=
  mkVM (R s) (mem s) (aRt s) (types s) (f (heaps s)) (arrays s) (strs s) (mods s) (gchalt s) (mutator s) (nprop s).
Definition with_arrays (f : gmap Z Arr -> gmap Z Arr) (s : VM) : VM :=
  mkVM (R s) (mem s) (aRt s) (types s) (heaps s) (f (arrays s)) (strs s) (mods s) (gchalt s) (mutator s) (nprop s).
Definition with_strs (f : gmap Z Str -> gmap Z Str) (s : VM) : VM :=
  mkVM (R s) (mem s) (aRt s) (types s) (heaps s) (arrays s) (f (strs s)) (mods s) (gchalt s) (mutator s) (nprop s).
Definition with_gchalt (f : Z -> Z) (s : VM) : VM :=
  mkVM (R s) (mem s) (aRt s) (types s) (heaps s) (arrays s) (strs s) (mods s) (f (gchalt s)) (mutator s) (nprop s).
Definition with_nprop (v : Z) (s : VM) : VM :=
  mkVM (R s) (mem s) (aRt s) (types s) (heaps s) (arrays s) (strs s) (mods s) (gchalt s) (mutator s) v.

Definition set_PC (v : Z) (r : REG) : REG :=
  mkREG v (R_MP r) (R_FP r) (R_SP r) (R_TS r) (R_EX r) (R_M r) (R_IC r) (R_s r) (R_d r) (R_m r).
Definition set_FP (v : Z) (r : REG) : REG :=
  mkREG (R_PC r) (R_MP r) v (R_SP r) (R_TS r) (R_EX r) (R_M r) (R_IC r) (R_s r) (R_d r) (R_m r).
Definition set_SP (v : Z) (r : REG) : REG :=
  mkREG (R_PC r) (R_MP r) (R_FP r) v (R_TS r) (R_EX r) (R_M r) (R_IC r) (R_s r) (R_d r) (R_m r).
Definition set_IC (v : Z) (r : REG) : REG :=
  mkREG (R_PC r) (R_MP r) (R_FP r) (R_SP r) (R_TS r) (R_EX r) (R_M r) v (R_s r) (R_d r) (R_m r).
Definition set_s (v : Z) (r : REG) : REG :=
  mkREG (R_PC r) (R_MP r) (R_FP r) (R_SP r) (R_TS r) (R_EX r) (R_M r) (R_IC r) v (R_d r) (R_m r).
Definition set_d (v : Z) (r : REG) : REG :=
  mkREG (R_PC r) (R_MP r) (R_FP r) (R_SP r) (R_TS r) (R_EX r) (R_M r) (R_IC r) (R_s r) v (R_m r).
Definition set_m (v : Z) (r : REG) : REG :=
  mkREG (R_PC r) (R_MP r) (R_FP r) (R_SP r) (R_TS r) (R_EX r) (R_M r) (R_IC r) (R_s r) (R_d r) v.

Abbreviation M := (ST VM).

(** ** Memory access *)

Definition ld (n : nat) (a : Z) : M Z := fun s =>
  match load n (mem s) a with Some v => Ok v s | None => Fault end.
Definition st (n : nat) (a v : Z) : M unit := fun s =>
  match store n (mem s) a v with Some m => Ok tt (with_mem (fun _ => m) s) | None => Fault end.

(** Pointer arithmetic is modulo the address space. *)
Definition padd (a b : Z) : Z := u64 (a + b).

Definition reg (f : REG -> Z) : M Z := gets (fun s => f (R s)).
Definition put_reg (f : Z -> REG -> REG) (v : Z) : M unit := modify (with_R (f v)).

(** The accessor macros of xec.c.  [B(r)], [W(r)], [UW(r)], [W32(r)], [V(r)],
    [SH(r)] as values; [P(r)], [S(r)], [A(r)], [L(r)], [T(r)] read the word as
    an address. *)
Definition B (r : REG -> Z) : M Z := a ← reg r; ld 1 a.
Definition W (r : REG -> Z) : M Z := a ← reg r; v ← ld 8 a; mret (s64 v).
Definition UW (r : REG -> Z) : M Z := a ← reg r; ld 8 a.
Definition W32 (r : REG -> Z) : M Z := a ← reg r; v ← ld 4 a; mret (s32 v).
Definition SH (r : REG -> Z) : M Z := a ← reg r; v ← ld 2 a; mret (s16 v).
Definition V (r : REG -> Z) : M Z := W r.
Definition UV (r : REG -> Z) : M Z := UW r.
Definition P (r : REG -> Z) : M Z := UW r.

Definition setB (r : REG -> Z) (v : Z) : M unit := a ← reg r; st 1 a v.
Definition setW (r : REG -> Z) (v : Z) : M unit := a ← reg r; st 8 a v.
Definition setSH (r : REG -> Z) (v : Z) : M unit := a ← reg r; st 2 a v.
Definition setP (r : REG -> Z) (v : Z) : M unit := setW r v.
#[global] Arguments padd : simpl never.

(** ** Reasoning about operand access *)

(** [s'] is [s] after the [n] bytes at [a] were overwritten with [v]. *)
Definition wrote (n : nat) (a v : Z) (s s' : VM) : Prop :=
  exists m, store n (mem s) a v = Some m /\ s' = with_mem (fun _ => m) s.

Section operands.
Implicit Types (s : VM) (r : REG -> Z).

Lemma ld_ok n a s v : load n (mem s) a = Some v -> ld n a s = Ok v s.
Proof. intros E. unfold ld. by rewrite E. Qed.
Lemma ld_ok_inv n a s v s' : ld n a s = Ok v s' -> s' = s /\ load n (mem s) a = Some v.
Proof. unfold ld. case_opt; intros; by simplify_eq. Qed.

Lemma W_ok r s v : load 8 (mem s) (r (R s)) = Some v -> W r s = Ok (s64 v) s.
Proof. intros E. unfold W, mbind, ST_bind, reg, gets. by rewrite (ld_ok _ _ _ _ E). Qed.
Lemma UW_ok r s v : load 8 (mem s) (r (R s)) = Some v -> UW r s = Ok v s.
Proof. intros E. unfold UW, mbind, ST_bind, reg, gets. by rewrite (ld_ok _ _ _ _ E). Qed.
Lemma B_ok r s v : load 1 (mem s) (r (R s)) = Some v -> B r s = Ok v s.
Proof. intros E. unfold B, mbind, ST_bind, reg, gets. by rewrite (ld_ok _ _ _ _ E). Qed.
Lemma W32_ok r s v : load 4 (mem s) (r (R s)) = Some v -> W32 r s = Ok (s32 v) s.
Proof. intros E. unfold W32, mbind, ST_bind, reg, gets. by rewrite (ld_ok _ _ _ _ E). Qed.

Lemma st_ok n a v s : mapped (mem s) a n = true -> exists s', st n a v s = Ok tt s' /\ wrote n a v s s'.
Proof.
  intros Hm. destruct (store_is_Some n (mem s) a v Hm) as [m E].
  exists (with_mem (fun _ => m) s). unfold st. rewrite E. split; [done|]. by exists m.
Qed.
Lemma st_wrote n a v s s' : wrote n a v s s' -> st n a v s = Ok tt s'.
Proof. intros (m & E & ->). unfold st. by rewrite E. Qed.

Lemma setW_ok r v s :
  mapped (mem s) (r (R s)) 8 = true ->
  exists s', setW r v s = Ok tt s' /\ wrote 8 (r (R s)) v s s'.
Proof. intros Hm. by apply st_ok. Qed.
Lemma setB_ok r v s :
  mapped (mem s) (r (R s)) 1 = true ->
  exists s', setB r v s = Ok tt s' /\ wrote 1 (r (R s)) v s s'.
Proof. intros Hm. by apply st_ok. Qed.

Lemma wrote_R n a v s s' : wrote n a v s s' -> R s' = R s.
Proof. by intros (m & _ & ->). Qed.
Lemma wrote_load n a v s s' : wrote n a v s s' -> load n (mem s') a = Some (v mod pow8 n).
Proof. intros (m & E & ->). by eapply load_store_same. Qed.
Lemma wrote_other n a v s s' k b :
  wrote n a v s s' -> b + Z.of_nat k <= a \/ a + Z.of_nat n <= b ->
  load k (mem s') b = load k (mem s) b.
Proof. intros (m & E & ->) Hb. by eapply load_store_other. Qed.
Lemma wrote_mapped n a v s s' b k :
  wrote n a v s s' -> mapped (mem s) b k = true -> mapped (mem s') b k = true.
Proof. intros (m & E & ->) Hb. by eapply store_mapped. Qed.

(** A word written is read back as the 64-bit two's complement value. *)
Lemma wrote_W r v s s' : wrote 8 (r (R s)) v s s' -> W r s' = Ok (s64 v) s'.
Proof.
  intros Hw. erewrite W_ok; [|rewrite (wrote_R _ _ _ _ _ Hw); by eapply wrote_load].
  f_equal. change (pow8 8) with M64. apply s64_u64.
Qed.
Lemma wrote_B r v s s' : wrote 1 (r (R s)) v s s' -> B r s' = Ok (u8 v) s'.
Proof.
  intros Hw. erewrite B_ok; [|rewrite (wrote_R _ _ _ _ _ Hw); by eapply wrote_load]. done.
Qed.
End operands.

Create HintDb vm discriminated.
#[export] Hint Resolve ld_ok W_ok UW_ok B_ok W32_ok st_wrote wrote_W wrote_B : vm.

(** Run one computation of a sequence whose effect the database knows. *)
Ltac vm_step := erewrite bind_ok; [|solve [eauto with vm]].

Lemma padd_padd a b c : padd (padd a b) c = padd a (b + c).
Proof. unfold padd. int_lia. Qed.
Lemma padd_u64 a b : padd (u64 a) b = padd a b.
Proof. unfold padd. int_lia. Qed.

(** ** Small concrete machines *)

Definition words (l : list (Z * Z)) : memory :=
  foldr (fun (e : Z * Z) m => put_bytes m e.1 (le_bytes 8 e.2)) ∅ l.

(** Operands at [s], [m] and [d], program counter at [pc], over the words
    [l]; one module link at address 1. *)
Definition machine (pc s m d : Z) (l : list (Z * Z)) : VM :=
  mkVM (mkREG pc 4096 8192 0 0 0 1 0 s d m) (words l) 512 ∅ ∅ ∅ ∅
       {[1 := mkModlink 4096 false 65536 []]} 0 0 0.

#[export] Instance byte_mem_dec m : Decision (byte_mem m).
Proof. unfold byte_mem. apply _. Defined.
Ltac by_eval :=
  lazymatch goal with
  | |- byte_mem _ => apply (bool_decide_unpack _); vm_compute; exact I
  | |- _ => vm_compute; reflexivity
  end.
