(* ===== verification/Dec.v ===== *)
(** * Operand decoding (libinterp/dec.c and its generator libinterp/decgen.c)

    The addressing byte of an instruction selects one of the 256 functions of
    [dec], which set [R.s], [R.d] and [R.m].  dec.c is the generated table,
    modelled function by function; [decgen] models the generator, and the
    reference semantics [ea_src], [ea_dst], [ea_mid] reads the addressing
    byte as three bit fields. *)

From S2P Require Import Prelude Mem Vm.

(** ** Addressing modes of include/isa.h *)

Definition AMP : Z := 0.
Definition AFP : Z := 1.
Definition AIMM : Z := 2.
Definition AIND : Z := 4.
Definition AMASK : Z := 7.
Definition ARM : Z := 192.
Definition AXNON : Z := 0.
Definition AXIMM : Z := 64.
Definition AXINF : Z := 128.
Definition AXINM : Z := 192.

Definition USRC (x : Z) : Z := Z.land (Z.shiftr x 3) AMASK.
Definition UDST (x : Z) : Z := Z.land x AMASK.

(** ** The layout of [Inst] and [Adr] *)

Definition off_op : Z := 0.
Definition off_add : Z := 1.
Definition off_reg : Z := 2.
Definition off_s : Z := 8.
Definition off_d : Z := 16.
Definition sizeof_Inst : Z := 24.

(** ** The statements of the generated functions *)

Definition adr_s : M Z := pc ← reg R_PC; mret (padd pc off_s).
Definition adr_d : M Z := pc ← reg R_PC; mret (padd pc off_d).
(** [R.PC->s.ind], [R.PC->d.ind] and [R.PC->reg] *)
Definition s_ind : M Z := a ← adr_s; ld 8 a.
Definition d_ind : M Z := a ← adr_d; ld 8 a.
Definition reg_off : M Z := pc ← reg R_PC; ld 2 (padd pc off_reg).
(** [&R.PC->s.imm] and [&R.PC->d.imm] *)
Definition s_imm : M Z := adr_s.
Definition d_imm : M Z := adr_d.
(** [R.reg + offset] *)
Definition ind (r : REG -> Z) (off : M Z) : M Z := b ← reg r; o ← off; mret (padd b o).
(** [#define DIND(reg, xxx)] *)
Definition DIND (r : REG -> Z) (adr : M Z) : M Z :=
  a ← adr;
  i_f ← ld 2 a;
  i_s ← ld 2 (padd a 2);
  b ← reg r;
  p ← ld 8 (padd b i_f);
  mret (padd p i_s).
Definition addr_t : M Z := gets aRt.
(** [R.t = (short)R.PC->reg] *)
Definition set_t_reg : M unit := v ← reg_off; a ← addr_t; st 8 a (s16 v).

Definition set_src (c : M Z) : M unit := v ← c; put_reg set_s v.
Definition set_dst (c : M Z) : M unit := v ← c; put_reg set_d v.
Definition set_mid (c : M Z) : M unit := v ← c; put_reg set_m v.

(** ** dec.c *)

Definition D00 : M unit := set_src (ind R_MP s_ind) ;; set_dst (ind R_MP d_ind) ;; set_mid (reg R_d).
Definition D01 : M unit := set_src (ind R_MP s_ind) ;; set_dst (ind R_FP d_ind) ;; set_mid (reg R_d).
Definition D02 : M unit := set_src (ind R_MP s_ind) ;; set_dst d_imm ;; set_mid (reg R_d).
Definition D03 : M unit := set_src (ind R_MP s_ind).
Definition D04 : M unit := set_src (ind R_MP s_ind) ;; set_dst (DIND R_MP adr_d) ;; set_mid (reg R_d).
Definition D05 : M unit := set_src (ind R_MP s_ind) ;; set_dst (DIND R_FP adr_d) ;; set_mid (reg R_d).
Definition D06 : M unit := set_src (ind R_MP s_ind).
Definition D07 : M unit := set_src (ind R_MP s_ind).
Definition D08 : M unit := set_src (ind R_FP s_ind) ;; set_dst (ind R_MP d_ind) ;; set_mid (reg R_d).
Definition D09 : M unit := set_src (ind R_FP s_ind) ;; set_dst (ind R_FP d_ind) ;; set_mid (reg R_d).
Definition D0A : M unit := set_src (ind R_FP s_ind) ;; set_dst d_imm ;; set_mid (reg R_d).
Definition D0B : M unit := set_src (ind R_FP s_ind).
Definition D0C : M unit := set_src (ind R_FP s_ind) ;; set_dst (DIND R_MP adr_d) ;; set_mid (reg R_d).
Definition D0D : M unit := set_src (ind R_FP s_ind) ;; set_dst (DIND R_FP adr_d) ;; set_mid (reg R_d).
Definition D0E : M unit := set_src (ind R_FP s_ind).
Definition D0F : M unit := set_src (ind R_FP s_ind).
Definition D10 : M unit := set_src s_imm ;; set_dst (ind R_MP d_ind) ;; set_mid (reg R_d).
Definition D11 : M unit := set_src s_imm ;; set_dst (ind R_FP d_ind) ;; set_mid (reg R_d).
Definition D12 : M unit := set_src s_imm ;; set_dst d_imm ;; set_mid (reg R_d).
Definition D13 : M unit := set_src s_imm.
Definition D14 : M unit := set_src s_imm ;; set_dst (DIND R_MP adr_d) ;; set_mid (reg R_d).
Definition D15 : M unit := set_src s_imm ;; set_dst (DIND R_FP adr_d) ;; set_mid (reg R_d).
Definition D16 : M unit := set_src s_imm.
Definition D17 : M unit := set_src s_imm.
Definition D18 : M unit := set_dst (ind R_MP d_ind) ;; set_mid (reg R_d).
Definition D19 : M unit := set_dst (ind R_FP d_ind) ;; set_mid (reg R_d).
Definition D1A : M unit := set_dst d_imm ;; set_mid (reg R_d).
Definition D1B : M unit := mret tt.
Definition D1C : M unit := set_dst (DIND R_MP adr_d) ;; set_mid (reg R_d).
Definition D1D : M unit := set_dst (DIND R_FP adr_d) ;; set_mid (reg R_d).
Definition D1E : M unit := mret tt.
Definition D1F : M unit := mret tt.
Definition D20 : M unit := set_src (DIND R_MP adr_s) ;; set_dst (ind R_MP d_ind) ;; set_mid (reg R_d).
Definition D21 : M unit := set_src (DIND R_MP adr_s) ;; set_dst (ind R_FP d_ind) ;; set_mid (reg R_d).
Definition D22 : M unit := set_src (DIND R_MP adr_s) ;; set_dst d_imm ;; set_mid (reg R_d).
Definition D23 : M unit := set_src (DIND R_MP adr_s).
Definition D24 : M unit := set_src (DIND R_MP adr_s) ;; set_dst (DIND R_MP adr_d) ;; set_mid (reg R_d).
Definition D25 : M unit := set_src (DIND R_MP adr_s) ;; set_dst (DIND R_FP adr_d) ;; set_mid (reg R_d).
Definition D26 : M unit := set_src (DIND R_MP adr_s).
Definition D27 : M unit := set_src (DIND R_MP adr_s).
Definition D28 : M unit := set_src (DIND R_FP adr_s) ;; set_dst (ind R_MP d_ind) ;; set_mid (reg R_d).
Definition D29 : M unit := set_src (DIND R_FP adr_s) ;; set_dst (ind R_FP d_ind) ;; set_mid (reg R_d).
Definition D2A : M unit := set_src (DIND R_FP adr_s) ;; set_dst d_imm ;; set_mid (reg R_d).
Definition D2B : M unit := set_src (DIND R_FP adr_s).
Definition D2C : M unit := set_src (DIND R_FP adr_s) ;; set_dst (DIND R_MP adr_d) ;; set_mid (reg R_d).
Definition D2D : M unit := set_src (DIND R_FP adr_s) ;; set_dst (DIND R_FP adr_d) ;; set_mid (reg R_d).
Definition D2E : M unit := set_src (DIND R_FP adr_s).
Definition D2F : M unit := set_src (DIND R_FP adr_s).
Definition D30 : M unit := set_dst (ind R_MP d_ind) ;; set_mid (reg R_d).
Definition D31 : M unit := set_dst (ind R_FP d_ind) ;; set_mid (reg R_d).
Definition D32 : M unit := set_dst d_imm ;; set_mid (reg R_d).
Definition D33 : M unit := mret tt.
Definition D34 : M unit := set_dst (DIND R_MP adr_d) ;; set_mid (reg R_d).
Definition D35 : M unit := set_dst (DIND R_FP adr_d) ;; set_mid (reg R_d).
Definition D36 : M unit := mret tt.
Definition D37 : M unit := mret tt.
Definition D38 : M unit := set_dst (ind R_MP d_ind) ;; set_mid (reg R_d).
Definition D39 : M unit := set_dst (ind R_FP d_ind) ;; set_mid (reg R_d).
Definition D3A : M unit := set_dst d_imm ;; set_mid (reg R_d).
Definition D3B : M unit := mret tt.
Definition D3C : M unit := set_dst (DIND R_MP adr_d) ;; set_mid (reg R_d).
Definition D3D : M unit := set_dst (DIND R_FP adr_d) ;; set_mid (reg R_d).
Definition D3E : M unit := mret tt.
Definition D3F : M unit := mret tt.
Definition D40 : M unit := set_src (ind R_MP s_ind) ;; set_dst (ind R_MP d_ind) ;; set_t_reg ;; set_mid addr_t.
Definition D41 : M unit := set_src (ind R_MP s_ind) ;; set_dst (ind R_FP d_ind) ;; set_t_reg ;; set_mid addr_t.
Definition D42 : M unit := set_src (ind R_MP s_ind) ;; set_dst d_imm ;; set_t_reg ;; set_mid addr_t.
Definition D43 : M unit := set_src (ind R_MP s_ind).
Definition D44 : M unit := set_src (ind R_MP s_ind) ;; set_dst (DIND R_MP adr_d) ;; set_t_reg ;; set_mid addr_t.
Definition D45 : M unit := set_src (ind R_MP s_ind) ;; set_dst (DIND R_FP adr_d) ;; set_t_reg ;; set_mid addr_t.
Definition D46 : M unit := set_src (ind R_MP s_ind).
Definition D47 : M unit := set_src (ind R_MP s_ind).
Definition D48 : M unit := set_src (ind R_FP s_ind) ;; set_dst (ind R_MP d_ind) ;; set_t_reg ;; set_mid addr_t.
Definition D49 : M unit := set_src (ind R_FP s_ind) ;; set_dst (ind R_FP d_ind) ;; set_t_reg ;; set_mid addr_t.
Definition D4A : M unit := set_src (ind R_FP s_ind) ;; set_dst d_imm ;; set_t_reg ;; set_mid addr_t.
Definition D4B : M unit := set_src (ind R_FP s_ind).
Definition D4C : M unit := set_src (ind R_FP s_ind) ;; set_dst (DIND R_MP adr_d) ;; set_t_reg ;; set_mid addr_t.
Definition D4D : M unit := set_src (ind R_FP s_ind) ;; set_dst (DIND R_FP adr_d) ;; set_t_reg ;; set_mid addr_t.
Definition D4E : M unit := set_src (ind R_FP s_ind).
Definition D4F : M unit := set_src (ind R_FP s_ind).
Definition D50 : M unit := set_src s_imm ;; set_dst (ind R_MP d_ind) ;; set_t_reg ;; set_mid addr_t.
Definition D51 : M unit := set_src s_imm ;; set_dst (ind R_FP d_ind) ;; set_t_reg ;; set_mid addr_t.
Definition D52 : M unit := set_src s_imm ;; set_dst d_imm ;; set_t_reg ;; set_mid addr_t.
Definition D53 : M unit := set_src s_imm.
Definition D54 : M unit := set_src s_imm ;; set_dst (DIND R_MP adr_d) ;; set_t_reg ;; set_mid addr_t.
Definition D55 : M unit := set_src s_imm ;; set_dst (DIND R_FP adr_d) ;; set_t_reg ;; set_mid addr_t.
Definition D56 : M unit := set_src s_imm.
Definition D57 : M unit := set_src s_imm.
Definition D58 : M unit := set_dst (ind R_MP d_ind) ;; set_t_reg ;; set_mid addr_t.
Definition D59 : M unit := set_dst (ind R_FP d_ind) ;; set_t_reg ;; set_mid addr_t.
Definition D5A : M unit := set_dst d_imm ;; set_t_reg ;; set_mid addr_t.
Definition D5B : M unit := mret tt.
Definition D5C : M unit := set_dst (DIND R_MP adr_d) ;; set_t_reg ;; set_mid addr_t.
Definition D5D : M unit := set_dst (DIND R_FP adr_d) ;; set_t_reg ;; set_mid addr_t.
Definition D5E : M unit := mret tt.
Definition D5F : M unit := mret tt.
Definition D60 : M unit := set_src (DIND R_MP adr_s) ;; set_dst (ind R_MP d_ind) ;; set_t_reg ;; set_mid addr_t.
Definition D61 : M unit := set_src (DIND R_MP adr_s) ;; set_dst (ind R_FP d_ind) ;; set_t_reg ;; set_mid addr_t.
Definition D62 : M unit := set_src (DIND R_MP adr_s) ;; set_dst d_imm ;; set_t_reg ;; set_mid addr_t.
Definition D63 : M unit := set_src (DIND R_MP adr_s).
Definition D64 : M unit := set_src (DIND R_MP adr_s) ;; set_dst (DIND R_MP adr_d) ;; set_t_reg ;; set_mid addr_t.
Definition D65 : M unit := set_src (DIND R_MP adr_s) ;; set_dst (DIND R_FP adr_d) ;; set_t_reg ;; set_mid addr_t.
Definition D66 : M unit := set_src (DIND R_MP adr_s).
Definition D67 : M unit := set_src (DIND R_MP adr_s).
Definition D68 : M unit := set_src (DIND R_FP adr_s) ;; set_dst (ind R_MP d_ind) ;; set_t_reg ;; set_mid addr_t.
Definition D69 : M unit := set_src (DIND R_FP adr_s) ;; set_dst (ind R_FP d_ind) ;; set_t_reg ;; set_mid addr_t.
Definition D6A : M unit := set_src (DIND R_FP adr_s) ;; set_dst d_imm ;; set_t_reg ;; set_mid addr_t.
Definition D6B : M unit := set_src (DIND R_FP adr_s).
Definition D6C : M unit := set_src (DIND R_FP adr_s) ;; set_dst (DIND R_MP adr_d) ;; set_t_reg ;; set_mid addr_t.
Definition D6D : M unit := set_src (DIND R_FP adr_s) ;; set_dst (DIND R_FP adr_d) ;; set_t_reg ;; set_mid addr_t.
Definition D6E : M unit := set_src (DIND R_FP adr_s).
Definition D6F : M unit := set_src (DIND R_FP adr_s).
Definition D70 : M unit := set_dst (ind R_MP d_ind) ;; set_t_reg ;; set_mid addr_t.
Definition D71 : M unit := set_dst (ind R_FP d_ind) ;; set_t_reg ;; set_mid addr_t.
Definition D72 : M unit := set_dst d_imm ;; set_t_reg ;; set_mid addr_t.
Definition D73 : M unit := mret tt.
Definition D74 : M unit := set_dst (DIND R_MP adr_d) ;; set_t_reg ;; set_mid addr_t.
Definition D75 : M unit := set_dst (DIND R_FP adr_d) ;; set_t_reg ;; set_mid addr_t.
Definition D76 : M unit := mret tt.
Definition D77 : M unit := mret tt.
Definition D78 : M unit := set_dst (ind R_MP d_ind) ;; set_t_reg ;; set_mid addr_t.
Definition D79 : M unit := set_dst (ind R_FP d_ind) ;; set_t_reg ;; set_mid addr_t.
Definition D7A : M unit := set_dst d_imm ;; set_t_reg ;; set_mid addr_t.
Definition D7B : M unit := mret tt.
Definition D7C : M unit := set_dst (DIND R_MP adr_d) ;; set_t_reg ;; set_mid addr_t.
Definition D7D : M unit := set_dst (DIND R_FP adr_d) ;; set_t_reg ;; set_mid addr_t.
Definition D7E : M unit := mret tt.
Definition D7F : M unit := mret tt.
Definition D80 : M unit := set_src (ind R_MP s_ind) ;; set_dst (ind R_MP d_ind) ;; set_mid (ind R_FP reg_off).
Definition D81 : M unit := set_src (ind R_MP s_ind) ;; set_dst (ind R_FP d_ind) ;; set_mid (ind R_FP reg_off).
Definition D82 : M unit := set_src (ind R_MP s_ind) ;; set_dst d_imm ;; set_mid (ind R_FP reg_off).
Definition D83 : M unit := set_src (ind R_MP s_ind).
Definition D84 : M unit := set_src (ind R_MP s_ind) ;; set_dst (DIND R_MP adr_d) ;; set_mid (ind R_FP reg_off).
Definition D85 : M unit := set_src (ind R_MP s_ind) ;; set_dst (DIND R_FP adr_d) ;; set_mid (ind R_FP reg_off).
Definition D86 : M unit := set_src (ind R_MP s_ind).
Definition D87 : M unit := set_src (ind R_MP s_ind).
Definition D88 : M unit := set_src (ind R_FP s_ind) ;; set_dst (ind R_MP d_ind) ;; set_mid (ind R_FP reg_off).
Definition D89 : M unit := set_src (ind R_FP s_ind) ;; set_dst (ind R_FP d_ind) ;; set_mid (ind R_FP reg_off).
Definition D8A : M unit := set_src (ind R_FP s_ind) ;; set_dst d_imm ;; set_mid (ind R_FP reg_off).
Definition D8B : M unit := set_src (ind R_FP s_ind).
Definition D8C : M unit := set_src (ind R_FP s_ind) ;; set_dst (DIND R_MP adr_d) ;; set_mid (ind R_FP reg_off).
Definition D8D : M unit := set_src (ind R_FP s_ind) ;; set_dst (DIND R_FP adr_d) ;; set_mid (ind R_FP reg_off).
Definition D8E : M unit := set_src (ind R_FP s_ind).
Definition D8F : M unit := set_src (ind R_FP s_ind).
Definition D90 : M unit := set_src s_imm ;; set_dst (ind R_MP d_ind) ;; set_mid (ind R_FP reg_off).
Definition D91 : M unit := set_src s_imm ;; set_dst (ind R_FP d_ind) ;; set_mid (ind R_FP reg_off).
Definition D92 : M unit := set_src s_imm ;; set_dst d_imm ;; set_mid (ind R_FP reg_off).
Definition D93 : M unit := set_src s_imm.
Definition D94 : M unit := set_src s_imm ;; set_dst (DIND R_MP adr_d) ;; set_mid (ind R_FP reg_off).
Definition D95 : M unit := set_src s_imm ;; set_dst (DIND R_FP adr_d) ;; set_mid (ind R_FP reg_off).
Definition D96 : M unit := set_src s_imm.
Definition D97 : M unit := set_src s_imm.
Definition D98 : M unit := set_dst (ind R_MP d_ind) ;; set_mid (ind R_FP reg_off).
Definition D99 : M unit := set_dst (ind R_FP d_ind) ;; set_mid (ind R_FP reg_off).
Definition D9A : M unit := set_dst d_imm ;; set_mid (ind R_FP reg_off).
Definition D9B : M unit := mret tt.
Definition D9C : M unit := set_dst (DIND R_MP adr_d) ;; set_mid (ind R_FP reg_off).
Definition D9D : M unit := set_dst (DIND R_FP adr_d) ;; set_mid (ind R_FP reg_off).
Definition D9E : M unit := mret tt.
Definition D9F : M unit := mret tt.
Definition DA0 : M unit := set_src (DIND R_MP adr_s) ;; set_dst (ind R_MP d_ind) ;; set_mid (ind R_FP reg_off).
Definition DA1 : M unit := set_src (DIND R_MP adr_s) ;; set_dst (ind R_FP d_ind) ;; set_mid (ind R_FP reg_off).
Definition DA2 : M unit := set_src (DIND R_MP adr_s) ;; set_dst d_imm ;; set_mid (ind R_FP reg_off).
Definition DA3 : M unit := set_src (DIND R_MP adr_s).
Definition DA4 : M unit := set_src (DIND R_MP adr_s) ;; set_dst (DIND R_MP adr_d) ;; set_mid (ind R_FP reg_off).
Definition DA5 : M unit := set_src (DIND R_MP adr_s) ;; set_dst (DIND R_FP adr_d) ;; set_mid (ind R_FP reg_off).
Definition DA6 : M unit := set_src (DIND R_MP adr_s).
Definition DA7 : M unit := set_src (DIND R_MP adr_s).
Definition DA8 : M unit := set_src (DIND R_FP adr_s) ;; set_dst (ind R_MP d_ind) ;; set_mid (ind R_FP reg_off).
Definition DA9 : M unit := set_src (DIND R_FP adr_s) ;; set_dst (ind R_FP d_ind) ;; set_mid (ind R_FP reg_off).
Definition DAA : M unit := set_src (DIND R_FP adr_s) ;; set_dst d_imm ;; set_mid (ind R_FP reg_off).
Definition DAB : M unit := set_src (DIND R_FP adr_s).
Definition DAC : M unit := set_src (DIND R_FP adr_s) ;; set_dst (DIND R_MP adr_d) ;; set_mid (ind R_FP reg_off).
Definition DAD : M unit := set_src (DIND R_FP adr_s) ;; set_dst (DIND R_FP adr_d) ;; set_mid (ind R_FP reg_off).
Definition DAE : M unit := set_src (DIND R_FP adr_s).
Definition DAF : M unit := set_src (DIND R_FP adr_s).
Definition DB0 : M unit := set_dst (ind R_MP d_ind) ;; set_mid (ind R_FP reg_off).
Definition DB1 : M unit := set_dst (ind R_FP d_ind) ;; set_mid (ind R_FP reg_off).
Definition DB2 : M unit := set_dst d_imm ;; set_mid (ind R_FP reg_off).
Definition DB3 : M unit := mret tt.
Definition DB4 : M unit := set_dst (DIND R_MP adr_d) ;; set_mid (ind R_FP reg_off).
Definition DB5 : M unit := set_dst (DIND R_FP adr_d) ;; set_mid (ind R_FP reg_off).
Definition DB6 : M unit := mret tt.
Definition DB7 : M unit := mret tt.
Definition DB8 : M unit := set_dst (ind R_MP d_ind) ;; set_mid (ind R_FP reg_off).
Definition DB9 : M unit := set_dst (ind R_FP d_ind) ;; set_mid (ind R_FP reg_off).
Definition DBA : M unit := set_dst d_imm ;; set_mid (ind R_FP reg_off).
Definition DBB : M unit := mret tt.
Definition DBC : M unit := set_dst (DIND R_MP adr_d) ;; set_mid (ind R_FP reg_off).
Definition DBD : M unit := set_dst (DIND R_FP adr_d) ;; set_mid (ind R_FP reg_off).
Definition DBE : M unit := mret tt.
Definition DBF : M unit := mret tt.
Definition DC0 : M unit := set_src (ind R_MP s_ind) ;; set_dst (ind R_MP d_ind) ;; set_mid (ind R_MP reg_off).
Definition DC1 : M unit := set_src (ind R_MP s_ind) ;; set_dst (ind R_FP d_ind) ;; set_mid (ind R_MP reg_off).
Definition DC2 : M unit := set_src (ind R_MP s_ind) ;; set_dst d_imm ;; set_mid (ind R_MP reg_off).
Definition DC3 : M unit := set_src (ind R_MP s_ind).
Definition DC4 : M unit := set_src (ind R_MP s_ind) ;; set_dst (DIND R_MP adr_d) ;; set_mid (ind R_MP reg_off).
Definition DC5 : M unit := set_src (ind R_MP s_ind) ;; set_dst (DIND R_FP adr_d) ;; set_mid (ind R_MP reg_off).
Definition DC6 : M unit := set_src (ind R_MP s_ind).
Definition DC7 : M unit := set_src (ind R_MP s_ind).
Definition DC8 : M unit := set_src (ind R_FP s_ind) ;; set_dst (ind R_MP d_ind) ;; set_mid (ind R_MP reg_off).
Definition DC9 : M unit := set_src (ind R_FP s_ind) ;; set_dst (ind R_FP d_ind) ;; set_mid (ind R_MP reg_off).
Definition DCA : M unit := set_src (ind R_FP s_ind) ;; set_dst d_imm ;; set_mid (ind R_MP reg_off).
Definition DCB : M unit := set_src (ind R_FP s_ind).
Definition DCC : M unit := set_src (ind R_FP s_ind) ;; set_dst (DIND R_MP adr_d) ;; set_mid (ind R_MP reg_off).
Definition DCD : M unit := set_src (ind R_FP s_ind) ;; set_dst (DIND R_FP adr_d) ;; set_mid (ind R_MP reg_off).
Definition DCE : M unit := set_src (ind R_FP s_ind).
Definition DCF : M unit := set_src (ind R_FP s_ind).
Definition DD0 : M unit := set_src s_imm ;; set_dst (ind R_MP d_ind) ;; set_mid (ind R_MP reg_off).
Definition DD1 : M unit := set_src s_imm ;; set_dst (ind R_FP d_ind) ;; set_mid (ind R_MP reg_off).
Definition DD2 : M unit := set_src s_imm ;; set_dst d_imm ;; set_mid (ind R_MP reg_off).
Definition DD3 : M unit := set_src s_imm.
Definition DD4 : M unit := set_src s_imm ;; set_dst (DIND R_MP adr_d) ;; set_mid (ind R_MP reg_off).
Definition DD5 : M unit := set_src s_imm ;; set_dst (DIND R_FP adr_d) ;; set_mid (ind R_MP reg_off).
Definition DD6 : M unit := set_src s_imm.
Definition DD7 : M unit := set_src s_imm.
Definition DD8 : M unit := set_dst (ind R_MP d_ind) ;; set_mid (ind R_MP reg_off).
Definition DD9 : M unit := set_dst (ind R_FP d_ind) ;; set_mid (ind R_MP reg_off).
Definition DDA : M unit := set_dst d_imm ;; set_mid (ind R_MP reg_off).
Definition DDB : M unit := mret tt.
Definition DDC : M unit := set_dst (DIND R_MP adr_d) ;; set_mid (ind R_MP reg_off).
Definition DDD : M unit := set_dst (DIND R_FP adr_d) ;; set_mid (ind R_MP reg_off).
Definition DDE : M unit := mret tt.
Definition DDF : M unit := mret tt.
Definition DE0 : M unit := set_src (DIND R_MP adr_s) ;; set_dst (ind R_MP d_ind) ;; set_mid (ind R_MP reg_off).
Definition DE1 : M unit := set_src (DIND R_MP adr_s) ;; set_dst (ind R_FP d_ind) ;; set_mid (ind R_MP reg_off).
Definition DE2 : M unit := set_src (DIND R_MP adr_s) ;; set_dst d_imm ;; set_mid (ind R_MP reg_off).
Definition DE3 : M unit := set_src (DIND R_MP adr_s).
Definition DE4 : M unit := set_src (DIND R_MP adr_s) ;; set_dst (DIND R_MP adr_d) ;; set_mid (ind R_MP reg_off).
Definition DE5 : M unit := set_src (DIND R_MP adr_s) ;; set_dst (DIND R_FP adr_d) ;; set_mid (ind R_MP reg_off).
Definition DE6 : M unit := set_src (DIND R_MP adr_s).
Definition DE7 : M unit := set_src (DIND R_MP adr_s).
Definition DE8 : M unit := set_src (DIND R_FP adr_s) ;; set_dst (ind R_MP d_ind) ;; set_mid (ind R_MP reg_off).
Definition DE9 : M unit := set_src (DIND R_FP adr_s) ;; set_dst (ind R_FP d_ind) ;; set_mid (ind R_MP reg_off).
Definition DEA : M unit := set_src (DIND R_FP adr_s) ;; set_dst d_imm ;; set_mid (ind R_MP reg_off).
Definition DEB : M unit := set_src (DIND R_FP adr_s).
Definition DEC : M unit := set_src (DIND R_FP adr_s) ;; set_dst (DIND R_MP adr_d) ;; set_mid (ind R_MP reg_off).
Definition DED : M unit := set_src (DIND R_FP adr_s) ;; set_dst (DIND R_FP adr_d) ;; set_mid (ind R_MP reg_off).
Definition DEE : M unit := set_src (DIND R_FP adr_s).
Definition DEF : M unit := set_src (DIND R_FP adr_s).
Definition DF0 : M unit := set_dst (ind R_MP d_ind) ;; set_mid (ind R_MP reg_off).
Definition DF1 : M unit := set_dst (ind R_FP d_ind) ;; set_mid (ind R_MP reg_off).
Definition DF2 : M unit := set_dst d_imm ;; set_mid (ind R_MP reg_off).
Definition DF3 : M unit := mret tt.
Definition DF4 : M unit := set_dst (DIND R_MP adr_d) ;; set_mid (ind R_MP reg_off).
Definition DF5 : M unit := set_dst (DIND R_FP adr_d) ;; set_mid (ind R_MP reg_off).
Definition DF6 : M unit := mret tt.
Definition DF7 : M unit := mret tt.
Definition DF8 : M unit := set_dst (ind R_MP d_ind) ;; set_mid (ind R_MP reg_off).
Definition DF9 : M unit := set_dst (ind R_FP d_ind) ;; set_mid (ind R_MP reg_off).
Definition DFA : M unit := set_dst d_imm ;; set_mid (ind R_MP reg_off).
Definition DFB : M unit := mret tt.
Definition DFC : M unit := set_dst (DIND R_MP adr_d) ;; set_mid (ind R_MP reg_off).
Definition DFD : M unit := set_dst (DIND R_FP adr_d) ;; set_mid (ind R_MP reg_off).
Definition DFE : M unit := mret tt.
Definition DFF : M unit := mret tt.

Definition dec : list (M unit) :=
  [D00; D01; D02; D03; D04; D05; D06; D07;
   D08; D09; D0A; D0B; D0C; D0D; D0E; D0F;
   D10; D11; D12; D13; D14; D15; D16; D17;
   D18; D19; D1A; D1B; D1C; D1D; D1E; D1F;
   D20; D21; D22; D23; D24; D25; D26; D27;
   D28; D29; D2A; D2B; D2C; D2D; D2E; D2F;
   D30; D31; D32; D33; D34; D35; D36; D37;
   D38; D39; D3A; D3B; D3C; D3D; D3E; D3F;
   D40; D41; D42; D43; D44; D45; D46; D47;
   D48; D49; D4A; D4B; D4C; D4D; D4E; D4F;
   D50; D51; D52; D53; D54; D55; D56; D57;
   D58; D59; D5A; D5B; D5C; D5D; D5E; D5F;
   D60; D61; D62; D63; D64; D65; D66; D67;
   D68; D69; D6A; D6B; D6C; D6D; D6E; D6F;
   D70; D71; D72; D73; D74; D75; D76; D77;
   D78; D79; D7A; D7B; D7C; D7D; D7E; D7F;
   D80; D81; D82; D83; D84; D85; D86; D87;
   D88; D89; D8A; D8B; D8C; D8D; D8E; D8F;
   D90; D91; D92; D93; D94; D95; D96; D97;
   D98; D99; D9A; D9B; D9C; D9D; D9E; D9F;
   DA0; DA1; DA2; DA3; DA4; DA5; DA6; DA7;
   DA8; DA9; DAA; DAB; DAC; DAD; DAE; DAF;
   DB0; DB1; DB2; DB3; DB4; DB5; DB6; DB7;
   DB8; DB9; DBA; DBB; DBC; DBD; DBE; DBF;
   DC0; DC1; DC2; DC3; DC4; DC5; DC6; DC7;
   DC8; DC9; DCA; DCB; DCC; DCD; DCE; DCF;
   DD0; DD1; DD2; DD3; DD4; DD5; DD6; DD7;
   DD8; DD9; DDA; DDB; DDC; DDD; DDE; DDF;
   DE0; DE1; DE2; DE3; DE4; DE5; DE6; DE7;
   DE8; DE9; DEA; DEB; DEC; DED; DEE; DEF;
   DF0; DF1; DF2; DF3; DF4; DF5; DF6; DF7;
   DF8; DF9; DFA; DFB; DFC; DFD; DFE; DFF].

(** ** decgen.c

    The generator prints the body of one function; [decgen] is the sequence
    of statements it prints, in the order it prints them. *)

Definition decgen_src (addr : Z) : M unit :=
  let u := USRC addr in
  if u =? AMP then set_src (ind R_MP s_ind)
  else if u =? AFP then set_src (ind R_FP s_ind)
  else if u =? AIMM then set_src s_imm
  else if u =? Z.lor AMP AIND then set_src (DIND R_MP adr_s)
  else if u =? Z.lor AFP AIND then set_src (DIND R_FP adr_s)
  else mret tt.

(** The destination statement and [nodst]. *)
Definition decgen_dst (addr : Z) : option (M unit) :=
  let u := UDST addr in
  if u =? AMP then Some (set_dst (ind R_MP d_ind))
  else if u =? AFP then Some (set_dst (ind R_FP d_ind))
  else if u =? AIMM then Some (set_dst d_imm)
  else if u =? Z.lor AMP AIND then Some (set_dst (DIND R_MP adr_d))
  else if u =? Z.lor AFP AIND then Some (set_dst (DIND R_FP adr_d))
  else None.

Definition decgen_mid (addr : Z) : M unit :=
  let u := Z.land addr ARM in
  if u =? AXNON then set_mid (reg R_d)
  else if u =? AXIMM then set_t_reg ;; set_mid addr_t
  else if u =? AXINF then set_mid (ind R_FP reg_off)
  else if u =? AXINM then set_mid (ind R_MP reg_off)
  else mret tt.

Definition decgen (addr : Z) : M unit :=
  decgen_src addr ;;
  match decgen_dst addr with
  | Some c => c ;; decgen_mid addr
  | None => mret tt
  end.

(** Evaluate the generator at a literal addressing byte. *)
Ltac eval_decgen k :=
  unfold decgen, decgen_src, decgen_dst, decgen_mid;
  let u := eval vm_compute in (USRC k) in change (USRC k) with u;
  let u := eval vm_compute in (UDST k) in change (UDST k) with u;
  let u := eval vm_compute in (Z.land k ARM) in change (Z.land k ARM) with u;
  cbv [AMP AFP AIMM AIND AXNON AXIMM AXINF AXINM Z.lor Pos.lor Z.eqb Pos.eqb].

Lemma dec_table_forall :
  List.Forall2 (fun k (f : M unit) => forall s, f s = decgen k s) (seqZ 0 256) dec.
Proof.
  unfold dec. let l := eval vm_compute in (seqZ 0 256) in change (seqZ 0 256) with l.
  repeat (apply List.Forall2_cons;
    [intros s;
     match goal with |- ?f s = decgen ?k s =>
       unfold f; eval_decgen k; first [apply eq_refl | symmetry; apply bind_ret_unit]
     end|]).
  apply List.Forall2_nil.
Qed.

(** ** Reference semantics of the addressing byte *)

Record Inst := mkInst { i_op : Z; i_add : Z; i_reg : Z; i_s : Z; i_d : Z }.

(** The instruction at the program counter; [i_s] and [i_d] are the whole
    words of the two [Adr] unions. *)
Definition fetch (s : VM) : option Inst :=
  let pc := R_PC (R s) in
  op ← load 1 (mem s) (padd pc off_op);
  add ← load 1 (mem s) (padd pc off_add);
  r ← load 2 (mem s) (padd pc off_reg);
  ws ← load 8 (mem s) (padd pc off_s);
  wd ← load 8 (mem s) (padd pc off_d);
  Some (mkInst op add r ws wd).

(** The two halves [i.f] and [i.s] of an [Adr] word. *)
Definition adr_f (w : Z) : Z := w mod M16.
Definition adr_o (w : Z) : Z := (w / M16) mod M16.

Definition mode_ok (mode : Z) : bool :=
  (mode =? 0) || (mode =? 1) || (mode =? 2) || (mode =? 4) || (mode =? 5).

(** The effective address of an operand word [w] stored at [here]: module or
    frame relative, immediate, or through the pointer in a module or frame
    cell. *)
Definition ea (s : VM) (mode w here : Z) : option Z :=
  if mode =? 0 then Some (padd (R_MP (R s)) w)
  else if mode =? 1 then Some (padd (R_FP (R s)) w)
  else if mode =? 2 then Some here
  else if mode =? 4 then p ← load 8 (mem s) (padd (R_MP (R s)) (adr_f w)); Some (padd p (adr_o w))
  else if mode =? 5 then p ← load 8 (mem s) (padd (R_FP (R s)) (adr_f w)); Some (padd p (adr_o w))
  else None.

(** The middle operand, for an instruction whose destination is [d]: the
    destination itself, the 16-bit signed immediate placed in [R.t], or a
    frame or module cell. *)
Definition ea_mid (s : VM) (i : Inst) (d : Z) : option (memory * Z) :=
  let k := i_add i / 64 in
  if k =? 0 then Some (mem s, d)
  else if k =? 1 then m ← store 8 (mem s) (aRt s) (s16 (i_reg i)); Some (m, aRt s)
  else if k =? 2 then Some (mem s, padd (R_FP (R s)) (i_reg i))
  else Some (mem s, padd (R_MP (R s)) (i_reg i)).

(** Decoding as a whole: an absent source leaves [R.s] alone, an absent
    destination leaves [R.d] and [R.m] alone. *)
Definition operands (s : VM) (i : Inst) : option VM :=
  let ms := (i_add i / 8) mod 8 in
  let md := i_add i mod 8 in
  s1 ← (if mode_ok ms then
          a ← ea s ms (i_s i) (padd (R_PC (R s)) off_s);
          Some (with_R (set_s a) s)
        else Some s);
  if mode_ok md then
    d ← ea s md (i_d i) (padd (R_PC (R s)) off_d);
    '(m, mid) ← ea_mid s i d;
    Some (with_mem (fun _ => m) (with_R (fun r => set_m mid (set_d d r)) s1))
  else Some s1.

(** The halves of the union read back as bit fields of the word. *)
Lemma load2_of_load8 m a w :
  byte_mem m -> load 8 m a = Some w ->
  load 2 m a = Some (adr_f w) /\ load 2 m (a + 2) = Some (adr_o w).
Proof.
  intros Hm. unfold load, adr_f, adr_o, M16.
  destruct (load_bytes m a 8) as [bs|] eqn:E; cbn [fmap option_fmap option_map]; [|done].
  intros [= <-].
  assert (Hb := load_bytes_bytes _ _ _ _ Hm E). destruct Hb as [Hb _].
  cbn in E |- *. replace (a + 2) with (a + 1 + 1) by lia.
  repeat match type of E with context [m !! ?x] => destruct (m !! x); cbn in *; [|done] end.
  simplify_eq. rewrite !Forall_cons_iff in Hb. unfold is_byte, M8 in *. destruct_and! Hb.
  cbn [le_val]. unfold M8. split; f_equal; Z.div_mod_to_equations; lia.
Qed.

(** The bit fields used by the generator. *)
Lemma USRC_field x : 0 <= x < 256 -> USRC x = (x / 8) mod 8.
Proof.
  intros. unfold USRC, AMASK. rewrite Z.shiftr_div_pow2 by lia.
  change 7 with (Z.ones 3). by rewrite Z.land_ones by lia.
Qed.
Lemma UDST_field x : UDST x = x mod 8.
Proof. unfold UDST, AMASK. change 7 with (Z.ones 3). by rewrite Z.land_ones by lia. Qed.
Lemma ARM_field x : 0 <= x < 256 -> Z.land x ARM = 64 * (x / 64).
Proof.
  intros Hx. apply Z.eqb_eq. revert x Hx.
  apply (forall_range (fun x => Z.land x ARM =? 64 * (x / 64))). by vm_compute.
Qed.

(** ** Decoding agrees with the bit fields *)

Lemma fetch_fields s i :
  fetch s = Some i -> byte_mem (mem s) ->
  load 8 (mem s) (padd (R_PC (R s)) off_s) = Some (i_s i) /\
  load 8 (mem s) (padd (R_PC (R s)) off_d) = Some (i_d i) /\
  load 2 (mem s) (padd (R_PC (R s)) off_reg) = Some (i_reg i) /\
  0 <= i_add i < 256.
Proof.
  intros F wf. unfold fetch in F.
  destruct (load 1 _ (padd _ off_op)); cbn in F; [|done].
  destruct (load 1 _ (padd _ off_add)) as [add|] eqn:Eadd; cbn in F; [|done].
  destruct (load 2 _ _); cbn in F; [|done].
  destruct (load 8 _ (padd _ off_s)); cbn in F; [|done].
  destruct (load 8 _ (padd _ off_d)); cbn in F; [|done].
  injection F as <-. apply load_bound in Eadd; [|done].
  change (pow8 1) with 256 in Eadd. by cbn.
Qed.

#[local] Arguments DIND : simpl never.
#[local] Arguments ind : simpl never.
#[local] Arguments set_src : simpl never.
#[local] Arguments set_dst : simpl never.
#[local] Arguments set_mid : simpl never.

Lemma set_src_ok c s a s' : c s = Ok a s' -> set_src c s = Ok tt (with_R (set_s a) s').
Proof. intros E. unfold set_src. by rewrite (bind_ok _ _ _ _ _ E). Qed.
Lemma set_dst_ok c s a s' : c s = Ok a s' -> set_dst c s = Ok tt (with_R (set_d a) s').
Proof. intros E. unfold set_dst. by rewrite (bind_ok _ _ _ _ _ E). Qed.
Lemma set_mid_ok c s a s' : c s = Ok a s' -> set_mid c s = Ok tt (with_R (set_m a) s').
Proof. intros E. unfold set_mid. by rewrite (bind_ok _ _ _ _ _ E). Qed.
Lemma set_fault c s :
  c s = Fault -> set_src c s = Fault /\ set_dst c s = Fault /\ set_mid c s = Fault.
Proof. intros E. unfold set_src, set_dst, set_mid, mbind, ST_bind. by rewrite E. Qed.

Section decode.
Context (s : VM) (i : Inst).
Hypothesis fetched : fetch s = Some i.
Hypothesis wf : byte_mem (mem s).

Lemma DIND_ea (r : REG -> Z) (adr : M Z) (w here : Z) s' :
  mem s' = mem s ->
  adr s' = Ok here s' ->
  load 8 (mem s) here = Some w ->
  DIND r adr s' =
    match load 8 (mem s) (padd (r (R s')) (adr_f w)) with
    | Some p => Ok (padd p (adr_o w)) s'
    | None => Fault
    end.
Proof.
  intros Hm Ha Hw. destruct (load2_of_load8 _ _ _ wf Hw) as [H1 H2].
  assert (Hp : padd here 2 = here + 2) by (apply (padd_in_load 8 (mem s) here w 2); [done..|lia]).
  unfold DIND, mbind, ST_bind, ld, reg, gets, mret, ST_ret. rewrite Ha, Hm, H1.
  rewrite Hm, Hp, H2, Hm. by case_opt.
Qed.

Lemma ind_ea (r : REG -> Z) (w : Z) s' (c : M Z) :
  mem s' = mem s -> c s' = Ok w s' -> ind r c s' = Ok (padd (r (R s')) w) s'.
Proof. intros Hm Hc. unfold ind, mbind, ST_bind, reg, gets. by rewrite Hc. Qed.

Lemma decgen_src_ok :
  decgen_src (i_add i) s =
    match (if mode_ok ((i_add i / 8) mod 8) then
             a ← ea s ((i_add i / 8) mod 8) (i_s i) (padd (R_PC (R s)) off_s);
             Some (with_R (set_s a) s)
           else Some s) with
    | Some s' => Ok tt s'
    | None => Fault
    end.
Proof.
  destruct (fetch_fields s i fetched wf) as (Hs & _ & _ & Hadd). unfold decgen_src.
  rewrite USRC_field by done. set (u := (i_add i / 8) mod 8).
  assert (Hu : 0 <= u < 8) by (apply Z.mod_pos_bound; lia). clearbody u.
  assert (Ha : adr_s s = Ok (padd (R_PC (R s)) off_s) s) by done.
  assert (Hi : s_ind s = Ok (i_s i) s).
  { unfold s_ind, mbind, ST_bind. rewrite Ha. unfold ld. by rewrite Hs. }
  assert (u = 0 \/ u = 1 \/ u = 2 \/ u = 3 \/ u = 4 \/ u = 5 \/ u = 6 \/ u = 7)
    as [->|[->|[->|[->|[->|[->|[->| ->]]]]]]] by lia; try done;
    cbv [AMP AFP AIMM AIND Z.lor Pos.lor]; cbn.
  1-2: erewrite set_src_ok by (by eapply ind_ea); done.
  all: match goal with |- context [DIND ?r] =>
    pose proof (DIND_ea r adr_s (i_s i) (padd (R_PC (R s)) off_s) s eq_refl Ha Hs) as E end;
    revert E; case_opt; intros E; cbn; first [by apply set_src_ok | by apply set_fault].
Qed.

(** The same for the destination, in a state that differs from [s] only in
    [R.s]. *)
Lemma decgen_dst_ok s' c :
  mem s' = mem s -> R_PC (R s') = R_PC (R s) ->
  R_MP (R s') = R_MP (R s) -> R_FP (R s') = R_FP (R s) ->
  decgen_dst (i_add i) = Some c ->
  c s' = match ea s (i_add i mod 8) (i_d i) (padd (R_PC (R s)) off_d) with
         | Some d => Ok tt (with_R (set_d d) s')
         | None => Fault
         end.
Proof.
  intros Hm HPC HMP HFP. destruct (fetch_fields s i fetched wf) as (_ & Hd & _ & Hadd).
  unfold decgen_dst. rewrite UDST_field. set (u := i_add i mod 8).
  assert (Hu : 0 <= u < 8) by (apply Z.mod_pos_bound; lia). clearbody u.
  assert (Ha : adr_d s' = Ok (padd (R_PC (R s)) off_d) s').
  { unfold adr_d, mbind, ST_bind, reg, gets. by rewrite HPC. }
  assert (Hi : d_ind s' = Ok (i_d i) s').
  { unfold d_ind. rewrite (bind_ok _ _ _ _ _ Ha). unfold ld. by rewrite Hm, Hd. }
  assert (u = 0 \/ u = 1 \/ u = 2 \/ u = 3 \/ u = 4 \/ u = 5 \/ u = 6 \/ u = 7)
    as [->|[->|[->|[->|[->|[->|[->| ->]]]]]]] by lia; try done;
    cbv [AMP AFP AIMM AIND Z.lor Pos.lor]; cbn; intros [= <-].
  - rewrite <- HMP. by erewrite set_dst_ok by (by eapply ind_ea).
  - rewrite <- HFP. by erewrite set_dst_ok by (by eapply ind_ea).
  - by apply set_dst_ok.
  - rewrite <- HMP.
    pose proof (DIND_ea R_MP adr_d (i_d i) (padd (R_PC (R s)) off_d) s' Hm Ha Hd) as E.
    revert E; case_opt; intros E; cbn; first [by apply set_dst_ok | by apply set_fault].
  - rewrite <- HFP.
    pose proof (DIND_ea R_FP adr_d (i_d i) (padd (R_PC (R s)) off_d) s' Hm Ha Hd) as E.
    revert E; case_opt; intros E; cbn; first [by apply set_dst_ok | by apply set_fault].
Qed.

Lemma decgen_dst_None :
  decgen_dst (i_add i) = None <-> mode_ok (i_add i mod 8) = false.
Proof.
  unfold decgen_dst. rewrite UDST_field. set (u := i_add i mod 8).
  assert (Hu : 0 <= u < 8) by (apply Z.mod_pos_bound; lia). clearbody u.
  assert (u = 0 \/ u = 1 \/ u = 2 \/ u = 3 \/ u = 4 \/ u = 5 \/ u = 6 \/ u = 7)
    as [->|[->|[->|[->|[->|[->|[->| ->]]]]]]] by lia; by split.
Qed.

Lemma decgen_mid_ok s' :
  mem s' = mem s -> R_PC (R s') = R_PC (R s) -> aRt s' = aRt s ->
  R_MP (R s') = R_MP (R s) -> R_FP (R s') = R_FP (R s) ->
  decgen_mid (i_add i) s' =
    match ea_mid s i (R_d (R s')) with
    | Some (m, mid) => Ok tt (with_mem (fun _ => m) (with_R (set_m mid) s'))
    | None => Fault
    end.
Proof.
  intros Hm HPC Ht HMP HFP. destruct (fetch_fields s i fetched wf) as (_ & _ & Hr & Hadd).
  unfold decgen_mid, ea_mid. rewrite ARM_field by done. set (k := i_add i / 64).
  assert (Hk : 0 <= k < 4) by (unfold k; Z.div_mod_to_equations; lia). clearbody k.
  assert (Hi : reg_off s' = Ok (i_reg i) s').
  { unfold reg_off, mbind, ST_bind, reg, gets. rewrite HPC. unfold ld. by rewrite Hm, Hr. }
  assert (k = 0 \/ k = 1 \/ k = 2 \/ k = 3) as [->|[->|[->| ->]]] by lia;
    cbv [AXNON AXIMM AXINF AXINM Z.mul Pos.mul]; cbn.
  - erewrite set_mid_ok by done. rewrite <- Hm. by destruct s'.
  - unfold set_t_reg, mbind, ST_bind. rewrite Hi. unfold addr_t, gets, st.
    rewrite Hm, Ht. case_opt; [|done]. cbn. erewrite set_mid_ok by done. cbn.
    by rewrite Ht.
  - erewrite set_mid_ok by (by eapply ind_ea). rewrite <- Hm, <- HFP. by destruct s'.
  - erewrite set_mid_ok by (by eapply ind_ea). rewrite <- Hm, <- HMP. by destruct s'.
Qed.
End decode.

Lemma dec_lookup add f :
  dec !! Z.to_nat add = Some f -> 0 <= add < 256 -> forall s, f s = decgen add s.
Proof.
  intros Hf Hadd s. pose proof dec_table_forall as HF.
  assert (Hk : seqZ 0 256 !! Z.to_nat add = Some add).
  { rewrite lookup_seqZ_lt by lia. f_equal. lia. }
  by apply (Forall2_lookup_lr _ _ _ _ _ _ HF Hk Hf s).
Qed.

(** C25. The checked-in table dec.c is the one its generator produces: for
    every addressing byte the function of [dec] and the statements [decgen]
    prints have the same effect on every machine state. *)
Theorem dec_is_decgen add :
  0 <= add < 256 ->
  exists f, dec !! Z.to_nat add = Some f /\ forall s, f s = decgen add s.
Proof.
  intros Hadd.
  destruct (dec !! Z.to_nat add) as [f|] eqn:E.
  - exists f. split; [done|]. by apply dec_lookup.
  - apply lookup_ge_None in E. change (length dec) with 256%nat in E. lia.
Qed.

Lemma dec_operands s i f :
  fetch s = Some i -> byte_mem (mem s) ->
  dec !! Z.to_nat (i_add i) = Some f ->
  f s = match operands s i with Some s' => Ok tt s' | None => Fault end.
Proof.
  intros Hi wf Hf.
  destruct (fetch_fields s i Hi wf) as (_ & _ & _ & Hadd).
  rewrite (dec_lookup _ _ Hf Hadd). unfold decgen, operands.
  pose proof (decgen_src_ok s i Hi wf) as Es.
  unfold mbind at 1, ST_bind at 1. rewrite Es. clear Es.
  destruct (if mode_ok ((i_add i / 8) mod 8) then _ else _) as [s1|] eqn:E1; [|done].
  cbn [mbind option_bind].
  assert (Hs1 : exists a, s1 = with_R (set_s a) s \/ s1 = s).
  { destruct (mode_ok _); [|injection E1 as <-; exists 0; auto].
    destruct (ea s _ _ _) as [a|]; [|done]. injection E1 as <-. eauto. }
  assert (Hd : mem s1 = mem s /\ R_PC (R s1) = R_PC (R s) /\ aRt s1 = aRt s /\
               R_MP (R s1) = R_MP (R s) /\ R_FP (R s1) = R_FP (R s)).
  { by destruct Hs1 as [a [-> | ->]]. }
  destruct Hd as (Hm & HPC & Ht & HMP & HFP).
  destruct (decgen_dst (i_add i)) as [c|] eqn:Ec.
  - assert (Hok : mode_ok (i_add i mod 8) = true).
    { apply not_false_iff_true. intros E. apply decgen_dst_None in E; congruence. }
    rewrite Hok. unfold mbind at 1, ST_bind at 1.
    rewrite (decgen_dst_ok s i Hi wf s1 c) by done.
    destruct (ea s (i_add i mod 8) _ _) as [d|]; [|done]. cbn [mbind option_bind].
    rewrite (decgen_mid_ok s i Hi wf) by done.
    change (R_d (R (with_R (set_d d) s1))) with d.
    by destruct (ea_mid s i d) as [[m mid]|].
  - apply decgen_dst_None in Ec. by rewrite Ec.
Qed.

(** C20. Operand decoding computes the effective addresses the bit fields of
    the addressing byte describe: the source, destination and middle operands
    are module or frame relative, immediate, or one pointer away; an absent
    operand leaves its register unchanged; nothing but [R.t] is written; and
    decoding is undefined only when an indirection cell or [R.t] is
    unmapped. *)
Theorem dec_effective_address s i f :
  fetch s = Some i -> byte_mem (mem s) ->
  dec !! Z.to_nat (i_add i) = Some f ->
  f s = match operands s i with Some s' => Ok tt s' | None => Fault end.
Proof. apply dec_operands. Qed.

(** ** Instances *)

Example dec_is_decgen_witness :
  exists f, dec !! Z.to_nat 201 = Some f /\ forall s, f s = decgen 201 s.
Proof. apply (dec_is_decgen 201). lia. Defined.

(** Source at offset 8 of the frame, destination through the frame cell at
    16, immediate middle operand -2. *)
Definition demo_inst : VM :=
  machine 64 0 0 0
    [(64, 77 * M8 + (M16 - 2) * M16); (72, 8); (80, 16 + 4 * M16); (512, 0); (8208, 9000)].

Example dec_effective_address_witness :
  exists s', D4D demo_inst = Ok tt s' /\ R_s (R s') = 8200 /\ R_d (R s') = 9004 /\ R_m (R s') = 512.
Proof.
  pose proof (dec_effective_address demo_inst (mkInst 0 77 (M16 - 2) 8 (16 + 4 * M16)) D4D
    ltac:(by_eval) ltac:(by_eval) eq_refl) as E.
  eexists. split; [exact E|]. split_and!; vm_compute; reflexivity.
Defined.
