(* ===== verification/Xec.v ===== *)
(** * Instruction execution (libinterp/xec.c): moves, arithmetic, branches

    One definition per [OP] of xec.c that needs neither the heap nor the
    scheduler.  Arithmetic on words is two's complement; an integer division
    that traps (zero divisor, quotient overflow) and a shift count outside
    the width of the promoted operand are undefined ([Fault]). *)

From S2P Require Import Prelude Mem Vm Dec.

(** [JMP(r)]: R.PC = *(Inst** )(R.r) *)
Definition JMP (r : REG -> Z) : M unit := v ← P r; put_reg set_PC v.

(** C's truncating division and remainder at a signed 64-bit type. *)
Definition div_s64 (x y : Z) : M Z :=
  if (y =? 0) || ((x =? -9223372036854775808) && (y =? -1)) then fault else mret (Z.quot x y).
Definition rem_s64 (x y : Z) : M Z :=
  if (y =? 0) || ((x =? -9223372036854775808) && (y =? -1)) then fault else mret (Z.rem x y).
(** Bytes are promoted to int before the operation. *)
Definition div_byte (x y : Z) : M Z := if y =? 0 then fault else mret (Z.quot x y).
Definition rem_byte (x y : Z) : M Z := if y =? 0 then fault else mret (Z.rem x y).

Definition shift_ok (width n : Z) : bool := (0 <=? n) && (n <? width).
Definition shl_w (width x n : Z) : M Z :=
  if shift_ok width n then mret (Z.shiftl x n) else fault.
Definition shr_w (width x n : Z) : M Z :=
  if shift_ok width n then mret (Z.shiftr x n) else fault.

(** ** Control *)

Definition runt : M unit := mret tt.
Definition jmp : M unit := JMP R_d.
Definition eclr : M unit := mret tt.
Definition badop : M unit := error exOp.
Definition iexit : M unit := error "".

Definition movpc : M unit :=
  w ← W R_s; ml ← reg R_M; l ← gets (fun s => mods s !! ml); l ← of_option l;
  setP R_d (ml_prog l + w * sizeof_Inst).

(** call: link the frame and jump.  The frame header is [lr], [fp], [mr], [t]. *)
Definition call : M unit :=
  f ← P R_s;
  pc ← reg R_PC; st 8 f pc ;;
  fp ← reg R_FP; st 8 (padd f 8) fp ;;
  put_reg set_FP f ;;
  JMP R_d.

(** ** Moves and conversions *)

(** memmove(dst, src, n) *)
Definition memmove (dst src n : Z) : M unit := fun s =>
  if n <? 0 then Fault else
  match load_bytes (mem s) src (Z.to_nat n) with
  | None => Fault
  | Some bs => match store_bytes (mem s) dst bs with
               | None => Fault
               | Some m => Ok tt (with_mem (fun _ => m) s)
               end
  end.

Definition movm : M unit := n ← W R_m; d ← reg R_d; a ← reg R_s; memmove d a n.
Definition lea : M unit := a ← reg R_s; setP R_d a.
Definition movb : M unit := v ← B R_s; setB R_d v.
Definition movw : M unit := v ← V R_s; setW R_d v.
Definition movl : M unit := v ← V R_s; setW R_d v.
Definition cvtbw : M unit := v ← B R_s; setW R_d v.
Definition cvtwb : M unit := v ← W R_s; setB R_d v.
Definition cvtws : M unit := v ← W R_s; setSH R_d v.
Definition cvtsw : M unit := v ← SH R_s; setW R_d v.
Definition cvtwl : M unit := v ← W R_s; setW R_d v.
Definition cvtlw : M unit := v ← V R_s; setW R_d v.

(** ** Arithmetic and logic *)

Definition addb : M unit := x ← B R_m; y ← B R_s; setB R_d (x + y).
Definition addw : M unit := x ← W R_m; y ← W R_s; setW R_d (x + y).
Definition addl : M unit := x ← V R_m; y ← V R_s; setW R_d (x + y).
Definition subb : M unit := x ← B R_m; y ← B R_s; setB R_d (x - y).
Definition subw : M unit := x ← W R_m; y ← W R_s; setW R_d (x - y).
Definition subl : M unit := x ← V R_m; y ← V R_s; setW R_d (x - y).
Definition divb : M unit := x ← B R_m; y ← B R_s; q ← div_byte x y; setB R_d q.
Definition divw : M unit := x ← W R_m; y ← W R_s; q ← div_s64 x y; setW R_d q.
Definition divl : M unit := x ← V R_m; y ← V R_s; q ← div_s64 x y; setW R_d q.
Definition modb : M unit := x ← B R_m; y ← B R_s; q ← rem_byte x y; setB R_d q.
Definition modw : M unit := x ← W R_m; y ← W R_s; q ← rem_s64 x y; setW R_d q.
Definition modl : M unit := x ← V R_m; y ← V R_s; q ← rem_s64 x y; setW R_d q.
Definition mulb : M unit := x ← B R_m; y ← B R_s; setB R_d (x * y).
Definition mulw : M unit := x ← W R_m; y ← W R_s; setW R_d (x * y).
Definition mull : M unit := x ← V R_m; y ← V R_s; setW R_d (x * y).
Definition andb_ : M unit := x ← B R_m; y ← B R_s; setB R_d (Z.land x y).
Definition andw : M unit := x ← W R_m; y ← W R_s; setW R_d (Z.land x y).
Definition andl : M unit := x ← V R_m; y ← V R_s; setW R_d (Z.land x y).
Definition xorb_ : M unit := x ← B R_m; y ← B R_s; setB R_d (Z.lxor x y).
Definition xorw : M unit := x ← W R_m; y ← W R_s; setW R_d (Z.lxor x y).
Definition xorl : M unit := x ← V R_m; y ← V R_s; setW R_d (Z.lxor x y).
Definition orb_ : M unit := x ← B R_m; y ← B R_s; setB R_d (Z.lor x y).
Definition orw : M unit := x ← W R_m; y ← W R_s; setW R_d (Z.lor x y).
Definition orl : M unit := x ← V R_m; y ← V R_s; setW R_d (Z.lor x y).
Definition shlb : M unit := x ← B R_m; n ← W R_s; v ← shl_w 32 x n; setB R_d v.
Definition shlw : M unit := x ← W R_m; n ← W R_s; v ← shl_w 64 x n; setW R_d v.
Definition shll : M unit := x ← V R_m; n ← W R_s; v ← shl_w 64 x n; setW R_d v.
Definition shrb : M unit := x ← B R_m; n ← W R_s; v ← shr_w 32 x n; setB R_d v.
Definition shrw : M unit := x ← W R_m; n ← W R_s; v ← shr_w 64 x n; setW R_d v.
Definition shrl : M unit := x ← V R_m; n ← W R_s; v ← shr_w 64 x n; setW R_d v.
Definition lsrw : M unit := x ← UW R_m; n ← W R_s; v ← shr_w 64 x n; setW R_d v.
Definition lsrl : M unit := x ← UV R_m; n ← W R_s; v ← shr_w 64 x n; setW R_d v.

(** ** Conditional branches *)

Definition branch (rd : (REG -> Z) -> M Z) (cmp : Z -> Z -> bool) : M unit :=
  x ← rd R_s; y ← rd R_m; when (cmp x y) (JMP R_d).
Definition neqb (x y : Z) : bool := negb (x =? y).

Definition beqb : M unit := branch B Z.eqb.
Definition bneb : M unit := branch B neqb.
Definition bltb : M unit := branch B Z.ltb.
Definition bleb : M unit := branch B Z.leb.
Definition bgtb : M unit := branch B Z.gtb.
Definition bgeb : M unit := branch B Z.geb.
Definition beqw : M unit := branch W32 Z.eqb.
Definition bnew : M unit := branch W32 neqb.
Definition bltw : M unit := branch W32 Z.ltb.
Definition blew : M unit := branch W32 Z.leb.
Definition bgtw : M unit := branch W32 Z.gtb.
Definition bgew : M unit := branch W32 Z.geb.
Definition beql : M unit := branch V Z.eqb.
Definition bnel : M unit := branch V neqb.
Definition bltl : M unit := branch V Z.ltb.
Definition blel : M unit := branch V Z.leb.
Definition bgtl : M unit := branch V Z.gtb.
Definition bgel : M unit := branch V Z.geb.

(** ** Exponentiation: the square-and-multiply loop of iexpw and iexpl

    [for(;;){ if(n&1) r *= x; if((n >>= 1) == 0) break; x *= x; }] on 64-bit
    two's complement words.  [None]: the fuel ran out. *)
Fixpoint iexp_loop (fuel : nat) (x n r : Z) : option Z :=
  match fuel with
  | O => None
  | Datatypes.S fuel =>
      let r := if Z.odd n then s64 (r * x) else r in
      let n := Z.shiftr n 1 in
      if n =? 0 then Some r else iexp_loop fuel (s64 (x * x)) n r
  end.

Definition iexp_fuel : nat := 64.

(** [-n] of the most negative word wraps to itself. *)
Definition iexp (x n : Z) : M Z :=
  let inv := n <? 0 in
  let n := if inv then s64 (- n) else n in
  match iexp_loop iexp_fuel x n 1 with
  | None => fault
  | Some r => if inv then div_s64 1 r else mret r
  end.

Definition iexpw : M unit := x ← W R_m; n ← W R_s; r ← iexp x n; setW R_d r.
Definition iexpl : M unit := x ← V R_m; n ← W R_s; r ← iexp x n; setW R_d r.

(** ** Case tables *)

(** [t[i]] for a [WORD *t] *)
Definition ldw (t i : Z) : M Z := v ← ld 8 (padd t (8 * i)); mret (s64 v).

(** Jump to the instruction with index [target] (its address when compiled). *)
Definition goto_target (target : Z) : M unit :=
  ml ← reg R_M; l ← gets (fun s => mods s !! ml); l ← of_option l;
  if ml_compiled l then put_reg set_PC (u64 target)
  else put_reg set_PC (padd (ml_prog l) (target * sizeof_Inst)).

(** The search loop of icase and casel: rows of [stride] words, the bounds in
    the first two, the target in word [tgt], [cv] the conversion the code
    applies to a bound. *)
Fixpoint case_loop (fuel : nat) (cv : Z -> Z) (stride tgt sel t n target : Z) : M Z :=
  match fuel with
  | O => fault
  | Datatypes.S fuel =>
      if 0 <? n then
        let n2 := Z.shiftr n 1 in
        let l := padd t (8 * (n2 * stride)) in
        lo ← ldw l 0;
        if sel <? cv lo then case_loop fuel cv stride tgt sel t n2 target
        else
          hi ← ldw l 1;
          if sel >=? cv hi then
            case_loop fuel cv stride tgt sel (padd l (8 * stride)) (n - (n2 + 1)) target
          else ldw l tgt
      else mret target
  end.

(** A WORD is halved at most 63 times before it reaches zero. *)
Definition case_fuel : nat := 64.

Definition icase : M unit :=
  sel ← W32 R_s;
  d ← reg R_d;
  let t := padd d IBY2WD in
  n ← ldw t (-1);
  target ← ldw t (n * 3);
  target ← case_loop case_fuel s32 3 2 sel t n target;
  goto_target target.

Definition casel : M unit :=
  v ← V R_s;
  d ← reg R_d;
  let t := padd d (2 * IBY2WD) in
  n ← ldw t (-2);
  target ← ldw t (n * 6);
  target ← case_loop case_fuel (fun x => x) 6 4 v t n target;
  goto_target target.

Definition igoto : M unit :=
  i ← W32 R_s;
  d ← reg R_d;
  target ← ldw (padd d (i * IBY2WD)) 0;
  goto_target target.

(** ** Array indexing *)

Definition heap_array (a : Z) : M Arr := o ← gets (fun s => arrays s !! a); of_option o.
Definition type_at (t : Z) : M Ty := o ← gets (fun s => types s !! t); of_option o.

(** The index is a uintptr: a negative index is a huge one. *)
Definition index (size : Arr -> M Z) : M unit :=
  a ← P R_s;
  i ← UW R_d;
  if a =? H then error exBounds
  else
    arr ← heap_array a;
    if i >=? u64 (a_len arr) then error exBounds
    else sz ← size arr; setP R_m (a_data arr + i * sz).

Definition indx : M unit := index (fun arr => t ← type_at (a_t arr); mret (t_size t)).
Definition indw : M unit := index (fun _ => mret 8).
Definition indf : M unit := index (fun _ => mret 8).
Definition indl : M unit := index (fun _ => mret 8).
Definition indb : M unit := index (fun _ => mret 1).

Definition lena : M unit :=
  a ← P R_s;
  if a =? H then setW R_d 0
  else arr ← heap_array a; setW R_d (a_len arr).

(** lenl walks the [tail] pointers; the list must be finite, and the fuel is
    the number of mapped bytes, more than the cells of any acyclic list. *)
Fixpoint lenl_loop (fuel : nat) (a l : Z) : M Z :=
  match fuel with
  | O => fault
  | Datatypes.S fuel =>
      if a =? H then mret l else tl ← ld 8 a; lenl_loop fuel tl (l + 1)
  end.

Definition lenl : M unit :=
  a ← P R_s;
  fuel ← gets (fun s => Datatypes.S (size (mem s)));
  l ← lenl_loop fuel a 0;
  setW R_d l.

(** acheck(int tsz, int sz): the sum is a size_t, the test is on its low 32
    bits as an int. *)
Definition sizeof_Array : Z := 32.
Definition sizeof_Heap : Z := 32.
Definition acheck (tsz sz : Z) : M unit :=
  if sz <? 0 then error exNegsize
  else if (s32 (sizeof_Array + sizeof_Heap + u64 (s32 (tsz * sz))) <? sz) && negb (tsz =? 0)
  then error exHeap
  else mret tt.

(** ** Fixed-point arithmetic *)

(** [if(p >= 0) r <<= p; else r >>= (-p);] on a LONG *)
Definition scale (r p : Z) : M Z :=
  if 0 <=? p then v ← shl_w 64 r p; mret (s64 v) else shr_w 64 r (- p).

Definition Stmp : M Z := fp ← reg R_FP; v ← ld 8 (padd fp (NREG * IBY2WD)); mret (s64 v).
Definition Dtmp : M Z := fp ← reg R_FP; v ← ld 8 (padd fp ((NREG + 2) * IBY2WD)); mret (s64 v).

Definition mulx : M unit :=
  p ← Dtmp; x ← W R_m; y ← W R_s;
  r ← scale (s64 (x * y)) p;
  setW R_d r.
Definition divx : M unit :=
  p ← Dtmp; x ← W R_m;
  r ← scale x p;
  y ← W R_s; q ← div_s64 r y;
  setW R_d q.
Definition cvtxx : M unit :=
  p ← W R_m; x ← W R_s;
  r ← scale x p;
  setW R_d r.
Definition mulx0 : M unit :=
  x ← W R_m; y ← W R_s; p ← Dtmp; a ← Stmp;
  if (x =? 0) || (y =? 0) then setW R_d 0
  else r ← scale (s64 (x * y)) p; q ← div_s64 r a; setW R_d q.
Definition divx0 : M unit :=
  x ← W R_m; y ← W R_s; p ← Dtmp; b ← Stmp;
  if x =? 0 then setW R_d 0
  else r ← scale (s64 (b * x)) p; q ← div_s64 r y; setW R_d q.
Definition cvtxx0 : M unit :=
  x ← W R_s; p ← W R_m; a ← Stmp;
  if x =? 0 then setW R_d 0
  else r ← scale x p; q ← div_s64 r a; setW R_d q.

(** The rounding variants: [p] also carries two flag bits. *)
Definition opposite_signs (x y : Z) : bool :=
  ((0 <=? x) && (y <? 0)) || ((x <? 0) && (0 <=? y)).

(** [((LONG)1<<(-p)) - 1] *)
Definition round_w (p : Z) : M Z := v ← shl_w 64 1 (- p); mret (s64 (v - 1)).

Definition mulx1 : M unit :=
  x ← W R_m; y ← W R_s; p ← Dtmp; a ← Stmp;
  if (x =? 0) || (y =? 0) then setW R_d 0
  else
    let vnz := negb (Z.land p 2 =? 0) in
    let wnz := negb (Z.land p 1 =? 0) in
    let p := Z.shiftr p 2 in
    let v := if vnz then (if opposite_signs x y then s64 (- s64 (a - 1)) else s64 (a - 1)) else 0 in
    w ← (if wnz && ((negb vnz && ((0 <? x) && (y <? 0) || (x <? 0) && (0 <? y)))
                    || (vnz && ((0 <? x) && (0 <? y) || (x <? 0) && (y <? 0))))
         then round_w p else mret 0);
    r ← scale (s64 (s64 (x * y) + w)) p;
    q ← div_s64 (s64 (r + v)) a;
    setW R_d q.

Definition divx1 : M unit :=
  x ← W R_m; y ← W R_s; p ← Dtmp; b ← Stmp;
  if x =? 0 then setW R_d 0
  else
    let vnz := negb (Z.land p 2 =? 0) in
    let wnz := negb (Z.land p 1 =? 0) in
    let p := Z.shiftr p 2 in
    let v := if vnz then (if opposite_signs x y then -1 else 1) else 0 in
    w ← (if wnz && (x <=? 0) then round_w p else mret 0);
    r ← scale (s64 (s64 (b * x) + w)) p;
    q ← div_s64 r y;
    setW R_d (q + v).

Definition cvtxx1 : M unit :=
  x ← W R_s; p ← W R_m; a ← Stmp;
  if x =? 0 then setW R_d 0
  else
    let vnz := negb (Z.land p 2 =? 0) in
    let wnz := negb (Z.land p 1 =? 0) in
    let p := Z.shiftr p 2 in
    let v := if vnz then (if x <? 0 then s64 (- s64 (a - 1)) else s64 (a - 1)) else 0 in
    w ← (if wnz && ((negb vnz && (x <? 0)) || (vnz && (0 <? x))) then round_w p else mret 0);
    r ← scale (s64 (x + w)) p;
    q ← div_s64 (s64 (r + v)) a;
    setW R_d q.

(** ** The word and byte operations as functions of their operands *)

Definition word_ops : list (M unit * (Z -> Z -> Z)) :=
  [(addw, Z.add); (addl, Z.add); (subw, Z.sub); (subl, Z.sub); (mulw, Z.mul); (mull, Z.mul);
   (andw, Z.land); (andl, Z.land); (orw, Z.lor); (orl, Z.lor); (xorw, Z.lxor); (xorl, Z.lxor)].

Definition byte_ops : list (M unit * (Z -> Z -> Z)) :=
  [(addb, Z.add); (subb, Z.sub); (mulb, Z.mul); (andb_, Z.land); (orb_, Z.lor); (xorb_, Z.lxor)].

(** Word arithmetic: every two-operand word or big instruction reads its
    middle and source operands as signed 64-bit integers, writes the result
    modulo 2^64 to the destination, where it reads back as the two's
    complement value, and changes no other byte of memory and no register. *)
Theorem word_op_effect op f s x y :
  (op, f) ∈ word_ops ->
  load 8 (mem s) (R_m (R s)) = Some x -> load 8 (mem s) (R_s (R s)) = Some y ->
  mapped (mem s) (R_d (R s)) 8 = true ->
  exists s', op s = Ok tt s' /\
    wrote 8 (R_d (R s)) (f (s64 x) (s64 y)) s s' /\
    W R_d s' = Ok (s64 (f (s64 x) (s64 y))) s'.
Proof.
  intros Hop Hx Hy Hd.
  destruct (setW_ok R_d (f (s64 x) (s64 y)) s Hd) as (s' & Es & Hw).
  exists s'. split; [|split; [done|by eapply wrote_W]]. rewrite <- Es.
  unfold word_ops in Hop. repeat (apply elem_of_cons in Hop as [Hop|Hop]; [injection Hop as -> ->|]);
    [..|by apply elem_of_nil in Hop].
  all: unfold addw, addl, subw, subl, mulw, mull, andw, andl, orw, orl, xorw, xorl, V.
  all: by do 2 vm_step.
Qed.

(** Byte arithmetic is modulo 256 and touches only the destination byte. *)
Theorem byte_op_effect op f s x y :
  (op, f) ∈ byte_ops ->
  load 1 (mem s) (R_m (R s)) = Some x -> load 1 (mem s) (R_s (R s)) = Some y ->
  mapped (mem s) (R_d (R s)) 1 = true ->
  exists s', op s = Ok tt s' /\
    wrote 1 (R_d (R s)) (f x y) s s' /\
    B R_d s' = Ok (u8 (f x y)) s'.
Proof.
  intros Hop Hx Hy Hd.
  destruct (setB_ok R_d (f x y) s Hd) as (s' & Es & Hw).
  exists s'. split; [|split; [done|by eapply wrote_B]]. rewrite <- Es.
  unfold byte_ops in Hop. repeat (apply elem_of_cons in Hop as [Hop|Hop]; [injection Hop as -> ->|]);
    [..|by apply elem_of_nil in Hop].
  all: unfold addb, subb, mulb, andb_, orb_, xorb_.
  all: by do 2 vm_step.
Qed.

(** divw and modw implement truncating division: unless the divisor is
    zero or the quotient overflows (where the instruction traps), the quotient
    [q] and remainder [r] the two instructions store satisfy x = q*y + r with
    |r| < |y| and r carrying the sign of x. *)
Theorem divw_modw s x y :
  load 8 (mem s) (R_m (R s)) = Some x -> load 8 (mem s) (R_s (R s)) = Some y ->
  mapped (mem s) (R_d (R s)) 8 = true ->
  byte_mem (mem s) ->
  let sx := s64 x in let sy := s64 y in
  if (sy =? 0) || ((sx =? -9223372036854775808) && (sy =? -1))
  then divw s = Fault /\ modw s = Fault
  else exists s1 s2 q r,
    divw s = Ok tt s1 /\ W R_d s1 = Ok q s1 /\ wrote 8 (R_d (R s)) q s s1 /\
    modw s = Ok tt s2 /\ W R_d s2 = Ok r s2 /\ wrote 8 (R_d (R s)) r s s2 /\
    sx = q * sy + r /\ Z.abs r < Z.abs sy /\ 0 <= r * sx.
Proof.
  intros Hx Hy Hd Hb sx sy.
  assert (Hrx : -9223372036854775808 <= sx < 9223372036854775808) by (unfold sx; int_lia).
  assert (Hry : -9223372036854775808 <= sy < 9223372036854775808) by (unfold sy; int_lia).
  assert (Ediv : divw s = (q ← div_s64 sx sy; setW R_d q) s) by (unfold divw; by do 2 vm_step).
  assert (Emod : modw s = (q ← rem_s64 sx sy; setW R_d q) s) by (unfold modw; by do 2 vm_step).
  rewrite Ediv, Emod. unfold div_s64, rem_s64. case_match eqn:Etrap; [done|].
  apply orb_false_iff in Etrap as [E0 Eov]. apply Z.eqb_neq in E0.
  destruct (setW_ok R_d (Z.quot sx sy) s Hd) as (s1 & E1 & W1).
  destruct (setW_ok R_d (Z.rem sx sy) s Hd) as (s2 & E2 & W2).
  exists s1, s2, (Z.quot sx sy), (Z.rem sx sy).
  assert (Hr : Z.abs (Z.rem sx sy) < Z.abs sy) by (by apply Z.rem_bound_abs).
  pose proof (Z.quot_rem' sx sy) as Hqr.
  assert (Hq : s64 (Z.quot sx sy) = Z.quot sx sy).
  { apply s64_id.
    assert (Z.abs (Z.quot sx sy) <= Z.abs sx).
    { rewrite <- Z.quot_abs by done. apply Z.quot_le_upper_bound; nia. }
    destruct (decide (Z.quot sx sy = 9223372036854775808)) as [Eq|]; [|lia].
    exfalso. apply andb_false_iff in Eov as [Eov|Eov]; apply Z.eqb_neq in Eov; [lia|].
    assert (sx = -9223372036854775808) by lia. nia. }
  assert (Hr64 : s64 (Z.rem sx sy) = Z.rem sx sy) by (apply s64_id; lia).
  split_and!; try done.
  - rewrite <- Hq. by eapply wrote_W.
  - rewrite <- Hr64. by eapply wrote_W.
  - lia.
  - by apply Z.rem_sign_mul.
Qed.

(** ** Branches *)

Definition word_branches : list (M unit * (Z -> Z -> bool)) :=
  [(beqw, Z.eqb); (bnew, neqb); (bltw, Z.ltb); (blew, Z.leb); (bgtw, Z.gtb); (bgew, Z.geb)].
Definition big_branches : list (M unit * (Z -> Z -> bool)) :=
  [(beql, Z.eqb); (bnel, neqb); (bltl, Z.ltb); (blel, Z.leb); (bgtl, Z.gtb); (bgel, Z.geb)].

Lemma JMP_ok r s v : load 8 (mem s) (r (R s)) = Some v -> JMP r s = Ok tt (with_R (set_PC v) s).
Proof. intros Hv. unfold JMP, P. by vm_step. Qed.

Lemma when_JMP (b : bool) s v :
  load 8 (mem s) (R_d (R s)) = Some v ->
  when b (JMP R_d) s = Ok tt (if b then with_R (set_PC v) s else s).
Proof. intros Hv. destruct b; [by apply JMP_ok|done]. Qed.

Lemma load4_of_load8 m a w :
  byte_mem m -> load 8 m a = Some w -> exists w4, load 4 m a = Some w4 /\ s32 w4 = s32 w.
Proof.
  intros Hm. unfold load.
  destruct (load_bytes m a 8) as [bs|] eqn:E; cbn [fmap option_fmap option_map]; [|done].
  intros [= <-].
  assert (Hb := load_bytes_bytes _ _ _ _ Hm E). destruct Hb as [Hb _].
  cbn in E |- *.
  repeat match type of E with context [m !! ?x] => destruct (m !! x); cbn in *; [|done] end.
  simplify_eq. rewrite !Forall_cons_iff in Hb. unfold is_byte, M8 in *. destruct_and! Hb.
  eexists _. split; [reflexivity|]. cbn [le_val]. unfold s32, M32, M8.
  Z.div_mod_to_equations. lia.
Qed.

(** A conditional branch on words compares the low 32 bits of its operands
    as signed integers, whatever their upper halves hold, and jumps exactly
    when the comparison is true; the big branches compare all 64 bits. *)
Theorem branch_effect s x y target :
  byte_mem (mem s) ->
  load 8 (mem s) (R_s (R s)) = Some x -> load 8 (mem s) (R_m (R s)) = Some y ->
  load 8 (mem s) (R_d (R s)) = Some target ->
  (forall (op : M unit) (cmp : Z -> Z -> bool), (op, cmp) ∈ word_branches ->
     op s = Ok tt (if cmp (s32 x) (s32 y) then with_R (set_PC target) s else s)) /\
  (forall (op : M unit) (cmp : Z -> Z -> bool), (op, cmp) ∈ big_branches ->
     op s = Ok tt (if cmp (s64 x) (s64 y) then with_R (set_PC target) s else s)).
Proof.
  intros Hm Hx Hy Ht.
  destruct (load4_of_load8 _ _ _ Hm Hx) as (x4 & Hx4 & <-).
  destruct (load4_of_load8 _ _ _ Hm Hy) as (y4 & Hy4 & <-).
  assert (Hw : forall cmp, branch W32 cmp s = Ok tt (if cmp (s32 x4) (s32 y4) then with_R (set_PC target) s else s)).
  { intros cmp. unfold branch. do 2 vm_step. by apply when_JMP. }
  assert (Hl : forall cmp, branch V cmp s = Ok tt (if cmp (s64 x) (s64 y) then with_R (set_PC target) s else s)).
  { intros cmp. unfold branch, V. do 2 vm_step. by apply when_JMP. }
  split; intros op cmp Hop.
  - unfold word_branches in Hop.
    repeat (apply elem_of_cons in Hop as [Hop|Hop]; [injection Hop as -> ->; apply Hw|]).
    by apply elem_of_nil in Hop.
  - unfold big_branches in Hop.
    repeat (apply elem_of_cons in Hop as [Hop|Hop]; [injection Hop as -> ->; apply Hl|]).
    by apply elem_of_nil in Hop.
Qed.

(** ** Exponentiation *)

Lemma iexp_loop_spec fuel x n r :
  0 <= n < 2 ^ Z.of_nat fuel -> (0 < fuel)%nat -> s64 r = r ->
  iexp_loop fuel x n r = Some (s64 (r * x ^ n)).
Proof.
  revert x n r. induction fuel as [|fuel IH]; intros x n r Hn Hf Hr; [lia|].
  rewrite Nat2Z.inj_succ, Z.pow_succ_r in Hn by lia. cbn [iexp_loop].
  set (r' := if Z.odd n then s64 (r * x) else r).
  assert (Hr' : s64 r' = r').
  { unfold r'. case_match; [|done]. apply s64_id, s64_range. }
  assert (Hhalf : eq64 (r * x ^ n) (r' * (x * x) ^ Z.shiftr n 1)).
  { rewrite Z.shiftr_div_pow2 by lia. change (2 ^ 1) with 2.
    assert (E : x ^ n = (x * x) ^ (n / 2) * x ^ (n mod 2)).
    { rewrite <- Z.pow_2_r, <- Z.pow_mul_r, <- Z.pow_add_r by (Z.div_mod_to_equations; lia).
      f_equal. Z.div_mod_to_equations. lia. }
    rewrite E, Zmod_odd. unfold r'. case_match.
    - rewrite eq64_s64, Z.pow_1_r. apply eq64_eq. lia.
    - apply eq64_eq. rewrite Z.pow_0_r. lia. }
  case_match eqn:E.
  - apply Z.eqb_eq in E. rewrite E, Z.pow_0_r, Z.mul_1_r in Hhalf.
    f_equal. rewrite Hhalf. by symmetry.
  - apply Z.eqb_neq in E.
    rewrite Z.shiftr_div_pow2 in * by lia. change (2 ^ 1) with 2 in *.
    destruct fuel as [|fuel]; [cbn in Hn; Z.div_mod_to_equations; lia|].
    rewrite IH; [|Z.div_mod_to_equations; lia|lia|done].
    f_equal. rewrite Hhalf. apply s64_eq_iff.
    by rewrite (eq64_pow (s64 (x * x)) (x * x)) by apply eq64_s64.
Qed.

(** With a negative exponent still in the loop, [n >>= 1] never reaches
    zero. *)
Lemma iexp_loop_negative fuel x n r : n < 0 -> iexp_loop fuel x n r = None.
Proof.
  revert x n r. induction fuel as [|fuel IH]; intros x n r Hn; [done|].
  cbn [iexp_loop]. rewrite Z.shiftr_div_pow2 by lia. change (2 ^ 1) with 2.
  case_match eqn:E; [apply Z.eqb_eq in E; Z.div_mod_to_equations; lia|].
  apply IH. Z.div_mod_to_equations. lia.
Qed.

(** iexpw and iexpl terminate and compute x^n modulo 2^64 (as a signed
    word) for every exponent n >= 0; for -2^63 < n < 0 they store 1/x^(-n)
    under truncating division, and trap when x^(-n) is 0 modulo 2^64. *)
Theorem iexpw_correct s x n :
  load 8 (mem s) (R_m (R s)) = Some x -> load 8 (mem s) (R_s (R s)) = Some n ->
  -9223372036854775808 < s64 n ->
  let p := s64 (s64 x ^ Z.abs (s64 n)) in
  iexpw s = if 0 <=? s64 n then setW R_d p s
            else if p =? 0 then Fault else setW R_d (Z.quot 1 p) s.
Proof.
  intros Hx Hn Hmin p. unfold iexpw. do 2 vm_step.
  assert (Hloop : forall k, 0 <= k < 9223372036854775808 ->
            iexp_loop iexp_fuel (s64 x) k 1 = Some (s64 (s64 x ^ k))).
  { intros k Hk. unfold iexp_fuel. rewrite iexp_loop_spec; [by rewrite Z.mul_1_l| |lia|done].
    change (2 ^ Z.of_nat 64) with M64. unfold M64. lia. }
  pose proof (s64_range n) as Hr.
  unfold iexp. destruct (Z.ltb_spec (s64 n) 0) as [Hneg|Hpos].
  - rewrite (s64_id (- s64 n)) by lia. rewrite Hloop by lia.
    destruct (Z.leb_spec 0 (s64 n)); [lia|].
    replace (- s64 n) with (Z.abs (s64 n)) by lia. fold p.
    unfold div_s64. change (1 =? -9223372036854775808) with false.
    rewrite andb_false_l, orb_false_r. by case_match.
  - destruct (Z.leb_spec 0 (s64 n)); [|lia]. rewrite Hloop by lia.
    unfold p. by rewrite Z.abs_eq by lia.
Qed.

(** For the most negative exponent the negation [n = -n] wraps to itself
    and the loop of iexpw never exits: no number of iterations makes it
    return. *)
Theorem iexpw_min_diverges fuel x r :
  iexp_loop fuel x (s64 (- (-9223372036854775808))) r = None.
Proof. by apply iexp_loop_negative. Qed.

(** ** Case tables: the binary search against a linear reference *)

(** A row: lower bound, upper bound (exclusive), target. *)
Abbreviation row := (Z * Z * Z)%type.

Definition in_row (cv : Z -> Z) (sel : Z) (r : row) : bool :=
  (cv r.1.1 <=? sel) && (sel <? cv r.1.2).

Fixpoint case_find (cv : Z -> Z) (sel : Z) (rows : list row) (default : Z) : Z :=
  match rows with
  | [] => default
  | r :: rows => if in_row cv sel r then r.2 else case_find cv sel rows default
  end.

(** The table a case instruction searches: row [k] is [stride] words from row
    [k-1], its target is in word [tgt], and the default target follows the
    last row. *)
Definition word_at (m : memory) (a v : Z) : Prop :=
  exists w, load 8 m a = Some w /\ s64 w = v.
Definition case_table (m : memory) (stride tgt t : Z) (rows : list row) (default : Z) : Prop :=
  (forall k r, rows !! k = Some r ->
     let l := padd t (8 * (Z.of_nat k * stride)) in
     word_at m (padd l 0) r.1.1 /\ word_at m (padd l 8) r.1.2 /\ word_at m (padd l (8 * tgt)) r.2) /\
  word_at m (padd t (8 * (Z.of_nat (length rows) * stride))) default.

(** Rows are non-empty, disjoint intervals in increasing order. *)
Definition rows_sorted (cv : Z -> Z) (rows : list row) : Prop :=
  (forall k r, rows !! k = Some r -> cv r.1.1 <= cv r.1.2) /\
  (forall j k rj rk, (j < k)%nat -> rows !! j = Some rj -> rows !! k = Some rk ->
     cv rj.1.2 <= cv rk.1.1).

(** What the search needs: no row ends after a later one begins.  A row may be empty. *)
Definition rows_ordered (cv : Z -> Z) (rows : list row) : Prop :=
  forall j k rj rk, (j < k)%nat -> rows !! j = Some rj -> rows !! k = Some rk ->
    cv rj.1.1 <= cv rk.1.1 /\ cv rj.1.2 <= cv rk.1.1.
Lemma sorted_ordered cv rows : rows_sorted cv rows -> rows_ordered cv rows.
Proof.
  intros [Hle Hord] j k rj rk Hjk Hj Hk. pose proof (Hle j rj Hj). pose proof (Hord j k rj rk Hjk Hj Hk). lia.
Qed.

Lemma case_find_none cv sel rows d :
  (forall k r, rows !! k = Some r -> in_row cv sel r = false) -> case_find cv sel rows d = d.
Proof.
  induction rows as [|r rows IH]; intros Hn; [done|]. cbn.
  rewrite (Hn O r) by done. apply IH. intros k. apply (Hn (Datatypes.S k)).
Qed.

Lemma case_find_at cv sel rows d k r :
  rows !! k = Some r -> in_row cv sel r = true ->
  (forall j r', (j < k)%nat -> rows !! j = Some r' -> in_row cv sel r' = false) ->
  case_find cv sel rows d = r.2.
Proof.
  revert k. induction rows as [|r0 rows IH]; intros k Hk Hin Hn; [done|]. cbn.
  destruct k as [|k]; cbn in Hk; [by simplify_eq; rewrite Hin|].
  rewrite (Hn O r0) by (done || lia). apply (IH k); [done..|].
  intros j r' Hj. apply (Hn (Datatypes.S j)). lia.
Qed.

Lemma ldw_at t i s v : word_at (mem s) (padd t (8 * i)) v -> ldw t i s = Ok v s.
Proof. intros (w & Hw & <-). unfold ldw. by vm_step. Qed.

Section case_search.
Context (cv : Z -> Z) (stride tgt t sel default : Z) (rows : list row) (s : VM).
Hypothesis tbl : case_table (mem s) stride tgt t rows default.
Hypothesis ordered : rows_ordered cv rows.

Lemma case_loop_spec fuel base n :
  0 <= n < 2 ^ Z.of_nat fuel -> 0 <= base -> base + n <= Z.of_nat (length rows) ->
  (forall k r, rows !! k = Some r -> Z.of_nat k < base -> cv r.1.2 <= sel) ->
  (forall k r, rows !! k = Some r -> base + n <= Z.of_nat k -> sel < cv r.1.1) ->
  case_loop (Datatypes.S fuel) cv stride tgt sel (padd t (8 * (base * stride))) n default s =
    Ok (case_find cv sel rows default) s.
Proof.
  revert base n. induction fuel as [|fuel IH]; intros base n Hn Hbase Hlen Hlow Hhigh.
  - assert (n = 0) as -> by (cbn in Hn; lia). cbn [case_loop]. cbn.
    rewrite case_find_none; [done|]. intros k r Hk. unfold in_row.
    apply andb_false_iff. rewrite Z.leb_gt, Z.ltb_ge.
    destruct (Z.lt_ge_cases (Z.of_nat k) base); [right|left]; eauto with lia.
  - cbn [case_loop]. destruct (Z.ltb_spec 0 n) as [Hpos|Hzero].
    2:{ rewrite case_find_none; [done|]. intros k r Hk. unfold in_row.
        apply andb_false_iff. rewrite Z.leb_gt, Z.ltb_ge.
        destruct (Z.lt_ge_cases (Z.of_nat k) base); [right|left]; eauto with lia. }
    rewrite Nat2Z.inj_succ, Z.pow_succ_r in Hn by lia.
    rewrite Z.shiftr_div_pow2 by lia. change (2 ^ 1) with 2. set (n2 := n / 2).
    assert (Hn2 : 2 * n2 <= n < 2 * n2 + 2) by (unfold n2; Z.div_mod_to_equations; lia).
    clearbody n2. set (k := Z.to_nat (base + n2)).
    assert (Hk : Z.of_nat k = base + n2) by lia. clearbody k.
    destruct (lookup_lt_is_Some_2 rows k) as [r Hr]; [lia|].
    destruct tbl as [Hrows _]. destruct (Hrows k r Hr) as (H0 & H1 & H2).
    assert (Hl : padd (padd t (8 * (base * stride))) (8 * (n2 * stride)) =
                 padd t (8 * (Z.of_nat k * stride))) by (rewrite padd_padd; f_equal; lia).
    rewrite Hl. clear Hl.
    erewrite bind_ok; [|apply ldw_at; by apply H0].
    destruct (Z.ltb_spec sel (cv r.1.1)) as [Hlt|Hge].
    + apply IH; [lia..|done|]. intros j rj Hj Hkj.
      destruct (decide (j = k)) as [->|]; [replace rj with r by congruence; lia|].
      pose proof (ordered k j r rj ltac:(lia) Hr Hj). lia.
    + erewrite bind_ok; [|apply ldw_at; by apply H1].
      rewrite Z.geb_leb. destruct (Z.leb_spec (cv r.1.2) sel) as [Hge'|Hlt'].
      * assert (Hl : padd (padd t (8 * (Z.of_nat k * stride))) (8 * stride) =
                     padd t (8 * ((base + n2 + 1) * stride))) by (rewrite padd_padd; f_equal; lia).
        rewrite Hl. apply IH; [lia..| |].
        -- intros j rj Hj Hkj. destruct (decide (j = k)) as [->|]; [replace rj with r by congruence; lia|].
           pose proof (ordered j k rj r ltac:(lia) Hj Hr). lia.
        -- intros j rj Hj Hkj. apply (Hhigh j rj Hj). lia.
      * erewrite ldw_at by done. f_equal. symmetry. apply (case_find_at _ _ _ _ k); [done| |].
        -- unfold in_row. apply andb_true_iff. rewrite Z.leb_le, Z.ltb_lt. lia.
        -- intros j rj Hj Hjr. pose proof (ordered j k rj r Hj Hjr Hr).
           unfold in_row. apply andb_false_iff. rewrite Z.ltb_ge. right. lia.
Qed.
End case_search.

(** The program counter a case instruction must end with. *)
Definition pc_of (l : Modlink) (target : Z) : Z :=
  if ml_compiled l then u64 target else padd (ml_prog l) (target * sizeof_Inst).

Lemma goto_target_ok target l s :
  mods s !! R_M (R s) = Some l ->
  goto_target target s = Ok tt (with_R (set_PC (pc_of l target)) s).
Proof.
  intros Hl. unfold goto_target, pc_of, mbind, ST_bind, reg, gets.
  rewrite Hl. cbn. by case_match.
Qed.

Lemma icase_run s sel rows default l :
  load 4 (mem s) (R_s (R s)) = Some sel ->
  let t := padd (R_d (R s)) IBY2WD in
  case_table (mem s) 3 2 t rows default ->
  word_at (mem s) (padd t (-8)) (Z.of_nat (length rows)) ->
  Z.of_nat (length rows) < 9223372036854775808 ->
  rows_ordered s32 rows ->
  mods s !! R_M (R s) = Some l ->
  icase s = Ok tt (with_R (set_PC (pc_of l (case_find s32 (s32 sel) rows default))) s).
Proof.
  intros Hsel t Htbl Hn Hmax Hsort Hl. unfold icase. vm_step.
  erewrite bind_ok by done. fold t.
  erewrite bind_ok by (by apply ldw_at).
  pose proof (proj2 Htbl) as Hd.
  erewrite bind_ok by (by apply ldw_at).
  pose proof (case_loop_spec s32 3 2 t (s32 sel) default rows s Htbl Hsort 63 0
                (Z.of_nat (length rows))) as Hloop.
  change (2 ^ Z.of_nat 63) with 9223372036854775808 in Hloop.
  rewrite Z.mul_0_l, Z.mul_0_r in Hloop.
  assert (E0 : padd t 0 = t) by (unfold t; rewrite padd_padd; f_equal; lia).
  rewrite E0 in Hloop. erewrite bind_ok; [by apply goto_target_ok|].
  apply Hloop; [lia..| |]; intros k r Hk; apply lookup_lt_Some in Hk; lia.
Qed.

(** C24. icase selects by binary search what a linear scan of its table selects:
    for a table of sorted disjoint intervals, compared at 32 bits, it jumps to
    the target of the interval that contains the selector, and to the default
    target when there is none; it terminates for every table size. *)
Theorem icase_correct s sel rows default l :
  load 4 (mem s) (R_s (R s)) = Some sel ->
  let t := padd (R_d (R s)) IBY2WD in
  case_table (mem s) 3 2 t rows default ->
  word_at (mem s) (padd t (-8)) (Z.of_nat (length rows)) ->
  Z.of_nat (length rows) < 9223372036854775808 ->
  rows_sorted s32 rows ->
  mods s !! R_M (R s) = Some l ->
  icase s = Ok tt (with_R (set_PC (pc_of l (case_find s32 (s32 sel) rows default))) s).
Proof. intros Hsel t Ht Hn Hl Hs. apply icase_run; [done..|]. by apply sorted_ordered. Qed.

(** ** Array bounds *)

(** Array indexing is memory safe: with a real array in the source, an
    index instruction raises the bounds error exactly when the index, read as
    a signed word, is outside [0, len), and otherwise stores the address of an
    element that lies entirely inside the array's data; indexing nil is the
    bounds error too. *)
Theorem index_bounds s (size : Arr -> M Z) a i arr sz :
  load 8 (mem s) (R_s (R s)) = Some a -> load 8 (mem s) (R_d (R s)) = Some i ->
  byte_mem (mem s) ->
  (a <> H -> arrays s !! a = Some arr) ->
  0 <= a_len arr < 9223372036854775808 ->
  size arr s = Ok sz s -> 0 <= sz ->
  if (a =? H) || negb ((0 <=? s64 i) && (s64 i <? a_len arr))
  then index size s = Err exBounds s
  else let el := a_data arr + s64 i * sz in
       index size s = setP R_m el s /\
       a_data arr <= el /\ el + sz <= a_data arr + a_len arr * sz.
Proof.
  intros Ha Hi Hm Harr Hlen Hsz Hpos. unfold index, P. vm_step. vm_step.
  destruct (Z.eqb_spec a H) as [->|Hne]; [done|]. cbn [orb].
  unfold heap_array. specialize (Harr Hne).
  erewrite bind_ok; [|unfold mbind, ST_bind, gets; by rewrite Harr].
  assert (Hib : 0 <= i < M64) by (pose proof (load_bound _ _ _ _ Hm Hi); done).
  assert (Hu : u64 (a_len arr) = a_len arr) by (unfold u64, M64; apply Z.mod_small; lia).
  rewrite Hu, Z.geb_leb.
  destruct (Z.leb_spec (a_len arr) i) as [Hge|Hlt].
  - replace ((0 <=? s64 i) && (s64 i <? a_len arr)) with false; [done|]. symmetry.
    apply andb_false_iff. rewrite Z.leb_gt, Z.ltb_ge.
    destruct (Z.lt_ge_cases i 9223372036854775808).
    + right. rewrite s64_id; lia.
    + left. unfold M64 in Hib. int_lia.
  - assert (Hs : s64 i = i) by (apply s64_id; lia). rewrite Hs.
    destruct (Z.leb_spec 0 i); [|lia]. destruct (Z.ltb_spec i (a_len arr)); [|lia]. cbn.
    erewrite bind_ok by done. split_and!; [done|nia..].
Qed.

(** The size newa and newaz pass to [nheap(int)]. *)
Definition newa_request (tsz sz : Z) : Z := s32 (sizeof_Array + tsz * sz).

(** As long as header and elements fit in an int, acheck accepts exactly
    the non-negative lengths and the block requested holds all the elements. *)
Theorem acheck_in_range tsz sz s :
  0 <= tsz -> sizeof_Array + sizeof_Heap + tsz * Z.abs sz < 2147483648 ->
  acheck tsz sz s = (if sz <? 0 then Err exNegsize s else Ok tt s) /\
  (0 <= sz -> newa_request tsz sz = sizeof_Array + tsz * sz).
Proof.
  unfold acheck, newa_request, sizeof_Array, sizeof_Heap. intros Ht Hr.
  destruct (Z.ltb_spec sz 0); [split; [done|lia]|].
  rewrite Z.abs_eq in Hr by lia. assert (0 <= tsz * sz) by nia.
  assert (E1 : s32 (tsz * sz) = tsz * sz) by int_lia. rewrite E1.
  assert (E2 : u64 (tsz * sz) = tsz * sz) by int_lia. rewrite E2.
  assert (E3 : s32 (32 + 32 + tsz * sz) = 32 + 32 + tsz * sz) by int_lia. rewrite E3.
  split; [|intros; int_lia].
  destruct (Z.eqb_spec tsz 0) as [->|]; [by rewrite andb_false_r|].
  destruct (Z.ltb_spec (32 + 32 + tsz * sz) sz); [nia|done].
Qed.

(** Beyond that range acheck is not a sufficient guard: it accepts an
    array of 613566757 eight-byte elements, for which the int argument of
    nheap has wrapped and the block requested is smaller than the elements by
    more than 4 gigabytes. *)
Theorem acheck_wraps s :
  acheck 8 613566757 s = Ok tt s /\
  newa_request 8 613566757 + 4294967296 = sizeof_Array + 8 * 613566757.
Proof. split; by vm_compute. Qed.

(** ** Instances at concrete machines *)

Example word_op_effect_witness :
  exists s', mulw (machine 0 16 24 32 [(16, 7); (24, M64 - 3); (32, 0)]) = Ok tt s' /\
    W R_d s' = Ok (-21) s'.
Proof.
  destruct (word_op_effect mulw Z.mul (machine 0 16 24 32 [(16, 7); (24, M64 - 3); (32, 0)]) (M64 - 3) 7)
    as (s' & E & _ & Hw).
  - unfold word_ops. rewrite !elem_of_cons. tauto.
  - by_eval.
  - by_eval.
  - by_eval.
  - exists s'. split; [exact E|]. exact Hw.
Defined.

Example byte_op_effect_witness :
  exists s', addb (machine 0 16 24 32 [(16, 200); (24, 100); (32, 0)]) = Ok tt s' /\
    B R_d s' = Ok 44 s'.
Proof.
  destruct (byte_op_effect addb Z.add (machine 0 16 24 32 [(16, 200); (24, 100); (32, 0)]) 100 200)
    as (s' & E & _ & Hw).
  - unfold byte_ops. rewrite !elem_of_cons. tauto.
  - by_eval.
  - by_eval.
  - by_eval.
  - exists s'. split; [exact E|]. exact Hw.
Defined.

Example divw_modw_witness :
  let s := machine 0 16 24 32 [(16, 4); (24, M64 - 7); (32, 0)] in
  exists s1 s2 q r, divw s = Ok tt s1 /\ modw s = Ok tt s2 /\ -7 = q * 4 + r /\ Z.abs r < 4 /\ 0 <= r * -7.
Proof.
  pose proof (divw_modw (machine 0 16 24 32 [(16, 4); (24, M64 - 7); (32, 0)]) (M64 - 7) 4
    ltac:(by_eval) ltac:(by_eval) ltac:(by_eval) ltac:(by_eval)) as
    (s1 & s2 & q & r & E1 & _ & _ & E2 & _ & _ & H1 & H2 & H3).
  exists s1, s2, q, r. split; [exact E1|]. split; [exact E2|]. split; [exact H1|]. split; [exact H2|exact H3].
Defined.

Example branch_effect_witness :
  let s := machine 0 16 24 32 [(16, 5); (24, M32 + 5); (32, 4800)] in
  beqw s = Ok tt (with_R (set_PC 4800) s) /\ beql s = Ok tt s.
Proof.
  destruct (branch_effect (machine 0 16 24 32 [(16, 5); (24, M32 + 5); (32, 4800)]) 5 (M32 + 5) 4800
    ltac:(by_eval) ltac:(by_eval) ltac:(by_eval) ltac:(by_eval)) as [Hw Hl].
  split.
  - apply (Hw beqw Z.eqb). unfold word_branches. rewrite !elem_of_cons. tauto.
  - apply (Hl beql Z.eqb). unfold big_branches. rewrite !elem_of_cons. tauto.
Defined.

Example iexpw_correct_witness :
  let s := machine 0 16 24 32 [(16, 13); (24, M64 - 3); (32, 0)] in
  iexpw s = setW R_d (-1594323) s.
Proof.
  exact (iexpw_correct (machine 0 16 24 32 [(16, 13); (24, M64 - 3); (32, 0)]) (M64 - 3) 13
    ltac:(by_eval) ltac:(by_eval) ltac:(by_eval)).
Defined.

Definition demo_case : VM :=
  machine 0 16 0 32
    [(16, 25); (32, 2); (40, 10); (48, 20); (56, 3); (64, 20); (72, 30); (80, 4); (88, 9)].

Example icase_correct_witness :
  icase demo_case = Ok tt (with_R (set_PC (65536 + 4 * 24)) demo_case).
Proof.
  apply (icase_correct demo_case 25 [(10, 20, 3); (20, 30, 4)] 9 (mkModlink 4096 false 65536 [])).
  - by_eval.
  - split.
    + intros [|[|[|k]]] r Hk; cbn in Hk; try discriminate; injection Hk as <-;
        split_and!; eexists; split; by_eval.
    + eexists. split; by_eval.
  - eexists. split; by_eval.
  - by_eval.
  - split.
    + intros [|[|[|k]]] r Hk; cbn in Hk; try discriminate; injection Hk as <-; vm_compute; discriminate.
    + intros [|[|[|j]]] [|[|[|k]]] rj rk Hjk Hj Hk; cbn in Hj, Hk; try discriminate; try lia;
        injection Hj as <-; injection Hk as <-; vm_compute; discriminate.
  - by_eval.
Defined.

Definition demo_array : VM :=
  let s := machine 0 16 24 32 [(16, 1024); (24, 0); (32, 2)] in
  with_arrays (fun _ => {[1024 := mkArr 3 0 0 2048]}) s.

Example index_bounds_witness :
  indw demo_array = setP R_m 2064 demo_array /\ 2048 <= 2064 /\ 2064 + 8 <= 2048 + 3 * 8.
Proof.
  pose proof (index_bounds demo_array (fun _ => mret 8) 1024 2 (mkArr 3 0 0 2048) 8
    ltac:(by_eval) ltac:(by_eval) ltac:(by_eval) ltac:(by_eval) ltac:(cbn; lia) ltac:(by_eval) ltac:(lia)) as H.
  exact H.
Defined.

Example acheck_in_range_witness :
  acheck 8 10 (machine 0 0 0 0 []) = Ok tt (machine 0 0 0 0 []) /\ newa_request 8 10 = 112.
Proof.
  destruct (acheck_in_range 8 10 (machine 0 0 0 0 [])) as [H1 H2].
  - lia.
  - unfold sizeof_Array, sizeof_Heap. lia.
  - split; [exact H1|]. rewrite H2 by lia. reflexivity.
Defined.
