(* ===== verification/Object.v ===== *)
(** * The Dis object file: the Limbo writer and the interpreter's loader

    limbo/dis.c writes operands, instructions and the data section of a
    module; libinterp/load.c ([parsemod]) reads them back.  A file is a list
    of bytes; reading past its end is [None].  The loader's effect on the
    module data is the list of the assignments it performs, in order. *)

From S2P Require Import Prelude Mem Vm Dec.

(** ** Writing operands (limbo/dis.c) *)

(** [None]: fatal("overflow in constant"). *)
Definition discon (val : Z) : option (list Z) :=
  if (-64 <=? val) && (val <=? 63) then Some [u8 (Z.land val (Z.lnot 128))]
  else if (-8192 <=? val) && (val <=? 8191) then
    Some [u8 (Z.lor (Z.land (Z.shiftr val 8) (Z.lnot 192)) 128); u8 val]
  else if ((val <? 0) && negb (Z.land (Z.shiftr val 29) 7 =? 7))
       || ((0 <? val) && negb (Z.shiftr val 29 =? 0)) then None
  else Some [u8 (Z.lor (Z.shiftr val 24) 192); u8 (Z.shiftr val 16); u8 (Z.shiftr val 8); u8 val].

(** The same encoding into the instruction buffer. *)
Definition disbcon (val : Z) : option (list Z) :=
  if (-64 <=? val) && (val <=? 63) then Some [u8 (Z.land val (Z.lnot 128))]
  else if (-8192 <=? val) && (val <=? 8191) then
    Some [u8 (Z.lor (Z.land (Z.shiftr val 8) (Z.lnot 192)) 128); u8 val]
  else if ((val <? 0) && negb (Z.land (Z.shiftr val 29) 7 =? 7))
       || ((0 <? val) && negb (Z.shiftr val 29 =? 0)) then None
  else Some [u8 (Z.lor (Z.shiftr val 24) 192); u8 (Z.shiftr val 16); u8 (Z.shiftr val 8); u8 val].

Definition disword (w : Z) : list Z :=
  [u8 (Z.shiftr w 24); u8 (Z.shiftr w 16); u8 (Z.shiftr w 8); u8 w].

(** [#define DBYTE(x, l) ((x<<4)|l)] *)
Definition DMAX : Z := 16.
Definition DBYTE (x l : Z) : Z := Z.lor (Z.shiftl x 4) l.
Definition DTYPE (x : Z) : Z := Z.shiftr x 4.
Definition DLEN (x : Z) : Z := Z.land x (DMAX - 1).

Definition disdata (kind n : Z) : option (list Z) :=
  if (n <? DMAX) && negb (n =? 0) then Some [u8 (DBYTE kind n)]
  else c ← discon n; Some (u8 (DBYTE kind 0) :: c).

(** ** Reading operands (libinterp/load.c) *)

Definition operand (p : list Z) : option (Z * list Z) :=
  match p with
  | [] => None
  | c :: p =>
      let k := Z.land c 192 in
      if k =? 0 then Some (c, p)
      else if k =? 64 then Some (Z.lor c (Z.lnot 127), p)
      else
        let c := if negb (Z.land c 32 =? 0) then Z.lor c (Z.lnot 63) else Z.land c 63 in
        if k =? 128 then
          match p with
          | c1 :: p => Some (Z.lor (Z.shiftl c 8) c1, p)
          | _ => None
          end
        else
          match p with
          | c1 :: c2 :: c3 :: p =>
              Some (Z.lor (Z.lor (Z.lor (Z.shiftl c 24) (Z.shiftl c1 16)) (Z.shiftl c2 8)) c3, p)
          | _ => None
          end
  end.

Definition disw (p : list Z) : option (Z * list Z) :=
  match p with
  | c0 :: c1 :: c2 :: c3 :: p =>
      Some (s32 (Z.lor (Z.lor (Z.lor (Z.shiftl c0 24) (Z.shiftl c1 16)) (Z.shiftl c2 8)) c3), p)
  | _ => None
  end.

(** ** Operand round trip *)

Lemma disbcon_discon val : disbcon val = discon val.
Proof. done. Qed.

Lemma discon_small val rest :
  -64 <= val <= 63 -> operand (u8 (Z.land val (Z.lnot 128)) :: rest) = Some (val, rest).
Proof.
  intros Hv.
  assert (E : forall x, 0 <= x < 128 ->
    (let c := u8 (Z.land (x - 64) (Z.lnot 128)) in
     if Z.land c 192 =? 0 then c =? x - 64
     else (Z.land c 192 =? 64) && (Z.lor c (Z.lnot 127) =? x - 64)) = true).
  { apply (forall_range (fun x => _)). by vm_compute. }
  specialize (E (val + 64) ltac:(lia)). replace (val + 64 - 64) with val in E by lia.
  cbn zeta in E. unfold operand. cbn zeta. repeat case_match; try done.
  - apply Z.eqb_eq in E. by rewrite E.
  - apply Z.eqb_eq in E. by rewrite E.
Qed.

Lemma discon_medium val rest :
  -8192 <= val <= 8191 ->
  operand (u8 (Z.lor (Z.land (Z.shiftr val 8) (Z.lnot 192)) 128) :: u8 val :: rest) = Some (val, rest).
Proof.
  intros Hv. rewrite Z.shiftr_div_pow2 by lia. change (2 ^ 8) with 256.
  set (hi := val / 256).
  assert (E : forall x, 0 <= x < 64 ->
    (let c := u8 (Z.lor (Z.land (x - 32) (Z.lnot 192)) 128) in
     (Z.land c 192 =? 128) &&
     ((if negb (Z.land c 32 =? 0) then Z.lor c (Z.lnot 63) else Z.land c 63) =? x - 32)) = true).
  { apply (forall_range (fun x => _)). by vm_compute. }
  assert (Hhi : -32 <= hi < 32) by (unfold hi; Z.div_mod_to_equations; lia).
  specialize (E (hi + 32) ltac:(lia)). replace (hi + 32 - 32) with hi in E by lia.
  cbn zeta in E. apply andb_true_iff in E as [E1 E2]. apply Z.eqb_eq in E1, E2.
  unfold operand. cbn zeta. rewrite E1, E2. cbn [Z.eqb Pos.eqb].
  rewrite lor_shiftl; [|lia|apply (u8_byte val)].
  do 2 f_equal. unfold hi, u8, M8. change (2 ^ 8) with 256. Z.div_mod_to_equations. lia.
Qed.

Lemma be32_value a b c d :
  0 <= b < 256 -> 0 <= c < 256 -> 0 <= d < 256 ->
  Z.lor (Z.lor (Z.lor (Z.shiftl a 24) (Z.shiftl b 16)) (Z.shiftl c 8)) d =
  a * 16777216 + b * 65536 + c * 256 + d.
Proof.
  intros Hb Hc Hd. rewrite <- !Z.lor_assoc.
  rewrite (lor_shiftl c d 8) by lia. change (2 ^ 8) with 256.
  rewrite (lor_shiftl b) by lia. change (2 ^ 16) with 65536.
  rewrite lor_shiftl by lia. change (2 ^ 24) with 16777216. lia.
Qed.

Lemma discon_large val rest :
  -536870912 <= val < 536870912 ->
  operand (u8 (Z.lor (Z.shiftr val 24) 192) :: u8 (Z.shiftr val 16) :: u8 (Z.shiftr val 8) ::
           u8 val :: rest) = Some (val, rest).
Proof.
  intros Hv. rewrite !Z.shiftr_div_pow2 by lia.
  change (2 ^ 8) with 256. change (2 ^ 16) with 65536. change (2 ^ 24) with 16777216.
  set (hi := val / 16777216).
  assert (E : forall x, 0 <= x < 64 ->
    (let c := u8 (Z.lor (x - 32) 192) in
     (Z.land c 192 =? 192) &&
     ((if negb (Z.land c 32 =? 0) then Z.lor c (Z.lnot 63) else Z.land c 63) =? x - 32)) = true).
  { apply (forall_range (fun x => _)). by vm_compute. }
  assert (Hhi : -32 <= hi < 32) by (unfold hi; Z.div_mod_to_equations; lia).
  specialize (E (hi + 32) ltac:(lia)). replace (hi + 32 - 32) with hi in E by lia.
  cbn zeta in E. apply andb_true_iff in E as [E1 E2]. apply Z.eqb_eq in E1, E2.
  unfold operand. cbn zeta. rewrite E1, E2. cbn [Z.eqb Pos.eqb].
  rewrite be32_value by apply u8_byte.
  do 2 f_equal. unfold hi, u8, M8. Z.div_mod_to_equations. lia.
Qed.

Lemma discon_defined val : -536870912 <= val < 536870912 -> is_Some (discon val).
Proof.
  intros Hv. unfold discon. case_match; [eauto|]. case_match; [eauto|].
  rewrite Z.shiftr_div_pow2 by lia. change (2 ^ 29) with 536870912.
  destruct (Z.ltb_spec val 0), (Z.ltb_spec 0 val); cbn [andb orb]; try lia; eauto.
  - replace (val / 536870912) with (-1) by (Z.div_mod_to_equations; lia). cbn. eauto.
  - rewrite Z.div_small by lia. cbn. eauto.
Qed.

Lemma operand_discon val bs rest :
  -536870912 <= val < 536870912 -> discon val = Some bs -> operand (bs ++ rest) = Some (val, rest).
Proof.
  intros Hv. unfold discon.
  destruct ((-64 <=? val) && (val <=? 63)) eqn:E1.
  { intros [= <-]. apply discon_small. lia. }
  destruct ((-8192 <=? val) && (val <=? 8191)) eqn:E2.
  { intros [= <-]. apply discon_medium. lia. }
  case_match; [done|]. intros [= <-]. by apply discon_large.
Qed.

Lemma disw_disword w rest : disw (disword w ++ rest) = Some (s32 w, rest).
Proof.
  unfold disword, disw. cbn [app]. rewrite be32_value by apply u8_byte.
  rewrite !Z.shiftr_div_pow2 by lia.
  change (2 ^ 8) with 256. change (2 ^ 16) with 65536. change (2 ^ 24) with 16777216.
  do 2 f_equal. int_lia.
Qed.

(** ** Instructions (limbo/limbo.h, limbo/dis.c) *)

Inductive amode :=
  | Aimm | Amp | Ampind | Afp | Afpind | Apc | Adesc | Aoff | Anoff | Aerr | Anone | Aldt.
#[export] Instance amode_dec : EqDecision amode.
Proof. solve_decision. Defined.

(** [ad_iface] is [a->decl->iface->offset]. *)
Record Addr := mkAddr { ad_reg : Z; ad_offset : Z; ad_iface : Z }.

Record LInst := mkLInst {
  li_op : Z;
  li_sm : amode; li_mm : amode; li_dm : amode;
  li_s : Addr; li_m : Addr; li_d : Addr;
}.

Definition AXXX : Z := 3.
Definition SRC (x : Z) : Z := Z.shiftl x 3.
Definition DST (x : Z) : Z := Z.shiftl x 0.
(** [#define INOOP (MAXDIS+2)] *)
Definition INOOP : Z := 177.

Definition dismode (m : amode) : Z :=
  match m with
  | Aimm => AIMM
  | Amp => AMP
  | Ampind => Z.lor AMP AIND
  | Afp => AFP
  | Afpind => Z.lor AFP AIND
  | Apc => AIMM
  | Adesc => AIMM
  | Aoff => AIMM
  | Anoff => AIMM
  | Aerr => AXXX
  | Anone => AXXX
  | Aldt => AIMM
  end.

Definition disregmode (m : amode) : Z :=
  match m with
  | Aimm => AXIMM
  | Amp => AXINM
  | Ampind => AXNON
  | Afp => AXINF
  | Afpind => AXNON
  | Apc => AXIMM
  | Adesc => AXIMM
  | Aoff => AXIMM
  | Anoff => AXIMM
  | Aerr => AXNON
  | Anone => AXNON
  | Aldt => AXIMM
  end.

(** The bytes an operand adds to the instruction buffer. *)
Definition disaddr (m : amode) (a : Addr) : option (list Z) :=
  match m with
  | Anone | Aerr => disbcon 0
  | Aimm | Apc | Adesc => disbcon (ad_offset a)
  | Aoff => disbcon (ad_iface a)
  | Anoff => disbcon (- (ad_iface a + 1))
  | Afp | Amp | Aldt => disbcon (ad_reg a)
  | Afpind | Ampind => r ← disbcon (ad_reg a); o ← disbcon (ad_offset a); Some (r ++ o)
  end.

(** The part of an instruction an operand contributes; nothing for [Anone]. *)
Definition disoperand (m : amode) (a : Addr) : option (list Z) :=
  if decide (m = Anone) then Some [] else disaddr m a.

(** One iteration of the loop of disinst, on an instruction that is not
    [INOOP]. *)
Definition disinst1 (i : LInst) : option (list Z) :=
  m ← disoperand (li_mm i) (li_m i);
  s ← disoperand (li_sm i) (li_s i);
  d ← disoperand (li_dm i) (li_d i);
  Some (u8 (li_op i) ::
        u8 (Z.lor (Z.lor (SRC (dismode (li_sm i))) (DST (dismode (li_dm i)))) (disregmode (li_mm i))) ::
        m ++ s ++ d).

Definition MAXCON : Z := 4.
Definition MAXADDR : Z := 2 * MAXCON.
Definition MAXINST : Z := 3 * MAXADDR + 2.
Definition NIBUF : Z := 1024.

(** [out] is what was written to [bout], [ibuf] the first [nibuf] bytes of
    the buffer. *)
Fixpoint disinst_loop (ins : list LInst) (out ibuf : list Z) : option (list Z * list Z) :=
  match ins with
  | [] => Some (out, ibuf)
  | i :: ins =>
      if li_op i =? INOOP then disinst_loop ins out ibuf
      else
        let '(out, ibuf) :=
          if NIBUF - MAXINST <=? Z.of_nat (length ibuf) then (out ++ ibuf, []) else (out, ibuf) in
        b ← disinst1 i;
        disinst_loop ins out (ibuf ++ b)
  end.

Definition disinst (ins : list LInst) : option (list Z) :=
  '(out, ibuf) ← disinst_loop ins [] [];
  Some (if 0 <? Z.of_nat (length ibuf) then out ++ ibuf else out).

(** ** The instruction loop of parsemod (libinterp/load.c) *)

(** The opcodes whose immediate destination is a branch target: ICALL, IJMP,
    ISPAWN and the conditional branches. *)
Definition branch_ops : list Z :=
  [4; 13; 93; 94; 95; 96; 97; 98; 87; 88; 89; 90; 91; 92; 99; 100; 101; 102; 103; 104;
   105; 106; 107; 108; 109; 110; 134; 129; 130; 131; 132; 133; 6].

(** [None]: return 0. *)
Definition brpatch (op imm prog nprog : Z) : option Z :=
  if decide (op ∈ branch_ops) then
    if (imm <? 0) || (imm >=? nprog) then None else Some (u64 (prog + imm * sizeof_Inst))
  else Some (u64 imm).

Inductive lerr := Bad (e : string) | Overrun.
Abbreviation parsed A := (lerr + A)%type.
Definition need {A} (o : option A) : parsed A :=
  match o with Some a => inr a | None => inl Overrun end.
#[export] Instance parsed_bind : MBind (sum lerr) := fun A B k c =>
  match c with inl e => inl e | inr a => k a end.

(** A word of an [Adr] union: a full word, or the two 16-bit halves over a
    zero word. *)
Definition adr_ind (v : Z) : Z := u64 v.
Definition adr_pair (f o : Z) : Z := u16 f + M16 * u16 o.

Definition parse_reg (add : Z) (p : list Z) : parsed (Z * list Z) :=
  let k := Z.land add ARM in
  if (k =? AXIMM) || (k =? AXINF) || (k =? AXINM) then
    '(v, p) ← need (operand p); inr (u16 v, p)
  else inr (0, p).

Definition UXSRC (x : Z) : Z := Z.land x (Z.shiftl AMASK 3).
Definition UXDST (x : Z) : Z := Z.land x (Z.shiftl AMASK 0).

Definition parse_src (add : Z) (p : list Z) : parsed (Z * list Z) :=
  let k := UXSRC add in
  if (k =? SRC AFP) || (k =? SRC AMP) || (k =? SRC AIMM) then
    '(v, p) ← need (operand p); inr (adr_ind v, p)
  else if (k =? SRC (Z.lor AIND AFP)) || (k =? SRC (Z.lor AIND AMP)) then
    '(f, p) ← need (operand p); '(o, p) ← need (operand p); inr (adr_pair f o, p)
  else inr (0, p).

Definition parse_dst (op add prog nprog : Z) (p : list Z) : parsed (Z * list Z) :=
  let k := UXDST add in
  if (k =? DST AFP) || (k =? DST AMP) then
    '(v, p) ← need (operand p); inr (adr_ind v, p)
  else if k =? DST AIMM then
    '(v, p) ← need (operand p);
    match brpatch op v prog nprog with
    | None => inl (Bad "bad branch addr")
    | Some v => inr (v, p)
    end
  else if (k =? DST (Z.lor AIND AFP)) || (k =? DST (Z.lor AIND AMP)) then
    '(f, p) ← need (operand p); '(o, p) ← need (operand p); inr (adr_pair f o, p)
  else inr (0, p).

Definition parse_inst (prog nprog : Z) (p : list Z) : parsed (Inst * list Z) :=
  match p with
  | op :: add :: p =>
      '(r, p) ← parse_reg add p;
      '(s, p) ← parse_src add p;
      '(d, p) ← parse_dst op add prog nprog p;
      inr (mkInst op add r s d, p)
  | _ => inl Overrun
  end.

Fixpoint parse_insts (n : nat) (prog nprog : Z) (p : list Z) : parsed (list Inst * list Z) :=
  match n with
  | O => inr ([], p)
  | S n =>
      '(i, p) ← parse_inst prog nprog p;
      '(is_, p) ← parse_insts n prog nprog p;
      inr (i :: is_, p)
  end.

(** ** Instruction round trip *)

(** The constants the writer can encode. *)
Definition con_ok (v : Z) : bool := (-536870912 <=? v) && (v <? 536870912).
Definition half_ok (v : Z) : bool := (0 <=? v) && (v <? M16).

(** The constant a direct operand carries. *)
Definition addr_val (m : amode) (a : Addr) : Z :=
  match m with
  | Aimm | Apc | Adesc => ad_offset a
  | Aoff => ad_iface a
  | Anoff => - (ad_iface a + 1)
  | Afp | Amp | Aldt => ad_reg a
  | _ => 0
  end.

(** An operand the compiler may emit as a source or destination, and as a
    middle operand: an indirection has two 16-bit offsets and cannot be in the
    middle, and a middle operand is a 16-bit immediate or offset. *)
Definition addr_ok (m : amode) (a : Addr) : bool :=
  match m with
  | Aerr => false
  | Afpind | Ampind => half_ok (ad_reg a) && half_ok (ad_offset a)
  | _ => con_ok (addr_val m a)
  end.
Definition is_imm (m : amode) : bool :=
  match m with Aimm | Apc | Adesc | Aoff | Anoff | Aldt => true | _ => false end.
Definition mid_ok (m : amode) (a : Addr) : bool :=
  match m with
  | Aerr | Afpind | Ampind => false
  | Afp | Amp => half_ok (ad_reg a)
  | Anone => true
  | _ => (-32768 <=? addr_val m a) && (addr_val m a <? 32768)
  end.

(** What the loader must make of an operand word. *)
Definition load_word (m : amode) (a : Addr) : Z :=
  match m with
  | Afpind | Ampind => adr_pair (ad_reg a) (ad_offset a)
  | _ => u64 (addr_val m a)
  end.

(** A non-negative constant the writer accepts is in range. *)
Lemma discon_nonneg v bs : 0 <= v -> discon v = Some bs -> con_ok v = true.
Proof.
  unfold discon, con_ok. intros Hv Hd.
  destruct (_ && _) eqn:E1 in Hd; [lia|]. destruct (_ && _) eqn:E2 in Hd; [lia|].
  rewrite Z.shiftr_div_pow2 in Hd by lia. change (2 ^ 29) with 536870912 in Hd.
  destruct (Z.ltb_spec v 0); [lia|]. destruct (Z.ltb_spec 0 v); [|lia].
  cbn in Hd. destruct (Z.eqb_spec (v / 536870912) 0); cbn in Hd; [|done].
  Z.div_mod_to_equations. lia.
Qed.

Lemma operand_disbcon v bs rest :
  con_ok v = true -> disbcon v = Some bs -> operand (bs ++ rest) = Some (v, rest).
Proof. unfold con_ok. intros Hv. rewrite disbcon_discon. apply operand_discon. lia. Qed.

(** The addressing byte and its three fields. *)
Lemma add_byte sm mm dm :
  let b := u8 (Z.lor (Z.lor (SRC (dismode sm)) (DST (dismode dm))) (disregmode mm)) in
  b = dismode sm * 8 + dismode dm + disregmode mm /\
  Z.land b ARM = disregmode mm /\ UXSRC b = SRC (dismode sm) /\ UXDST b = DST (dismode dm).
Proof. by destruct sm, mm, dm. Qed.

Lemma half_con v : half_ok v = true -> con_ok v = true.
Proof. unfold half_ok, con_ok, M16. lia. Qed.

Lemma disoperand_none a : disoperand Anone a = Some [].
Proof. done. Qed.
Lemma disoperand_direct m a :
  is_imm m = true \/ m = Afp \/ m = Amp -> disoperand m a = disbcon (addr_val m a).
Proof. by destruct m; intros [|[|]]. Qed.
Lemma disoperand_indirect m a :
  m = Afpind \/ m = Ampind ->
  disoperand m a = (r ← disbcon (ad_reg a); o ← disbcon (ad_offset a); Some (r ++ o)).
Proof. by intros [-> | ->]. Qed.

Lemma parse_reg_dis m a bs rest add :
  mid_ok m a = true -> disoperand m a = Some bs -> Z.land add ARM = disregmode m ->
  parse_reg add (bs ++ rest) = inr (u16 (addr_val m a), rest).
Proof.
  intros Hok Hbs Hadd. unfold parse_reg. rewrite Hadd.
  destruct (decide (m = Anone)) as [->|Hne].
  { rewrite disoperand_none in Hbs. by injection Hbs as <-. }
  assert (Hd : disbcon (addr_val m a) = Some bs).
  { rewrite <- disoperand_direct; [done|]. destruct m; auto; done. }
  assert (Hc : con_ok (addr_val m a) = true).
  { unfold con_ok. destruct m; cbn [mid_ok] in Hok; unfold half_ok, M16 in *; try done; cbn [addr_val] in *; lia. }
  rewrite (operand_disbcon _ _ _ Hc Hd). by destruct m.
Qed.

Lemma pair_dis r o bs rest :
  con_ok r = true -> con_ok o = true ->
  (x ← disbcon r; y ← disbcon o; Some (x ++ y)) = Some bs ->
  exists p, operand (bs ++ rest) = Some (r, p) /\ operand p = Some (o, rest).
Proof.
  intros Hr Ho. destruct (disbcon r) as [x|] eqn:Er; cbn; [|done].
  destruct (disbcon o) as [y|] eqn:Eo; cbn; [|done]. intros [= <-].
  exists (y ++ rest). rewrite <- app_assoc. split; by apply operand_disbcon.
Qed.

Lemma parse_src_dis m a bs rest add :
  addr_ok m a = true -> disoperand m a = Some bs -> UXSRC add = SRC (dismode m) ->
  parse_src add (bs ++ rest) = inr (load_word m a, rest).
Proof.
  intros Hok Hbs Hadd. unfold parse_src. rewrite Hadd.
  destruct (decide (m = Anone)) as [->|Hne].
  { rewrite disoperand_none in Hbs. by injection Hbs as <-. }
  destruct (decide (m = Afpind \/ m = Ampind)) as [Hi|Hi].
  - rewrite disoperand_indirect in Hbs by done.
    assert (Hh : half_ok (ad_reg a) && half_ok (ad_offset a) = true) by (by destruct Hi as [-> | ->]).
    apply andb_true_iff in Hh as [Hr%half_con Ho%half_con].
    destruct (pair_dis _ _ _ rest Hr Ho Hbs) as (p & E1 & E2).
    destruct Hi as [-> | ->]; cbn; by rewrite E1; cbn; rewrite E2.
  - assert (Hd : disbcon (addr_val m a) = Some bs).
    { rewrite <- disoperand_direct; [done|]. destruct m; naive_solver. }
    assert (Hc : con_ok (addr_val m a) = true) by (destruct m; naive_solver).
    rewrite (operand_disbcon _ _ _ Hc Hd). destruct m; naive_solver.
Qed.

(** The destination word of a loaded instruction. *)
Definition load_dst (prog op : Z) (m : amode) (a : Addr) : Z :=
  if is_imm m && bool_decide (op ∈ branch_ops) then u64 (prog + addr_val m a * sizeof_Inst)
  else load_word m a.
Definition dst_ok (nprog op : Z) (m : amode) (a : Addr) : bool :=
  addr_ok m a &&
  (if is_imm m && bool_decide (op ∈ branch_ops)
   then (0 <=? addr_val m a) && (addr_val m a <? nprog) else true).

Lemma parse_dst_dis m a bs rest op add prog nprog :
  dst_ok nprog op m a = true -> disoperand m a = Some bs -> UXDST add = DST (dismode m) ->
  parse_dst op add prog nprog (bs ++ rest) = inr (load_dst prog op m a, rest).
Proof.
  unfold dst_ok. rewrite andb_true_iff. intros [Hok Hbr] Hbs Hadd. unfold parse_dst. rewrite Hadd.
  destruct (decide (m = Anone)) as [->|Hne].
  { rewrite disoperand_none in Hbs. by injection Hbs as <-. }
  destruct (decide (m = Afpind \/ m = Ampind)) as [Hi|Hi].
  - rewrite disoperand_indirect in Hbs by done.
    assert (Hh : half_ok (ad_reg a) && half_ok (ad_offset a) = true) by (by destruct Hi as [-> | ->]).
    apply andb_true_iff in Hh as [Hr%half_con Ho%half_con].
    destruct (pair_dis _ _ _ rest Hr Ho Hbs) as (p & E1 & E2).
    destruct Hi as [-> | ->]; cbn; by rewrite E1; cbn; rewrite E2.
  - assert (Hd : disbcon (addr_val m a) = Some bs).
    { rewrite <- disoperand_direct; [done|]. destruct m; naive_solver. }
    assert (Hc : con_ok (addr_val m a) = true) by (destruct m; naive_solver).
    rewrite (operand_disbcon _ _ _ Hc Hd).
    destruct (decide (m = Afp \/ m = Amp)) as [Hf|Hf]; [by destruct Hf as [-> | ->]|].
    assert (Him : is_imm m = true) by (destruct m; naive_solver).
    assert (Hk : (DST (dismode m) =? DST AFP) || (DST (dismode m) =? DST AMP) = false /\
                 DST (dismode m) = DST AIMM) by (by destruct m).
    destruct Hk as [-> ->]. cbn. unfold load_dst, brpatch. rewrite Him in *. cbn [andb] in *.
    destruct (bool_decide_reflect (op ∈ branch_ops)).
    + rewrite decide_True by done. apply andb_true_iff in Hbr as [H1 H2].
      replace ((addr_val m a <? 0) || (addr_val m a >=? nprog)) with false; [done|].
      symmetry. apply orb_false_iff. rewrite Z.geb_leb, Z.leb_gt, Z.ltb_ge. lia.
    + rewrite decide_False by done. by destruct m.
Qed.

(** An instruction that limbo may write, with [nprog] instructions in the
    module: the immediate destination of a branch is an instruction. *)
Definition inst_ok (nprog : Z) (i : LInst) : bool :=
  (0 <=? li_op i) && (li_op i <? 256) &&
  addr_ok (li_sm i) (li_s i) && mid_ok (li_mm i) (li_m i) &&
  dst_ok nprog (li_op i) (li_dm i) (li_d i).

Definition load_inst (prog : Z) (i : LInst) : Inst :=
  mkInst (li_op i)
         (dismode (li_sm i) * 8 + dismode (li_dm i) + disregmode (li_mm i))
         (u16 (addr_val (li_mm i) (li_m i)))
         (load_word (li_sm i) (li_s i))
         (load_dst prog (li_op i) (li_dm i) (li_d i)).

Lemma parse_disinst1 prog nprog i bs rest :
  inst_ok nprog i = true -> disinst1 i = Some bs ->
  parse_inst prog nprog (bs ++ rest) = inr (load_inst prog i, rest).
Proof.
  unfold inst_ok. rewrite !andb_true_iff. intros [[[[Ho1 Ho2] Hs] Hm] Hd]. unfold disinst1.
  destruct (disoperand (li_mm i) _) as [m|] eqn:Em; cbn; [|done].
  destruct (disoperand (li_sm i) _) as [s|] eqn:Es; cbn; [|done].
  destruct (disoperand (li_dm i) _) as [d|] eqn:Ed; cbn; [|done]. intros [= <-]. cbn [app parse_inst].
  destruct (add_byte (li_sm i) (li_mm i) (li_dm i)) as (Eb & Hb1 & Hb2 & Hb3).
  rewrite <- !app_assoc, (parse_reg_dis _ _ _ _ _ Hm Em Hb1). cbn.
  rewrite (parse_src_dis _ _ _ _ _ Hs Es Hb2). cbn.
  assert (Hop : u8 (li_op i) = li_op i) by (apply Z.mod_small; unfold M8; lia). rewrite Hop.
  rewrite (parse_dst_dis _ _ _ _ _ _ prog _ Hd Ed Hb3). cbn. unfold load_inst. by rewrite Eb.
Qed.

(** Every constant the writer emits takes at most four bytes, so the buffer is
    never overrun. *)
Lemma disbcon_length v bs : disbcon v = Some bs -> (length bs <= 4)%nat.
Proof. unfold disbcon. repeat case_match; intros; simplify_eq; cbn; lia. Qed.

Lemma disoperand_length m a bs : disoperand m a = Some bs -> (length bs <= 8)%nat.
Proof.
  unfold disoperand. case_decide; [intros [= <-]; cbn; lia|].
  destruct m; cbn [disaddr]; intros Hbs;
    try (apply disbcon_length in Hbs; lia).
  all: destruct (disbcon (ad_reg a)) eqn:E1; cbn in Hbs; [|done];
       destruct (disbcon (ad_offset a)) eqn:E2; cbn in Hbs; [|done];
       injection Hbs as <-; apply disbcon_length in E1, E2; rewrite length_app; lia.
Qed.

Lemma disinst1_length i bs : disinst1 i = Some bs -> Z.of_nat (length bs) <= MAXINST.
Proof.
  unfold disinst1.
  destruct (disoperand (li_mm i) _) eqn:Em; cbn; [|done].
  destruct (disoperand (li_sm i) _) eqn:Es; cbn; [|done].
  destruct (disoperand (li_dm i) _) eqn:Ed; cbn; [|done]. intros [= <-].
  apply disoperand_length in Em, Es, Ed. cbn [length]. rewrite !length_app.
  unfold MAXINST, MAXADDR, MAXCON. lia.
Qed.

(** The buffered writer is the unbuffered one. *)
Fixpoint disinsts (ins : list LInst) : option (list Z) :=
  match ins with
  | [] => Some []
  | i :: ins => if li_op i =? INOOP then disinsts ins
                else b ← disinst1 i; bs ← disinsts ins; Some (b ++ bs)
  end.

Lemma disinst_loop_spec ins out ibuf :
  (fun r : list Z * list Z => r.1 ++ r.2) <$> disinst_loop ins out ibuf =
  (fun bs => out ++ ibuf ++ bs) <$> disinsts ins.
Proof.
  revert out ibuf. induction ins as [|i ins IH]; intros out ibuf; cbn; [by rewrite app_nil_r|].
  case_match; [apply IH|].
  destruct (NIBUF - MAXINST <=? _); cbn.
  all: destruct (disinst1 i) as [b|]; cbn; [|done]; rewrite IH.
  all: destruct (disinsts ins); cbn; [|done]; by rewrite <- ?app_assoc.
Qed.

Lemma disinst_eq ins : disinst ins = disinsts ins.
Proof.
  pose proof (disinst_loop_spec ins [] []) as E. unfold disinst.
  destruct (disinst_loop ins [] []) as [[out ibuf]|], (disinsts ins); cbn in *; try done.
  injection E as <-. destruct ibuf; cbn; by rewrite ?app_nil_r.
Qed.

Lemma disinst_run prog nprog ins bs rest :
  Forall (fun i => li_op i <> INOOP -> inst_ok nprog i = true) ins ->
  disinst ins = Some bs ->
  let code := filter (fun i => li_op i <> INOOP) ins in
  parse_insts (length code) prog nprog (bs ++ rest) = inr (load_inst prog <$> code, rest).
Proof.
  rewrite disinst_eq. intros Hok. revert bs. induction Hok as [|i ins Hi _ IH]; intros bs.
  { by intros [= <-]. }
  cbn [disinsts]. destruct (Z.eqb_spec (li_op i) INOOP) as [E|E].
  - rewrite filter_cons_False by auto. apply IH.
  - rewrite filter_cons_True by done.
    destruct (disinst1 i) as [b|] eqn:Eb; cbn; [|done].
    destruct (disinsts ins) as [bs'|]; cbn; [|done]. intros [= <-].
    rewrite <- app_assoc, (parse_disinst1 prog nprog i b _ (Hi E) Eb). cbn.
    specialize (IH _ eq_refl). cbn in IH. by rewrite IH.
Qed.

(** C22. The instruction section round-trips: the loader reads back, instruction
    by instruction, what limbo wrote, with the same opcode, addressing byte,
    middle operand, operand words and branch targets patched to instruction
    addresses; INOOP pseudo-instructions are dropped and what follows the
    section is left unread. *)
Theorem disinst_parse prog nprog ins bs rest :
  Forall (fun i => li_op i <> INOOP -> inst_ok nprog i = true) ins ->
  disinst ins = Some bs ->
  let code := filter (fun i => li_op i <> INOOP) ins in
  parse_insts (length code) prog nprog (bs ++ rest) = inr (load_inst prog <$> code, rest).
Proof. apply disinst_run. Qed.

(** The writer's 1024-byte instruction buffer never overflows: whatever
    the instructions, at most [NIBUF] bytes are in it after each one. *)
Theorem disinst_buffer ins out ibuf out' ibuf' :
  Z.of_nat (length ibuf) <= NIBUF ->
  disinst_loop ins out ibuf = Some (out', ibuf') ->
  Z.of_nat (length ibuf') <= NIBUF.
Proof.
  revert out ibuf. induction ins as [|i ins IH]; intros out ibuf Hl; cbn; [by intros [= <- <-]|].
  case_match; [by apply IH|].
  destruct (Z.leb_spec (NIBUF - MAXINST) (Z.of_nat (length ibuf))); cbn;
    (destruct (disinst1 i) as [b|] eqn:Eb; cbn; [|done]); apply disinst1_length in Eb;
    apply IH; rewrite ?length_app; cbn; unfold NIBUF, MAXINST, MAXADDR, MAXCON in *; lia.
Qed.

(** ** From the compiler's operands to effective addresses *)

(** The location limbo means by an operand, in a state with its frame and
    module data. *)
Definition limbo_ea (s : VM) (m : amode) (a : Addr) (here : Z) : option Z :=
  match m with
  | Afp => Some (padd (R_FP (R s)) (ad_reg a))
  | Amp => Some (padd (R_MP (R s)) (ad_reg a))
  | Afpind => p ← load 8 (mem s) (padd (R_FP (R s)) (ad_reg a)); Some (padd p (ad_offset a))
  | Ampind => p ← load 8 (mem s) (padd (R_MP (R s)) (ad_reg a)); Some (padd p (ad_offset a))
  | Anone | Aerr => None
  | _ => Some here
  end.

Lemma adr_pair_halves f o : half_ok f = true -> half_ok o = true ->
  adr_f (adr_pair f o) = f /\ adr_o (adr_pair f o) = o.
Proof. unfold half_ok, adr_pair, adr_f, adr_o, u16, M16. intros. split; Z.div_mod_to_equations; lia. Qed.

Lemma padd_u64_r a b : padd a (u64 b) = padd a b.
Proof. unfold padd. int_lia. Qed.

Lemma ea_load_word s m a here :
  addr_ok m a = true -> m <> Anone -> ea s (dismode m) (load_word m a) here = limbo_ea s m a here.
Proof.
  intros Hok Hn.
  destruct m; try done; cbn [addr_ok] in Hok; unfold ea; cbn.
  - by rewrite padd_u64_r.
  - apply andb_true_iff in Hok as [Hr Ho]. by destruct (adr_pair_halves _ _ Hr Ho) as [-> ->].
  - by rewrite padd_u64_r.
  - apply andb_true_iff in Hok as [Hr Ho]. by destruct (adr_pair_halves _ _ Hr Ho) as [-> ->].
Qed.

Lemma ea_load_dst s prog op m a here :
  addr_ok m a = true -> m <> Anone -> ea s (dismode m) (load_dst prog op m a) here = limbo_ea s m a here.
Proof.
  intros Hok Hn. unfold load_dst. destruct (is_imm m) eqn:E; cbn [andb]; [|by apply ea_load_word].
  case_match; [|by apply ea_load_word]. by destruct m.
Qed.

Lemma mode_ok_dismode m : m <> Aerr -> mode_ok (dismode m) = negb (bool_decide (m = Anone)).
Proof. by destruct m. Qed.

(** The middle operand limbo means: the destination when there is none. *)
Definition limbo_mid (s s' : VM) (m : amode) (a : Addr) : Prop :=
  match m with
  | Anone => R_m (R s') = R_d (R s')
  | Afp => R_m (R s') = padd (R_FP (R s)) (ad_reg a)
  | Amp => R_m (R s') = padd (R_MP (R s)) (ad_reg a)
  | _ => W R_m s' = Ok (addr_val m a) s'
  end.

Lemma limbo_mid_ok s i prog d m mid s1 :
  mid_ok (li_mm i) (li_m i) = true ->
  ea_mid s (load_inst prog i) d = Some (m, mid) ->
  limbo_mid s (with_mem (fun _ => m) (with_R (fun r => set_m mid (set_d d r)) s1)) (li_mm i) (li_m i).
Proof.
  intros Hok. unfold ea_mid, load_inst. cbn [i_add i_reg].
  replace ((_ + disregmode (li_mm i)) / 64) with (disregmode (li_mm i) / 64)
    by (by destruct (li_sm i), (li_dm i), (li_mm i)).
  assert (Himm : forall v, -32768 <= v < 32768 -> s16 (u16 v) = v /\ s64 v = v) by (intros; int_lia).
  destruct (li_mm i); cbn [mid_ok limbo_mid addr_val] in *; try done; cbn.
  all: try (intros [= <- <-]; cbn; first [done | unfold u16; by rewrite Z.mod_small by (unfold half_ok, M16 in *; lia)]; fail).
  all: destruct (store 8 _ _ _) as [m'|] eqn:Est; cbn; [|done]; intros [= <- <-].
  all: erewrite W_ok; [|cbn; by eapply load_store_same].
  all: match goal with |- context [s16 (u16 ?v)] =>
         destruct (Himm v) as [-> E]; [lia|]; change (v mod pow8 8) with (u64 v); by rewrite s64_u64, E end.
Qed.

(** C21. Compiled operands mean what the compiler meant: when the interpreter
    decodes an instruction that limbo wrote and the loader read, R.s and R.d
    are the locations the operands name (frame or module cell, immediate, or
    the field at an offset through a pointer), an immediate source is stored
    there with its value, and R.m is the frame or module cell, the
    destination, or a word holding the immediate. *)
Theorem compiled_operands s prog nprog i f s' :
  inst_ok nprog i = true -> fetch s = Some (load_inst prog i) -> byte_mem (mem s) ->
  dec !! Z.to_nat (i_add (load_inst prog i)) = Some f -> f s = Ok tt s' ->
  (li_sm i <> Anone ->
     limbo_ea s (li_sm i) (li_s i) (padd (R_PC (R s)) off_s) = Some (R_s (R s')) /\
     (is_imm (li_sm i) = true ->
        load 8 (mem s) (R_s (R s')) = Some (u64 (addr_val (li_sm i) (li_s i))))) /\
  (li_dm i <> Anone ->
     limbo_ea s (li_dm i) (li_d i) (padd (R_PC (R s)) off_d) = Some (R_d (R s')) /\
     limbo_mid s s' (li_mm i) (li_m i)).
Proof.
  intros Hok Hf Hb Hdec Hrun.
  rewrite (dec_operands s _ f Hf Hb Hdec) in Hrun.
  destruct (fetch_fields s _ Hf Hb) as (Hws & _ & _ & _). cbn [i_s load_inst] in Hws.
  unfold inst_ok, dst_ok in Hok. rewrite !andb_true_iff in Hok.
  destruct Hok as [[[_ Hs] Hm] [Hd _]].
  assert (Hfld : (i_add (load_inst prog i) / 8) mod 8 = dismode (li_sm i) /\
                 i_add (load_inst prog i) mod 8 = dismode (li_dm i)).
  { unfold load_inst. cbn [i_add]. by destruct (li_sm i), (li_dm i), (li_mm i). }
  destruct Hfld as [Efs Efd]. unfold operands in Hrun. rewrite Efs, Efd in Hrun.
  rewrite !mode_ok_dismode in Hrun by (intros E; rewrite E in *; done).
  cbn [i_s i_d load_inst] in Hrun.
  set (hs := padd (R_PC (R s)) off_s) in *. set (hd := padd (R_PC (R s)) off_d) in *.
  destruct (if negb (bool_decide (li_sm i = Anone)) then _ else _) as [s1|] eqn:E1; [|done].
  cbn [mbind option_bind] in Hrun.
  assert (Hs1 : mem s1 = mem s /\ (li_sm i <> Anone -> limbo_ea s (li_sm i) (li_s i) hs = Some (R_s (R s1)))).
  { destruct (bool_decide_reflect (li_sm i = Anone)); cbn in E1; [by injection E1 as <-|].
    rewrite ea_load_word in E1 by done.
    destruct (limbo_ea s _ _ hs) eqn:E; cbn in E1; [|done]. injection E1 as <-. done. }
  destruct Hs1 as [Em1 Hs1].
  assert (Hsrc : forall a : Z, limbo_ea s (li_sm i) (li_s i) hs = Some a -> is_imm (li_sm i) = true ->
            load 8 (mem s) a = Some (u64 (addr_val (li_sm i) (li_s i)))).
  { intros a Ha Him. replace (u64 _) with (load_word (li_sm i) (li_s i)) by (by destruct (li_sm i)).
    rewrite <- Hws. f_equal. destruct (li_sm i); try done; by injection Ha. }
  destruct (bool_decide_reflect (li_dm i = Anone)); cbn [negb] in Hrun.
  { simplify_eq. split; [|done]. eauto. }
  rewrite ea_load_dst in Hrun by done.
  destruct (limbo_ea s (li_dm i) _ hd) as [d|] eqn:Ed; cbn [mbind option_bind] in Hrun; [|done].
  destruct (ea_mid s (load_inst prog i) d) as [[m mid]|] eqn:Em; cbn in Hrun; [|done].
  injection Hrun as <-. split; [|split; [done|by eapply limbo_mid_ok]].
  intros Hn. split; [by apply Hs1|]. eauto.
Qed.

(** ** Instances *)

(** addw $-2, 8(fp), 4(16(fp)); a dropped INOOP; jmp to instruction 0. *)
Definition demo_addw : LInst :=
  mkLInst 58 Afp Aimm Afpind (mkAddr 8 0 0) (mkAddr 0 (-2) 0) (mkAddr 16 4 0).
Definition demo_code : list LInst :=
  [demo_addw;
   mkLInst INOOP Anone Anone Anone (mkAddr 0 0 0) (mkAddr 0 0 0) (mkAddr 0 0 0);
   mkLInst 13 Anone Anone Apc (mkAddr 0 0 0) (mkAddr 0 0 0) (mkAddr 0 0 0)].

Example disinst_parse_witness :
  parse_insts 2 65536 2 ([58; 77; 126; 8; 16; 4; 13; 26; 0] ++ [1]) =
    inr ([mkInst 58 77 65534 8 (16 + 4 * M16); mkInst 13 26 0 0 65536], [1]).
Proof.
  exact (disinst_parse 65536 2 demo_code [58; 77; 126; 8; 16; 4; 13; 26; 0] [1]
    ltac:(repeat constructor; intros; first [congruence | vm_compute; reflexivity]) eq_refl).
Defined.

Example disinst_buffer_witness :
  exists o b, disinst_loop demo_code [] [] = Some (o, b) /\ Z.of_nat (length b) <= NIBUF.
Proof.
  eexists _, _. split; [vm_compute; reflexivity|].
  apply (disinst_buffer demo_code [] []  []); [vm_compute; discriminate|vm_compute; reflexivity].
Defined.

Definition demo_frame : VM :=
  machine 64 0 0 0
    [(64, 58 + 77 * M8 + (M16 - 2) * M16); (72, 8); (80, 16 + 4 * M16); (512, 0); (8208, 9000)].

Example compiled_operands_witness :
  exists s', D4D demo_frame = Ok tt s' /\
    limbo_ea demo_frame Afp (mkAddr 8 0 0) 72 = Some (R_s (R s')) /\
    limbo_ea demo_frame Afpind (mkAddr 16 4 0) 80 = Some (R_d (R s')) /\ W R_m s' = Ok (-2) s'.
Proof.
  eexists. split; [vm_compute; reflexivity|].
  pose proof (compiled_operands demo_frame 65536 2 demo_addw D4D _
    ltac:(by_eval) ltac:(by_eval) ltac:(by_eval) eq_refl ltac:(by_eval)) as [Hs Hd].
  destruct (Hs ltac:(discriminate)) as [Hs' _]. destruct (Hd ltac:(discriminate)) as [Hd' Hm].
  split; [exact Hs'|]. split; [exact Hd'|exact Hm].
Defined.
