(* ===== verification/ObjData.v ===== *)
(** * The data section of a Dis object file

    limbo/dis.c ([disvar], [disdatum] and the cache that merges adjacent data
    of one kind into one item) against the data loop of [parsemod] in
    libinterp/load.c.  The loader's effect is the list of the assignments it
    makes, newest first, to cells of the module data (region 0) and of the
    arrays it allocates (regions 1, 2, ... in order of allocation). *)

From S2P Require Import Prelude Mem Vm Dec Object.

(** ** Kinds of data items (include/isa.h) *)

Definition DEFB : Z := 1.
Definition DEFW : Z := 2.
Definition DEFS : Z := 3.
Definition DEFF : Z := 4.
Definition DEFA : Z := 5.
Definition DIND_ : Z := 6.
Definition DAPOP : Z := 7.
Definition DEFL : Z := 8.
Definition DADEPTH : Z := 4.

(** ** The writer *)

(** What [bout] received, and the statics of dis.c; [cache] holds the first
    [ncached] bytes of the C array. *)
Record WS := mkWS {
  bout : list Z;
  cache : list Z;
  ndatum : Z;
  startoff : Z;
  lastoff : Z;
  lastkind : Z;
  lencache : Z;
}.
Abbreviation Wr := (ST WS).

Definition Bwrite (bs : list Z) : Wr unit := modify (fun w =>
  mkWS (bout w ++ bs) (cache w) (ndatum w) (startoff w) (lastoff w) (lastkind w) (lencache w)).
Definition put_cache (bs : list Z) (n : Z) : Wr unit := modify (fun w =>
  mkWS (bout w) (cache w ++ bs) (ndatum w + n) (startoff w) (lastoff w) (lastkind w) (lencache w)).
Definition put_lastoff (v : Z) : Wr unit := modify (fun w =>
  mkWS (bout w) (cache w) (ndatum w) (startoff w) v (lastkind w) (lencache w)).
Definition put_lencache (v : Z) : Wr unit := modify (fun w =>
  mkWS (bout w) (cache w) (ndatum w) (startoff w) (lastoff w) (lastkind w) v).
Definition restart (kind off : Z) : Wr unit := modify (fun w =>
  mkWS (bout w) [] 0 off (lastoff w) kind (lencache w)).
Definition ncached (w : WS) : Z := Z.of_nat (length (cache w)).

(** [fatal("overflow in constant")] *)
Definition w_con (v : Z) : Wr unit :=
  match discon v with Some bs => Bwrite bs | None => error "overflow in constant" end.
Definition w_data (kind n : Z) : Wr unit :=
  match disdata kind n with Some bs => Bwrite bs | None => error "overflow in constant" end.
Definition w_word (v : Z) : Wr unit := Bwrite (disword v).

(** [while(kind >= 0 && ncached + size >= lencache){ lencache = ncached+1024; ... }]:
    a second iteration changes nothing, so the loop is left after at most one
    iteration or never. *)
Fixpoint reserve (fuel : nat) (kind size : Z) : Wr unit :=
  match fuel with
  | O => fault
  | Datatypes.S fuel => fun w =>
      if (0 <=? kind) && (lencache w <=? ncached w + size)
      then (put_lencache (ncached w + 1024) ;; reserve fuel kind size) w
      else Ok tt w
  end.

Definition flush_cache : Wr unit := fun w =>
  if negb (lastkind w =? -1) && negb (ncached w =? 0)
  then (w_data (lastkind w) (ndatum w) ;; w_con (startoff w) ;; Bwrite (cache w)) w
  else Ok tt w.

Definition disflush (kind off size : Z) : Wr unit := fun w =>
  ((if negb (kind =? lastkind w) || negb (off =? lastoff w)
    then flush_cache ;; restart kind off else mret tt) ;;
   put_lastoff (off + size) ;;
   reserve 2 kind size) w.

Definition disbyte (off v : Z) : Wr unit := disflush DEFB off 1 ;; put_cache [u8 v] 1.
Definition disbytes (off : Z) (v : list Z) : Wr unit :=
  disflush DEFB off (Z.of_nat (length v)) ;; put_cache v (Z.of_nat (length v)).
Definition disint (off v : Z) : Wr unit := disflush DEFW off IBY2WD ;; put_cache (disword v) 1.
Definition disbig (off v : Z) : Wr unit :=
  disflush DEFL off IBY2LG ;;
  put_cache (disword (u32 (Z.shiftr v 32)) ++ disword (u32 v)) 1.

(** limbo/dtocanon.c: the two halves of the 64-bit pattern of a real, most
    significant first. *)
Definition dtocanon (v : Z) : Z * Z := (Z.shiftr v 32, u32 v).
Definition disreal (off v : Z) : Wr unit :=
  disflush DEFF off IBY2LG ;;
  put_cache (disword (dtocanon v).1 ++ disword (dtocanon v).2) 1.

Definition disstring (off : Z) (name : list Z) : Wr unit :=
  disflush (-1) (-1) 0 ;;
  w_data DEFS (Z.of_nat (length name)) ;;
  w_con off ;;
  Bwrite name.

(** ** Initialisers *)

(** A label of an integer case: [start->val], [stop->val], [inst->pc]; of a
    string case: the two strings, [None] when [stop == start]. *)
Record Lab := mkLab { lab_start : Z; lab_stop : Z; lab_pc : Z }.
Record LabC := mkLabC { labc_start : list Z; labc_stop : option (list Z); labc_pc : Z }.
(** A function of an interface table: its signature and, for a member of an
    adt, the adt's name. *)
Record IfaceFn := mkIfaceFn { if_sign : Z; if_adt : option (list Z); if_name : list Z }.

(** Initialiser nodes by the kind of their type; a real is its 64-bit
    pattern, [DGoto] carries [n->ty->size]. *)
Inductive dnode :=
  | DByte (val : Z)
  | DInt (val : Z)
  | DBig (val : Z)
  | DString (name : list Z)
  | DReal (rval : Z)
  | DTuple (l : dfields)
  | DAny
  | DCase (labs : list Lab) (iwild : option Z)
  | DCasel (labs : list Lab) (iwild : option Z)
  | DCasec (labs : list LabC) (iwild : option Z)
  | DGoto (size : Z) (pcs : list Z) (iwild : option Z)
  | DArray0 (tid len : Z)
  | DArray (tid len esz : Z) (wild : dwild) (labs : dlabs)
  | DIface (val : Z) (ids : list IfaceFn)
with dfields := FNil | FCons (off : Z) (n : dnode) (l : dfields)
with dwild := NoWild | Wild (n : dnode)
with dlabs := LNil | LCons (start stop : Z) (n : dnode) (l : dlabs).

Definition wild_pc (w : option Z) : Z := match w with Some pc => pc | None => -1 end.

Fixpoint dis_case (offset : Z) (labs : list Lab) (iwild : option Z) : Wr unit :=
  match labs with
  | [] => disint offset (wild_pc iwild)
  | l :: labs =>
      disint offset (lab_start l) ;;
      disint (offset + IBY2WD) (lab_stop l + 1) ;;
      disint (offset + IBY2WD + IBY2WD) (lab_pc l) ;;
      dis_case (offset + IBY2WD + IBY2WD + IBY2WD) labs iwild
  end.

Fixpoint dis_casel (offset : Z) (labs : list Lab) (iwild : option Z) : Wr unit :=
  match labs with
  | [] => disint offset (wild_pc iwild)
  | l :: labs =>
      disbig offset (lab_start l) ;;
      disbig (offset + IBY2LG) (lab_stop l + 1) ;;
      disint (offset + IBY2LG + IBY2LG) (lab_pc l) ;;
      dis_casel (offset + IBY2LG + IBY2LG + 2 * IBY2WD) labs iwild
  end.

Fixpoint dis_casec (offset : Z) (labs : list LabC) (iwild : option Z) : Wr unit :=
  match labs with
  | [] => disint offset (wild_pc iwild)
  | l :: labs =>
      disstring offset (labc_start l) ;;
      match labc_stop l with
      | Some name => disstring (offset + IBY2WD) name
      | None => mret tt
      end ;;
      disint (offset + IBY2WD + IBY2WD) (labc_pc l) ;;
      dis_casec (offset + IBY2WD + IBY2WD + IBY2WD) labs iwild
  end.

Fixpoint dis_goto (offset : Z) (pcs : list Z) (iwild : option Z) : Wr unit :=
  match pcs with
  | [] => match iwild with Some pc => disint offset pc | None => mret tt end
  | pc :: pcs => disint offset pc ;; dis_goto (offset + IBY2WD) pcs iwild
  end.

Definition align (off a : Z) : Z := (off + (a - 1)) / a * a.

Fixpoint dis_iface (offset : Z) (ids : list IfaceFn) : Wr unit :=
  match ids with
  | [] => mret tt
  | id :: ids =>
      let offset := align offset IBY2WD in
      disint offset (if_sign id) ;;
      let offset := offset + IBY2WD in
      offset ← match if_adt id with
               | Some s => disbytes offset s ;;
                           disbyte (offset + Z.of_nat (length s)) 46 ;;
                           mret (offset + Z.of_nat (length s) + 1)
               | None => mret offset
               end;
      disbytes offset (if_name id) ;;
      let offset := offset + Z.of_nat (length (if_name id)) in
      disbyte offset 0 ;;
      dis_iface (offset + 1) ids
  end.

(** [for(; last < e; last++) f(last)] *)
Fixpoint for_each (n : nat) (last : Z) (f : Z -> Wr unit) : Wr unit :=
  match n with
  | O => mret tt
  | Datatypes.S n => f last ;; for_each n (last + 1) f
  end.
Definition for_upto (last e : Z) (f : Z -> Wr unit) : Wr unit := for_each (Z.to_nat (e - last)) last f.

Fixpoint disdatum (offset : Z) (n : dnode) {struct n} : Wr unit :=
  match n with
  | DByte val => disbyte offset val
  | DInt val => disint offset val
  | DBig val => disbig offset val
  | DString name => disstring offset name
  | DReal rval => disreal offset rval
  | DTuple l => dis_fields offset l
  | DAny => mret tt
  | DCase labs iwild =>
      disint offset (Z.of_nat (length labs)) ;; dis_case (offset + IBY2WD) labs iwild
  | DCasel labs iwild =>
      disint offset (Z.of_nat (length labs)) ;; dis_casel (offset + 2 * IBY2WD) labs iwild
  | DCasec labs iwild =>
      disint offset (Z.of_nat (length labs)) ;; dis_casec (offset + IBY2WD) labs iwild
  | DGoto size pcs iwild =>
      disint offset (Z.quot size IBY2WD - 1) ;; dis_goto (offset + IBY2WD) pcs iwild
  | DArray0 tid len =>
      disflush (-1) (-1) 0 ;;
      w_data DEFA 1 ;; w_con offset ;; w_word tid ;; w_word len
  | DArray tid len esz wild labs =>
      disflush (-1) (-1) 0 ;;
      w_data DEFA 1 ;; w_con offset ;; w_word tid ;; w_word len ;;
      w_data DIND_ 1 ;; w_con offset ;; w_word 0 ;;
      dis_elems esz len 0 (fun last e => dis_wild esz last e wild) labs ;;
      disflush (-1) (-1) 0 ;;
      w_data DAPOP 1 ;; w_con 0
  | DIface val ids => disint offset val ;; dis_iface (offset + IBY2WD) ids
  end
with dis_fields (offset : Z) (l : dfields) {struct l} : Wr unit :=
  match l with
  | FNil => mret tt
  | FCons off n l => disdatum (offset + off) n ;; dis_fields offset l
  end
with dis_wild (esz last e : Z) (w : dwild) {struct w} : Wr unit :=
  match w with
  | NoWild => mret tt
  | Wild n => for_upto last e (fun last => disdatum (esz * last) n)
  end
(** The loop over the labels of an array initialiser; [last] is the first
    index not initialised yet, [fill last e] initialises [last..e-1] with the
    wildcard, if there is one. *)
with dis_elems (esz len last : Z) (fill : Z -> Z -> Wr unit) (labs : dlabs) {struct labs} : Wr unit :=
  match labs with
  | LNil => fill last len
  | LCons start stop n labs =>
      fill last start ;;
      for_upto start (stop + 1) (fun last => disdatum (esz * last) n) ;;
      dis_elems esz len (Z.max start (stop + 1)) fill labs
  end.

Fixpoint dis_decls (ds : list (Z * dnode)) : Wr unit :=
  match ds with
  | [] => mret tt
  | (offset, init) :: ds => disdatum offset init ;; dis_decls ds
  end.

(** The globals with an initialiser, by their offset in the module data. *)
Definition disvar (ds : list (Z * dnode)) : Wr unit :=
  modify (fun w => mkWS (bout w) [] 0 (startoff w) (lastoff w) (-1) (lencache w)) ;;
  dis_decls ds ;;
  disflush (-1) (-1) 0 ;;
  Bwrite [0].

(** ** The loader *)

(** A type descriptor of the object file. *)
Record Desc := mkDesc { d_size : Z; d_np : Z; d_map : list Z }.

(** The value an assignment stores; an array by its descriptor number, its
    length and its region, a string by its bytes, a real by its 64-bit
    pattern. *)
Inductive datum :=
  | VB (v : Z) | VW (v : Z) | VL (v : Z) | VF (v : Z)
  | VS (bs : list Z)
  | VA (tid len : Z) (region : nat).
Definition datum_size (d : datum) : Z := match d with VB _ => 1 | _ => 8 end.

Abbreviation place := (nat * Z)%type.
Record LS := mkLS {
  l_addr : place;
  dastack : list place;             (* innermost first *)
  dlog : list (place * datum);      (* newest first *)
  regions : list Z;                 (* descriptor of each region, newest first *)
}.

(** Bit [w] of a pointer map, most significant bit of each byte first. *)
Definition map_bit (map : list Z) (w : Z) : bool :=
  match map !! Z.to_nat (w / 8) with
  | Some b => Z.testbit b (7 - w mod 8)
  | None => false
  end.

Section loader.
(** [m->type], indexed by descriptor number; [None] when no descriptor with
    that number was read. *)
Context (mtype : list (option Desc)).

Definition mtype_at (v : Z) : option Desc :=
  if v <? 0 then None else mjoin (mtype !! Z.to_nat v).

(** Was the cell set to [H] when its region was created (heapz, initarray)? *)
Definition nil_cell (l : LS) (a : place) : bool :=
  match rev (regions l) !! a.1 with
  | Some t => match mtype_at t with
              | Some d => let off := if 0 <? d_size d then a.2 mod d_size d else a.2 in
                          (0 <=? a.2) && (off mod 8 =? 0) && map_bit (d_map d) (off / 8)
              | None => false
              end
  | None => false
  end.

(** The last assignment that touches the eight bytes at [a]. *)
Definition touches (a : place) (e : place * datum) : bool :=
  bool_decide (e.1.1 = a.1) && (e.1.2 <? a.2 + 8) && (a.2 <? e.1.2 + datum_size e.2).
Definition last_at (l : LS) (a : place) : option (place * datum) :=
  match List.find (touches a) (dlog l) with Some e => Some e | None => None end.

(** [ary = A(si)] and the test of DIND; a cell that holds something else
    than an array or nil is dereferenced as a pointer. *)
Definition array_at (l : LS) (a : place) : parsed (Z * Z * nat) :=
  match last_at l a with
  | Some (b, VA tid len r) => if bool_decide (b = a) then inr (tid, len, r) else inl Overrun
  | Some (b, VS _) => if bool_decide (b = a) then inl (Bad "ind not array") else inl Overrun
  | Some _ => inl Overrun
  | None => if nil_cell l a then inl (Bad "ind not array") else inl Overrun
  end.

Definition shift_place (a : place) (v : Z) : place := (a.1, a.2 + v).
Definition set_datum (a : place) (d : datum) (l : LS) : LS :=
  mkLS (l_addr l) (dastack l) ((a, d) :: dlog l) (regions l).

(** [n] values of [size] bytes from place [a] on. *)
Fixpoint set_data (a : place) (size : Z) (ds : list datum) (l : LS) : LS :=
  match ds with
  | [] => l
  | d :: ds => set_data (shift_place a size) size ds (set_datum a d l)
  end.

(** [for(i = 0; i < n; i++)] *)
Fixpoint get_n (n : nat) (one : list Z -> option (datum * list Z)) (p : list Z)
  : parsed (list datum * list Z) :=
  match n with
  | O => inr ([], p)
  | Datatypes.S n =>
      '(d, p) ← need (one p);
      '(ds, p) ← get_n n one p;
      inr (d :: ds, p)
  end.

Definition get_byte (p : list Z) : option (datum * list Z) :=
  match p with b :: p => Some (VB b, p) | [] => None end.
Definition get_word (p : list Z) : option (datum * list Z) :=
  '(v, p) ← disw p; Some (VW v, p).
(** [(LONG)hi << 32 | (LONG)(u32)lo] *)
Definition get_long (p : list Z) : option (datum * list Z) :=
  '(hi, p) ← disw p; '(lo, p) ← disw p;
  Some (VL (Z.lor (s64 (Z.shiftl hi 32)) (u32 lo)), p).
(** The bit pattern [canontod] assembles from its two words. *)
Definition canontod (v0 v1 : Z) : Z := u32 v0 * M32 + u32 v1.
Definition get_real (p : list Z) : option (datum * list Z) :=
  '(v0, p) ← disw p; '(v1, p) ← disw p; Some (VF (canontod v0 v1), p).
(** DEFS: [n] bytes; a negative count would move [istream] back. *)
Definition get_string (n : Z) (p : list Z) : option (list Z * list Z) :=
  if (n <? 0) || (Z.of_nat (length p) <? n) then None
  else Some (take (Z.to_nat n) p, drop (Z.to_nat n) p).

(** [m->type[v]] and the block for [len] elements; a negative length asks
    for a block of wrapped size. *)
Definition def_array (a : place) (tid len : Z) (l : LS) : parsed LS :=
  if (tid <? 0) || (Z.of_nat (length mtype) <? tid) then inl (Bad "bad array type")
  else
    _ ← need (mtype_at tid);
    if len <? 0 then inl Overrun
    else inr (mkLS (l_addr l) (dastack l)
                   ((a, VA tid len (length (regions l))) :: dlog l) (tid :: regions l)).

Definition set_index (a : place) (v : Z) (l : LS) : parsed LS :=
  '(tid, len, r) ← array_at l a;
  if (len <? v) || (v <? 0) || (DADEPTH <=? Z.of_nat (length (dastack l)))
  then inl (Bad "array init range")
  else
    d ← need (mtype_at tid);
    inr (mkLS (r, v * d_size d) (l_addr l :: dastack l) (dlog l) (regions l)).

Definition pop_addr (l : LS) : parsed LS :=
  match dastack l with
  | [] => inl (Bad "pop range")
  | a :: st => inr (mkLS a st (dlog l) (regions l))
  end.

(** The switch of the data loop, on an item of kind [k] with count [n] and
    offset [v]. *)
Definition data_item (k n v : Z) (l : LS) (p : list Z) : parsed (LS * list Z) :=
  let si := shift_place (l_addr l) v in
  if k =? DEFS then
    '(bs, p) ← need (get_string n p); inr (set_datum si (VS bs) l, p)
  else if k =? DEFB then
    '(ds, p) ← get_n (Z.to_nat n) get_byte p; inr (set_data si 1 ds l, p)
  else if k =? DEFW then
    '(ds, p) ← get_n (Z.to_nat n) get_word p; inr (set_data si 8 ds l, p)
  else if k =? DEFL then
    '(ds, p) ← get_n (Z.to_nat n) get_long p; inr (set_data si 8 ds l, p)
  else if k =? DEFF then
    '(ds, p) ← get_n (Z.to_nat n) get_real p; inr (set_data si 8 ds l, p)
  else if k =? DEFA then
    '(tid, p) ← need (disw p);
    if (tid <? 0) || (Z.of_nat (length mtype) <? tid) then inl (Bad "bad array type")
    else
      _ ← need (mtype_at tid);
      '(len, p) ← need (disw p);
      l ← def_array si tid len l; inr (l, p)
  else if k =? DIND_ then
    _ ← array_at l si;
    '(i, p) ← need (disw p);
    l ← set_index si i l; inr (l, p)
  else if k =? DAPOP then
    l ← pop_addr l; inr (l, p)
  else inl (Bad "bad data item").

Fixpoint data_loop (fuel : nat) (l : LS) (p : list Z) : parsed (LS * list Z) :=
  match fuel with
  | O => inl Overrun
  | Datatypes.S fuel =>
      match p with
      | [] => inl Overrun
      | sm :: p =>
          if sm =? 0 then inr (l, p)
          else
            '(n, p) ← (if DLEN sm =? 0 then need (operand p) else inr (DLEN sm, p));
            '(v, p) ← need (operand p);
            '(l, p) ← data_item (DTYPE sm) n v l p;
            data_loop fuel l p
      end
  end.

(** Every item takes at least one byte. *)
Definition parse_data (l : LS) (p : list Z) : parsed (LS * list Z) :=
  data_loop (Datatypes.S (length p)) l p.
End loader.

(** ** Data items: the specification between writer and loader *)

Inductive item :=
  | IByte (off v : Z) | IBytes (off : Z) (v : list Z)
  | IInt (off v : Z) | IBig (off v : Z) | IReal (off v : Z)
  | IStr (off : Z) (name : list Z)
  | IArr (off tid len : Z) | IArrInd (off tid len : Z) | IPop.

Definition write_item (it : item) : Wr unit :=
  match it with
  | IByte off v => disbyte off v
  | IBytes off v => disbytes off v
  | IInt off v => disint off v
  | IBig off v => disbig off v
  | IReal off v => disreal off v
  | IStr off name => disstring off name
  | IArr off tid len => disflush (-1) (-1) 0 ;; w_data DEFA 1 ;; w_con off ;; w_word tid ;; w_word len
  | IArrInd off tid len =>
      disflush (-1) (-1) 0 ;; w_data DEFA 1 ;; w_con off ;; w_word tid ;; w_word len ;;
      w_data DIND_ 1 ;; w_con off ;; w_word 0
  | IPop => disflush (-1) (-1) 0 ;; w_data DAPOP 1 ;; w_con 0
  end.
Fixpoint write_items (its : list item) : Wr unit :=
  match its with
  | [] => mret tt
  | it :: its => write_item it ;; write_items its
  end.

Section meaning.
Context (mtype : list (option Desc)).

(** What an item means to the module data: one assignment per datum. *)
Definition apply_item (it : item) (l : LS) : parsed LS :=
  let at_ off := shift_place (l_addr l) off in
  match it with
  | IByte off v => inr (set_datum (at_ off) (VB (u8 v)) l)
  | IBytes off v => inr (set_data (at_ off) 1 (VB <$> v) l)
  | IInt off v => inr (set_datum (at_ off) (VW (s32 v)) l)
  | IBig off v => inr (set_datum (at_ off) (VL (s64 v)) l)
  | IReal off v => inr (set_datum (at_ off) (VF (u64 v)) l)
  | IStr off name => inr (set_datum (at_ off) (VS name) l)
  | IArr off tid len => def_array mtype (at_ off) (s32 tid) (s32 len) l
  | IArrInd off tid len =>
      l ← def_array mtype (at_ off) (s32 tid) (s32 len) l; set_index mtype (at_ off) 0 l
  | IPop => pop_addr l
  end.
Fixpoint apply_items (its : list item) (l : LS) : parsed LS :=
  match its with
  | [] => inr l
  | it :: its => l ← apply_item it l; apply_items its l
  end.
End meaning.

(** The items of an initialiser. *)
Fixpoint case_items (offset : Z) (labs : list Lab) (iwild : option Z) : list item :=
  match labs with
  | [] => [IInt offset (wild_pc iwild)]
  | l :: labs => IInt offset (lab_start l) :: IInt (offset + 8) (lab_stop l + 1) ::
                 IInt (offset + 16) (lab_pc l) :: case_items (offset + 24) labs iwild
  end.
Fixpoint casel_items (offset : Z) (labs : list Lab) (iwild : option Z) : list item :=
  match labs with
  | [] => [IInt offset (wild_pc iwild)]
  | l :: labs => IBig offset (lab_start l) :: IBig (offset + 8) (lab_stop l + 1) ::
                 IInt (offset + 16) (lab_pc l) :: casel_items (offset + 32) labs iwild
  end.
Fixpoint casec_items (offset : Z) (labs : list LabC) (iwild : option Z) : list item :=
  match labs with
  | [] => [IInt offset (wild_pc iwild)]
  | l :: labs => IStr offset (labc_start l) ::
                 match labc_stop l with Some s => [IStr (offset + 8) s] | None => [] end ++
                 IInt (offset + 16) (labc_pc l) :: casec_items (offset + 24) labs iwild
  end.
Fixpoint goto_items (offset : Z) (pcs : list Z) (iwild : option Z) : list item :=
  match pcs with
  | [] => match iwild with Some pc => [IInt offset pc] | None => [] end
  | pc :: pcs => IInt offset pc :: goto_items (offset + 8) pcs iwild
  end.
Definition iface_name (id : IfaceFn) : list Z :=
  match if_adt id with Some s => s ++ [46] | None => [] end ++ if_name id ++ [0].
Fixpoint iface_items (offset : Z) (ids : list IfaceFn) : list item :=
  match ids with
  | [] => []
  | id :: ids =>
      let o := align offset 8 in
      let a := match if_adt id with Some s => Z.of_nat (length s) + 1 | None => 0 end in
      IInt o (if_sign id) ::
      match if_adt id with
      | Some s => [IBytes (o + 8) s; IByte (o + 8 + Z.of_nat (length s)) 46]
      | None => []
      end ++
      IBytes (o + 8 + a) (if_name id) ::
      IByte (o + 8 + a + Z.of_nat (length (if_name id))) 0 ::
      iface_items (o + 8 + a + Z.of_nat (length (if_name id)) + 1) ids
  end.

Definition upto_items (last e : Z) (f : Z -> list item) : list item :=
  mjoin (f <$> seqZ last (e - last)).

Fixpoint items (offset : Z) (n : dnode) {struct n} : list item :=
  match n with
  | DByte val => [IByte offset val]
  | DInt val => [IInt offset val]
  | DBig val => [IBig offset val]
  | DString name => [IStr offset name]
  | DReal rval => [IReal offset rval]
  | DTuple l => fields_items offset l
  | DAny => []
  | DCase labs iwild => IInt offset (Z.of_nat (length labs)) :: case_items (offset + 8) labs iwild
  | DCasel labs iwild => IInt offset (Z.of_nat (length labs)) :: casel_items (offset + 16) labs iwild
  | DCasec labs iwild => IInt offset (Z.of_nat (length labs)) :: casec_items (offset + 8) labs iwild
  | DGoto size pcs iwild => IInt offset (Z.quot size 8 - 1) :: goto_items (offset + 8) pcs iwild
  | DArray0 tid len => [IArr offset tid len]
  | DArray tid len esz wild labs =>
      IArrInd offset tid len ::
      elems_items esz len 0 (fun last e => wild_items esz last e wild) labs ++ [IPop]
  | DIface val ids => IInt offset val :: iface_items (offset + 8) ids
  end
with fields_items (offset : Z) (l : dfields) {struct l} : list item :=
  match l with
  | FNil => []
  | FCons off n l => items (offset + off) n ++ fields_items offset l
  end
with wild_items (esz last e : Z) (w : dwild) {struct w} : list item :=
  match w with
  | NoWild => []
  | Wild n => upto_items last e (fun i => items (esz * i) n)
  end
with elems_items (esz len last : Z) (fill : Z -> Z -> list item) (labs : dlabs) {struct labs} : list item :=
  match labs with
  | LNil => fill last len
  | LCons start stop n labs =>
      fill last start ++ upto_items start (stop + 1) (fun i => items (esz * i) n) ++
      elems_items esz len (Z.max start (stop + 1)) fill labs
  end.

Definition decls_items (ds : list (Z * dnode)) : list item :=
  mjoin ((fun d => items d.1 d.2) <$> ds).

(** ** The writer emits the items of its nodes *)

(** Two computations with the same result from every state. *)
Definition same {S A} (c d : ST S A) : Prop := forall s, c s = d s.
#[export] Instance same_equiv {S A} : Equivalence (@same S A).
Proof. split; [by intros ??|by intros ????|]. intros x y z Hx Hy s. by rewrite Hx. Qed.
#[export] Instance same_bind {S A B} :
  Proper (pointwise_relation A same ==> same ==> same) (@mbind (ST S) ST_bind A B).
Proof.
  intros k k' Hk c c' Hc s. unfold mbind, ST_bind. rewrite Hc. destruct (c' s); try done. apply Hk.
Qed.
Lemma bind_assoc {S A B C} (c : ST S A) (k : A -> ST S B) (k' : B -> ST S C) :
  same ((c ≫= k) ≫= k') (c ≫= fun a => k a ≫= k').
Proof. intros s. unfold mbind, ST_bind. by destruct (c s). Qed.
Lemma bind_tt {S B} (k : unit -> ST S B) : same (mret tt ≫= k) (k tt).
Proof. by intros s. Qed.
Lemma bind_mret {S} (c : ST S unit) : same (c ;; mret tt) c.
Proof. intros s. unfold mbind, ST_bind. by destruct (c s) as [[] ?| |]. Qed.

Lemma write_items_app its1 its2 :
  same (write_items (its1 ++ its2)) (write_items its1 ;; write_items its2).
Proof.
  induction its1 as [|it its1 IH]; cbn; [by intros s|].
  rewrite bind_assoc. by setoid_rewrite IH.
Qed.
Lemma write_items_cons it its : write_items (it :: its) = (write_item it ;; write_items its).
Proof. done. Qed.
Lemma write_items_one it : same (write_items [it]) (write_item it).
Proof. cbn. apply bind_mret. Qed.

#[export] Instance same_seq {S B} :
  Proper (same ==> same ==> same) (fun (c : ST S unit) (d : ST S B) => c ;; d).
Proof. intros c c' Hc d d' Hd s. unfold mbind, ST_bind. rewrite Hc. destruct (c' s); done. Qed.
Lemma seq_same {S B} (c c' : ST S unit) (d d' : ST S B) :
  same c c' -> same d d' -> same (c ;; d) (c' ;; d').
Proof. intros Hc Hd. by apply same_seq. Qed.

Lemma write_items_cons_same it its c d :
  same c (write_item it) -> same d (write_items its) -> same (c ;; d) (write_items (it :: its)).
Proof. intros. by apply seq_same. Qed.
Lemma write_items_app_same its1 its2 c d :
  same c (write_items its1) -> same d (write_items its2) -> same (c ;; d) (write_items (its1 ++ its2)).
Proof. intros. rewrite write_items_app. by apply seq_same. Qed.

Lemma dis_case_items labs w off : same (dis_case off labs w) (write_items (case_items off labs w)).
Proof.
  revert off. induction labs as [|l labs IH]; intros off; cbn [dis_case case_items].
  - by rewrite write_items_one.
  - unfold IBY2WD. replace (off + 8 + 8) with (off + 16) by lia. replace (off + 16 + 8) with (off + 24) by lia.
    repeat (apply write_items_cons_same; [done|]). apply IH.
Qed.
Lemma dis_casel_items labs w off : same (dis_casel off labs w) (write_items (casel_items off labs w)).
Proof.
  revert off. induction labs as [|l labs IH]; intros off; cbn [dis_casel casel_items].
  - by rewrite write_items_one.
  - unfold IBY2WD, IBY2LG. replace (off + 8 + 8) with (off + 16) by lia.
    replace (off + 16 + 2 * 8) with (off + 32) by lia.
    repeat (apply write_items_cons_same; [done|]). apply IH.
Qed.
Lemma dis_casec_items labs w off : same (dis_casec off labs w) (write_items (casec_items off labs w)).
Proof.
  revert off. induction labs as [|l labs IH]; intros off; cbn [dis_casec casec_items].
  - by rewrite write_items_one.
  - unfold IBY2WD. replace (off + 8 + 8) with (off + 16) by lia. replace (off + 16 + 8) with (off + 24) by lia.
    apply write_items_cons_same; [done|]. apply write_items_app_same.
    { destruct (labc_stop l); [by rewrite write_items_one|done]. }
    apply write_items_cons_same; [done|]. apply IH.
Qed.
Lemma dis_goto_items pcs w off : same (dis_goto off pcs w) (write_items (goto_items off pcs w)).
Proof.
  revert off. induction pcs as [|pc pcs IH]; intros off; cbn [dis_goto goto_items].
  - destruct w; [by rewrite write_items_one|done].
  - apply write_items_cons_same; [done|]. apply IH.
Qed.
Lemma seq2_bind {S A B} (a b : ST S unit) (v : A) (k : A -> ST S B) :
  same ((a ;; b ;; mret v) ≫= k) (a ;; b ;; k v).
Proof.
  intros s. unfold mbind, ST_bind. destruct (a s) as [[] s1| |]; [|done..]. by destruct (b s1) as [[] s2| |].
Qed.
Lemma ret_bind {S A B} (v : A) (k : A -> ST S B) : same (mret v ≫= k) (k v).
Proof. by intros s. Qed.
Lemma dis_iface_items ids off : same (dis_iface off ids) (write_items (iface_items off ids)).
Proof.
  revert off. induction ids as [|id ids IH]; intros off; cbn [dis_iface iface_items]; [done|].
  unfold IBY2WD. apply write_items_cons_same; [done|].
  destruct (if_adt id) as [s|]; cbn [app].
  - rewrite seq2_bind. rewrite !Z.add_assoc. repeat (apply write_items_cons_same; [done|]). apply IH.
  - rewrite Z.add_0_r, ret_bind.
    repeat (apply write_items_cons_same; [done|]). apply IH.
Qed.

Lemma for_upto_items last e f g :
  (forall i, same (f i) (write_items (g i))) ->
  same (for_upto last e f) (write_items (upto_items last e g)).
Proof.
  intros Hfg. unfold for_upto, upto_items.
  remember (Z.to_nat (e - last)) as n eqn:En. revert last En.
  induction n as [|n IH]; intros last En; cbn [for_each].
  { by rewrite seqZ_nil by lia. }
  rewrite seqZ_cons by lia. cbn. apply write_items_app_same; [apply Hfg|].
  replace (Z.pred (e - last)) with (e - (last + 1)) by lia.
  replace (Z.succ last) with (last + 1) by lia. apply IH. lia.
Qed.

Scheme dnode_mut := Induction for dnode Sort Prop
  with dfields_mut := Induction for dfields Sort Prop
  with dwild_mut := Induction for dwild Sort Prop
  with dlabs_mut := Induction for dlabs Sort Prop.
Combined Scheme dnode_all from dnode_mut, dfields_mut, dwild_mut, dlabs_mut.

Lemma disdatum_items_all :
  (forall n off, same (disdatum off n) (write_items (items off n))) /\
  (forall l off, same (dis_fields off l) (write_items (fields_items off l))) /\
  (forall w esz last e, same (dis_wild esz last e w) (write_items (wild_items esz last e w))) /\
  (forall labs esz len last (fill : Z -> Z -> Wr unit) (fill' : Z -> Z -> list item),
     (forall a b, same (fill a b) (write_items (fill' a b))) ->
     same (dis_elems esz len last fill labs) (write_items (elems_items esz len last fill' labs))).
Proof.
  apply dnode_all; try (intros; cbn [disdatum items]; by rewrite write_items_one).
  - intros l IH off. apply IH.
  - done.
  - intros. cbn [disdatum items]. apply write_items_cons_same; [done|]. apply dis_case_items.
  - intros. cbn [disdatum items]. apply write_items_cons_same; [done|]. apply dis_casel_items.
  - intros. cbn [disdatum items]. apply write_items_cons_same; [done|]. apply dis_casec_items.
  - intros. cbn [disdatum items]. apply write_items_cons_same; [done|]. apply dis_goto_items.
  - intros tid len esz w IHw labs IHl off. cbn [disdatum items].
    transitivity (write_item (IArrInd off tid len) ;;
                  dis_elems esz len 0 (fun last e => dis_wild esz last e w) labs ;; write_item IPop).
    { intros ws. unfold write_item, mbind, ST_bind. repeat case_match; simplify_eq; done. }
    apply write_items_cons_same; [done|]. apply write_items_app_same; [|by rewrite write_items_one].
    by apply IHl.
  - intros. cbn [disdatum items]. apply write_items_cons_same; [done|]. apply dis_iface_items.
  - done.
  - intros off n IHn l IHl off'. cbn. apply write_items_app_same; [apply IHn|apply IHl].
  - done.
  - intros n IH esz last e. cbn [dis_wild wild_items]. apply for_upto_items. intros i. apply IH.
  - intros esz len last fill fill' Hf. apply Hf.
  - intros start stop n IHn labs IHl esz len last fill fill' Hf. cbn [dis_elems elems_items].
    apply write_items_app_same; [apply Hf|]. apply write_items_app_same; [|by apply IHl].
    apply for_upto_items. intros i. apply IHn.
Qed.

Lemma dis_decls_items ds : same (dis_decls ds) (write_items (decls_items ds)).
Proof.
  induction ds as [|[off n] ds IH]; cbn [dis_decls decls_items]; [done|].
  unfold decls_items. cbn. apply write_items_app_same; [|apply IH]. apply disdatum_items_all.
Qed.

(** ** One item of the stream *)

Definition kinds : list Z := [DEFB; DEFW; DEFL; DEFF].
Definition ksize (k : Z) : Z := if k =? DEFB then 1 else 8.
Definition enc_val (k v : Z) : list Z :=
  if k =? DEFB then [v]
  else if k =? DEFW then disword v
  else if k =? DEFL then disword (u32 (Z.shiftr v 32)) ++ disword (u32 v)
  else disword (dtocanon v).1 ++ disword (dtocanon v).2.
Fixpoint enc_vals (k : Z) (vals : list Z) : list Z :=
  match vals with [] => [] | v :: vals => enc_val k v ++ enc_vals k vals end.
Lemma enc_vals_app k vs ws : enc_vals k (vs ++ ws) = enc_vals k vs ++ enc_vals k ws.
Proof. induction vs as [|v vs IH]; cbn; [done|]. by rewrite IH, app_assoc. Qed.
Definition dec_val (k v : Z) : datum :=
  if k =? DEFB then VB v
  else if k =? DEFW then VW (s32 v)
  else if k =? DEFL then VL (s64 v)
  else VF (u64 v).
Definition get_one (k : Z) : list Z -> option (datum * list Z) :=
  if k =? DEFB then get_byte else if k =? DEFW then get_word
  else if k =? DEFL then get_long else get_real.

#[local] Arguments disword : simpl never.
#[local] Arguments disw : simpl never.
#[local] Arguments discon : simpl never.
#[local] Arguments operand : simpl never.

Lemma long_halves v : Z.lor (s64 (Z.shiftl (s32 (u32 (Z.shiftr v 32))) 32)) (u32 (s32 (u32 v))) = s64 v.
Proof.
  rewrite Z.shiftr_div_pow2 by lia. change (2 ^ 32) with M32.
  set (hi := s32 (u32 (v / M32))).
  assert (Hhi : -2147483648 <= hi < 2147483648) by (unfold hi; int_lia).
  assert (E : s64 (Z.shiftl hi 32) = Z.shiftl hi 32).
  { rewrite Z.shiftl_mul_pow2 by lia. apply s64_id. lia. }
  rewrite E, lor_shiftl by (try lia; int_lia). unfold hi. int_lia.
Qed.

Lemma get_enc k v rest : k ∈ kinds -> get_one k (enc_val k v ++ rest) = Some (dec_val k v, rest).
Proof.
  unfold kinds. rewrite !elem_of_cons. intros [-> | [-> | [-> | [-> | []%elem_of_nil]]]]; cbn.
  - done.
  - unfold get_word. by rewrite disw_disword.
  - unfold get_long. rewrite <- app_assoc, disw_disword. cbn. rewrite disw_disword. cbn.
    by rewrite long_halves.
  - unfold get_real. rewrite <- app_assoc, disw_disword. cbn. rewrite disw_disword. cbn.
    do 3 f_equal. unfold canontod. rewrite Z.shiftr_div_pow2 by lia. change (2 ^ 32) with M32. int_lia.
Qed.

Lemma get_n_enc k vals rest :
  k ∈ kinds ->
  get_n (length vals) (get_one k) (enc_vals k vals ++ rest) = inr (dec_val k <$> vals, rest).
Proof.
  intros Hk. induction vals as [|v vals IH]; cbn; [done|].
  rewrite <- app_assoc, get_enc by done. cbn. by rewrite IH.
Qed.

(** The first byte of an item. *)
Lemma item_byte k n :
  k ∈ [DEFB; DEFW; DEFS; DEFF; DEFA; DIND_; DAPOP; DEFL] -> 0 <= n < 16 ->
  let b := u8 (DBYTE k n) in (b =? 0) = false /\ DLEN b = n /\ DTYPE b = k.
Proof.
  intros Hk Hn.
  assert (E : forallb (fun k => (fun b => negb (b =? 0) && (DLEN b =? n) && (DTYPE b =? k)) (u8 (DBYTE k n)))
                [DEFB; DEFW; DEFS; DEFF; DEFA; DIND_; DAPOP; DEFL] = true).
  { revert n Hn. apply (forall_range (fun n => _)). by vm_compute. }
  rewrite forallb_forall in E. specialize (E k (proj1 (list_elem_of_In _ _) Hk)). cbv beta in E.
  rewrite !andb_true_iff, negb_true_iff, !Z.eqb_eq in E. cbv zeta. tauto.
Qed.

Section reading.
Context (mtype : list (option Desc)).

(** The loader turns the bytes [bs] into the change from [l] to [l'], in
    [k] iterations, whatever follows. *)
Definition reads (k : nat) (bs : list Z) (l l' : LS) : Prop :=
  (k <= length bs)%nat /\
  forall f rest, data_loop mtype (k + f) l (bs ++ rest) = data_loop mtype f l' rest.

Lemma reads_nil l : reads 0 [] l l.
Proof. split; [done|]. done. Qed.
Lemma reads_app k k' bs bs' l l' l'' :
  reads k bs l l' -> reads k' bs' l' l'' -> reads (k + k') (bs ++ bs') l l''.
Proof.
  intros [Hk H1] [Hk' H2]. split; [rewrite length_app; lia|]. intros f rest.
  by rewrite <- app_assoc, <- Nat.add_assoc, H1, H2.
Qed.

Lemma reads_item k n off d c payload l l' :
  k ∈ [DEFB; DEFW; DEFS; DEFF; DEFA; DIND_; DAPOP; DEFL] -> 0 <= n -> con_ok off = true ->
  disdata k n = Some d -> discon off = Some c ->
  (forall rest, data_item mtype k n off l (payload ++ rest) = inr (l', rest)) ->
  exists k', reads k' (d ++ c ++ payload) l l'.
Proof.
  intros Hk Hn Hoff Hd Hc Hitem. assert (Hop : forall rest, operand (c ++ rest) = Some (off, rest)).
  { intros rest. unfold con_ok in Hoff. apply operand_discon; [lia|done]. }
  exists 1%nat. unfold disdata, DMAX in Hd.
  destruct ((n <? 16) && negb (n =? 0)) eqn:En.
  - injection Hd as <-. apply andb_true_iff in En as [En1 En2].
    split; [cbn; lia|]. intros f rest. cbn [Nat.add app data_loop].
    destruct (item_byte k n Hk ltac:(lia)) as (E0 & E1 & E2). rewrite E0, E1.
    destruct (n =? 0) eqn:E; [done|]. cbn. rewrite <- app_assoc, Hop. cbn.
    by rewrite E2, Hitem.
  - destruct (discon n) as [cn|] eqn:Ecn; cbn in Hd; [|done]. injection Hd as <-.
    assert (Hopn : forall rest, operand (cn ++ rest) = Some (n, rest)).
    { intros rest. apply operand_discon; [|done]. pose proof (discon_nonneg _ _ Hn Ecn). unfold con_ok in *. lia. }
    split; [cbn; lia|]. intros f rest. cbn [Nat.add app data_loop].
    destruct (item_byte k 0 Hk ltac:(lia)) as (E0 & E1 & E2). rewrite E0, E1.
    cbn. rewrite <- !app_assoc, Hopn. cbn. rewrite Hop. cbn. by rewrite E2, Hitem.
Qed.

Lemma data_item_vals k vals off l rest :
  k ∈ kinds ->
  data_item mtype k (Z.of_nat (length vals)) off l (enc_vals k vals ++ rest) =
    inr (set_data (shift_place (l_addr l) off) (ksize k) (dec_val k <$> vals) l, rest).
Proof.
  intros Hk. pose proof (get_n_enc k vals rest Hk) as E. revert E.
  unfold kinds in Hk. rewrite !elem_of_cons in Hk.
  destruct Hk as [-> | [-> | [-> | [-> | []%elem_of_nil]]]]; unfold data_item; cbn -[get_n Z.to_nat];
    rewrite Nat2Z.id; intros ->; done.
Qed.

Lemma data_item_string name off l rest :
  data_item mtype DEFS (Z.of_nat (length name)) off l (name ++ rest) =
    inr (set_datum (shift_place (l_addr l) off) (VS name) l, rest).
Proof.
  unfold data_item, get_string. cbn -[Z.to_nat].
  destruct (Z.ltb_spec (Z.of_nat (length name)) 0); [lia|].
  rewrite length_app. destruct (Z.ltb_spec (Z.of_nat (length name + length rest)) (Z.of_nat (length name))); [lia|].
  cbn -[Z.to_nat]. by rewrite Nat2Z.id, take_app_length, drop_app_length.
Qed.

Lemma data_item_array tid len off l l' rest :
  def_array mtype (shift_place (l_addr l) off) (s32 tid) (s32 len) l = inr l' ->
  data_item mtype DEFA 1 off l ((disword tid ++ disword len) ++ rest) = inr (l', rest).
Proof.
  intros Hd. unfold data_item. cbn -[def_array]. rewrite <- app_assoc, disw_disword. cbn -[def_array].
  pose proof Hd as Hd'. unfold def_array in Hd'. case_match; [done|].
  destruct (mtype_at mtype (s32 tid)) eqn:Et; [|done]. cbn -[def_array].
  rewrite disw_disword. cbn -[def_array]. by rewrite Hd.
Qed.

Lemma data_item_ind off l l' rest :
  set_index mtype (shift_place (l_addr l) off) 0 l = inr l' ->
  data_item mtype DIND_ 1 off l (disword 0 ++ rest) = inr (l', rest).
Proof.
  intros Hi. unfold data_item. cbn -[set_index array_at].
  pose proof Hi as Hi'. unfold set_index in Hi'.
  destruct (array_at mtype l _) eqn:Ea; [done|]. cbn -[set_index array_at].
  rewrite disw_disword. change (s32 0) with 0. cbn -[set_index array_at]. by rewrite Hi.
Qed.

Lemma data_item_pop l l' rest :
  pop_addr l = inr l' -> data_item mtype DAPOP 1 0 l ([] ++ rest) = inr (l', rest).
Proof. intros Hp. unfold data_item. cbn -[pop_addr]. by rewrite Hp. Qed.
End reading.

(** ** The cache *)

Lemma set_datum_addr a d l : l_addr (set_datum a d l) = l_addr l.
Proof. done. Qed.
Lemma set_data_addr ds : forall a size l, l_addr (set_data a size ds l) = l_addr l.
Proof. induction ds as [|d ds IH]; intros a size l; cbn; [done|]. by rewrite IH. Qed.
Lemma set_data_app ds ds' : forall a size l,
  set_data a size (ds ++ ds') l =
  set_data (shift_place a (size * Z.of_nat (length ds))) size ds' (set_data a size ds l).
Proof.
  induction ds as [|d ds IH]; intros a size l; cbn [app set_data length].
  - f_equal. unfold shift_place. destruct a as [r o]. cbn. f_equal. lia.
  - rewrite IH. f_equal. unfold shift_place. cbn. f_equal. lia.
Qed.

Section cache.
Context (mtype : list (option Desc)) (l0 : LS) (bout0 : list Z).

(** The bytes written so far take the loader from [l0] to [l1], and the
    cache holds the encoding of [vals], consecutive data of kind [k] that
    end at offset [off]; with them the loader is in state [l]. *)
Definition cached (k off : Z) (ws : WS) (l : LS) : Prop :=
  lastkind ws = k /\
    exists n bs l1 vals,
    bout ws = bout0 ++ bs /\ reads mtype n bs l0 l1 /\
    cache ws = enc_vals k vals /\ ndatum ws = Z.of_nat (length vals) /\
    (k = -1 -> vals = [] /\ l = l1) /\
    (k <> (-1) -> k ∈ kinds /\ 0 <= startoff ws /\
    startoff ws + ksize k * Z.of_nat (length vals) = off /\
    l = set_data (shift_place (l_addr l1) (startoff ws)) (ksize k) (dec_val k <$> vals) l1).

Definition Inv (ws : WS) (l : LS) : Prop := cached (lastkind ws) (lastoff ws) ws l.

Lemma Bwrite_eq bs w : Bwrite bs w =
  Ok tt (mkWS (bout w ++ bs) (cache w) (ndatum w) (startoff w) (lastoff w) (lastkind w) (lencache w)).
Proof. done. Qed.
Lemma w_con_ok v w w' : w_con v w = Ok tt w' -> exists c, discon v = Some c /\ Bwrite c w = Ok tt w'.
Proof. unfold w_con. destruct (discon v); [eauto|done]. Qed.
Lemma w_data_ok k n w w' : w_data k n w = Ok tt w' -> exists d, disdata k n = Some d /\ Bwrite d w = Ok tt w'.
Proof. unfold w_data. destruct (disdata k n); [eauto|done]. Qed.

Lemma kinds_items k : k ∈ kinds -> k ∈ [DEFB; DEFW; DEFS; DEFF; DEFA; DIND_; DAPOP; DEFL].
Proof. unfold kinds. rewrite !elem_of_cons. tauto. Qed.

Lemma kinds_pos k : k ∈ kinds -> 0 <= k.
Proof. unfold kinds. rewrite !elem_of_cons. intros [-> | [-> | [-> | [-> | []%elem_of_nil]]]]; done. Qed.

Lemma flush_cache_ok ws l ws' :
  Inv ws l -> flush_cache ws = Ok tt ws' ->
  exists n bs, bout ws' = bout0 ++ bs /\ reads mtype n bs l0 l.
Proof.
  intros (_ & n & bs & l1 & vals & Hb & Hr & Hc & Hn & H1 & H2). unfold flush_cache.
  destruct (Z.eqb_spec (lastkind ws) (-1)) as [E|E]; cbn [negb andb].
  - intros [= <-]. destruct (H1 E) as [-> ->]. eauto.
  - destruct (H2 E) as (Hk & Hs & Ho & ->).
    destruct (Z.eqb_spec (ncached ws) 0) as [E0|E0]; cbn [negb andb].
    + intros [= <-]. assert (vals = []) as ->.
      { destruct vals as [|v vals]; [done|]. exfalso. unfold ncached in E0. rewrite Hc in E0.
        cbn in E0. rewrite length_app in E0.
        assert (length (enc_val (lastkind ws) v) <> 0%nat); [|lia].
        unfold enc_val. repeat case_match; done. }
      eauto.
    + intros ([] & w1 & (d & Hd & Hw1)%w_data_ok & Hrest)%bind_ok_inv.
      apply bind_ok_inv in Hrest as ([] & w2 & (c & Hcn & Hw2)%w_con_ok & Hw3).
      rewrite Bwrite_eq in Hw1, Hw2, Hw3. simplify_eq. cbn.
      rewrite Hn in Hd. pose proof (discon_nonneg _ _ Hs Hcn) as Hcon.
      destruct (reads_item mtype (lastkind ws) (Z.of_nat (length vals)) (startoff ws) d c
                  (cache ws) l1 (set_data (shift_place (l_addr l1) (startoff ws))
                    (ksize (lastkind ws)) (dec_val (lastkind ws) <$> vals) l1)) as [k' Hk'];
        [by apply kinds_items|lia|done..| |].
      { intros rest. rewrite Hc. by apply data_item_vals. }
      exists (n + k')%nat, (bs ++ d ++ c ++ cache ws).
      rewrite Hb, <- !app_assoc. split; [done|]. by eapply reads_app.
Qed.

Lemma reserve_ok n k size w w' :
  reserve n k size w = Ok tt w' -> exists v,
  w' = mkWS (bout w) (cache w) (ndatum w) (startoff w) (lastoff w) (lastkind w) v.
Proof.
  revert w. induction n as [|n IH]; intros w; cbn; [done|]. case_match.
  - intros E. apply IH in E as [v ->]. by exists v.
  - intros [= <-]. exists (lencache w). by destruct w.
Qed.

Lemma cached_irrel k off w l lo le :
  cached k off w l -> cached k off (mkWS (bout w) (cache w) (ndatum w) (startoff w) lo (lastkind w) le) l.
Proof. done. Qed.

Lemma disflush_ok k off size ws l ws' :
  Inv ws l -> k = -1 \/ (k ∈ kinds /\ 0 <= off) ->
  disflush k off size ws = Ok tt ws' ->
  cached k off ws' l /\ lastoff ws' = off + size.
Proof.
  intros Hinv Hk. unfold disflush. intros ([] & w1 & Hw1 & Hrest)%bind_ok_inv.
  apply bind_ok_inv in Hrest as ([] & w2 & Hw2 & Hw3).
  unfold put_lastoff, modify in Hw2. injection Hw2 as <-.
  apply reserve_ok in Hw3 as [v ->]. cbn. split; [|done]. apply cached_irrel.
  destruct (negb (k =? lastkind ws) || negb (off =? lastoff ws)) eqn:E.
  - apply bind_ok_inv in Hw1 as ([] & w2 & Hw2 & Hw1).
    destruct (flush_cache_ok _ _ _ Hinv Hw2) as (n & bs & Hb & Hr).
    unfold restart, modify in Hw1. injection Hw1 as <-.
    split; [done|]. exists n, bs, l, []. cbn. split_and!; try done.
    intros Hne. destruct Hk as [|[? ?]]; [done|]. split_and!; try done. lia.
  - injection Hw1 as <-. apply orb_false_iff in E as [E1 E2].
    apply negb_false_iff, Z.eqb_eq in E1, E2. by subst.
Qed.

Lemma add_vals k off vs ws l ws' :
  k ∈ kinds -> 0 <= off -> Inv ws l ->
  (disflush k off (ksize k * Z.of_nat (length vs)) ;;
   put_cache (enc_vals k vs) (Z.of_nat (length vs))) ws = Ok tt ws' ->
  Inv ws' (set_data (shift_place (l_addr l) off) (ksize k) (dec_val k <$> vs) l).
Proof.
  intros Hk Hoff Hinv ([] & w1 & Hw1 & Hw2)%bind_ok_inv.
  destruct (disflush_ok _ _ _ _ _ _ Hinv (or_intror (conj Hk Hoff)) Hw1) as [Hc Hlo].
  unfold put_cache, modify in Hw2. injection Hw2 as <-.
  destruct Hc as (Hlk & n & bs & l1 & vals & Hb & Hr & Hcache & Hn & _ & H2).
  destruct H2 as (_ & Hs & Hend & ->); [by pose proof (kinds_pos _ Hk); lia|].
  split; [done|]. exists n, bs, l1, (vals ++ vs). cbn. rewrite Hlk.
  split_and!; try done.
  - by rewrite Hcache, enc_vals_app.
  - rewrite Hn, length_app. lia.
  - pose proof (kinds_pos _ Hk). lia.
  - intros _. rewrite length_app. split_and!; try done; [lia|].
    rewrite fmap_app, set_data_app, set_data_addr, length_fmap. f_equal.
    unfold shift_place. cbn. f_equal. lia.
Qed.

(** An item written past the empty cache. *)
Lemma direct_item n' bs' ws l l' :
  cached (-1) (lastoff ws) ws l -> reads mtype n' bs' l l' ->
  Inv (mkWS (bout ws ++ bs') (cache ws) (ndatum ws) (startoff ws) (lastoff ws) (lastkind ws) (lencache ws)) l'.
Proof.
  intros (Hlk & n & bs & l1 & vals & Hb & Hr & Hc & Hn & H1 & _) Hr'.
  destruct (H1 eq_refl) as [-> ->].
  split; [done|]. exists (n + n')%nat, (bs ++ bs'), l', []. cbn. rewrite Hlk, Hb, <- app_assoc.
  split_and!; try done. by eapply reads_app.
Qed.

Lemma flush_direct ws l ws' (c : Wr unit) :
  Inv ws l -> (disflush (-1) (-1) 0 ;; c) ws = Ok tt ws' ->
  exists w, cached (-1) (lastoff w) w l /\ c w = Ok tt ws'.
Proof.
  intros Hinv ([] & w1 & Hw1 & Hw2)%bind_ok_inv.
  destruct (disflush_ok _ _ _ _ _ _ Hinv (or_introl eq_refl) Hw1) as [Hc Hlo].
  exists w1. rewrite Hlo. done.
Qed.

(** The bytes of [w_data k n ;; w_con off ;; Bwrite payload]. *)
Lemma one_item k n off payload ws l l' ws' :
  k ∈ [DEFB; DEFW; DEFS; DEFF; DEFA; DIND_; DAPOP; DEFL] -> 0 <= n -> 0 <= off ->
  cached (-1) (lastoff ws) ws l ->
  (w_data k n ;; w_con off ;; Bwrite payload) ws = Ok tt ws' ->
  (forall rest, data_item mtype k n off l (payload ++ rest) = inr (l', rest)) ->
  Inv ws' l' /\ lastkind ws' = -1.
Proof.
  intros Hk Hn Hoff Hc ([] & w1 & (d & Hd & Hw1)%w_data_ok & Hrest)%bind_ok_inv Hitem.
  apply bind_ok_inv in Hrest as ([] & w2 & (c & Hcn & Hw2)%w_con_ok & Hw3).
  rewrite Bwrite_eq in Hw1, Hw2, Hw3. simplify_eq. cbn.
  pose proof (discon_nonneg _ _ Hoff Hcn) as Hcon.
  destruct (reads_item mtype k n off d c payload l l' Hk Hn Hcon Hd Hcn Hitem) as [n' Hr].
  rewrite <- !app_assoc. split; [|by destruct Hc]. by eapply direct_item.
Qed.
End cache.

(** Offsets of items are non-negative. *)
Definition item_ok (it : item) : bool :=
  match it with
  | IByte off _ | IBytes off _ | IInt off _ | IBig off _ | IReal off _ | IStr off _
  | IArr off _ _ | IArrInd off _ _ => 0 <=? off
  | IPop => true
  end.

Lemma enc_bytes bs : enc_vals DEFB bs = bs.
Proof. induction bs as [|b bs IH]; cbn; [done|]. by rewrite IH. Qed.
Lemma s_data3 k n off a b : same (w_data k n ;; w_con off ;; w_word a ;; w_word b)
  (w_data k n ;; w_con off ;; Bwrite (disword a ++ disword b)).
Proof.
  intros w. unfold w_data. destruct (disdata k n) as [d|]; [|done]. unfold w_con, w_word.
  destruct (discon off) as [c|]; [|done]. unfold mbind, ST_bind. rewrite !Bwrite_eq. cbn.
  by rewrite !app_assoc.
Qed.
Lemma s_data2 k n off : same (w_data k n ;; w_con off) (w_data k n ;; w_con off ;; Bwrite []).
Proof.
  intros w. unfold w_data. destruct (disdata k n) as [d|]; [|done]. unfold w_con.
  destruct (discon off) as [c|]; [|done]. unfold mbind, ST_bind. rewrite !Bwrite_eq. cbn.
  by rewrite !app_nil_r.
Qed.
Lemma s_two_items a b c d (e : Wr unit) :
  same (w_data a 1 ;; w_con b ;; w_word c ;; w_word d ;; e)
       ((w_data a 1 ;; w_con b ;; w_word c ;; w_word d) ;; e).
Proof. intros w. unfold mbind, ST_bind. repeat case_match; simplify_eq; done. Qed.

Section items.
Context (mtype : list (option Desc)) (l0 : LS) (bout0 : list Z).
Abbreviation Inv := (Inv mtype l0 bout0).

Lemma item_step it ws l l' ws' :
  item_ok it = true -> Inv ws l -> write_item it ws = Ok tt ws' ->
  apply_item mtype it l = inr l' -> Inv ws' l'.
Proof.
  intros Hok Hinv Hw Ha.
  destruct it; cbn [item_ok write_item apply_item] in *; try apply Z.leb_le in Hok.
  - injection Ha as <-. apply (add_vals mtype l0 bout0 DEFB off [u8 v] ws l ws'); [by left|done..].
  - injection Ha as <-. apply (add_vals mtype l0 bout0 DEFB off v ws l ws'); [by left|done|done|].
    rewrite enc_bytes. cbn -[Z.of_nat]. by rewrite Z.mul_1_l.
  - injection Ha as <-. apply (add_vals mtype l0 bout0 DEFW off [v] ws l ws'); [by right; left|done|done|].
    cbn [enc_vals]. by rewrite app_nil_r.
  - injection Ha as <-. apply (add_vals mtype l0 bout0 DEFL off [v] ws l ws'); [by do 2 right; left|done|done|].
    cbn [enc_vals]. by rewrite app_nil_r.
  - injection Ha as <-. apply (add_vals mtype l0 bout0 DEFF off [v] ws l ws'); [by do 3 right; left|done|done|].
    cbn [enc_vals]. by rewrite app_nil_r.
  - injection Ha as <-. apply (flush_direct mtype l0 bout0 _ l) in Hw as (w & Hc & Hw); [|done].
    eapply one_item; [..|apply Hc|apply Hw|]; [by do 2 right; left|lia|done|].
    intros rest. apply data_item_string.
  - apply (flush_direct mtype l0 bout0 _ l) in Hw as (w & Hc & Hw); [|done].
    rewrite s_data3 in Hw.
    eapply one_item; [..|apply Hc|apply Hw|]; [by do 4 right; left|lia|done|].
    intros rest. by apply data_item_array.
  - apply (flush_direct mtype l0 bout0 _ l) in Hw as (w & Hc & Hw); [|done].
    destruct (def_array _ _ _ _ l) as [|l1] eqn:Ed; cbn in Ha; [done|].
    rewrite s_two_items in Hw. apply bind_ok_inv in Hw as ([] & w1 & Hw1 & Hw2).
    rewrite s_data3 in Hw1.
    destruct (one_item mtype l0 bout0 DEFA 1 off (disword tid ++ disword len) w l l1 w1) as [Hi1 Hk1];
      [by do 4 right; left|lia|done..| |].
    { intros rest. by apply data_item_array. }
    assert (Hc1 : cached mtype l0 bout0 (-1) (lastoff w1) w1 l1).
    { unfold ObjData.Inv in Hi1. by rewrite Hk1 in Hi1. }
    eapply one_item; [..|apply Hc1|apply Hw2|]; [by do 5 right; left|lia|done|].
    intros rest. apply data_item_ind. rewrite <- Ha. f_equal. f_equal.
    unfold def_array in Ed. case_match; [done|]. destruct (mtype_at _ _); [|done]. cbn in Ed.
    case_match; [done|]. by injection Ed as <-.
  - apply (flush_direct mtype l0 bout0 _ l) in Hw as (w & Hc & Hw); [|done].
    rewrite s_data2 in Hw.
    eapply one_item; [..|apply Hc|apply Hw|]; [by do 6 right; left|lia|done|].
    intros rest. by apply data_item_pop.
Qed.

Lemma items_step its ws l l' ws' :
  forallb item_ok its = true -> Inv ws l -> write_items its ws = Ok tt ws' ->
  apply_items mtype its l = inr l' -> Inv ws' l'.
Proof.
  revert ws l. induction its as [|it its IH]; intros ws l Hok Hinv Hw Ha; cbn in *.
  - injection Hw as <-. by injection Ha as <-.
  - apply andb_true_iff in Hok as [Hok1 Hok2].
    apply bind_ok_inv in Hw as ([] & w1 & Hw1 & Hw2).
    destruct (apply_item mtype it l) as [|l1] eqn:El; cbn in Ha; [done|].
    eapply IH; [done| |done..]. by eapply item_step.
Qed.
End items.

Lemma parse_data_fuel mtype l p fuel :
  fuel = Datatypes.S (length p) -> parse_data mtype l p = data_loop mtype fuel l p.
Proof. by intros ->. Qed.

Lemma disvar_run mtype ds ws ws' l l' :
  forallb item_ok (decls_items ds) = true ->
  disvar ds ws = Ok tt ws' ->
  apply_items mtype (decls_items ds) l = inr l' ->
  exists bs, bout ws' = bout ws ++ bs /\
    forall rest, parse_data mtype l (bs ++ rest) = inr (l', rest).
Proof.
  intros Hok Hw Ha. unfold disvar in Hw.
  apply bind_ok_inv in Hw as ([] & w0 & Hw0 & Hw). unfold modify in Hw0. injection Hw0 as <-.
  apply bind_ok_inv in Hw as ([] & w1 & Hw1 & Hw). rewrite dis_decls_items in Hw1.
  apply bind_ok_inv in Hw as ([] & w2 & Hw2 & Hw). rewrite Bwrite_eq in Hw. injection Hw as <-.
  eapply (items_step mtype l (bout ws)) in Hw1; [|done| |done].
  2:{ split; [done|]. exists 0%nat, [], l, []. cbn. rewrite app_nil_r.
      split_and!; try done. }
  destruct (disflush_ok mtype l (bout ws) _ _ _ _ _ _ Hw1 (or_introl eq_refl) Hw2) as [Hc _].
  destruct Hc as (_ & n & bs & l1 & vals & Hb & Hr & _ & _ & H1 & _).
  destruct (H1 eq_refl) as [_ ->]. cbn [bout]. rewrite Hb, <- app_assoc.
  exists (bs ++ [0]). split; [done|]. intros rest. rewrite <- app_assoc.
  destruct Hr as [Hn Hr].
  rewrite (parse_data_fuel _ _ _ (n + Datatypes.S (length bs - n + Datatypes.S (length rest)))).
  - by rewrite Hr.
  - rewrite !length_app. cbn. lia.
Qed.

(** C2. The data section round-trips: whatever the cache merged, the loader
    performs, in order, exactly the assignments the initialisers of the
    globals mean (a word keeps its low 32 bits, sign-extended; a big, a real,
    bytes and strings are exact; arrays are allocated, entered and left), and
    it stops behind the section's end mark. *)
Theorem disvar_parse mtype ds ws ws' l l' :
  forallb item_ok (decls_items ds) = true ->
  disvar ds ws = Ok tt ws' ->
  apply_items mtype (decls_items ds) l = inr l' ->
  exists bs, bout ws' = bout ws ++ bs /\
    forall rest, parse_data mtype l (bs ++ rest) = inr (l', rest).
Proof. apply disvar_run. Qed.

(** The cache of the writer grows for every datum shorter than 1024 bytes:
    the growth loop is left with room for the datum.  For a longer one (a name
    in an interface table) the loop computes the same too small size for ever:
    no number of iterations makes it return. *)
Theorem reserve_loop kind size w :
  0 <= kind ->
  (size < 1024 -> exists v,
     reserve 2 kind size w =
       Ok tt (mkWS (bout w) (cache w) (ndatum w) (startoff w) (lastoff w) (lastkind w) v) /\
     ncached w + size < v) /\
  (1024 <= size -> lencache w <= ncached w + size -> forall fuel, reserve fuel kind size w = Fault).
Proof.
  intros Hk. split.
  - intros Hs. cbn. destruct (Z.leb_spec 0 kind); [|lia]. cbn.
    destruct (Z.leb_spec (lencache w) (ncached w + size)).
    + cbn. exists (ncached w + 1024). unfold mbind, ST_bind. cbn. unfold ncached. cbn.
      destruct (Z.leb_spec (Z.of_nat (length (cache w)) + 1024) (Z.of_nat (length (cache w)) + size)); [lia|].
      split; [done|lia].
    + exists (lencache w). split; [by destruct w|done].
  - intros Hs Hl fuel. revert w Hl. induction fuel as [|fuel IH]; intros w Hl; cbn; [done|].
    destruct (Z.leb_spec 0 kind); [|lia]. destruct (Z.leb_spec (lencache w) (ncached w + size)); [|lia].
    cbn. unfold mbind, ST_bind. cbn. apply IH. unfold ncached. cbn. lia.
Qed.

(** ** Instances *)

Definition ws0 : WS := mkWS [] [] 0 0 0 (-1) 1024.
Definition ls0 : LS := mkLS (0%nat, 0) [] [] [0].

(** Two adjacent words, a string, a tuple with a negative word and a byte, and
    an array of three words with a range and a wildcard. *)
Definition demo_globals : list (Z * dnode) :=
  [(0, DInt 7); (8, DInt (-1)); (16, DString [104; 105]);
   (24, DTuple (FCons 0 (DInt (-2)) (FCons 8 (DByte 200) FNil)));
   (40, DArray 1 3 8 (Wild (DInt 5)) (LCons 1 1 (DInt 6) LNil)); (48, DBig (2 ^ 40))].
Definition demo_types : list (option Desc) :=
  [Some (mkDesc 56 1 [36]); Some (mkDesc 8 0 [])].

Example disvar_parse_witness :
  exists bs, parse_data demo_types ls0 (bs ++ [9]) =
    inr (mkLS (0%nat, 0) []
          [((0%nat, 48), VL (2 ^ 40)); ((1%nat, 16), VW 5); ((1%nat, 8), VW 6); ((1%nat, 0), VW 5);
           ((0%nat, 40), VA 1 3 1); ((0%nat, 32), VB 200); ((0%nat, 24), VW (-2));
           ((0%nat, 16), VS [104; 105]); ((0%nat, 8), VW (-1)); ((0%nat, 0), VW 7)] [1; 0], [9]).
Proof.
  edestruct (fun ws1 l1 => disvar_parse demo_types demo_globals ws0 ws1 ls0 l1) as (bs & _ & H);
    [vm_compute; reflexivity|vm_compute; reflexivity|vm_compute; reflexivity|].
  exists bs. exact (H [9]).
Defined.

Example reserve_loop_witness : reserve 50 DEFB 2000 ws0 = Fault.
Proof.
  destruct (reserve_loop DEFB 2000 ws0) as [_ H].
  - unfold DEFB. lia.
  - apply H; vm_compute; discriminate.
Defined.
