(* ===== verification/Case.v ===== *)
(** * Case statements from the compiler to the interpreter

    The tables limbo/dis.c writes for integer and big cases, loaded into the
    module data, are what the icase and casel instructions of
    libinterp/xec.c search.  For integer cases the two agree; for big cases
    on a 64-bit machine they do not. *)

From S2P Require Import Prelude Mem Vm Dec Xec Object ObjData.

(** The label a selector selects: the first whose range, bounds included,
    contains it, else the wildcard. *)
Fixpoint case_label (sel : Z) (labs : list Lab) (iwild : option Z) : Z :=
  match labs with
  | [] => wild_pc iwild
  | l :: labs =>
      if (lab_start l <=? sel) && (sel <=? lab_stop l) then lab_pc l
      else case_label sel labs iwild
  end.

(** Labels as the compiler leaves them: non-empty disjoint ranges in
    increasing order from [lo] and below [hi]; targets that fit a word of the object
    file. *)
Fixpoint labs_ok (lo hi : Z) (labs : list Lab) : bool :=
  match labs with
  | [] => true
  | l :: labs =>
      (lo <=? lab_start l) && (lab_start l <=? lab_stop l) && (lab_stop l <? hi) &&
      (-2147483648 <=? lab_pc l) && (lab_pc l <? 2147483648) &&
      labs_ok (lab_stop l + 1) hi labs
  end.

(** [m] holds, for module data at [mp], every word and big that the loader
    assigned. *)
Definition holds (m : memory) (mp : Z) (log : list (place * datum)) : Prop :=
  Forall (fun e : place * datum =>
            match e.2 with
            | VW v | VL v => word_at m (padd mp e.1.2) v
            | _ => True
            end) log.

(** The assignments the loader makes for one global at [off]. *)
Definition loaded (off : Z) (n : dnode) : list (place * datum) :=
  match apply_items [] (items off n) (mkLS (0%nat, 0) [] [] [0]) with
  | inr l => dlog l
  | inl _ => []
  end.

(** The end of the range is written with one added, and read back at 32 bits. *)
Definition lab_row (l : Lab) : row := (lab_start l, s32 (lab_stop l + 1), lab_pc l).
Definition max_int : Z := 2147483647.
(** The labels that the machine can find: not one that ends at the largest int. *)
Definition found_labs (labs : list Lab) : list Lab := filter (fun l => lab_stop l <> max_int) labs.

Lemma s32_small v : -2147483648 <= v < 2147483648 -> s32 v = v.
Proof. intros. int_lia. Qed.

Lemma s32_range v : -2147483648 <= s32 v < 2147483648.
Proof. int_lia. Qed.

(** ** Integer cases *)

Definition only_ints (it : item) : bool :=
  match it with IInt _ _ | IBig _ _ => true | _ => false end.
Definition int_entry (it : item) : place * datum :=
  match it with
  | IInt off v => ((0%nat, off), VW (s32 v))
  | IBig off v => ((0%nat, off), VL (s64 v))
  | _ => ((0%nat, 0), VB 0)
  end.

Lemma apply_ints its log :
  forallb only_ints its = true ->
  apply_items [] its (mkLS (0%nat, 0) [] log [0]) =
    inr (mkLS (0%nat, 0) [] (rev (int_entry <$> its) ++ log) [0]).
Proof.
  revert log. induction its as [|it its IH]; intros log Hi; cbn in *; [done|].
  apply andb_true_iff in Hi as [Hi1 Hi2].
  destruct it; try done; cbn; unfold set_datum, shift_place; cbn; rewrite IH by done;
    by rewrite <- app_assoc.
Qed.

Lemma holds_ints m mp off n :
  forallb only_ints (items off n) = true ->
  holds m mp (loaded off n) <-> Forall (fun it =>
    match it with
    | IInt o v => word_at m (padd mp o) (s32 v)
    | IBig o v => word_at m (padd mp o) (s64 v)
    | _ => True
    end) (items off n).
Proof.
  intros Hi. unfold holds, loaded. rewrite apply_ints by done. cbn. rewrite app_nil_r.
  rewrite !Forall_forall. split; intros H it Hit.
  - specialize (H (int_entry it) (proj1 (in_rev _ _) (in_map int_entry _ _ Hit))). by destruct it.
  - apply in_rev in Hit. change (In it (map int_entry (items off n))) in Hit.
    apply in_map_iff in Hit as (x & <- & Hx). specialize (H _ Hx). by destruct x.
Qed.

Lemma case_items_ints off labs w : forallb only_ints (case_items off labs w) = true.
Proof. revert off. induction labs; intros off; cbn; auto. Qed.
Lemma casel_items_ints off labs w : forallb only_ints (casel_items off labs w) = true.
Proof. revert off. induction labs; intros off; cbn; auto. Qed.

(** A word at an address written differently. *)
Lemma word_at_eq m a b v : word_at m a v -> a = b -> word_at m b v.
Proof. by intros ? ->. Qed.
Ltac here H :=
  eapply word_at_eq; [exact H|]; cbn [length fmap list_fmap];
  rewrite ?length_fmap, ?padd_padd; f_equal; unfold IBY2WD in *; lia.

(** The rows of the loaded table. *)
Lemma case_items_table m mp off labs w lo :
  labs_ok lo 2147483648 labs = true -> -2147483648 <= lo ->
  -2147483648 <= wild_pc w < 2147483648 ->
  Forall (fun it => match it with
    | IInt o v => word_at m (padd mp o) (s32 v)
    | IBig o v => word_at m (padd mp o) (s64 v)
    | _ => True end) (case_items off labs w) ->
  case_table m 3 2 (padd mp off) (lab_row <$> labs) (wild_pc w).
Proof.
  pose proof s32_small as E.
  revert off lo. induction labs as [|l labs IH]; intros off lo Hok Hlo Hw HF; cbn in HF.
  - apply Forall_cons_iff in HF as [HF _]. split; [done|].
    cbn. rewrite E in HF by done. by rewrite padd_padd, Z.add_0_r.
  - rewrite !Forall_cons_iff in HF. destruct HF as (H0 & H1 & H2 & HF).
    cbn [labs_ok] in Hok. rewrite !andb_true_iff in Hok. destruct Hok as [[[[[? ?] ?] ?] ?] Hok].
    rewrite E in H0, H2 by lia.
    destruct (IH (off + 24) (lab_stop l + 1) Hok ltac:(lia) Hw HF) as [Hrows Hd].
    split.
    + intros [|k] r Hk; cbn [lookup list_lookup fmap list_fmap] in Hk.
      * injection Hk as <-. split_and!; [here H0|here H1|here H2].
      * destruct (Hrows k r Hk) as (G0 & G1 & G2). split_and!; [here G0|here G1|here G2].
    + here Hd.
Qed.

Lemma stop_after l : -2147483648 <= lab_stop l < 2147483648 ->
  s32 (lab_stop l + 1) = if decide (lab_stop l = max_int) then -2147483648 else lab_stop l + 1.
Proof. intros Hl. unfold max_int. case_decide as Hm; [by rewrite Hm|]. apply s32_small. lia. Qed.
Lemma s32_row l : -2147483648 <= lab_start l -> lab_start l <= lab_stop l -> lab_stop l < 2147483648 ->
  s32 (lab_row l).1.1 = lab_start l /\ s32 (lab_row l).1.2 = if decide (lab_stop l = max_int) then -2147483648 else lab_stop l + 1.
Proof.
  intros H1 H2 H3. unfold lab_row. cbn [fst snd]. rewrite (s32_small (lab_start l)), stop_after by lia. split; [done|]. apply s32_small. unfold max_int. case_decide; lia.
Qed.
Lemma case_find_label sel labs w lo :
  labs_ok lo 2147483648 labs = true -> -2147483648 <= lo -> -2147483648 <= sel ->
  case_find s32 sel (lab_row <$> labs) (wild_pc w) = case_label sel (found_labs labs) w.
Proof.
  revert lo. induction labs as [|l labs IH]; intros lo Hok Hlo Hsel; [done|].
  cbn [labs_ok] in Hok. rewrite !andb_true_iff in Hok. destruct Hok as [[[[[? ?] ?] ?] ?] Hok].
  cbn [fmap list_fmap case_find]. unfold in_row. destruct (s32_row l) as [-> ->]; [lia..|].
  rewrite (IH _ Hok) by lia. unfold found_labs. rewrite filter_cons. unfold max_int in *.
  destruct (decide (lab_stop l = 2147483647)) as [Hm|Hm].
  - rewrite decide_False by (by intros []). replace (sel <? -2147483648) with false by lia. by rewrite andb_false_r.
  - rewrite decide_True by done. cbn [case_label]. by replace (sel <? lab_stop l + 1) with (sel <=? lab_stop l) by lia.
Qed.

Lemma labs_ok_ordered labs lo :
  labs_ok lo 2147483648 labs = true -> -2147483648 <= lo ->
  rows_ordered s32 (lab_row <$> labs) /\
  (forall k r, (lab_row <$> labs) !! k = Some r -> lo <= s32 r.1.1).
Proof.
  revert lo. induction labs as [|l labs IH]; intros lo Hok Hlo; [done|].
  cbn [labs_ok] in Hok. rewrite !andb_true_iff in Hok. destruct Hok as [[[[[? ?] ?] ?] ?] Hok].
  destruct (IH _ Hok ltac:(lia)) as [Hord Hlow]. destruct (s32_row l) as [E1 E2]; [lia..|]. split.
  - intros [|j] [|k] rj rk Hjk Hj Hk; cbn in Hj, Hk; [lia| |lia|].
    + injection Hj as <-. specialize (Hlow _ _ Hk). rewrite E1, E2. case_decide; lia.
    + apply (Hord j k); [lia|done..].
  - intros [|k] r Hk; cbn in Hk; [injection Hk as <-; rewrite E1; lia|].
    specialize (Hlow _ _ Hk). lia.
Qed.

(** C23. An integer case statement works end to end but for one label: with the table
    limbo wrote for its labels loaded into the module data, icase jumps to the
    instruction of the label whose range contains the selector, and to the wildcard's
    when there is none, whatever the number of labels below 2^31.  A label whose range
    ends at the largest int is never found, so that its selectors go to the wildcard
    too: limbo writes the end with one added, which the machine reads as the smallest.
    The labels are disjoint and in order, as limbo leaves them, and all the values
    are ints. *)
Theorem case_statement s mp off labs iwild sel l :
  labs_ok (-2147483648) 2147483648 labs = true ->
  -2147483648 <= wild_pc iwild < 2147483648 ->
  Z.of_nat (length labs) < 2147483648 ->
  holds (mem s) mp (loaded off (DCase labs iwild)) ->
  load 4 (mem s) (R_s (R s)) = Some sel ->
  R_d (R s) = padd mp off ->
  mods s !! R_M (R s) = Some l ->
  icase s = Ok tt (with_R (set_PC (pc_of l (case_label (s32 sel) (found_labs labs) iwild))) s).
Proof.
  intros Hok Hw Hn Hh Hsel Hd Hl.
  apply holds_ints in Hh; [|apply case_items_ints]. cbn [items] in Hh.
  apply Forall_cons_iff in Hh as [Hcount Hrows].
  destruct (labs_ok_ordered _ _ Hok ltac:(lia)) as [Hordered _].
  rewrite <- (case_find_label _ _ _ _ Hok) by (pose proof (s32_range sel); lia).
  apply (icase_run s sel (lab_row <$> labs) (wild_pc iwild) l); try done; rewrite ?length_fmap; try lia.
  - rewrite Hd, padd_padd. by eapply case_items_table.
  - rewrite s32_small in Hcount by lia. eapply word_at_eq; [exact Hcount|].
    rewrite Hd, !padd_padd. f_equal. unfold IBY2WD. lia.
Qed.

(** ** Big cases *)

(** A big case statement does not: limbo writes rows of two bigs and two
    words (32 bytes) after a header of two words, casel reads rows of six
    words and takes the target from the fifth.  On a 64-bit machine, for a
    table of one label, every selector in the label's range jumps to the
    wildcard's instruction instead of the label's. *)
Theorem casel_misreads s mp off lab iwild sel l x :
  labs_ok (-2147483648) 2147483647 [lab] = true ->
  -2147483648 <= wild_pc iwild < 2147483648 ->
  holds (mem s) mp (loaded off (DCasel [lab] iwild)) ->
  load 8 (mem s) (padd mp (off + 64)) = Some x ->
  load 8 (mem s) (R_s (R s)) = Some sel ->
  lab_start lab <= s64 sel <= lab_stop lab ->
  R_d (R s) = padd mp off ->
  mods s !! R_M (R s) = Some l ->
  casel s = Ok tt (with_R (set_PC (pc_of l (wild_pc iwild))) s).
Proof.
  intros Hok Hw Hh Hx Hsel Hrange Hd Hl.
  apply holds_ints in Hh; [|done]. cbn in Hh. rewrite !Forall_cons_iff in Hh.
  destruct Hh as (Hn & Hlo & Hhi & _ & Hwild & _).
  cbn in Hok. rewrite !andb_true_iff in Hok. destruct Hok as [[[[[? ?] ?] ?] ?] _].
  rewrite s32_small in Hwild by lia. rewrite s64_id in Hlo, Hhi by lia.
  assert (E1 : s32 (Z.of_nat 1) = 1) by done. rewrite E1 in Hn.
  replace (padd mp (off + 64)) with (padd (padd mp (off + 2 * IBY2WD)) (8 * (1 * 6))) in Hx
    by (rewrite padd_padd; f_equal; unfold IBY2WD; lia).
  unfold casel, V. vm_step. erewrite bind_ok by done. cbv beta zeta.
  rewrite Hd, padd_padd.
  erewrite bind_ok; [|apply ldw_at; here Hn].
  erewrite bind_ok; [|apply (ldw_at _ _ _ (s64 x)); exists x; split; [exact Hx|done]].
  change case_fuel with (Datatypes.S 63). generalize 63%nat as f. intros f. cbn [case_loop]. rewrite (eq_refl : (0 <? 1) = true), (eq_refl : Z.shiftr 1 1 = 0).
  erewrite bind_ok.
  2:{ erewrite bind_ok; [|apply ldw_at; here Hlo].
      destruct (Z.ltb_spec (s64 sel) (lab_start lab)); [lia|].
      erewrite bind_ok; [|apply ldw_at; here Hhi]. rewrite Z.geb_leb.
      destruct (Z.leb_spec (lab_stop lab + 1) (s64 sel)); [lia|].
      apply ldw_at. here Hwild. }
  by apply goto_target_ok.
Qed.

(** ** Instances *)

Definition demo_labs : list Lab := [mkLab 10 19 3; mkLab 20 20 4; mkLab 30 2147483647 5].
Definition demo_stmt (sel : Z) : VM :=
  machine 0 16 0 4128
    [(16, sel); (4128, 3); (4136, 10); (4144, 20); (4152, 3); (4160, 20); (4168, 21); (4176, 4);
     (4184, 30); (4192, -2147483648); (4200, 5); (4208, 9)].

Lemma demo_holds sel : sel = 20 \/ sel = 40 -> holds (mem (demo_stmt sel)) 4096 (loaded 32 (DCase demo_labs (Some 9))).
Proof.
  intros [-> | ->]; (apply holds_ints; [reflexivity|]; repeat (constructor; [eexists; split; by_eval|]); constructor).
Qed.
(** The label of 20 is found, and that of 40, which ends at the largest int, is not. *)
Example case_statement_witness :
  icase (demo_stmt 20) = Ok tt (with_R (set_PC (65536 + 4 * 24)) (demo_stmt 20)) /\
  icase (demo_stmt 40) = Ok tt (with_R (set_PC (65536 + 9 * 24)) (demo_stmt 40)).
Proof.
  split.
  - apply (case_statement (demo_stmt 20) 4096 32 demo_labs (Some 9) 20 (mkModlink 4096 false 65536 []));
      [vm_compute; reflexivity|cbn; lia|cbn; lia|apply demo_holds; by left|vm_compute; reflexivity..].
  - apply (case_statement (demo_stmt 40) 4096 32 demo_labs (Some 9) 40 (mkModlink 4096 false 65536 []));
      [vm_compute; reflexivity|cbn; lia|cbn; lia|apply demo_holds; by right|vm_compute; reflexivity..].
Defined.

Definition demo_big : VM :=
  machine 0 16 0 4128
    [(16, 12); (4128, 1); (4144, 10); (4152, 20); (4160, 3); (4176, 9); (4192, 0)].

(** The selector 12 is in the only label's range, whose target is 3; casel
    jumps to the wildcard's instruction 9. *)
Example casel_misreads_witness :
  case_label 12 [mkLab 10 19 3] (Some 9) = 3 /\
  casel demo_big = Ok tt (with_R (set_PC (65536 + 9 * 24)) demo_big).
Proof.
  split; [reflexivity|].
  apply (casel_misreads demo_big 4096 32 (mkLab 10 19 3) (Some 9) 12 (mkModlink 4096 false 65536 []) 0).
  - vm_compute. reflexivity.
  - cbn. lia.
  - apply holds_ints; [reflexivity|].
    repeat (constructor; [eexists; split; by_eval|]). constructor.
  - vm_compute. reflexivity.
  - vm_compute. reflexivity.
  - split; vm_compute; discriminate.
  - vm_compute. reflexivity.
  - vm_compute. reflexivity.
Defined.
