(* ===== verification/ObjMod.v ===== *)
(** * Whole object files: limbo's modcom against parsemod

    The sections of a Dis file around the instructions ([Object]) and the
    data ([ObjData]): header, type descriptors, links, import tables and
    exception handlers, written by limbo/com.c and limbo/dis.c and read by
    [parsemod] of libinterp/load.c. *)

From S2P Require Import Prelude Mem Vm Dec Object ObjData.

Definition XMAGIC : Z := 819248.
Definition SMAGIC : Z := 923426.
Definition MUSTCOMPILE : Z := 1.
Definition DONTCOMPILE : Z := 2.
Definition HASLDT0 : Z := 16.
Definition HASEXCEPT : Z := 32.
Definition HASLDT : Z := 64.
Definition NAMELEN : Z := 64.

(** ** The writer *)

Record LDesc := mkLDesc { ld_id : Z; ld_size : Z; ld_nmap : Z; ld_map : list Z }.

(** A member of the module's interface: a global or a function. *)
Inductive LLink :=
  | LGlobal (sign : Z)
  | LFn (pc desc sign : Z) (adt : option (list Z)) (name : list Z).

(** An exception handler: are its bounds reachable, frame offset, [getpc] of
    the bounds, descriptor, [ne], labels and wildcard. *)
Record LExc := mkLExc {
  le_reach : bool;
  le_offset : Z;
  le_pc1 : Z;
  le_pc2 : Z;
  le_desc : option Z;
  le_ne : Z;
  le_labs : list (list Z * Z);
  le_iwild : option Z;
}.

Record LModule := mkLModule {
  lm_mustcompile : bool;
  lm_dontcompile : bool;
  lm_LDT : bool;
  lm_maxstack : Z;
  lm_ninst : Z;
  lm_offset : Z;
  lm_ndesc : Z;
  lm_nlink : Z;
  lm_entry : option (Z * Z);
  lm_insts : list LInst;
  lm_descs : list LDesc;
  lm_globals : list (Z * dnode);
  lm_name : list Z;
  lm_links : list LLink;
  lm_ldts : list (Z * list IfaceFn);
  lm_excs : list LExc;
  lm_path : list Z;
}.

Definition disentry (e : option (Z * Z)) : Wr unit :=
  match e with
  | None => w_con (-1) ;; w_con (-1)
  | Some (pc, desc) => w_con pc ;; w_con desc
  end.

Fixpoint disdesc (ds : list LDesc) : Wr unit :=
  match ds with
  | [] => mret tt
  | d :: ds =>
      w_con (ld_id d) ;; w_con (ld_size d) ;; w_con (ld_nmap d) ;; Bwrite (ld_map d) ;;
      disdesc ds
  end.

Definition dislink (l : LLink) : Wr unit :=
  match l with
  | LGlobal sign => w_con (-1) ;; w_con (-1) ;; w_word sign ;; Bwrite [46; 109; 112] ;; Bwrite [0]
  | LFn pc desc sign adt name =>
      w_con pc ;; w_con desc ;; w_word sign ;;
      Bwrite (match adt with Some s => s ++ [46] | None => [] end) ;;
      Bwrite name ;; Bwrite [0]
  end.
Fixpoint dislinks (ls : list LLink) : Wr unit :=
  match ls with [] => mret tt | l :: ls => dislink l ;; dislinks ls end.
(** The name is cut to [NAMELEN-1] bytes. *)
Definition dismod (name : list Z) (ls : list LLink) : Wr unit :=
  Bwrite (take (Z.to_nat (NAMELEN - 1)) name ++ [0]) ;; dislinks ls.

Definition disimport (id : IfaceFn) : Wr unit :=
  w_word (if_sign id) ;;
  Bwrite (match if_adt id with Some s => s ++ [46] | None => [] end) ;;
  Bwrite (if_name id) ;; Bwrite [0].
Fixpoint disimports (ids : list IfaceFn) : Wr unit :=
  match ids with [] => mret tt | id :: ids => disimport id ;; disimports ids end.
Fixpoint disldts (ds : list (Z * list IfaceFn)) : Wr unit :=
  match ds with
  | [] => mret tt
  | (val, ids) :: ds => w_con val ;; disimports ids ;; disldts ds
  end.
Definition disldt (ds : list (Z * list IfaceFn)) : Wr unit :=
  w_con (Z.of_nat (length ds)) ;; disldts ds ;; w_con 0.

Fixpoint disexclabs (ls : list (list Z * Z)) : Wr unit :=
  match ls with
  | [] => mret tt
  | (name, pc) :: ls => Bwrite name ;; Bwrite [0] ;; w_con pc ;; disexclabs ls
  end.
Definition disexc1 (e : LExc) : Wr unit :=
  w_con (le_offset e) ;; w_con (le_pc1 e) ;; w_con (le_pc2 e) ;;
  match le_desc e with Some id => w_con id | None => w_con (-1) end ;;
  w_con (Z.lor (Z.of_nat (length (le_labs e))) (Z.shiftl (le_ne e) 16)) ;;
  disexclabs (le_labs e) ;;
  w_con (wild_pc (le_iwild e)).
Fixpoint disexcs (es : list LExc) : Wr unit :=
  match es with
  | [] => mret tt
  | e :: es => if negb (le_reach e) then disexcs es else disexc1 e ;; disexcs es
  end.
Definition disexc (es : list LExc) : Wr unit :=
  w_con (Z.of_nat (length (filter (fun e => le_reach e = true) es))) ;;
  disexcs es ;; w_con 0.

Definition w_inst (ins : list LInst) : Wr unit :=
  match disinst ins with Some bs => Bwrite bs | None => error "overflow in constant" end.

Definition hints (m : LModule) : Z :=
  let h := 0 in
  let h := if lm_mustcompile m then Z.lor h MUSTCOMPILE else h in
  let h := if lm_dontcompile m then Z.lor h DONTCOMPILE else h in
  let h := if lm_LDT m then Z.lor h HASLDT else h in
  match lm_excs m with [] => h | _ => Z.lor h HASEXCEPT end.

(** The [gendis] branch of modcom: the header after the magic number, and the
    sections. *)
Definition modheader (m : LModule) : Wr unit :=
  w_con (hints m) ;;
  w_con (lm_maxstack m) ;;
  w_con (lm_ninst m) ;;
  w_con (lm_offset m) ;;
  w_con (lm_ndesc m) ;;
  w_con (lm_nlink m) ;;
  disentry (lm_entry m).

Definition modcom (m : LModule) : Wr unit :=
  w_con XMAGIC ;;
  modheader m ;;
  w_inst (lm_insts m) ;;
  disdesc (lm_descs m) ;;
  disvar (lm_globals m) ;;
  dismod (lm_name m) (lm_links m) ;;
  when (lm_LDT m) (disldt (lm_ldts m)) ;;
  when (match lm_excs m with [] => false | _ => true end) (disexc (lm_excs m)) ;;
  Bwrite (lm_path m ++ [0]).

(** ** The loader *)

(** A word read from the table [m->type]; [None] when the index is outside
    the table, so that what is read is not known. *)
Abbreviation slot := (option (option Desc)).

Record Link := mkLink { k_name : list Z; k_sig : Z; k_pc : Z; k_frame : slot }.
Record Except := mkExcept { x_s : list Z; x_pc : Z }.
Record Handler := mkHandler {
  h_eoff : Z; h_pc1 : Z; h_pc2 : Z; h_type : slot; h_ne : Z; h_etab : list Except; h_wild : Z }.
Record Mod := mkMod {
  m_rt : Z;
  m_ss : Z;
  m_prog : list Inst;
  m_type : list (option Desc);
  m_data : LS;
  m_name : list Z;
  m_ext : list Link;
  m_ldt : list (list (Z * list Z));
  m_htab : list Handler;
  m_entry : Z;          (* index of the first instruction to run *)
  m_entryt : slot;
}.

Definition type_slot (ts : list (option Desc)) (v : Z) : slot :=
  if v <? 0 then None else ts !! Z.to_nat v.

(** [strdup((char* )istream); while( *istream++) ;] *)
Fixpoint cstring (p : list Z) : option (list Z * list Z) :=
  match p with
  | [] => None
  | b :: p => if b =? 0 then Some ([], p) else '(s, p) ← cstring p; Some (b :: s, p)
  end.

Definition get_bytes (n : Z) (p : list Z) : option (list Z * list Z) :=
  if Z.of_nat (length p) <? n then None else Some (take (Z.to_nat n) p, drop (Z.to_nat n) p).

(** [id > hsize] is refused; [id == hsize] and negative numbers are written
    outside the table. *)
Fixpoint parse_types (n : nat) (hsize : Z) (ts : list (option Desc)) (p : list Z)
  : parsed (list (option Desc) * list Z) :=
  match n with
  | O => inr (ts, p)
  | Datatypes.S n =>
      '(id, p) ← need (operand p);
      if hsize <? id then inl (Bad "heap id range")
      else
        '(tsz, p) ← need (operand p);
        '(tnp, p) ← need (operand p);
        if (tsz <? 0) || (tnp <? 0) || (131072 <? tnp) then inl (Bad "implausible Dis file")
        else
          '(map, p) ← need (get_bytes tnp p);
          if (id <? 0) || (hsize <=? id) then inl Overrun
          else parse_types n hsize (<[Z.to_nat id := Some (mkDesc tsz tnp map)]> ts) p
  end.

Fixpoint parse_links (n : nat) (ts : list (option Desc)) (p : list Z) : parsed (list Link * list Z) :=
  match n with
  | O => inr ([], p)
  | Datatypes.S n =>
      '(pc, p) ← need (operand p);
      '(de, p) ← need (operand p);
      '(v, p) ← need (disw p);
      '(name, p) ← need (cstring p);
      '(ls, p) ← parse_links n ts p;
      inr (mkLink name v pc (if de =? -1 then Some None else type_slot ts de) :: ls, p)
  end.

Fixpoint parse_imports (n : nat) (p : list Z) : parsed (list (Z * list Z) * list Z) :=
  match n with
  | O => inr ([], p)
  | Datatypes.S n =>
      '(sig, p) ← need (disw p);
      '(name, p) ← need (cstring p);
      '(l, p) ← parse_imports n p;
      inr ((sig, name) :: l, p)
  end.
Fixpoint parse_ldts (nl : nat) (p : list Z) : parsed (list (list (Z * list Z)) * list Z) :=
  match nl with
  | O => inr ([], p)
  | Datatypes.S nl =>
      '(n, p) ← need (operand p);
      '(i, p) ← parse_imports (Z.to_nat n) p;
      '(l, p) ← parse_ldts nl p;
      inr (i :: l, p)
  end.
(** [istream++] *)
Definition skip1 (p : list Z) : option (list Z) := match p with _ :: p => Some p | [] => None end.

Fixpoint parse_etab (n : nat) (p : list Z) : parsed (list Except * list Z) :=
  match n with
  | O => inr ([], p)
  | Datatypes.S n =>
      '(s, p) ← need (cstring p);
      '(pc, p) ← need (operand p);
      '(l, p) ← parse_etab n p;
      inr (mkExcept s pc :: l, p)
  end.
(** [nvar] is the value of the variable [n], which the test before the
    assignment of [h->t] looks at: the number of labels of the handler before,
    and for the first handler the last count read in an earlier section. *)
Fixpoint parse_handlers (nh : nat) (nvar : Z) (ts : list (option Desc)) (p : list Z)
  : parsed (list Handler * list Z) :=
  match nh with
  | O => inr ([], p)
  | Datatypes.S nh =>
      '(eoff, p) ← need (operand p);
      '(pc1, p) ← need (operand p);
      '(pc2, p) ← need (operand p);
      '(descid, p) ← need (operand p);
      let t := if negb (nvar =? -1) then type_slot ts descid else None in
      '(n, p) ← need (operand p);
      let ne := Z.shiftr n 16 in
      let n := Z.land n 65535 in
      '(etab, p) ← parse_etab (Z.to_nat n) p;
      '(wild, p) ← need (operand p);
      '(hs, p) ← parse_handlers nh n ts p;
      inr (mkHandler eoff pc1 pc2 t ne etab wild :: hs, p)
  end.

(** The name must end within 128 bytes. *)
Definition parse_name (p : list Z) : parsed (list Z * list Z) :=
  if forallb (fun b => negb (b =? 0)) (take 128 p)
  then if (length p <? 128)%nat then inl Overrun else inl (Bad "bad module name")
  else need (cstring p).

(** Parameters: is the file refused for want of a signature, the answer of
    verifysigner on the signature and the signed bytes, the address of the
    instruction array, the value of [n] before the exception table; the flags of the
    emulator, and the native code generator, which may refuse a module ([None]) or
    put code of its own in the place of the instructions.  malloc does not fail. *)
Section parsemod.
Context (mustbesigned : bool) (verifysigner : list Z -> list Z -> bool) (prog nvar : Z).
Context (cflag dontcompile : bool) (compile : Mod -> option Mod).

Definition parse_magic (p : list Z) : parsed (list Z) :=
  '(magic, p) ← need (operand p);
  if magic =? SMAGIC then
    '(siglen, p) ← need (operand p);
    if Z.of_nat (length p) <? siglen then inl (Bad "corrupt signature")
    else if siglen <? 0 then inl Overrun
    else if negb (verifysigner (take (Z.to_nat siglen) p) (drop (Z.to_nat siglen) p))
    then inl (Bad "security violation")
    else inr (drop (Z.to_nat siglen) p)
  else if magic =? XMAGIC then
    if mustbesigned then inl (Bad "security violation: not signed") else inr p
  else inl (Bad "bad magic").

(** rt, ss, isize, dsize, hsize, lsize, entry, entryt *)
Record Header := mkHeader {
  hd_rt : Z; hd_ss : Z; hd_isize : Z; hd_dsize : Z; hd_hsize : Z; hd_lsize : Z;
  hd_entry : Z; hd_entryt : Z }.
Definition parse_header (p : list Z) : parsed (Header * list Z) :=
  '(rt, p) ← need (operand p);
  '(ss, p) ← need (operand p);
  '(isize, p) ← need (operand p);
  '(dsize, p) ← need (operand p);
  '(hsize, p) ← need (operand p);
  '(lsize, p) ← need (operand p);
  '(entry, p) ← need (operand p);
  '(entryt, p) ← need (operand p);
  if (isize <? 0) || (dsize <? 0) || (hsize <? 0) || (lsize <? 0)
  then inl (Bad "implausible Dis file")
  else inr (mkHeader rt ss isize dsize hsize lsize entry entryt, p).

(** The module data are region 0, of descriptor 0. *)
Definition origmp (dsize : Z) (ts : list (option Desc)) : parsed LS :=
  if dsize =? 0 then inr (mkLS (0%nat, 0) [] [] [0])
  else
    match type_slot ts 0 with
    | None => inl Overrun
    | Some None => inl (Bad "bad desc for mp")
    | Some (Some d) =>
        if d_size d =? dsize then inr (mkLS (0%nat, 0) [] [] [0]) else inl (Bad "bad desc for mp")
    end.

Definition parse_ldt (rt : Z) (p : list Z) : parsed (list (list (Z * list Z)) * list Z) :=
  if negb (Z.land rt HASLDT =? 0) then
    '(nl, p) ← need (operand p);
    '(ldt, p) ← parse_ldts (Z.to_nat nl) p;
    p ← need (skip1 p);
    inr (ldt, p)
  else inr ([], p).

Definition parse_exc (rt : Z) (ts : list (option Desc)) (p : list Z) : parsed (list Handler * list Z) :=
  if negb (Z.land rt HASEXCEPT =? 0) then
    '(nh, p) ← need (operand p);
    '(htab, p) ← parse_handlers (Z.to_nat nh) nvar ts p;
    p ← need (skip1 p);
    inr (htab, p)
  else inr ([], p).

(** With cflag a module that may be is compiled if it can be; without, one that must
    be is compiled or refused. *)
Definition compiled (m : Mod) : parsed Mod :=
  if cflag then
    inr (if (Z.land (m_rt m) DONTCOMPILE =? 0) && negb dontcompile then default m (compile m) else m)
  else if negb (Z.land (m_rt m) MUSTCOMPILE =? 0) && negb dontcompile then
    match compile m with None => inl (Bad "compiler required") | Some m => inr m end
  else inr m.

Definition parsemod (code : list Z) : parsed (Mod * list Z) :=
  p ← parse_magic code;
  '(h, p) ← parse_header p;
  '(is_, p) ← parse_insts (Z.to_nat (hd_isize h)) prog (hd_isize h) p;
  '(ts, p) ← parse_types (Z.to_nat (hd_hsize h)) (hd_hsize h) (replicate (Z.to_nat (hd_hsize h)) None) p;
  l ← origmp (hd_dsize h) ts;
  '(l, p) ← parse_data ts l p;
  '(name, p) ← parse_name p;
  '(ext, p) ← parse_links (Z.to_nat (hd_lsize h)) ts p;
  if negb (Z.land (hd_rt h) HASLDT0 =? 0) then inl (Bad "obsolete dis")
  else
    '(ldt, p) ← parse_ldt (hd_rt h) p;
    '(htab, p) ← parse_exc (hd_rt h) ts p;
    let '(entry, entryt) :=
      if (hd_entry h <? hd_isize h) && (hd_entryt h <? hd_hsize h)
      then (hd_entry h, type_slot ts (hd_entryt h)) else (0, Some None) in
    m ← compiled (mkMod (hd_rt h) (hd_ss h) is_ ts l name ext ldt htab entry entryt);
    inr (m, p).
End parsemod.

(** ** What the loader must make of a module *)

Definition load_desc (d : LDesc) : Desc := mkDesc (ld_size d) (ld_nmap d) (ld_map d).
Definition load_types (hsize : Z) (ds : list LDesc) : list (option Desc) :=
  foldl (fun ts d => <[Z.to_nat (ld_id d) := Some (load_desc d)]> ts)
        (replicate (Z.to_nat hsize) None) ds.
Definition qualified (adt : option (list Z)) (name : list Z) : list Z :=
  match adt with Some s => s ++ [46] | None => [] end ++ name.
Definition load_link (ts : list (option Desc)) (l : LLink) : Link :=
  match l with
  | LGlobal sign => mkLink [46; 109; 112] (s32 sign) (-1) (Some None)
  | LFn pc desc sign adt name => mkLink (qualified adt name) (s32 sign) pc (type_slot ts desc)
  end.
Definition load_import (id : IfaceFn) : Z * list Z :=
  (s32 (if_sign id), qualified (if_adt id) (if_name id)).
Definition exc_desc (e : LExc) : Z := match le_desc e with Some id => id | None => -1 end.
Definition load_exc (ts : list (option Desc)) (e : LExc) : Handler :=
  mkHandler (le_offset e) (le_pc1 e) (le_pc2 e) (type_slot ts (exc_desc e)) (le_ne e)
            ((fun l : list Z * Z => mkExcept l.1 l.2) <$> le_labs e) (wild_pc (le_iwild e)).
Definition entry_of (m : LModule) : Z * Z := match lm_entry m with Some e => e | None => (-1, -1) end.

Definition real_insts (m : LModule) : list LInst := filter (fun i => li_op i <> INOOP) (lm_insts m).
Definition reachable (m : LModule) : list LExc := filter (fun e => le_reach e = true) (lm_excs m).

Definition load_module (prog : Z) (m : LModule) (l : LS) : Mod :=
  let ts := load_types (lm_ndesc m) (lm_descs m) in
  mkMod (hints m) (lm_maxstack m) (load_inst prog <$> real_insts m) ts l
        (take 63 (lm_name m)) (load_link ts <$> lm_links m)
        (if lm_LDT m then (fun d : Z * list IfaceFn => load_import <$> d.2) <$> lm_ldts m else [])
        (load_exc ts <$> reachable m)
        (entry_of m).1 (type_slot ts (entry_of m).2).

(** ** Modules limbo may write *)

Definition name_ok (s : list Z) : bool := forallb (fun b => negb (b =? 0)) s.
Definition nat_con (v : Z) : bool := (0 <=? v) && con_ok v.
Definition desc_ok (hsize : Z) (d : LDesc) : bool :=
  (0 <=? ld_id d) && (ld_id d <? hsize) && nat_con (ld_size d) &&
  (ld_nmap d =? Z.of_nat (length (ld_map d))) && (ld_nmap d <=? 131072).
Definition opt_name_ok (s : option (list Z)) : bool := match s with Some s => name_ok s | None => true end.
Definition link_ok (l : LLink) : bool :=
  match l with
  | LGlobal _ => true
  | LFn pc desc _ adt name => con_ok pc && nat_con desc && opt_name_ok adt && name_ok name
  end.
Definition import_ok (id : IfaceFn) : bool := opt_name_ok (if_adt id) && name_ok (if_name id).
Definition ldt_ok (d : Z * list IfaceFn) : bool :=
  (d.1 =? Z.of_nat (length d.2)) && con_ok d.1 && forallb import_ok d.2.

Definition exc_ok (e : LExc) : bool :=
  con_ok (le_offset e) && con_ok (le_pc1 e) && con_ok (le_pc2 e) && con_ok (exc_desc e) &&
  (Z.of_nat (length (le_labs e)) <? 65536) && (0 <=? le_ne e) && (le_ne e <? 8192) &&
  forallb (fun l : list Z * Z => name_ok l.1 && con_ok l.2) (le_labs e) &&
  con_ok (wild_pc (le_iwild e)).

Definition mod_ok (m : LModule) : bool :=
  con_ok (lm_maxstack m) && nat_con (lm_ninst m) && nat_con (lm_offset m) &&
  nat_con (lm_ndesc m) && nat_con (lm_nlink m) &&
  (lm_ninst m =? Z.of_nat (length (real_insts m))) &&
  (lm_ndesc m =? Z.of_nat (length (lm_descs m))) &&
  (lm_nlink m =? Z.of_nat (length (lm_links m))) &&
  con_ok (entry_of m).1 && con_ok (entry_of m).2 &&
  ((entry_of m).1 <? lm_ninst m) && ((entry_of m).2 <? lm_ndesc m) &&
  forallb (inst_ok (lm_ninst m)) (real_insts m) &&
  forallb (desc_ok (lm_ndesc m)) (lm_descs m) &&
  ((lm_offset m =? 0) ||
   match type_slot (load_types (lm_ndesc m) (lm_descs m)) 0 with
   | Some (Some d) => d_size d =? lm_offset m
   | _ => false
   end) &&
  forallb item_ok (decls_items (lm_globals m)) &&
  name_ok (lm_name m) && forallb link_ok (lm_links m) &&
  forallb ldt_ok (lm_ldts m) &&
  con_ok (Z.of_nat (length (lm_ldts m))) &&
  forallb exc_ok (reachable m) && con_ok (Z.of_nat (length (reachable m))).

(** ** Sections *)

(** A writer that appends bytes with a property. *)
Definition writes (c : Wr unit) (Q : list Z -> Prop) : Prop :=
  forall w w', c w = Ok tt w' -> exists bs, bout w' = bout w ++ bs /\ Q bs.

Lemma writes_seq c1 c2 Q1 Q2 :
  writes c1 Q1 -> writes c2 Q2 ->
  writes (c1 ;; c2) (fun bs => exists b1 b2, bs = b1 ++ b2 /\ Q1 b1 /\ Q2 b2).
Proof.
  intros H1 H2 w w' ([] & w1 & Hw1 & Hw2)%bind_ok_inv.
  destruct (H1 _ _ Hw1) as (b1 & E1 & HQ1). destruct (H2 _ _ Hw2) as (b2 & E2 & HQ2).
  exists (b1 ++ b2). rewrite E2, E1, app_assoc. eauto 6.
Qed.
Lemma writes_weaken c (Q Q' : list Z -> Prop) : writes c Q -> (forall bs, Q bs -> Q' bs) -> writes c Q'.
Proof. intros H HQ w w' Hw. destruct (H _ _ Hw) as (bs & E & Hb). eauto. Qed.
Lemma writes_nil : writes (mret tt) (fun bs => bs = []).
Proof. intros w w' [= <-]. exists []. by rewrite app_nil_r. Qed.
Lemma writes_bytes bs : writes (Bwrite bs) (fun b => b = bs).
Proof. intros w w' [= <-]. by exists bs. Qed.
Lemma writes_word v : writes (w_word v) (fun b => b = disword v).
Proof. apply writes_bytes. Qed.
Lemma writes_con v : con_ok v = true ->
  writes (w_con v) (fun b => forall rest, operand (b ++ rest) = Some (v, rest)).
Proof.
  intros Hv w w' Hw. apply w_con_ok in Hw as (c & Hc & [= <-]). exists c. split; [done|].
  intros rest. unfold con_ok in Hv. apply operand_discon; [lia|done].
Qed.

Lemma writes_zero : writes (w_con 0) (fun b => b = [0]).
Proof. intros w w' [= <-]. by exists [0]. Qed.

Lemma cstring_name s rest : name_ok s = true -> cstring (s ++ 0 :: rest) = Some (s, rest).
Proof.
  induction s as [|b s IH]; intros Hs; [done|]. cbn in *. apply andb_true_iff in Hs as [Hb Hs].
  destruct (b =? 0); [done|]. cbn. by rewrite IH.
Qed.
Lemma name_ok_app s t : name_ok (s ++ t) = name_ok s && name_ok t.
Proof. apply forallb_app. Qed.
Lemma qualified_ok adt name : opt_name_ok adt = true -> name_ok name = true -> name_ok (qualified adt name) = true.
Proof.
  unfold qualified. intros Ha Hn. rewrite name_ok_app. destruct adt as [s|]; cbn in *; [|done].
  by rewrite name_ok_app, Ha, Hn.
Qed.

#[local] Arguments operand : simpl never.
#[local] Arguments disword : simpl never.
#[local] Arguments disw : simpl never.

(** Boolean conditions as propositions. *)
Ltac to_props H := rewrite ?andb_true_iff, ?Z.leb_le, ?Z.ltb_lt, ?Z.eqb_eq in H.
Ltac to_bools := unfold con_ok; rewrite ?andb_true_iff, ?Z.leb_le, ?Z.ltb_lt.

(** Take a written section apart. *)
Ltac sections :=
  cbv beta zeta in *;
  repeat match goal with
  | H : exists _, _ |- _ => destruct H
  | H : _ /\ _ |- _ => destruct H
  end; cbv beta zeta in *; subst.
Ltac reading :=
  repeat first [progress rewrite <- ?app_assoc
    | match goal with H : forall rest, _ = Some (_, rest) |- _ => rewrite H; cbn [need mbind parsed_bind] end
    | match goal with H : forall rest, _ = inr (_, rest) |- _ => rewrite H; cbn [need mbind parsed_bind] end
    | rewrite disw_disword; cbn [need mbind parsed_bind]].

(** Decide the tests the hypotheses decide. *)
Ltac tests :=
  repeat match goal with
  | |- context [?a <? ?b] => destruct (Z.ltb_spec a b); [try lia|try lia]
  | |- context [?a <=? ?b] => destruct (Z.leb_spec a b); [try lia|try lia]
  | |- context [?a =? ?b] => destruct (Z.eqb_spec a b); [try lia|try lia]
  end; cbn [orb andb negb].

Lemma get_bytes_app n bs rest : n = Z.of_nat (length bs) -> get_bytes n (bs ++ rest) = Some (bs, rest).
Proof.
  intros ->. unfold get_bytes. rewrite length_app. tests.
  by rewrite Nat2Z.id, take_app_length, drop_app_length.
Qed.

Lemma writes_desc hsize ds :
  forallb (desc_ok hsize) ds = true -> con_ok hsize = true ->
  writes (disdesc ds) (fun bs => forall ts rest,
    parse_types (length ds) hsize ts (bs ++ rest) =
      inr (foldl (fun ts d => <[Z.to_nat (ld_id d) := Some (load_desc d)]> ts) ts ds, rest)).
Proof.
  intros Hds Hh. induction ds as [|d ds IH]; cbn in Hds.
  { eapply writes_weaken; [apply writes_nil|]. by intros bs ->. }
  apply andb_true_iff in Hds as [Hd Hds]. unfold desc_ok, nat_con, con_ok in Hd, Hh.
  to_props Hd. to_props Hh.
  eapply writes_weaken; [cbn [disdesc]|].
  - eapply writes_seq; [apply writes_con; to_bools; lia|].
    eapply writes_seq; [apply writes_con; to_bools; lia|].
    eapply writes_seq; [apply writes_con; to_bools; lia|].
    eapply writes_seq; [apply writes_bytes|]. by apply IH.
  - cbn beta. intros bs Hbs ts rest. sections. cbn [length parse_types].
    reading. tests. rewrite get_bytes_app by done. cbn. tests. by rewrite H7.
Qed.

Lemma writes_name s : name_ok s = true ->
  writes (Bwrite s ;; Bwrite [0]) (fun bs => forall rest, cstring (bs ++ rest) = Some (s, rest)).
Proof.
  intros Hs. eapply writes_weaken; [apply writes_seq; apply writes_bytes|].
  intros bs Hbs rest. sections. rewrite <- app_assoc. by apply cstring_name.
Qed.
Lemma writes_qualified adt name :
  opt_name_ok adt = true -> name_ok name = true ->
  writes (Bwrite (match adt with Some s => s ++ [46] | None => [] end) ;; Bwrite name ;; Bwrite [0])
    (fun bs => forall rest, cstring (bs ++ rest) = Some (qualified adt name, rest)).
Proof.
  intros Ha Hn. eapply writes_weaken; [repeat (eapply writes_seq; [apply writes_bytes|]); apply writes_bytes|].
  intros bs Hbs rest. sections. rewrite <- (cstring_name (qualified adt name)) by by apply qualified_ok.
  unfold qualified. by rewrite <- !app_assoc.
Qed.

Lemma writes_links ts ls :
  forallb link_ok ls = true ->
  writes (dislinks ls) (fun bs => forall rest,
    parse_links (length ls) ts (bs ++ rest) = inr (load_link ts <$> ls, rest)).
Proof.
  induction ls as [|l ls IH]; intros Hls.
  { eapply writes_weaken; [apply writes_nil|]. by intros bs ->. }
  cbn in Hls. apply andb_true_iff in Hls as [Hl Hls].
  eapply writes_weaken; [eapply writes_seq; [|by apply IH]|].
  - instantiate (1 := fun bs => exists b1 b2 b3 b4, bs = b1 ++ b2 ++ b3 ++ b4 /\
      let k := load_link ts l in
      (exists de, (forall rest, operand (b1 ++ rest) = Some (k_pc k, rest)) /\
      (forall rest, operand (b2 ++ rest) = Some (de, rest)) /\
      k_frame k = (if de =? -1 then Some None else type_slot ts de)) /\
      (forall rest, disw (b3 ++ rest) = Some (k_sig k, rest)) /\
      (forall rest, cstring (b4 ++ rest) = Some (k_name k, rest))).
    destruct l as [sign|pc desc sign adt name].
    + eapply writes_weaken; [unfold dislink|].
      * eapply writes_seq; [by apply writes_con|]. eapply writes_seq; [by apply writes_con|].
        eapply writes_seq; [by apply writes_word|]. by apply writes_name.
      * intros bs Hbs. sections. do 4 eexists. split; [reflexivity|]. cbn. split_and!; eauto using disw_disword.
    + cbn [link_ok] in Hl. unfold nat_con in Hl. rewrite !andb_true_iff in Hl.
      destruct Hl as [[[Hpc [H0 Hdesc]] Hadt] Hname]. apply Z.leb_le in H0.
      eapply writes_weaken; [unfold dislink|].
      * eapply writes_seq; [by apply writes_con|]. eapply writes_seq; [by apply writes_con|].
        eapply writes_seq; [by apply writes_word|]. by apply writes_qualified.
      * intros bs Hbs. sections. do 4 eexists. split; [reflexivity|]. cbn.
        split_and!; eauto using disw_disword. exists desc. split_and!; auto.
        destruct (Z.eqb_spec desc (-1)); [lia|done].
  - intros bs Hbs rest. sections. cbn [length parse_links]. reading.
    match goal with H : k_frame _ = _ |- _ => rewrite <- H end.
    cbn [fmap list_fmap]. by destruct (load_link ts l).
Qed.

Lemma writes_imports ids :
  forallb import_ok ids = true ->
  writes (disimports ids) (fun bs => forall rest,
    parse_imports (length ids) (bs ++ rest) = inr (load_import <$> ids, rest)).
Proof.
  induction ids as [|id ids IH]; intros Hok.
  { eapply writes_weaken; [apply writes_nil|]. by intros bs ->. }
  cbn in Hok. apply andb_true_iff in Hok as [Hid Hok]. unfold import_ok in Hid.
  apply andb_true_iff in Hid as [Ha Hn].
  eapply writes_weaken; [eapply writes_seq; [|by apply IH]|].
  - eapply writes_seq; [apply writes_word|]. by apply writes_qualified.
  - intros bs Hbs rest. sections. cbn [length parse_imports]. by reading.
Qed.

Lemma writes_ldts ds :
  forallb ldt_ok ds = true ->
  writes (disldts ds) (fun bs => forall rest,
    parse_ldts (length ds) (bs ++ rest) = inr ((fun d : Z * list IfaceFn => load_import <$> d.2) <$> ds, rest)).
Proof.
  induction ds as [|[val ids] ds IH]; intros Hok.
  { eapply writes_weaken; [apply writes_nil|]. by intros bs ->. }
  cbn in Hok. apply andb_true_iff in Hok as [Hd Hok]. unfold ldt_ok in Hd. cbn in Hd.
  apply andb_true_iff in Hd as [Hd Hids]. apply andb_true_iff in Hd as [Hv%Z.eqb_eq Hcon].
  eapply writes_weaken; [cbn [disldts]; eapply writes_seq; [by apply writes_con|]; eapply writes_seq|].
  - by apply writes_imports.
  - by apply IH.
  - intros bs Hbs rest. sections. cbn [length parse_ldts]. reading. rewrite Nat2Z.id. by reading.
Qed.

Lemma writes_exclabs ls :
  forallb (fun l : list Z * Z => name_ok l.1 && con_ok l.2) ls = true ->
  writes (disexclabs ls) (fun bs => forall rest,
    parse_etab (length ls) (bs ++ rest) = inr ((fun l : list Z * Z => mkExcept l.1 l.2) <$> ls, rest)).
Proof.
  induction ls as [|[name pc] ls IH]; intros Hok.
  { eapply writes_weaken; [apply writes_nil|]. by intros bs ->. }
  cbn in Hok. rewrite !andb_true_iff in Hok. destruct Hok as [[Hn Hpc] Hok].
  eapply writes_weaken; [cbn [disexclabs]|].
  - eapply writes_seq; [apply writes_bytes|]. eapply writes_seq; [apply writes_bytes|].
    eapply writes_seq; [by apply writes_con|]. by apply IH.
  - intros bs Hbs rest. sections. cbn [length parse_etab].
    rewrite <- !app_assoc. cbn [app]. rewrite cstring_name by done. cbn [need mbind parsed_bind]. by reading.
Qed.

Lemma exc_count n ne : 0 <= n < 65536 -> 0 <= ne ->
  Z.lor n (Z.shiftl ne 16) = ne * 65536 + n /\
  Z.shiftr (Z.lor n (Z.shiftl ne 16)) 16 = ne /\ Z.land (Z.lor n (Z.shiftl ne 16)) 65535 = n.
Proof.
  intros Hn Hne. rewrite Z.lor_comm, lor_shiftl by (change (2 ^ 16) with 65536; lia).
  change (2 ^ 16) with 65536. change 65535 with (Z.ones 16).
  rewrite Z.shiftr_div_pow2, Z.land_ones by lia. change (2 ^ 16) with 65536.
  split_and!; Z.div_mod_to_equations; lia.
Qed.

Lemma writes_excs ts es :
  forallb exc_ok (filter (fun e => le_reach e = true) es) = true ->
  writes (disexcs es) (fun bs => forall nvar rest, nvar <> -1 ->
    parse_handlers (length (filter (fun e => le_reach e = true) es)) nvar ts (bs ++ rest) =
      inr (load_exc ts <$> filter (fun e => le_reach e = true) es, rest)).
Proof.
  induction es as [|e es IH]; intros Hok.
  { eapply writes_weaken; [apply writes_nil|]. by intros bs ->. }
  cbn [disexcs]. destruct (le_reach e) eqn:Er; cbn [negb].
  2:{ rewrite filter_cons_False in * by congruence. by apply IH. }
  rewrite filter_cons_True in * by done. cbn [forallb] in Hok.
  apply andb_true_iff in Hok as [He Hok]. unfold exc_ok in He. rewrite !andb_true_iff in He.
  destruct He as [[[[[[[[Ho Hp1] Hp2] Hd] Hnl%Z.ltb_lt] Hne0%Z.leb_le] Hne%Z.ltb_lt] Hlabs] Hw].
  destruct (exc_count (Z.of_nat (length (le_labs e))) (le_ne e)) as (Ec & Ec1 & Ec2); [lia..|].
  eapply writes_weaken; [eapply writes_seq; [unfold disexc1|by apply IH]|].
  - eapply writes_seq; [by apply writes_con|]. eapply writes_seq; [by apply writes_con|].
    eapply writes_seq; [by apply writes_con|].
    eapply (writes_seq _ _ (fun b => forall rest, operand (b ++ rest) = Some (exc_desc e, rest))).
    { unfold exc_desc in *. destruct (le_desc e); by apply writes_con. }
    eapply writes_seq; [apply writes_con; rewrite Ec; to_bools; lia|].
    eapply writes_seq; [by apply writes_exclabs|by apply writes_con].
  - intros bs Hbs nvar rest Hnv. sections. cbn [length parse_handlers]. reading.
    rewrite Ec1, Ec2, Nat2Z.id. reading.
    destruct (Z.eqb_spec nvar (-1)); [done|]. cbn [negb].
    match goal with H : forall nvar rest, _ -> _ |- _ => rewrite H by lia end. done.
Qed.

Lemma writes_insts prog nprog ins :
  forallb (inst_ok nprog) (filter (fun i => li_op i <> INOOP) ins) = true ->
  writes (w_inst ins) (fun bs => forall rest,
    parse_insts (length (filter (fun i => li_op i <> INOOP) ins)) prog nprog (bs ++ rest) =
      inr (load_inst prog <$> filter (fun i => li_op i <> INOOP) ins, rest)).
Proof.
  intros Hok w w'. unfold w_inst. destruct (disinst ins) as [bs|] eqn:E; [|done].
  intros [= <-]. exists bs. split; [done|]. intros rest. apply disinst_run; [|done].
  apply Forall_forall. intros i Hi Hne. rewrite forallb_forall in Hok. apply Hok.
  apply list_elem_of_In, list_elem_of_filter. split; [done|]. by apply list_elem_of_In.
Qed.

Lemma writes_disvar mtype ds l l' :
  forallb item_ok (decls_items ds) = true ->
  apply_items mtype (decls_items ds) l = inr l' ->
  writes (disvar ds) (fun bs => forall rest, parse_data mtype l (bs ++ rest) = inr (l', rest)).
Proof. intros Hok Ha w w' Hw. by eapply disvar_run. Qed.

Lemma parse_name_ok name rest :
  name_ok name = true -> parse_name ((take 63 name ++ [0]) ++ rest) = inr (take 63 name, rest).
Proof.
  intros Hn. unfold parse_name. rewrite <- app_assoc. cbn [app].
  assert (Hn' : name_ok (take 63 name) = true).
  { rewrite <- (take_drop 63 name), name_ok_app in Hn. by apply andb_true_iff in Hn as [? _]. }
  rewrite cstring_name by done.
  replace (forallb _ (take 128 _)) with false; [done|]. symmetry.
  apply not_true_is_false. rewrite forallb_forall. intros H. specialize (H 0). cbn in H.
  apply diff_false_true, H, list_elem_of_In, list_elem_of_lookup.
  exists (length (take 63 name)). rewrite lookup_take_lt by (rewrite length_take; lia).
  rewrite lookup_app_r by lia. by rewrite Nat.sub_diag.
Qed.

Lemma hints_bits m :
  con_ok (hints m) = true /\ (Z.land (hints m) HASLDT0 =? 0) = true /\
  negb (Z.land (hints m) HASLDT =? 0) = lm_LDT m /\
  negb (Z.land (hints m) HASEXCEPT =? 0) = match lm_excs m with [] => false | _ => true end.
Proof. unfold hints. by destruct (lm_mustcompile m), (lm_dontcompile m), (lm_LDT m), (lm_excs m). Qed.

Lemma writes_when b c Q : (b = true -> writes c Q) ->
  writes (when b c) (fun bs => if b then Q bs else bs = []).
Proof. destruct b; intros Hc; [by apply Hc|apply writes_nil]. Qed.

Lemma writes_header m :
  mod_ok m = true ->
  writes (modheader m)
    (fun bs => forall rest, parse_header (bs ++ rest) =
      inr (mkHeader (hints m) (lm_maxstack m) (lm_ninst m) (lm_offset m) (lm_ndesc m) (lm_nlink m)
                    (entry_of m).1 (entry_of m).2, rest)).
Proof.
  unfold mod_ok. intros Hok. rewrite !andb_true_iff in Hok. unfold nat_con in Hok. rewrite !andb_true_iff in Hok.
  destruct_and! Hok. destruct (hints_bits m) as [Hh _].
  eapply writes_weaken.
  - do 6 (eapply writes_seq; [by apply writes_con|]).
    instantiate (1 := fun bs => exists b1 b2, bs = b1 ++ b2 /\
      (forall rest, operand (b1 ++ rest) = Some ((entry_of m).1, rest)) /\
      (forall rest, operand (b2 ++ rest) = Some ((entry_of m).2, rest))).
    unfold entry_of in *. destruct (lm_entry m) as [[pc desc]|];
      (eapply writes_weaken; [eapply writes_seq; by apply writes_con|]; intros bs Hbs; sections; eauto 6).
  - intros bs Hbs rest. sections. unfold parse_header. reading.
    repeat match goal with H : (0 <=? _) = true |- _ => apply Z.leb_le in H end. by tests.
Qed.

Lemma origmp_ok m :
  mod_ok m = true ->
  origmp (lm_offset m) (load_types (lm_ndesc m) (lm_descs m)) = inr (mkLS (0%nat, 0) [] [] [0]).
Proof.
  unfold mod_ok. intros Hok. rewrite !andb_true_iff in Hok. destruct_and! Hok. unfold origmp.
  destruct (lm_offset m =? 0); [done|]. cbn [orb] in *.
  destruct (type_slot _ 0) as [[d|]|]; try done. by match goal with H : (d_size d =? _) = true |- _ => rewrite H end.
Qed.

Lemma writes_ldt_section m :
  mod_ok m = true ->
  writes (when (lm_LDT m) (disldt (lm_ldts m))) (fun bs => forall rest,
    parse_ldt (hints m) (bs ++ rest) =
      inr (if lm_LDT m then (fun d : Z * list IfaceFn => load_import <$> d.2) <$> lm_ldts m else [], rest)).
Proof.
  unfold mod_ok. intros Hok. rewrite !andb_true_iff in Hok. destruct_and! Hok.
  destruct (hints_bits m) as (_ & _ & Hl & _).
  eapply writes_weaken; [apply writes_when; intros _; unfold disldt|].
  - eapply writes_seq; [by apply writes_con|]. eapply writes_seq; [by apply writes_ldts|apply writes_zero].
  - intros bs Hbs rest. unfold parse_ldt. rewrite Hl. destruct (lm_LDT m); [|by subst].
    sections. reading. rewrite Nat2Z.id. by reading.
Qed.

Lemma writes_exc_section m nvar ts :
  mod_ok m = true -> nvar <> -1 ->
  writes (when (match lm_excs m with [] => false | _ => true end) (disexc (lm_excs m)))
    (fun bs => forall rest,
      parse_exc nvar (hints m) ts (bs ++ rest) = inr (load_exc ts <$> reachable m, rest)).
Proof.
  unfold mod_ok. intros Hok Hn. rewrite !andb_true_iff in Hok. destruct_and! Hok.
  destruct (hints_bits m) as (_ & _ & _ & He).
  eapply writes_weaken; [apply writes_when; intros _; unfold disexc|].
  - eapply writes_seq; [by apply writes_con|].
    eapply writes_seq; [by apply writes_excs|apply writes_zero].
  - intros bs Hbs rest. unfold parse_exc. rewrite He. unfold reachable.
    destruct (lm_excs m) as [|e es]; [by subst|].
    sections. reading. rewrite Nat2Z.id.
    match goal with H : forall nvar rest, _ -> _ |- _ => rewrite H by done end. reading. done.
Qed.

(** Where nothing asks for native code the module stays as it is. *)
Lemma compiled_not (cflag dontcompile : bool) (compile : Mod -> option Mod) prog m l :
  dontcompile = true \/ (if cflag then lm_dontcompile m = true else lm_mustcompile m = false) ->
  compiled cflag dontcompile compile (load_module prog m l) = inr (load_module prog m l).
Proof.
  unfold compiled. change (m_rt (load_module prog m l)) with (hints m). unfold hints.
  intros [->|Hc]; [rewrite !andb_false_r; by destruct cflag|].
  destruct cflag; [rewrite Hc; by destruct (lm_mustcompile m), (lm_LDT m), (lm_excs m)|].
  rewrite Hc. by destruct (lm_dontcompile m), (lm_LDT m), (lm_excs m).
Qed.

(** C1. Object files round-trip: from whatever module limbo writes successfully,
    with numbers that fit the operands of the format and counts that are those of the
    lists ([mod_ok]), parsemod, which asks for no signature and has the memory it
    needs, rebuilds the module: the hints and stack size, every instruction with its
    branches resolved, the type descriptors under their numbers, the module data
    exactly as the initialisers mean, the (possibly shortened) module name, every link,
    import table and reachable exception handler, and the entry point, with only the
    path left unread.  That module it gives to the native code generator, when the
    emulator's flag or the module's hint asks for that, and refuses it if one that must
    be compiled is not; when neither asks, it is what parsemod returns. *)
Theorem modcom_parsemod m vs prog nvar (cflag dontcompile : bool) (compile : Mod -> option Mod) w w' l :
  mod_ok m = true -> nvar <> -1 ->
  modcom m w = Ok tt w' ->
  apply_items (load_types (lm_ndesc m) (lm_descs m)) (decls_items (lm_globals m))
    (mkLS (0%nat, 0) [] [] [0]) = inr l ->
  exists bs, bout w' = bout w ++ bs /\
    parsemod false vs prog nvar cflag dontcompile compile bs =
      (m' ← compiled cflag dontcompile compile (load_module prog m l); (inr (m', lm_path m ++ [0]) : parsed (Mod * list Z))) /\
    (dontcompile = true \/ (if cflag then lm_dontcompile m = true else lm_mustcompile m = false) ->
      parsemod false vs prog nvar cflag dontcompile compile bs = inr (load_module prog m l, lm_path m ++ [0])).
Proof.
  intros Hok Hn Hw Ha.
  pose proof (writes_header m Hok) as H1. pose proof (origmp_ok m Hok) as Hmp.
  pose proof (writes_ldt_section m Hok) as H2.
  pose proof (writes_exc_section m nvar (load_types (lm_ndesc m) (lm_descs m)) Hok Hn) as H3.
  destruct (hints_bits m) as (_ & Hh0 & _ & _).
  unfold mod_ok, nat_con in Hok. rewrite !andb_true_iff in Hok. destruct_and! Hok.
  assert (Hall : writes (modcom m) (fun bs => 
    parsemod false vs prog nvar cflag dontcompile compile bs =
      (m' ← compiled cflag dontcompile compile (load_module prog m l); (inr (m', lm_path m ++ [0]) : parsed (Mod * list Z))))).
  { eapply writes_weaken; [unfold modcom|].
    - eapply writes_seq; [by apply writes_con|]. eapply writes_seq; [exact H1|].
      eapply writes_seq; [by apply (writes_insts prog)|].
      eapply writes_seq; [by apply (writes_desc (lm_ndesc m))|].
      eapply writes_seq; [by eapply writes_disvar|].
      eapply writes_seq; [unfold dismod; eapply writes_seq; [apply writes_bytes|];
        by apply (writes_links (load_types (lm_ndesc m) (lm_descs m)))|].
      eapply writes_seq; [exact H2|]. eapply writes_seq; [exact H3|]. apply writes_bytes.
    - intros bs Hbs. sections. unfold parsemod, parse_magic.
      match goal with H : forall rest, operand _ = Some (XMAGIC, rest) |- _ => rewrite H end.
      cbn [need mbind parsed_bind].
      rewrite (eq_refl : (XMAGIC =? SMAGIC) = false), (eq_refl : (XMAGIC =? XMAGIC) = true).
      cbn [mbind parsed_bind]. reading. cbn [hd_isize hd_hsize hd_rt hd_ss hd_dsize hd_lsize hd_entry hd_entryt].
      repeat match goal with H : (_ =? Z.of_nat _) = true |- _ => apply Z.eqb_eq in H end.
      match goal with H : lm_ninst m = _ |- _ => replace (Z.to_nat (lm_ninst m)) with (length (real_insts m)) by lia end.
      unfold real_insts. reading. fold (real_insts m).
      replace (Z.to_nat (lm_ndesc m)) with (length (lm_descs m)) by lia.
      match goal with H : forall ts rest, parse_types _ _ _ _ = _ |- _ => rewrite H end.
      cbn [mbind parsed_bind].
      replace (foldl _ _ (lm_descs m)) with (load_types (lm_ndesc m) (lm_descs m))
        by (unfold load_types; do 2 f_equal; lia).
      rewrite Hmp. cbn [mbind parsed_bind]. reading.
      change (Z.to_nat (NAMELEN - 1)) with 63%nat.
      rewrite app_assoc, parse_name_ok by done. cbn [mbind parsed_bind].
      replace (Z.to_nat (lm_nlink m)) with (length (lm_links m)) by lia. reading.
      rewrite Hh0. cbn [negb]. reading.
      repeat match goal with H : (_ <? _) = true |- _ => rewrite H end. done. }
  destruct (Hall _ _ Hw) as (bs & Eb & Hp). exists bs. split; [done|]. split; [done|].
  intros Hc. by rewrite Hp, compiled_not.
Qed.

(** ** An instance *)

Definition demo_module : LModule :=
  mkLModule false true true 80 2 56 2 2 (Some (0, 1)) demo_code
    [mkLDesc 0 56 1 [36]; mkLDesc 1 8 0 []] demo_globals [77; 111; 100]
    [LFn 0 1 305419896 None [105; 110; 105; 116]; LGlobal (-1)]
    [(1, [mkIfaceFn 7 (Some [65]) [102]])]
    [mkLExc true 24 0 1 (Some 1) 1 [([102; 97; 105; 108], 1)] None] [47; 109].

Example modcom_parsemod_witness :
  exists bs m, parsemod false (fun _ _ => false) 65536 0 false false (fun _ => None) bs = inr (m, [47; 109; 0]) /\
    m_entry m = 0 /\ m_name m = [77; 111; 100] /\ m_ldt m = [[(7, [65; 46; 102])]] /\
    m_prog m = [mkInst 58 77 65534 8 (16 + 4 * M16); mkInst 13 26 0 0 65536].
Proof.
  edestruct (modcom_parsemod demo_module (fun _ _ => false) 65536 0 false false (fun _ => None) ws0) as (bs & _ & _ & H);
    [vm_compute; reflexivity|lia|vm_compute; reflexivity|vm_compute; reflexivity|].
  exists bs. eexists. split; [apply H; by right|]. split_and!; vm_compute; reflexivity.
Defined.
