(* ===== verification/Utf.v ===== *)
(** * UTF-8 (lib9/rune.c and lib9/utf*.c)

    A byte string is the list of the bytes from the pointer to the end of the
    object it points into; reading past the end is [None].  Runes are 32-bit
    unsigned. *)

From S2P Require Import Prelude.

(** ** Constants (lib9.h, rune.c) *)

Definition UTFmax : Z := 4.
Definition Runesync : Z := 128.
Definition Runeself : Z := 128.
Definition Runeerror : Z := 65533.
Definition Runemax : Z := 1114111.
Definition Bit (i : Z) : Z := 7 - i.
Definition Bitx : Z := Bit 1.
(** N 0's preceded by i 1's *)
Definition T (i : Z) : Z := Z.lxor (Z.shiftl 1 (Bit i + 1) - 1) 255.
Definition RuneX (i : Z) : Z := Z.shiftl 1 (Bit i + (i - 1) * Bitx) - 1.
Definition Tx : Z := T 1.
Definition Rune1 : Z := Z.shiftl 1 (Bit 0 + 0 * Bitx) - 1.
Definition Maskx : Z := Z.shiftl 1 Bitx - 1.
Definition Testx : Z := Z.lxor Maskx 255.
Definition SurrogateMin : Z := 55296.
Definition SurrogateMax : Z := 57343.
Definition surrogate (c : Z) : bool := (SurrogateMin <=? c) && (c <=? SurrogateMax).

(** ** Decoding and encoding *)

(** The loop of chartorune from index [i] on; [p] is [str+i]. *)
Fixpoint chartorune_loop (n : nat) (i c0 l : Z) (p : list Z) : option (Z * Z) :=
  match n with
  | O => Some (Runeerror, 1)
  | S n =>
      match p with
      | [] => None
      | b :: p =>
          let ci := Z.lxor b Tx in
          if negb (Z.land ci Testx =? 0) then Some (Runeerror, 1)
          else
            let l := u32 (Z.lor (Z.shiftl l Bitx) ci) in
            if c0 <? T (i + 2) then
              let l := Z.land l (RuneX (i + 1)) in
              if i =? 1 then
                if (c0 <? T 2) || (l <=? Rune1) then Some (Runeerror, 1) else Some (l, i + 1)
              else if (l <=? RuneX i) || (Runemax <? l) then Some (Runeerror, 1)
              else if (i =? 2) && surrogate l then Some (Runeerror, 1)
              else Some (l, i + 1)
            else chartorune_loop n (i + 1) c0 l p
      end
  end.

(** The rune and the number of bytes it takes. *)
Definition chartorune (str : list Z) : option (Z * Z) :=
  match str with
  | [] => None
  | c0 :: p => if c0 <? Tx then Some (c0, 1) else chartorune_loop 3 1 c0 c0 p
  end.

(** [for(j = 1; j < i; j++) str[j] = Tx | ((c >> (i - j - 1)*Bitx) & Maskx);] *)
Definition cont_bytes (i c : Z) : list Z :=
  (fun j => u8 (Z.lor Tx (Z.land (Z.shiftr c ((i - j - 1) * Bitx)) Maskx))) <$> seqZ 1 (i - 1).

Fixpoint runetochar_loop (n : nat) (i c : Z) : list Z :=
  match n with
  | O => []
  | S n =>
      let c := if i =? 3 then
                 let c := if Runemax <? c then Runeerror else c in
                 if surrogate c then Runeerror else c
               else c in
      if (c <=? RuneX i) || (i =? UTFmax)
      then u8 (Z.lor (T i) (Z.shiftr c ((i - 1) * Bitx))) :: cont_bytes i c
      else runetochar_loop n (i + 1) c
  end.

(** The bytes stored; their number is the result of the function. *)
Definition runetochar (c : Z) : list Z :=
  if c <=? Rune1 then [u8 c] else runetochar_loop 3 2 c.

(** The argument is a [long], converted to a Rune. *)
Definition runelen (c : Z) : Z := Z.of_nat (length (runetochar (u32 c))).

Fixpoint runenlen_loop (n : nat) (i c : Z) : Z :=
  match n with
  | O => 0
  | S n => if (c <=? RuneX i) || (i =? UTFmax) then i else runenlen_loop n (i + 1) c
  end.
Fixpoint runenlen (r : list Z) : Z :=
  match r with
  | [] => 0
  | c :: r => (if c <=? Rune1 then 1 else runenlen_loop 3 2 c) + runenlen r
  end.

Fixpoint fullrune_loop (k : nat) (i c n : Z) : bool :=
  match k with
  | O => UTFmax <=? n
  | S k => if c <? T i then i - 1 <=? n else fullrune_loop k (i + 1) c n
  end.
Definition fullrune (str : list Z) (n : Z) : option bool :=
  if n <=? 0 then Some false
  else match str with
       | [] => None
       | c :: _ => Some (if c <? Tx then true else fullrune_loop 2 3 c n)
       end.

(** ** Strings *)

(** Fuel: every iteration but the last consumes a byte. *)
Fixpoint utflen_loop (fuel : nat) (n : Z) (s : list Z) : option Z :=
  match fuel with
  | O => None
  | S fuel =>
      match s with
      | [] => None
      | c :: s' =>
          if c <? Runeself then if c =? 0 then Some n else utflen_loop fuel (n + 1) s'
          else '(_, k) ← chartorune s; utflen_loop fuel (n + 1) (drop (Z.to_nat k) s)
      end
  end.
Definition utflen (s : list Z) : option Z := utflen_loop (S (length s)) 0 s.

(** [m] counts the bytes left up to [es]. *)
Fixpoint utfnlen_loop (fuel : nat) (n m : Z) (s : list Z) : option Z :=
  match fuel with
  | O => None
  | S fuel =>
      if m <=? 0 then Some n
      else match s with
      | [] => None
      | c :: s' =>
          if c <? Runeself then if c =? 0 then Some n else utfnlen_loop fuel (n + 1) (m - 1) s'
          else
            b ← fullrune s m;
            if negb b then Some n
            else '(_, k) ← chartorune s; utfnlen_loop fuel (n + 1) (m - k) (drop (Z.to_nat k) s)
      end
  end.
Definition utfnlen (s : list Z) (m : Z) : option Z := utfnlen_loop (S (length s)) 0 m s.

(** The offset of the first occurrence; [Some None] is a null result. *)
Fixpoint strchr_loop (off : Z) (s : list Z) (c : Z) : option (option Z) :=
  match s with
  | [] => None
  | b :: s => if b =? c then Some (Some off) else if b =? 0 then Some None else strchr_loop (off + 1) s c
  end.
Fixpoint utfrune_loop (fuel : nat) (off : Z) (s : list Z) (c : Z) : option (option Z) :=
  match fuel with
  | O => None
  | S fuel =>
      match s with
      | [] => None
      | c1 :: s' =>
          if c1 <? Runeself then
            if c1 =? 0 then Some None
            else if c1 =? c then Some (Some off)
            else utfrune_loop fuel (off + 1) s' c
          else
            '(r, n) ← chartorune s;
            if r =? c then Some (Some off)
            else utfrune_loop fuel (off + n) (drop (Z.to_nat n) s) c
      end
  end.
(** strchr compares with [(char)c]. *)
Definition utfrune (s : list Z) (c : Z) : option (option Z) :=
  if c <? Runesync then strchr_loop 0 s (u8 c) else utfrune_loop (S (length s)) 0 s c.

Fixpoint utfrrune_loop (fuel : nat) (off : Z) (s1 : option Z) (s : list Z) (c : Z) : option (option Z) :=
  match fuel with
  | O => None
  | S fuel =>
      match s with
      | [] => None
      | c1 :: s' =>
          if c1 <? Runeself then
            if c1 =? 0 then Some s1
            else utfrrune_loop fuel (off + 1) (if c1 =? c then Some off else s1) s' c
          else
            '(r, n) ← chartorune s;
            utfrrune_loop fuel (off + n) (if r =? c then Some off else s1) (drop (Z.to_nat n) s) c
      end
  end.
Fixpoint strrchr_loop (off : Z) (s1 : option Z) (s : list Z) (c : Z) : option (option Z) :=
  match s with
  | [] => None
  | b :: s =>
      let s1 := if b =? c then Some off else s1 in
      if b =? 0 then Some s1 else strrchr_loop (off + 1) s1 s c
  end.
Definition utfrrune (s : list Z) (c : Z) : option (option Z) :=
  if c <? Runesync then strrchr_loop 0 None s (u8 c) else utfrrune_loop (S (length s)) 0 None s c.

(** memccpy(to, from, '\0', n): the bytes copied, and whether the NUL was one
    of them. *)
Fixpoint memccpy0 (n : nat) (from : list Z) : option (list Z * bool) :=
  match n with
  | O => Some ([], false)
  | S n =>
      match from with
      | [] => None
      | b :: from => if b =? 0 then Some ([0], true)
                     else '(bs, f) ← memccpy0 n from; Some (b :: bs, f)
      end
  end.

(** [while(end>to && ( *--end&0xC0)==0x80);] from the offset [e] down: the
    offset where it stops. *)
Fixpoint back_up (to : list Z) (e : nat) : nat :=
  match e with
  | O => O
  | S e => if Z.land (nth e to 0) 192 =? 128 then back_up to e else e
  end.

(** The first [n = e - to] bytes of [to] after the call, and the offset of the
    result; [None]: [from] is read past its end. *)
Definition utfecpy (to : list Z) (n : Z) (from : list Z) : option (list Z * Z) :=
  if n <=? 0 then Some (to, 0)
  else
    '(bs, found) ← memccpy0 (Z.to_nat n) from;
    let to := bs ++ drop (length bs) to in
    if (found : bool) then Some (to, Z.of_nat (length bs) - 1)
    else
      let e := back_up to (Z.to_nat n) in
      Some (<[e := 0]> to, Z.of_nat e).

(** ** Arithmetic of the encoding *)

Definition is_cont (b : Z) : bool := (128 <=? b) && (b <? 192).

Lemma cont_test b : is_byte b ->
  (Z.land (Z.lxor b Tx) Testx =? 0) = is_cont b /\ (is_cont b = true -> Z.lxor b Tx = b - 128).
Proof.
  intros Hb.
  assert (E : Bool.eqb (Z.land (Z.lxor b Tx) Testx =? 0) (is_cont b) && (negb (is_cont b) || (Z.lxor b Tx =? b - 128)) = true).
  { revert b Hb. unfold is_byte. apply (forall_range (fun b => _)). by vm_compute. }
  apply andb_true_iff in E as [E1 E2]. apply eqb_prop in E1. split; [done|].
  intros Hc. rewrite Hc in E2. cbn in E2. lia.
Qed.

(** The loop with the bit operations read as arithmetic. *)
Fixpoint decode (n : nat) (i c0 l : Z) (p : list Z) : option (Z * Z) :=
  match n with
  | O => Some (Runeerror, 1)
  | S n =>
      match p with
      | [] => None
      | b :: p =>
          if negb (is_cont b) then Some (Runeerror, 1)
          else
            let l := l * 64 + (b - 128) in
            if c0 <? T (i + 2) then
              let l := l mod (RuneX (i + 1) + 1) in
              if i =? 1 then
                if (c0 <? 192) || (l <=? 127) then Some (Runeerror, 1) else Some (l, i + 1)
              else if (l <=? RuneX i) || (Runemax <? l) then Some (Runeerror, 1)
              else if (i =? 2) && surrogate l then Some (Runeerror, 1)
              else Some (l, i + 1)
            else decode n (i + 1) c0 l p
      end
  end.

Lemma RuneX_ones i : 1 <= i <= 4 -> RuneX i = Z.ones (Bit i + (i - 1) * Bitx) /\ 0 <= Bit i + (i - 1) * Bitx.
Proof.
  intros Hi. assert (i = 1 \/ i = 2 \/ i = 3 \/ i = 4) as [->|[->|[->| ->]]] by lia; done.
Qed.

Lemma chartorune_loop_decode n i c0 l p :
  Forall is_byte p -> 1 <= i -> i + Z.of_nat n <= 4 -> 0 <= l < 64 ^ i * 4 ->
  chartorune_loop n i c0 l p = decode n i c0 l p.
Proof.
  intros Hp. revert i l. revert n. induction Hp as [|b p Hb Hp IH]; intros [|n] i l Hi Hn Hl; try done.
  cbn [chartorune_loop decode]. destruct (cont_test b Hb) as [E1 E2]. rewrite E1.
  destruct (is_cont b) eqn:Ec; cbn [negb]; [|done]. rewrite (E2 eq_refl).
  unfold is_cont in Ec. assert (Hb' : 0 <= b - 128 < 64) by lia.
  assert (Hl64 : 64 ^ i * 4 <= 64 ^ 3 * 4) by (apply Z.mul_le_mono_nonneg_r; [lia|apply Z.pow_le_mono_r; lia]).
  change (64 ^ 3 * 4) with 1048576 in Hl64.
  rewrite lor_shiftl by (try done; change (2 ^ Bitx) with 64; lia). change (2 ^ Bitx) with 64.
  assert (Eu : u32 (l * 64 + (b - 128)) = l * 64 + (b - 128)) by (apply Z.mod_small; unfold M32; lia).
  rewrite Eu. destruct (RuneX_ones (i + 1) ltac:(lia)) as [Er Hr].
  assert (Em : Z.land (l * 64 + (b - 128)) (RuneX (i + 1)) = (l * 64 + (b - 128)) mod (RuneX (i + 1) + 1)).
  { rewrite Er, Z.land_ones by done. f_equal. rewrite Z.ones_equiv. lia. }
  rewrite Em. change (T 2) with 192. change Rune1 with 127.
  case_match; [done|]. apply IH; [lia..|].
  rewrite Z.pow_add_r by lia. lia.
Qed.

Lemma chartorune_decode c0 p :
  is_byte c0 -> Forall is_byte p ->
  chartorune (c0 :: p) = if c0 <? 128 then Some (c0, 1) else decode 3 1 c0 c0 p.
Proof.
  intros Hc Hp. unfold chartorune. change Tx with 128. case_match; [done|].
  apply chartorune_loop_decode; [done|lia..|]. unfold is_byte, M8 in Hc. lia.
Qed.

Lemma cont_byte x : u8 (Z.lor Tx (Z.land x Maskx)) = 128 + x mod 64.
Proof.
  change Maskx with (Z.ones 6). rewrite Z.land_ones by lia. change (2 ^ 6) with 64.
  assert (H : 0 <= x mod 64 < 64) by (apply Z.mod_pos_bound; lia). revert H. generalize (x mod 64) as y.
  intros y Hy. apply Z.eqb_eq. revert y Hy. apply (forall_range (fun y => _)). by vm_compute.
Qed.
Lemma lead_byte i x : 2 <= i <= 4 -> 0 <= x < 2 ^ Bit i -> u8 (Z.lor (T i) x) = T i + x.
Proof.
  intros Hi Hx.
  assert (i = 2 \/ i = 3 \/ i = 4) as [->|[->| ->]] by lia; apply Z.eqb_eq; revert x Hx;
    apply (forall_range (fun x => _)); by vm_compute.
Qed.

(** A code point that can be encoded. *)
Definition valid_rune (c : Z) : bool := (0 <=? c) && (c <=? Runemax) && negb (surrogate c).

(** The encoding by ranges. *)
Definition utf8 (c : Z) : list Z :=
  if c <? 128 then [c]
  else if c <? 2048 then [192 + c / 64; 128 + c mod 64]
  else if c <? 65536 then [224 + c / 4096; 128 + (c / 64) mod 64; 128 + c mod 64]
  else [240 + c / 262144; 128 + (c / 4096) mod 64; 128 + (c / 64) mod 64; 128 + c mod 64].

Lemma cont_bytes_eq c : 0 <= c ->
  cont_bytes 2 c = [128 + c mod 64] /\
  cont_bytes 3 c = [128 + (c / 64) mod 64; 128 + c mod 64] /\
  cont_bytes 4 c = [128 + (c / 4096) mod 64; 128 + (c / 64) mod 64; 128 + c mod 64].
Proof.
  intros Hc. unfold cont_bytes.
  change (seqZ 1 (2 - 1)) with [1]. change (seqZ 1 (3 - 1)) with [1; 2]. change (seqZ 1 (4 - 1)) with [1; 2; 3].
  cbn [fmap list_fmap]. rewrite !cont_byte.
  change ((2 - 1 - 1) * Bitx) with 0. change ((3 - 1 - 1) * Bitx) with 6. change ((3 - 2 - 1) * Bitx) with 0.
  change ((4 - 1 - 1) * Bitx) with 12. change ((4 - 2 - 1) * Bitx) with 6. change ((4 - 3 - 1) * Bitx) with 0.
  rewrite !Z.shiftr_div_pow2 by lia. change (2 ^ 0) with 1. rewrite Z.div_1_r. done.
Qed.

Lemma rune_lead i c : 2 <= i <= 4 -> 0 <= c <= RuneX i ->
  u8 (Z.lor (T i) (Z.shiftr c ((i - 1) * Bitx))) = T i + c / 64 ^ (i - 1).
Proof.
  intros Hi Hc. rewrite Z.shiftr_div_pow2 by (unfold Bitx, Bit; lia).
  assert (E : 2 ^ ((i - 1) * Bitx) = 64 ^ (i - 1)).
  { change 64 with (2 ^ 6). rewrite <- Z.pow_mul_r by lia. f_equal. unfold Bitx, Bit. lia. }
  rewrite E. apply lead_byte; [done|].
  assert (i = 2 \/ i = 3 \/ i = 4) as [->|[->| ->]] by lia.
  - change (RuneX 2) with 2047 in Hc. change (64 ^ (2 - 1)) with 64. change (2 ^ Bit 2) with 32.
    Z.div_mod_to_equations. lia.
  - change (RuneX 3) with 65535 in Hc. change (64 ^ (3 - 1)) with 4096. change (2 ^ Bit 3) with 16.
    Z.div_mod_to_equations. lia.
  - change (RuneX 4) with 2097151 in Hc. change (64 ^ (4 - 1)) with 262144. change (2 ^ Bit 4) with 8.
    Z.div_mod_to_equations. lia.
Qed.

Ltac zcases :=
  repeat match goal with
  | |- context [?a <? ?b] => destruct (Z.ltb_spec a b); [try lia|try lia]
  | |- context [?a <=? ?b] => destruct (Z.leb_spec a b); [try lia|try lia]
  | |- context [?a =? ?b] => destruct (Z.eqb_spec a b); [try lia|try lia]
  end; cbn [orb andb negb].

Lemma runetochar_utf8 c :
  0 <= c -> runetochar c = utf8 (if valid_rune c then c else Runeerror).
Proof.
  intros Hc. unfold runetochar, valid_rune, surrogate, SurrogateMin, SurrogateMax, Runemax, Runeerror.
  change Rune1 with 127.
  destruct (cont_bytes_eq c Hc) as (E2 & E3 & E4).
  destruct (Z.leb_spec c 127).
  { zcases. unfold utf8. zcases. f_equal. apply Z.mod_small. unfold M8. lia. }
  cbn [runetochar_loop]. change (2 =? 3) with false. change (2 =? UTFmax) with false. cbv iota.
  change (RuneX 2) with 2047. rewrite orb_false_r.
  destruct (Z.leb_spec c 2047).
  { rewrite rune_lead by (try lia; change (RuneX 2) with 2047; lia). rewrite E2.
    zcases. unfold utf8. by zcases. }
  change (2 + 1) with 3. change (3 =? 3) with true. change (3 =? UTFmax) with false. cbv iota zeta.
  unfold surrogate, SurrogateMin, SurrogateMax, Runemax, Runeerror. change (RuneX 3) with 65535.
  destruct (Z.ltb_spec 1114111 c).
  { zcases; by vm_compute. }
  destruct ((55296 <=? c) && (c <=? 57343)) eqn:Es.
  { destruct (0 <=? c), (c <=? 1114111); vm_compute; reflexivity. }
  rewrite orb_false_r. destruct (Z.leb_spec c 65535).
  { rewrite rune_lead by (try lia; change (RuneX 3) with 65535; lia). rewrite E3.
    zcases. unfold utf8. by zcases. }
  change (3 + 1) with 4. change (4 =? 3) with false. change (4 =? UTFmax) with true. cbv iota zeta.
  rewrite orb_true_r, rune_lead by (try lia; change (RuneX 4) with 2097151; lia). rewrite E4.
  zcases. unfold utf8. by zcases.
Qed.

Lemma utf8_bytes c : 0 <= c <= Runemax -> Forall is_byte (utf8 c).
Proof.
  unfold Runemax, utf8, is_byte, M8. intros Hc. zcases.
  all: repeat (apply Forall_cons_iff; split); try apply Forall_nil; try done; Z.div_mod_to_equations; lia.
Qed.

Lemma cont_is x : 0 <= x < 64 -> is_cont (128 + x) = true.
Proof. unfold is_cont. lia. Qed.

Lemma valid_decode c rest :
  valid_rune c = true -> Forall is_byte rest ->
  chartorune (utf8 c ++ rest) = Some (c, Z.of_nat (length (utf8 c))).
Proof.
  intros Hv Hrest.
  assert (Hc : 0 <= c <= Runemax) by (unfold valid_rune in Hv; lia).
  pose proof (utf8_bytes c Hc) as Hb. unfold valid_rune, surrogate, SurrogateMin, SurrogateMax in Hv.
  unfold Runemax in *.
  assert (Hm : forall x, 0 <= x mod 64 < 64) by (intros; apply Z.mod_pos_bound; lia).
  destruct (utf8 c) as [|c0 p] eqn:Eu; [by unfold utf8 in Eu; repeat case_match|].
  apply Forall_cons_iff in Hb as [Hb0 Hb]. cbn [app].
  rewrite chartorune_decode by (auto || by apply Forall_app). revert Eu. unfold utf8.
  destruct (Z.ltb_spec c 128); [intros [= <- <-]; by zcases|].
  destruct (Z.ltb_spec c 2048).
  { intros [= <- <-]. cbn [app decode]. rewrite cont_is by done. cbn [negb].
    change (T (1 + 2)) with 224. change (RuneX (1 + 1) + 1) with 2048.
    assert (192 + c / 64 < 224 /\ 194 <= 192 + c / 64) by (Z.div_mod_to_equations; lia).
    assert (E : ((192 + c / 64) * 64 + (128 + c mod 64 - 128)) mod 2048 = c) by (Z.div_mod_to_equations; lia).
    rewrite E. change (1 =? 1) with true. cbv iota. by zcases. }
  destruct (Z.ltb_spec c 65536).
  { intros [= <- <-]. cbn [app decode]. rewrite !cont_is by done. cbn [negb].
    change (T (1 + 2)) with 224. change (1 + 1 + 2) with 4. change (T 4) with 240.
    change (RuneX (1 + 1 + 1) + 1) with 65536.
    assert (224 <= 224 + c / 4096 < 240) by (Z.div_mod_to_equations; lia).
    set (w := _ mod 65536). assert (w = c) as -> by (subst w; Z.div_mod_to_equations; lia).
    change (1 + 1 =? 1) with false. change (1 + 1 =? 2) with true.
    change (RuneX (1 + 1)) with 2047. unfold surrogate, SurrogateMin, SurrogateMax, Runemax. cbv iota.
    cbn [andb]. zcases; done. }
  intros [= <- <-]. cbn [app decode]. rewrite !cont_is by done. cbn [negb].
  change (T (1 + 2)) with 224. change (1 + 1 + 2) with 4. change (T 4) with 240.
  change (1 + 1 + 1 + 2) with 5. change (T 5) with 248. change (RuneX (1 + 1 + 1 + 1) + 1) with 2097152.
  assert (240 <= 240 + c / 262144 < 245) by (Z.div_mod_to_equations; lia).
  set (w := _ mod 2097152). assert (w = c) as -> by (subst w; Z.div_mod_to_equations; lia).
  change (1 + 1 + 1 =? 1) with false. change (1 + 1 + 1 =? 2) with false.
  change (RuneX (1 + 1 + 1)) with 65535. unfold Runemax. cbv iota. cbn [andb]. zcases; done.
Qed.

(** C38. Encoding then decoding gives the rune back and its length, whatever bytes
    follow, for every code point but the surrogates; the surrogates and
    everything above [Runemax] are encoded as the error rune. *)
Theorem chartorune_runetochar c rest :
  0 <= c -> Forall is_byte rest ->
  chartorune (runetochar c ++ rest) =
    Some (if valid_rune c then c else Runeerror, Z.of_nat (length (runetochar c))).
Proof.
  intros Hc Hrest. rewrite runetochar_utf8 by done.
  assert (Hv : valid_rune (if valid_rune c then c else Runeerror) = true) by (by destruct (valid_rune c) eqn:E).
  revert Hv. generalize (if valid_rune c then c else Runeerror) as v. clear c Hc. intros c Hv.
  assert (Hc : 0 <= c <= Runemax) by (unfold valid_rune in Hv; lia).
  pose proof (utf8_bytes c Hc) as Hb.
  rewrite valid_decode by done. done.
Qed.

(** ** Decoding is exact *)

Lemma decode_sound c0 p r n :
  128 <= c0 < 256 -> Forall is_byte p ->
  decode 3 1 c0 c0 p = Some (r, n) ->
  (r = Runeerror /\ n = 1) \/
  (valid_rune r = true /\ 2 <= n <= 4 /\ (Z.to_nat n <= S (length p))%nat /\
   take (Z.to_nat n) (c0 :: p) = utf8 r).
Proof.
  intros Hc Hp. unfold is_byte, M8 in Hp. cbn [decode].
  destruct p as [|b1 p]; [done|]. apply Forall_cons_iff in Hp as [Hb1 Hp].
  destruct (is_cont b1) eqn:E1; cbn [negb]; [|intros [= <- <-]; by left]. unfold is_cont in E1.
  change (T (1 + 2)) with 224. change (RuneX (1 + 1) + 1) with 2048. change (1 =? 1) with true. cbv iota.
  destruct (Z.ltb_spec c0 224).
  { destruct (Z.ltb_spec c0 192); cbn [orb]; [intros [= <- <-]; by left|].
    set (w := _ mod 2048). assert (Ew : w = (c0 - 192) * 64 + (b1 - 128)) by (subst w; Z.div_mod_to_equations; lia).
    clearbody w. destruct (Z.leb_spec w 127); [intros [= <- <-]; by left|]. intros [= <- <-]. right.
    split; [unfold valid_rune, surrogate, SurrogateMin, SurrogateMax, Runemax; zcases; done|].
    split; [lia|]. split; [cbn; lia|]. transitivity [c0; b1]; [done|]. unfold utf8. zcases. repeat f_equal; Z.div_mod_to_equations; lia. }
  destruct p as [|b2 p]; [done|]. apply Forall_cons_iff in Hp as [Hb2 Hp].
  destruct (is_cont b2) eqn:E2; cbn [negb]; [|intros [= <- <-]; by left]. unfold is_cont in E2.
  change (1 + 1 + 2) with 4. change (T 4) with 240. change (RuneX (1 + 1 + 1) + 1) with 65536.
  change (1 + 1 =? 1) with false. change (1 + 1 =? 2) with true. change (RuneX (1 + 1)) with 2047. cbv iota.
  destruct (Z.ltb_spec c0 240).
  { set (w := _ mod 65536).
    assert (Ew : w = (c0 - 224) * 4096 + (b1 - 128) * 64 + (b2 - 128)) by (subst w; Z.div_mod_to_equations; lia).
    clearbody w. destruct (_ || _) eqn:E; [intros [= <- <-]; by left|].
    unfold surrogate, SurrogateMin, SurrogateMax, Runemax in *. cbn [andb].
    destruct ((55296 <=? w) && (w <=? 57343)) eqn:Es; [intros [= <- <-]; by left|]. intros [= <- <-]. right.
    split; [unfold valid_rune, surrogate, SurrogateMin, SurrogateMax, Runemax; rewrite Es; zcases; done|].
    split; [lia|]. split; [cbn; lia|]. transitivity [c0; b1; b2]; [done|]. unfold utf8. zcases. repeat f_equal; Z.div_mod_to_equations; lia. }
  destruct p as [|b3 p]; [done|]. apply Forall_cons_iff in Hp as [Hb3 Hp].
  destruct (is_cont b3) eqn:E3; cbn [negb]; [|intros [= <- <-]; by left]. unfold is_cont in E3.
  change (1 + 1 + 1 + 2) with 5. change (T 5) with 248. change (RuneX (1 + 1 + 1 + 1) + 1) with 2097152.
  change (1 + 1 + 1 =? 1) with false. change (1 + 1 + 1 =? 2) with false. change (RuneX (1 + 1 + 1)) with 65535.
  cbv iota.
  destruct (Z.ltb_spec c0 248); [|intros [= <- <-]; by left].
  set (w := _ mod 2097152).
  assert (Ew : w = (c0 - 240) * 262144 + (b1 - 128) * 4096 + (b2 - 128) * 64 + (b3 - 128))
    by (subst w; Z.div_mod_to_equations; lia).
  clearbody w. destruct (_ || _) eqn:E; [intros [= <- <-]; by left|]. unfold Runemax in E.
  cbn [andb]. intros [= <- <-]. right.
  split; [unfold valid_rune, surrogate, SurrogateMin, SurrogateMax, Runemax; zcases; done|].
  split; [lia|]. split; [cbn; lia|]. transitivity [c0; b1; b2; b3]; [done|]. unfold utf8. zcases. repeat f_equal; Z.div_mod_to_equations; lia.
Qed.

Lemma chartorune_exact s r n :
  Forall is_byte s -> chartorune s = Some (r, n) ->
  1 <= n <= 4 /\ (Z.to_nat n <= length s)%nat /\
  ((valid_rune r = true /\ take (Z.to_nat n) s = utf8 r) \/ (r = Runeerror /\ n = 1)).
Proof.
  destruct s as [|c0 p]; [done|]. intros [Hc Hp]%Forall_cons_iff.
  rewrite chartorune_decode by done. unfold is_byte, M8 in Hc.
  destruct (Z.ltb_spec c0 128).
  { intros [= <- <-]. split; [lia|]. split; [cbn; lia|]. left.
    split; [unfold valid_rune, surrogate, SurrogateMin, SurrogateMax, Runemax; zcases; done|].
    cbn. unfold utf8. by zcases. }
  intros E. destruct (decode_sound c0 p r n ltac:(lia) Hp E) as [[-> ->]|(Hv & Hn & Hl & Ht)].
  - split; [lia|]. split; [cbn; lia|]. by right.
  - split; [lia|]. split; [done|by left].
Qed.

Lemma utf8_length c : (1 <= length (utf8 c) <= 4)%nat.
Proof. unfold utf8. repeat case_match; cbn; lia. Qed.

(** Decoding accepts exactly the shortest encodings: it consumes one to
    four of the bytes given, and either they are the encoding of the rune it
    returns, a valid code point, or it returns the error rune for one byte;
    there are no overlong forms, surrogates or values above [Runemax]. *)
Theorem chartorune_canonical s r n :
  Forall is_byte s -> chartorune s = Some (r, n) ->
  1 <= n <= UTFmax /\ (Z.to_nat n <= length s)%nat /\
  ((valid_rune r = true /\ runetochar r = take (Z.to_nat n) s) \/ (r = Runeerror /\ n = 1)).
Proof.
  intros Hs E. destruct (chartorune_exact s r n Hs E) as (Hn & Hl & Hr).
  unfold UTFmax. split_and!; [lia..|done|]. destruct Hr as [[Hv Ht]|?]; [left|by right].
  split; [done|]. rewrite Ht, runetochar_utf8, Hv; [done|]. unfold valid_rune in Hv. lia.
Qed.

(** ** Strings of runes *)

Definition enc (rs : list Z) : list Z := mjoin (utf8 <$> rs).
Definition text (rs : list Z) : Prop := Forall (fun c => valid_rune c = true /\ c <> 0) rs.

Lemma enc_cons r rs : enc (r :: rs) = utf8 r ++ enc rs.
Proof. done. Qed.
Lemma enc_bytes_ok rs : text rs -> Forall is_byte (enc rs).
Proof.
  induction 1 as [|r rs [Hv _] _ IH]; [constructor|]. rewrite enc_cons. apply Forall_app. split; [|done].
  apply utf8_bytes. unfold valid_rune in Hv. lia.
Qed.

(** The first byte tells an ASCII rune from a longer one. *)
Lemma utf8_first r : valid_rune r = true -> r <> 0 ->
  exists b bs, utf8 r = b :: bs /\ b <> 0 /\
    (r < 128 -> b = r /\ bs = []) /\ (128 <= r -> 192 <= b < 256).
Proof.
  intros Hv Hr. unfold valid_rune, Runemax in Hv. unfold utf8.
  repeat case_match; eexists _, _; (split; [reflexivity|]); split_and!; intros; try done;
    try (Z.div_mod_to_equations; lia).
Qed.

Lemma decode_text r rs rest :
  valid_rune r = true -> text rs -> Forall is_byte rest ->
  chartorune (enc (r :: rs) ++ rest) = Some (r, Z.of_nat (length (utf8 r))) /\
  drop (length (utf8 r)) (enc (r :: rs) ++ rest) = enc rs ++ rest.
Proof.
  intros Hv Hrs Hrest. rewrite enc_cons, <- app_assoc. split; [|by rewrite drop_app_length].
  apply valid_decode; [done|]. apply Forall_app. split; [by apply enc_bytes_ok|done].
Qed.

Lemma utflen_text rs rest fuel n :
  text rs -> Forall is_byte rest -> (length rs < fuel)%nat ->
  utflen_loop fuel n (enc rs ++ 0 :: rest) = Some (n + Z.of_nat (length rs)).
Proof.
  intros Hrs Hrest. revert fuel n. induction Hrs as [|r rs [Hv Hr] Hrs IH]; intros [|fuel] n Hf; cbn in Hf; try lia.
  { cbn. f_equal. lia. }
  destruct (decode_text r rs (0 :: rest) Hv Hrs ltac:(by constructor)) as [Ed Edrop].
  destruct (utf8_first r Hv Hr) as (b & bs & Eb & Hb0 & Hlow & Hhigh).
  rewrite enc_cons, Eb in Ed, Edrop |- *. cbn [app utflen_loop].
  change Runeself with 128. destruct (Z.ltb_spec b 128).
  - destruct (Z.eqb_spec b 0); [done|]. destruct (Z.lt_ge_cases r 128) as [H1|H1]; [|specialize (Hhigh H1); lia].
    destruct (Hlow H1) as [-> ->]. cbn [app]. rewrite IH by lia. f_equal. cbn. lia.
  - cbn [app] in Ed. rewrite Ed. cbn [mbind option_bind]. rewrite Nat2Z.id.
    cbn [app] in Edrop. rewrite Edrop. rewrite IH by lia. f_equal. cbn. lia.
Qed.

Lemma enc_length rs : (length rs <= length (enc rs))%nat.
Proof.
  induction rs as [|r rs IH]; [done|]. rewrite enc_cons, length_app. pose proof (utf8_length r). cbn. lia.
Qed.

(** A NUL is never consumed with the bytes before it. *)
Lemma decode_nul k i c0 l q rest :
  1 <= i -> exists r m, decode k i c0 l (q ++ 0 :: rest) = Some (r, m) /\ 1 <= m <= i + Z.of_nat (length q).
Proof.
  revert i l q. induction k as [|k IH]; intros i l q Hi; cbn [decode]; [eexists _, _; split; [done|lia]|].
  destruct q as [|b q]; cbn [app].
  { change (is_cont 0) with false. cbn. eexists _, _. split; [done|lia]. }
  cbn [length].
  destruct (is_cont b); cbn [negb]; [|eexists _, _; split; [done|lia]].
  destruct (c0 <? T (i + 2)).
  - repeat case_match; eexists _, _; (split; [done|lia]).
  - destruct (IH (i + 1) (l * 64 + (b - 128)) q ltac:(lia)) as (r & m & E & Hm). exists r, m. split; [done|lia].
Qed.

Lemma chartorune_nul c0 q rest :
  Forall is_byte (c0 :: q ++ 0 :: rest) ->
  exists r m, chartorune (c0 :: q ++ 0 :: rest) = Some (r, m) /\ 1 <= m <= 1 + Z.of_nat (length q).
Proof.
  intros [Hc Hp]%Forall_cons_iff. rewrite chartorune_decode by done.
  case_match; [eexists _, _; split; [done|lia]|]. by apply decode_nul.
Qed.

Lemma utflen_total fuel n q rest :
  Forall is_byte (q ++ 0 :: rest) -> (length q < fuel)%nat ->
  exists k, utflen_loop fuel n (q ++ 0 :: rest) = Some k /\ n <= k <= n + Z.of_nat (length q).
Proof.
  revert n q. induction fuel as [|fuel IH]; intros n q Hb Hf; [lia|]. cbn [utflen_loop].
  destruct q as [|c q]; cbn [app length] in *; [exists n; split; [done|lia]|].
  change Runeself with 128. destruct (Z.ltb_spec c 128).
  - destruct (Z.eqb_spec c 0); [exists n; split; [done|lia]|].
    apply Forall_cons_iff in Hb as [_ Hb]. destruct (IH (n + 1) q Hb ltac:(lia)) as (k & E & Hk).
    exists k. split; [done|lia].
  - destruct (chartorune_nul c q rest Hb) as (r & m & E & Hm). rewrite E. cbn [mbind option_bind].
    replace (drop (Z.to_nat m) (c :: q ++ 0 :: rest)) with (drop (Z.to_nat m) (c :: q) ++ 0 :: rest).
    2:{ rewrite <- (drop_app_le (c :: q)) by (cbn; lia). done. }
    destruct (IH (n + 1) (drop (Z.to_nat m) (c :: q))) as (k & Ek & Hk).
    + rewrite <- drop_app_le by (cbn; lia). apply Forall_drop. done.
    + rewrite length_drop. cbn. lia.
    + exists k. split; [done|]. rewrite length_drop in Hk. cbn in Hk. lia.
Qed.

(** utflen terminates on every NUL-terminated string without reading past
    the NUL, and counts the runes of a text. *)
Theorem utflen_correct q rest :
  Forall is_byte (q ++ 0 :: rest) ->
  (exists k, utflen (q ++ 0 :: rest) = Some k /\ 0 <= k <= Z.of_nat (length q)) /\
  (forall rs, text rs -> q = enc rs -> utflen (q ++ 0 :: rest) = Some (Z.of_nat (length rs))).
Proof.
  intros Hb. unfold utflen. split.
  - apply utflen_total; [done|]. rewrite length_app. lia.
  - intros rs Hrs ->. apply utflen_text; [done| |].
    + apply Forall_app in Hb as [_ Hb]. by apply Forall_cons_iff in Hb as [_ ?].
    + rewrite length_app. pose proof (enc_length rs). lia.
Qed.

(** ** Searching *)

Fixpoint find_rune (off : Z) (rs : list Z) (c : Z) : option Z :=
  match rs with
  | [] => None
  | r :: rs => if r =? c then Some off else find_rune (off + Z.of_nat (length (utf8 r))) rs c
  end.
Fixpoint find_last (off : Z) (s1 : option Z) (rs : list Z) (c : Z) : option Z :=
  match rs with
  | [] => s1
  | r :: rs => find_last (off + Z.of_nat (length (utf8 r))) (if r =? c then Some off else s1) rs c
  end.

(** No byte of a longer encoding is an ASCII character. *)
Lemma utf8_high r : valid_rune r = true -> 128 <= r -> Forall (fun b => 128 <= b) (utf8 r).
Proof.
  intros Hv Hr. unfold valid_rune, Runemax in Hv. unfold utf8. zcases.
  all: repeat (apply Forall_cons_iff; split); try apply Forall_nil; try done; Z.div_mod_to_equations; lia.
Qed.

Lemma strchr_skip bs off s c :
  c < 128 -> Forall (fun b => 128 <= b) bs ->
  strchr_loop off (bs ++ s) c = strchr_loop (off + Z.of_nat (length bs)) s c.
Proof.
  intros Hc Hb. revert off. induction Hb as [|b bs Hb _ IH]; intros off; cbn [app length strchr_loop].
  - f_equal. cbn. lia.
  - destruct (Z.eqb_spec b c); [lia|]. destruct (Z.eqb_spec b 0); [lia|]. rewrite IH. f_equal. lia.
Qed.
Lemma strrchr_skip bs off s1 s c :
  c < 128 -> Forall (fun b => 128 <= b) bs ->
  strrchr_loop off s1 (bs ++ s) c = strrchr_loop (off + Z.of_nat (length bs)) s1 s c.
Proof.
  intros Hc Hb. revert off. induction Hb as [|b bs Hb _ IH]; intros off; cbn [app length strrchr_loop].
  - f_equal. cbn. lia.
  - destruct (Z.eqb_spec b c); [lia|]. destruct (Z.eqb_spec b 0); [lia|]. rewrite IH. f_equal. lia.
Qed.

Lemma strchr_text rs rest off c :
  text rs -> 0 < c < 128 ->
  strchr_loop off (enc rs ++ 0 :: rest) c = Some (find_rune off rs c) /\
  (forall s1, strrchr_loop off s1 (enc rs ++ 0 :: rest) c = Some (find_last off s1 rs c)).
Proof.
  intros Hrs Hc. revert off. induction Hrs as [|r rs [Hv Hr] Hrs IH]; intros off.
  { split; [|intros s1]; cbn; (destruct c; [lia|done|lia]). }
  rewrite enc_cons, <- app_assoc. cbn [find_rune find_last].
  destruct (Z.lt_ge_cases r 128) as [H1|H1].
  - destruct (utf8_first r Hv Hr) as (b & bs & Eb & Hb0 & Hlow & _). destruct (Hlow H1) as [-> ->].
    rewrite Eb. cbn [app strchr_loop strrchr_loop length].
    destruct (Z.eqb_spec r 0); [done|]. change (Z.of_nat 1) with 1.
    split; [destruct (r =? c); [done|]; apply IH|intros s1; apply IH].
  - rewrite strchr_skip by (lia || by apply utf8_high).
    destruct (Z.eqb_spec r c); [lia|]. split; [apply IH|]. intros s1.
    rewrite strrchr_skip by (lia || by apply utf8_high). apply IH.
Qed.

Lemma utfrune_text rs rest off c fuel :
  text rs -> Forall is_byte rest -> 128 <= c -> (length rs < fuel)%nat ->
  utfrune_loop fuel off (enc rs ++ 0 :: rest) c = Some (find_rune off rs c) /\
  (forall s1, utfrrune_loop fuel off s1 (enc rs ++ 0 :: rest) c = Some (find_last off s1 rs c)).
Proof.
  intros Hrs Hrest Hc. revert fuel off.
  induction Hrs as [|r rs [Hv Hr] Hrs IH]; intros [|fuel] off Hf; cbn in Hf; try lia; [done|].
  destruct (decode_text r rs (0 :: rest) Hv Hrs ltac:(by constructor)) as [Ed Edrop].
  destruct (utf8_first r Hv Hr) as (b & bs & Eb & Hb0 & Hlow & Hhigh).
  cbn [find_rune find_last]. rewrite enc_cons in *. rewrite Eb in Ed, Edrop |- *.
  cbn [app utfrune_loop utfrrune_loop] in *. change Runeself with 128. destruct (Z.ltb_spec b 128).
  - destruct (Z.eqb_spec b 0); [done|]. destruct (Z.lt_ge_cases r 128) as [H1|H1]; [|specialize (Hhigh H1); lia].
    destruct (Hlow H1) as [-> ->]. destruct (Z.eqb_spec r c); [lia|]. cbn [app length].
    change (Z.of_nat 1) with 1. split; [|intros s1]; apply IH; lia.
  - rewrite Ed. cbn [mbind option_bind]. rewrite Nat2Z.id, Edrop.
    split; [destruct (r =? c); [done|]|intros s1]; apply IH; lia.
Qed.

(** utfrune and utfrrune return the byte offset of the first and of the
    last occurrence of a rune in a text, and null when there is none. *)
Theorem utfrune_correct rs rest c :
  text rs -> Forall is_byte rest -> 0 < c ->
  utfrune (enc rs ++ 0 :: rest) c = Some (find_rune 0 rs c) /\
  utfrrune (enc rs ++ 0 :: rest) c = Some (find_last 0 None rs c).
Proof.
  intros Hrs Hrest Hc. unfold utfrune, utfrrune. change Runesync with 128.
  destruct (Z.ltb_spec c 128).
  - assert (E : u8 c = c) by (apply Z.mod_small; unfold M8; lia). rewrite E.
    destruct (strchr_text rs rest 0 c Hrs ltac:(lia)). auto.
  - assert (Hf : (length rs < S (length (enc rs ++ 0%Z :: rest)))%nat).
    { rewrite length_app. pose proof (enc_length rs). lia. }
    destruct (utfrune_text rs rest 0 c _ Hrs Hrest ltac:(lia) Hf). auto.
Qed.

(** ** Bounded copying *)

(** The longest prefix whose encoding takes at most [k] bytes. *)
Fixpoint fits (k : nat) (rs : list Z) : list Z :=
  match rs with
  | [] => []
  | r :: rs => if (length (utf8 r) <=? k)%nat then r :: fits (k - length (utf8 r)) rs else []
  end.

Lemma memccpy0_found n q rest :
  Forall (fun b => b <> 0) q -> (length q < n)%nat -> memccpy0 n (q ++ 0 :: rest) = Some (q ++ [0], true).
Proof.
  intros Hq. revert n. induction Hq as [|b q Hb _ IH]; intros [|n] Hn; cbn in Hn; try lia; [done|].
  cbn [app memccpy0]. destruct (Z.eqb_spec b 0); [done|]. by rewrite IH by lia.
Qed.
Lemma memccpy0_cut n q rest :
  Forall (fun b => b <> 0) q -> (n <= length q)%nat -> memccpy0 n (q ++ rest) = Some (take n q, false).
Proof.
  intros Hq. revert n. induction Hq as [|b q Hb _ IH]; intros [|n] Hn; cbn in Hn; try lia; try done.
  cbn [app memccpy0]. destruct (Z.eqb_spec b 0); [done|]. by rewrite IH by lia.
Qed.

Lemma cont_mask b : is_byte b -> (Z.land b 192 =? 128) = is_cont b.
Proof.
  intros Hb. apply eqb_prop. revert b Hb. unfold is_byte.
  apply (forall_range (fun b => Bool.eqb (Z.land b 192 =? 128) (is_cont b))). by vm_compute.
Qed.

Lemma back_up_to to k e :
  Forall is_byte to -> (k < e <= length to)%nat ->
  (forall b, to !! k = Some b -> is_cont b = false) ->
  (forall j b, (k < j < e)%nat -> to !! j = Some b -> is_cont b = true) ->
  back_up to e = k.
Proof.
  intros Hb Hk Hstart Hc. induction e as [|e IH]; [lia|]. cbn [back_up].
  destruct (lookup_lt_is_Some_2 to e) as [b Eb]; [lia|].
  assert (En : nth e to 0 = b).
  { rewrite nth_lookup. by rewrite Eb. }
  assert (Hbb : is_byte b) by (rewrite Forall_lookup in Hb; eauto).
  rewrite En, cont_mask by done.
  destruct (decide (e = k)) as [->|Hne]; [by rewrite (Hstart b Eb)|].
  rewrite (Hc e b ltac:(lia) Eb). apply IH; [lia|]. intros j b' Hj. apply Hc. lia.
Qed.

Lemma utf8_nonzero r : valid_rune r = true -> r <> 0 -> Forall (fun b => b <> 0) (utf8 r).
Proof.
  intros Hv Hr. destruct (Z.lt_ge_cases r 128).
  - unfold utf8. unfold valid_rune in Hv. zcases. by repeat constructor.
  - eapply Forall_impl; [|by apply utf8_high]. cbn. intros. lia.
Qed.
Lemma enc_nonzero rs : text rs -> Forall (fun b => b <> 0) (enc rs).
Proof.
  induction 1 as [|r rs [Hv Hr] _ IH]; [constructor|]. rewrite enc_cons. apply Forall_app.
  split; [by apply utf8_nonzero|done].
Qed.

(** Only the first byte of an encoding starts a rune. *)
Lemma utf8_conts r j b : valid_rune r = true -> utf8 r !! j = Some b -> is_cont b = negb (j =? 0)%nat.
Proof.
  intros Hv. assert (Hr : 0 <= r <= Runemax) by (unfold valid_rune in Hv; lia). unfold Runemax in Hr.
  unfold utf8, is_cont.
  assert (Hm : forall x, 0 <= x mod 64 < 64) by (intros; apply Z.mod_pos_bound; lia).
  zcases; destruct j as [|[|[|[|j]]]]; cbn; intros [= <-]; zcases; try done;
    try (Z.div_mod_to_equations; lia); specialize (Hm r) as H1; specialize (Hm (r / 64)) as H2;
    specialize (Hm (r / 4096)) as H3; try lia.
Qed.

Lemma enc_app rs1 rs2 : enc (rs1 ++ rs2) = enc rs1 ++ enc rs2.
Proof. unfold enc. by rewrite fmap_app, join_app. Qed.

Lemma fits_all k rs : (length (enc rs) <= k)%nat -> fits k rs = rs.
Proof.
  revert k. induction rs as [|r rs IH]; intros k Hk; cbn [fits]; [done|].
  rewrite enc_cons, length_app in Hk. destruct (Nat.leb_spec (length (utf8 r)) k); [|lia].
  by rewrite IH by lia.
Qed.

Lemma fits_cut k rs :
  (k < length (enc rs))%nat ->
  exists r rs2, rs = fits k rs ++ r :: rs2 /\
    (length (enc (fits k rs)) <= k < length (enc (fits k rs)) + length (utf8 r))%nat.
Proof.
  revert k. induction rs as [|r rs IH]; intros k Hk; [cbn in Hk; lia|].
  rewrite enc_cons, length_app in Hk. cbn [fits].
  destruct (Nat.leb_spec (length (utf8 r)) k).
  - destruct (IH (k - length (utf8 r))%nat ltac:(lia)) as (r' & rs2 & E & Hl).
    exists r', rs2. rewrite enc_cons, length_app. split; [by rewrite E at 1|lia].
  - exists r, rs. split; [done|]. cbn. lia.
Qed.

(** utfecpy copies the longest prefix of whole runes that fits before the
    limit with its NUL: it never splits a rune, always terminates the copy,
    returns the position of the NUL, and writes nothing at or beyond the
    limit. *)
Theorem utfecpy_correct to n rs rest :
  text rs -> Forall is_byte to -> Forall is_byte rest -> 0 < n <= Z.of_nat (length to) ->
  exists to',
    let p := fits (Z.to_nat (n - 1)) rs in
    utfecpy to n (enc rs ++ 0 :: rest) = Some (to', Z.of_nat (length (enc p))) /\
    take (S (length (enc p))) to' = enc p ++ [0] /\
    drop (Z.to_nat n) to' = drop (Z.to_nat n) to /\ length to' = length to.
Proof.
  intros Hrs Hto Hrest Hn. unfold utfecpy. destruct (Z.leb_spec n 0); [lia|].
  set (k := Z.to_nat (n - 1)). replace (Z.to_nat n) with (S k) by lia.
  pose proof (enc_nonzero rs Hrs) as Hnz. pose proof (enc_bytes_ok rs Hrs) as Hby.
  destruct (Nat.le_gt_cases (length (enc rs)) k) as [Hle|Hgt].
  - rewrite memccpy0_found by (done || lia). cbn [mbind option_bind].
    rewrite fits_all by done. eexists. split; [do 2 f_equal; rewrite length_app; cbn; lia|].
    rewrite length_app. cbn [length]. split_and!.
    + rewrite take_app_le by (rewrite length_app; cbn; lia). apply take_ge. rewrite length_app. cbn. lia.
    + rewrite drop_app_ge by (rewrite length_app; cbn; lia). rewrite drop_drop. f_equal. rewrite length_app. cbn. lia.
    + rewrite length_app, length_drop, length_app. cbn. lia.
  - rewrite memccpy0_cut by (done || lia). cbn [mbind option_bind].
    destruct (fits_cut k rs Hgt) as (r & rs2 & Ers & Hk).
    set (p := fits k rs) in *. assert (Eenc : enc rs = enc p ++ utf8 r ++ enc rs2).
    { by rewrite Ers at 1; rewrite enc_app, enc_cons. }
    assert (Hv : valid_rune r = true).
    { unfold text in Hrs. rewrite Ers, Forall_app, Forall_cons_iff in Hrs. tauto. }
    rewrite length_take. replace (S k `min` length (enc rs))%nat with (S k) by lia.
    set (to1 := take (S k) (enc rs) ++ drop (S k) to).
    assert (Hl1 : length to1 = length to) by (unfold to1; rewrite length_app, length_take, length_drop; lia).
    assert (Hlook : forall j, (j < S k)%nat -> to1 !! j = enc rs !! j).
    { intros j Hj. unfold to1. rewrite lookup_app_l by (rewrite length_take; lia). by apply lookup_take_lt. }
    assert (Hback : back_up to1 (S k) = length (enc p)).
    { apply back_up_to.
      - unfold to1. apply Forall_app. split; [by apply Forall_take|by apply Forall_drop].
      - lia.
      - intros b Hb. rewrite Hlook, Eenc, lookup_app_r, Nat.sub_diag, lookup_app_l in Hb by (pose proof (utf8_length r); lia).
        by rewrite (utf8_conts r 0 b Hv Hb).
      - intros j b Hj Hb. rewrite Hlook, Eenc, lookup_app_r, lookup_app_l in Hb by lia.
        rewrite (utf8_conts r _ b Hv Hb). destruct (Nat.eqb_spec (j - length (enc p)) 0); [lia|done]. }
    rewrite Hback. eexists. split; [done|]. split_and!.
    + rewrite (take_S_r _ _ 0); [|apply list_lookup_insert_eq; lia].
      f_equal. rewrite take_insert_ge by lia. unfold to1.
      rewrite take_app_le by (rewrite length_take; lia). rewrite take_take, Nat.min_l by lia.
      rewrite Eenc. by rewrite take_app_length.
    + rewrite drop_insert_lt by lia. unfold to1.
      rewrite drop_app_ge by (rewrite length_take; lia). rewrite length_take, drop_drop. f_equal. lia.
    + by rewrite length_insert.
Qed.

(** ** Partial sequences and lengths *)

Lemma decode_prefix k i c0 l q rest r m :
  decode k i c0 l q = Some (r, m) -> decode k i c0 l (q ++ rest) = Some (r, m).
Proof.
  revert i l q. induction k as [|k IH]; intros i l q; cbn [decode]; [done|].
  destruct q as [|b q]; [done|]. cbn [app]. destruct (is_cont b); cbn [negb]; [|done].
  destruct (c0 <? T (i + 2)); [done|]. apply IH.
Qed.

(** How many bytes the first one announces. *)
Definition announced (c0 : Z) : Z := if c0 <? 128 then 1 else if c0 <? 224 then 2 else if c0 <? 240 then 3 else 4.

Lemma fullrune_announced c0 p n :
  0 < n -> fullrune (c0 :: p) n = Some (announced c0 <=? n).
Proof.
  intros Hn. unfold fullrune, announced. change Tx with 128. cbn [fullrune_loop].
  change (T 3) with 224. change (T (3 + 1)) with 240. unfold UTFmax. zcases; done.
Qed.

Lemma decode_announced c0 p :
  128 <= c0 < 256 -> Forall is_byte p -> announced c0 <= 1 + Z.of_nat (length p) ->
  exists r m, decode 3 1 c0 c0 p = Some (r, m).
Proof.
  unfold announced. intros Hc Hp Hl.
  assert (Hstep : forall k i l q, (c0 <? T (i + 2)) = true -> (0 < length q)%nat ->
            exists r m, decode (S k) i c0 l q = Some (r, m)).
  { intros k i l [|b q] Ht Hq; [cbn in Hq; lia|]. cbn [decode]. rewrite Ht. repeat case_match; eauto. }
  destruct (Z.ltb_spec c0 128); [lia|].
  destruct (Z.ltb_spec c0 224); [apply Hstep; [change (T (1 + 2)) with 224|]; lia|].
  destruct p as [|b p]; [cbn in Hl; destruct (c0 <? 240); lia|]. cbn [decode].
  destruct (is_cont b); cbn [negb]; [|eauto]. change (T (1 + 2)) with 224.
  destruct (Z.ltb_spec c0 224); [lia|].
  destruct (Z.ltb_spec c0 240).
  { change (T (1 + 1 + 2)) with 240. destruct (Z.ltb_spec c0 240); [|lia].
    destruct p; [cbn in Hl; lia|]. repeat case_match; eauto. }
  destruct p as [|b2 p]; [cbn in Hl; lia|]. change (T (1 + 1 + 2)) with 240.
  destruct (Z.ltb_spec c0 240); [lia|]. destruct (is_cont b2); cbn [negb]; [|eauto].
  destruct p; [cbn in Hl; lia|]. repeat case_match; eauto.
Qed.

(** fullrune answers whether the first [n] bytes suffice: if so, decoding
    them is decoding the whole string, and no byte beyond them is read; and
    every proper prefix of an encoding is recognised as incomplete. *)
Theorem fullrune_correct s n :
  Forall is_byte s -> 0 < n <= Z.of_nat (length s) ->
  (fullrune s n = Some true ->
     exists r m, chartorune (take (Z.to_nat n) s) = Some (r, m) /\ chartorune s = Some (r, m)) /\
  (forall c, valid_rune c = true -> s = take (length s) (utf8 c) -> (length s < length (utf8 c))%nat ->
     fullrune s n = Some false).
Proof.
  intros Hs Hn. destruct s as [|c0 p]; [cbn in Hn; lia|]. apply Forall_cons_iff in Hs as [Hc Hp].
  rewrite fullrune_announced by lia. unfold is_byte, M8 in Hc. cbn [length] in Hn. split.
  - intros [= Ha%Z.leb_le]. destruct (Z.to_nat n) as [|k] eqn:Ek; [lia|]. cbn [take].
    rewrite !chartorune_decode by (auto using Forall_take).
    destruct (Z.ltb_spec c0 128); [eauto|].
    destruct (decode_announced c0 (take k p) ltac:(lia) (Forall_take _ _ _ Hp)) as (r & m & E).
    { rewrite length_take. lia. }
    exists r, m. split; [done|]. rewrite <- (take_drop k p). by apply decode_prefix.
  - intros c Hv Es Hl. do 2 f_equal. apply Z.leb_gt.
    assert (Ha : announced c0 = Z.of_nat (length (utf8 c))); [|cbn [length] in Hl; lia].
    assert (Hr : 0 <= c <= 1114111) by (unfold valid_rune, Runemax in Hv; lia).
    assert (Ec : Some c0 = utf8 c !! 0%nat).
    { rewrite <- (lookup_take_lt (utf8 c) (length (c0 :: p))) by (cbn; lia). by rewrite <- Es. }
    revert Ec. unfold utf8, announced. zcases; cbn; intros [= ->]; zcases; try done; Z.div_mod_to_equations; lia.
Qed.

(** runelen is the length of the encoding; runenlen agrees with it for
    every rune up to [Runemax] and overestimates by one beyond (it counts four
    bytes where the three of the error rune are stored). *)
Theorem runelen_runenlen c :
  0 <= c < M32 ->
  runelen c = Z.of_nat (length (runetochar c)) /\
  runenlen [c] = (if c <=? Runemax then runelen c else runelen c + 1).
Proof.
  intros Hc. unfold runelen. assert (E : u32 c = c) by (by apply Z.mod_small). rewrite E.
  split; [done|]. unfold runenlen. rewrite Z.add_0_r, runetochar_utf8 by lia.
  unfold M32 in Hc. unfold valid_rune, surrogate, SurrogateMin, SurrogateMax, Runeerror, Runemax.
  change Rune1 with 127. cbn [runenlen_loop]. change (RuneX 2) with 2047. change (RuneX (2 + 1)) with 65535.
  unfold UTFmax. destruct (Z.leb_spec c 127); [zcases; unfold utf8; zcases; done|].
  destruct (Z.leb_spec c 2047); [zcases; unfold utf8; zcases; done|].
  change (2 =? 4) with false. change (2 + 1 =? 4) with false. change (2 + 1 + 1 =? 4) with true.
  rewrite !orb_false_r, orb_true_r.
  destruct (Z.leb_spec c 65535); [zcases; unfold utf8; zcases; done|].
  zcases; unfold utf8; zcases; done.
Qed.

(** ** Instances *)

(** A, e acute, the euro sign, a smiling face. *)
Definition demo_text : list Z := [65; 233; 8364; 128512].
Lemma demo_text_ok : text demo_text.
Proof. repeat constructor. all: done. Qed.

Ltac bytes := repeat (constructor; [unfold is_byte, M8; lia|]); constructor.

Example chartorune_runetochar_witness :
  chartorune ([226; 130; 172] ++ [65]) = Some (8364, 3) /\
  chartorune ([239; 191; 189] ++ []) = Some (65533, 3).
Proof.
  split.
  - apply (chartorune_runetochar 8364 [65]); [lia|bytes].
  - apply (chartorune_runetochar 55296 []); [lia|bytes].
Defined.
Example chartorune_canonical_witness :
  exists r n, chartorune [240; 159; 152; 128; 7] = Some (r, n) /\ 1 <= n <= UTFmax.
Proof.
  eexists _, _. split; [vm_compute; reflexivity|].
  apply (chartorune_canonical [240; 159; 152; 128; 7] 128512 4); [bytes|vm_compute; reflexivity].
Defined.
Example utflen_correct_witness :
  utflen ([65; 195; 169; 226; 130; 172; 240; 159; 152; 128] ++ 0 :: [9]) = Some 4.
Proof.
  destruct (utflen_correct [65; 195; 169; 226; 130; 172; 240; 159; 152; 128] [9]) as [_ H]; [bytes|].
  exact (H demo_text demo_text_ok eq_refl).
Defined.
Example utfrune_correct_witness :
  utfrune (enc demo_text ++ 0 :: []) 8364 = Some (Some 3) /\
  utfrrune (enc demo_text ++ 0 :: []) 66 = Some None.
Proof.
  split.
  - apply (utfrune_correct demo_text [] 8364); [exact demo_text_ok|bytes|lia].
  - apply (utfrune_correct demo_text [] 66); [exact demo_text_ok|bytes|lia].
Defined.
Example utfecpy_correct_witness :
  exists to', utfecpy [7; 7; 7; 7; 7; 7] 5 (enc demo_text ++ 0 :: []) = Some (to', 3) /\
    take 4 to' = [65; 195; 169; 0] /\ drop 5 to' = [7].
Proof.
  destruct (utfecpy_correct [7; 7; 7; 7; 7; 7] 5 demo_text []) as (to' & E & Ht & Hd & _);
    [exact demo_text_ok|bytes|bytes|cbn; lia|].
  exists to'. split; [exact E|]. split; [exact Ht|exact Hd].
Defined.
Example fullrune_correct_witness :
  fullrune [226; 130] 2 = Some false /\
  exists r m, chartorune [226; 130; 172] = Some (r, m) /\ chartorune [226; 130; 172; 65] = Some (r, m).
Proof.
  split.
  - destruct (fullrune_correct [226; 130] 2) as [_ H]; [bytes|cbn; lia|].
    apply (H 8364); [reflexivity|reflexivity|vm_compute; lia].
  - destruct (fullrune_correct [226; 130; 172; 65] 3) as [H _]; [bytes|cbn; lia|].
    apply H. reflexivity.
Defined.
Example runelen_runenlen_witness : runelen 1114112 = 3 /\ runenlen [1114112] = runelen 1114112 + 1.
Proof.
  destruct (runelen_runenlen 1114112) as [H1 H2]; [unfold M32; lia|]. split; [exact H1|exact H2].
Defined.
