(* ===== verification/Styx.v ===== *)
(** * Styx messages (lib9/convS2M.c, lib9/convM2S.c, include/fcall.h)

    [convS2M] packs an [Fcall] into a 9P message, [convM2S] unpacks one in
    place: its strings and data point into the message, which it rewrites to
    make room for the terminating NULs.  The abstract specification is the list
    of parameters of each message type in the protocol ([fields]) and their wire
    format ([wire]). *)

From S2P Require Import Prelude.

(** ** Constants and data (fcall.h) *)

Definition MAXWELEM : Z := 16.
Definition BIT8SZ : Z := 1.
Definition BIT16SZ : Z := 2.
Definition BIT32SZ : Z := 4.
Definition BIT64SZ : Z := 8.
Definition QIDSZ : Z := BIT8SZ + BIT32SZ + BIT64SZ.

Definition Tversion : Z := 100.
Definition Rversion : Z := 101.
Definition Tauth : Z := 102.
Definition Rauth : Z := 103.
Definition Tattach : Z := 104.
Definition Rattach : Z := 105.
Definition Rerror : Z := 107.
Definition Tflush : Z := 108.
Definition Rflush : Z := 109.
Definition Twalk : Z := 110.
Definition Rwalk : Z := 111.
Definition Topen : Z := 112.
Definition Ropen : Z := 113.
Definition Tcreate : Z := 114.
Definition Rcreate : Z := 115.
Definition Tread : Z := 116.
Definition Rread : Z := 117.
Definition Twrite : Z := 118.
Definition Rwrite : Z := 119.
Definition Tclunk : Z := 120.
Definition Rclunk : Z := 121.
Definition Tremove : Z := 122.
Definition Rremove : Z := 123.
Definition Tstat : Z := 124.
Definition Rstat : Z := 125.
Definition Twstat : Z := 126.
Definition Rwstat : Z := 127.

Record Qid : Type := MkQid { q_path : Z; q_vers : Z; q_type : Z }.

(** [P] is what the [char*] and [uchar*] members point to: the bytes
    themselves in a message to pack (a string without its NUL), an offset into
    the message in one that was unpacked.  [None] is nil. *)
Record Fcall (P : Type) : Type := MkFcall {
  f_type : Z; f_fid : Z; f_tag : Z;
  f_msize : Z; f_version : option P;  (* Tversion, Rversion *)
  f_oldtag : Z;  (* Tflush *)
  f_ename : option P;  (* Rerror *)
  f_qid : Qid; f_iounit : Z;  (* Rattach, Ropen, Rcreate *)
  f_aqid : Qid;  (* Rauth *)
  f_afid : Z; f_uname : option P; f_aname : option P;  (* Tauth, Tattach *)
  f_perm : Z; f_name : option P; f_mode : Z;  (* Tcreate *)
  f_newfid : Z; f_nwname : Z; f_wname : list (option P);  (* Twalk *)
  f_nwqid : Z; f_wqid : list Qid;  (* Rwalk *)
  f_offset : Z; f_count : Z; f_data : option P;  (* Tread, Twrite *)
  f_nstat : Z; f_stat : option P;  (* Twstat, Rstat *)
}.
Arguments MkFcall {P}.
Arguments f_type {P} _. Arguments f_fid {P} _. Arguments f_tag {P} _. Arguments f_msize {P} _.
Arguments f_version {P} _. Arguments f_oldtag {P} _. Arguments f_ename {P} _. Arguments f_qid {P} _.
Arguments f_iounit {P} _. Arguments f_aqid {P} _. Arguments f_afid {P} _. Arguments f_uname {P} _.
Arguments f_aname {P} _. Arguments f_perm {P} _. Arguments f_name {P} _. Arguments f_mode {P} _.
Arguments f_newfid {P} _. Arguments f_nwname {P} _. Arguments f_wname {P} _. Arguments f_nwqid {P} _.
Arguments f_wqid {P} _. Arguments f_offset {P} _. Arguments f_count {P} _. Arguments f_data {P} _.
Arguments f_nstat {P} _. Arguments f_stat {P} _.

(** One assignment [f->m = v] per member: rebuild the record with [v] in the
    place of the projection. *)
Ltac set_member m f v :=
  let t := constr:(MkFcall (f_type f) (f_fid f) (f_tag f) (f_msize f) (f_version f) (f_oldtag f) (f_ename f) (f_qid f) (f_iounit f)
    (f_aqid f) (f_afid f) (f_uname f) (f_aname f) (f_perm f) (f_name f) (f_mode f) (f_newfid f) (f_nwname f)
    (f_wname f) (f_nwqid f) (f_wqid f) (f_offset f) (f_count f) (f_data f) (f_nstat f) (f_stat f)) in
  match eval pattern (m f) in t with ?g _ => let r := eval cbv beta in (g v) in exact r end.
Definition set_type {P} (v : Z) (f : Fcall P) : Fcall P := ltac:(set_member (@f_type P) f v).
Definition set_fid {P} (v : Z) (f : Fcall P) : Fcall P := ltac:(set_member (@f_fid P) f v).
Definition set_tag {P} (v : Z) (f : Fcall P) : Fcall P := ltac:(set_member (@f_tag P) f v).
Definition set_msize {P} (v : Z) (f : Fcall P) : Fcall P := ltac:(set_member (@f_msize P) f v).
Definition set_version {P} (v : option P) (f : Fcall P) : Fcall P := ltac:(set_member (@f_version P) f v).
Definition set_oldtag {P} (v : Z) (f : Fcall P) : Fcall P := ltac:(set_member (@f_oldtag P) f v).
Definition set_ename {P} (v : option P) (f : Fcall P) : Fcall P := ltac:(set_member (@f_ename P) f v).
Definition set_qid {P} (v : Qid) (f : Fcall P) : Fcall P := ltac:(set_member (@f_qid P) f v).
Definition set_iounit {P} (v : Z) (f : Fcall P) : Fcall P := ltac:(set_member (@f_iounit P) f v).
Definition set_aqid {P} (v : Qid) (f : Fcall P) : Fcall P := ltac:(set_member (@f_aqid P) f v).
Definition set_afid {P} (v : Z) (f : Fcall P) : Fcall P := ltac:(set_member (@f_afid P) f v).
Definition set_uname {P} (v : option P) (f : Fcall P) : Fcall P := ltac:(set_member (@f_uname P) f v).
Definition set_aname {P} (v : option P) (f : Fcall P) : Fcall P := ltac:(set_member (@f_aname P) f v).
Definition set_perm {P} (v : Z) (f : Fcall P) : Fcall P := ltac:(set_member (@f_perm P) f v).
Definition set_name {P} (v : option P) (f : Fcall P) : Fcall P := ltac:(set_member (@f_name P) f v).
Definition set_mode {P} (v : Z) (f : Fcall P) : Fcall P := ltac:(set_member (@f_mode P) f v).
Definition set_newfid {P} (v : Z) (f : Fcall P) : Fcall P := ltac:(set_member (@f_newfid P) f v).
Definition set_nwname {P} (v : Z) (f : Fcall P) : Fcall P := ltac:(set_member (@f_nwname P) f v).
Definition set_wname {P} (v : list (option P)) (f : Fcall P) : Fcall P := ltac:(set_member (@f_wname P) f v).
Definition set_nwqid {P} (v : Z) (f : Fcall P) : Fcall P := ltac:(set_member (@f_nwqid P) f v).
Definition set_wqid {P} (v : list Qid) (f : Fcall P) : Fcall P := ltac:(set_member (@f_wqid P) f v).
Definition set_offset {P} (v : Z) (f : Fcall P) : Fcall P := ltac:(set_member (@f_offset P) f v).
Definition set_count {P} (v : Z) (f : Fcall P) : Fcall P := ltac:(set_member (@f_count P) f v).
Definition set_data {P} (v : option P) (f : Fcall P) : Fcall P := ltac:(set_member (@f_data P) f v).
Definition set_nstat {P} (v : Z) (f : Fcall P) : Fcall P := ltac:(set_member (@f_nstat P) f v).
Definition set_stat {P} (v : option P) (f : Fcall P) : Fcall P := ltac:(set_member (@f_stat P) f v).

(** A [switch] on the message type: the labels of a case and its body. *)
Fixpoint switch {A} (t : Z) (cases : list (list Z * A)) (default : A) : A :=
  match cases with
  | [] => default
  | (labels, body) :: cases => if existsb (Z.eqb t) labels then body else switch t cases default
  end.

(** ** sizeS2M *)

Definition strlen (s : list Z) : Z := Z.of_nat (length s).
Definition stringsz (s : option (list Z)) : Z :=
  match s with None => BIT16SZ | Some s => u32 (BIT16SZ + strlen s) end.

(** [for(i=0; i<f->nwname; i++) n += stringsz(f->wname[i]);]: [None] when it
    runs off the array. *)
Fixpoint wname_size (k : nat) (wname : list (option (list Z))) : option Z :=
  match k, wname with
  | O, _ => Some 0
  | S _, [] => None
  | S k, s :: wname => n ← wname_size k wname; Some (stringsz s + n)
  end.

(** The sum is an unsigned int. *)
Definition sizeS2M (f : Fcall (list Z)) : option Z :=
  let n := BIT32SZ + BIT8SZ + BIT16SZ in
  r ← switch (f_type f)
    [ ([Tversion], Some (n + BIT32SZ + stringsz (f_version f)));
      ([Tflush], Some (n + BIT16SZ));
      ([Tauth], Some (n + BIT32SZ + stringsz (f_uname f) + stringsz (f_aname f)));
      ([Tattach], Some (n + BIT32SZ + BIT32SZ + stringsz (f_uname f) + stringsz (f_aname f)));
      ([Twalk], w ← wname_size (Z.to_nat (f_nwname f)) (f_wname f);
                Some (n + BIT32SZ + BIT32SZ + BIT16SZ + w));
      ([Topen], Some (n + BIT32SZ + BIT8SZ));
      ([Tcreate], Some (n + BIT32SZ + stringsz (f_name f) + BIT32SZ + BIT8SZ));
      ([Tread], Some (n + BIT32SZ + BIT64SZ + BIT32SZ));
      ([Twrite], Some (n + BIT32SZ + BIT64SZ + BIT32SZ + f_count f));
      ([Tclunk; Tremove], Some (n + BIT32SZ));
      ([Tstat], Some (n + BIT32SZ));
      ([Twstat], Some (n + BIT32SZ + BIT16SZ + f_nstat f));
      ([Rversion], Some (n + BIT32SZ + stringsz (f_version f)));
      ([Rerror], Some (n + stringsz (f_ename f)));
      ([Rflush], Some n);
      ([Rauth], Some (n + QIDSZ));
      ([Rattach], Some (n + QIDSZ));
      ([Rwalk], Some (n + BIT16SZ + f_nwqid f * QIDSZ));
      ([Ropen; Rcreate], Some (n + QIDSZ + BIT32SZ));
      ([Rread], Some (n + BIT32SZ + f_count f));
      ([Rwrite], Some (n + BIT32SZ));
      ([Rclunk], Some n);
      ([Rremove], Some n);
      ([Rstat], Some (n + BIT16SZ + f_nstat f));
      ([Rwstat], Some n) ] (Some 0);
  Some (u32 r).

(** ** convS2M *)

Section pack.
Context (nap : Z).

(** The state is the bytes stored from [ap] on; [p] points after them.  A store
    past the [nap] bytes of the buffer is undefined. *)
Definition put_bytes (bs : list Z) : ST (list Z) unit := fun out =>
  let out := out ++ bs in
  if nap <? Z.of_nat (length out) then Fault else Ok tt out.

(** [(p)[i] = (v)>>8*i] *)
Definition PBIT8 (v : Z) : ST (list Z) unit := put_bytes (le_bytes 1 v).
Definition PBIT16 (v : Z) : ST (list Z) unit := put_bytes (le_bytes 2 v).
Definition PBIT32 (v : Z) : ST (list Z) unit := put_bytes (le_bytes 4 v).
Definition PBIT64 (v : Z) : ST (list Z) unit := put_bytes (le_bytes 8 v).

(** [memmove(p, s, n)] *)
Definition put_data (s : option (list Z)) (n : Z) : ST (list Z) unit :=
  let s := default [] s in
  if strlen s <? n then fault else put_bytes (take (Z.to_nat n) s).

Definition pstring (s : option (list Z)) : ST (list Z) unit :=
  match s with
  | None => PBIT16 0
  | Some b => let n := u32 (strlen b) in PBIT16 n;; put_data s n
  end.

Definition pqid (q : Qid) : ST (list Z) unit :=
  PBIT8 (q_type q);; PBIT32 (q_vers q);; PBIT64 (q_path q).

(** [for(i=0; i<n; i++) put(l[i]);] *)
Fixpoint put_array {A} (put : A -> ST (list Z) unit) (k : nat) (l : list A) : ST (list Z) unit :=
  match k, l with
  | O, _ => mret tt
  | S _, [] => fault
  | S k, x :: l => put x;; put_array put k l
  end.

(** [return 0;] inside the switch *)
Definition return0 {S A} : ST S A := error "".

Definition pack_body (f : Fcall (list Z)) : ST (list Z) unit :=
  switch (f_type f)
    [ ([Tversion], PBIT32 (f_msize f);; pstring (f_version f));
      ([Tflush], PBIT16 (f_oldtag f));
      ([Tauth], PBIT32 (f_afid f);; pstring (f_uname f);; pstring (f_aname f));
      ([Tattach], PBIT32 (f_fid f);; PBIT32 (f_afid f);; pstring (f_uname f);; pstring (f_aname f));
      ([Twalk], PBIT32 (f_fid f);; PBIT32 (f_newfid f);; PBIT16 (f_nwname f);;
                when (MAXWELEM <? f_nwname f) return0;;
                put_array pstring (Z.to_nat (f_nwname f)) (f_wname f));
      ([Topen], PBIT32 (f_fid f);; PBIT8 (f_mode f));
      ([Tcreate], PBIT32 (f_fid f);; pstring (f_name f);; PBIT32 (f_perm f);; PBIT8 (f_mode f));
      ([Tread], PBIT32 (f_fid f);; PBIT64 (f_offset f);; PBIT32 (f_count f));
      ([Twrite], PBIT32 (f_fid f);; PBIT64 (f_offset f);; PBIT32 (f_count f);;
                 put_data (f_data f) (f_count f));
      ([Tclunk; Tremove], PBIT32 (f_fid f));
      ([Tstat], PBIT32 (f_fid f));
      ([Twstat], PBIT32 (f_fid f);; PBIT16 (f_nstat f);; put_data (f_stat f) (f_nstat f));
      ([Rversion], PBIT32 (f_msize f);; pstring (f_version f));
      ([Rerror], pstring (f_ename f));
      ([Rflush], mret tt);
      ([Rauth], pqid (f_aqid f));
      ([Rattach], pqid (f_qid f));
      ([Rwalk], PBIT16 (f_nwqid f);; when (MAXWELEM <? f_nwqid f) return0;;
                put_array pqid (Z.to_nat (f_nwqid f)) (f_wqid f));
      ([Ropen; Rcreate], pqid (f_qid f);; PBIT32 (f_iounit f));
      ([Rread], PBIT32 (f_count f);; put_data (f_data f) (f_count f));
      ([Rwrite], PBIT32 (f_count f));
      ([Rclunk], mret tt);
      ([Rremove], mret tt);
      ([Rstat], PBIT16 (f_nstat f);; put_data (f_stat f) (f_nstat f));
      ([Rwstat], mret tt) ] return0.

(** The result is the value returned and the bytes stored. *)
Definition convS2M (f : Fcall (list Z)) : outcome (list Z) Z :=
  match sizeS2M f with
  | None => Fault
  | Some size =>
      if size =? 0 then Ok 0 []
      else if nap <? size then Ok 0 []
      else match (PBIT32 size;; PBIT8 (f_type f);; PBIT16 (f_tag f);; pack_body f) [] with
           | Ok _ out => Ok (if size =? strlen out then size else 0) out
           | Err _ out => Ok 0 out
           | Fault => Fault
           end
  end.

End pack.

(** ** convM2S *)

(** The message is a zipper: the bytes before [p] and those from [p] to [ep]. *)
Record M2S : Type := MkM2S { before : list Z; after : list Z; fcall : Fcall Z }.

Definition need (n : Z) : ST M2S unit := fun st =>
  if Z.of_nat (length (after st)) <? n then return0 st else Ok tt st.

(** [GBIT8], [GBIT16], [GBIT32] at [p], then the increment of [p]. *)
Definition get (n : nat) : ST M2S Z := fun st =>
  if (length (after st) <? n)%nat then Fault
  else Ok (le_val (take n (after st)))
          (MkM2S (before st ++ take n (after st)) (drop n (after st)) (fcall st)).

Definition GBIT8 : ST M2S Z := get 1.
Definition GBIT16 : ST M2S Z := get 2.
Definition GBIT32 : ST M2S Z := get 4.
(** the low word is converted to u32, the sum to the type of the member *)
Definition GBIT64 : ST M2S Z := get 8.

Definition upd (g : Fcall Z -> Fcall Z) : ST M2S unit :=
  modify (fun st => MkM2S (before st) (after st) (g (fcall st))).

(** [f->m = GBIT(p); p += SZ;] *)
Definition load (c : ST M2S Z) (set : Z -> Fcall Z -> Fcall Z) : ST M2S unit :=
  v ← c; upd (set v).

(** [f->m = p; p += n;] *)
Definition point (n : Z) (set : option Z -> Fcall Z -> Fcall Z) : ST M2S unit := fun st =>
  Ok tt (MkM2S (before st ++ take (Z.to_nat n) (after st)) (drop (Z.to_nat n) (after st))
               (set (Some (strlen (before st))) (fcall st))).

(** gstring: the string is moved down over the second byte of its count to make
    room for a NUL.  Every caller leaves the switch when the result is nil, and
    then returns 0. *)
Definition gstring_moved (set : option Z -> Fcall Z -> Fcall Z) : ST M2S unit := fun st =>
  match after st with
  | lo :: hi :: rest =>
      let n := le_val [lo; hi] in
      if Z.of_nat (length rest) <? n then return0 st
      else
        let p := strlen (before st) + (BIT16SZ - 1) in
        Ok tt (MkM2S (before st ++ [lo] ++ take (Z.to_nat n) rest ++ [0]) (drop (Z.to_nat n) rest)
                     (set (Some p) (fcall st)))
  | _ => Fault
  end.
Definition gstring (set : option Z -> Fcall Z -> Fcall Z) : ST M2S unit :=
  need BIT16SZ;; gstring_moved set.

Definition gqid (set : Qid -> Fcall Z -> Fcall Z) : ST M2S unit :=
  need QIDSZ;;
  ty ← GBIT8; vers ← GBIT32; path ← GBIT64;
  upd (set (MkQid path vers ty)).

(** [for(i = i; i < i+k; i++) p = get(p, ep, &f->l[i]);] *)
Fixpoint get_array (one : nat -> ST M2S unit) (k i : nat) : ST M2S unit :=
  match k with
  | O => mret tt
  | S k => one i;; get_array one k (S i)
  end.

Definition set_wname_at (i : nat) (v : option Z) (f : Fcall Z) : Fcall Z :=
  set_wname (<[i := v]> (f_wname f)) f.
Definition set_wqid_at (i : nat) (v : Qid) (f : Fcall Z) : Fcall Z :=
  set_wqid (<[i := v]> (f_wqid f)) f.

Definition unpack_body (t : Z) : ST M2S unit :=
  switch t
    [ ([Tversion], need BIT32SZ;; load GBIT32 set_msize;; gstring set_version);
      ([Tflush], need BIT16SZ;; load GBIT16 set_oldtag);
      ([Tauth], need BIT32SZ;; load GBIT32 set_afid;; gstring set_uname;; gstring set_aname);
      ([Tattach], need BIT32SZ;; load GBIT32 set_fid;; need BIT32SZ;; load GBIT32 set_afid;;
                  gstring set_uname;; gstring set_aname);
      ([Twalk], need (BIT32SZ + BIT32SZ + BIT16SZ);;
                load GBIT32 set_fid;; load GBIT32 set_newfid;; load GBIT16 set_nwname;;
                n ← gets (fun st => f_nwname (fcall st));
                when (MAXWELEM <? n) return0;;
                get_array (fun i => gstring (set_wname_at i)) (Z.to_nat n) 0);
      ([Topen], need (BIT32SZ + BIT8SZ);; load GBIT32 set_fid;; load GBIT8 set_mode);
      ([Tcreate], need BIT32SZ;; load GBIT32 set_fid;; gstring set_name;;
                  need (BIT32SZ + BIT8SZ);; load GBIT32 set_perm;; load GBIT8 set_mode);
      ([Tread], need (BIT32SZ + BIT64SZ + BIT32SZ);;
                load GBIT32 set_fid;; load GBIT64 (fun v => set_offset (s64 v));; load GBIT32 set_count);
      ([Twrite], need (BIT32SZ + BIT64SZ + BIT32SZ);;
                 load GBIT32 set_fid;; load GBIT64 (fun v => set_offset (s64 v));; load GBIT32 set_count;;
                 n ← gets (fun st => f_count (fcall st)); need n;; point n set_data);
      ([Tclunk; Tremove], need BIT32SZ;; load GBIT32 set_fid);
      ([Tstat], need BIT32SZ;; load GBIT32 set_fid);
      ([Twstat], need (BIT32SZ + BIT16SZ);; load GBIT32 set_fid;; load GBIT16 set_nstat;;
                 n ← gets (fun st => f_nstat (fcall st)); need n;; point n set_stat);
      ([Rversion], need BIT32SZ;; load GBIT32 set_msize;; gstring set_version);
      ([Rerror], gstring set_ename);
      ([Rflush], mret tt);
      ([Rauth], gqid set_aqid);
      ([Rattach], gqid set_qid);
      ([Rwalk], need BIT16SZ;; load GBIT16 set_nwqid;;
                n ← gets (fun st => f_nwqid (fcall st));
                when (MAXWELEM <? n) return0;;
                get_array (fun i => gqid (set_wqid_at i)) (Z.to_nat n) 0);
      ([Ropen; Rcreate], gqid set_qid;; need BIT32SZ;; load GBIT32 set_iounit);
      ([Rread], need BIT32SZ;; load GBIT32 set_count;;
                n ← gets (fun st => f_count (fcall st)); need n;; point n set_data);
      ([Rwrite], need BIT32SZ;; load GBIT32 set_count);
      ([Rclunk; Rremove], mret tt);
      ([Rstat], need BIT16SZ;; load GBIT16 set_nstat;;
                n ← gets (fun st => f_nstat (fcall st)); need n;; point n set_stat);
      ([Rwstat], mret tt) ] return0.

(** [buf] is the [nap] bytes at [ap].  The result is the value returned, the
    message as it was left and the members that were set. *)
Definition convM2S_run : ST M2S Z :=
  need (BIT32SZ + BIT8SZ + BIT16SZ);;
  size ← GBIT32;
  when (size <? BIT32SZ + BIT8SZ + BIT16SZ) return0;;
  load GBIT8 set_type;;
  load GBIT16 set_tag;;
  t ← gets (fun st => f_type (fcall st));
  unpack_body t;;
  p ← gets (fun st => strlen (before st));
  if p =? size then mret size else return0.
Definition convM2S (buf : list Z) (f : Fcall Z) : outcome M2S Z :=
  match convM2S_run (MkM2S [] buf f) with
  | Ok v st => Ok v st
  | Err _ st => Ok 0 st
  | Fault => Fault
  end.

(** ** The protocol *)

(** The parameters of a message: an unsigned integer of [w] bytes, the signed
    offset of Tread and Twrite, a counted string, a qid, and [n] bytes of data
    (whose count is a parameter of its own). *)
Inductive value : Type :=
  | VNum (w : nat) (v : Z)
  | VOff (v : Z)
  | VStr (s : list Z)
  | VQid (q : Qid)
  | VData (n : Z) (bs : list Z).

Definition str (s : option (list Z)) : value := VStr (default [] s).
Definition payload (n : Z) (s : option (list Z)) : value := VData n (take (Z.to_nat n) (default [] s)).

(** The parameters of the message [f] stands for, in their order. *)
Definition fields (f : Fcall (list Z)) : option (list value) :=
  switch (f_type f)
    [ ([Tversion], Some [VNum 4 (f_msize f); str (f_version f)]);
      ([Rversion], Some [VNum 4 (f_msize f); str (f_version f)]);
      ([Tauth], Some [VNum 4 (f_afid f); str (f_uname f); str (f_aname f)]);
      ([Rauth], Some [VQid (f_aqid f)]);
      ([Rerror], Some [str (f_ename f)]);
      ([Tflush], Some [VNum 2 (f_oldtag f)]);
      ([Rflush], Some []);
      ([Tattach], Some [VNum 4 (f_fid f); VNum 4 (f_afid f); str (f_uname f); str (f_aname f)]);
      ([Rattach], Some [VQid (f_qid f)]);
      ([Twalk], Some ([VNum 4 (f_fid f); VNum 4 (f_newfid f); VNum 2 (f_nwname f)]
                      ++ (str <$> take (Z.to_nat (f_nwname f)) (f_wname f))));
      ([Rwalk], Some (VNum 2 (f_nwqid f) :: (VQid <$> take (Z.to_nat (f_nwqid f)) (f_wqid f))));
      ([Topen], Some [VNum 4 (f_fid f); VNum 1 (f_mode f)]);
      ([Ropen; Rcreate], Some [VQid (f_qid f); VNum 4 (f_iounit f)]);
      ([Tcreate], Some [VNum 4 (f_fid f); str (f_name f); VNum 4 (f_perm f); VNum 1 (f_mode f)]);
      ([Tread], Some [VNum 4 (f_fid f); VOff (f_offset f); VNum 4 (f_count f)]);
      ([Rread], Some [VNum 4 (f_count f); payload (f_count f) (f_data f)]);
      ([Twrite], Some [VNum 4 (f_fid f); VOff (f_offset f); VNum 4 (f_count f);
                       payload (f_count f) (f_data f)]);
      ([Rwrite], Some [VNum 4 (f_count f)]);
      ([Tclunk; Tremove; Tstat], Some [VNum 4 (f_fid f)]);
      ([Rclunk; Rremove; Rwstat], Some []);
      ([Rstat], Some [VNum 2 (f_nstat f); payload (f_nstat f) (f_stat f)]);
      ([Twstat], Some [VNum 4 (f_fid f); VNum 2 (f_nstat f); payload (f_nstat f) (f_stat f)]) ] None.

Definition qid_wire (q : Qid) : list Z :=
  le_bytes 1 (q_type q) ++ le_bytes 4 (q_vers q) ++ le_bytes 8 (q_path q).
Definition wire (v : value) : list Z :=
  match v with
  | VNum w v => le_bytes w v
  | VOff v => le_bytes 8 v
  | VStr s => le_bytes 2 (strlen s) ++ s
  | VQid q => qid_wire q
  | VData _ bs => bs
  end.
Definition wires (vs : list value) : list Z := mjoin (wire <$> vs).

(** [size[4] type[1] tag[2]] and the parameters. *)
Definition message (t tag : Z) (vs : list value) : list Z :=
  le_bytes 4 (7 + strlen (wires vs)) ++ le_bytes 1 t ++ le_bytes 2 tag ++ wires vs.

Definition fits_qid (q : Qid) : Prop :=
  0 <= q_type q < pow8 1 /\ 0 <= q_vers q < pow8 4 /\ 0 <= q_path q < pow8 8.
Definition fits (v : value) : Prop :=
  match v with
  | VNum w v => 0 <= v < pow8 w
  | VOff v => -9223372036854775808 <= v < 9223372036854775808
  | VStr s => strlen s < M16
  | VQid q => fits_qid q
  | VData n bs => 0 <= n /\ strlen bs = n
  end.

(** A C string ends at its first NUL. *)
Fixpoint cstr (b : list Z) : option (list Z) :=
  match b with
  | [] => None
  | c :: b => if c =? 0 then Some [] else (fun s => c :: s) <$> cstr b
  end.
Fixpoint cut (s : list Z) : list Z :=
  match s with
  | [] => []
  | c :: s => if c =? 0 then [] else c :: cut s
  end.
Definition cut_value (v : value) : value :=
  match v with VStr s => VStr (cut s) | v => v end.

(** What an unpacked message points to in the buffer [b]. *)
Definition str_at (b : list Z) (o : Z) : option (list Z) := cstr (drop (Z.to_nat o) b).
Definition obj_at (b : list Z) (o : Z) : list Z := drop (Z.to_nat o) b.
Definition deref (b : list Z) (f : Fcall Z) : Fcall (list Z) :=
  let s o := o ≫= str_at b in
  MkFcall (f_type f) (f_fid f) (f_tag f) (f_msize f) (s (f_version f)) (f_oldtag f)
    (s (f_ename f)) (f_qid f) (f_iounit f) (f_aqid f) (f_afid f) (s (f_uname f)) (s (f_aname f))
    (f_perm f) (s (f_name f)) (f_mode f) (f_newfid f) (f_nwname f) (s <$> f_wname f) (f_nwqid f)
    (f_wqid f) (f_offset f) (f_count f) (obj_at b <$> f_data f) (f_nstat f) (obj_at b <$> f_stat f).

(** ** Strings in the buffer *)

Lemma cstr_app b x s : cstr b = Some s -> cstr (b ++ x) = Some s.
Proof.
  revert s. induction b as [|c b IH]; intros s; cbn [cstr app]; [done|]. case_match; [done|].
  destruct (cstr b) eqn:E; cbn; [|done]. intros [= <-]. by rewrite (IH _ eq_refl).
Qed.
Lemma cstr_here s r : cstr (s ++ 0 :: r) = Some (cut s).
Proof.
  induction s as [|c s IH]; cbn [cstr cut app]; [done|]. case_match; [done|]. by rewrite IH.
Qed.
Lemma str_at_app b x o s : str_at b o = Some s -> str_at (b ++ x) o = Some s.
Proof.
  unfold str_at. intros E. rewrite drop_app. apply cstr_app. done.
Qed.
Lemma str_at_here b lo s x : str_at (b ++ [lo] ++ s ++ [0] ++ x) (strlen b + (BIT16SZ - 1)) = Some (cut s).
Proof.
  unfold str_at, strlen, BIT16SZ. replace (Z.to_nat _) with (length (b ++ [lo])).
  2: { rewrite length_app. cbn. lia. }
  rewrite app_assoc, drop_app_length. apply cstr_here.
Qed.
Lemma cut_no_nul s : Forall (fun c => c <> 0) s -> cut s = s.
Proof. induction 1 as [|c s Hc _ IH]; cbn [cut]; [done|]. case_match; [lia|]. by rewrite IH. Qed.

Lemma strlen_app a b : strlen (a ++ b) = strlen a + strlen b.
Proof. unfold strlen. rewrite length_app. lia. Qed.
Lemma strlen_le_bytes n v : strlen (le_bytes n v) = Z.of_nat n.
Proof. unfold strlen. by rewrite length_le_bytes. Qed.
Lemma strlen_cons c s : strlen (c :: s) = 1 + strlen s.
Proof. unfold strlen. cbn [length]. lia. Qed.
Lemma strlen_nonneg s : 0 <= strlen s.
Proof. unfold strlen. lia. Qed.
Lemma wires_cons v vs : wires (v :: vs) = wire v ++ wires vs.
Proof. done. Qed.
Lemma wires_app vs ws : wires (vs ++ ws) = wires vs ++ wires ws.
Proof. unfold wires. by rewrite fmap_app, join_app. Qed.

(** ** Packing *)

(** [c] stores [bs] when the buffer has room for them. *)
Definition emits (nap : Z) (c : ST (list Z) unit) (bs : list Z) : Prop :=
  forall out, strlen out + strlen bs <= nap -> c out = Ok tt (out ++ bs).

Lemma emits_put nap bs : emits nap (put_bytes nap bs) bs.
Proof.
  intros out H. unfold put_bytes. rewrite <- strlen_app in H. unfold strlen in H.
  destruct (Z.ltb_spec nap (Z.of_nat (length (out ++ bs)))); [lia|done].
Qed.
Lemma emits_bind nap c d bs cs : emits nap c bs -> emits nap d cs -> emits nap (c;; d) (bs ++ cs).
Proof.
  intros Hc Hd out H. rewrite strlen_app in H.
  rewrite (bind_ok c _ tt out (out ++ bs)) by (apply Hc; pose proof (strlen_nonneg cs); lia).
  rewrite Hd by (rewrite strlen_app; lia). by rewrite app_assoc.
Qed.
Lemma emits_ret nap : emits nap (mret tt) [].
Proof. intros out _. by rewrite app_nil_r. Qed.
Lemma emits_when nap b : b = false -> emits nap (when b return0) [].
Proof. intros ->. apply emits_ret. Qed.
Lemma emits_data nap s n :
  0 <= n -> strlen (take (Z.to_nat n) (default [] s)) = n ->
  emits nap (put_data nap s n) (take (Z.to_nat n) (default [] s)).
Proof.
  intros Hn H. unfold put_data. destruct (Z.ltb_spec (strlen (default [] s)) n); [|apply emits_put].
  unfold strlen in *. rewrite length_take in H. lia.
Qed.
Lemma emits_pstring nap s : strlen (default [] s) < M16 -> emits nap (pstring nap s) (wire (str s)).
Proof.
  intros H. destruct s as [b|]; cbn [pstring str wire from_option id] in *; [|apply emits_put].
  pose proof (strlen_nonneg b). replace (u32 (strlen b)) with (strlen b) by (unfold u32, M16, M32 in *; rewrite Z.mod_small; lia).
  apply emits_bind; [apply emits_put|].
  assert (E : take (Z.to_nat (strlen b)) b = b) by (apply take_ge; unfold strlen; lia).
  pose proof (emits_data nap (Some b) (strlen b)) as Hd. cbn [from_option id] in Hd. rewrite E in Hd. auto.
Qed.
Lemma emits_pqid nap q : emits nap (pqid nap q) (qid_wire q).
Proof. unfold pqid, qid_wire. repeat (apply emits_bind); apply emits_put. Qed.
Lemma emits_array {A} nap (put : A -> ST (list Z) unit) (g : A -> value) k l :
  (k <= length l)%nat -> Forall (fun x => emits nap (put x) (wire (g x))) (take k l) ->
  emits nap (put_array put k l) (wires (g <$> take k l)).
Proof.
  revert l. induction k as [|k IH]; intros [|x l]; cbn [length put_array take]; try lia.
  - intros _ _. apply emits_ret.
  - intros _ _. apply emits_ret.
  - intros Hk H. inversion H; subst. rewrite fmap_cons, wires_cons. apply emits_bind; [done|]. apply IH; [lia|done].
Qed.

Create HintDb styx.
#[export] Hint Resolve emits_put emits_ret emits_data emits_pstring emits_pqid emits_bind emits_when : styx.

(** The 27 message types. *)
Definition types : list Z :=
  [Tversion; Rversion; Tauth; Rauth; Tattach; Rattach; Rerror; Tflush; Rflush; Twalk; Rwalk; Topen;
   Ropen; Tcreate; Rcreate; Tread; Rread; Twrite; Rwrite; Tclunk; Rclunk; Tremove; Rremove; Tstat;
   Rstat; Twstat; Rwstat].

Lemma switch_types {A} t (cases : list (list Z * A)) d :
  forallb (fun c => forallb (fun l => bool_decide (l ∈ types)) c.1) cases = true ->
  ~ t ∈ types -> switch t cases d = d.
Proof.
  induction cases as [|[ls body] cases IH]; cbn [switch forallb fst]; [done|].
  intros [Hl Hc]%andb_true_iff Ht. destruct (existsb (Z.eqb t) ls) eqn:E; [|auto].
  apply existsb_exists in E as [l [Hin El]]. apply Z.eqb_eq in El as <-.
  rewrite forallb_forall in Hl. specialize (Hl _ Hin). by apply bool_decide_eq_true in Hl.
Qed.

(** One goal per message type, the switches decided. *)
Ltac by_type H :=
  unfold types in H; repeat (apply elem_of_cons in H as [->|H]); [..|by apply elem_of_nil in H].
Ltac switches :=
  repeat match goal with
  | |- context [switch ?t ?l ?d] => let r := eval cbn in (switch t l d) in change (switch t l d) with r
  | H : context [switch ?t ?l ?d] |- _ => let r := eval cbn in (switch t l d) in change (switch t l d) with r in H
  end.

(** The message is well formed for packing: every parameter fits its place on
    the wire, the arrays are as declared and there are at most MAXWELEM names
    or qids. *)
Record packable (f : Fcall (list Z)) (vs : list value) : Prop := {
  pk_fields : fields f = Some vs;
  pk_fits : Forall fits vs;
  pk_tag : 0 <= f_tag f < M16;
  pk_walk : f_type f = Twalk -> f_nwname f <= MAXWELEM;
  pk_rwalk : f_type f = Rwalk -> f_nwqid f <= MAXWELEM;
  pk_wname : length (f_wname f) = Z.to_nat MAXWELEM;
  pk_wqid : length (f_wqid f) = Z.to_nat MAXWELEM;
  pk_size : 7 + strlen (wires vs) < M32;
}.

Lemma stringsz_wire s : strlen (default [] s) < M16 -> stringsz s = strlen (wire (str s)).
Proof.
  intros H. destruct s as [b|]; cbn [stringsz str wire from_option id] in *; rewrite strlen_app, strlen_le_bytes.
  - pose proof (strlen_nonneg b). unfold BIT16SZ, u32, M16, M32 in *. rewrite Z.mod_small; lia.
  - done.
Qed.

Lemma wname_size_wires k l :
  (k <= length l)%nat -> Forall fits (str <$> take k l) ->
  wname_size k l = Some (strlen (wires (str <$> take k l))).
Proof.
  revert l. induction k as [|k IH]; intros [|s l] Hk H; cbn [length take] in *; try lia; try done.
  rewrite fmap_cons in H |- *. inversion H; subst. cbn [wname_size]. rewrite IH by (done || lia).
  rewrite wires_cons, strlen_app. cbn [mbind option_bind]. f_equal. f_equal. by apply stringsz_wire.
Qed.
Lemma wires_qids k l : (k <= length l)%nat -> strlen (wires (VQid <$> take k l)) = Z.of_nat k * QIDSZ.
Proof.
  revert l. induction k as [|k IH]; intros [|q l] Hk; cbn [length take] in *; try lia; try done.
  rewrite fmap_cons, wires_cons, strlen_app, IH by lia. cbn [wire]. unfold qid_wire.
  rewrite !strlen_app, !strlen_le_bytes. unfold QIDSZ, BIT8SZ, BIT32SZ, BIT64SZ. lia.
Qed.

Lemma fields_types f : (exists vs, fields f = Some vs) <-> f_type f ∈ types.
Proof.
  split.
  - intros [vs E]. destruct (decide (f_type f ∈ types)) as [|H]; [done|].
    unfold fields in E. rewrite switch_types in E by done. done.
  - intros H. unfold fields. remember (f_type f) as t eqn:E. clear E. by_type H; switches; eauto.
Qed.

Ltac fit H := repeat match type of H with
  | Forall fits (_ :: _) => apply Forall_cons_iff in H as [? H]
  | Forall fits (_ ++ _) => apply Forall_app in H as [? H]
  end; cbn [fits] in *.
Lemma strlen_qid_wire q : strlen (qid_wire q) = 13.
Proof. unfold qid_wire. by rewrite !strlen_app, !strlen_le_bytes. Qed.
Lemma u32_eq x y : x = y -> 0 <= y < M32 -> u32 x = y.
Proof. intros -> H. by apply Z.mod_small. Qed.
Ltac wire_sizes :=
  rewrite ?wires_cons, ?strlen_app; cbn [wire payload];
  rewrite ?strlen_app, ?strlen_le_bytes, ?strlen_qid_wire; change (strlen (wires [])) with 0;
  unfold QIDSZ, BIT8SZ, BIT16SZ, BIT32SZ, BIT64SZ in *.

Lemma sizeS2M_wires f vs : packable f vs -> sizeS2M f = Some (7 + strlen (wires vs)).
Proof.
  intros [Hf Hfit _ Hw Hr Hl1 Hl2 Hsz].
  assert (Ht : f_type f ∈ types) by (apply fields_types; eauto).
  pose proof (strlen_nonneg (wires vs)) as Hpos.
  assert (Hb : 0 <= 7 + strlen (wires vs) < M32) by lia. clear Hpos Hsz.
  unfold sizeS2M, fields in *. remember (f_type f) as t eqn:Et. clear Et.
  by_type Ht; switches; simplify_eq; fit Hfit; cbn [mbind option_bind].
  10: { specialize (Hw eq_refl). rewrite wname_size_wires by (done || (unfold MAXWELEM in *; lia)).
        cbn [mbind option_bind]. f_equal. apply u32_eq; [|done]. wire_sizes. lia. }
  10: { specialize (Hr eq_refl). f_equal. apply u32_eq; [|done].
        rewrite wires_cons, strlen_app, wires_qids by (unfold MAXWELEM in *; lia). cbn [wire]. rewrite strlen_le_bytes.
        unfold QIDSZ, BIT8SZ, BIT16SZ, BIT32SZ, BIT64SZ. lia. }
  all: apply f_equal, u32_eq; [|done]; rewrite ?stringsz_wire by done; wire_sizes; unfold payload in *; cbn [fits wire] in *; lia.
Qed.

Lemma emits_cons nap c d v vs : emits nap c (wire v) -> emits nap d (wires vs) -> emits nap (c;; d) (wires (v :: vs)).
Proof. rewrite wires_cons. apply emits_bind. Qed.
Lemma emits_one nap c v : emits nap c (wire v) -> emits nap c (wires [v]).
Proof. rewrite wires_cons, app_nil_r. done. Qed.
Lemma emits_skip nap b c bs : b = false -> emits nap c bs -> emits nap (when b return0;; c) bs.
Proof. intros Hb Hc. change bs with ([] ++ bs). apply emits_bind; [by apply emits_when|done]. Qed.

Ltac leaf := cbn [wire]; lazymatch goal with
  | |- emits _ (pqid _ _) _ => apply emits_pqid
  | |- emits _ (pstring _ _) _ => by apply emits_pstring
  | |- emits _ (put_data _ _ _) _ => apply emits_data; lia
  | |- emits _ (mret _) _ => apply emits_ret
  | |- emits _ _ (le_bytes _ _) => apply emits_put
  end.

Lemma pack_body_wires nap f vs : packable f vs -> emits nap (pack_body nap f) (wires vs).
Proof.
  intros [Hf Hfit _ Hw Hr Hl1 Hl2 Hsz].
  assert (Ht : f_type f ∈ types) by (apply fields_types; eauto). clear Hsz.
  unfold pack_body, fields in *. remember (f_type f) as t eqn:Et. clear Et.
  by_type Ht; switches; simplify_eq; fit Hfit; unfold payload in *; cbn [fits] in *.
  all: repeat lazymatch goal with
    | |- emits _ (_ ≫= _) (wires (_ :: _)) => apply emits_cons; [leaf|]
    | |- emits _ _ (wires [_]) => apply emits_one; leaf
    | |- emits _ (mret _) _ => apply emits_ret
    | |- emits _ (put_data _ _ _) _ => leaf
    end.
  - apply emits_skip; [specialize (Hw eq_refl); lia|]. apply emits_array; [unfold MAXWELEM in *; lia|].
    rewrite Forall_fmap in Hfit. eapply Forall_impl; [|exact Hfit]. intros s Hs. by apply emits_pstring.
  - apply emits_skip; [specialize (Hr eq_refl); lia|]. apply emits_array; [unfold MAXWELEM in *; lia|].
    apply Forall_true. intros q. apply emits_pqid.
Qed.

Lemma convS2M_message nap f vs :
  packable f vs -> convS2M nap f =
    if nap <? strlen (message (f_type f) (f_tag f) vs) then Ok 0 []
    else Ok (strlen (message (f_type f) (f_tag f) vs)) (message (f_type f) (f_tag f) vs).
Proof.
  intros Hp. unfold convS2M. rewrite (sizeS2M_wires f vs Hp).
  pose proof (strlen_nonneg (wires vs)) as Hpos. set (n := 7 + strlen (wires vs)).
  assert (En : strlen (message (f_type f) (f_tag f) vs) = n).
  { unfold message. rewrite !strlen_app, !strlen_le_bytes. lia. }
  rewrite En. destruct (Z.eqb_spec n 0); [lia|]. destruct (Z.ltb_spec nap n); [done|].
  assert (Ee : emits nap (PBIT32 nap n;; PBIT8 nap (f_type f);; PBIT16 nap (f_tag f);; pack_body nap f)
                 (message (f_type f) (f_tag f) vs)).
  { repeat (apply emits_bind); try apply emits_put. by apply pack_body_wires. }
  rewrite Ee by (change (strlen []) with 0; lia). rewrite app_nil_l, En. by rewrite Z.eqb_refl.
Qed.

(** ** Unpacking *)

(** [c] does not fail other than by returning 0, and if it goes on, [Q]. *)
Definition wp {A} (c : ST M2S A) (Q : A -> M2S -> Prop) (st : M2S) : Prop :=
  match c st with Ok a st => Q a st | Err _ _ => True | Fault => False end.

Lemma wp_bind {A B} (c : ST M2S A) (k : A -> ST M2S B) Q st :
  wp c (fun a => wp (k a) Q) st -> wp (c ≫= k) Q st.
Proof. unfold wp, mbind, ST_bind. by destruct (c st). Qed.
Lemma wp_ret {A} (a : A) (Q : A -> M2S -> Prop) st : Q a st -> wp (mret a) Q st.
Proof. done. Qed.
Lemma wp_gets {A} (g : M2S -> A) (Q : A -> M2S -> Prop) st : Q (g st) st -> wp (gets g) Q st.
Proof. done. Qed.
Lemma wp_when b (Q : unit -> M2S -> Prop) st : (b = false -> Q tt st) -> wp (when b return0) Q st.
Proof. destruct b; [done|]. intros H. by apply H. Qed.
Lemma wp_need n (Q : unit -> M2S -> Prop) b a f :
  (n <= strlen a -> Q tt (MkM2S b a f)) -> wp (need n) Q (MkM2S b a f).
Proof.
  intros H. unfold wp, need, strlen in *. cbn [after].
  destruct (Z.ltb_spec (Z.of_nat (length a)) n); [done|auto].
Qed.

(** The first [n] bytes are the integer read. *)
Lemma split_bytes n a :
  Forall is_byte a -> Z.of_nat n <= strlen a ->
  exists v r, a = le_bytes n v ++ r /\ 0 <= v < pow8 n /\ take n a = le_bytes n v /\ drop n a = r /\
              strlen r = strlen a - Z.of_nat n /\ Forall is_byte r /\ le_val (take n a) = v.
Proof.
  intros Hb Hn. unfold strlen in Hn. assert (Hl : length (take n a) = n) by (rewrite length_take; lia).
  assert (Ht : Forall is_byte (take n a)) by by apply Forall_take.
  pose proof (le_bytes_val _ Ht) as E. rewrite Hl in E. pose proof (le_val_bound _ Ht) as Hv. rewrite Hl in Hv.
  exists (le_val (take n a)), (drop n a). rewrite E. split; [symmetry; apply take_drop|].
  repeat split; try lia; [|by apply Forall_drop]. unfold strlen. rewrite length_drop. lia.
Qed.

Definition advance (b bs r : list Z) (f : Fcall Z) : M2S := MkM2S (b ++ bs) r f.

Lemma wp_get n (Q : Z -> M2S -> Prop) b a f :
  Forall is_byte a -> Z.of_nat n <= strlen a ->
  (forall v r, a = le_bytes n v ++ r -> 0 <= v < pow8 n -> strlen r = strlen a - Z.of_nat n -> Forall is_byte r ->
     Q v (MkM2S (b ++ le_bytes n v) r f)) ->
  wp (get n) Q (MkM2S b a f).
Proof.
  intros Hb Hn HQ. destruct (split_bytes n a Hb Hn) as (v & r & E & Hv & Et & Ed & Hr & Hbr & El).
  unfold wp, get. cbn [after before fcall]. unfold strlen in Hn.
  destruct (Nat.ltb_spec (length a) n); [lia|]. rewrite El, Et, Ed. by apply HQ.
Qed.
Lemma wp_load n set (Q : unit -> M2S -> Prop) b a f :
  Forall is_byte a -> Z.of_nat n <= strlen a ->
  (forall v r, a = le_bytes n v ++ r -> 0 <= v < pow8 n -> strlen r = strlen a - Z.of_nat n -> Forall is_byte r ->
     Q tt (MkM2S (b ++ le_bytes n v) r (set v f))) ->
  wp (load (get n) set) Q (MkM2S b a f).
Proof. intros Hb Hn HQ. apply wp_bind, wp_get; [done..|]. intros v r E Hv Hl Hr. by apply HQ. Qed.

Lemma wp_point n set (Q : unit -> M2S -> Prop) b a f :
  Forall is_byte a -> 0 <= n <= strlen a ->
  (forall bs r, a = bs ++ r -> strlen bs = n -> Forall is_byte r ->
     Q tt (MkM2S (b ++ bs) r (set (Some (strlen b)) f))) ->
  wp (point n set) Q (MkM2S b a f).
Proof.
  intros Hb Hn HQ. apply HQ; cbn [before after].
  - symmetry. apply take_drop.
  - unfold strlen in *. rewrite length_take. lia.
  - by apply Forall_drop.
Qed.

Lemma wp_gstring set (Q : unit -> M2S -> Prop) b a f :
  Forall is_byte a ->
  (forall lo s r, a = le_bytes 2 (strlen s) ++ s ++ r -> strlen s < M16 -> Forall is_byte r ->
     Q tt (MkM2S (b ++ [lo] ++ s ++ [0]) r (set (Some (strlen b + (BIT16SZ - 1))) f))) ->
  wp (gstring set) Q (MkM2S b a f).
Proof.
  intros Hb HQ. apply wp_bind, wp_need. intros Hn. unfold wp, gstring_moved. cbn [after before fcall].
  destruct a as [|lo [|hi r]]; [done|done|].
  destruct (split_bytes 2 (lo :: hi :: r) Hb Hn) as (v & r' & E & Hv & Et & Ed & _ & Hbr & El).
  change (take 2 (lo :: hi :: r)) with [lo; hi] in Et, El. change (drop 2 (lo :: hi :: r)) with r in Ed. rewrite El. subst r'.
  destruct (Z.ltb_spec (Z.of_nat (length r)) v) as [|Hlen]; [done|].
  assert (Es : strlen (take (Z.to_nat v) r) = v) by (unfold strlen; rewrite length_take; lia).
  apply HQ.
  - rewrite Es, take_drop. exact E.
  - rewrite Es. change M16 with (pow8 2). lia.
  - by apply Forall_drop.
Qed.

Lemma wp_gqid set (Q : unit -> M2S -> Prop) b a f :
  Forall is_byte a ->
  (forall q r, a = qid_wire q ++ r -> fits_qid q -> Forall is_byte r ->
     Q tt (MkM2S (b ++ qid_wire q) r (set q f))) ->
  wp (gqid set) Q (MkM2S b a f).
Proof.
  intros Hb HQ. apply wp_bind, wp_need. unfold QIDSZ, BIT8SZ, BIT32SZ, BIT64SZ. intros Hn.
  apply wp_bind, wp_get; [done|lia|]. intros ty r E Hty Hr1 Hb1.
  apply wp_bind, wp_get; [done|lia|]. intros vers r2 E2 Hvers Hr2 Hb2.
  apply wp_bind, wp_get; [done|lia|]. intros path r3 E3 Hpath Hr3 Hb3.
  cbn. rewrite <- !app_assoc. apply (HQ (MkQid path vers ty)); [|done|done].
  unfold qid_wire. cbn [q_type q_vers q_path]. rewrite <- !app_assoc. congruence.
Qed.

Lemma wp_wnames k i (Q : unit -> M2S -> Prop) b a f :
  Forall is_byte a -> (i + k <= length (f_wname f))%nat ->
  (forall ss y r w, a = wires (VStr <$> ss) ++ r -> length ss = k -> Forall fits (VStr <$> ss) ->
     Forall is_byte r -> strlen y = strlen (wires (VStr <$> ss)) ->
     length w = length (f_wname f) -> take i w = take i (f_wname f) ->
     (forall x, (fun o => o ≫= str_at ((b ++ y) ++ x)) <$> take k (drop i w) = Some ∘ cut <$> ss) ->
     Q tt (MkM2S (b ++ y) r (set_wname w f))) ->
  wp (get_array (fun i => gstring (set_wname_at i)) k i) Q (MkM2S b a f).
Proof.
  revert i Q b a f. induction k as [|k IH]; intros i Q b a f Hb Hi HQ; cbn [get_array].
  - apply wp_ret. specialize (HQ [] [] a (f_wname f)). rewrite app_nil_r in HQ.
    destruct f. apply HQ; done.
  - apply wp_bind, wp_gstring; [done|]. intros lo s r E Hs Hr. set (p := strlen b + (BIT16SZ - 1)).
    apply IH; [done|cbn; rewrite length_insert; lia|].
    intros ss y r' w E' Hk Hfit Hr' Hy Hw Ht Hx. cbn in Hw, Ht. rewrite length_insert in Hw.
    assert (Hsi : w !! i = Some (Some p)).
    { assert (Eq : take (S i) w !! i = take (S i) (<[i:=Some p]> (f_wname f)) !! i) by by rewrite Ht.
      rewrite !lookup_take_lt in Eq by lia. rewrite Eq. apply list_lookup_insert_eq. lia. }
    rewrite <- app_assoc. cbn [set_wname_at]. unfold set_wname_at.
    apply (HQ (s :: ss) (([lo] ++ s ++ [0]) ++ y) r' w).
    + rewrite fmap_cons, wires_cons, <- app_assoc, <- E'. cbn [wire]. by rewrite <- app_assoc.
    + cbn. lia.
    + by constructor.
    + done.
    + rewrite fmap_cons, wires_cons, !strlen_app, Hy. cbn [wire]. rewrite strlen_app, strlen_le_bytes.
      change (strlen [lo]) with 1. change (strlen [0]) with 1. lia.
    + done.
    + apply (f_equal (take i)) in Ht. rewrite !take_take, !Nat.min_l in Ht by lia.
      by rewrite take_insert_ge in Ht by lia.
    + intros x. rewrite (drop_S w _ i Hsi). cbn [take fmap list_fmap]. f_equal.
      * cbn [mbind option_bind]. rewrite <- !app_assoc. cbn [compose]. apply str_at_here.
      * specialize (Hx x). rewrite <- app_assoc in Hx |- *. rewrite <- Hx. by rewrite !app_assoc.
Qed.

Lemma wp_wqids k i (Q : unit -> M2S -> Prop) b a f :
  Forall is_byte a -> (i + k <= length (f_wqid f))%nat ->
  (forall qs r w, a = wires (VQid <$> qs) ++ r -> length qs = k -> Forall fits (VQid <$> qs) ->
     Forall is_byte r -> length w = length (f_wqid f) -> take i w = take i (f_wqid f) ->
     take k (drop i w) = qs ->
     Q tt (MkM2S (b ++ wires (VQid <$> qs)) r (set_wqid w f))) ->
  wp (get_array (fun i => gqid (set_wqid_at i)) k i) Q (MkM2S b a f).
Proof.
  revert i Q b a f. induction k as [|k IH]; intros i Q b a f Hb Hi HQ; cbn [get_array].
  - apply wp_ret. specialize (HQ [] a (f_wqid f)). cbn in HQ. rewrite app_nil_r in HQ.
    destruct f. apply HQ; done.
  - apply wp_bind, wp_gqid; [done|]. intros q r E Hq Hr.
    apply IH; [done|cbn; rewrite length_insert; lia|].
    intros qs r' w E' Hk Hfit Hr' Hw Ht Hx. cbn in Hw, Ht. rewrite length_insert in Hw.
    assert (Hsi : w !! i = Some q).
    { assert (Eq : take (S i) w !! i = take (S i) (<[i:=q]> (f_wqid f)) !! i) by by rewrite Ht.
      rewrite !lookup_take_lt in Eq by lia. rewrite Eq. apply list_lookup_insert_eq. lia. }
    rewrite <- app_assoc. unfold set_wqid_at.
    apply (HQ (q :: qs) r' w).
    + by rewrite fmap_cons, wires_cons, <- app_assoc, <- E'.
    + cbn. lia.
    + by constructor.
    + done.
    + done.
    + apply (f_equal (take i)) in Ht. rewrite !take_take, !Nat.min_l in Ht by lia.
      by rewrite take_insert_ge in Ht by lia.
    + rewrite (drop_S w _ i Hsi). cbn [take]. by f_equal.
Qed.

(** The arrays have the length they are declared with. *)
Definition ready {P} (f : Fcall P) : Prop :=
  length (f_wname f) = Z.to_nat MAXWELEM /\ length (f_wqid f) = Z.to_nat MAXWELEM.

(** The bytes [a] before the call are the parameters [vs], which is what the
    members set now say. *)
Record says (b a : list Z) (f : Fcall Z) (vs : list value) (st : M2S) : Prop := {
  says_bytes : a = wires vs ++ after st;
  says_len : strlen (before st) = strlen b + strlen (wires vs);
  says_type : f_type (fcall st) = f_type f;
  says_tag : f_tag (fcall st) = f_tag f;
  says_fits : Forall fits vs;
  says_fields : forall x, fields (deref (before st ++ x) (fcall st)) = Some (cut_value <$> vs);
  says_ready : ready (fcall st);
  says_walk : f_type f = Twalk -> f_nwname (fcall st) <= MAXWELEM;
  says_rwalk : f_type f = Rwalk -> f_nwqid (fcall st) <= MAXWELEM;
}.

Lemma str_at_last b lo s : str_at (b ++ [lo] ++ s ++ [0]) (strlen b + (BIT16SZ - 1)) = Some (cut s).
Proof. pose proof (str_at_here b lo s []) as H. by rewrite app_nil_r in H. Qed.
Lemma obj_at_last b bs x n : 0 <= n -> strlen bs = n -> take (Z.to_nat n) (obj_at ((b ++ bs) ++ x) (strlen b)) = bs.
Proof.
  intros Hn <-. unfold obj_at, strlen. rewrite !Nat2Z.id, <- app_assoc, drop_app_length.
  apply take_app_length.
Qed.
Lemma le_bytes_mod n v : le_bytes n (v mod pow8 n) = le_bytes n v.
Proof.
  pose proof (le_bytes_val (le_bytes n v) (le_bytes_bytes n v)) as E.
  by rewrite length_le_bytes, le_val_bytes in E.
Qed.
Lemma le_bytes_s64 v : le_bytes 8 (s64 v) = le_bytes 8 v.
Proof.
  rewrite <- (le_bytes_mod 8 (s64 v)), <- (le_bytes_mod 8 v). f_equal. change (pow8 8) with M64. int_lia.
Qed.

#[local] Arguments le_bytes : simpl never.
Ltac members H :=
  intros x; unfold fields; cbn [before after fcall];
  match type of H with f_type ?f = _ =>
    match goal with |- context [f_type (deref ?B ?F)] => change (f_type (deref B F)) with (f_type f) end
  end; rewrite H; switches; unfold deref; cbn.
Ltac strings :=
  repeat match goal with
  | |- context [str_at ?B ?o] =>
      let E := fresh in
      assert (E : str_at B o = Some (cut _)) by (repeat first [apply str_at_last | apply str_at_app]);
      rewrite E; clear E
  end.

Ltac in_bind tac := first [apply wp_bind; tac | tac].
Ltac wneed := in_bind ltac:(apply wp_need; intros ?).
Ltac wload v := in_bind ltac:(apply wp_load; [done|unfold BIT8SZ, BIT16SZ, BIT32SZ, BIT64SZ in *; lia|]; intros v ? ? ? ? ?).
Ltac wstr s := in_bind ltac:(apply wp_gstring; [done|]; intros ? s ? ? ? ?).
Ltac wqid q := in_bind ltac:(apply wp_gqid; [done|]; intros q ? ? ? ?).
Ltac wdata bs := apply wp_bind, wp_gets; wneed; apply wp_point; [done|cbn in *; lia|]; intros bs ? ? ? ?.
Ltac say Ef vs := exists vs; split;
  [ subst; cbn [after]; unfold wires; cbn [fmap list_fmap mjoin list_join wire];
    rewrite ?le_bytes_s64, ?app_nil_r, <- ?app_assoc; reflexivity
  | cbn [before]; wire_sizes; rewrite ?strlen_cons; change (strlen []) with 0; lia
  | reflexivity
  | reflexivity
  | repeat (apply Forall_cons_iff; split); try apply Forall_nil; cbn [fits]; try done; try apply s64_range; cbn in *; lia
  | members Ef; strings; unfold payload; cbn [from_option id fmap option_fmap option_map];
    rewrite ?obj_at_last by (cbn in *; lia); try reflexivity
  | split; assumption
  | rewrite Ef; discriminate
  | rewrite Ef; discriminate ].

Lemma unpack_body_says t b a f :
  Forall is_byte a -> t ∈ types -> f_type f = t -> ready f ->
  wp (unpack_body t) (fun _ st => exists vs, says b a f vs st) (MkM2S b a f).
Proof.
  intros Hb Ht Ef [Hw Hq]. unfold unpack_body. by_type Ht; switches.
  1-2: wneed; wload msize; wstr s; say Ef [VNum 4 msize; VStr s].
  1: wneed; wload afid; wstr s; wstr s'; say Ef [VNum 4 afid; VStr s; VStr s'].
  1: wqid q; say Ef [VQid q].
  1: wneed; wload fid; wneed; wload afid; wstr s; wstr s'; say Ef [VNum 4 fid; VNum 4 afid; VStr s; VStr s'].
  1: wqid q; say Ef [VQid q].
  1: wstr s; say Ef [VStr s].
  1: wneed; wload oldtag; say Ef [VNum 2 oldtag].
  1: apply wp_ret; say Ef (@nil value).
  3: wneed; wload fid; wload mode; say Ef [VNum 4 fid; VNum 1 mode].
  3, 5: wqid q; wneed; wload iounit; say Ef [VQid q; VNum 4 iounit].
  3: wneed; wload fid; wstr s; wneed; wload perm; wload mode; say Ef [VNum 4 fid; VStr s; VNum 4 perm; VNum 1 mode].
  3: wneed; wload fid; wload off; wload count; say Ef [VNum 4 fid; VOff (s64 off); VNum 4 count].
  3: wneed; wload count; wdata bs; say Ef [VNum 4 count; VData count bs].
  3: wneed; wload fid; wload off; wload count; wdata bs; say Ef [VNum 4 fid; VOff (s64 off); VNum 4 count; VData count bs].
  3: wneed; wload count; say Ef [VNum 4 count].
  3, 5, 7: wneed; wload fid; say Ef [VNum 4 fid].
  3, 4, 7: apply wp_ret; say Ef (@nil value).
  3: wneed; wload n; wdata bs; say Ef [VNum 2 n; VData n bs].
  3: wneed; wload fid; wload n; wdata bs; say Ef [VNum 4 fid; VNum 2 n; VData n bs].
  - wneed. wload fid. wload newfid. wload nn. apply wp_bind, wp_gets. cbn [fcall]. apply wp_bind, wp_when. intros Hm.
    change (f_nwname _) with nn in *. apply wp_wnames; [done|cbn; unfold MAXWELEM in *; lia|].
    intros ss y r' w Er Hk Hfit Hr' Hy Hlw _ Hx.
    exists ([VNum 4 fid; VNum 4 newfid; VNum 2 nn] ++ (VStr <$> ss)). split.
    + subst. cbn [after]. rewrite wires_app. unfold wires at 2. cbn [fmap list_fmap mjoin list_join wire].
      by rewrite ?app_nil_r, <- !app_assoc.
    + cbn [before]. rewrite wires_app, !strlen_app, Hy. wire_sizes. lia.
    + reflexivity.
    + reflexivity.
    + apply Forall_app. split; [|done]. repeat (apply Forall_cons_iff; split); try apply Forall_nil; done.
    + members Ef. specialize (Hx x). rewrite drop_0 in Hx. rewrite <- fmap_take, Hx, <- !list_fmap_compose.
      reflexivity.
    + split; [exact (eq_trans Hlw Hw)|exact Hq].
    + intros _. cbn. lia.
    + rewrite Ef. discriminate.
  - wneed. wload nn. apply wp_bind, wp_gets. cbn [fcall]. apply wp_bind, wp_when. intros Hm.
    change (f_nwqid _) with nn in *. apply wp_wqids; [done|cbn; unfold MAXWELEM in *; lia|].
    intros qs r' w Er Hk Hfit Hr' Hlw _ Hx. rewrite drop_0 in Hx.
    exists (VNum 2 nn :: (VQid <$> qs)). split.
    + subst. cbn [after]. by rewrite wires_cons, <- app_assoc.
    + cbn [before]. rewrite wires_cons, !strlen_app. cbn [wire]. lia.
    + reflexivity.
    + reflexivity.
    + by apply Forall_cons_iff.
    + members Ef. rewrite Hx, <- list_fmap_compose. reflexivity.
    + split; [exact Hw|exact (eq_trans Hlw Hq)].
    + rewrite Ef. discriminate.
    + intros _. cbn. lia.
Qed.

(** [c] goes on, with [Q]. *)
Definition goes {A} (c : ST M2S A) (Q : A -> M2S -> Prop) (st : M2S) : Prop :=
  match c st with Ok a st => Q a st | _ => False end.

Lemma goes_bind {A B} (c : ST M2S A) (k : A -> ST M2S B) Q st :
  goes c (fun a => goes (k a) Q) st -> goes (c ≫= k) Q st.
Proof. unfold goes, mbind, ST_bind. by destruct (c st). Qed.
Lemma goes_gets {A} (g : M2S -> A) (Q : A -> M2S -> Prop) st : Q (g st) st -> goes (gets g) Q st.
Proof. done. Qed.
Lemma goes_when b (Q : unit -> M2S -> Prop) st : b = false -> Q tt st -> goes (when b return0) Q st.
Proof. by intros ->. Qed.
Lemma goes_need n (Q : unit -> M2S -> Prop) b a f :
  n <= strlen a -> Q tt (MkM2S b a f) -> goes (need n) Q (MkM2S b a f).
Proof.
  intros Hn H. unfold goes, need, strlen in *. cbn [after].
  destruct (Z.ltb_spec (Z.of_nat (length a)) n); [lia|done].
Qed.

Lemma goes_get n v (Q : Z -> M2S -> Prop) b r f :
  Q (v mod pow8 n) (MkM2S (b ++ le_bytes n v) r f) -> goes (get n) Q (MkM2S b (le_bytes n v ++ r) f).
Proof.
  intros HQ. unfold goes, get. cbn [after before fcall].
  rewrite length_app, length_le_bytes. destruct (Nat.ltb_spec (n + length r) n); [lia|].
  rewrite take_app_length', drop_app_length', le_val_bytes by (symmetry; apply length_le_bytes). done.
Qed.
Lemma goes_load n set v (Q : unit -> M2S -> Prop) b r f :
  Q tt (MkM2S (b ++ le_bytes n v) r (set (v mod pow8 n) f)) ->
  goes (load (get n) set) Q (MkM2S b (le_bytes n v ++ r) f).
Proof. intros HQ. by apply goes_bind, goes_get. Qed.
Lemma goes_str set s (Q : unit -> M2S -> Prop) b r f :
  strlen s < M16 -> (forall lo, Q tt (MkM2S (b ++ [lo] ++ s ++ [0]) r (set (Some (strlen b + (BIT16SZ - 1))) f))) ->
  goes (gstring set) Q (MkM2S b ((le_bytes 2 (strlen s) ++ s) ++ r) f).
Proof.
  intros Hs HQ. pose proof (strlen_nonneg s) as Hs0. pose proof (strlen_nonneg r) as Hr.
  apply goes_bind, goes_need.
  { rewrite !strlen_app, strlen_le_bytes. unfold BIT16SZ. lia. }
  pose proof (le_val_bytes 2 (strlen s)) as E. change (pow8 2) with M16 in E.
  rewrite Z.mod_small in E by done. unfold goes, gstring_moved. cbn [after before fcall].
  change (le_bytes 2 (strlen s)) with [u8 (strlen s); u8 (strlen s / M8)] in *. cbn [app].
  rewrite E. destruct (Z.ltb_spec (Z.of_nat (length (s ++ r))) (strlen s)) as [H|_].
  { rewrite length_app in H. unfold strlen in *. lia. }
  replace (Z.to_nat (strlen s)) with (length s) by (unfold strlen; lia).
  rewrite take_app_length, drop_app_length. apply HQ.
Qed.
Lemma goes_qid set q (Q : unit -> M2S -> Prop) b r f :
  fits_qid q -> Q tt (MkM2S (b ++ qid_wire q) r (set q f)) ->
  goes (gqid set) Q (MkM2S b (qid_wire q ++ r) f).
Proof.
  intros (Ht & Hv & Hp) HQ. pose proof (strlen_nonneg r) as Hr. apply goes_bind, goes_need.
  { rewrite strlen_app, strlen_qid_wire. unfold QIDSZ, BIT8SZ, BIT32SZ, BIT64SZ. lia. }
  unfold qid_wire. rewrite <- !app_assoc. do 3 apply goes_bind, goes_get. cbn.
  rewrite !Z.mod_small by done. rewrite <- !app_assoc. by destruct q.
Qed.
Lemma goes_point n set bs (Q : unit -> M2S -> Prop) b r f :
  strlen bs = n -> Q tt (MkM2S (b ++ bs) r (set (Some (strlen b)) f)) ->
  goes (point n set) Q (MkM2S b (bs ++ r) f).
Proof.
  intros <- HQ. unfold goes, point. cbn [after before fcall].
  replace (Z.to_nat (strlen bs)) with (length bs) by (unfold strlen; lia).
  by rewrite take_app_length, drop_app_length.
Qed.
Lemma goes_wnames i ss (Q : unit -> M2S -> Prop) b r f :
  Forall fits (VStr <$> ss) ->
  (forall b' f', f_type f' = f_type f -> Q tt (MkM2S b' r f')) ->
  goes (get_array (fun i => gstring (set_wname_at i)) (length ss) i) Q (MkM2S b (wires (VStr <$> ss) ++ r) f).
Proof.
  revert i b f. induction ss as [|s ss IH]; intros i b f Hf HQ; [by apply HQ|].
  rewrite fmap_cons in Hf |- *. apply Forall_cons_iff in Hf as [Hs Hf]. rewrite wires_cons, <- app_assoc.
  cbn [length get_array]. apply goes_bind, goes_str; [done|]. intros lo. by apply IH.
Qed.
Lemma goes_wqids i qs (Q : unit -> M2S -> Prop) b r f :
  Forall fits (VQid <$> qs) ->
  (forall b' f', f_type f' = f_type f -> Q tt (MkM2S b' r f')) ->
  goes (get_array (fun i => gqid (set_wqid_at i)) (length qs) i) Q (MkM2S b (wires (VQid <$> qs) ++ r) f).
Proof.
  revert i b f. induction qs as [|q qs IH]; intros i b f Hf HQ; [by apply HQ|].
  rewrite fmap_cons in Hf |- *. apply Forall_cons_iff in Hf as [Hs Hf]. rewrite wires_cons, <- app_assoc.
  cbn [length get_array]. apply goes_bind, goes_qid; [done|]. by apply IH.
Qed.

Lemma wires_here v vs r : wires (v :: vs) ++ r = wire v ++ (wires vs ++ r).
Proof. by rewrite wires_cons, <- app_assoc. Qed.

Ltac lens :=
  rewrite ?strlen_app, ?strlen_le_bytes, ?strlen_qid_wire; unfold BIT8SZ, BIT16SZ, BIT32SZ, BIT64SZ in *;
  repeat match goal with |- context [strlen ?x] =>
    lazymatch goal with H : 0 <= strlen x |- _ => fail | _ => pose proof (strlen_nonneg x) end end; lia.
Ltac gstep := lazymatch goal with
  | |- goes (_ ≫= _) _ _ => apply goes_bind
  | |- goes (need _) _ _ => apply goes_need; [lens|]
  | |- goes (load _ _) _ _ => apply goes_load
  | |- goes (gstring _) _ _ => apply goes_str; [done|]; intros ?
  | |- goes (gqid _) _ _ => apply goes_qid; [done|]
  | |- goes (gets _) _ _ => apply goes_gets;
      cbn [fcall f_nwname f_nwqid f_count f_nstat set_fid set_newfid set_nwname set_nwqid set_offset set_count set_nstat];
      rewrite ?Z.mod_small by done
  | |- goes (point _ _) _ _ => apply goes_point; [lia|]
  | |- goes (mret _) _ _ => unfold goes, mret, ST_ret
  end.

Lemma goes_wp {A} (c : ST M2S A) Q Q' st : goes c Q st -> wp c Q' st -> goes c (fun a st => Q a st /\ Q' a st) st.
Proof. unfold goes, wp. destruct (c st); auto. Qed.
Lemma goes_weaken {A} (c : ST M2S A) (Q Q' : A -> M2S -> Prop) st :
  (forall a st, Q a st -> Q' a st) -> goes c Q st -> goes c Q' st.
Proof. unfold goes. destruct (c st); auto. Qed.

(** Counted strings and qids can be read off their concatenation. *)
Lemma le_bytes_inj n v w r r' :
  0 <= v < pow8 n -> 0 <= w < pow8 n -> le_bytes n v ++ r = le_bytes n w ++ r' -> v = w /\ r = r'.
Proof.
  intros Hv Hw E. apply app_inj_1 in E as [E ->]; [|by rewrite !length_le_bytes]. split; [|done].
  apply (f_equal le_val) in E. rewrite !le_val_bytes, !Z.mod_small in E by done. done.
Qed.
Lemma strs_inj ss ss' r r' :
  Forall fits (VStr <$> ss) -> Forall fits (VStr <$> ss') -> length ss = length ss' ->
  wires (VStr <$> ss) ++ r = wires (VStr <$> ss') ++ r' -> ss = ss'.
Proof.
  revert ss'. induction ss as [|s ss IH]; intros [|s' ss'] H H' Hl E; try done.
  rewrite !fmap_cons in *. apply Forall_cons_iff in H as [Hs H], H' as [Hs' H'].
  rewrite !wires_here in E. cbn [wire fits] in *. rewrite <- !app_assoc in E.
  pose proof (strlen_nonneg s). pose proof (strlen_nonneg s').
  apply le_bytes_inj in E as [Es E]; [|change (pow8 2) with M16; lia..].
  apply app_inj_1 in E as [-> E]; [|unfold strlen in Es; lia]. f_equal. apply IH; [done..| |done]. by injection Hl.
Qed.
Lemma qids_inj qs qs' r r' :
  Forall fits (VQid <$> qs) -> Forall fits (VQid <$> qs') -> length qs = length qs' ->
  wires (VQid <$> qs) ++ r = wires (VQid <$> qs') ++ r' -> qs = qs'.
Proof.
  revert qs'. induction qs as [|q qs IH]; intros [|q' qs'] H H' Hl E; try done.
  rewrite !fmap_cons in *. apply Forall_cons_iff in H as [(Ht & Hv & Hp) H], H' as [(Ht' & Hv' & Hp') H'].
  rewrite !wires_here in E. cbn [wire] in *. unfold qid_wire in E. rewrite <- !app_assoc in E.
  do 3 (apply le_bytes_inj in E as [? E]; [|done..]). f_equal; [destruct q, q'; cbn in *; congruence|].
  apply (IH _ H H'); [by injection Hl|done].
Qed.

Lemma s64_mod v : -9223372036854775808 <= v < 9223372036854775808 -> s64 (v mod pow8 8) = v.
Proof. intros H. change (pow8 8) with M64. int_lia. Qed.

Lemma unpack_body_goes f vs b r g :
  packable f vs -> Forall is_byte (wires vs ++ r) -> f_type g = f_type f -> ready g ->
  goes (unpack_body (f_type f))
    (fun _ st => after st = r /\ forall x, fields (deref (before st ++ x) (fcall st)) = Some (cut_value <$> vs))
    (MkM2S b (wires vs ++ r) g).
Proof.
  intros [Hf Hfit _ Hw Hr Hl1 Hl2 _] Hby Eg [Hg1 Hg2].
  assert (Ht : f_type f ∈ types) by (apply fields_types; eauto).
  unfold unpack_body. unfold fields in Hf. remember (f_type f) as t eqn:Et. clear Et.
  by_type Ht; switches; simplify_eq; fit Hfit; unfold payload in *; cbn [fits] in *.
  all: rewrite ?wires_here in *; change (wires [] ++ r) with r in *; cbn [wire str] in *.
  all: repeat gstep.
  all: try (split; [reflexivity|]; members Eg; strings; rewrite ?s64_mod by done; rewrite ?Z.mod_small by done; unfold payload;
    cbn [from_option id fmap option_fmap option_map]; rewrite ?obj_at_last by lia; reflexivity).
  - specialize (Hw eq_refl). apply goes_when; [lia|].
    set (ss := default [] <$> take (Z.to_nat (f_nwname f)) (f_wname f)).
    assert (Ess : str <$> take (Z.to_nat (f_nwname f)) (f_wname f) = VStr <$> ss) by by unfold ss; rewrite <- list_fmap_compose.
    rewrite Ess in *. assert (El : Z.to_nat (f_nwname f) = length ss)
      by (unfold ss; rewrite length_fmap, length_take; unfold MAXWELEM in *; lia).
    rewrite El. eapply goes_weaken; [|apply (goes_wp _ (fun _ st => after st = r) (fun _ st => after st = r -> forall x,
      fields (deref (before st ++ x) (fcall st)) =
      Some (cut_value <$> VNum 4 (f_fid f) :: VNum 4 (f_newfid f) :: VNum 2 (f_nwname f) :: (VStr <$> ss))));
      [by apply goes_wnames|apply wp_wnames]].
    + intros [] st [E HQ]. split; [exact E|exact (HQ E)].
    + by do 3 apply Forall_app in Hby as [_ Hby].
    + cbn. unfold MAXWELEM in *. lia.
    + intros ss' y r' w Er Hk Hfit' Hr' Hy Hlw _ Hx E. cbn [after] in E. subst r'.
      apply strs_inj in Er as <-; [|done..].
      members Eg. specialize (Hx x). rewrite drop_0 in Hx. rewrite El, <- fmap_take, Hx, <- !list_fmap_compose. reflexivity.
  - specialize (Hr eq_refl). apply goes_when; [lia|].
    set (qs := take (Z.to_nat (f_nwqid f)) (f_wqid f)) in *. assert (El : Z.to_nat (f_nwqid f) = length qs)
      by (unfold qs; rewrite length_take; unfold MAXWELEM in *; lia).
    rewrite El. eapply goes_weaken; [|apply (goes_wp _ (fun _ st => after st = r) (fun _ st => after st = r -> forall x,
      fields (deref (before st ++ x) (fcall st)) =
      Some (cut_value <$> VNum 2 (f_nwqid f) :: (VQid <$> qs))));
      [by apply goes_wqids|apply wp_wqids]].
    + intros [] st [E HQ]. split; [exact E|exact (HQ E)].
    + by apply Forall_app in Hby as [_ Hby].
    + cbn. unfold MAXWELEM in *. lia.
    + intros qs' r' w Er Hk Hfit' Hr' Hlw _ Hx E. cbn [after] in E. subst r'.
      apply qids_inj in Er as <-; [|done..]. rewrite drop_0 in Hx.
      members Eg. rewrite El, Hx, <- list_fmap_compose. reflexivity.
Qed.

(** ** The message as a whole *)

Lemma strlen_message t tag vs : strlen (message t tag vs) = 7 + strlen (wires vs).
Proof. unfold message. rewrite !strlen_app, !strlen_le_bytes. lia. Qed.

(** What [convM2S] guarantees of a message it accepts. *)
Record unpacked (buf : list Z) (size : Z) (st : M2S) (vs : list value) : Prop := {
  un_type : f_type (fcall st) ∈ types;
  un_tag : 0 <= f_tag (fcall st) < M16;
  un_bytes : buf = message (f_type (fcall st)) (f_tag (fcall st)) vs ++ after st;
  un_size : size = strlen (message (f_type (fcall st)) (f_tag (fcall st)) vs);
  un_before : strlen (before st) = size;
  un_bound : size < M32;
  un_fits : Forall fits vs;
  un_fields : fields (deref (before st ++ after st) (fcall st)) = Some (cut_value <$> vs);
  un_ready : ready (fcall st);
  un_walk : f_type (fcall st) = Twalk -> f_nwname (fcall st) <= MAXWELEM;
  un_rwalk : f_type (fcall st) = Rwalk -> f_nwqid (fcall st) <= MAXWELEM;
}.

Lemma convM2S_run_unpacked buf f :
  Forall is_byte buf -> ready f ->
  wp convM2S_run (fun size st => exists vs, unpacked buf size st vs) (MkM2S [] buf f).
Proof.
  intros Hb [Hw Hq]. apply wp_bind, wp_need. intros Hn.
  unfold BIT8SZ, BIT16SZ, BIT32SZ in Hn.
  apply wp_bind, wp_get; [done|lia|]. intros size r E Hv Hl Hr.
  apply wp_bind, wp_when. intros Hs.
  apply wp_bind, wp_load; [done|lia|]. intros t r2 E2 Ht Hl2 Hr2.
  apply wp_bind, wp_load; [done|lia|]. intros tag r3 E3 Htag Hl3 Hr3.
  apply wp_bind, wp_gets. cbn [fcall f_type set_tag set_type].
  destruct (decide (t ∈ types)) as [Hin|Hin].
  2: { unfold unpack_body. by rewrite switch_types. }
  apply wp_bind.
  pose proof (unpack_body_says t ([] ++ le_bytes 4 size ++ le_bytes 1 t ++ le_bytes 2 tag) r3
    (set_tag tag (set_type t f)) Hr3 Hin eq_refl (conj Hw Hq)) as H.
  rewrite !app_assoc in H. unfold wp in H |- *.
  destruct (unpack_body t _) as [[] st| |] eqn:Eb; [|done..].
  destruct H as (vs & Hvs). unfold gets, mbind, ST_bind.
  destruct (Z.eqb_spec (strlen (before st)) size) as [Ep|]; [|done].
  destruct Hvs as [Hbytes Hlen Htype Htg Hfit Hfields Hrd Hwk Hrw]. cbn in Htype, Htg.
  assert (Esz : strlen (before st) = 7 + strlen (wires vs)).
  { rewrite Hlen, !strlen_app, !strlen_le_bytes. change (strlen []) with 0. lia. }
  exists vs. split; rewrite ?Htype, ?Htg; try done.
  - unfold message. rewrite <- Esz, Ep, <- !app_assoc, <- Hbytes, <- E3, <- E2. done.
  - rewrite strlen_message. lia.
  - change M32 with (pow8 4). lia.
Qed.

Lemma convM2S_message buf rest f vs g :
  packable f vs -> buf = message (f_type f) (f_tag f) vs ++ rest -> Forall is_byte buf -> ready g ->
  exists st, convM2S buf g = Ok (strlen (message (f_type f) (f_tag f) vs)) st /\ after st = rest /\
    fields (deref (before st ++ rest) (fcall st)) = Some (cut_value <$> vs).
Proof.
  intros Hp -> Hb Hg. pose proof (strlen_nonneg (wires vs)) as Hw. pose proof (strlen_nonneg rest) as Hr.
  assert (Ht : f_type f ∈ types) by (apply fields_types; exists vs; apply Hp).
  assert (Ht8 : 0 <= f_type f < pow8 1) by (revert Ht; generalize (f_type f); intros t Ht; by_type Ht; done).
  pose proof (pk_tag _ _ Hp) as Htag. pose proof (pk_size _ _ Hp) as Hsz.
  assert (G : goes convM2S_run (fun v st => v = 7 + strlen (wires vs) /\ after st = rest /\
    fields (deref (before st ++ rest) (fcall st)) = Some (cut_value <$> vs))
    (MkM2S [] (message (f_type f) (f_tag f) vs ++ rest) g)).
  { unfold message in *. rewrite <- !app_assoc in *.
    apply goes_bind, goes_need; [lens|]. apply goes_bind, goes_get.
    apply goes_bind, goes_when. { rewrite Z.mod_small by (change (pow8 4) with M32; lia). lens. }
    apply goes_bind, goes_load, goes_bind, goes_load, goes_bind, goes_gets. cbn [fcall f_type set_tag set_type].
    rewrite !(Z.mod_small (f_type f)) by done. apply goes_bind.
    do 3 apply Forall_app in Hb as [_ Hb].
    eapply goes_weaken; [|apply goes_wp;
      [apply unpack_body_goes; [done|done|reflexivity|exact Hg]|apply unpack_body_says; [done|done|reflexivity|exact Hg]]].
    intros [] st [[E HQ] [vs' Hvs]]. apply goes_bind, goes_gets.
    destruct Hvs as [Hby Hlen _ _ _ _ _ _ _]. rewrite E in Hby. apply app_inv_tail in Hby.
    assert (Ep : strlen (before st) = (7 + strlen (wires vs)) mod pow8 4).
    { rewrite Hlen, <- Hby, Z.mod_small by (change (pow8 4) with M32; lia).
      rewrite !strlen_app, !strlen_le_bytes. change (strlen []) with 0. lia. }
    rewrite Ep, Z.eqb_refl, Z.mod_small by (change (pow8 4) with M32; lia).
    unfold goes, mret, ST_ret. auto. }
  unfold convM2S. unfold goes in G. destruct (convM2S_run _) as [v st| |]; [|done..].
  destruct G as (-> & E & HQ). exists st. by rewrite strlen_message.
Qed.

(** convS2M refines the protocol: for a message within the limits of the
    format it returns the length of the encoding, having stored exactly that
    encoding at the start of the buffer, or returns 0 and stores nothing when
    the buffer is shorter. *)
Theorem convS2M_packs nap f vs :
  packable f vs ->
  convS2M nap f =
    (let m := message (f_type f) (f_tag f) vs in
     if nap <? strlen m then Ok 0 [] else Ok (strlen m) m).
Proof. apply convS2M_message. Qed.

(** C33. convM2S is safe on arbitrary bytes: it never reads or writes outside
    the message, and what it accepts is the encoding of a message of the
    protocol, of the length returned, whose parameters are what the members of
    the Fcall then say, the pointers followed in the rewritten buffer (a string
    ends at its first NUL); the bytes after the message are as they were. *)
Theorem convM2S_unpacks buf f :
  Forall is_byte buf -> ready f ->
  match convM2S buf f with
  | Ok size st => size = 0 \/ exists vs, unpacked buf size st vs
  | _ => False
  end.
Proof.
  intros Hb Hr. pose proof (convM2S_run_unpacked buf f Hb Hr) as H. unfold convM2S, wp in *.
  destruct (convM2S_run _); [by right|by left|done].
Qed.

(** C34. What convS2M packs of a message whose parameters fit the wire, convM2S
    unpacks: strings of fewer than 65536 bytes and with no NUL, numbers within the
    width of their fields, data of the length declared, at most MAXWELEM names or
    qids, in all fewer than 2^32 bytes ([packable]; convS2M packs what does not fit
    without refusing it), and a buffer that has room.  From the packed message
    followed by anything, in any previous state of the Fcall, convM2S returns the
    same length and a message of the same type and tag with the same parameters, and
    leaves the bytes that follow alone. *)
Theorem convM2S_convS2M nap f vs rest g :
  packable f vs -> Forall (fun v => cut_value v = v) vs -> Forall is_byte (wires vs ++ rest) ->
  strlen (message (f_type f) (f_tag f) vs) <= nap -> ready g ->
  exists out st, convS2M nap f = Ok (strlen out) out /\ convM2S (out ++ rest) g = Ok (strlen out) st /\
    after st = rest /\ fields (deref (before st ++ rest) (fcall st)) = fields f /\
    f_type (fcall st) = f_type f /\ f_tag (fcall st) = f_tag f.
Proof.
  intros Hp Hc Hb Hn Hg. set (m := message (f_type f) (f_tag f) vs) in *.
  assert (Hbm : Forall is_byte (m ++ rest)).
  { unfold m, message. rewrite <- !app_assoc. do 3 (apply Forall_app; split; [apply le_bytes_bytes|]). done. }
  destruct (convM2S_message _ rest f vs g Hp eq_refl Hbm Hg) as (st & E & Er & Ef).
  exists m, st. rewrite convS2M_message with (vs := vs) by done. fold m.
  destruct (Z.ltb_spec nap (strlen m)); [lia|]. split; [done|]. split; [done|]. split; [done|].
  assert (Ecut : cut_value <$> vs = vs).
  { clear -Hc. induction Hc as [|v vs Hv _ IH]; [done|]. by rewrite fmap_cons, Hv, IH. }
  rewrite Ef, Ecut, (pk_fields _ _ Hp). split; [done|].
  pose proof (convM2S_run_unpacked (m ++ rest) g Hbm Hg) as Hu. unfold convM2S, wp in *.
  destruct (convM2S_run _) as [v st'| |]; [|discriminate..]; simplify_eq.
  destruct Hu as [vs' [Hty Htg Hby Hsz Hbf Hbd Hft Hfl Hrd Hwk Hrw]]. unfold m, message in Hby. rewrite <- !app_assoc in Hby.
  pose proof (pk_tag _ _ Hp) as Htag. assert (Ht : f_type f ∈ types) by (apply fields_types; exists vs; apply Hp).
  assert (H8 : forall t, t ∈ types -> 0 <= t < pow8 1) by (intros t Hin; by_type Hin; done).
  apply app_inj_1 in Hby as [_ Hby]; [|by rewrite !length_le_bytes].
  apply le_bytes_inj in Hby as [Et Hby]; [|auto..].
  apply le_bytes_inj in Hby as [Eg Hby]; [|done..]. done.
Qed.

(** The encoding is canonical: when no string of an accepted message has a
    NUL in it, packing the Fcall that convM2S filled gives back the bytes that
    were received. *)
Theorem convS2M_convM2S nap buf f size st :
  Forall is_byte buf -> ready f -> convM2S buf f = Ok size st -> size <> 0 -> size <= nap ->
  exists vs, unpacked buf size st vs /\
    (Forall (fun v => cut_value v = v) vs ->
     convS2M nap (deref (before st ++ after st) (fcall st)) = Ok size (take (Z.to_nat size) buf)).
Proof.
  intros Hb Hr E Hz Hn. pose proof (convM2S_run_unpacked buf f Hb Hr) as H. unfold convM2S, wp in *.
  destruct (convM2S_run _); simplify_eq. destruct H as [vs Hu]. exists vs. split; [done|].
  destruct Hu as [Hty Htg Hby Hsz Hbf Hbd Hft Hfl [Hrw Hrq] Hwk Hrk]. intros Hc. set (g := deref _ _) in *.
  assert (Ecut : cut_value <$> vs = vs).
  { clear -Hc. induction Hc as [|v vs Hv _ IH]; [done|]. by rewrite fmap_cons, Hv, IH. }
  rewrite Ecut in Hfl. rewrite strlen_message in Hsz.
  assert (Hp : packable g vs).
  { split; [done|done|exact Htg|exact Hwk|exact Hrk|by rewrite <- Hrw; apply length_fmap|exact Hrq|lia]. }
  rewrite (convS2M_message nap g vs Hp). change (f_type g) with (f_type (fcall st)). change (f_tag g) with (f_tag (fcall st)).
  rewrite strlen_message, <- Hsz. destruct (Z.ltb_spec nap size); [lia|]. f_equal.
  rewrite Hby. replace (Z.to_nat size) with (length (message (f_type (fcall st)) (f_tag (fcall st)) vs)).
  - by rewrite take_app_length.
  - pose proof (strlen_message (f_type (fcall st)) (f_tag (fcall st)) vs). unfold strlen in *. lia.
Qed.

(** C35. The sum of sizeS2M is 32 bits wide and [count] 64: a Twrite whose count
    is 2^32 or more is announced (and its buffer checked) as one of [count - 2^32]
    bytes, and convS2M then runs past the end of the buffer. *)
Theorem convS2M_count_wraps nap f k :
  f_type f = Twrite -> f_count f = M32 + k -> 0 <= k < M32 - 23 ->
  M32 + k <= strlen (default [] (f_data f)) -> 23 + k <= nap < 23 + M32 + k ->
  sizeS2M f = Some (23 + k) /\ convS2M nap f = Fault.
Proof.
  intros Ht Hcnt Hk Hd Hn.
  assert (Esz : sizeS2M f = Some (23 + k)).
  { unfold sizeS2M. rewrite Ht, Hcnt. switches. cbn [mbind option_bind].
    apply f_equal. unfold BIT8SZ, BIT16SZ, BIT32SZ, BIT64SZ. int_lia. }
  split; [done|]. unfold convS2M. rewrite Esz.
  destruct (Z.eqb_spec (23 + k) 0); [lia|]. destruct (Z.ltb_spec nap (23 + k)); [lia|].
  unfold pack_body. rewrite Ht. switches.
  assert (Ec : (PBIT32 nap (23 + k);; PBIT8 nap Twrite;; PBIT16 nap (f_tag f);;
     PBIT32 nap (f_fid f);; PBIT64 nap (f_offset f);; PBIT32 nap (f_count f);; put_data nap (f_data f) (f_count f)) [] = Fault).
  { do 6 (erewrite bind_ok by (apply emits_put; rewrite ?strlen_app; change (strlen []) with 0; lens)).
    unfold put_data. rewrite Hcnt. destruct (Z.ltb_spec (strlen (default [] (f_data f))) (M32 + k)); [lia|].
    unfold put_bytes. rewrite !length_app, !length_le_bytes, length_take.
    destruct (Z.ltb_spec nap (Z.of_nat (length (@nil Z) + 4 + 1 + 2 + 4 + 8 + 4 + Nat.min (Z.to_nat (M32 + k)) (length (default [] (f_data f)))))); [done|].
    unfold strlen in Hd. lia. }
  by rewrite Ec.
Qed.

(** ** Witnesses *)

Definition blank {P} : Fcall P :=
  MkFcall 0 0 0 0 None 0 None (MkQid 0 0 0) 0 (MkQid 0 0 0) 0 None None 0 None 0 0 0
    (replicate 16 None) 0 (replicate 16 (MkQid 0 0 0)) 0 0 None 0 None.
(** Twalk, tag 5, fid 6, newfid 7, names "usr" and "b" *)
Definition demo_walk : Fcall (list Z) :=
  set_wname (Some [117; 115; 114] :: Some [98] :: replicate 14 None)
    (set_nwname 2 (set_newfid 7 (set_fid 6 (set_tag 5 (set_type Twalk blank))))).
Definition demo_values : list value := [VNum 4 6; VNum 4 7; VNum 2 2; VStr [117; 115; 114]; VStr [98]].
Definition demo_bytes : list Z := [25; 0; 0; 0; 110; 5; 0; 6; 0; 0; 0; 7; 0; 0; 0; 2; 0; 3; 0; 117; 115; 114; 1; 0; 98].

Lemma demo_packable : packable demo_walk demo_values.
Proof.
  split; try done. repeat (apply Forall_cons_iff; split); try apply Forall_nil; done.
Qed.
Lemma demo_is_bytes x : Forall is_byte x <-> forallb (fun b => bool_decide (is_byte b)) x = true.
Proof.
  rewrite forallb_forall, Forall_forall. split; intros H b Hb; specialize (H b Hb); by apply bool_decide_eq_true in H || apply bool_decide_eq_true.
Qed.

Example convS2M_packs_witness :
  packable demo_walk demo_values /\ convS2M 25 demo_walk = Ok 25 demo_bytes /\ convS2M 24 demo_walk = Ok 0 [].
Proof.
  split; [exact demo_packable|].
  split; rewrite (convS2M_packs _ demo_walk demo_values demo_packable); vm_compute; reflexivity.
Defined.

Example convM2S_unpacks_witness :
  Forall is_byte (demo_bytes ++ [9]) /\ ready (@blank Z) /\
  (exists st, convM2S (demo_bytes ++ [9]) blank = Ok 25 st) /\
  match convM2S (demo_bytes ++ [9]) blank with
  | Ok size st => size = 0 \/ exists vs, unpacked (demo_bytes ++ [9]) size st vs
  | _ => False
  end.
Proof.
  assert (Hb : Forall is_byte (demo_bytes ++ [9])) by (apply demo_is_bytes; vm_compute; reflexivity).
  assert (Hr : ready (@blank Z)) by (split; reflexivity).
  split; [exact Hb|]. split; [exact Hr|]. split; [eexists; vm_compute; reflexivity|].
  exact (convM2S_unpacks _ blank Hb Hr).
Defined.

Example convM2S_convS2M_witness :
  exists out st, convS2M 100 demo_walk = Ok (strlen out) out /\ convM2S (out ++ [1; 2]) blank = Ok (strlen out) st /\
    after st = [1; 2] /\ fields (deref (before st ++ [1; 2]) (fcall st)) = fields demo_walk /\
    f_type (fcall st) = f_type demo_walk /\ f_tag (fcall st) = f_tag demo_walk.
Proof.
  apply (convM2S_convS2M 100 demo_walk demo_values [1; 2] blank demo_packable).
  - repeat constructor.
  - apply demo_is_bytes. vm_compute. reflexivity.
  - vm_compute. discriminate.
  - split; reflexivity.
Defined.

Example convS2M_convM2S_witness :
  exists size st, convM2S (demo_bytes ++ [9]) blank = Ok size st /\ size = 25 /\
  exists vs, unpacked (demo_bytes ++ [9]) size st vs /\
    (Forall (fun v => cut_value v = v) vs ->
     convS2M 25 (deref (before st ++ after st) (fcall st)) = Ok size (take (Z.to_nat size) (demo_bytes ++ [9]))).
Proof.
  eexists _, _. split; [vm_compute; reflexivity|]. split; [reflexivity|].
  apply (convS2M_convM2S 25 (demo_bytes ++ [9]) blank).
  - apply demo_is_bytes. vm_compute. reflexivity.
  - split; reflexivity.
  - vm_compute. reflexivity.
  - discriminate.
  - discriminate.
Defined.

Example convS2M_count_wraps_witness :
  let f := set_data (Some (replicate (Z.to_nat M32) 0)) (set_count M32 (set_type Twrite blank)) in
  sizeS2M f = Some 23 /\ convS2M 8192 f = Fault.
Proof.
  apply (convS2M_count_wraps 8192 _ 0).
  - reflexivity.
  - reflexivity.
  - unfold M32. lia.
  - unfold set_data, f_data, from_option, id, strlen. rewrite length_replicate. unfold M32. lia.
  - unfold M32. lia.
Defined.
