(* ===== verification/Chan.v ===== *)
(** * Channels, alternation and the run queue
      (libinterp/xec.c: cqadd to irecv, libinterp/alt.c, emu/port/dis.c)

    The scheduler's state is the record [sys]: the programs, the channels with
    their two queues of waiting programs, the run queue, and the cells that
    hold the elements communicated.  [isend], [irecv] and [xecalt] are the
    instructions of the program at the head of the run queue.

    An element is one cell, whatever its type, and the mover copies it; the
    reference counts of pointers moved are not modelled, nor [malloc] failing
    when a queue grows or an exception string is stored.  [c->front + c->size]
    is an [int] in the code, which does not overflow for buffers of less than
    2^30 elements. *)

From S2P Require Import Prelude.

(** ** State *)

Inductive ProgState : Type := Palt | Psend | Precv | Pdebug | Pready | Prelease | Pexiting | Pbroken.
#[export] Instance ProgState_dec : EqDecision ProgState.
Proof. solve_decision. Defined.

(** Of the registers a blocked program keeps, those another program uses: [R.s]
    of a program in an alt is its Alt, [R.d] the word that gets the index.
    [p->ptr] is where the datum of a blocked program is; [None] is nil. *)
Record Prog : Type := mkProg {
  p_state : ProgState;
  p_ptr : option Z;
  p_chan : option nat;
  p_Rs : nat;
  p_Rd : Z;
  p_kill : option string;
}.

(** A queue is the list of its nodes; the head node stays, with a nil program,
    when the queue is empty.  [[]] is a nil pointer. *)
Definition Progq : Type := list (option nat).

(** The buffer: the address of its cells, their number, the size of one. *)
Record Buf : Type := mkBuf { b_data : Z; b_len : Z; b_esz : Z }.
Record Channel : Type := mkChannel {
  c_buf : option Buf;
  c_send : Progq;
  c_recv : Progq;
  c_front : Z;
  c_size : Z;
}.

(** What an alternative refers to: a channel or an array of channels ([None] is
    nil); [ac_ptr] is where its datum is. *)
Inductive altref : Type := AltChan (c : nat) | AltArray (a : nat).
Record Altc : Type := mkAltc { ac_c : option altref; ac_ptr : Z }.
Record Alt : Type := mkAlt { nsend : nat; nrecv : nat; ac : list Altc }.
Definition ac_sends (a : Alt) : list Altc := take (nsend a) (ac a).
Definition ac_recvs (a : Alt) : list Altc := take (nrecv a) (drop (nsend a) (ac a)).

Record sys : Type := mkSys {
  progs : gmap nat Prog;
  chans : gmap nat Channel;
  arrays : gmap nat (list (option nat));
  alts : gmap nat Alt;
  runq : list nat;
  cells : Z -> Z;
  xrand : Z;
  R_IC : Z;
  R_t : Z;
}.

Definition with_progs (f : gmap nat Prog -> gmap nat Prog) (s : sys) : sys :=
  mkSys (f (progs s)) (chans s) (arrays s) (alts s) (runq s) (cells s) (xrand s) (R_IC s) (R_t s).
Definition with_chans (f : gmap nat Channel -> gmap nat Channel) (s : sys) : sys :=
  mkSys (progs s) (f (chans s)) (arrays s) (alts s) (runq s) (cells s) (xrand s) (R_IC s) (R_t s).
Definition with_runq (f : list nat -> list nat) (s : sys) : sys :=
  mkSys (progs s) (chans s) (arrays s) (alts s) (f (runq s)) (cells s) (xrand s) (R_IC s) (R_t s).
Definition with_cells (f : (Z -> Z) -> Z -> Z) (s : sys) : sys :=
  mkSys (progs s) (chans s) (arrays s) (alts s) (runq s) (f (cells s)) (xrand s) (R_IC s) (R_t s).
Definition with_xrand (v : Z) (s : sys) : sys :=
  mkSys (progs s) (chans s) (arrays s) (alts s) (runq s) (cells s) v (R_IC s) (R_t s).
Definition with_flags (ic t : Z) (s : sys) : sys :=
  mkSys (progs s) (chans s) (arrays s) (alts s) (runq s) (cells s) (xrand s) ic t.

Abbreviation S := (ST sys).

Definition exNilref : string := "dereference of nil".
Definition exAlt : string := "alt send/recv on same chan".

(** ** Programs and cells *)

Definition prog (p : nat) : S Prog := fun s => of_option (progs s !! p) s.
Definition set_prog (p : nat) (f : Prog -> Prog) : S unit := modify (with_progs (alter f p)).
Definition set_state (v : ProgState) (r : Prog) : Prog :=
  mkProg v (p_ptr r) (p_chan r) (p_Rs r) (p_Rd r) (p_kill r).
Definition set_ptr (v : option Z) (r : Prog) : Prog :=
  mkProg (p_state r) v (p_chan r) (p_Rs r) (p_Rd r) (p_kill r).
Definition set_chan (v : nat) (r : Prog) : Prog :=
  mkProg (p_state r) (p_ptr r) (Some v) (p_Rs r) (p_Rd r) (p_kill r).
Definition set_regs (s : nat) (d : Z) (r : Prog) : Prog :=
  mkProg (p_state r) (p_ptr r) (p_chan r) s d (p_kill r).
Definition set_kill (v : string) (r : Prog) : Prog :=
  mkProg (p_state r) (p_ptr r) (p_chan r) (p_Rs r) (p_Rd r) (Some v).

(** [W(a) = v] *)
Definition poke (a v : Z) : S unit := modify (with_cells (fun m b => if b =? a then v else m b)).
(** [c->mover()] with [R.s] and [R.d] set: a nil pointer has no cell. *)
Definition mover (s d : option Z) : S unit :=
  s ← of_option s;
  v ← gets (fun st => cells st s);
  d ← of_option d;
  poke d v.

(** ** The run queue (emu/port/dis.c) *)

(** The place of a program in the run queue. *)
Fixpoint place (p : nat) (q : list nat) : option nat :=
  match q with
  | [] => None
  | f :: q => if decide (f = p) then Some 0%nat else Datatypes.S <$> place p q
  end.
(** A program with an [addrun] of its own is one blocked in the kernel, not in
    a channel.  [p->link = nil] cuts those behind a program that is in the queue
    already, which is then the last, as [runtl] says.  Of the last program itself
    [runtl->link = p] makes a queue without an end, which is no state here. *)
Definition addrun (p : nat) : S unit :=
  set_prog p (set_state Pready);;
  q ← gets runq;
  match place p q with
  | None => modify (with_runq (fun q => q ++ [p]))
  | Some i => if (Datatypes.S i =? length q)%nat then fault else modify (with_runq (take (Datatypes.S i)))
  end.

Definition currun : S nat := fun s => of_option (head (runq s)) s.

Definition delrun (state : ProgState) : S nat :=
  p ← currun;
  set_prog p (set_state state);;
  modify (with_runq tail);;
  mret p.

Definition delrunq (p : nat) : S unit :=
  modify (with_runq (fix go q := match q with
                                 | [] => []
                                 | f :: q => if decide (f = p) then q else f :: go q
                                 end)).

(** ** Queues of waiting programs *)

Definition cqadd (q : Progq) (p : nat) : option Progq :=
  match q with
  | [] => None
  | None :: q => Some (Some p :: q)
  | _ => Some (q ++ [Some p])
  end.

Definition cqdel (q : Progq) : option Progq :=
  match q with
  | [] => None
  | [_] => Some [None]
  | _ :: q => Some q
  end.

Definition cqdelp (q : Progq) (p : nat) : option Progq :=
  match q with
  | [] => None
  | [n] => Some [if decide (n = Some p) then None else n]
  | _ => Some (filter (fun n => n <> Some p) q)
  end.

Inductive side : Type := Snd | Rcv.
#[export] Instance side_dec : EqDecision side.
Proof. solve_decision. Defined.

Definition queue (d : side) (c : Channel) : Progq := match d with Snd => c_send c | Rcv => c_recv c end.
Definition set_queue (d : side) (q : Progq) (c : Channel) : Channel :=
  match d with
  | Snd => mkChannel (c_buf c) q (c_recv c) (c_front c) (c_size c)
  | Rcv => mkChannel (c_buf c) (c_send c) q (c_front c) (c_size c)
  end.

Definition chan (c : nat) : S Channel := fun s => of_option (chans s !! c) s.
Definition set_channel (c : nat) (ch : Channel) : S unit := modify (with_chans (insert c ch)).

(** [op(&c->send)] or [op(&c->recv)] *)
Definition on_queue (d : side) (c : nat) (op : Progq -> option Progq) : S unit :=
  ch ← chan c;
  q ← of_option (op (queue d ch));
  set_channel c (set_queue d q ch).

(** [c->send->prog] or [c->recv->prog] *)
Definition waiting (d : side) (c : nat) : S (option nat) :=
  ch ← chan c; of_option (head (queue d ch)).

Definition CANGET (c : Channel) : bool := 0 <? c_size c.
Definition CANPUT (c : Channel) : bool :=
  match c_buf c with None => false | Some b => c_size c <? b_len b end.

(** ** Buffered channels *)

Definition cgetb (c : nat) (v : Z) : S bool :=
  ch ← chan c;
  match c_buf ch with
  | None => mret false
  | Some a =>
      if 0 <? c_size ch then
        let w := b_data a + c_front ch * b_esz a in
        let f := c_front ch + 1 in
        let f := if f =? b_len a then 0 else f in
        set_channel c (mkChannel (c_buf ch) (c_send ch) (c_recv ch) f (c_size ch - 1));;
        mover (Some w) (Some v);;
        mret true
      else mret false
  end.

Definition cputb (c : nat) (v : option Z) : S bool :=
  ch ← chan c;
  match c_buf ch with
  | None => mret false
  | Some a =>
      let len := b_len a in
      if c_size ch <? len then
        let r := c_front ch + c_size ch in
        let r := if r >=? len then r - len else r in
        set_channel c (mkChannel (c_buf ch) (c_send ch) (c_recv ch) (c_front ch) (c_size ch + 1));;
        mover v (Some (b_data a + r * b_esz a));;
        mret true
      else mret false
  end.

(** ** Leaving an alt (alt.c) *)

(** [if(c->q->prog) cqdelp(&c->q, p);] *)
Definition altleave (d : side) (c p : nat) : S unit :=
  w ← waiting d c;
  match w with None => mret tt | Some _ => on_queue d c (fun q => cqdelp q p) end.

(** The channels of an array from index [n] on; the result is [*sel]. *)
Fixpoint altunmark (cs : list (option nat)) (n ptr : Z) (p : nat) (sr : Z) (sel : option nat) (dn : Z)
  : S (option nat) :=
  match cs with
  | [] => mret sel
  | None :: cs => altunmark cs (n + 1) ptr p sr sel dn
  | Some c :: cs =>
      altleave Rcv c p;;
      if (sr =? 1) && bool_decide (sel = Some c) then
        r ← prog p;
        poke (p_Rd r) dn;;
        set_prog p (set_ptr (Some (ptr + 8)));;
        poke ptr n;;
        altunmark cs (n + 1) ptr p sr None dn
      else altunmark cs (n + 1) ptr p sr sel dn
  end.

Definition array_of (a : nat) : S (list (option nat)) := fun s => of_option (arrays s !! a) s.

(** [p->ptr = ac->ptr; W(p->R.d) = n;] *)
Definition chosen (p : nat) (ptr n : Z) : S unit :=
  set_prog p (set_ptr (Some ptr));;
  r ← prog p;
  poke (p_Rd r) n.

(** The first loop: the channels sent on.  The result is [n] and [sel]. *)
Fixpoint altdone_sends (acs : list Altc) (n : Z) (p : nat) (sel : option nat) (sr : Z) : S (Z * option nat) :=
  match acs with
  | [] => mret (n, sel)
  | a :: acs =>
      match ac_c a with
      | None => altdone_sends acs (n + 1) p sel sr
      | Some (AltArray _) => fault
      | Some (AltChan c) =>
          altleave Snd c p;;
          if (sr =? 0) && bool_decide (sel = Some c) then
            chosen p (ac_ptr a) n;; altdone_sends acs (n + 1) p None sr
          else altdone_sends acs (n + 1) p sel sr
      end
  end.
Fixpoint altdone_recvs (acs : list Altc) (n : Z) (p : nat) (sel : option nat) (sr : Z) : S unit :=
  match acs with
  | [] => mret tt
  | a :: acs =>
      match ac_c a with
      | None => altdone_recvs acs (n + 1) p sel sr
      | Some (AltArray i) =>
          cs ← array_of i;
          sel ← altunmark cs 0 (ac_ptr a) p sr sel n;
          altdone_recvs acs (n + 1) p sel sr
      | Some (AltChan c) =>
          altleave Rcv c p;;
          if (sr =? 1) && bool_decide (sel = Some c) then
            chosen p (ac_ptr a) n;; altdone_recvs acs (n + 1) p None sr
          else altdone_recvs acs (n + 1) p sel sr
      end
  end.
Definition altdone (a : Alt) (p : nat) (sel : option nat) (sr : Z) : S unit :=
  '(n, sel) ← altdone_sends (ac_sends a) 0 p sel sr;
  altdone_recvs (ac_recvs a) n p sel sr.

Definition alt_of (a : nat) : S Alt := fun s => of_option (alts s !! a) s.

(** ** Send and receive (xec.c) *)

(** A program found waiting is taken out of its alt. *)
Definition unalt (p c : nat) (sr : Z) : S unit :=
  r ← prog p;
  if decide (p_state r = Palt) then a ← alt_of (p_Rs r); altdone a p (Some c) sr else mret tt.

Definition isend (c : option nat) (s : Z) : S unit :=
  match c with
  | None => error exNilref
  | Some c =>
      w ← waiting Rcv c;
      match w with
      | None =>
          done ← cputb c (Some s);
          if (done : bool) then mret tt
          else
            p ← delrun Psend;
            set_prog p (set_ptr (Some s));;
            set_prog p (set_chan c);;
            modify (with_flags 1 1);;
            on_queue Snd c (fun q => cqadd q p)
      | Some p =>
          on_queue Rcv c cqdel;;
          unalt p c 1;;
          r ← prog p;
          set_prog p (set_ptr None);;
          mover (Some s) (p_ptr r);;
          addrun p;;
          modify (fun st => with_flags (R_IC st) 0 st)
      end
  end.

Definition irecv (c : option nat) (d : Z) : S unit :=
  match c with
  | None => error exNilref
  | Some c =>
      w ← waiting Snd c;
      match w with
      | None =>
          done ← cgetb c d;
          if (done : bool) then mret tt
          else
            p ← delrun Precv;
            set_prog p (set_ptr (Some d));;
            set_prog p (set_chan c);;
            modify (with_flags 1 1);;
            on_queue Rcv c (fun q => cqadd q p)
      | Some p =>
          on_queue Snd c cqdel;;
          unalt p c 0;;
          r ← prog p;
          ch ← chan c;
          match c_buf ch with
          | Some _ => cgetb c d;; cputb c (p_ptr r);; set_prog p (set_ptr None)
          | None => set_prog p (set_ptr None);; mover (p_ptr r) (Some d)
          end;;
          addrun p;;
          modify (fun st => with_flags (R_IC st) 0 st)
      end
  end.

(** ** Alt *)

(** [c->send->prog || CANGET(c)], [c->recv->prog || CANPUT(c)] *)
Definition ready (d : side) (c : nat) : S bool :=
  w ← waiting (match d with Snd => Rcv | Rcv => Snd end) c;
  ch ← chan c;
  mret (bool_decide (w <> None) || match d with Snd => CANPUT ch | Rcv => CANGET ch end).

Definition b2n (b : bool) : Z := if b then 1 else 0.

Fixpoint altmark (cs : list (option nat)) (p : nat) (nrdy : Z) : S Z :=
  match cs with
  | [] => mret nrdy
  | None :: cs => altmark cs p nrdy
  | Some c :: cs =>
      b ← ready Rcv c;
      on_queue Rcv c (fun q => cqadd q p);;
      altmark cs p (nrdy + b2n b)
  end.

(** The first pass: the number of ready channels so far and the error so far. *)
Fixpoint altrdy_recvs (acs : list Altc) (p : nat) (nrdy : Z) (e : option string) : S (Z * option string) :=
  match acs with
  | [] => mret (nrdy, e)
  | a :: acs =>
      match ac_c a with
      | None => altrdy_recvs acs p nrdy (Some exNilref)
      | Some (AltArray i) => cs ← array_of i; n ← altmark cs p 0; altrdy_recvs acs p (nrdy + n) e
      | Some (AltChan c) =>
          b ← ready Rcv c;
          on_queue Rcv c (fun q => cqadd q p);;
          altrdy_recvs acs p (nrdy + b2n b) e
      end
  end.
Fixpoint altrdy_sends (acs : list Altc) (p : nat) (nrdy : Z) (e : option string) : S (Z * option string) :=
  match acs with
  | [] => mret (nrdy, e)
  | a :: acs =>
      match ac_c a with
      | None => altrdy_sends acs p nrdy (Some exNilref)
      | Some (AltArray _) => fault
      | Some (AltChan c) =>
          b ← ready Snd c;
          w ← waiting Rcv c;
          if (b : bool) && bool_decide (w = Some p) then altrdy_sends acs p nrdy (Some exAlt)
          else
            on_queue Snd c (fun q => cqadd q p);;
            altrdy_sends acs p (nrdy + b2n b) e
      end
  end.
Definition altrdy (a : Alt) (p : nat) : S Z :=
  '(nrdy, e) ← altrdy_recvs (ac_recvs a) p 0 None;
  '(nrdy, e) ← altrdy_sends (ac_sends a) p nrdy e;
  match e with
  | Some e => altdone a p None (-1);; error e
  | None => mret nrdy
  end.

(** The second pass: the [which]-th ready channel.  The result is the number of
    ready channels still to be passed over, or [None] when it was found. *)
Fixpoint altcomm_sends (acs : list Altc) (d n which : Z) : S (Z * option Z) :=
  match acs with
  | [] => mret (n, Some which)
  | a :: acs =>
      match ac_c a with
      | Some (AltChan c) =>
          b ← ready Snd c;
          if (b : bool) && (which =? 0) then poke d n;; isend (Some c) (ac_ptr a);; mret (n, None)
          else altcomm_sends acs d (n + 1) (which - b2n b)
      | _ => fault
      end
  end.
Fixpoint altcomm_array (cs : list (option nat)) (ptr d n an which : Z) : S (option Z) :=
  match cs with
  | [] => mret (Some which)
  | None :: cs => altcomm_array cs ptr d n (an + 1) which
  | Some c :: cs =>
      b ← ready Rcv c;
      if (b : bool) && (which =? 0)
      then poke d n;; poke ptr an;; irecv (Some c) (ptr + 8);; mret None
      else altcomm_array cs ptr d n (an + 1) (which - b2n b)
  end.
Fixpoint altcomm_recvs (acs : list Altc) (d n which : Z) : S unit :=
  match acs with
  | [] => mret tt
  | a :: acs =>
      match ac_c a with
      | Some (AltArray i) =>
          cs ← array_of i;
          w ← altcomm_array cs (ac_ptr a) d n 0 which;
          match w with None => mret tt | Some which => altcomm_recvs acs d (n + 1) which end
      | Some (AltChan c) =>
          b ← ready Rcv c;
          if (b : bool) && (which =? 0) then poke d n;; irecv (Some c) (ac_ptr a)
          else altcomm_recvs acs d (n + 1) (which - b2n b)
      | None => fault
      end
  end.
Definition altcomm (a : Alt) (d which : Z) : S unit :=
  '(n, w) ← altcomm_sends (ac_sends a) d 0 which;
  match w with None => mret tt | Some which => altcomm_recvs (ac_recvs a) d n which end.

(** [s] and [d] are [R.s] and [R.d]. *)
Definition xecalt (block : bool) (s : nat) (d : Z) : S unit :=
  p ← currun;
  a ← alt_of s;
  nrdy ← altrdy a p;
  if nrdy =? 0 then
    if block then
      delrun Palt;;
      set_prog p (set_regs s d);;
      modify (with_flags 1 1)
    else
      poke d (Z.of_nat (nsend a) + Z.of_nat (nrecv a));;
      altdone a p None (-1)
  else
    modify (fun st => with_xrand (u64 (xrand st * 1103515245 + 12345)) st);;
    x ← gets xrand;
    altcomm a d (Z.shiftr x 8 mod nrdy);;
    altdone a p None (-1).
Definition alt (s : nat) (d : Z) : S unit := modify (fun st => with_flags (R_IC st) 0 st);; xecalt true s d.
Definition nbalt (s : nat) (d : Z) : S unit := xecalt false s d.

Definition altgone (p : nat) : S unit :=
  r ← prog p;
  if decide (p_state r = Palt) then
    a ← alt_of (p_Rs r);
    altdone a p None (-1);;
    set_prog p (set_kill "alt channel hungup");;
    addrun p
  else mret tt.

(** exprog (emu/port/dis.c): a program that waits on a channel leaves its queues
    and runs, to raise the exception [exc]; swiprog, which interrupts the system
    call of a released one, has no effect on this state. *)
Definition exprog (p : nat) (exc : string) : S unit :=
  r ← prog p;
  let raise := match p_kill r with None => set_prog p (set_kill exc) | Some _ => mret tt end in
  match p_state r with
  | Palt => a ← alt_of (p_Rs r); altdone a p None (-1);; addrun p;; raise
  | Psend => c ← of_option (p_chan r); on_queue Snd c (fun q => cqdelp q p);; addrun p;; raise
  | Precv => c ← of_option (p_chan r); on_queue Rcv c (fun q => cqdelp q p);; addrun p;; raise
  | Pready | Prelease => raise
  | Pexiting | Pbroken | Pdebug => mret tt
  end.

(** The scheduler (vmachine, release, acquire): a program that is still first
    after its turn goes last; one that blocks in the kernel leaves the run queue
    and is put first again when it is done. *)
Definition rotate (r : nat) : S unit :=
  modify (with_runq (fun q => match q with
                              | f :: (_ :: _) as rest => if decide (r = f) then rest ++ [f] else q
                              | _ => q
                              end)).
Definition release : S unit := delrun Prelease;; mret tt.
Definition acquire (p : nat) : S unit := set_prog p (set_state Pready);; modify (with_runq (cons p)).

(** A channel as cnewc makes it; [len] is the length of the buffer. *)
Definition cnewc (buf : Z) (len esz : Z) : Channel :=
  mkChannel (if 0 <? len then Some (mkBuf buf len esz) else None) [None] [None] 0 0.

(** ** Queues as lists *)

Definition enc (l : list nat) : Progq := match l with [] => [None] | _ => Some <$> l end.
Definition others (p : nat) (l : list nat) : list nat := filter (fun q => q <> p) l.

Lemma cqadd_enc l p : cqadd (enc l) p = Some (enc (l ++ [p])).
Proof. destruct l as [|q l]; [done|]. cbn. by rewrite fmap_app. Qed.
Lemma cqdel_enc p l : cqdel (enc (p :: l)) = Some (enc l).
Proof. by destruct l. Qed.
Lemma head_enc l : head (enc l) = Some (head l).
Proof. by destruct l. Qed.
Lemma enc_inj l l' : enc l = enc l' -> l = l'.
Proof.
  destruct l as [|p l], l' as [|p' l']; cbn; try done. intros [= -> E]. f_equal.
  by apply (inj (fmap Some)) in E.
Qed.
Lemma filter_fmap_Some p l : filter (fun n => n <> Some p) (Some <$> l) = Some <$> others p l.
Proof.
  unfold others. induction l as [|q l IH]; [done|]. rewrite fmap_cons.
  destruct (decide (q = p)) as [->|Hn].
  - rewrite !filter_cons_False by tauto. done.
  - rewrite !filter_cons_True by congruence. by rewrite IH.
Qed.
Lemma others_notin p l : p ∉ l -> others p l = l.
Proof.
  intros H. unfold others. induction l as [|q l IH]; [done|]. apply not_elem_of_cons in H as [Hq H].
  rewrite filter_cons_True by congruence. by rewrite IH.
Qed.
Lemma others_cons p l : p ∉ l -> others p (p :: l) = l.
Proof. intros H. unfold others. rewrite filter_cons_False by tauto. by apply others_notin. Qed.
Lemma elem_of_others p q l : q ∈ others p l <-> q ∈ l /\ q <> p.
Proof. unfold others. rewrite list_elem_of_filter. tauto. Qed.
Lemma NoDup_others p l : NoDup l -> NoDup (others p l).
Proof. apply list.NoDup_filter. Qed.

(** A program listed at most once leaves the queue well formed. *)
Lemma cqdelp_enc l p : NoDup l -> cqdelp (enc l) p = Some (enc (others p l)).
Proof.
  intros H. destruct l as [|q [|q' l]]; [done| |].
  - change (cqdelp (enc [q]) p) with (Some [if decide (Some q = Some p) then None else Some q]).
    unfold others. destruct (decide (Some q = Some p)) as [E|E].
    + rewrite filter_cons_False by (intros H'; congruence). done.
    + rewrite filter_cons_True by congruence. done.
  - change (cqdelp (enc (q :: q' :: l)) p) with (Some (filter (fun n => n <> Some p) (Some <$> q :: q' :: l))).
    rewrite filter_fmap_Some. f_equal. destruct (others p (q :: q' :: l)) eqn:E; [|done].
    exfalso. assert (Hq : forall x, x ∈ q :: q' :: l -> x = p).
    { intros x Hx. destruct (decide (x = p)) as [|Hn]; [done|]. assert (Hi : x ∈ others p (q :: q' :: l)) by by apply elem_of_others.
      rewrite E in Hi. by apply elem_of_nil in Hi. }
    apply list.NoDup_cons in H as [H _]. apply H. rewrite (Hq q) by constructor. rewrite (Hq q') by (right; constructor).
    constructor.
Qed.
#[global] Arguments others : simpl never.
#[global] Arguments enc : simpl never.

(** Listed twice, and no other program with it, it leaves a nil pointer. *)
Lemma cqdelp_twice p : cqdelp (enc [p; p]) p = Some [].
Proof.
  change (cqdelp (enc [p; p]) p) with (Some (filter (fun n => n <> Some p) (Some <$> [p; p]))).
  rewrite filter_fmap_Some. unfold others. by rewrite !filter_cons_False by tauto.
Qed.

(** ** Who waits where *)

(** A set of waits: program, side, channel. *)
Definition waits : Type := nat -> side -> nat -> Prop.

(** Every queue is well formed and lists exactly the programs in [W], each once. *)
Definition queues (W : waits) (cs : gmap nat Channel) : Prop :=
  forall c ch d, cs !! c = Some ch ->
    exists l, queue d ch = enc l /\ NoDup l /\ forall p, p ∈ l <-> W p d c.

Definition leave (d : side) (p c : nat) (cs : gmap nat Channel) : gmap nat Channel :=
  alter (fun ch => set_queue d (enc (others p (omap id (queue d ch)))) ch) c cs.
Definition leaves (refs : list (side * nat)) (p : nat) (cs : gmap nat Channel) : gmap nat Channel :=
  foldl (fun cs r => leave r.1 p r.2 cs) cs refs.

(** What the queues do not touch. *)
Definition contents (ch : Channel) : option Buf * Z * Z := (c_buf ch, c_front ch, c_size ch).

Lemma omap_enc l : omap id (enc l) = l.
Proof. destruct l as [|p l]; [done|]. unfold enc. cbn. f_equal. induction l; cbn; congruence. Qed.
Lemma queue_set d q ch : queue d (set_queue d q ch) = q.
Proof. by destruct d. Qed.
Lemma queue_set_ne d d' q ch : d <> d' -> queue d (set_queue d' q ch) = queue d ch.
Proof. by destruct d, d'. Qed.
Lemma contents_set d q ch : contents (set_queue d q ch) = contents ch.
Proof. by destruct d. Qed.
Lemma set_queue_id d q ch : queue d ch = q -> set_queue d q ch = ch.
Proof. intros <-. by destruct d, ch. Qed.

Lemma contents_leave d p c cs : contents <$> leave d p c cs = contents <$> cs.
Proof.
  apply map_eq. intros c'. unfold leave. rewrite !lookup_fmap.
  destruct (decide (c' = c)) as [->|Hne]; [|by rewrite lookup_alter_ne].
  rewrite lookup_alter_eq. destruct (cs !! c); [|done]. cbn. by rewrite contents_set.
Qed.
Lemma contents_leaves refs p cs : contents <$> leaves refs p cs = contents <$> cs.
Proof.
  unfold leaves. revert cs. induction refs as [|r refs IH]; intros cs; [done|]. cbn [foldl].
  by rewrite IH, contents_leave.
Qed.
Lemma same_domain (cs cs' : gmap nat Channel) c :
  contents <$> cs = contents <$> cs' -> is_Some (cs !! c) -> is_Some (cs' !! c).
Proof.
  intros E [ch H]. apply (f_equal (lookup c)) in E. rewrite !lookup_fmap, H in E.
  destruct (cs' !! c); [eauto|done].
Qed.

(** [queues] transported along a change of one queue. *)
Lemma queues_set (W W' : waits) cs c d ch l :
  queues W cs -> cs !! c = Some ch -> NoDup l ->
  (forall p, p ∈ l <-> W' p d c) ->
  (forall p d' c', d' <> d \/ c' <> c -> W' p d' c' <-> W p d' c') ->
  queues W' (<[c := set_queue d (enc l) ch]> cs).
Proof.
  intros HQ Hch Hnd Hl HW c' ch' d' Hc'. destruct (decide (c' = c)) as [->|Hne].
  - rewrite lookup_insert_eq in Hc'. injection Hc' as <-. destruct (decide (d' = d)) as [->|Hd].
    + exists l. by rewrite queue_set.
    + destruct (HQ c ch d' Hch) as (l' & E & Hnd' & Hl'). exists l'. rewrite queue_set_ne by done.
      split; [done|]. split; [done|]. intros p. rewrite Hl'. symmetry. apply HW. by left.
  - rewrite lookup_insert_ne in Hc' by done. destruct (HQ c' ch' d' Hc') as (l' & E & Hnd' & Hl').
    exists l'. split; [done|]. split; [done|]. intros p. rewrite Hl'. symmetry. apply HW. by right.
Qed.
Lemma queues_weaken (W W' : waits) cs : (forall p d c, W p d c <-> W' p d c) -> queues W cs -> queues W' cs.
Proof.
  intros HW HQ c ch d Hc. destruct (HQ c ch d Hc) as (l & E & Hnd & Hl). exists l. split; [done|]. split; [done|].
  intros p. by rewrite Hl.
Qed.

Definition minus (W : waits) (p : nat) (refs : list (side * nat)) : waits :=
  fun q d c => W q d c /\ ~ (q = p /\ (d, c) ∈ refs).

Lemma queues_leave W cs d p c : queues W cs -> queues (minus W p [(d, c)]) (leave d p c cs).
Proof.
  intros HQ. unfold leave. destruct (cs !! c) as [ch|] eqn:Hch.
  - assert (E : alter (fun ch => set_queue d (enc (others p (omap id (queue d ch)))) ch) c cs
      = <[c := set_queue d (enc (others p (omap id (queue d ch)))) ch]> cs).
    { apply map_eq. intros c'. destruct (decide (c' = c)) as [->|];
        [by rewrite lookup_alter_eq, lookup_insert_eq, Hch|by rewrite lookup_alter_ne, lookup_insert_ne]. }
    rewrite E. destruct (HQ c ch d Hch) as (l & El & Hnd & Hl). rewrite El, omap_enc.
    apply (queues_set W _ cs c d ch _ HQ Hch); [by apply NoDup_others| |].
    + intros q. rewrite elem_of_others, Hl. unfold minus. rewrite list_elem_of_singleton. intuition congruence.
    + intros q d' c' Hne. unfold minus. rewrite list_elem_of_singleton. intuition congruence.
  - assert (E : alter (fun ch => set_queue d (enc (others p (omap id (queue d ch)))) ch) c cs = cs).
    { apply map_eq. intros c'. destruct (decide (c' = c)) as [->|]; [by rewrite lookup_alter_eq, Hch|by rewrite lookup_alter_ne]. }
    rewrite E. intros c' ch' d' Hc'. destruct (HQ c' ch' d' Hc') as (l & El & Hnd & Hl). exists l.
    split; [done|]. split; [done|]. intros q. rewrite Hl. unfold minus. rewrite list_elem_of_singleton.
    assert (c' <> c) by congruence. intuition congruence.
Qed.
Lemma queues_leaves W cs p refs : queues W cs -> queues (minus W p refs) (leaves refs p cs).
Proof.
  unfold leaves. revert W cs. induction refs as [|r refs IH]; intros W cs HQ; cbn [foldl].
  - eapply queues_weaken; [|done]. intros q d c. unfold minus. rewrite elem_of_nil. tauto.
  - eapply queues_weaken; [|apply IH, queues_leave, HQ]. intros q d c. unfold minus.
    rewrite list_elem_of_singleton, elem_of_cons. destruct r as [d' c']. cbn [fst snd]. tauto.
Qed.

(** ** What the operations do *)

Lemma chan_ok c ch st : chans st !! c = Some ch -> chan c st = Ok ch st.
Proof. intros H. unfold chan. by rewrite H. Qed.
Lemma prog_ok p r st : progs st !! p = Some r -> prog p st = Ok r st.
Proof. intros H. unfold prog. by rewrite H. Qed.
Lemma alt_ok_of a al st : alts st !! a = Some al -> alt_of a st = Ok al st.
Proof. intros H. unfold alt_of. by rewrite H. Qed.
Lemma array_ok_of i cs st : arrays st !! i = Some cs -> array_of i st = Ok cs st.
Proof. intros H. unfold array_of. by rewrite H. Qed.
Lemma waiting_ok d c ch l st :
  chans st !! c = Some ch -> queue d ch = enc l -> waiting d c st = Ok (head l) st.
Proof. intros H E. unfold waiting. rewrite (bind_ok _ _ ch st st) by by apply chan_ok. by rewrite E, head_enc. Qed.
Lemma on_queue_ok d c op ch q st :
  chans st !! c = Some ch -> op (queue d ch) = Some q ->
  on_queue d c op st = Ok tt (with_chans (insert c (set_queue d q ch)) st).
Proof. intros H E. unfold on_queue. rewrite (bind_ok _ _ ch st st) by by apply chan_ok. by rewrite E. Qed.

Lemma leave_insert d p c cs ch l :
  cs !! c = Some ch -> queue d ch = enc l -> leave d p c cs = <[c := set_queue d (enc (others p l)) ch]> cs.
Proof.
  intros H E. apply map_eq. intros c'. unfold leave. destruct (decide (c' = c)) as [->|].
  - rewrite lookup_alter_eq, lookup_insert_eq, H. cbn [fmap option_fmap option_map]. by rewrite E, omap_enc.
  - by rewrite lookup_alter_ne, lookup_insert_ne.
Qed.

Lemma with_chans_eq f g st : f (chans st) = g (chans st) -> with_chans f st = with_chans g st.
Proof. intros E. unfold with_chans. by rewrite E. Qed.
Lemma with_chans_id f st : f (chans st) = chans st -> with_chans f st = st.
Proof. intros E. unfold with_chans. rewrite E. by destruct st. Qed.

Lemma altleave_ok W d c p st :
  queues W (chans st) -> is_Some (chans st !! c) ->
  altleave d c p st = Ok tt (with_chans (leave d p c) st).
Proof.
  intros HQ [ch Hch]. destruct (HQ c ch d Hch) as (l & E & Hnd & Hl). unfold altleave.
  rewrite (bind_ok _ _ (head l) st st) by by apply (waiting_ok _ _ ch).
  destruct (head l) as [q|] eqn:Eh.
  - rewrite (on_queue_ok d c _ ch (enc (others p l))); [|done|by rewrite E, cqdelp_enc].
    f_equal. apply with_chans_eq. symmetry. by apply leave_insert.
  - assert (l = []) as -> by by destruct l. f_equal. symmetry. apply with_chans_id.
    rewrite (leave_insert d p c _ ch []) by done. apply insert_id. rewrite Hch. f_equal. symmetry.
    by apply set_queue_id.
Qed.

(** The alternatives of an alt, each channel with its side. *)
Definition send_ref (a : Altc) : list (side * nat) :=
  match ac_c a with Some (AltChan c) => [(Snd, c)] | _ => [] end.
Definition send_refs (acs : list Altc) : list (side * nat) := acs ≫= send_ref.
Definition recv_ref (arrs : gmap nat (list (option nat))) (a : Altc) : list (side * nat) :=
  match ac_c a with
  | Some (AltChan c) => [(Rcv, c)]
  | Some (AltArray i) => pair Rcv <$> omap id (arrs !!! i)
  | None => []
  end.
Definition recv_refs (arrs : gmap nat (list (option nat))) (acs : list Altc) : list (side * nat) :=
  acs ≫= recv_ref arrs.
Definition refs (arrs : gmap nat (list (option nat))) (a : Alt) : list (side * nat) :=
  send_refs (ac_sends a) ++ recv_refs arrs (ac_recvs a).

(** The alternative chosen when channel [c] is: its index, where the datum goes,
    and for an array the word that gets the index in it. *)
Definition choice : Type := Z * Z * option (Z * Z).
Fixpoint pick_send (acs : list Altc) (n : Z) (c : nat) : option choice :=
  match acs with
  | [] => None
  | a :: acs =>
      match ac_c a with
      | Some (AltChan c') => if decide (c' = c) then Some (n, ac_ptr a, None) else pick_send acs (n + 1) c
      | _ => pick_send acs (n + 1) c
      end
  end.
Fixpoint pick_array (cs : list (option nat)) (an n ptr : Z) (c : nat) : option choice :=
  match cs with
  | [] => None
  | o :: cs => if decide (o = Some c) then Some (n, ptr + 8, Some (ptr, an)) else pick_array cs (an + 1) n ptr c
  end.
Fixpoint pick_recv (arrs : gmap nat (list (option nat))) (acs : list Altc) (n : Z) (c : nat) : option choice :=
  match acs with
  | [] => None
  | a :: acs =>
      match ac_c a with
      | Some (AltChan c') => if decide (c' = c) then Some (n, ac_ptr a, None) else pick_recv arrs acs (n + 1) c
      | Some (AltArray i) =>
          match pick_array (arrs !!! i) 0 n (ac_ptr a) c with
          | Some k => Some k
          | None => pick_recv arrs acs (n + 1) c
          end
      | None => pick_recv arrs acs (n + 1) c
      end
  end.
(** The effect of the choice on program [p], whose index word is [rd]. *)
Definition poke_cell (a v : Z) (m : Z -> Z) : Z -> Z := fun b => if b =? a then v else m b.
Definition take_choice (p : nat) (rd : Z) (k : option choice) (st : sys) : sys :=
  match k with
  | None => st
  | Some (n, ptr, x) =>
      with_cells (fun m => match x with
                           | None => poke_cell rd n m
                           | Some (a, an) => poke_cell a an (poke_cell rd n m)
                           end) (with_progs (alter (set_ptr (Some ptr)) p) st)
  end.

Lemma take_choice_chans p rd k st : chans (take_choice p rd k st) = chans st.
Proof. by destruct k as [[[n ptr] x]|]. Qed.
Lemma take_choice_with p rd k f st : take_choice p rd k (with_chans f st) = with_chans f (take_choice p rd k st).
Proof. by destruct k as [[[n ptr] x]|]. Qed.

Lemma chosen_ok p ptr n r st :
  progs st !! p = Some r -> chosen p ptr n st = Ok tt (take_choice p (p_Rd r) (Some (n, ptr, None)) st).
Proof.
  intros H. unfold chosen. rewrite (bind_ok _ _ tt st (with_progs (alter (set_ptr (Some ptr)) p) st)) by done.
  rewrite (bind_ok _ _ (set_ptr (Some ptr) r) _ (with_progs (alter (set_ptr (Some ptr)) p) st)).
  2: { apply prog_ok. cbn. by rewrite lookup_alter_eq, H. }
  done.
Qed.

Lemma leaves_app r1 r2 p cs : leaves (r1 ++ r2) p cs = leaves r2 p (leaves r1 p cs).
Proof. apply foldl_app. Qed.
Lemma with_chans_chans f g st : with_chans f (with_chans g st) = with_chans (fun cs => f (g cs)) st.
Proof. done. Qed.
Lemma progs_take_choice p rd k st r :
  progs st !! p = Some r -> exists r', progs (take_choice p rd k st) !! p = Some r' /\ p_Rd r' = p_Rd r /\
    p_state r' = p_state r /\ p_Rs r' = p_Rs r /\ p_kill r' = p_kill r /\
    p_ptr r' = match k with Some (_, ptr, _) => Some ptr | None => p_ptr r end.
Proof.
  intros H. destruct k as [[[n ptr] x]|]; [|by exists r]. exists (set_ptr (Some ptr) r). cbn.
  by rewrite lookup_alter_eq, H.
Qed.

Definition exist_all (refs : list (side * nat)) (cs : gmap nat Channel) : Prop :=
  forall d c, (d, c) ∈ refs -> is_Some (cs !! c).
Lemma exist_leave refs d p c cs : exist_all refs cs -> exist_all refs (leave d p c cs).
Proof. intros H d' c' Hin. eapply same_domain; [symmetry; apply contents_leave|eauto]. Qed.
Lemma exist_leaves rs refs p cs : exist_all refs cs -> exist_all refs (leaves rs p cs).
Proof. intros H d' c' Hin. eapply same_domain; [symmetry; apply contents_leaves|eauto]. Qed.

(** Nothing chosen twice. *)
Definition chosen_by (k : option choice) (sel : option nat) : option nat :=
  match k with Some _ => None | None => sel end.

Definition is_array (a : Altc) : bool := match ac_c a with Some (AltArray _) => true | _ => false end.

Lemma altdone_sends_ok acs n p sel sr st W r :
  queues W (chans st) -> progs st !! p = Some r -> forallb (fun a => negb (is_array a)) acs = true ->
  exist_all (send_refs acs) (chans st) ->
  let k := if sr =? 0 then c ← sel; pick_send acs n c else None in
  altdone_sends acs n p sel sr st =
    Ok (n + Z.of_nat (length acs), chosen_by k sel)
       (take_choice p (p_Rd r) k (with_chans (leaves (send_refs acs) p) st)).
Proof.
  revert n sel st W r. induction acs as [|a acs IH]; intros n sel st W r HQ Hp Ha Hex; cbn [altdone_sends].
  - cbn. assert (E : (if sr =? 0 then sel ≫= (fun _ => None) else None) = @None choice) by (destruct (sr =? 0), sel; done).
    rewrite E. cbn. rewrite Z.add_0_r. by destruct st.
  - cbn [forallb] in Ha. apply andb_true_iff in Ha as [Ha1 Ha]. unfold is_array in Ha1.
    unfold send_refs in Hex |- *. cbn [pick_send mbind list_bind length] in *. unfold send_ref at 1 in Hex. unfold send_ref at 1.
    destruct (ac_c a) as [[c|i]|]; [|done|].
    + assert (Hc : is_Some (chans st !! c)) by (apply (Hex Snd c); constructor).
      rewrite (bind_ok _ _ tt st (with_chans (leave Snd p c) st)) by by apply (altleave_ok W).
      set (st1 := with_chans (leave Snd p c) st).
      assert (HQ1 : queues (minus W p [(Snd, c)]) (chans st1)) by by apply queues_leave.
      assert (Hex1 : exist_all (send_refs acs) (chans st1)).
      { apply exist_leave. intros d' c' Hin. apply (Hex d' c'). by right. }
      destruct ((sr =? 0) && bool_decide (sel = Some c)) eqn:Eb.
      * apply andb_true_iff in Eb as [Es Eb]. apply bool_decide_eq_true in Eb as ->. rewrite Es.
        cbn [mbind option_bind]. rewrite decide_True by done.
        rewrite (bind_ok _ _ tt st1 (take_choice p (p_Rd r) (Some (n, ac_ptr a, None)) st1)) by by apply chosen_ok.
        destruct (progs_take_choice p (p_Rd r) (Some (n, ac_ptr a, None)) st1 r Hp) as (r1 & Hp1 & Hrd & _).
        rewrite (IH (n + 1) None (take_choice p (p_Rd r) (Some (n, ac_ptr a, None)) st1) _ r1 HQ1 Hp1 Ha Hex1).
        rewrite Es. cbn [mbind option_bind chosen_by]. f_equal. f_equal. lia.
      * rewrite (IH _ _ _ _ r HQ1 Hp Ha Hex1).
        assert (Ek : (if sr =? 0 then c0 ← sel; pick_send acs (n + 1) c0 else None) =
          (if sr =? 0 then c0 ← sel; (if decide (c = c0) then Some (n, ac_ptr a, None) else pick_send acs (n + 1) c0) else None)).
        { destruct (sr =? 0), sel as [c0|]; try done. cbn in Eb |- *.
          rewrite decide_False; [done|]. intros ->. by rewrite bool_decide_true in Eb. }
        rewrite Ek. cbn [mbind option_bind]. f_equal. f_equal. lia.
    + rewrite (IH _ _ _ _ r HQ Hp Ha) by exact Hex. f_equal. f_equal. lia.
Qed.

Lemma altunmark_ok cs n ptr p sr sel dn st W r :
  queues W (chans st) -> progs st !! p = Some r -> exist_all (pair Rcv <$> omap id cs) (chans st) ->
  let k := if sr =? 1 then c ← sel; pick_array cs n dn ptr c else None in
  altunmark cs n ptr p sr sel dn st =
    Ok (chosen_by k sel) (take_choice p (p_Rd r) k (with_chans (leaves (pair Rcv <$> omap id cs) p) st)).
Proof.
  revert n sel st W r. induction cs as [|[c|] cs IH]; intros n sel st W r HQ Hp Hex; cbn [altunmark].
  - cbn. assert (E : (if sr =? 1 then sel ≫= (fun _ => None) else None) = @None choice) by (destruct (sr =? 1), sel; done).
    rewrite E. by destruct st.
  - assert (Hc : is_Some (chans st !! c)) by (apply (Hex Rcv c); constructor).
    rewrite (bind_ok _ _ tt st (with_chans (leave Rcv p c) st)) by by apply (altleave_ok W).
    set (st1 := with_chans (leave Rcv p c) st).
    assert (HQ1 : queues (minus W p [(Rcv, c)]) (chans st1)) by by apply queues_leave.
    assert (Hex1 : exist_all (pair Rcv <$> omap id cs) (chans st1)).
    { apply exist_leave. intros d' c' Hin. apply (Hex d' c'). by right. }
    destruct ((sr =? 1) && bool_decide (sel = Some c)) eqn:Eb.
    + apply andb_true_iff in Eb as [Es Eb]. apply bool_decide_eq_true in Eb as ->. rewrite Es.
      cbn [mbind option_bind pick_array]. rewrite decide_True by done.
      rewrite (bind_ok _ _ r st1 st1) by by apply prog_ok.
      set (st2 := take_choice p (p_Rd r) (Some (dn, ptr + 8, Some (ptr, n))) st1).
      destruct (progs_take_choice p (p_Rd r) (Some (dn, ptr + 8, Some (ptr, n))) st1 r Hp) as (r1 & Hp1 & Hrd & _).
      specialize (IH (n + 1) None st2 _ r1 HQ1 Hp1 Hex1). rewrite Es in IH. cbn [mbind option_bind chosen_by] in IH.
      exact IH.
    + rewrite (IH _ _ _ _ r HQ1 Hp Hex1).
      assert (Ek : (if sr =? 1 then c0 ← sel; pick_array cs (n + 1) dn ptr c0 else None) =
        (if sr =? 1 then c0 ← sel; pick_array (Some c :: cs) n dn ptr c0 else None)).
      { destruct (sr =? 1), sel as [c0|]; try done. cbn in Eb |- *.
        rewrite decide_False; [done|]. intros [= ->]. by rewrite bool_decide_true in Eb. }
      by rewrite Ek.
  - rewrite (IH _ _ _ _ r HQ Hp Hex). f_equal; by destruct (sr =? 1), sel.
Qed.

Lemma take_choice_idle p rd k f st : take_choice p rd k (with_chans f st) = with_chans f (take_choice p rd k st).
Proof. by destruct k as [[[n ptr] x]|]. Qed.

Definition arrays_ok (arrs : gmap nat (list (option nat))) (acs : list Altc) : Prop :=
  forall a i, a ∈ acs -> ac_c a = Some (AltArray i) -> is_Some (arrs !! i).

Lemma arrays_take_choice p rd k st : arrays (take_choice p rd k st) = arrays st.
Proof. by destruct k as [[[n ptr] x]|]. Qed.

Lemma altdone_recvs_ok acs n p sel sr st W r :
  queues W (chans st) -> progs st !! p = Some r -> arrays_ok (arrays st) acs ->
  exist_all (recv_refs (arrays st) acs) (chans st) ->
  let k := if sr =? 1 then c ← sel; pick_recv (arrays st) acs n c else None in
  altdone_recvs acs n p sel sr st =
    Ok tt (take_choice p (p_Rd r) k (with_chans (leaves (recv_refs (arrays st) acs) p) st)).
Proof.
  revert n sel st W r. induction acs as [|a acs IH]; intros n sel st W r HQ Hp Ha Hex; cbn [altdone_recvs].
  - cbn. assert (E : (if sr =? 1 then sel ≫= (fun _ => None) else None) = @None choice) by (destruct (sr =? 1), sel; done).
    rewrite E. by destruct st.
  - assert (Ha' : arrays_ok (arrays st) acs) by (intros b i Hb; apply (Ha b); by right).
    assert (Er : recv_refs (arrays st) (a :: acs) =
      match ac_c a with
      | Some (AltChan c) => [(Rcv, c)]
      | Some (AltArray i) => pair Rcv <$> omap id (arrays st !!! i)
      | None => [] end ++ recv_refs (arrays st) acs) by done.
    rewrite Er in Hex |- *. cbn [pick_recv]. destruct (ac_c a) as [[c|i]|] eqn:Ea.
    + assert (Hc : is_Some (chans st !! c)) by (apply (Hex Rcv c); constructor).
      rewrite (bind_ok _ _ tt st (with_chans (leave Rcv p c) st)) by by apply (altleave_ok W).
      set (st1 := with_chans (leave Rcv p c) st).
      assert (HQ1 : queues (minus W p [(Rcv, c)]) (chans st1)) by by apply queues_leave.
      assert (Hex1 : exist_all (recv_refs (arrays st1) acs) (chans st1)).
      { apply exist_leave. intros d' c' Hin. apply (Hex d' c'). by right. }
      destruct ((sr =? 1) && bool_decide (sel = Some c)) eqn:Eb.
      * apply andb_true_iff in Eb as [Es Eb]. apply bool_decide_eq_true in Eb as ->. rewrite Es.
        cbn [mbind option_bind]. rewrite decide_True by done.
        set (st2 := take_choice p (p_Rd r) (Some (n, ac_ptr a, None)) st1).
        rewrite (bind_ok _ _ tt st1 st2) by by apply chosen_ok.
        destruct (progs_take_choice p (p_Rd r) (Some (n, ac_ptr a, None)) st1 r Hp) as (r1 & Hp1 & Hrd & _).
        specialize (IH (n + 1) None st2 _ r1 HQ1 Hp1 Ha' Hex1). rewrite Es in IH. cbn [mbind option_bind] in IH.
        exact IH.
      * rewrite (IH _ _ st1 _ r HQ1 Hp Ha' Hex1).
        assert (Ek : (if sr =? 1 then c0 ← sel; pick_recv (arrays st) acs (n + 1) c0 else None) =
          (if sr =? 1 then c0 ← sel; (if decide (c = c0) then Some (n, ac_ptr a, None) else pick_recv (arrays st) acs (n + 1) c0) else None)).
        { destruct (sr =? 1), sel as [c0|]; try done. cbn in Eb |- *.
          rewrite decide_False; [done|]. intros ->. by rewrite bool_decide_true in Eb. }
        rewrite <- Ek. done.
    + destruct (Ha a i) as [cs Hcs]; [by left|done|]. rewrite (lookup_total_correct _ _ _ Hcs) in Hex |- *.
      rewrite (bind_ok _ _ cs st st) by by apply array_ok_of.
      assert (Hex0 : exist_all (pair Rcv <$> omap id cs) (chans st)).
      { intros d' c' Hin. apply (Hex d' c'). apply elem_of_app. by left. }
      pose proof (altunmark_ok cs 0 (ac_ptr a) p sr sel n st W r HQ Hp Hex0) as Eu. cbn zeta in Eu.
      set (k1 := if sr =? 1 then c ← sel; pick_array cs 0 n (ac_ptr a) c else None) in *.
      set (st1 := take_choice p (p_Rd r) k1 (with_chans (leaves (pair Rcv <$> omap id cs) p) st)) in *.
      rewrite (bind_ok _ _ _ st st1 Eu).
      destruct (progs_take_choice p (p_Rd r) k1 (with_chans (leaves (pair Rcv <$> omap id cs) p) st) r Hp) as (r1 & Hp1 & Hrd & _).
      assert (HQ1 : queues (minus W p (pair Rcv <$> omap id cs)) (chans st1)).
      { unfold st1. rewrite take_choice_chans. by apply queues_leaves. }
      assert (Earr : arrays st1 = arrays st) by (unfold st1; by rewrite arrays_take_choice).
      rewrite (IH _ _ st1 _ r1 HQ1 Hp1); [|by rewrite Earr|].
      2: { rewrite Earr. unfold st1. rewrite take_choice_chans. apply exist_leaves. intros d' c' Hin. apply (Hex d' c').
           apply elem_of_app. by right. }
      rewrite Earr, Hrd.
      assert (Ew : forall k2, take_choice p (p_Rd r) k2 (with_chans (leaves (recv_refs (arrays st) acs) p) st1) =
        take_choice p (p_Rd r) k2 (take_choice p (p_Rd r) k1
          (with_chans (leaves ((pair Rcv <$> omap id cs) ++ recv_refs (arrays st) acs) p) st))).
      { intros k2. unfold st1. rewrite !take_choice_idle, with_chans_chans. apply with_chans_eq. by rewrite leaves_app. }
      rewrite Ew. f_equal. unfold k1. destruct (sr =? 1), sel as [c|]; cbn [mbind option_bind chosen_by]; try done.
      by destruct (pick_array cs 0 n (ac_ptr a) c).
    + by rewrite (IH _ _ _ _ r HQ Hp Ha' Hex).
Qed.

(** An alt the model speaks about: its arrays and channels exist, it sends on
    no array, and no channel occurs twice in it. *)
Record alt_wf (arrs : gmap nat (list (option nat))) (cs : gmap nat Channel) (a : Alt) : Prop := {
  wf_sends : forallb (fun x => negb (is_array x)) (ac_sends a) = true;
  wf_arrays : arrays_ok arrs (ac_recvs a);
  wf_exist : exist_all (refs arrs a) cs;
  wf_distinct : NoDup (snd <$> refs arrs a);
}.

Definition pick (arrs : gmap nat (list (option nat))) (a : Alt) (sr : Z) (c : nat) : option choice :=
  if sr =? 0 then pick_send (ac_sends a) 0 c
  else if sr =? 1 then pick_recv arrs (ac_recvs a) (Z.of_nat (length (ac_sends a))) c
  else None.

(** Leaving an alt takes the program out of the queue of every channel of the
    alt, and notes the alternative chosen, if any. *)
Lemma altdone_ok W a p sel sr st r :
  queues W (chans st) -> progs st !! p = Some r -> alt_wf (arrays st) (chans st) a ->
  altdone a p sel sr st =
    Ok tt (take_choice p (p_Rd r) (c ← sel; pick (arrays st) a sr c)
            (with_chans (leaves (refs (arrays st) a) p) st)).
Proof.
  intros HQ Hp [Hs Ha Hex _]. unfold refs in *. unfold altdone.
  assert (Hex1 : exist_all (send_refs (ac_sends a)) (chans st)).
  { intros d c Hin. apply (Hex d c). apply elem_of_app. by left. }
  pose proof (altdone_sends_ok _ 0 p sel sr st W r HQ Hp Hs Hex1) as E1. cbn zeta in E1.
  set (k1 := if sr =? 0 then c ← sel; pick_send (ac_sends a) 0 c else None) in *.
  set (st1 := take_choice p (p_Rd r) k1 (with_chans (leaves (send_refs (ac_sends a)) p) st)) in *.
  rewrite (bind_ok _ _ _ st st1 E1).
  destruct (progs_take_choice p (p_Rd r) k1 (with_chans (leaves (send_refs (ac_sends a)) p) st) r Hp) as (r1 & Hp1 & Hrd & _).
  assert (Earr : arrays st1 = arrays st) by (unfold st1; by rewrite arrays_take_choice).
  assert (HQ1 : queues (minus W p (send_refs (ac_sends a))) (chans st1)).
  { unfold st1. rewrite take_choice_chans. by apply queues_leaves. }
  rewrite (altdone_recvs_ok _ _ p _ sr st1 _ r1 HQ1 Hp1); rewrite Earr; [|done|].
  2: { unfold st1. rewrite take_choice_chans. apply exist_leaves. intros d c Hin. apply (Hex d c). apply elem_of_app. by right. }
  rewrite Hrd. f_equal. unfold st1. rewrite !take_choice_idle, with_chans_chans.
  etransitivity; [apply with_chans_eq; symmetry; apply leaves_app|]. f_equal.
  unfold k1, pick. rewrite Z.add_0_l. destruct (Z.eqb_spec sr 0) as [->|]; cbn [Z.eqb].
  - destruct sel; done.
  - destruct (sr =? 1), sel; done.
Qed.

(** ** The invariant *)

(** The channels program [p] waits on, by its own account. *)
Definition wants (st : sys) (p : nat) : list (side * nat) :=
  match progs st !! p with
  | None => []
  | Some r =>
      match p_state r with
      | Palt => match alts st !! p_Rs r with Some a => refs (arrays st) a | None => [] end
      | Psend => match p_chan r with Some c => [(Snd, c)] | None => [] end
      | Precv => match p_chan r with Some c => [(Rcv, c)] | None => [] end
      | _ => []
      end
  end.

Definition waiting_for (st : sys) : waits := fun p d c => (d, c) ∈ wants st p.

Definition cap (ch : Channel) : Z := match c_buf ch with None => 0 | Some b => b_len b end.

(** The ring is within its buffer. *)
Definition ring_ok (ch : Channel) : Prop :=
  0 <= c_size ch <= cap ch /\
  match c_buf ch with None => True | Some b => 0 < b_len b /\ 0 <= c_front ch < b_len b end.

(** [M] is a set of programs listed in queues without waiting there: those of
    the alt that is being executed. *)
Record Inv_with (M : waits) (st : sys) : Prop := {
  inv_queues : queues (fun p d c => waiting_for st p d c \/ M p d c) (chans st);
  inv_exists : forall p, exist_all (wants st p) (chans st);
  inv_alts : forall p r, progs st !! p = Some r -> p_state r = Palt ->
    exists a, alts st !! p_Rs r = Some a /\ alt_wf (arrays st) (chans st) a;
  inv_chan : forall p r, progs st !! p = Some r -> p_state r = Psend \/ p_state r = Precv -> is_Some (p_chan r) /\ is_Some (p_ptr r);
  inv_ring : forall c ch, chans st !! c = Some ch -> ring_ok ch;
  inv_send : forall p c ch, chans st !! c = Some ch -> waiting_for st p Snd c -> c_size ch = cap ch;
  inv_recv : forall p c ch, chans st !! c = Some ch -> waiting_for st p Rcv c -> c_size ch = 0;
  inv_match : forall p q c, waiting_for st p Snd c -> waiting_for st q Rcv c -> False;
  inv_runq : NoDup (runq st);
  inv_ready : forall p, p ∈ runq st <-> exists r, progs st !! p = Some r /\ p_state r = Pready;
}.

(** The state between instructions: every queue lists exactly the programs
    blocked on it; a sender waits only at a full channel and a receiver only at
    an empty one, never both at the same channel (nothing that could be
    communicated is left); the run queue lists exactly the ready programs. *)
Definition Inv : sys -> Prop := Inv_with (fun _ _ _ => False).

(** ** Leaving all queues *)

Definition clean (p : nat) (q : Progq) : Progq := enc (others p (omap id q)).
Lemma others_idem p l : others p (others p l) = others p l.
Proof. apply others_notin. rewrite elem_of_others. tauto. Qed.
Lemma clean_idem p q : clean p (clean p q) = clean p q.
Proof. unfold clean. by rewrite omap_enc, others_idem. Qed.

Definition cleaned (rs : list (side * nat)) (p c : nat) (ch : Channel) : Channel :=
  mkChannel (c_buf ch)
    (if bool_decide ((Snd, c) ∈ rs) then clean p (c_send ch) else c_send ch)
    (if bool_decide ((Rcv, c) ∈ rs) then clean p (c_recv ch) else c_recv ch)
    (c_front ch) (c_size ch).

Lemma lookup_leaves rs p cs c : leaves rs p cs !! c = cleaned rs p c <$> cs !! c.
Proof.
  unfold leaves. revert cs. induction rs as [|[d c'] rs IH]; intros cs; cbn [foldl fst snd].
  - destruct (cs !! c) as [[]|]; done.
  - rewrite IH. unfold leave. destruct (decide (c' = c)) as [->|Hne].
    + rewrite lookup_alter_eq. destruct (cs !! c) as [ch|]; [|done]. cbn. f_equal. unfold cleaned.
      destruct d; cbn; f_equal; repeat case_bool_decide; rewrite ?elem_of_cons in *; fold (clean p (c_send ch)) (clean p (c_recv ch));
        rewrite ?clean_idem; try done; intuition congruence.
    + rewrite lookup_alter_ne by done. destruct (cs !! c) as [ch|]; [|done]. cbn. f_equal. unfold cleaned.
      f_equal; repeat case_bool_decide; rewrite ?elem_of_cons in *; try done; intuition congruence.
Qed.
Lemma leaves_absorb rs d c p cs : (d, c) ∈ rs -> leaves rs p (leave d p c cs) = leaves rs p cs.
Proof.
  intros Hin. apply map_eq. intros c'. rewrite !lookup_leaves. unfold leave.
  destruct (decide (c' = c)) as [->|Hne]; [|by rewrite lookup_alter_ne].
  rewrite lookup_alter_eq. destruct (cs !! c) as [ch|]; [|done]. cbn. f_equal. unfold cleaned.
  destruct d; cbn; rewrite (bool_decide_eq_true_2 _ Hin); fold (clean p (c_send ch)) (clean p (c_recv ch));
    by rewrite clean_idem.
Qed.
Lemma leaves_contents rs p cs c ch' :
  leaves rs p cs !! c = Some ch' -> exists ch, cs !! c = Some ch /\ contents ch' = contents ch /\ c_buf ch' = c_buf ch.
Proof.
  rewrite lookup_leaves. destruct (cs !! c) as [ch|]; [|done]. intros [= <-]. by exists ch.
Qed.

Lemma remove_head W d c q l ch st :
  queues W (chans st) -> chans st !! c = Some ch -> queue d ch = enc (q :: l) ->
  on_queue d c cqdel st = Ok tt (with_chans (leave d q c) st).
Proof.
  intros HQ Hch E. rewrite (on_queue_ok d c _ ch (enc l)); [|done|by rewrite E, cqdel_enc].
  f_equal. apply with_chans_eq. rewrite (leave_insert d q c _ ch (q :: l)) by done.
  destruct (HQ c ch d Hch) as (l' & E' & Hnd & _). rewrite E in E'. apply enc_inj in E' as <-.
  apply list.NoDup_cons in Hnd as [Hq _]. by rewrite others_cons.
Qed.

Definition blocked (s : ProgState) : Prop := s = Palt \/ s = Psend \/ s = Precv.

Lemma wants_ext st st' p :
  progs st' !! p = progs st !! p -> alts st' = alts st -> arrays st' = arrays st -> wants st' p = wants st p.
Proof. intros E1 E2 E3. unfold wants. by rewrite E1, E2, E3. Qed.
Lemma wants_blocked st p r d c : progs st !! p = Some r -> (d, c) ∈ wants st p -> blocked (p_state r).
Proof.
  intros Hp. unfold wants, blocked. rewrite Hp. destruct (p_state r); rewrite ?elem_of_nil; tauto.
Qed.
Lemma alt_wf_ext arrs cs cs' a : contents <$> cs = contents <$> cs' -> alt_wf arrs cs a -> alt_wf arrs cs' a.
Proof. intros E [H1 H2 H3 H4]. split; try done. intros d c Hin. eapply same_domain; eauto. Qed.

(** The part of the state the invariant is about. *)
Lemma Inv_ext M st st' :
  progs st' = progs st -> chans st' = chans st -> arrays st' = arrays st -> alts st' = alts st -> runq st' = runq st ->
  Inv_with M st -> Inv_with M st'.
Proof.
  intros E1 E2 E3 E4 E5 [H1 H2 H3 H4 H5 H6 H7 H8 H9 H10].
  assert (Ew : forall p, wants st' p = wants st p) by (intros p; apply wants_ext; congruence).
  split; unfold waiting_for in *; rewrite ?E1, ?E2, ?E3, ?E4, ?E5; intros; rewrite ?Ew in *; eauto.
  - eapply queues_weaken; [|exact H1]. intros p d c. cbn. by rewrite Ew.
Qed.

(** A blocked program that leaves the queues it waits in and runs. *)
Lemma wake_inv M st st' q r r' :
  Inv_with M st -> (forall d c, ~ M q d c) ->
  progs st !! q = Some r -> blocked (p_state r) ->
  progs st' !! q = Some r' -> p_state r' = Pready -> (forall p, p <> q -> progs st' !! p = progs st !! p) ->
  chans st' = leaves (wants st q) q (chans st) -> arrays st' = arrays st -> alts st' = alts st ->
  runq st' = runq st ++ [q] -> Inv_with M st'.
Proof.
  intros [H1 H2 H3 H4 H5 H6 H7 H8 H9 H10] HM Hq Hb Hq' Hr' Ho Ec Ea El Er.
  assert (Ew : forall p, p <> q -> wants st' p = wants st p) by (intros p Hne; apply wants_ext; auto).
  assert (Ew' : wants st' q = []) by (unfold wants; rewrite Hq', Hr'; done).
  assert (Hw : forall p d c, waiting_for st' p d c <-> waiting_for st p d c /\ p <> q).
  { intros p d c. unfold waiting_for. destruct (decide (p = q)) as [->|Hne].
    - rewrite Ew', elem_of_nil. tauto.
    - rewrite Ew by done. tauto. }
  assert (Hcon : contents <$> chans st = contents <$> chans st') by (by rewrite Ec, contents_leaves).
  assert (Hcap : forall c ch', chans st' !! c = Some ch' -> exists ch, chans st !! c = Some ch /\ c_size ch' = c_size ch /\
    cap ch' = cap ch /\ (ring_ok ch -> ring_ok ch')).
  { intros c ch' Hch'. rewrite Ec in Hch'. destruct (leaves_contents _ _ _ _ _ Hch') as (ch & Hch & Hc & Hbuf).
    injection Hc as _ Hf Hs. exists ch. split; [done|]. split; [done|]. unfold cap, ring_ok, cap.
    rewrite Hbuf, Hf, Hs. done. }
  split.
  - rewrite Ec. eapply queues_weaken; [|apply queues_leaves, H1]. intros p d c. unfold minus. rewrite Hw.
    unfold waiting_for. split.
    + intros [[Hp|Hp] Hn]; [left|by right]. split; [done|]. intros ->. by apply Hn.
    + intros [[Hp Hn]|Hp]; (split; [tauto|]); intros [-> _]; [done|by eapply HM].
  - intros p d c Hin. destruct (decide (p = q)) as [->|Hne]; [by rewrite Ew', elem_of_nil in Hin|].
    rewrite Ew in Hin by done. eapply same_domain; [exact Hcon|by eapply H2].
  - intros p rp Hp Hs. destruct (decide (p = q)) as [->|Hne]; [congruence|]. rewrite Ho in Hp by done.
    destruct (H3 p rp Hp Hs) as (a & Ha & Hwf). exists a. rewrite El, Ea. split; [done|]. by eapply alt_wf_ext.
  - intros p rp Hp Hs. destruct (decide (p = q)) as [->|Hne]; [destruct Hs; congruence|]. rewrite Ho in Hp by done. eauto.
  - intros c ch' Hch'. destruct (Hcap c ch' Hch') as (ch & Hch & _ & _ & Hring). eauto.
  - intros p c ch' Hch' Hp. destruct (Hcap c ch' Hch') as (ch & Hch & -> & -> & _). apply Hw in Hp as [Hp _]. eauto.
  - intros p c ch' Hch' Hp. destruct (Hcap c ch' Hch') as (ch & Hch & -> & _). apply Hw in Hp as [Hp _]. eauto.
  - intros p p' c [Hp _]%Hw [Hp' _]%Hw. eauto.
  - rewrite Er. apply list.NoDup_app. split; [done|]. split; [|apply NoDup_singleton].
    intros x Hx. rewrite list_elem_of_singleton. intros ->. apply H10 in Hx as (rx & Hx & Hs).
    assert (rx = r) as -> by congruence. destruct Hb as [|[|]]; congruence.
  - intros p. rewrite Er, elem_of_app, list_elem_of_singleton, H10. destruct (decide (p = q)) as [->|Hne].
    + split; [|tauto]. eauto.
    + rewrite Ho by done. tauto.
Qed.

(** A program listed on one more queue. *)
Definition plus (M : waits) (p : nat) (d : side) (c : nat) : waits :=
  fun q d' c' => M q d' c' \/ (q = p /\ d' = d /\ c' = c).

Lemma contents_insert_queue d q c ch (cs : gmap nat Channel) :
  cs !! c = Some ch -> contents <$> <[c := set_queue d q ch]> cs = contents <$> cs.
Proof.
  intros H. apply map_eq. intros c'. rewrite !lookup_fmap. destruct (decide (c' = c)) as [->|Hne].
  - rewrite lookup_insert_eq, H. cbn. by rewrite contents_set.
  - by rewrite lookup_insert_ne.
Qed.

(** The invariant across a change of the channels that keeps the contents. *)
Lemma Inv_chans M M' st f :
  Inv_with M st -> contents <$> f (chans st) = contents <$> chans st ->
  queues (fun p d c => waiting_for st p d c \/ M' p d c) (f (chans st)) ->
  Inv_with M' (with_chans f st).
Proof.
  intros [H1 H2 H3 H4 H5 H6 H7 H8 H9 H10] Hcon HQ.
  assert (Ew : forall p, wants (with_chans f st) p = wants st p) by done.
  assert (Hcap : forall c ch', f (chans st) !! c = Some ch' -> exists ch, chans st !! c = Some ch /\ c_size ch' = c_size ch /\
    cap ch' = cap ch /\ (ring_ok ch -> ring_ok ch')).
  { intros c ch' Hch'. apply (f_equal (lookup c)) in Hcon. rewrite !lookup_fmap, Hch' in Hcon.
    destruct (chans st !! c) as [ch|]; [|done]. injection Hcon as Hb Hf Hs. exists ch. unfold cap, ring_ok, cap.
    by rewrite Hb, Hf, Hs. }
  split; unfold waiting_for in *; cbn [with_chans chans arrays alts progs runq]; try done.
  - intros p d c Hin. eapply same_domain; [symmetry; exact Hcon|by eapply H2].
  - intros p r Hp Hs. destruct (H3 p r Hp Hs) as (a & Ha & Hwf). exists a. split; [done|].
    eapply alt_wf_ext; [symmetry; exact Hcon|done].
  - intros c ch' Hch'. destruct (Hcap c ch' Hch') as (ch & Hch & _ & _ & Hr). eauto.
  - intros p c ch' Hch' Hp. destruct (Hcap c ch' Hch') as (ch & Hch & -> & -> & _). eauto.
  - intros p c ch' Hch' Hp. destruct (Hcap c ch' Hch') as (ch & Hch & -> & _). eauto.
Qed.

Lemma mark_inv M st d p c ch :
  Inv_with M st -> chans st !! c = Some ch -> ~ waiting_for st p d c -> ~ M p d c ->
  exists l, queue d ch = enc l /\
    on_queue d c (fun q => cqadd q p) st = Ok tt (with_chans (insert c (set_queue d (enc (l ++ [p])) ch)) st) /\
    Inv_with (plus M p d c) (with_chans (insert c (set_queue d (enc (l ++ [p])) ch)) st).
Proof.
  intros HI Hch Hw HM. destruct (inv_queues _ _ HI c ch d Hch) as (l & E & Hnd & Hl). exists l. split; [done|].
  split. { apply on_queue_ok; [done|]. by rewrite E, cqadd_enc. }
  apply (Inv_chans M); [done|by apply contents_insert_queue|].
  eapply (queues_set _ _ _ c d ch); [exact (inv_queues _ _ HI)|done| | |].
  - apply list.NoDup_app. split; [done|]. split; [|apply NoDup_singleton]. intros x Hx. rewrite list_elem_of_singleton.
    intros ->. apply Hl in Hx. tauto.
  - intros q. rewrite elem_of_app, list_elem_of_singleton, Hl. unfold plus. tauto.
  - intros q d' c' Hne. unfold plus. tauto.
Qed.

(** The current program, listed on the queues in [rs] by the marks alone, blocks
    there. *)
Lemma block_inv M st st' p r' rs rest :
  Inv_with M st -> (forall q d c, M q d c <-> q = p /\ (d, c) ∈ rs) ->
  runq st = p :: rest -> runq st' = rest ->
  progs st' !! p = Some r' -> blocked (p_state r') -> (forall q, q <> p -> progs st' !! q = progs st !! q) ->
  chans st' = chans st -> arrays st' = arrays st -> alts st' = alts st ->
  (forall d c, (d, c) ∈ wants st' p <-> (d, c) ∈ rs) ->
  (p_state r' = Palt -> exists a, alts st !! p_Rs r' = Some a /\ alt_wf (arrays st) (chans st) a) ->
  (p_state r' = Psend \/ p_state r' = Precv -> is_Some (p_chan r') /\ is_Some (p_ptr r')) ->
  exist_all rs (chans st) ->
  (forall c ch, chans st !! c = Some ch -> (Snd, c) ∈ rs -> c_size ch = cap ch /\ forall q, ~ waiting_for st q Rcv c) ->
  (forall c ch, chans st !! c = Some ch -> (Rcv, c) ∈ rs -> c_size ch = 0 /\ forall q, ~ waiting_for st q Snd c) ->
  (forall c, (Snd, c) ∈ rs -> (Rcv, c) ∈ rs -> False) ->
  Inv st'.
Proof.
  intros [H1 H2 H3 H4 H5 H6 H7 H8 H9 H10] HM Er Er' Hp' Hb Ho Ec Ea El Hrs Halt Hchan Hex Hsnd Hrcv Hboth.
  assert (Hpr : exists r, progs st !! p = Some r /\ p_state r = Pready) by (apply H10; rewrite Er; constructor).
  destruct Hpr as (r & Hp & Hready).
  assert (Ew : forall q, q <> p -> wants st' q = wants st q) by (intros q Hne; apply wants_ext; auto).
  assert (Ew0 : forall d c, ~ waiting_for st p d c).
  { intros d c Hin. apply (wants_blocked _ _ _ _ _ Hp) in Hin. destruct Hin as [|[|]]; congruence. }
  assert (Hw : forall q d c, waiting_for st' q d c <-> waiting_for st q d c \/ (q = p /\ (d, c) ∈ rs)).
  { intros q d c. destruct (decide (q = p)) as [->|Hne].
    - unfold waiting_for at 1. rewrite Hrs. specialize (Ew0 d c). tauto.
    - unfold waiting_for. rewrite Ew by done. tauto. }
  rewrite Er in H9. apply list.NoDup_cons in H9 as [Hnp Hnd].
  split; rewrite ?Ec, ?Ea, ?El.
  - eapply queues_weaken; [|exact H1]. intros q d c. cbn. rewrite Hw, HM. tauto.
  - intros q. destruct (decide (q = p)) as [->|Hne]; [|by rewrite Ew].
    intros d c Hin. apply Hrs in Hin. by eapply Hex.
  - intros q rq Hq Hs. destruct (decide (q = p)) as [->|Hne]; [|rewrite Ho in Hq by done; eauto].
    assert (rq = r') as -> by congruence. auto.
  - intros q rq Hq Hs. destruct (decide (q = p)) as [->|Hne]; [|rewrite Ho in Hq by done; eauto].
    assert (rq = r') as -> by congruence. auto.
  - exact H5.
  - intros q c ch Hch [Hq|[-> Hin]]%Hw; [eauto|]. by apply (Hsnd c ch).
  - intros q c ch Hch [Hq|[-> Hin]]%Hw; [eauto|]. by apply (Hrcv c ch).
  - intros q q' c Hq Hq'. assert (Hc : is_Some (chans st !! c)).
    { apply Hw in Hq as [Hq|[-> Hin]]; [by eapply H2|by eapply Hex]. }
    destruct Hc as [ch Hch]. apply Hw in Hq as [Hq|[-> Hin]], Hq' as [Hq'|[-> Hin']].
    + eauto.
    + by eapply (Hrcv c ch).
    + by eapply (Hsnd c ch).
    + eauto.
  - by rewrite Er'.
  - intros q. rewrite Er'. specialize (H10 q). rewrite Er, elem_of_cons in H10. destruct (decide (q = p)) as [->|Hne].
    + split; [done|]. intros (rq & Hq & Hs). assert (rq = r') as -> by congruence. destruct Hb as [|[|]]; congruence.
    + rewrite Ho by done. rewrite <- H10. tauto.
Qed.

(** A channel whose buffer has moved on. *)
Lemma resize_inv M st c ch f n :
  Inv_with M st -> chans st !! c = Some ch ->
  let ch' := mkChannel (c_buf ch) (c_send ch) (c_recv ch) f n in
  ring_ok ch' -> (forall p, waiting_for st p Snd c -> n = cap ch) -> (forall p, waiting_for st p Rcv c -> n = 0) ->
  Inv_with M (with_chans (insert c ch') st).
Proof.
  intros [H1 H2 H3 H4 H5 H6 H7 H8 H9 H10] Hch ch' Hring Hs Hr.
  assert (Hdom : forall c', is_Some (chans st !! c') -> is_Some (<[c := ch']> (chans st) !! c')).
  { intros c' Hc'. destruct (decide (c' = c)) as [->|]; [rewrite lookup_insert_eq; eauto|by rewrite lookup_insert_ne]. }
  assert (Hl : forall c' x, <[c := ch']> (chans st) !! c' = Some x -> (c' = c /\ x = ch') \/ chans st !! c' = Some x).
  { intros c' x Hx. destruct (decide (c' = c)) as [->|]; [rewrite lookup_insert_eq in Hx; left; split; congruence|].
    rewrite lookup_insert_ne in Hx by done. by right. }
  split; unfold waiting_for in *; cbn [with_chans chans arrays alts progs runq]; try done.
  - intros c' x d Hx. apply Hl in Hx as [[-> ->]|Hx]; [|by apply H1]. destruct (H1 c ch d Hch) as (l & E & Hrest).
    exists l. split; [|done]. by destruct d.
  - intros p d c' Hin. apply Hdom. by eapply H2.
  - intros p r Hp Hst. destruct (H3 p r Hp Hst) as (a & Ha & [W1 W2 W3 W4]). exists a. split; [done|]. split; try done.
    intros d c' Hin. apply Hdom. by eapply W3.
  - intros c' x Hx. apply Hl in Hx as [[-> ->]|Hx]; [done|eauto].
  - intros p c' x Hx Hp. apply Hl in Hx as [[-> ->]|Hx]; [by apply (Hs p)|eauto].
  - intros p c' x Hx Hp. apply Hl in Hx as [[-> ->]|Hx]; [by apply (Hr p)|eauto].
Qed.

(** ** Waking a waiting program *)

Definition sr_of (d : side) : Z := match d with Snd => 0 | Rcv => 1 end.

(** The alternative a program [r] found waiting at [c] had there. *)
Definition choice_of (st : sys) (r : Prog) (d : side) (c : nat) : option choice :=
  if decide (p_state r = Palt) then a ← alts st !! p_Rs r; pick (arrays st) a (sr_of d) c else None.
(** Where its datum is. *)
Definition place_of (st : sys) (r : Prog) (d : side) (c : nat) : Z :=
  match choice_of st r d c with Some (_, ptr, _) => ptr | None => default 0 (p_ptr r) end.

Definition removed (st : sys) (q : nat) (r : Prog) (d : side) (c : nat) : sys :=
  take_choice q (p_Rd r) (choice_of st r d c) (with_chans (leaves (wants st q) q) st).

Lemma unalt_ok M st q r d c :
  Inv_with M st -> progs st !! q = Some r -> (d, c) ∈ wants st q ->
  unalt q c (sr_of d) (with_chans (leave d q c) st) = Ok tt (removed st q r d c).
Proof.
  intros HI Hq Hin. unfold unalt, removed, choice_of.
  rewrite (bind_ok _ _ r _ (with_chans (leave d q c) st)) by by apply prog_ok.
  destruct (decide (p_state r = Palt)) as [Hs|Hs].
  - destruct (inv_alts _ _ HI q r Hq Hs) as (a & Ha & Hwf).
    assert (Ew : wants st q = refs (arrays st) a) by (unfold wants; by rewrite Hq, Hs, Ha).
    rewrite (bind_ok _ _ a _ (with_chans (leave d q c) st)) by by apply alt_ok_of.
    rewrite (altdone_ok _ a q (Some c) (sr_of d) (with_chans (leave d q c) st) r (queues_leave _ _ d q c (inv_queues _ _ HI)) Hq).
    2: { eapply alt_wf_ext; [symmetry; apply contents_leave|done]. }
    rewrite Ha, Ew, with_chans_chans. cbn [mbind option_bind]. f_equal.
    rewrite !take_choice_idle. apply with_chans_eq. apply leaves_absorb. by rewrite <- Ew.
  - assert (Ew : wants st q = [(d, c)]).
    { unfold wants in *. rewrite Hq in *. destruct (p_state r); rewrite ?elem_of_nil in Hin; try done;
        destruct (p_chan r); rewrite ?elem_of_nil in Hin; try done; by apply list_elem_of_singleton in Hin as ->. }
    by rewrite Ew.
Qed.

Lemma head_waits M st d c ch q l :
  Inv_with M st -> chans st !! c = Some ch -> queue d ch = enc (q :: l) -> ~ M q d c ->
  exists r, progs st !! q = Some r /\ blocked (p_state r) /\ (d, c) ∈ wants st q.
Proof.
  intros HI Hch E HM. destruct (inv_queues _ _ HI c ch d Hch) as (l' & E' & _ & Hl).
  rewrite E in E'. apply enc_inj in E' as <-. assert (Hw : waiting_for st q d c).
  { destruct (Hl q) as [H _]. destruct H; [constructor|done|done]. }
  unfold waiting_for in Hw. destruct (progs st !! q) as [r|] eqn:Hq.
  - exists r. split; [done|]. split; [by eapply wants_blocked|done].
  - unfold wants in Hw. rewrite Hq in Hw. by apply elem_of_nil in Hw.
Qed.

Lemma recv_refs_cons arrs a acs :
  recv_refs arrs (a :: acs) = recv_ref arrs a ++ recv_refs arrs acs.
Proof. done. Qed.
(** An alternative that names the channel is found. *)
Lemma pick_send_found acs n c : (Snd, c) ∈ send_refs acs -> is_Some (pick_send acs n c).
Proof.
  revert n. induction acs as [|a acs IH]; intros n; [by intros ?%elem_of_nil|]. unfold send_refs. cbn [mbind list_bind pick_send].
  rewrite elem_of_app. unfold send_ref at 1. destruct (ac_c a) as [[c'|i]|]; intros [H|H]; try by apply elem_of_nil in H.
  all: try by apply IH.
  - apply list_elem_of_singleton in H as [= ->]. rewrite decide_True by done. eauto.
  - destruct (decide (c' = c)); [eauto|by apply IH].
Qed.
Lemma pick_array_found cs an n ptr c : c ∈ omap id cs -> is_Some (pick_array cs an n ptr c).
Proof.
  revert an. induction cs as [|[c'|] cs IH]; intros an; cbn [omap list_omap id pick_array]; [by intros ?%elem_of_nil| |by apply IH].
  rewrite elem_of_cons. destruct (decide (Some c' = Some c)); [eauto|]. intros [->|H]; [done|by apply IH].
Qed.
Lemma pick_recv_found arrs acs n c : (Rcv, c) ∈ recv_refs arrs acs -> is_Some (pick_recv arrs acs n c).
Proof.
  revert n. induction acs as [|a acs IH]; intros n; [by intros ?%elem_of_nil|].
  rewrite recv_refs_cons, elem_of_app. cbn [pick_recv].
  unfold recv_ref. destruct (ac_c a) as [[c'|i]|]; intros [H|H]; try by apply elem_of_nil in H.
  all: try by apply IH.
  - apply list_elem_of_singleton in H as [= ->]. rewrite decide_True by done. eauto.
  - destruct (decide (c' = c)); [eauto|by apply IH].
  - apply list_elem_of_fmap in H as (c' & [= ->] & H). by destruct (pick_array_found (arrs !!! i) 0 n (ac_ptr a) c' H) as [k ->].
  - destruct (pick_array _ _ _ _ _); [eauto|by apply IH].
Qed.
Lemma refs_side arrs a d c : (d, c) ∈ refs arrs a ->
  (d = Snd /\ (Snd, c) ∈ send_refs (ac_sends a)) \/ (d = Rcv /\ (Rcv, c) ∈ recv_refs arrs (ac_recvs a)).
Proof.
  unfold refs. rewrite elem_of_app. intros [H|H]; [left|right].
  - assert (d = Snd) as ->; [|done]. apply list_elem_of_bind in H as (x & H & _). unfold send_ref in H.
    destruct (ac_c x) as [[c'|i]|]; try by apply elem_of_nil in H. by apply list_elem_of_singleton in H as [= -> _].
  - assert (d = Rcv) as ->; [|done]. apply list_elem_of_bind in H as (x & H & _). unfold recv_ref in H.
    destruct (ac_c x) as [[c'|i]|]; [|apply list_elem_of_fmap in H as (? & [= -> _] & _); done|by apply elem_of_nil in H].
    by apply list_elem_of_singleton in H as [= -> _].
Qed.
Lemma pick_found arrs a d c : (d, c) ∈ refs arrs a -> is_Some (pick arrs a (sr_of d) c).
Proof.
  intros [[-> H]|[-> H]]%refs_side; unfold pick; cbn [sr_of Z.eqb]; [by apply pick_send_found|by apply pick_recv_found].
Qed.

(** A program that waits has a place for the datum. *)
Lemma place_ptr M st q r d c : Inv_with M st -> progs st !! q = Some r -> (d, c) ∈ wants st q ->
  match choice_of st r d c with Some (_, ptr, _) => Some ptr | None => p_ptr r end = Some (place_of st r d c).
Proof.
  intros HI Hq Hin. unfold place_of. destruct (choice_of st r d c) as [[[n ptr] x]|] eqn:Ec; [done|].
  pose proof (wants_blocked _ _ _ _ _ Hq Hin) as Hb. unfold choice_of in Ec. destruct (decide (p_state r = Palt)) as [Hs|Hs].
  - destruct (inv_alts _ _ HI q r Hq Hs) as (a & Ha & _). unfold wants in Hin. rewrite Hq, Hs, Ha in Hin.
    destruct (pick_found _ a d c Hin) as [k Ek]. rewrite Ha in Ec. cbn in Ec. by rewrite Ek in Ec.
  - destruct (inv_chan _ _ HI q r Hq) as [_ [v Ev]]; [unfold blocked in Hb; tauto|]. by rewrite Ev.
Qed.
Lemma progs_removed M st q r d c :
  Inv_with M st -> progs st !! q = Some r -> (d, c) ∈ wants st q ->
  exists r', progs (removed st q r d c) !! q = Some r' /\ p_ptr r' = Some (place_of st r d c) /\
    p_Rs r' = p_Rs r /\ p_kill r' = p_kill r.
Proof.
  intros HI Hq Hin. rewrite <- (place_ptr M st q r d c) by done. destruct (progs_take_choice q (p_Rd r) (choice_of st r d c) (with_chans (leaves (wants st q) q) st) r Hq)
    as (r' & H & _ & _ & H1 & H2 & H3). exists r'. auto.
Qed.
Lemma removed_same st q r d c :
  chans (removed st q r d c) = leaves (wants st q) q (chans st) /\ arrays (removed st q r d c) = arrays st /\
  alts (removed st q r d c) = alts st /\ runq (removed st q r d c) = runq st /\
  (forall p, p <> q -> progs (removed st q r d c) !! p = progs st !! p).
Proof.
  unfold removed. destruct (choice_of st r d c) as [[[n ptr] x]|]; cbn; repeat split; intros; by rewrite ?lookup_alter_ne.
Qed.

(** [q] runs again, its datum at [ptr] having been received or sent. *)
Definition resumed (st : sys) (q : nat) (f : sys -> sys) : sys :=
  with_flags (R_IC st) 0 (with_runq (fun l => l ++ [q]) (with_progs (alter (set_state Pready) q) (f (with_progs (alter (set_ptr None) q) st)))).

(** isend to a waiting receiver. *)
Definition sent_to (st : sys) (q : nat) (r : Prog) (c : nat) (s : Z) : sys :=
  let st1 := removed st q r Rcv c in
  resumed st1 q (with_cells (poke_cell (place_of st r Rcv c) (cells st1 s))).

(** A program that is not in the run queue goes to its end. *)
Lemma place_none p q : p ∉ q -> place p q = None.
Proof.
  induction q as [|f q IH]; [done|]. rewrite not_elem_of_cons. intros [Hf Hq]. cbn [place]. rewrite decide_False by congruence.
  by rewrite IH.
Qed.
Lemma addrun_ok p st : p ∉ runq st -> addrun p st = Ok tt (with_runq (fun q => q ++ [p]) (with_progs (alter (set_state Pready) p) st)).
Proof.
  intros Hp. unfold addrun. rewrite (bind_ok _ _ tt st (with_progs (alter (set_state Pready) p) st)) by done.
  rewrite (bind_ok _ _ (runq st) _ (with_progs (alter (set_state Pready) p) st)) by done. by rewrite place_none.
Qed.
Lemma blocked_idle M st q r : Inv_with M st -> progs st !! q = Some r -> blocked (p_state r) -> q ∉ runq st.
Proof.
  intros HI Hq Hb (r' & Hr' & Hs)%(inv_ready _ _ HI). assert (r' = r) as -> by congruence. destruct Hb as [|[|]]; congruence.
Qed.
Lemma resume_run st q s ptr : q ∉ runq st ->
  (set_prog q (set_ptr None);; mover (Some s) (Some ptr);; addrun q;; modify (fun st => with_flags (R_IC st) 0 st)) st =
  Ok tt (resumed st q (with_cells (poke_cell ptr (cells st s)))).
Proof.
  intros Hq. rewrite (bind_ok _ _ tt st (with_progs (alter (set_ptr None) q) st)) by done.
  rewrite (bind_ok _ _ tt _ (with_cells (poke_cell ptr (cells st s)) (with_progs (alter (set_ptr None) q) st))) by done.
  set (st2 := with_cells _ _). by rewrite (bind_ok _ _ _ _ _ (addrun_ok q st2 Hq)).
Qed.

Lemma isend_receiver M st c ch q l s :
  Inv_with M st -> chans st !! c = Some ch -> c_recv ch = enc (q :: l) -> (forall d c, ~ M q d c) ->
  exists r, progs st !! q = Some r /\ blocked (p_state r) /\ (Rcv, c) ∈ wants st q /\
    isend (Some c) s st = Ok tt (sent_to st q r c s) /\ Inv_with M (sent_to st q r c s).
Proof.
  intros HI Hch E HM. destruct (head_waits M st Rcv c ch q l HI Hch E (HM _ _)) as (r & Hq & Hb & Hin).
  exists r. split; [done|]. split; [done|]. split; [done|].
  destruct (progs_removed M st q r Rcv c HI Hq Hin) as (r' & Hq' & Hptr & _).
  destruct (removed_same st q r Rcv c) as (Ec & Ea & El & Er & Ho).
  split.
  - unfold isend. rewrite (bind_ok _ _ (Some q) st st) by by apply (waiting_ok Rcv c ch (q :: l)).
    rewrite (bind_ok _ _ tt st (with_chans (leave Rcv q c) st)) by by apply (remove_head _ _ _ _ l ch _ (inv_queues _ _ HI)).
    rewrite (bind_ok _ _ tt _ _ (unalt_ok M st q r Rcv c HI Hq Hin)).
    rewrite (bind_ok _ _ r' _ _ (prog_ok _ _ _ Hq')). rewrite Hptr. apply resume_run. rewrite Er. by eapply blocked_idle.
  - eapply (wake_inv M st _ q r (set_state Pready (set_ptr None r'))); try done.
    + unfold sent_to, resumed. cbn. by rewrite !lookup_alter_eq, Hq'.
    + intros p Hp. unfold sent_to, resumed. cbn. rewrite !lookup_alter_ne by done. by apply Ho.
    + unfold sent_to, resumed. cbn. by rewrite Er.
Qed.

(** ** The ring *)

Definition put_chan (ch : Channel) : Channel :=
  mkChannel (c_buf ch) (c_send ch) (c_recv ch) (c_front ch) (c_size ch + 1).
Definition get_chan (b : Buf) (ch : Channel) : Channel :=
  mkChannel (c_buf ch) (c_send ch) (c_recv ch)
    (if c_front ch + 1 =? b_len b then 0 else c_front ch + 1) (c_size ch - 1).
(** The cell of the [i]-th element. *)
Definition cell_of (b : Buf) (ch : Channel) (i : Z) : Z :=
  let r := c_front ch + i in b_data b + (if r >=? b_len b then r - b_len b else r) * b_esz b.

Definition stored (st : sys) (c : nat) (ch : Channel) (b : Buf) (s : Z) : sys :=
  with_cells (poke_cell (cell_of b ch (c_size ch)) (cells st s)) (with_chans (insert c (put_chan ch)) st).
Definition got (st : sys) (c : nat) (ch : Channel) (b : Buf) (d : Z) : sys :=
  with_cells (poke_cell d (cells st (b_data b + c_front ch * b_esz b))) (with_chans (insert c (get_chan b ch)) st).

Lemma cputb_room c ch b s st :
  chans st !! c = Some ch -> c_buf ch = Some b -> c_size ch < b_len b ->
  cputb c (Some s) st = Ok true (stored st c ch b s).
Proof.
  intros Hch Hb Hs. unfold cputb. rewrite (bind_ok _ _ ch st st) by by apply chan_ok. rewrite Hb.
  destruct (Z.ltb_spec (c_size ch) (b_len b)); [|lia]. unfold stored, put_chan. by rewrite Hb.
Qed.
Lemma cputb_full c ch s st :
  chans st !! c = Some ch -> cap ch <= c_size ch -> ring_ok ch -> cputb c s st = Ok false st.
Proof.
  intros Hch Hs Hr. unfold cputb. rewrite (bind_ok _ _ ch st st) by by apply chan_ok.
  unfold cap in Hs. destruct (c_buf ch) as [b|]; [|done]. by destruct (Z.ltb_spec (c_size ch) (b_len b)); [lia|].
Qed.
Lemma cgetb_some c ch b d st :
  chans st !! c = Some ch -> c_buf ch = Some b -> 0 < c_size ch ->
  cgetb c d st = Ok true (got st c ch b d).
Proof.
  intros Hch Hb Hs. unfold cgetb. rewrite (bind_ok _ _ ch st st) by by apply chan_ok. rewrite Hb.
  destruct (Z.ltb_spec 0 (c_size ch)); [|lia]. unfold got, get_chan. by rewrite Hb.
Qed.
Lemma cgetb_empty c ch d st :
  chans st !! c = Some ch -> c_size ch <= 0 -> cgetb c d st = Ok false st.
Proof.
  intros Hch Hs. unfold cgetb. rewrite (bind_ok _ _ ch st st) by by apply chan_ok.
  destruct (c_buf ch) as [b|]; [|done]. by destruct (Z.ltb_spec 0 (c_size ch)); [lia|].
Qed.

Lemma ring_put b ch : c_buf ch = Some b -> ring_ok ch -> c_size ch < b_len b -> ring_ok (put_chan ch).
Proof. unfold ring_ok, put_chan, cap. cbn. intros ->. lia. Qed.
Lemma ring_get b ch : c_buf ch = Some b -> ring_ok ch -> 0 < c_size ch -> ring_ok (get_chan b ch).
Proof. unfold ring_ok, get_chan, cap. cbn. intros ->. destruct (Z.eqb_spec (c_front ch + 1) (b_len b)); lia. Qed.

Lemma stored_inv M st c ch b s :
  Inv_with M st -> chans st !! c = Some ch -> c_buf ch = Some b -> c_size ch < b_len b ->
  (forall p, ~ waiting_for st p Rcv c) -> Inv_with M (stored st c ch b s).
Proof.
  intros HI Hch Hb Hs Hr. apply (Inv_ext M (with_chans (insert c (put_chan ch)) st)); [done..|].
  apply (resize_inv M st c ch (c_front ch) (c_size ch + 1) HI Hch).
  - apply (ring_put b ch Hb); [by eapply (inv_ring _ _ HI)|done].
  - intros p Hp. pose proof (inv_send _ _ HI p c ch Hch Hp) as E. unfold cap in *. rewrite Hb in *. lia.
  - intros p Hp. by apply Hr in Hp.
Qed.
Lemma got_inv M st c ch b d :
  Inv_with M st -> chans st !! c = Some ch -> c_buf ch = Some b -> 0 < c_size ch ->
  (forall p, ~ waiting_for st p Snd c) -> Inv_with M (got st c ch b d).
Proof.
  intros HI Hch Hb Hs Hr. apply (Inv_ext M (with_chans (insert c (get_chan b ch)) st)); [done..|].
  apply (resize_inv M st c ch _ (c_size ch - 1) HI Hch).
  - apply (ring_get b ch Hb); [by eapply (inv_ring _ _ HI)|done].
  - intros p Hp. by apply Hr in Hp.
  - intros p Hp. pose proof (inv_recv _ _ HI p c ch Hch Hp). lia.
Qed.

Lemma empty_queue M st d c ch :
  Inv_with M st -> chans st !! c = Some ch -> queue d ch = enc [] -> forall p, ~ waiting_for st p d c.
Proof.
  intros HI Hch E p Hp. destruct (inv_queues _ _ HI c ch d Hch) as (l & E' & _ & Hl).
  rewrite E in E'. apply enc_inj in E' as <-. apply (not_elem_of_nil p). apply Hl. by left.
Qed.

(** irecv from a waiting sender. *)
Definition received_from (st : sys) (q : nat) (r : Prog) (c : nat) (d : Z) : sys :=
  let st1 := removed st q r Snd c in
  let ptr := place_of st r Snd c in
  match chans st1 !! c with
  | Some ch =>
      match c_buf ch with
      | None => resumed st1 q (with_cells (poke_cell d (cells st1 ptr)))
      | Some b => with_flags (R_IC st) 0 (with_runq (fun l => l ++ [q]) (with_progs (alter (set_state Pready) q)
                    (with_progs (alter (set_ptr None) q) (stored (got st1 c ch b d) c (get_chan b ch) b ptr))))
      end
  | None => st1
  end.

Lemma irecv_sender M st c ch q l d :
  Inv_with M st -> chans st !! c = Some ch -> c_send ch = enc (q :: l) -> (forall d c, ~ M q d c) ->
  exists r, progs st !! q = Some r /\ blocked (p_state r) /\ (Snd, c) ∈ wants st q /\
    irecv (Some c) d st = Ok tt (received_from st q r c d) /\ Inv_with M (received_from st q r c d).
Proof.
  intros HI Hch E HM. destruct (head_waits M st Snd c ch q l HI Hch E (HM _ _)) as (r & Hq & Hb & Hin).
  exists r. split; [done|]. split; [done|]. split; [done|].
  destruct (progs_removed M st q r Snd c HI Hq Hin) as (r' & Hq' & Hptr & _).
  destruct (removed_same st q r Snd c) as (Ec & Ea & El & Er & Ho).
  set (st1 := removed st q r Snd c) in *.
  assert (Hch1 : exists ch1, chans st1 !! c = Some ch1 /\ c_buf ch1 = c_buf ch /\ c_front ch1 = c_front ch /\ c_size ch1 = c_size ch).
  { rewrite Ec, lookup_leaves, Hch. eexists. split; [done|]. done. }
  destruct Hch1 as (ch1 & Hch1 & Hbuf & Hfr & Hsz).
  assert (Hfull : c_size ch = cap ch) by (by eapply (inv_send _ _ HI q)).
  pose proof (inv_ring _ _ HI c ch Hch) as Hring.
  pose proof (blocked_idle M st q r HI Hq Hb) as Hidle. rewrite <- Er in Hidle.
  assert (Hwake : forall st', chans st' = chans st1 -> arrays st' = arrays st1 -> alts st' = alts st1 ->
    runq st' = runq st1 ++ [q] -> progs st' = alter (set_state Pready) q (alter (set_ptr None) q (progs st1)) -> Inv_with M st').
  { intros st' E1 E2 E3 E4 E5. eapply (wake_inv M st _ q r (set_state Pready (set_ptr None r'))); try done; try congruence.
    - by rewrite E5, !lookup_alter_eq, Hq'.
    - intros p Hp. rewrite E5, !lookup_alter_ne by done. by apply Ho. }
  assert (Erun : irecv (Some c) d st =
    (match c_buf ch1 with
     | Some _ => cgetb c d;; cputb c (p_ptr r');; set_prog q (set_ptr None)
     | None => set_prog q (set_ptr None);; mover (p_ptr r') (Some d)
     end;; addrun q;; modify (fun st => with_flags (R_IC st) 0 st)) st1).
  { unfold irecv. rewrite (bind_ok _ _ (Some q) st st) by by apply (waiting_ok Snd c ch (q :: l)).
    rewrite (bind_ok _ _ tt st (with_chans (leave Snd q c) st)) by by apply (remove_head _ _ _ _ l ch _ (inv_queues _ _ HI)).
    rewrite (bind_ok _ _ tt _ _ (unalt_ok M st q r Snd c HI Hq Hin)).
    rewrite (bind_ok _ _ r' _ _ (prog_ok _ _ _ Hq')). by rewrite (bind_ok _ _ ch1 _ _ (chan_ok _ _ _ Hch1)). }
  rewrite Erun. unfold received_from. fold st1. rewrite Hch1, Hptr.
  destruct (c_buf ch1) as [b|] eqn:Eb.
  - assert (Hlen : c_size ch1 = b_len b /\ 0 < b_len b /\ 0 <= c_front ch1 < b_len b).
    { unfold cap, ring_ok, cap in *. rewrite <- Hbuf in *. rewrite Hsz, Hfr. lia. }
    destruct Hlen as (Hlen & Hpos & Hfront).
    assert (Hg : chans (got st1 c ch1 b d) !! c = Some (get_chan b ch1)) by (cbn; apply lookup_insert_eq).
    split.
    + assert (Ei : (cgetb c d;; cputb c (Some (place_of st r Snd c));; set_prog q (set_ptr None)) st1 =
        Ok tt (with_progs (alter (set_ptr None) q) (stored (got st1 c ch1 b d) c (get_chan b ch1) b (place_of st r Snd c)))).
      { rewrite (bind_ok _ _ true st1 _) by (apply (cgetb_some c ch1 b d); [done|done|lia]).
        rewrite (bind_ok _ _ true _ (stored (got st1 c ch1 b d) c (get_chan b ch1) b (place_of st r Snd c))); [done|].
        apply cputb_room; [done|exact Eb|cbn; lia]. }
      rewrite (bind_ok _ _ tt _ _ Ei). set (st2 := with_progs (alter (set_ptr None) q) _).
      rewrite (bind_ok _ _ _ _ _ (addrun_ok q st2 Hidle)). unfold modify, st2. cbn.
      unfold st1, removed. by destruct (choice_of st r Snd c) as [[[n ptr] x]|].
    + set (fr := if c_front ch1 + 1 =? b_len b then 0 else c_front ch1 + 1).
      set (ch2 := mkChannel (c_buf ch1) (c_send ch1) (c_recv ch1) fr (c_size ch1)).
      set (st2 := with_flags (R_IC st) 0 (with_runq (fun l => l ++ [q]) (with_progs (alter (set_state Pready) q)
        (with_progs (alter (set_ptr None) q) st1)))).
      assert (HI2 : Inv_with M st2) by by apply Hwake.
      eapply (Inv_ext M (with_chans (insert c ch2) st2)); try done.
      * cbn. rewrite insert_insert_eq. f_equal. unfold ch2, put_chan, get_chan. cbn. f_equal. lia.
      * apply (resize_inv M st2 c ch1 fr (c_size ch1) HI2 Hch1).
        -- unfold ring_ok, cap. cbn. rewrite Eb. unfold fr. destruct (Z.eqb_spec (c_front ch1 + 1) (b_len b)); lia.
        -- intros p Hp. by eapply (inv_send _ _ HI2 p).
        -- intros p Hp. by eapply (inv_recv _ _ HI2 p).
  - split; [by apply (resume_run st1)|]. by apply Hwake.
Qed.

(** ** The instructions preserve the invariant *)

Definition none : waits := fun _ _ _ => False.

(** The current program blocks at the end of a queue. *)
Definition block_state (d : side) : ProgState := match d with Snd => Psend | Rcv => Precv end.
Definition blocked_at (st : sys) (p : nat) (d : side) (c : nat) (ch : Channel) (l : list nat) (a : Z) : sys :=
  with_chans (insert c (set_queue d (enc (l ++ [p])) ch))
    (with_flags 1 1 (with_progs (alter (set_chan c) p) (with_progs (alter (set_ptr (Some a)) p)
      (with_runq tail (with_progs (alter (set_state (block_state d)) p) st))))).

Lemma blocked_run st p rest d c ch l a :
  runq st = p :: rest -> chans st !! c = Some ch -> queue d ch = enc l ->
  (p ← delrun (block_state d); set_prog p (set_ptr (Some a));; set_prog p (set_chan c);; modify (with_flags 1 1);;
   on_queue d c (fun q => cqadd q p)) st = Ok tt (blocked_at st p d c ch l a).
Proof.
  intros Hr Hch E. unfold delrun, currun, set_prog, modify, mbind, ST_bind, of_option. rewrite Hr. cbn.
  apply on_queue_ok; [done|]. by rewrite E, cqadd_enc.
Qed.

Lemma current st p rest : Inv st -> runq st = p :: rest -> exists r, progs st !! p = Some r /\ p_state r = Pready /\ wants st p = [].
Proof.
  intros HI Hr. destruct (inv_ready _ _ HI p) as [H _]. destruct H as (r & Hp & Hs); [rewrite Hr; constructor|].
  exists r. split; [done|]. split; [done|]. unfold wants. by rewrite Hp, Hs.
Qed.

Lemma blocked_inv st p rest d c ch l a :
  Inv st -> runq st = p :: rest -> chans st !! c = Some ch -> queue d ch = enc l ->
  (d = Snd -> c_size ch = cap ch /\ forall q, ~ waiting_for st q Rcv c) ->
  (d = Rcv -> c_size ch = 0 /\ forall q, ~ waiting_for st q Snd c) ->
  Inv (blocked_at st p d c ch l a).
Proof.
  intros HI Hr Hch E Hs Hv. destruct (current st p rest HI Hr) as (r & Hp & Hst & Hw).
  destruct (mark_inv none st d p c ch HI Hch) as (l' & E' & _ & HM).
  { unfold waiting_for. rewrite Hw. apply not_elem_of_nil. }
  { by intros []. }
  assert (l' = l) as -> by (apply enc_inj; congruence).
  set (st1 := with_chans (insert c (set_queue d (enc (l ++ [p])) ch)) st) in *.
  assert (Hcap : forall c' x, chans st1 !! c' = Some x -> c' = c -> c_size x = c_size ch /\ cap x = cap ch).
  { intros c' x Hx ->. unfold st1 in Hx. cbn in Hx. rewrite lookup_insert_eq in Hx. injection Hx as <-. by destruct d. }
  eapply (block_inv _ st1 _ p (set_chan c (set_ptr (Some a) (set_state (block_state d) r))) [(d, c)] rest HM); try done.
  - intros q d' c'. unfold plus, none. rewrite list_elem_of_singleton. intuition congruence.
  - unfold blocked_at. cbn. by rewrite Hr.
  - unfold blocked_at. cbn. by rewrite !lookup_alter_eq, Hp.
  - unfold blocked. destruct d; auto.
  - intros q Hq. unfold blocked_at. cbn. by rewrite !lookup_alter_ne.
  - intros d' c'. unfold wants, blocked_at. cbn. rewrite !lookup_alter_eq, Hp. cbn. by destruct d.
  - by destruct d.
  - intros d' c' Hin. apply list_elem_of_singleton in Hin as [= -> ->]. unfold st1. cbn. rewrite lookup_insert_eq. eauto.
  - intros c' x Hx Hin. apply list_elem_of_singleton in Hin as [= <- ->].
    destruct (Hcap c x Hx eq_refl) as [-> ->]. by apply Hs.
  - intros c' x Hx Hin. apply list_elem_of_singleton in Hin as [= <- ->].
    destruct (Hcap c x Hx eq_refl) as [-> _]. by apply Hv.
  - intros c' H1 H2. apply list_elem_of_singleton in H1, H2. congruence.
Qed.

(** The three outcomes of a send. *)
Inductive send_outcome (st : sys) (c : nat) (s : Z) : sys -> Prop :=
  | Delivered q r ch l :
      chans st !! c = Some ch -> c_recv ch = enc (q :: l) -> progs st !! q = Some r ->
      blocked (p_state r) -> (Rcv, c) ∈ wants st q ->
      send_outcome st c s (sent_to st q r c s)
  | Buffered ch b :
      chans st !! c = Some ch -> c_recv ch = enc [] -> c_buf ch = Some b -> c_size ch < b_len b ->
      send_outcome st c s (stored st c ch b s)
  | SendBlocks ch p rest l :
      chans st !! c = Some ch -> c_recv ch = enc [] -> c_size ch = cap ch -> runq st = p :: rest -> c_send ch = enc l ->
      send_outcome st c s (blocked_at st p Snd c ch l s).
Inductive recv_outcome (st : sys) (c : nat) (d : Z) : sys -> Prop :=
  | Taken q r ch l :
      chans st !! c = Some ch -> c_send ch = enc (q :: l) -> progs st !! q = Some r ->
      blocked (p_state r) -> (Snd, c) ∈ wants st q ->
      recv_outcome st c d (received_from st q r c d)
  | Unbuffered ch b :
      chans st !! c = Some ch -> c_send ch = enc [] -> c_buf ch = Some b -> 0 < c_size ch ->
      recv_outcome st c d (got st c ch b d)
  | RecvBlocks ch p rest l :
      chans st !! c = Some ch -> c_send ch = enc [] -> c_size ch = 0 -> runq st = p :: rest -> c_recv ch = enc l ->
      recv_outcome st c d (blocked_at st p Rcv c ch l d).

Lemma isend_step st c s :
  Inv st -> runq st <> [] -> is_Some (chans st !! c) ->
  exists st', isend (Some c) s st = Ok tt st' /\ send_outcome st c s st' /\ Inv st'.
Proof.
  intros HI Hr [ch Hch]. destruct (inv_queues _ _ HI c ch Rcv Hch) as (l & E & _ & _). destruct l as [|q l].
  - destruct (inv_queues _ _ HI c ch Snd Hch) as (ls & Es & _ & _).
    pose proof (inv_ring _ _ HI c ch Hch) as Hring. pose proof (empty_queue _ _ Rcv _ _ HI Hch E) as Hno.
    assert (Erun : isend (Some c) s st = (done ← cputb c (Some s); if (done : bool) then mret tt else
      (p ← delrun (block_state Snd); set_prog p (set_ptr (Some s));; set_prog p (set_chan c);; modify (with_flags 1 1);;
       on_queue Snd c (fun q => cqadd q p))) st).
    { unfold isend. by rewrite (bind_ok _ _ None st st) by by apply (waiting_ok Rcv c ch []). }
    rewrite Erun. destruct (Z.lt_ge_cases (c_size ch) (cap ch)) as [Hlt|Hge].
    + unfold cap in Hlt. destruct (c_buf ch) as [b|] eqn:Eb; [|unfold ring_ok in Hring; lia].
      rewrite (bind_ok _ _ true st (stored st c ch b s)) by by apply cputb_room.
      exists (stored st c ch b s). split; [done|]. split; [by econstructor|]. by apply stored_inv.
    + rewrite (bind_ok _ _ false st st) by by apply (cputb_full c ch).
      destruct (runq st) as [|p rest] eqn:Er; [done|]. exists (blocked_at st p Snd c ch ls s).
      split; [by apply (blocked_run st p rest Snd c ch ls s)|].
      assert (c_size ch = cap ch) by (unfold ring_ok in Hring; lia).
      split; [by eapply SendBlocks|]. eapply blocked_inv; [done|done|done|exact Es|auto|discriminate].
  - destruct (isend_receiver none st c ch q l s HI Hch E) as (r & Hq & Hb & Hin & Ee & HI').
    { by intros d c' []. }
    exists (sent_to st q r c s). split; [done|]. split; [by econstructor|done].
Qed.

Lemma irecv_step st c d :
  Inv st -> runq st <> [] -> is_Some (chans st !! c) ->
  exists st', irecv (Some c) d st = Ok tt st' /\ recv_outcome st c d st' /\ Inv st'.
Proof.
  intros HI Hr [ch Hch]. destruct (inv_queues _ _ HI c ch Snd Hch) as (l & E & _ & _). destruct l as [|q l].
  - destruct (inv_queues _ _ HI c ch Rcv Hch) as (ls & Es & _ & _).
    pose proof (inv_ring _ _ HI c ch Hch) as Hring. pose proof (empty_queue _ _ Snd _ _ HI Hch E) as Hno.
    assert (Erun : irecv (Some c) d st = (done ← cgetb c d; if (done : bool) then mret tt else
      (p ← delrun (block_state Rcv); set_prog p (set_ptr (Some d));; set_prog p (set_chan c);; modify (with_flags 1 1);;
       on_queue Rcv c (fun q => cqadd q p))) st).
    { unfold irecv. by rewrite (bind_ok _ _ None st st) by by apply (waiting_ok Snd c ch []). }
    rewrite Erun. destruct (Z.lt_ge_cases 0 (c_size ch)) as [Hlt|Hge].
    + destruct (c_buf ch) as [b|] eqn:Eb; [|unfold ring_ok, cap in Hring; rewrite Eb in Hring; lia].
      rewrite (bind_ok _ _ true st (got st c ch b d)) by by apply cgetb_some.
      exists (got st c ch b d). split; [done|]. split; [by econstructor|]. by apply got_inv.
    + rewrite (bind_ok _ _ false st st) by (by apply (cgetb_empty c ch)).
      destruct (runq st) as [|p rest] eqn:Er; [done|]. exists (blocked_at st p Rcv c ch ls d).
      split; [by apply (blocked_run st p rest Rcv c ch ls d)|].
      assert (c_size ch = 0) by (unfold ring_ok in Hring; lia).
      split; [by eapply RecvBlocks|]. eapply blocked_inv; [done|done|done|exact Es|discriminate|auto].
  - destruct (irecv_sender none st c ch q l d HI Hch E) as (r & Hq & Hb & Hin & Ee & HI').
    { by intros d' c' []. }
    exists (received_from st q r c d). split; [done|]. split; [by econstructor|done].
Qed.
