(* ===== verification/AltPass.v ===== *)
(** * The two passes of an alt (libinterp/alt.c)

    The first pass lists the current program on the queue of every channel of
    its alt and counts those ready; the second carries out one of them.  The
    definitions are in Chan; here is what they do on a well-formed alt:
    [xecalt_step] gives every outcome. *)

From S2P Require Import Prelude Chan.

(** ** The first pass of an alt *)

Definition marks (p : nat) (rs : list (side * nat)) : waits := fun q d c => q = p /\ (d, c) ∈ rs.
Definition mark1 (d : side) (p c : nat) (cs : gmap nat Channel) : gmap nat Channel :=
  alter (fun ch => set_queue d (enc (omap id (queue d ch) ++ [p])) ch) c cs.
Definition mark_all (rs : list (side * nat)) (p : nat) (cs : gmap nat Channel) : gmap nat Channel :=
  foldl (fun cs r => mark1 r.1 p r.2 cs) cs rs.

Definition opp (d : side) : side := match d with Snd => Rcv | Rcv => Snd end.
(** Something can be communicated at the channel on this side. *)
Definition is_ready (cs : gmap nat Channel) (x : side * nat) : bool :=
  match cs !! x.2 with
  | None => false
  | Some ch => bool_decide (omap id (queue (opp x.1) ch) <> [])
               || match x.1 with Snd => CANPUT ch | Rcv => CANGET ch end
  end.
Definition count (cs : gmap nat Channel) (rs : list (side * nat)) : Z :=
  Z.of_nat (length (filter (fun x => is_ready cs x = true) rs)).

Lemma count_cons cs x rs : count cs (x :: rs) = b2n (is_ready cs x) + count cs rs.
Proof.
  unfold count. destruct (is_ready cs x) eqn:E; cbn [b2n].
  - rewrite filter_cons_True by done. cbn [length]. lia.
  - rewrite filter_cons_False by congruence. lia.
Qed.
Lemma count_app cs r1 r2 : count cs (r1 ++ r2) = count cs r1 + count cs r2.
Proof. unfold count. rewrite list.filter_app, length_app. lia. Qed.
Lemma count_ext cs cs' rs : (forall x, x ∈ rs -> is_ready cs' x = is_ready cs x) -> count cs' rs = count cs rs.
Proof.
  induction rs as [|x rs IH]; intros H; [done|]. rewrite !count_cons, IH, (H x); [done|constructor|].
  intros y Hy. apply H. by right.
Qed.

Lemma head_id l : bool_decide (head l <> None) = bool_decide (l <> @nil nat).
Proof. destruct l; [done|]. by rewrite !bool_decide_true. Qed.
Lemma ready_ok M st d c :
  Inv_with M st -> is_Some (chans st !! c) ->
  ready d c st = Ok (is_ready (chans st) (d, c)) st.
Proof.
  intros HI [ch Hch]. destruct (inv_queues _ _ HI c ch (opp d) Hch) as (l & E & _).
  unfold ready. change (match d with Snd => Rcv | Rcv => Snd end) with (opp d).
  rewrite (bind_ok _ _ (head l) st st) by by apply (waiting_ok _ _ ch).
  rewrite (bind_ok _ _ ch st st) by by apply chan_ok.
  unfold is_ready. cbn [fst snd]. rewrite Hch, E, omap_enc. unfold mret, ST_ret. f_equal. f_equal.
  by destruct l.
Qed.

Lemma mark1_ok p rs0 st d c :
  Inv_with (marks p rs0) st -> wants st p = [] -> is_Some (chans st !! c) -> (d, c) ∉ rs0 ->
  on_queue d c (fun q => cqadd q p) st = Ok tt (with_chans (mark1 d p c) st) /\
  Inv_with (marks p (rs0 ++ [(d, c)])) (with_chans (mark1 d p c) st).
Proof.
  intros HI Hw [ch Hch] Hin. destruct (mark_inv _ st d p c ch HI Hch) as (l & E & Eq & HM).
  { unfold waiting_for. rewrite Hw. apply not_elem_of_nil. }
  { intros [_ H]. done. }
  assert (Ec : insert c (set_queue d (enc (l ++ [p])) ch) (chans st) = mark1 d p c (chans st)).
  { apply map_eq. intros c'. unfold mark1. destruct (decide (c' = c)) as [->|].
    - rewrite lookup_alter_eq, lookup_insert_eq, Hch. cbn. by rewrite E, omap_enc.
    - by rewrite lookup_alter_ne, lookup_insert_ne. }
  assert (Es : with_chans (insert c (set_queue d (enc (l ++ [p])) ch)) st = with_chans (mark1 d p c) st) by by apply with_chans_eq.
  rewrite Eq, Es. split; [done|]. rewrite Es in HM. destruct HM as [H1 H2 H3 H4 H5 H6 H7 H8 H9 H10]. split; try done.
  eapply queues_weaken; [|exact H1]. intros q d' c'. unfold plus, marks. rewrite elem_of_app, list_elem_of_singleton.
  intuition congruence.
Qed.

Lemma lookup_mark1_ne d p c c' cs : c' <> c -> mark1 d p c cs !! c' = cs !! c'.
Proof. intros H. unfold mark1. by rewrite lookup_alter_ne. Qed.
Lemma exist_mark rs d p c cs : exist_all rs cs -> exist_all rs (mark1 d p c cs).
Proof.
  intros H d' c' Hin. destruct (H d' c' Hin) as [ch Hch]. unfold mark1. destruct (decide (c' = c)) as [->|].
  - rewrite lookup_alter_eq, Hch. cbn. eauto.
  - rewrite lookup_alter_ne by done. eauto.
Qed.
Lemma is_ready_mark d p c cs x : x.2 <> c -> is_ready (mark1 d p c cs) x = is_ready cs x.
Proof. intros H. unfold is_ready. by rewrite lookup_mark1_ne. Qed.
Lemma count_mark d p c cs rs : c ∉ snd <$> rs -> count (mark1 d p c cs) rs = count cs rs.
Proof.
  intros H. apply count_ext. intros x Hx. apply is_ready_mark. intros <-. apply H. by apply list_elem_of_fmap_2.
Qed.

(** What the passes need of the alternatives still to come. *)
Record to_mark (p : nat) (rs0 rs : list (side * nat)) (st : sys) : Prop := {
  tm_inv : Inv_with (marks p rs0) st;
  tm_idle : wants st p = [];
  tm_exist : exist_all rs (chans st);
  tm_distinct : NoDup (snd <$> rs0 ++ rs);
}.

Lemma to_mark_step p rs0 d c rs st :
  to_mark p rs0 ((d, c) :: rs) st ->
  ready d c st = Ok (is_ready (chans st) (d, c)) st /\
  on_queue d c (fun q => cqadd q p) st = Ok tt (with_chans (mark1 d p c) st) /\
  to_mark p (rs0 ++ [(d, c)]) rs (with_chans (mark1 d p c) st) /\
  count (mark1 d p c (chans st)) rs = count (chans st) rs.
Proof.
  intros [HI Hw Hex Hnd]. assert (Hc : is_Some (chans st !! c)) by (apply (Hex d c); constructor).
  rewrite fmap_app, fmap_cons in Hnd. cbn [snd] in Hnd.
  assert (Hn : (c ∉ snd <$> rs0) /\ (c ∉ snd <$> rs)).
  { apply list.NoDup_app in Hnd as (_ & H1 & H2). apply list.NoDup_cons in H2 as [H2 _]. split; [|done].
    intros Hi. apply (H1 c Hi). constructor. }
  destruct Hn as [Hn0 Hn]. assert (Hin : (d, c) ∉ rs0).
  { intros H. apply Hn0. by apply (list_elem_of_fmap_2 snd) in H. }
  destruct (mark1_ok p rs0 st d c HI Hw Hc Hin) as [E HI']. split; [by eapply ready_ok|]. split; [done|]. split.
  - split; [done|done|apply exist_mark; intros d' c' H; apply (Hex d' c'); by right|].
    by rewrite <- app_assoc, fmap_app.
  - by apply count_mark.
Qed.

Lemma is_ready_mark_all r p cs x : x.2 ∉ snd <$> r -> is_ready (mark_all r p cs) x = is_ready cs x.
Proof.
  unfold mark_all. revert cs. induction r as [|[d c] r IH]; intros cs Hx; cbn [foldl fst snd]; [done|].
  rewrite fmap_cons, not_elem_of_cons in Hx. destruct Hx as [Hne Hx]. rewrite IH by done. by apply is_ready_mark.
Qed.
Lemma to_mark_apart p rs0 r rs st x : to_mark p rs0 (r ++ rs) st -> x ∈ rs -> x.2 ∉ snd <$> r.
Proof.
  intros [_ _ _ Hnd] Hx Hin. rewrite !fmap_app in Hnd. apply list.NoDup_app in Hnd as (_ & _ & Hnd).
  apply list.NoDup_app in Hnd as (_ & Hd & _). apply (Hd _ Hin). by apply list_elem_of_fmap_2.
Qed.
Lemma count_mark_all p rs0 r rs st :
  to_mark p rs0 (r ++ rs) st -> count (mark_all r p (chans st)) rs = count (chans st) rs.
Proof. intros H. apply count_ext. intros x Hx. apply is_ready_mark_all. by eapply to_mark_apart. Qed.
Lemma to_mark_prefix p rs0 r rs st : to_mark p rs0 (r ++ rs) st -> to_mark p rs0 r st.
Proof.
  intros [H1 H2 H3 H4]. split; [done|done| |].
  - intros d c Hin. apply (H3 d c). apply elem_of_app. by left.
  - rewrite app_assoc, fmap_app in H4. by apply list.NoDup_app in H4 as (H4 & _).
Qed.

Lemma altmark_ok cs p n rs0 rs st :
  to_mark p rs0 ((pair Rcv <$> omap id cs) ++ rs) st ->
  let r := pair Rcv <$> omap id cs in
  altmark cs p n st = Ok (n + count (chans st) r) (with_chans (mark_all r p) st) /\
  to_mark p (rs0 ++ r) rs (with_chans (mark_all r p) st).
Proof.
  cbn zeta. revert n rs0 st. induction cs as [|[c|] cs IH]; intros n rs0 st H; cbn [altmark].
  - cbn in *. rewrite app_nil_r. change (count (chans st) []) with 0. rewrite Z.add_0_r. by destruct st.
  - change (pair Rcv <$> omap id (Some c :: cs)) with ((Rcv, c) :: (pair Rcv <$> omap id cs)) in *.
    set (r := pair Rcv <$> omap id cs) in *.
    destruct (to_mark_step p rs0 Rcv c (r ++ rs) st H) as (Er & Eq & H' & _).
    rewrite (bind_ok _ _ _ _ _ Er), (bind_ok _ _ _ _ _ Eq).
    destruct (IH (n + b2n (is_ready (chans st) (Rcv, c))) _ _ H') as (E1 & H1).
    rewrite E1. rewrite <- app_assoc in H1. split; [|done].
    pose proof (count_mark_all p rs0 [(Rcv, c)] r st (to_mark_prefix _ _ ((Rcv, c) :: r) _ _ H)) as Hc.
    change (mark_all [(Rcv, c)] p (chans st)) with (mark1 Rcv p c (chans st)) in Hc.
    cbn [with_chans chans]. rewrite Hc, count_cons. f_equal. lia.
  - apply IH. exact H.
Qed.

(** The error of the first pass: a nil alternative. *)
Definition is_nil (a : Altc) : bool := match ac_c a with None => true | _ => false end.
Definition nil_error (acs : list Altc) (e : option string) : option string :=
  if existsb is_nil acs then Some exNilref else e.
Lemma nil_error_cons a acs e :
  nil_error (a :: acs) e = nil_error acs (if is_nil a then Some exNilref else e).
Proof. unfold nil_error. cbn. by destruct (is_nil a), (existsb is_nil acs). Qed.


Lemma altrdy_recvs_ok acs p n e rs0 rs st :
  arrays_ok (arrays st) acs -> to_mark p rs0 (recv_refs (arrays st) acs ++ rs) st ->
  let r := recv_refs (arrays st) acs in
  altrdy_recvs acs p n e st = Ok (n + count (chans st) r, nil_error acs e) (with_chans (mark_all r p) st) /\
  to_mark p (rs0 ++ r) rs (with_chans (mark_all r p) st).
Proof.
  cbn zeta. revert n e rs0 st. induction acs as [|a acs IH]; intros n e rs0 st Ha H; cbn [altrdy_recvs].
  - cbn in *. rewrite app_nil_r. change (count (chans st) []) with 0. rewrite Z.add_0_r. by destruct st.
  - assert (Ha' : arrays_ok (arrays st) acs) by (intros b i Hb; apply (Ha b); by right).
    rewrite recv_refs_cons in *. set (r := recv_refs (arrays st) acs) in *. rewrite <- app_assoc in H.
    pose proof (count_mark_all p rs0 _ r st (to_mark_prefix _ _ (recv_ref (arrays st) a ++ r) rs _ ltac:(by rewrite <- app_assoc))) as Hc.
    rewrite nil_error_cons. unfold recv_ref in H, Hc |- *. unfold is_nil at 1.
    destruct (ac_c a) as [[c|i]|] eqn:Ea; [| |by apply IH].
    + cbn [app] in H, Hc |- *. destruct (to_mark_step p rs0 Rcv c (r ++ rs) st H) as (Er & Eq & H' & _).
      rewrite (bind_ok _ _ _ _ _ Er), (bind_ok _ _ _ _ _ Eq).
      destruct (IH (n + b2n (is_ready (chans st) (Rcv, c))) e _ (with_chans (mark1 Rcv p c) st) Ha' H') as (E1 & H1).
      cbn [with_chans chans arrays] in *. fold r in E1, H1. rewrite E1. rewrite <- app_assoc in H1. split; [|done].
      change (mark_all [(Rcv, c)] p (chans st)) with (mark1 Rcv p c (chans st)) in Hc. rewrite Hc, count_cons. f_equal. f_equal. lia.
    + destruct (Ha a i) as [cs Hcs]; [by left|done|]. rewrite (lookup_total_correct _ _ _ Hcs) in *.
      rewrite (bind_ok _ _ cs st st) by by apply array_ok_of.
      set (r1 := pair Rcv <$> omap id cs) in *.
      destruct (altmark_ok cs p 0 rs0 (r ++ rs) st H) as (E0 & H0). fold r1 in E0, H0.
      rewrite (bind_ok _ _ _ _ _ E0).
      destruct (IH (n + (0 + count (chans st) r1)) e _ (with_chans (mark_all r1 p) st) Ha' H0) as (E1 & H1).
      cbn [with_chans chans arrays] in *. fold r in E1, H1. rewrite E1, Hc, count_app, <- app_assoc in *.
      assert (Ew : with_chans (mark_all r p) (with_chans (mark_all r1 p) st) = with_chans (mark_all (r1 ++ r) p) st).
      { rewrite with_chans_chans. apply with_chans_eq. unfold mark_all. by rewrite foldl_app. }
      rewrite <- Ew. split; [|done]. f_equal. f_equal. lia.
Qed.

(** A program with a mark on one side of a channel is not on the other. *)
Lemma waiting_other p rs0 rs d c st :
  to_mark p rs0 ((d, c) :: rs) st -> exists w, waiting (opp d) c st = Ok w st /\ w <> Some p.
Proof.
  intros [HI Hw Hex Hnd]. destruct (Hex d c) as [ch Hch]; [constructor|].
  destruct (inv_queues _ _ HI c ch (opp d) Hch) as (l & E & _ & Hl). exists (head l).
  split; [by apply (waiting_ok _ _ ch)|]. intros Hh. destruct l as [|q l]; [done|]. injection Hh as ->.
  destruct (Hl p) as [H _]. destruct H as [H|[_ H]]; [constructor| |].
  - unfold waiting_for in H. rewrite Hw in H. by apply elem_of_nil in H.
  - rewrite fmap_app in Hnd. apply list.NoDup_app in Hnd as (_ & Hnd & _). apply (Hnd c).
    + by apply (list_elem_of_fmap_2 snd) in H.
    + constructor.
Qed.

Lemma altrdy_sends_ok acs p n e rs0 st :
  forallb (fun x => negb (is_array x)) acs = true -> to_mark p rs0 (send_refs acs) st ->
  let r := send_refs acs in
  altrdy_sends acs p n e st = Ok (n + count (chans st) r, nil_error acs e) (with_chans (mark_all r p) st) /\
  to_mark p (rs0 ++ r) [] (with_chans (mark_all r p) st).
Proof.
  cbn zeta. revert n e rs0 st. induction acs as [|a acs IH]; intros n e rs0 st Ha H; cbn [altrdy_sends].
  - cbn in *. rewrite app_nil_r. change (count (chans st) []) with 0. rewrite Z.add_0_r. by destruct st.
  - cbn [forallb] in Ha. apply andb_true_iff in Ha as [Ha1 Ha]. unfold is_array in Ha1.
    change (send_refs (a :: acs)) with (send_ref a ++ send_refs acs) in *. set (r := send_refs acs) in *.
    rewrite nil_error_cons. unfold send_ref, is_nil in *. destruct (ac_c a) as [[c|i]|] eqn:Ea; [|done|by apply IH].
    cbn [app] in *. destruct (to_mark_step p rs0 Snd c r st H) as (Er & Eq & H' & Hc).
    destruct (waiting_other p rs0 r Snd c st H) as (w & Ew & Hwp).
    rewrite (bind_ok _ _ _ _ _ Er), (bind_ok _ _ _ _ _ Ew).
    rewrite (bool_decide_eq_false_2 _ Hwp), andb_false_r, (bind_ok _ _ _ _ _ Eq).
    destruct (IH (n + b2n (is_ready (chans st) (Snd, c))) e _ (with_chans (mark1 Snd p c) st) Ha H') as (E1 & H1).
    cbn [with_chans chans] in *. rewrite E1, <- app_assoc in *. split; [|done].
    rewrite Hc, count_cons. f_equal. f_equal. lia.
Qed.

(** The alternatives in the order of the first pass. *)
Definition marked (st : sys) (a : Alt) : list (side * nat) :=
  recv_refs (arrays st) (ac_recvs a) ++ send_refs (ac_sends a).

Lemma marked_refs st a x : x ∈ marked st a <-> x ∈ refs (arrays st) a.
Proof. unfold marked, refs. rewrite !elem_of_app. tauto. Qed.
Lemma marked_count st a cs : count cs (marked st a) = count cs (refs (arrays st) a).
Proof. unfold marked, refs. rewrite !count_app. lia. Qed.

Lemma alt_to_mark st a p :
  Inv st -> wants st p = [] -> alt_wf (arrays st) (chans st) a -> to_mark p [] (marked st a) st.
Proof.
  intros HI Hw [H1 H2 H3 H4]. split; [|done| |].
  - destruct HI as [Q1 Q2 Q3 Q4 Q5 Q6 Q7 Q8 Q9 Q10]. split; try done. eapply queues_weaken; [|exact Q1].
    intros q d c. unfold marks. rewrite elem_of_nil. tauto.
  - intros d c Hin. apply marked_refs in Hin. by eapply H3.
  - cbn [app]. unfold marked, refs in *. rewrite fmap_app in *. by rewrite Permutation_app_comm.
Qed.

(** Marking and leaving again changes nothing. *)
Lemma mark_all_other rs p cs c : c ∉ snd <$> rs -> mark_all rs p cs !! c = cs !! c.
Proof.
  unfold mark_all. revert cs. induction rs as [|[d' c'] rs IH]; intros cs Hn; [done|].
  rewrite fmap_cons, not_elem_of_cons in Hn. cbn [foldl fst snd] in *. destruct Hn as [Hne Hn].
  rewrite IH by done. by apply lookup_mark1_ne.
Qed.
Lemma side_unique (d d' : side) (c : nat) rs : NoDup (snd <$> rs) -> (d, c) ∈ rs -> (d', c) ∈ rs -> d = d'.
Proof.
  induction rs as [|[x y] rs IH]; intros Hn H1 H2; [by apply elem_of_nil in H1|].
  rewrite fmap_cons in Hn. cbn [snd] in Hn. apply list.NoDup_cons in Hn as [Hy Hn].
  apply elem_of_cons in H1 as [E1|H1], H2 as [E2|H2]; simplify_eq; auto;
    exfalso; apply Hy; [by apply (list_elem_of_fmap_2 snd) in H2|by apply (list_elem_of_fmap_2 snd) in H1].
Qed.
Lemma mark_all_in d c rs p cs : (d, c) ∈ rs -> NoDup (snd <$> rs) -> mark_all rs p cs !! c = mark1 d p c cs !! c.
Proof.
  revert cs. induction rs as [|[d' c'] rs IH]; intros cs Hin Hn; [by apply elem_of_nil in Hin|].
  rewrite fmap_cons in Hn. cbn [snd] in Hn. apply list.NoDup_cons in Hn as [Hn1 Hn2].
  change (mark_all ((d', c') :: rs) p cs) with (mark_all rs p (mark1 d' p c' cs)).
  apply elem_of_cons in Hin as [[= -> ->]|Hin]; [by apply mark_all_other|].
  assert (Hne : c <> c') by (intros ->; apply Hn1; by apply (list_elem_of_fmap_2 snd) in Hin).
  rewrite IH by done. unfold mark1 at 1 3. rewrite !lookup_alter_eq. by rewrite lookup_mark1_ne.
Qed.

Lemma clean_marked p l : p ∉ l -> clean p (enc (l ++ [p])) = enc l.
Proof.
  intros H. unfold clean. rewrite omap_enc. f_equal. unfold others. rewrite list.filter_app.
  fold (others p l). rewrite others_notin by done. rewrite filter_cons_False by tauto. apply app_nil_r.
Qed.
Lemma clean_out p l : p ∉ l -> clean p (enc l) = enc l.
Proof. intros H. unfold clean. by rewrite omap_enc, others_notin. Qed.

Lemma unmark_all W p rs cs :
  queues W cs -> (forall d c, ~ W p d c) -> NoDup (snd <$> rs) -> leaves rs p (mark_all rs p cs) = cs.
Proof.
  intros HQ HW Hnd. apply map_eq. intros c. rewrite lookup_leaves.
  assert (Hq : forall ch d, cs !! c = Some ch -> exists l, queue d ch = enc l /\ p ∉ l).
  { intros ch d Hch. destruct (HQ c ch d Hch) as (l & E & _ & Hl). exists l. split; [done|].
    intros Hp. apply Hl in Hp. by eapply HW. }
  destruct (decide (c ∈ snd <$> rs)) as [Hin|Hout].
  - apply list_elem_of_fmap in Hin as ([d c'] & -> & Hin). cbn [snd] in *. rewrite (mark_all_in d) by done.
    unfold mark1. rewrite lookup_alter_eq. destruct (cs !! c') as [ch|] eqn:Hch; [|done]. cbn. f_equal.
    destruct (Hq ch Snd eq_refl) as (ls & Es & Hs), (Hq ch Rcv eq_refl) as (lr & Er & Hr). cbn in Es, Er.
    assert (Hno : (opp d, c') ∉ rs) by (intros H; by destruct d; specialize (side_unique _ _ _ _ Hnd Hin H)).
    unfold cleaned. destruct d; cbn in *; rewrite (bool_decide_eq_true_2 _ Hin), (bool_decide_eq_false_2 _ Hno).
    + rewrite Es, omap_enc, clean_marked by done. destruct ch; cbn in *; by subst.
    + rewrite Er, omap_enc, clean_marked by done. destruct ch; cbn in *; by subst.
  - rewrite mark_all_other by done. destruct (cs !! c) as [ch|] eqn:Hch; [|done]. cbn. f_equal. unfold cleaned.
    assert (Ho : forall d, (d, c) ∉ rs) by (intros d H; apply Hout; by apply (list_elem_of_fmap_2 snd) in H).
    rewrite !(bool_decide_eq_false_2 _ (Ho _)). by destruct ch.
Qed.

Lemma leaves_perm r1 r2 p cs : (forall x, x ∈ r1 <-> x ∈ r2) -> leaves r1 p cs = leaves r2 p cs.
Proof.
  intros H. apply map_eq. intros c. rewrite !lookup_leaves. destruct (cs !! c) as [ch|]; [|done]. cbn. f_equal.
  unfold cleaned. by rewrite (bool_decide_ext _ _ (H (Snd, c))), (bool_decide_ext _ _ (H (Rcv, c))).
Qed.

Definition has_nil (a : Alt) : bool := existsb is_nil (ac_sends a) || existsb is_nil (ac_recvs a).
(** The state after the first pass. *)
Definition marked_state (st : sys) (a : Alt) (p : nat) : sys := with_chans (mark_all (marked st a) p) st.

Lemma leaves_marked st a p :
  Inv st -> wants st p = [] -> alt_wf (arrays st) (chans st) a ->
  leaves (refs (arrays st) a) p (mark_all (marked st a) p (chans st)) = chans st.
Proof.
  intros HI Hw Hwf. rewrite (leaves_perm _ (marked st a)) by (intros x; symmetry; apply marked_refs).
  eapply unmark_all; [exact (inv_queues _ _ HI)| |exact (tm_distinct _ _ _ _ (alt_to_mark _ _ _ HI Hw Hwf))].
  intros d c [H|[]]. unfold waiting_for in H. rewrite Hw in H. by apply elem_of_nil in H.
Qed.

Lemma wf_mark st a p rs : alt_wf (arrays st) (chans st) a -> alt_wf (arrays st) (mark_all rs p (chans st)) a.
Proof.
  intros [H1 H2 H3 H4]. split; try done. clear H1 H2 H4. unfold mark_all. revert H3. generalize (chans st) as cs.
  induction rs as [|x rs IH]; intros cs H; [done|]. apply IH. by apply exist_mark.
Qed.

Lemma altrdy_ok st a p r :
  Inv st -> progs st !! p = Some r -> wants st p = [] -> alt_wf (arrays st) (chans st) a ->
  altrdy a p st = (if has_nil a then Err exNilref st
                   else Ok (count (chans st) (refs (arrays st) a)) (marked_state st a p)) /\
  Inv_with (marks p (marked st a)) (marked_state st a p).
Proof.
  intros HI Hp Hw Hwf. pose proof (alt_to_mark st a p HI Hw Hwf) as Htm. unfold altrdy.
  set (r1 := recv_refs (arrays st) (ac_recvs a)).
  destruct (altrdy_recvs_ok (ac_recvs a) p 0 None [] (send_refs (ac_sends a)) st (wf_arrays _ _ _ Hwf) Htm) as (E1 & H1).
  fold r1 in E1, H1. rewrite (bind_ok _ _ _ _ _ E1).
  destruct (altrdy_sends_ok (ac_sends a) p (0 + count (chans st) r1) (nil_error (ac_recvs a) None) ([] ++ r1)
    (with_chans (mark_all r1 p) st) (wf_sends _ _ _ Hwf) H1) as (E2 & H2).
  rewrite (bind_ok _ _ _ _ _ E2).
  assert (Es : with_chans (mark_all (send_refs (ac_sends a)) p) (with_chans (mark_all r1 p) st) = marked_state st a p).
  { unfold marked_state, marked. rewrite with_chans_chans. apply with_chans_eq. unfold mark_all. by rewrite foldl_app. }
  rewrite Es in H2 |- *. cbn [with_chans chans]. rewrite (count_mark_all p [] r1 _ st Htm).
  assert (Ec : 0 + count (chans st) r1 + count (chans st) (send_refs (ac_sends a)) = count (chans st) (refs (arrays st) a)).
  { unfold refs. rewrite count_app. fold r1. lia. }
  rewrite Ec. pose proof (tm_inv _ _ _ _ H2) as HM. split; [|exact HM].
  assert (En : nil_error (ac_sends a) (nil_error (ac_recvs a) None) = if has_nil a then Some exNilref else None).
  { unfold nil_error, has_nil. by destruct (existsb is_nil (ac_sends a)), (existsb is_nil (ac_recvs a)). }
  rewrite En. destruct (has_nil a); [|done].
  rewrite (bind_ok _ _ _ _ _ (altdone_ok _ a p None (-1) (marked_state st a p) r (inv_queues _ _ HM) Hp (wf_mark _ _ _ _ Hwf))).
  cbn [mbind option_bind take_choice]. unfold error. f_equal.
  transitivity (with_chans (fun cs => leaves (refs (arrays st) a) p (mark_all (marked st a) p cs)) st); [done|].
  apply with_chans_id. by apply leaves_marked.
Qed.

(** ** The second pass *)

(** The alternatives with what choosing each would do, in the order of the
    second pass. *)
Fixpoint send_choices (acs : list Altc) (n : Z) : list (side * nat * choice) :=
  match acs with
  | [] => []
  | a :: acs =>
      match ac_c a with
      | Some (AltChan c) => (Snd, c, (n, ac_ptr a, None)) :: send_choices acs (n + 1)
      | _ => send_choices acs (n + 1)
      end
  end.
Fixpoint array_choices (cs : list (option nat)) (an n ptr : Z) : list (side * nat * choice) :=
  match cs with
  | [] => []
  | Some c :: cs => (Rcv, c, (n, ptr + 8, Some (ptr, an))) :: array_choices cs (an + 1) n ptr
  | None :: cs => array_choices cs (an + 1) n ptr
  end.
Fixpoint recv_choices (arrs : gmap nat (list (option nat))) (acs : list Altc) (n : Z) : list (side * nat * choice) :=
  match acs with
  | [] => []
  | a :: acs =>
      match ac_c a with
      | Some (AltChan c) => [(Rcv, c, (n, ac_ptr a, None))]
      | Some (AltArray i) => array_choices (arrs !!! i) 0 n (ac_ptr a)
      | None => []
      end ++ recv_choices arrs acs (n + 1)
  end.
Definition choices (arrs : gmap nat (list (option nat))) (a : Alt) : list (side * nat * choice) :=
  send_choices (ac_sends a) 0 ++ recv_choices arrs (ac_recvs a) (Z.of_nat (length (ac_sends a))).
Definition ready_choices (cs : gmap nat Channel) (l : list (side * nat * choice)) : list (side * nat * choice) :=
  filter (fun x => is_ready cs x.1 = true) l.

Lemma ready_choices_cons cs x l :
  ready_choices cs (x :: l) = (if is_ready cs x.1 then [x] else []) ++ ready_choices cs l.
Proof.
  unfold ready_choices. destruct (is_ready cs x.1) eqn:E; [by rewrite filter_cons_True|].
  by rewrite filter_cons_False by congruence.
Qed.
Lemma ready_choices_app cs l l' : ready_choices cs (l ++ l') = ready_choices cs l ++ ready_choices cs l'.
Proof. apply list.filter_app. Qed.
Lemma length_ready cs l : Z.of_nat (length (ready_choices cs l)) = count cs (fst <$> l).
Proof.
  induction l as [|x l IH]; [done|]. rewrite ready_choices_cons, length_app, fmap_cons, count_cons.
  destruct (is_ready cs x.1); cbn [length b2n]; lia.
Qed.
Lemma fst_send_choices acs n : fst <$> send_choices acs n = send_refs acs.
Proof.
  revert n. induction acs as [|a acs IH]; intros n; [done|]. cbn. unfold send_ref at 1.
  destruct (ac_c a) as [[c|i]|]; cbn; by rewrite IH.
Qed.
Lemma fst_array_choices cs an n ptr : fst <$> array_choices cs an n ptr = pair Rcv <$> omap id cs.
Proof. revert an. induction cs as [|[c|] cs IH]; intros an; cbn; [done| |]; by rewrite IH. Qed.
Lemma fst_recv_choices arrs acs n : fst <$> recv_choices arrs acs n = recv_refs arrs acs.
Proof.
  revert n. induction acs as [|a acs IH]; intros n; [done|]. cbn [recv_choices]. rewrite fmap_app, IH, recv_refs_cons.
  f_equal. unfold recv_ref. destruct (ac_c a) as [[c|i]|]; [done|apply fst_array_choices|done].
Qed.
Lemma fst_choices arrs a : fst <$> choices arrs a = refs arrs a.
Proof. unfold choices, refs. by rewrite fmap_app, fst_send_choices, fst_recv_choices. Qed.

(** The chosen alternative is carried out. *)
Definition comm (d : side) (c : nat) (ptr : Z) : S unit :=
  match d with Snd => isend (Some c) ptr | Rcv => irecv (Some c) ptr end.
Definition communicate (rd : Z) (x : side * nat * choice) : S unit :=
  let '((d, c), (n, ptr, idx)) := x in
  poke rd n;; match idx with Some (a, an) => poke a an | None => mret tt end;; comm d c ptr.

Definition readable (rs : list (side * nat)) (st : sys) : Prop :=
  forall d c, (d, c) ∈ rs -> ready d c st = Ok (is_ready (chans st) (d, c)) st.
Lemma readable_cons d c rs st :
  readable ((d, c) :: rs) st -> ready d c st = Ok (is_ready (chans st) (d, c)) st /\ readable rs st.
Proof. intros H. split; [apply H; constructor|]. intros d' c' Hin. apply H. by right. Qed.
Lemma readable_app r1 r2 st : readable (r1 ++ r2) st -> readable r1 st /\ readable r2 st.
Proof. intros H. split; intros d c Hin; apply H, elem_of_app; auto. Qed.

(** The second pass over alternatives [l], of which the [which]-th ready one is
    looked for: [found] it, or [stop] with the number still to pass over. *)
Definition second {A} (cs : gmap nat Channel) (l : list (side * nat * choice)) (which : Z)
    (found : side * nat * choice -> S A) (stop : Z -> S A) : S A :=
  match ready_choices cs l !! Z.to_nat which with
  | Some x => found x
  | None => stop (which - Z.of_nat (length (ready_choices cs l)))
  end.
Lemma second_cons {A} cs x l which (found : side * nat * choice -> S A) stop :
  0 <= which ->
  second cs (x :: l) which found stop =
  (if is_ready cs x.1 && (which =? 0) then found x else second cs l (which - b2n (is_ready cs x.1)) found stop).
Proof.
  intros H. unfold second. rewrite ready_choices_cons. destruct (is_ready cs x.1); cbn [andb app b2n length].
  - destruct (Z.eqb_spec which 0) as [->|Hn]; [done|].
    replace (Z.to_nat which) with (Datatypes.S (Z.to_nat (which - 1))) by lia. cbn [lookup list_lookup].
    fold (ready_choices cs l !! Z.to_nat (which - 1)).
    destruct (ready_choices cs l !! Z.to_nat (which - 1)); [done|]. f_equal. lia.
  - by rewrite Z.sub_0_r.
Qed.
Lemma second_app {A} cs l l' which (found : side * nat * choice -> S A) stop :
  0 <= which -> second cs (l ++ l') which found stop = second cs l which found (fun w => second cs l' w found stop).
Proof.
  intros H. unfold second. rewrite ready_choices_app, length_app.
  destruct (ready_choices cs l !! Z.to_nat which) as [x|] eqn:E.
  - by rewrite (lookup_app_l_Some _ _ _ _ E).
  - pose proof (proj1 (lookup_ge_None _ _) E) as Hl. rewrite lookup_app_r by done.
    replace (Z.to_nat (which - Z.of_nat (length (ready_choices cs l))))
      with (Z.to_nat which - length (ready_choices cs l))%nat by lia.
    destruct (ready_choices cs l' !! _); [done|]. f_equal. lia.
Qed.
Lemma second_bind {A B} cs l which (found : side * nat * choice -> S A) stop (k : A -> S B) st :
  (y ← second cs l which found stop; k y) st = second cs l which (fun x => y ← found x; k y) (fun w => y ← stop w; k y) st.
Proof. unfold second. by destruct (ready_choices cs l !! Z.to_nat which). Qed.
Lemma second_ext {A} cs l which (f f' : side * nat * choice -> S A) g g' st :
  0 <= which -> (forall x, f x st = f' x st) -> (forall w, 0 <= w -> g w st = g' w st) ->
  second cs l which f g st = second cs l which f' g' st.
Proof.
  intros H Hf Hg. unfold second. destruct (ready_choices cs l !! Z.to_nat which) as [x|] eqn:E; [apply Hf|].
  apply Hg. apply lookup_ge_None in E. lia.
Qed.

Lemma b2n_nonneg_step b which : 0 <= which -> b && (which =? 0) = false -> 0 <= which - b2n b.
Proof. destruct b; cbn; [|lia]. intros H E. apply Z.eqb_neq in E. lia. Qed.

Lemma altcomm_sends_second acs rd n which st :
  0 <= which -> forallb (fun x => negb (is_array x)) acs = true -> existsb is_nil acs = false ->
  readable (send_refs acs) st ->
  altcomm_sends acs rd n which st =
    second (chans st) (send_choices acs n) which
      (fun x => communicate rd x;; mret (x.2.1.1, None)) (fun w => mret (n + Z.of_nat (length acs), Some w)) st.
Proof.
  revert n which. induction acs as [|a acs IH]; intros n which Hw Ha Hn Hr; cbn [altcomm_sends send_choices].
  - unfold second. cbn. by rewrite Z.add_0_r, Z.sub_0_r.
  - cbn [forallb existsb] in Ha, Hn. apply andb_true_iff in Ha as [Ha1 Ha]. apply orb_false_iff in Hn as [Hn1 Hn].
    unfold is_array, is_nil in *. unfold send_refs in Hr. cbn [mbind list_bind] in Hr. unfold send_ref at 1 in Hr.
    destruct (ac_c a) as [[c|i]|]; [|done|done]. apply readable_cons in Hr as [Hc Hr].
    rewrite (bind_ok _ _ _ _ _ Hc), second_cons by done. cbn [fst].
    destruct (is_ready (chans st) (Snd, c) && (which =? 0)) eqn:E; [done|].
    rewrite IH by (done || by apply b2n_nonneg_step). apply second_ext; [by apply b2n_nonneg_step|done|].
    intros w _. cbn [length]. unfold mret, ST_ret. f_equal. f_equal. lia.
Qed.

Lemma altcomm_array_second cs ptr rd n an which st :
  0 <= which -> readable (pair Rcv <$> omap id cs) st ->
  altcomm_array cs ptr rd n an which st =
    second (chans st) (array_choices cs an n ptr) which
      (fun x => communicate rd x;; mret None) (fun w => mret (Some w)) st.
Proof.
  revert an which. induction cs as [|[c|] cs IH]; intros an which Hw Hr; cbn [altcomm_array array_choices].
  - unfold second. cbn. by rewrite Z.sub_0_r.
  - change (pair Rcv <$> omap id (Some c :: cs)) with ((Rcv, c) :: (pair Rcv <$> omap id cs)) in Hr.
    apply readable_cons in Hr as [Hc Hr]. rewrite (bind_ok _ _ _ _ _ Hc), second_cons by done. cbn [fst].
    destruct (is_ready (chans st) (Rcv, c) && (which =? 0)) eqn:E; [done|].
    by rewrite IH by (done || by apply b2n_nonneg_step).
  - by apply IH.
Qed.

Lemma altcomm_recvs_second acs rd n which st :
  0 <= which -> arrays_ok (arrays st) acs -> existsb is_nil acs = false -> readable (recv_refs (arrays st) acs) st ->
  altcomm_recvs acs rd n which st =
    second (chans st) (recv_choices (arrays st) acs n) which (communicate rd) (fun _ => mret tt) st.
Proof.
  revert n which. induction acs as [|a acs IH]; intros n which Hw Ha Hn Hr; cbn [altcomm_recvs recv_choices].
  - done.
  - assert (Ha' : arrays_ok (arrays st) acs) by (intros b i Hb; apply (Ha b); by right).
    cbn [existsb] in Hn. apply orb_false_iff in Hn as [Hn1 Hn]. rewrite recv_refs_cons in Hr.
    apply readable_app in Hr as [Hr1 Hr]. unfold is_nil, recv_ref in *.
    destruct (ac_c a) as [[c|i]|] eqn:Ea; [| |done].
    + apply readable_cons in Hr1 as [Hc _]. rewrite (bind_ok _ _ _ _ _ Hc). cbn [app].
      rewrite second_cons by done. cbn [fst].
      destruct (is_ready (chans st) (Rcv, c) && (which =? 0)) eqn:E; [done|].
      by rewrite IH by (done || by apply b2n_nonneg_step).
    + destruct (Ha a i) as [cs Hcs]; [by left|done|]. rewrite (lookup_total_correct _ _ _ Hcs) in *.
      rewrite (bind_ok _ _ cs st st) by by apply array_ok_of. rewrite second_app by done.
      unfold mbind at 1, ST_bind at 1. rewrite altcomm_array_second by done.
      etransitivity; [apply (second_bind _ _ _ _ _ (fun w => match w with None => mret tt | Some w => altcomm_recvs acs rd (n + 1) w end))|].
      apply second_ext; [done| |].
      * intros x. unfold mbind, ST_bind. by destruct (communicate rd x st) as [[]| |].
      * intros w Hw'. by apply IH.
Qed.

Lemma altcomm_second a rd which st :
  0 <= which -> alt_wf (arrays st) (chans st) a -> has_nil a = false -> readable (refs (arrays st) a) st ->
  altcomm a rd which st = second (chans st) (choices (arrays st) a) which (communicate rd) (fun _ => mret tt) st.
Proof.
  intros Hw [H1 H2 _ _] Hn Hr. apply readable_app in Hr as [Hr1 Hr2]. apply orb_false_iff in Hn as [Hn1 Hn2].
  unfold altcomm, choices. rewrite second_app by done. unfold mbind at 1, ST_bind at 1.
  rewrite altcomm_sends_second by done.
  etransitivity; [apply (second_bind _ _ _ _ _ (fun '(n, w) => match w with None => mret tt | Some w => altcomm_recvs (ac_recvs a) rd n w end))|].
  apply second_ext; [done| |].
  - intros x. unfold mbind, ST_bind. by destruct (communicate rd x st) as [[]| |].
  - intros w Hw'. cbn. rewrite Z.add_0_l. by apply altcomm_recvs_second.
Qed.

Lemma head_other p rs st d c ch q l :
  Inv_with (marks p rs) st -> wants st p = [] -> (d, c) ∈ rs -> NoDup (snd <$> rs) ->
  chans st !! c = Some ch -> queue (opp d) ch = enc (q :: l) -> q <> p.
Proof.
  intros HI Hw Hin Hnd Hch E ->. destruct (inv_queues _ _ HI c ch (opp d) Hch) as (l' & E' & _ & Hl).
  rewrite E in E'. apply enc_inj in E' as <-. destruct (Hl p) as [H _]. destruct H as [H|[_ H]]; [constructor| |].
  - unfold waiting_for in H. rewrite Hw in H. by apply elem_of_nil in H.
  - specialize (side_unique _ _ _ _ Hnd Hin H). by destruct d.
Qed.

(** What the rest of the alt relies on. *)
Record kept (p : nat) (st st' : sys) : Prop := {
  k_prog : progs st' !! p = progs st !! p;
  k_arrays : arrays st' = arrays st;
  k_alts : alts st' = alts st;
  k_exist : forall c, is_Some (chans st !! c) -> is_Some (chans st' !! c);
  k_runq : runq st' = runq st \/ exists q, runq st' = runq st ++ [q];
}.

Lemma exists_insert (c c' : nat) (x : Channel) (m : gmap nat Channel) : is_Some (m !! c') -> is_Some (<[c := x]> m !! c').
Proof. intros H. destruct (decide (c' = c)) as [->|]; [rewrite lookup_insert_eq; eauto|by rewrite lookup_insert_ne]. Qed.
Lemma exists_leaves rs q c (m : gmap nat Channel) : is_Some (m !! c) -> is_Some (leaves rs q m !! c).
Proof. intros [ch H]. rewrite lookup_leaves, H. cbn. eauto. Qed.

Lemma stored_kept p st c ch b s : kept p st (stored st c ch b s).
Proof. split; try done; [by intros; apply exists_insert|by left]. Qed.
Lemma got_kept p st c ch b s : kept p st (got st c ch b s).
Proof. split; try done; [by intros; apply exists_insert|by left]. Qed.
Lemma sent_kept p st q r c s : q <> p -> kept p st (sent_to st q r c s).
Proof.
  intros Hn. destruct (removed_same st q r Rcv c) as (Ec & Ea & El & Er & Ho). unfold sent_to.
  split; cbn; try done.
  - rewrite !lookup_alter_ne by done. by apply Ho.
  - intros c' Hc'. rewrite Ec. by apply exists_leaves.
  - rewrite Er. eauto.
Qed.
Lemma received_kept p st q r c d : q <> p -> is_Some (chans st !! c) -> kept p st (received_from st q r c d).
Proof.
  intros Hn [ch Hch]. destruct (removed_same st q r Snd c) as (Ec & Ea & El & Er & Ho). unfold received_from.
  rewrite Ec, lookup_leaves, Hch. cbn [fmap option_fmap option_map]. destruct (c_buf (cleaned (wants st q) q c ch)).
  - split; cbn; try done.
    + rewrite !lookup_alter_ne by done. by apply Ho.
    + intros c' Hc'. apply exists_insert, exists_insert. rewrite Ec. by apply exists_leaves.
    + rewrite Er. eauto.
  - split; cbn; try done.
    + rewrite !lookup_alter_ne by done. by apply Ho.
    + intros c' Hc'. rewrite Ec. by apply exists_leaves.
    + rewrite Er. eauto.
Qed.

Definition comm_outcome (st : sys) (d : side) (c : nat) (ptr : Z) (st' : sys) : Prop :=
  match d with Snd => send_outcome st c ptr st' | Rcv => recv_outcome st c ptr st' end.

(** On a ready channel the program communicates and does not block, although it
    is itself listed on the queues of its alt. *)
Lemma comm_marked p rs st d c ptr :
  Inv_with (marks p rs) st -> wants st p = [] -> (d, c) ∈ rs -> NoDup (snd <$> rs) ->
  is_Some (chans st !! c) -> is_ready (chans st) (d, c) = true ->
  exists st', comm d c ptr st = Ok tt st' /\ comm_outcome st d c ptr st' /\ Inv_with (marks p rs) st' /\ kept p st st'.
Proof.
  intros HI Hw Hin Hnd [ch Hch] Hrdy. destruct (inv_queues _ _ HI c ch (opp d) Hch) as (l & E & _).
  unfold is_ready in Hrdy. cbn [fst snd] in Hrdy. rewrite Hch, E, omap_enc in Hrdy. destruct l as [|q l].
  - rewrite bool_decide_eq_false_2 in Hrdy by (intros H; by apply H). cbn [orb] in Hrdy.
    pose proof (empty_queue _ _ _ _ _ HI Hch E) as Hno. destruct d; cbn [opp queue comm comm_outcome] in *.
    + unfold CANPUT in Hrdy. destruct (c_buf ch) as [b|] eqn:Eb; [|done]. apply Z.ltb_lt in Hrdy.
      exists (stored st c ch b ptr). unfold isend.
      rewrite (bind_ok _ _ None st st) by by apply (waiting_ok Rcv c ch []).
      rewrite (bind_ok _ _ true st (stored st c ch b ptr)) by by apply cputb_room.
      split; [done|]. split; [by econstructor|]. split; [by apply stored_inv|apply stored_kept].
    + unfold CANGET in Hrdy. apply Z.ltb_lt in Hrdy. pose proof (inv_ring _ _ HI c ch Hch) as Hring.
      destruct (c_buf ch) as [b|] eqn:Eb; [|unfold ring_ok, cap in Hring; rewrite Eb in Hring; lia].
      exists (got st c ch b ptr). unfold irecv.
      rewrite (bind_ok _ _ None st st) by by apply (waiting_ok Snd c ch []).
      rewrite (bind_ok _ _ true st (got st c ch b ptr)) by by apply cgetb_some.
      split; [done|]. split; [by econstructor|]. split; [by apply got_inv|apply got_kept].
  - pose proof (head_other _ _ _ _ _ _ _ _ HI Hw Hin Hnd Hch E) as Hqp.
    assert (HM : forall d c, ~ marks p rs q d c) by (by intros d' c' [-> _]).
    destruct d; cbn [opp queue comm comm_outcome] in *.
    + destruct (isend_receiver _ st c ch q l ptr HI Hch E HM) as (r & Hq & Hb & Hwq & Ee & HI').
      exists (sent_to st q r c ptr). split; [done|]. split; [by econstructor|]. split; [done|by apply sent_kept].
    + destruct (irecv_sender _ st c ch q l ptr HI Hch E HM) as (r & Hq & Hb & Hwq & Ee & HI').
      exists (received_from st q r c ptr). split; [done|]. split; [by econstructor|]. split; [done|]. apply received_kept; eauto.
Qed.

(** The cells that tell the program which alternative was taken. *)
Definition indexed (rd : Z) (k : choice) (st : sys) : sys :=
  with_cells (fun m => match k with
                       | (n, _, None) => poke_cell rd n m
                       | (n, _, Some (a, an)) => poke_cell a an (poke_cell rd n m)
                       end) st.
Lemma communicate_indexed rd d c n ptr idx st :
  communicate rd (d, c, (n, ptr, idx)) st = comm d c ptr (indexed rd (n, ptr, idx) st).
Proof. by destruct idx as [[a an]|]. Qed.

(** ** The outcomes of an alt *)

(** The scheduler's pseudo-random number after an alt that found something ready. *)
Definition next_rand (st : sys) : Z := u64 (xrand st * 1103515245 + 12345).

Definition alt_blocked (st : sys) (a : Alt) (p : nat) (s : nat) (rd : Z) : sys :=
  with_flags 1 1 (with_progs (alter (set_regs s rd) p) (with_runq tail (with_progs (alter (set_state Palt) p) (marked_state st a p)))).

Inductive alt_outcome (st : sys) (block : bool) (a : Alt) (p s : nat) (rd : Z) : sys -> Prop :=
  | AltBlocks :
      block = true -> ready_choices (chans st) (choices (arrays st) a) = [] ->
      alt_outcome st block a p s rd (alt_blocked st a p s rd)
  | AltPolls :
      block = false -> ready_choices (chans st) (choices (arrays st) a) = [] ->
      alt_outcome st block a p s rd
        (with_cells (poke_cell rd (Z.of_nat (nsend a) + Z.of_nat (nrecv a))) st)
  | AltCommunicates d c n ptr idx st' :
      let l := ready_choices (chans st) (choices (arrays st) a) in
      l !! Z.to_nat (Z.shiftr (next_rand st) 8 mod Z.of_nat (length l)) = Some (d, c, (n, ptr, idx)) ->
      comm_outcome (indexed rd (n, ptr, idx) (with_xrand (next_rand st) (marked_state st a p))) d c ptr st' ->
      runq st' = runq st \/ (exists q, runq st' = runq st ++ [q]) ->
      alt_outcome st block a p s rd (with_chans (leaves (refs (arrays st) a) p) st').

Lemma is_ready_mark_in x p rs cs :
  x ∈ rs -> NoDup (snd <$> rs) -> is_ready (mark_all rs p cs) x = is_ready cs x.
Proof.
  destruct x as [d c]. intros Hin Hnd. unfold is_ready. cbn [fst snd]. rewrite (mark_all_in d) by done.
  unfold mark1. rewrite lookup_alter_eq. destruct (cs !! c) as [ch|]; [|done]. cbn [fmap option_fmap option_map].
  rewrite queue_set_ne by (by destruct d). by destruct d.
Qed.
Lemma ready_choices_ext cs cs' l :
  (forall x, x ∈ l -> is_ready cs' x.1 = is_ready cs x.1) -> ready_choices cs' l = ready_choices cs l.
Proof.
  induction l as [|x l IH]; intros H; [done|]. rewrite !ready_choices_cons, (H x) by constructor.
  f_equal. apply IH. intros y Hy. apply H. by right.
Qed.
Lemma choice_ref arrs a x : x ∈ choices arrs a -> x.1 ∈ refs arrs a.
Proof. intros H. rewrite <- fst_choices. by apply list_elem_of_fmap_2. Qed.
Lemma marked_distinct st a p :
  Inv st -> wants st p = [] -> alt_wf (arrays st) (chans st) a -> NoDup (snd <$> marked st a).
Proof. intros HI Hw Hwf. exact (tm_distinct _ _ _ _ (alt_to_mark st a p HI Hw Hwf)). Qed.
Lemma marked_ready st a p :
  Inv st -> wants st p = [] -> alt_wf (arrays st) (chans st) a ->
  forall x, x ∈ refs (arrays st) a -> is_ready (chans (marked_state st a p)) x = is_ready (chans st) x.
Proof.
  intros HI Hw Hwf x Hx. unfold marked_state. cbn [with_chans chans].
  apply is_ready_mark_in; [by apply marked_refs|by eapply marked_distinct].
Qed.

(** Nothing can be communicated on a side that is not ready. *)
Lemma not_ready M st d c ch :
  Inv_with M st -> chans st !! c = Some ch -> is_ready (chans st) (d, c) = false ->
  (forall q, ~ waiting_for st q (opp d) c) /\ c_size ch = match d with Snd => cap ch | Rcv => 0 end.
Proof.
  intros HI Hch. unfold is_ready. cbn [fst snd]. rewrite Hch. intros [Hq Hc]%orb_false_iff.
  destruct (inv_queues _ _ HI c ch (opp d) Hch) as (l & E & _). rewrite E, omap_enc in Hq.
  apply bool_decide_eq_false in Hq. assert (l = []) as -> by (destruct l; [done|by destruct Hq]).
  split; [by eapply empty_queue|]. pose proof (inv_ring _ _ HI c ch Hch) as Hr. unfold ring_ok, cap in *.
  destruct d.
  - unfold CANPUT in Hc. destruct (c_buf ch); [apply Z.ltb_ge in Hc|]; lia.
  - unfold CANGET in Hc. apply Z.ltb_ge in Hc. lia.
Qed.

(** The marks taken away again. *)
Lemma unmark_inv st p rs :
  Inv_with (marks p rs) st -> wants st p = [] -> Inv (with_chans (leaves rs p) st).
Proof.
  intros HI Hw. apply (Inv_chans (marks p rs)); [done|apply contents_leaves|].
  eapply queues_weaken; [|apply queues_leaves, (inv_queues _ _ HI)]. intros q d c. unfold minus, marks, waiting_for.
  destruct (decide (q = p)) as [->|Hn]; [|tauto]. rewrite Hw, elem_of_nil. tauto.
Qed.

Lemma none_ready cs l x : ready_choices cs l = [] -> x ∈ l -> is_ready cs x.1 = false.
Proof.
  intros H Hx. destruct (is_ready cs x.1) eqn:E; [|done]. exfalso. apply (not_elem_of_nil x). rewrite <- H.
  unfold ready_choices. by apply list_elem_of_filter.
Qed.

Lemma alt_blocked_inv st a p s rd rest :
  Inv st -> runq st = p :: rest -> alts st !! s = Some a -> alt_wf (arrays st) (chans st) a -> 
  ready_choices (chans st) (choices (arrays st) a) = [] -> Inv_with (marks p (marked st a)) (marked_state st a p) ->
  Inv (alt_blocked st a p s rd).
Proof.
  intros HI Hr Ha Hwf Hno HM. destruct (current st p rest HI Hr) as (r & Hp & Hst & Hw).
  pose proof (marked_distinct st a p HI Hw Hwf) as Hnd.
  assert (Hnr : forall d c ch, chans (marked_state st a p) !! c = Some ch -> (d, c) ∈ marked st a ->
    (forall q, ~ waiting_for (marked_state st a p) q (opp d) c) /\ c_size ch = match d with Snd => cap ch | Rcv => 0 end).
  { intros d c ch Hch Hin. eapply not_ready; [exact HM|done|]. apply marked_refs in Hin.
    rewrite (marked_ready st a p) by done. rewrite <- fst_choices in Hin.
    apply list_elem_of_fmap in Hin as (x & -> & Hx). by eapply none_ready. }
  eapply (block_inv _ (marked_state st a p) _ p (set_regs s rd (set_state Palt r)) (marked st a) rest HM); try done.
  - unfold alt_blocked. cbn. by rewrite Hr.
  - unfold alt_blocked. cbn. by rewrite !lookup_alter_eq, Hp.
  - by left.
  - intros q Hq. unfold alt_blocked. cbn. by rewrite !lookup_alter_ne.
  - intros d c. unfold wants, alt_blocked. cbn. rewrite !lookup_alter_eq, Hp. cbn. rewrite Ha. by rewrite marked_refs.
  - intros _. exists a. split; [done|]. exact (wf_mark st a p (marked st a) Hwf).
  - by intros [|].
  - intros d c Hin. apply marked_refs in Hin. by apply (wf_exist _ _ _ (wf_mark st a p (marked st a) Hwf) d c).
  - intros c ch Hch Hin. destruct (Hnr Snd c ch Hch Hin). done.
  - intros c ch Hch Hin. destruct (Hnr Rcv c ch Hch Hin). done.
  - intros c H1 H2. by specialize (side_unique _ _ _ _ Hnd H1 H2).
Qed.

Lemma xecalt_ready st a p r s rd block rest :
  Inv st -> runq st = p :: rest -> progs st !! p = Some r -> wants st p = [] ->
  alt_wf (arrays st) (chans st) a -> has_nil a = false ->
  Inv_with (marks p (marked st a)) (marked_state st a p) ->
  ready_choices (chans st) (choices (arrays st) a) <> [] ->
  exists st', (altcomm a rd (Z.shiftr (next_rand st) 8 mod count (chans st) (refs (arrays st) a));; altdone a p None (-1))
      (with_xrand (next_rand st) (marked_state st a p)) = Ok tt st' /\ alt_outcome st block a p s rd st' /\ Inv st'.
Proof.
  intros HI Hr Hp Hw Hwf Hn HM Hne. set (st1 := with_xrand (next_rand st) (marked_state st a p)).
  pose proof (marked_distinct st a p HI Hw Hwf) as Hnd.
  assert (HI1 : Inv_with (marks p (marked st a)) st1) by (by eapply Inv_ext; [..|exact HM]).
  assert (Hwf1 : alt_wf (arrays st1) (chans st1) a) by exact (wf_mark st a p (marked st a) Hwf).
  assert (El : ready_choices (chans st1) (choices (arrays st1) a) = ready_choices (chans st) (choices (arrays st) a)).
  { apply ready_choices_ext. intros x Hx. by apply (marked_ready st a p HI Hw Hwf), choice_ref. }
  rewrite <- fst_choices, <- length_ready. set (l := ready_choices (chans st) (choices (arrays st) a)) in *.
  assert (Hpos : 0 < Z.of_nat (length l)) by (destruct l; [done|cbn; lia]).
  set (which := Z.shiftr (next_rand st) 8 mod Z.of_nat (length l)).
  pose proof (Z.mod_pos_bound (Z.shiftr (next_rand st) 8) _ Hpos) as Hb. fold which in Hb.
  destruct (l !! Z.to_nat which) as [[[d c] [[n ptr] idx]]|] eqn:Ex; [|apply lookup_ge_None in Ex; lia].
  assert (Hin : (d, c) ∈ refs (arrays st) a /\ is_ready (chans st1) (d, c) = true).
  { apply list_elem_of_lookup_2 in Ex. rewrite <- El in Ex. unfold ready_choices in Ex.
    apply list_elem_of_filter in Ex as [Ex1 Ex2]. split; [by apply choice_ref in Ex2|done]. }
  destruct Hin as [Hin Hrdy].
  assert (Eac : altcomm a rd which st1 = communicate rd (d, c, (n, ptr, idx)) st1).
  { rewrite altcomm_second; [|lia|done|done|].
    - unfold second. by rewrite El, Ex.
    - intros d' c' H'. eapply ready_ok; [exact HI1|]. by apply (wf_exist _ _ _ Hwf1 d' c'). }
  destruct (comm_marked p (marked st a) (indexed rd (n, ptr, idx) st1) d c ptr) as (st2 & E2 & Ho & HI2 & Hk); try done.
  - by eapply Inv_ext; [..|exact HI1].
  - by apply marked_refs.
  - by apply (wf_exist _ _ _ Hwf1 d c).
  - destruct Hk as [K1 K2 K3 K4 K5]. cbn in K1, K2, K3, K4, K5.
    exists (with_chans (leaves (refs (arrays st) a) p) st2). split; [|split].
    + rewrite (bind_ok _ _ tt st1 st2) by (by rewrite Eac, communicate_indexed).
      assert (Hwf2 : alt_wf (arrays st2) (chans st2) a).
      { destruct Hwf1 as [W1 W2 W3 W4]. rewrite K2. split; try done. intros d' c' H'. apply K4. by apply (W3 d' c'). }
      rewrite (altdone_ok _ a p None (-1) st2 r (inv_queues _ _ HI2)) by congruence. by rewrite K2.
    + by eapply AltCommunicates; [exact Ex|exact Ho|].
    + rewrite <- (with_chans_eq (leaves (marked st a) p)) by (apply leaves_perm, marked_refs).
      apply unmark_inv; [done|]. rewrite <- Hw. by apply wants_ext.
Qed.

Lemma xecalt_step st block s rd a p rest :
  Inv st -> runq st = p :: rest -> alts st !! s = Some a -> alt_wf (arrays st) (chans st) a ->
  if has_nil a then xecalt block s rd st = Err exNilref st
  else exists st', xecalt block s rd st = Ok tt st' /\ alt_outcome st block a p s rd st' /\ Inv st'.
Proof.
  intros HI Hr Ha Hwf. destruct (current st p rest HI Hr) as (r & Hp & Hst & Hw).
  destruct (altrdy_ok st a p r HI Hp Hw Hwf) as (E1 & HM). unfold xecalt.
  assert (Ec : currun st = Ok p st) by (unfold currun; by rewrite Hr).
  rewrite (bind_ok _ _ _ _ _ Ec), (bind_ok _ _ _ _ _ (alt_ok_of _ _ _ Ha)).
  destruct (has_nil a) eqn:Hn; [by rewrite (bind_err _ _ _ _ _ E1)|]. rewrite (bind_ok _ _ _ _ _ E1).
  assert (El : count (chans st) (refs (arrays st) a) = Z.of_nat (length (ready_choices (chans st) (choices (arrays st) a)))).
  { by rewrite length_ready, fst_choices. }
  destruct (Z.eqb_spec (count (chans st) (refs (arrays st) a)) 0) as [Ez|Ez].
  - assert (Hno : ready_choices (chans st) (choices (arrays st) a) = []) by (apply nil_length_inv; lia).
    destruct block.
    + exists (alt_blocked st a p s rd). split; [|split; [by constructor|by eapply alt_blocked_inv]].
      unfold delrun, currun, set_prog, modify, mbind, ST_bind, of_option, marked_state. cbn. by rewrite Hr.
    + exists (with_cells (poke_cell rd (Z.of_nat (nsend a) + Z.of_nat (nrecv a))) st). split; [|split; [by constructor|]].
      * unfold poke. rewrite (bind_ok _ _ tt _ (with_cells (poke_cell rd (Z.of_nat (nsend a) + Z.of_nat (nrecv a))) (marked_state st a p))) by done.
        rewrite (altdone_ok _ a p None (-1) (with_cells (poke_cell rd (Z.of_nat (nsend a) + Z.of_nat (nrecv a))) (marked_state st a p)) r (inv_queues _ _ HM)); [|done|exact (wf_mark st a p (marked st a) Hwf)].
        cbn [mbind option_bind take_choice]. f_equal.
        transitivity (with_chans (fun cs => leaves (refs (arrays st) a) p (mark_all (marked st a) p cs))
          (with_cells (poke_cell rd (Z.of_nat (nsend a) + Z.of_nat (nrecv a))) st)); [done|].
        apply with_chans_id. exact (leaves_marked st a p HI Hw Hwf).
      * by eapply Inv_ext; [..|exact HI].
  - apply (xecalt_ready st a p r s rd block rest); try done. intros E. rewrite E in El. done.
Qed.
