(* ===== verification/Sched.v ===== *)
(** * The system of programs and channels

    Exceptions and hang-ups, the steps of the system and the invariant along
    them, and the channel as a queue of the data sent: [pending]. *)

From S2P Require Import Prelude Chan AltPass.

(** ** Exceptions, hang-ups and the scheduler *)

(** A program leaves the queues it waits in. *)
Lemma leave_all_ok st p r :
  Inv st -> progs st !! p = Some r -> blocked (p_state r) ->
  match p_state r with
  | Palt => a ← alt_of (p_Rs r); altdone a p None (-1)
  | Psend => c ← of_option (p_chan r); on_queue Snd c (fun q => cqdelp q p)
  | _ => c ← of_option (p_chan r); on_queue Rcv c (fun q => cqdelp q p)
  end st = Ok tt (with_chans (leaves (wants st p) p) st).
Proof.
  intros HI Hp Hb. pose proof (inv_exists _ _ HI p) as Hex. unfold wants in *. rewrite Hp in *.
  assert (Hq : forall d c, exist_all [(d, c)] (chans st) ->
    on_queue d c (fun q => cqdelp q p) st = Ok tt (with_chans (leaves [(d, c)] p) st)).
  { intros d c Hc. destruct (Hc d c) as [ch Hch]; [constructor|].
    destruct (inv_queues _ _ HI c ch d Hch) as (l & E & Hnd & _).
    rewrite (on_queue_ok d c _ ch (enc (others p l))) by (done || by rewrite E, cqdelp_enc).
    f_equal. apply with_chans_eq. symmetry. by apply leave_insert. }
  destruct (p_state r) eqn:Es; try (destruct Hb as [|[|]]; discriminate).
  - destruct (inv_alts _ _ HI p r Hp Es) as (a & Ha & Hwf). rewrite Ha in *.
    rewrite (bind_ok _ _ _ _ _ (alt_ok_of _ _ _ Ha)).
    by rewrite (altdone_ok _ a p None (-1) st r (inv_queues _ _ HI) Hp Hwf).
  - destruct (inv_chan _ _ HI p r Hp (or_introl Es)) as [[c Ec] _]. rewrite Ec in *. by apply Hq.
  - destruct (inv_chan _ _ HI p r Hp (or_intror Es)) as [[c Ec] _]. rewrite Ec in *. by apply Hq.
Qed.

(** A program woken with something changed about it that is not its state. *)
Definition woken (st : sys) (p : nat) (f : Prog -> Prog) : sys :=
  with_progs (alter f p) (with_runq (fun q => q ++ [p]) (with_progs (alter (set_state Pready) p)
    (with_chans (leaves (wants st p) p) st))).
Lemma woken_inv st p r f :
  Inv st -> progs st !! p = Some r -> blocked (p_state r) -> (forall r, p_state (f r) = p_state r) -> Inv (woken st p f).
Proof.
  intros HI Hp Hb Hf. eapply (wake_inv _ st _ p r (f (set_state Pready r)) HI); try done.
  - by intros d c [].
  - unfold woken. cbn. by rewrite !lookup_alter_eq, Hp.
  - intros q Hq. unfold woken. cbn. by rewrite !lookup_alter_ne.
Qed.

(** The exception is kept unless one is pending already. *)
Definition raised (exc : string) (r : Prog) : Prog :=
  match p_kill r with None => set_kill exc r | Some _ => r end.
Lemma raise_ok st p r k exc :
  progs st !! p = Some r -> p_kill r = k ->
  match k with None => set_prog p (set_kill exc) | Some _ => mret tt end st = Ok tt (with_progs (alter (raised exc) p) st).
Proof.
  intros Hp <-. assert (E : alter (raised exc) p (progs st) =
    match p_kill r with None => alter (set_kill exc) p (progs st) | Some _ => progs st end).
  { unfold raised. apply map_eq. intros q. destruct (decide (q = p)) as [->|Hn].
    - rewrite lookup_alter_eq, Hp. cbn. destruct (p_kill r) eqn:Ek; [by rewrite Hp|].
      by rewrite lookup_alter_eq, Hp.
    - rewrite lookup_alter_ne by done. destruct (p_kill r); [done|by rewrite lookup_alter_ne]. }
  unfold set_prog, modify, mret, ST_ret, with_progs. rewrite E. destruct (p_kill r); [by destruct st|done].
Qed.

Lemma exprog_step st p r exc :
  Inv st -> progs st !! p = Some r ->
  exprog p exc st = Ok tt (match p_state r with
    | Palt | Psend | Precv => woken st p (raised exc)
    | Pready | Prelease => with_progs (alter (raised exc) p) st
    | _ => st end).
Proof.
  intros HI Hp. unfold exprog. rewrite (bind_ok _ _ _ _ _ (prog_ok _ _ _ Hp)).
  pose proof (leave_all_ok st p r HI Hp) as Hl. unfold blocked in Hl.
  pose proof (fun Hb => blocked_idle _ st p r HI Hp Hb) as Hidle. unfold blocked in Hidle.
  assert (Hend : p ∉ runq st -> forall k, p_kill r = k ->
    (addrun p;; match k with None => set_prog p (set_kill exc) | Some _ => mret tt end)
      (with_chans (leaves (wants st p) p) st) = Ok tt (woken st p (raised exc))).
  { intros Hq k Hk. rewrite (bind_ok _ _ _ _ _ (addrun_ok p (with_chans (leaves (wants st p) p) st) Hq)).
    apply (raise_ok _ p (set_state Pready r)); [|done]. cbn. by rewrite lookup_alter_eq, Hp. }
  assert (Hrun : p ∉ runq st -> forall c : S unit, c st = Ok tt (with_chans (leaves (wants st p) p) st) ->
    (c;; addrun p;; match p_kill r with None => set_prog p (set_kill exc) | Some _ => mret tt end) st =
    Ok tt (woken st p (raised exc))).
  { intros Hq c Hc. rewrite (bind_ok _ _ _ _ _ Hc). by apply Hend. }
  destruct (p_state r) eqn:Es; try done; try (by eapply raise_ok).
  - specialize (Hl (or_introl eq_refl)). specialize (Hrun (Hidle (or_introl eq_refl)) _ Hl). rewrite <- Hrun.
    unfold mbind, ST_bind. destruct (alt_of (p_Rs r) st); [|done|done].
    by destruct (altdone _ _ _ _ _) as [[]| |].
  - specialize (Hl (or_intror (or_introl eq_refl))). specialize (Hrun (Hidle (or_intror (or_introl eq_refl))) _ Hl). rewrite <- Hrun.
    unfold mbind, ST_bind, of_option. destruct (p_chan r); done.
  - specialize (Hl (or_intror (or_intror eq_refl))). specialize (Hrun (Hidle (or_intror (or_intror eq_refl))) _ Hl). rewrite <- Hrun.
    unfold mbind, ST_bind, of_option. destruct (p_chan r); done.
Qed.

Lemma altgone_step st p r :
  Inv st -> progs st !! p = Some r ->
  exists st', altgone p st = Ok tt st' /\ Inv st' /\ (p_state r <> Palt -> st' = st).
Proof.
  intros HI Hp. unfold altgone. rewrite (bind_ok _ _ _ _ _ (prog_ok _ _ _ Hp)).
  destruct (decide (p_state r = Palt)) as [Es|Es]; [|by exists st].
  pose proof (leave_all_ok st p r HI Hp (or_introl Es)) as Hl. rewrite Es in Hl.
  exists (woken st p (set_kill "alt channel hungup")). split; [|split; [by apply (woken_inv st p r); [..|left|]|done]].
  set (st2 := with_chans (leaves (wants st p) p) st) in *. pose proof (blocked_idle _ st p r HI Hp (or_introl Es)) as Hidle.
  assert (Ek : (set_prog p (set_kill "alt channel hungup");; addrun p) st2 = Ok tt (woken st p (set_kill "alt channel hungup"))).
  { rewrite (bind_ok _ _ tt st2 (with_progs (alter (set_kill "alt channel hungup") p) st2)) by done. rewrite addrun_ok by done.
    unfold woken, st2, with_runq, with_progs, with_chans. cbn. by rewrite !alter_alter_eq. }
  rewrite <- Ek. unfold mbind, ST_bind in Hl |- *. destruct (alt_of (p_Rs r) st) as [a st1| |]; [|done|done].
  by destruct (altdone a p None (-1) st1) as [[] st3| |]; [injection Hl as ->|..].
Qed.

(** The invariant across a change of the run queue: programs change, but none
    that waits on a channel. *)
Lemma runq_inv st st' :
  Inv st -> chans st' = chans st -> arrays st' = arrays st -> alts st' = alts st ->
  (forall p, progs st' !! p = progs st !! p \/
     exists r r', progs st !! p = Some r /\ progs st' !! p = Some r' /\ ~ blocked (p_state r) /\ ~ blocked (p_state r')) ->
  NoDup (runq st') -> (forall p, p ∈ runq st' <-> exists r, progs st' !! p = Some r /\ p_state r = Pready) ->
  Inv st'.
Proof.
  intros [H1 H2 H3 H4 H5 H6 H7 H8 H9 H10] Ec Ea El Hp Hnd Hrun.
  assert (Hnw : forall st p r, progs st !! p = Some r -> ~ blocked (p_state r) -> wants st p = []).
  { intros st0 p r Hr Hb. unfold wants. rewrite Hr. unfold blocked in Hb. by destruct (p_state r); try tauto. }
  assert (Ew : forall p, wants st' p = wants st p).
  { intros p. destruct (Hp p) as [E|(r & r' & E1 & E2 & B1 & B2)]; [by apply wants_ext|].
    by rewrite (Hnw st p r), (Hnw st' p r'). }
  assert (Hold : forall p r, progs st' !! p = Some r -> blocked (p_state r) -> progs st !! p = Some r).
  { intros p r Hr Hb. destruct (Hp p) as [E|(r1 & r' & E1 & E2 & B1 & B2)]; [congruence|].
    assert (r' = r) as -> by congruence. tauto. }
  split; unfold waiting_for in *; rewrite ?Ec, ?Ea, ?El; intros; rewrite ?Ew in *; eauto.
  - eapply queues_weaken; [|exact H1]. intros p d c. cbn. by rewrite Ew.
  - eapply H3; [|done]. apply Hold; [done|by left].
  - eapply H4; [|done]. apply Hold; [done|by right].
Qed.

Lemma rotate_inv st r st' : Inv st -> rotate r st = Ok tt st' -> Inv st'.
Proof.
  intros HI [= <-]. destruct st as [ps cs ars als q ce x ic t]. cbn.
  assert (E : exists q', match q with
     | [] => q | [_] => q
     | f :: (_ :: _) as rest => if decide (r = f) then rest ++ [f] else q end = q' /\ Permutation q' q).
  { destruct q as [|f [|g q]]; [by eexists|by eexists|]. destruct (decide (r = f)); [|by eexists].
    eexists. split; [done|]. symmetry. apply Permutation_cons_append. }
  destruct E as (q' & Eq & Pq). unfold with_runq. cbn.
  apply (runq_inv (mkSys ps cs ars als q ce x ic t)); try done; cbn; [by left| |].
  - destruct q as [|f [|g q]]; try exact (inv_runq _ _ HI). rewrite Eq, Pq. exact (inv_runq _ _ HI).
  - intros p. pose proof (inv_ready _ _ HI p) as Hp. cbn in Hp. rewrite <- Hp.
    destruct q as [|f [|g q]]; try done. by rewrite Eq, Pq.
Qed.

Lemma release_inv st p rest st' : Inv st -> runq st = p :: rest -> release st = Ok tt st' -> Inv st'.
Proof.
  intros HI Hr. destruct (current st p rest HI Hr) as (r & Hp & Hs & _).
  pose proof (inv_runq _ _ HI) as Hnd. rewrite Hr in Hnd. apply list.NoDup_cons in Hnd as [Hni Hnd].
  unfold release, delrun, currun, set_prog, modify, mbind, ST_bind, of_option. rewrite Hr. cbn. intros [= <-].
  apply (runq_inv st); try done; cbn.
  - intros q. destruct (decide (q = p)) as [->|Hn]; [|left; by rewrite lookup_alter_ne].
    right. exists r, (set_state Prelease r). rewrite lookup_alter_eq, Hp, Hs. unfold blocked. cbn. intuition discriminate.
  - by rewrite Hr.
  - intros q. rewrite Hr. cbn. pose proof (inv_ready _ _ HI q) as Hq. rewrite Hr, elem_of_cons in Hq.
    destruct (decide (q = p)) as [->|Hn].
    + rewrite lookup_alter_eq, Hp. split; [done|]. intros (r' & [= <-] & [=]).
    + rewrite lookup_alter_ne by done. tauto.
Qed.

Lemma acquire_inv st p r st' :
  Inv st -> progs st !! p = Some r -> p_state r = Prelease -> acquire p st = Ok tt st' -> Inv st'.
Proof.
  intros HI Hp Hs [= <-].
  assert (Hni : p ∉ runq st) by (intros (r' & Hr' & Hs')%(inv_ready _ _ HI); congruence).
  apply (runq_inv st); try done; cbn.
  - intros q. destruct (decide (q = p)) as [->|Hn]; [|left; by rewrite lookup_alter_ne].
    right. exists r, (set_state Pready r). rewrite lookup_alter_eq, Hp, Hs. unfold blocked. cbn. intuition discriminate.
  - apply list.NoDup_cons. split; [done|exact (inv_runq _ _ HI)].
  - intros q. rewrite elem_of_cons, (inv_ready _ _ HI q). destruct (decide (q = p)) as [->|Hn].
    + rewrite lookup_alter_eq, Hp. cbn. split; [eauto|]. by left.
    + rewrite lookup_alter_ne by done. tauto.
Qed.

(** ** Steps *)

Definition ends (o : outcome sys unit) (st' : sys) : Prop := o = Ok tt st' \/ exists e, o = Err e st'.

(** What leaves every blocked program as it is: the current program computes,
    makes channels, arrays and alts, and writes its memory; the arrays and alts
    that blocked programs wait with are not written. *)
Record computes (st st' : sys) : Prop := {
  cm_progs : progs st' = progs st;
  cm_chans : forall c, match chans st !! c with
                       | Some ch => chans st' !! c = Some ch
                       | None => chans st' !! c = None \/ exists buf len esz, chans st' !! c = Some (cnewc buf len esz)
                       end;
  cm_alts : forall p r, progs st !! p = Some r -> p_state r = Palt -> alts st' !! p_Rs r = alts st !! p_Rs r;
  cm_arrays : forall p r a x i, progs st !! p = Some r -> p_state r = Palt -> alts st !! p_Rs r = Some a ->
    x ∈ ac_recvs a -> ac_c x = Some (AltArray i) -> arrays st' !! i = arrays st !! i;
  cm_runq : runq st' = runq st;
}.

(** An instruction or a computation of the current program, or an exception or a
    hang-up it sends. *)
Inductive works (st : sys) : sys -> Prop :=
  | WkSend c s st' : (forall k, c = Some k -> is_Some (chans st !! k)) -> ends (isend c s st) st' -> works st st'
  | WkRecv c d st' : (forall k, c = Some k -> is_Some (chans st !! k)) -> ends (irecv c d st) st' -> works st st'
  | WkAlt (block : bool) s d a st' : alts st !! s = Some a -> alt_wf (arrays st) (chans st) a ->
      ends ((if block then alt s d else nbalt s d) st) st' -> works st st'
  | WkException p exc st' : is_Some (progs st !! p) -> ends (exprog p exc st) st' -> works st st'
  | WkRelease st' : ends (release st) st' -> works st st'
  | WkCompute st' : computes st st' -> works st st'.

(** A step of the system: work of the current program, an exception or a hang-up
    sent to any, the end of a turn, the return from the kernel. *)
Inductive step (st : sys) : sys -> Prop :=
  | StWork st' : runq st <> [] -> works st st' -> step st st'
  | StException p exc st' : is_Some (progs st !! p) -> ends (exprog p exc st) st' -> step st st'
  | StGone p st' : is_Some (progs st !! p) -> ends (altgone p st) st' -> step st st'
  | StRotate r st' : ends (rotate r st) st' -> step st st'
  | StAcquire p r st' : progs st !! p = Some r -> p_state r = Prelease -> ends (acquire p st) st' -> step st st'.

Lemma ends_ok o st1 st' : o = Ok tt st1 -> ends o st' -> st' = st1.
Proof. intros -> [[= ->]|[e [=]]]. done. Qed.
Lemma ends_err (o : outcome sys unit) e st1 st' : o = Err e st1 -> ends o st' -> st' = st1.
Proof. intros -> [[=]|[e' [= ->]]]. done. Qed.

Lemma recv_refs_ext arrs arrs' acs :
  (forall x i, x ∈ acs -> ac_c x = Some (AltArray i) -> arrs' !! i = arrs !! i) -> recv_refs arrs' acs = recv_refs arrs acs.
Proof.
  induction acs as [|a acs IH]; intros H; [done|]. rewrite !recv_refs_cons, IH by (intros x i Hx; apply H; by right).
  f_equal. unfold recv_ref. destruct (ac_c a) as [[c|i]|] eqn:Ea; try done.
  by rewrite (lookup_total_alt arrs'), (lookup_total_alt arrs), (H a i) by (done || constructor).
Qed.

Lemma cnewc_ring buf len esz : ring_ok (cnewc buf len esz).
Proof. unfold ring_ok, cnewc, cap. cbn. destruct (Z.ltb_spec 0 len); cbn; lia. Qed.

Lemma computes_inv st st' : Inv st -> computes st st' -> Inv st'.
Proof.
  intros [H1 H2 H3 H4 H5 H6 H7 H8 H9 H10] [Ep Ec El Ea Er].
  assert (Hold : forall c ch, chans st !! c = Some ch -> chans st' !! c = Some ch).
  { intros c ch Hc. specialize (Ec c). by rewrite Hc in Ec. }
  assert (Hnew : forall c ch, chans st' !! c = Some ch -> chans st !! c = Some ch \/
    (chans st !! c = None /\ exists buf len esz, ch = cnewc buf len esz)).
  { intros c ch Hc. specialize (Ec c). destruct (chans st !! c) as [ch0|]; [left; congruence|].
    destruct Ec as [E|(buf & len & esz & E)]; [congruence|]. right. split; [done|]. exists buf, len, esz. congruence. }
  assert (Erf : forall p r a, progs st !! p = Some r -> p_state r = Palt -> alts st !! p_Rs r = Some a ->
    refs (arrays st') a = refs (arrays st) a).
  { intros p r a Hp Hs Ha. unfold refs. f_equal. apply recv_refs_ext. intros x i Hx Hi. by eapply Ea. }
  assert (Ew : forall p, wants st' p = wants st p).
  { intros p. unfold wants. rewrite Ep. destruct (progs st !! p) as [r|] eqn:Hp; [|done].
    destruct (p_state r) eqn:Hs; try done. rewrite (El p r Hp Hs).
    destruct (alts st !! p_Rs r) as [a|] eqn:Ha; [by eapply Erf|done]. }
  assert (Hno : forall p c d, chans st !! c = None -> (d, c) ∉ wants st p).
  { intros p c d Hc Hin. destruct (H2 p d c Hin) as [ch Hch]. congruence. }
  split; unfold waiting_for in *; rewrite ?Ep, ?Er; try done.
  - intros c ch d Hc. destruct (Hnew c ch Hc) as [Hc'|[Hc' (buf & len & esz & ->)]].
    + destruct (H1 c ch d Hc') as (l & E & Hnd & Hl). exists l. split; [done|]. split; [done|]. intros p. rewrite Ew. apply Hl.
    + exists []. split; [by destruct d|]. split; [constructor|]. intros p. rewrite Ew, elem_of_nil.
      specialize (Hno p c d Hc'). tauto.
  - intros p d c. rewrite Ew. intros Hin. destruct (H2 p d c Hin) as [ch Hch]. exists ch. by apply Hold.
  - intros p r Hp Hs. destruct (H3 p r Hp Hs) as (a & Ha & [W1 W2 W3 W4]). exists a. rewrite (El p r Hp Hs). split; [done|].
    pose proof (Erf p r a Hp Hs Ha) as E. split; rewrite ?E; try done.
    + intros x i Hx Hi. rewrite (Ea p r a x i Hp Hs Ha Hx Hi). by eapply W2.
    + intros d c Hin. destruct (W3 d c Hin) as [ch Hch]. exists ch. by apply Hold.
  - intros c ch Hc. destruct (Hnew c ch Hc) as [Hc'|[_ (buf & len & esz & ->)]]; [eauto|apply cnewc_ring].
  - intros p c ch Hc. rewrite Ew. intros Hin. destruct (Hnew c ch Hc) as [Hc'|[Hc' _]]; [eauto|by apply Hno in Hin].
  - intros p c ch Hc. rewrite Ew. intros Hin. destruct (Hnew c ch Hc) as [Hc'|[Hc' _]]; [eauto|by apply Hno in Hin].
  - intros p q c. rewrite !Ew. eauto.
Qed.

Lemma alts_inv st block s d a st' :
  Inv st -> runq st <> [] -> alts st !! s = Some a -> alt_wf (arrays st) (chans st) a ->
  ends (xecalt block s d st) st' -> Inv st'.
Proof.
  intros HI Hr Ha Hwf He. destruct (runq st) as [|p rest] eqn:Er; [done|].
  pose proof (xecalt_step st block s d a p rest HI Er Ha Hwf) as H. destruct (has_nil a).
  - by rewrite (ends_err _ _ _ _ H He).
  - destruct H as (st1 & E & _ & HI'). by rewrite (ends_ok _ _ _ E He).
Qed.

Lemma exception_inv st p r exc st' : Inv st -> progs st !! p = Some r -> ends (exprog p exc st) st' -> Inv st'.
Proof.
  intros HI Hp He. rewrite (ends_ok _ _ _ (exprog_step st p r exc HI Hp) He).
  assert (Hk : p_state (raised exc r) = p_state r) by (unfold raised; by destruct (p_kill r)).
  assert (Hready : ~ blocked (p_state r) -> Inv (with_progs (alter (raised exc) p) st)).
  { intros Hnb. apply (runq_inv st); try done; [|exact (inv_runq _ _ HI)|]; intros q;
      (destruct (decide (q = p)) as [->|Hn]; cbn; [|rewrite lookup_alter_ne by done; first [by left|apply (inv_ready _ _ HI)]]);
      rewrite lookup_alter_eq, Hp; cbn.
    - right. exists r, (raised exc r). by rewrite Hk.
    - rewrite (inv_ready _ _ HI p), Hp. split; (intros (r' & [= <-] & Hr'); eexists; split; [done|]); congruence. }
  unfold blocked in Hready. destruct (p_state r) eqn:Es; try done; try (apply Hready; intuition discriminate).
  all: apply (woken_inv st p r); [done|done|unfold blocked; auto|intros r'; unfold raised; by destruct (p_kill r')].
Qed.

Lemma works_inv st st' : Inv st -> runq st <> [] -> works st st' -> Inv st'.
Proof.
  intros HI Hr [c s st1 Hc He|c d st1 Hc He|block s d a st1 Ha Hwf He|p exc st1 [r Hp] He|st1 He|st1 Hcm].
  - destruct c as [c|]; [|by rewrite (ends_err (isend None s st) exNilref st st1 eq_refl He)].
    destruct (isend_step st c s HI Hr (Hc c eq_refl)) as (st2 & E & _ & HI'). by rewrite (ends_ok _ _ _ E He).
  - destruct c as [c|]; [|by rewrite (ends_err (irecv None d st) exNilref st st1 eq_refl He)].
    destruct (irecv_step st c d HI Hr (Hc c eq_refl)) as (st2 & E & _ & HI'). by rewrite (ends_ok _ _ _ E He).
  - destruct block; [|by apply (alts_inv st false s d a)].
    apply (alts_inv (with_flags (R_IC st) 0 st) true s d a); try done. by eapply Inv_ext; [..|exact HI].
  - by eapply exception_inv.
  - destruct (runq st) as [|p rest] eqn:Er; [done|]. eapply (release_inv st p rest); [done..|].
    destruct He as [E|[e E]]; [done|]. unfold release, delrun, currun, set_prog, modify, mbind, ST_bind, of_option in E.
    by rewrite Er in E.
  - by eapply computes_inv.
Qed.

Lemma step_inv st st' : Inv st -> step st st' -> Inv st'.
Proof.
  intros HI [st1 Hr Hw|p exc st1 [r Hp] He|p st1 [r Hp] He|r st1 He|p r st1 Hp Hs He].
  - by eapply works_inv.
  - by eapply exception_inv.
  - destruct (altgone_step st p r HI Hp) as (st2 & E & HI' & _). by rewrite (ends_ok _ _ _ E He).
  - eapply (rotate_inv st r); [done|]. by destruct He as [E|[e [=]]].
  - eapply (acquire_inv st p r); [done..|]. by destruct He as [E|[e [=]]].
Qed.

(** ** A channel is a queue *)

Definition waiters (d : side) (st : sys) (c : nat) : list nat :=
  match chans st !! c with Some ch => omap id (queue d ch) | None => [] end.















(** ** The theorems *)

(** A system that starts: every channel new, every program ready to run. *)
Record starts (st : sys) : Prop := {
  st_chans : forall c ch, chans st !! c = Some ch -> exists buf len esz, ch = cnewc buf len esz;
  st_progs : forall p r, progs st !! p = Some r -> p_state r = Pready;
  st_runq : forall p, p ∈ runq st <-> is_Some (progs st !! p);
  st_nodup : NoDup (runq st);
}.

Lemma starts_inv st : starts st -> Inv st.
Proof.
  intros [Hc Hp Hr Hnd].
  assert (Hw : forall p, wants st p = []).
  { intros p. unfold wants. destruct (progs st !! p) as [r|] eqn:E; [|done]. by rewrite (Hp p r E). }
  split; unfold waiting_for; try done; try (intros *; rewrite ?Hw, ?elem_of_nil; done).
  - intros c ch d Hch. destruct (Hc c ch Hch) as (buf & len & esz & ->). exists []. split; [by destruct d|].
    split; [constructor|]. intros p. rewrite Hw, !elem_of_nil. tauto.
  - intros p d c. by rewrite Hw, elem_of_nil.
  - intros p r H1 H2. specialize (Hp p r H1). congruence.
  - intros p r H1 H2. specialize (Hp p r H1). destruct H2; congruence.
  - intros c ch Hch. destruct (Hc c ch Hch) as (buf & len & esz & ->). apply cnewc_ring.
  - intros p. rewrite Hr. split; [intros [r H]; eauto|intros (r & H & _); eauto].
Qed.

Lemma elem_waiters st d c p : Inv st -> p ∈ waiters d st c -> waiting_for st p d c.
Proof.
  intros HI. unfold waiters. destruct (chans st !! c) as [ch|] eqn:Hch; [|by rewrite elem_of_nil].
  destruct (inv_queues _ _ HI c ch d Hch) as (l & E & _ & Hl). rewrite E, omap_enc. intros Hp. by apply Hl in Hp as [|[]].
Qed.

(** C8. The scheduler's invariant.  The steps are sends and receives on existing
    channels or nil, alts whose channels exist and none of which is named twice
    (C36 shows what an alt that names one twice can do), exceptions and hang-ups,
    going to the kernel and coming back, the end of a turn, and computations that
    leave the waiting programs as they are; spawn, exit and kill are not among
    them.  From a start, in every state that they lead to: each queue of a channel
    lists exactly the programs blocked on it, each once; a sender waits only at a
    full channel and a receiver only at an empty one, and never both at one
    channel, so nothing that could be communicated is left waiting; a program that
    waits in a send or a receive has its channel and a place for the datum; the
    front and size of every buffer are within it; the run queue lists exactly the
    ready programs, each once. *)
Theorem reachable_inv st st' : starts st -> rtc step st st' -> Inv st'.
Proof.
  intros Hs H. apply starts_inv in Hs. induction H as [|st st1 st' H _ IH]; [done|]. by apply IH, (step_inv st).
Qed.

(** A send or a receive on an existing channel always completes, with one
    of three outcomes: it passes the datum to or from the first program waiting
    on the other side, which runs again and is out of every queue; it goes to or
    comes from the buffer; or the program blocks at the end of the queue.  The
    invariant holds after it.  A nil channel raises an exception and changes
    nothing. *)
Theorem communication st d c ptr :
  Inv st -> runq st <> [] -> (forall k, c = Some k -> is_Some (chans st !! k)) ->
  match c, d with
  | Some k, _ => exists st', comm d k ptr st = Ok tt st' /\ comm_outcome st d k ptr st' /\ Inv st'
  | None, Snd => isend None ptr st = Err exNilref st
  | None, Rcv => irecv None ptr st = Err exNilref st
  end.
Proof.
  intros HI Hr Hc. destruct c as [k|]; [|by destruct d]. destruct d; [by apply isend_step, Hc|by apply irecv_step, Hc].
Qed.

(** C10. An alt over distinct channels, for any of its three outcomes.  It blocks
    (or, when it only polls, gives the number of alternatives) just when no
    alternative is ready; otherwise it carries out one that is ready, the one
    the pseudo-random number picks, never blocks in it, and stores the index of
    that alternative, and for an array of channels the index in the array.  In
    every case it leaves no mark of its own on a queue, and the invariant holds.
    A nil alternative raises an exception and changes nothing. *)
Theorem alternation st block s rd a p rest :
  Inv st -> runq st = p :: rest -> alts st !! s = Some a -> alt_wf (arrays st) (chans st) a ->
  if has_nil a then xecalt block s rd st = Err exNilref st
  else exists st', xecalt block s rd st = Ok tt st' /\ alt_outcome st block a p s rd st' /\ Inv st'.
Proof. apply xecalt_step. Qed.


(** An exception sent to a program that waits on channels (in an alt, a
    send or a receive) takes it out of every queue and puts it last in the run
    queue with the exception, or the one already pending; no memory changes. *)
Theorem exception_wakes st p r exc :
  Inv st -> progs st !! p = Some r -> blocked (p_state r) ->
  exists st' r', exprog p exc st = Ok tt st' /\ Inv st' /\ runq st' = runq st ++ [p] /\
    (forall d c, p ∉ waiters d st' c) /\ progs st' !! p = Some r' /\ p_state r' = Pready /\
    p_kill r' = Some (default exc (p_kill r)) /\ cells st' = cells st.
Proof.
  intros HI Hp Hb. pose proof (exprog_step st p r exc HI Hp) as E. exists (woken st p (raised exc)), (raised exc (set_state Pready r)).
  assert (HI' : Inv (woken st p (raised exc))).
  { apply (woken_inv st p r); try done. intros r'. unfold raised. by destruct (p_kill r'). }
  assert (Hp' : progs (woken st p (raised exc)) !! p = Some (raised exc (set_state Pready r))).
  { unfold woken. cbn. by rewrite !lookup_alter_eq, Hp. }
  assert (Hr : p_state (raised exc (set_state Pready r)) = Pready) by (unfold raised; by destruct (p_kill _)).
  split; [rewrite E; destruct Hb as [->|[->| ->]]; done|]. split; [done|]. split; [done|]. split; [|split; [done|split; [done|split; [|done]]]].
  - intros d c Hin. apply (elem_waiters _ _ _ _ HI') in Hin. unfold waiting_for, wants in Hin. rewrite Hp', Hr in Hin.
    by apply elem_of_nil in Hin.
  - unfold raised. cbn. destruct (p_kill r) eqn:Ek; [by cbn; rewrite Ek|done].
Qed.

(** ** Turns *)

(** The program first in the run queue works until it is not first. *)
Inductive runs (p : nat) : sys -> sys -> Prop :=
  | RunsEnd st : runs p st st
  | RunsOn st st1 st2 : head (runq st) = Some p -> works st st1 -> runs p st1 st2 -> runs p st st2.
(** A turn of the scheduler's loop, and [n] of them. *)
Definition turn (st st' : sys) : Prop :=
  exists p rest st1, runq st = p :: rest /\ runs p st st1 /\ rotate p st1 = Ok tt st'.

(** What work does to the run queue: the program stays or leaves, and others are
    put behind. *)
Definition queue_grows (q q' : list nat) : Prop := exists x, q' = q ++ x \/ q' = tail q ++ x.

Lemma outcome_runq st d c ptr st' : comm_outcome st d c ptr st' -> queue_grows (runq st) (runq st').
Proof.
  destruct d.
  - intros [q r ch l _ _ _ _ _|ch b _ _ _ _|ch p rest l _ _ _ _ _].
    + exists [q]. left. unfold sent_to. cbn. by destruct (removed_same st q r Rcv c) as (_ & _ & _ & -> & _).
    + exists []. left. by rewrite app_nil_r.
    + exists []. right. by rewrite app_nil_r.
  - intros [q r ch l Hch _ _ _ _|ch b _ _ _ _|ch p rest l _ _ _ _ _].
    + destruct (removed_same st q r Snd c) as (Ec & _ & _ & Er & _). exists [q]. left. unfold received_from.
      rewrite Ec, lookup_leaves, Hch. cbn [fmap option_fmap option_map].
      destruct (c_buf (cleaned (wants st q) q c ch)); cbn; by rewrite Er.
    + exists []. left. by rewrite app_nil_r.
    + exists []. right. by rewrite app_nil_r.
Qed.
Lemma alt_runq st block a p s rd st' : alt_outcome st block a p s rd st' -> queue_grows (runq st) (runq st').
Proof.
  intros [_ _|_ _|d c n ptr idx st1 l _ _ H].
  - exists []. right. by rewrite app_nil_r.
  - exists []. left. by rewrite app_nil_r.
  - destruct H as [H|[q H]]; cbn; rewrite H; [exists []|exists [q]]; left; by rewrite ?app_nil_r.
Qed.
Lemma grows_refl q : queue_grows q q.
Proof. exists []. left. by rewrite app_nil_r. Qed.

Lemma xecalt_runq st block s d a st' :
  Inv st -> runq st <> [] -> alts st !! s = Some a -> alt_wf (arrays st) (chans st) a ->
  ends (xecalt block s d st) st' -> queue_grows (runq st) (runq st').
Proof.
  intros HI Hr Ha Hwf He. destruct (runq st) as [|p rest] eqn:Er; [done|]. rewrite <- Er.
  pose proof (xecalt_step st block s d a p rest HI Er Ha Hwf) as H. destruct (has_nil a).
  - rewrite (ends_err _ _ _ _ H He). apply grows_refl.
  - destruct H as (st1 & E & Ho & _). rewrite (ends_ok _ _ _ E He). by eapply alt_runq.
Qed.

Lemma works_runq st st' : Inv st -> runq st <> [] -> works st st' -> queue_grows (runq st) (runq st').
Proof.
  intros HI Hr [c s st1 Hc He|c d st1 Hc He|block s d a st1 Ha Hwf He|p exc st1 [r Hp] He|st1 He|st1 Hcm].
  - destruct c as [c|]; [|rewrite (ends_err (isend None s st) exNilref st st1 eq_refl He); apply grows_refl].
    destruct (isend_step st c s HI Hr (Hc c eq_refl)) as (st2 & E & Ho & _). rewrite (ends_ok _ _ _ E He).
    by apply (outcome_runq st Snd c s).
  - destruct c as [c|]; [|rewrite (ends_err (irecv None d st) exNilref st st1 eq_refl He); apply grows_refl].
    destruct (irecv_step st c d HI Hr (Hc c eq_refl)) as (st2 & E & Ho & _). rewrite (ends_ok _ _ _ E He).
    by apply (outcome_runq st Rcv c d).
  - destruct block; [|by apply (xecalt_runq st false s d a)].
    apply (xecalt_runq (with_flags (R_IC st) 0 st) true s d a); try done. by eapply Inv_ext; [..|exact HI].
  - rewrite (ends_ok _ _ _ (exprog_step st p r exc HI Hp) He).
    destruct (p_state r); try apply grows_refl; (exists [p]; by left).
  - destruct (runq st) as [|p rest] eqn:Er; [done|]. destruct He as [E|[e E]];
      unfold release, delrun, currun, set_prog, modify, mbind, ST_bind, of_option in E; rewrite Er in E; [|done].
    injection E as <-. exists []. right. cbn. by rewrite Er, app_nil_r.
  - rewrite (cm_runq _ _ Hcm). apply grows_refl.
Qed.

Lemma runs_runq p l st st' :
  Inv st -> l <> [] -> p ∉ l -> (exists x, runq st = p :: l ++ x \/ runq st = l ++ x) -> runs p st st' ->
  exists x, runq st' = p :: l ++ x \/ runq st' = l ++ x.
Proof.
  intros HI Hl Hp Hq H. revert HI Hq. induction H as [st|st st1 st2 Hh Hw _ IH]; intros HI Hq; [done|].
  assert (Hr : runq st <> []) by (intros E; by rewrite E in Hh).
  apply IH; [by apply (works_inv st)|]. destruct (works_runq st st1 HI Hr Hw) as [y Hy].
  destruct Hq as [x [E|E]].
  - rewrite E in Hy. destruct Hy as [->| ->]; exists (x ++ y); [left|right]; cbn; by rewrite app_assoc.
  - exfalso. rewrite E in Hh. destruct l as [|z l]; [done|]. injection Hh as ->. apply Hp. constructor.
Qed.

(** A turn takes the first program from before all that wait for theirs. *)
Lemma turn_runq st st' p l :
  Inv st -> runq st = p :: l -> l <> [] -> turn st st' -> exists x, runq st' = l ++ x.
Proof.
  intros HI Hr Hl (p' & rest & st1 & Hr' & Hrun & Hrot). rewrite Hr in Hr'. injection Hr' as <- <-.
  pose proof (inv_runq _ _ HI) as Hnd. rewrite Hr in Hnd. apply list.NoDup_cons in Hnd as [Hni _].
  destruct (runs_runq p l st st1 HI Hl Hni) as [x Hx]; [exists []; left; by rewrite app_nil_r|done|].
  injection Hrot as <-. cbn. destruct Hx as [E|E]; rewrite E; destruct l as [|z l]; try done; cbn [app].
  - rewrite decide_True by done. exists (x ++ [p]). by rewrite app_assoc.
  - assert (p <> z) by (intros ->; apply Hni; constructor). exists x. destruct (l ++ x); [done|]. by rewrite decide_False.
Qed.
Lemma runs_inv p st st' : Inv st -> runs p st st' -> Inv st'.
Proof.
  intros HI H. induction H as [st|st st1 st2 Hh Hw _ IH]; [done|]. apply IH, (works_inv st); [done| |done].
  intros E. by rewrite E in Hh.
Qed.
Lemma turn_inv st st' : Inv st -> turn st st' -> Inv st'.
Proof. intros HI (p & rest & st1 & _ & Hrun & Hrot). eapply rotate_inv; [|done]. by eapply runs_inv. Qed.

(** C32. Every ready program runs: when what the programs do in their turns is of
    the steps of C8 (sends, receives, alts that name no channel twice, exceptions
    they send, going to the kernel and computing, but no spawn, exit or kill), a
    program that is behind [n] others in the run queue is first after [n] turns,
    while no program comes back from the kernel, which goes first. *)
Theorem round_robin n st st' l q l' :
  Inv st -> runq st = l ++ q :: l' -> length l = n -> nsteps turn n st st' -> head (runq st') = Some q.
Proof.
  intros HI Hr <- H. revert st l' HI Hr H. induction l as [|p l IH]; intros st l' HI Hr H; cbn [length] in H; inversion H; subst.
  - by rewrite Hr.
  - match goal with Ht : turn st ?y, Hn : nsteps turn _ ?y _ |- _ =>
      destruct (turn_runq st y p (l ++ q :: l') HI Hr ltac:(by destruct l) Ht) as [x Hx];
      apply (IH y (l' ++ x)); [by eapply turn_inv|by rewrite Hx, <- app_assoc|done] end.
Qed.

(** ** A small system *)

(** An alternative for each of two receives from channel [c]. *)
Definition twice (c : nat) (x y : Z) : Alt := mkAlt 0 2 [mkAltc (Some (AltChan c)) x; mkAltc (Some (AltChan c)) y].

Definition ready_prog : Prog := mkProg Pready None None 0 0 None.
(** Three programs, an unbuffered channel and one with two places; alt 0 sends on
    the first or receives from the second, alt 1 sends on the first or receives
    from either, alt 2 receives from the first twice. *)
Definition demo : sys := mkSys
  {[1%nat := ready_prog; 2%nat := ready_prog; 3%nat := ready_prog]}
  {[0%nat := cnewc 0 0 8; 1%nat := cnewc 1000 2 8]} ∅
  {[0%nat := mkAlt 1 1 [mkAltc (Some (AltChan 0)) 500; mkAltc (Some (AltChan 1)) 600];
    1%nat := mkAlt 1 2 [mkAltc (Some (AltChan 0)) 500; mkAltc (Some (AltChan 0)) 600; mkAltc (Some (AltChan 1)) 650];
    2%nat := twice 0 500 600]}
  [2%nat; 3%nat; 1%nat] (fun a => a) 131906 0 0.
Definition after (c : S unit) (st : sys) : sys := match c st with Ok _ st' => st' | _ => st end.
Definition is_ok {A B} (o : outcome A B) : bool := match o with Ok _ _ => true | _ => false end.
Lemma after_ok (c : S unit) st : is_ok (c st) = true -> c st = Ok tt (after c st).
Proof. unfold after. by destruct (c st) as [[] st'| |]. Qed.
Definition has_chan (c : nat) (st : sys) : bool := match chans st !! c with Some _ => true | None => false end.
Lemma has_chan_ok c st : has_chan c st = true -> forall k, Some c = Some k -> is_Some (chans st !! k).
Proof. unfold has_chan. intros H k [= <-]. destruct (chans st !! c); [eauto|done]. Qed.
Lemma send_works c s st : has_chan c st = true -> is_ok (isend (Some c) s st) = true -> works st (after (isend (Some c) s) st).
Proof. intros H1 H2. apply (WkSend _ (Some c) s); [by apply has_chan_ok|]. left. by apply after_ok. Qed.
Lemma recv_works c d st : has_chan c st = true -> is_ok (irecv (Some c) d st) = true -> works st (after (irecv (Some c) d) st).
Proof. intros H1 H2. apply (WkRecv _ (Some c) d); [by apply has_chan_ok|]. left. by apply after_ok. Qed.
Definition runs_now (st : sys) : bool := match runq st with [] => false | _ => true end.
Lemma work_step st st' : runs_now st = true -> works st st' -> step st st'.
Proof. intros H. apply StWork. unfold runs_now in H. by destruct (runq st). Qed.

Lemma demo_starts : starts demo.
Proof.
  split.
  - intros c ch H. unfold demo in H. cbn [chans] in H. apply lookup_insert_Some in H as [[_ <-]|[_ H]]; [by eexists _, _, _|].
    apply lookup_singleton_Some in H as [_ <-]. by eexists _, _, _.
  - intros p r H. unfold demo in H. cbn [progs] in H. repeat apply lookup_insert_Some in H as [[_ <-]|[_ H]]; try done.
    apply lookup_singleton_Some in H as [_ <-]. done.
  - intros p. unfold demo. cbn [progs runq]. rewrite !lookup_insert_is_Some', lookup_singleton_is_Some, !elem_of_cons, elem_of_nil.
    intuition congruence.
  - apply (bool_decide_unpack _). vm_compute. exact I.
Qed.
Lemma demo_inv : Inv demo.
Proof. apply starts_inv, demo_starts. Qed.
Lemma demo_alt_wf : alt_wf (arrays demo) (chans demo) (mkAlt 1 1 [mkAltc (Some (AltChan 0)) 500; mkAltc (Some (AltChan 1)) 600]).
Proof.
  split.
  - done.
  - intros a i Ha. apply list_elem_of_singleton in Ha as ->. done.
  - intros d c H. apply elem_of_cons in H as [[= -> ->]|H]; [by eexists|]. apply list_elem_of_singleton in H as [= -> ->]. by eexists.
  - apply (bool_decide_unpack _). vm_compute. exact I.
Qed.

(** ** Two alts the check of alt.c does not catch *)

(** An alt that receives twice from one channel, idle and with nobody
    waiting, faults when it only polls: the first pass lists the program twice,
    cqdelp removes both at the first alternative and leaves a nil queue, which
    the second dereferences. *)
Theorem alt_twice_faults st s rd c ch x y p rest :
  runq st = p :: rest -> alts st !! s = Some (twice c x y) -> chans st !! c = Some ch ->
  c_send ch = [None] -> c_recv ch = [None] -> CANGET ch = false -> nbalt s rd st = Fault.
Proof.
  intros Hr Ha Hch Hs Hv Hg.
  set (ch1 := set_queue Rcv (enc [p]) ch). set (st1 := with_chans (insert c ch1) st).
  set (ch2 := set_queue Rcv (enc [p; p]) ch). set (st2 := with_chans (insert c ch2) st1).
  assert (Hready : forall st ch, chans st !! c = Some ch -> c_send ch = enc [] -> CANGET ch = false -> ready Rcv c st = Ok false st).
  { intros st' ch' H1 H2 H3. unfold ready. rewrite (bind_ok _ _ None st' st') by by apply (waiting_ok Snd c ch' []).
    rewrite (bind_ok _ _ _ _ _ (chan_ok _ _ _ H1)). by rewrite H3. }
  assert (H1 : chans st1 !! c = Some ch1) by apply lookup_insert_eq.
  assert (H2 : chans st2 !! c = Some ch2) by apply lookup_insert_eq.
  assert (E : altrdy (twice c x y) p st = Ok 0 st2).
  { unfold altrdy. rewrite (bind_ok _ _ (0, None) st st2); [done|].
    change (ac_recvs (twice c x y)) with [mkAltc (Some (AltChan c)) x; mkAltc (Some (AltChan c)) y]. cbn [altrdy_recvs ac_c].
    rewrite (bind_ok _ _ _ _ _ (Hready st ch Hch Hs Hg)).
    rewrite (bind_ok _ _ tt st st1) by (apply on_queue_ok; [done|cbn; by rewrite Hv]).
    rewrite (bind_ok _ _ _ _ _ (Hready st1 ch1 H1 Hs Hg)).
    by rewrite (bind_ok _ _ tt st1 st2) by by apply (on_queue_ok Rcv c _ ch1). }
  unfold nbalt, xecalt. rewrite (bind_ok _ _ p st st) by (unfold currun; by rewrite Hr).
  rewrite (bind_ok _ _ _ _ _ (alt_ok_of _ _ _ Ha)), (bind_ok _ _ _ _ _ E). cbn [Z.eqb].
  set (st3 := with_cells (poke_cell rd 2) st2). set (st4 := with_chans (insert c (set_queue Rcv [] ch2)) st3).
  rewrite (bind_ok _ _ tt st2 st3) by done. unfold altdone.
  change (ac_recvs (twice c x y)) with [mkAltc (Some (AltChan c)) x; mkAltc (Some (AltChan c)) y].
  rewrite (bind_ok _ _ (0, None) st3 st3) by done. cbn [altdone_recvs ac_c].
  assert (El : altleave Rcv c p st3 = Ok tt st4).
  { unfold altleave. rewrite (bind_ok _ _ (Some p) st3 st3) by by apply (waiting_ok Rcv c ch2 [p; p]).
    apply on_queue_ok; [done|]. apply cqdelp_twice. }
  rewrite (bind_ok _ _ _ _ _ El). cbn [Z.eqb andb]. unfold altleave, waiting, mbind, ST_bind.
  by rewrite (chan_ok c (set_queue Rcv [] ch2) st4) by apply lookup_insert_eq.
Qed.

Definition self1 : sys := after (irecv (Some 0%nat) 700) demo.
Definition self2 : sys := after (isend (Some 1%nat) 800) self1.
Definition self3 : sys := after (rotate 3) self2.
Lemma self_steps : rtc step demo self3.
Proof.
  apply (rtc_l _ _ self1), (rtc_l _ _ self2), rtc_once, (StRotate _ 3);
    [apply work_step; [vm_compute; reflexivity|]..|left; by apply after_ok].
  - apply (recv_works 0%nat 700 demo); vm_compute; reflexivity.
  - apply (send_works 1%nat 800 self1); vm_compute; reflexivity.
Qed.

(** An alt that sends on [c], and receives from [c] or from [c1]. *)
Definition both (c c1 : nat) (x y z : Z) : Alt :=
  mkAlt 1 2 [mkAltc (Some (AltChan c)) x; mkAltc (Some (AltChan c)) y; mkAltc (Some (AltChan c1)) z].
Lemma ready_rcv st c ch l : chans st !! c = Some ch -> c_send ch = enc l ->
  ready Rcv c st = Ok (bool_decide (head l <> None) || CANGET ch) st.
Proof.
  intros Hc E. unfold ready. rewrite (bind_ok _ _ (head l) st st) by by apply (waiting_ok Snd c ch l).
  by rewrite (bind_ok _ _ _ _ _ (chan_ok _ _ _ Hc)).
Qed.
Lemma ready_snd st c ch l : chans st !! c = Some ch -> c_recv ch = enc l ->
  ready Snd c st = Ok (bool_decide (head l <> None) || CANPUT ch) st.
Proof.
  intros Hc E. unfold ready. rewrite (bind_ok _ _ (head l) st st) by by apply (waiting_ok Rcv c ch l).
  by rewrite (bind_ok _ _ _ _ _ (chan_ok _ _ _ Hc)).
Qed.

(** The running program found as the sender: it has no datum. *)
Lemma irecv_self st c ch p r l d :
  chans st !! c = Some ch -> c_buf ch = None -> c_send ch = enc (p :: l) ->
  progs st !! p = Some r -> p_state r = Pready -> p_ptr r = None -> irecv (Some c) d st = Fault.
Proof.
  intros Hc Hb Hs Hp Hr Hn. unfold irecv. rewrite (bind_ok _ _ (Some p) st st) by by apply (waiting_ok Snd c ch (p :: l)).
  set (st1 := with_chans (insert c (set_queue Snd (enc l) ch)) st).
  rewrite (bind_ok _ _ tt st st1) by (apply on_queue_ok; [done|]; cbn; by rewrite Hs, cqdel_enc).
  assert (Hp1 : prog p st1 = Ok r st1) by by apply prog_ok.
  rewrite (bind_ok _ _ tt st1 st1) by (unfold unalt; rewrite (bind_ok _ _ _ _ _ Hp1); by rewrite decide_False by congruence).
  rewrite (bind_ok _ _ _ _ _ Hp1). rewrite (bind_ok _ _ (set_queue Snd (enc l) ch) st1 st1) by (apply chan_ok, lookup_insert_eq).
  cbn [c_buf set_queue]. rewrite Hb, Hn. done.
Qed.

(** The first pass counts the send and the third alternative, and lists the
    program as a sender. *)
Lemma both_altrdy st c c1 ch ch1 x y z p q l l1 :
  c <> c1 -> chans st !! c = Some ch -> c_size ch = 0 -> c_send ch = enc [] -> c_recv ch = enc (q :: l) -> q <> p ->
  chans st !! c1 = Some ch1 -> c_send ch1 = enc [] -> c_recv ch1 = enc l1 -> 0 < c_size ch1 ->
  let chs := set_queue Snd (enc [p]) (set_queue Rcv (enc ((q :: l) ++ [p])) ch) in
  exists st', altrdy (both c c1 x y z) p st = Ok 2 st' /\ chans st' !! c = Some chs /\ progs st' = progs st /\ xrand st' = xrand st.
Proof.
  intros Hne Hc Hsz Hs Hv Hq Hc1 Hs1 Hv1 Hg chs.
  set (chr := set_queue Rcv (enc ((q :: l) ++ [p])) ch) in *. set (st1 := with_chans (insert c chr) st).
  set (ch1r := set_queue Rcv (enc (l1 ++ [p])) ch1). set (st2 := with_chans (insert c1 ch1r) st1).
  set (st3 := with_chans (insert c chs) st2).
  assert (H1 : chans st1 !! c1 = Some ch1) by (cbn; by rewrite lookup_insert_ne).
  assert (H2 : chans st2 !! c = Some chr) by (cbn; rewrite lookup_insert_ne by done; apply lookup_insert_eq).
  assert (H3 : chans st3 !! c = Some chs) by apply lookup_insert_eq.
  assert (Hg1 : CANGET ch = false /\ CANGET ch1 = true) by (unfold CANGET; split; lia).
  exists st3. split; [|done].
  unfold altrdy. change (ac_recvs (both c c1 x y z)) with [mkAltc (Some (AltChan c)) y; mkAltc (Some (AltChan c1)) z].
  change (ac_sends (both c c1 x y z)) with [mkAltc (Some (AltChan c)) x]. cbn [altrdy_recvs altrdy_sends ac_c].
  rewrite (bind_ok _ _ (1, None) st st2).
  - cbn beta iota. rewrite (bind_ok _ _ (2, None) st2 st3); [done|]. rewrite (bind_ok _ _ _ _ _ (ready_snd st2 c chr ((q :: l) ++ [p]) H2 eq_refl)).
    rewrite (bind_ok (waiting Rcv c) _ _ _ _ (waiting_ok Rcv c chr ((q :: l) ++ [p]) st2 H2 eq_refl)).
    rewrite (bool_decide_eq_false_2 (Some q = Some p)), andb_false_r by (cbn; congruence).
    by rewrite (bind_ok _ _ tt st2 st3) by (apply on_queue_ok; [done|]; cbn; by rewrite Hs).
  - rewrite (bind_ok _ _ _ _ _ (ready_rcv st c ch [] Hc Hs)), (proj1 Hg1).
    rewrite (bind_ok _ _ tt st st1) by (apply on_queue_ok; [done|]; cbn [queue]; by rewrite Hv, cqadd_enc).
    rewrite (bind_ok _ _ _ _ _ (ready_rcv st1 c1 ch1 [] H1 Hs1)), (proj2 Hg1).
    by rewrite (bind_ok _ _ tt st1 st2) by (apply on_queue_ok; [done|]; cbn [queue]; by rewrite Hv1, cqadd_enc).
Qed.

(** C36. The check of alt for a send and a receive on one channel compares only
    the first receiver with the program.  With another program waiting first it
    passes; the second pass then counts the program itself as a sender, and when
    the third alternative is a channel with data and [xrand>>8] comes out odd it
    receives from itself: it copies from its own [ptr], which is nil, a fault. *)
Theorem alt_self_receive st s rd c c1 ch ch1 x y z p r q l l1 rest :
  runq st = p :: rest -> progs st !! p = Some r -> p_state r = Pready -> p_ptr r = None ->
  alts st !! s = Some (both c c1 x y z) -> c <> c1 ->
  chans st !! c = Some ch -> c_buf ch = None -> c_size ch = 0 -> c_send ch = enc [] -> c_recv ch = enc (q :: l) -> q <> p ->
  chans st !! c1 = Some ch1 -> c_send ch1 = enc [] -> c_recv ch1 = enc l1 -> 0 < c_size ch1 ->
  Z.shiftr (u64 (xrand st * 1103515245 + 12345)) 8 mod 2 = 1 ->
  alt s rd st = Fault.
Proof.
  intros Hr Hp Hst Hptr Ha Hne Hc Hb Hsz Hs Hv Hq Hc1 Hs1 Hv1 Hg Hx. set (st0 := with_flags (R_IC st) 0 st).
  destruct (both_altrdy st0 c c1 ch ch1 x y z p q l l1 Hne Hc Hsz Hs Hv Hq Hc1 Hs1 Hv1 Hg) as (st3 & E & H3 & Eps & Ex).
  set (chs := set_queue Snd (enc [p]) _) in H3.
  unfold alt, xecalt. rewrite (bind_ok _ _ tt st st0) by done. assert (Ecur : currun st0 = Ok p st0) by (unfold currun; cbn; by rewrite Hr).
  rewrite (bind_ok _ _ _ _ _ Ecur). rewrite (bind_ok _ _ _ _ _ (alt_ok_of s _ st0 Ha)), (bind_ok _ _ _ _ _ E). cbn [Z.eqb].
  set (st4 := with_xrand (u64 (xrand st3 * 1103515245 + 12345)) st3). rewrite (bind_ok _ _ tt st3 st4) by done.
  rewrite (bind_ok _ _ (xrand st4) st4 st4) by done. change (xrand st4) with (u64 (xrand st3 * 1103515245 + 12345)). rewrite Ex. cbn [xrand st0 with_flags]. rewrite Hx.
  assert (Ec : altcomm (both c c1 x y z) rd 1 st4 = Fault); [|unfold mbind, ST_bind; by rewrite Ec].
  unfold altcomm. change (ac_recvs (both c c1 x y z)) with [mkAltc (Some (AltChan c)) y; mkAltc (Some (AltChan c1)) z].
  change (ac_sends (both c c1 x y z)) with [mkAltc (Some (AltChan c)) x]. cbn [altcomm_sends altcomm_recvs ac_c].
  rewrite (bind_ok _ _ (1, Some 0) st4 st4) by (by rewrite (bind_ok _ _ _ _ _ (ready_snd st4 c chs ((q :: l) ++ [p]) H3 eq_refl))).
  rewrite (bind_ok _ _ _ _ _ (ready_rcv st4 c chs [p] H3 eq_refl)).
  change ((poke rd 1;; irecv (Some c) y) st4 = Fault). set (st5 := with_cells (poke_cell rd 1) st4).
  rewrite (bind_ok _ _ tt st4 st5) by done. apply (irecv_self st5 c chs p r [] y); try done. cbn. by rewrite Eps.
Qed.

(** ** Witnesses *)

Lemma self1_inv : Inv self1.
Proof.
  apply (step_inv demo); [exact demo_inv|]. apply work_step; [vm_compute; reflexivity|].
  apply (recv_works 0%nat 700 demo); vm_compute; reflexivity.
Qed.

Lemma reachable_inv_witness : starts demo /\ rtc step demo self3 /\ Inv self3.
Proof.
  split; [exact demo_starts|]. split; [exact self_steps|]. exact (reachable_inv demo self3 demo_starts self_steps).
Defined.

Lemma communication_witness :
  Inv demo /\ exists st', comm Rcv 0%nat 700 demo = Ok tt st' /\ comm_outcome demo Rcv 0%nat 700 st' /\ Inv st'.
Proof.
  split; [exact demo_inv|]. apply (communication demo Rcv (Some 0%nat) 700 demo_inv); [done|].
  apply has_chan_ok. vm_compute. reflexivity.
Defined.

Lemma alternation_witness :
  Inv demo /\ exists st', xecalt true 0 900 demo = Ok tt st' /\
    alt_outcome demo true (mkAlt 1 1 [mkAltc (Some (AltChan 0)) 500; mkAltc (Some (AltChan 1)) 600]) 2 0 900 st' /\ Inv st'.
Proof.
  split; [exact demo_inv|].
  exact (alternation demo true 0 900 _ 2 [3%nat; 1%nat] demo_inv eq_refl eq_refl demo_alt_wf).
Defined.

Lemma alt_self_receive_witness : starts demo /\ rtc step demo self3 /\ alt 1 900 self3 = Fault.
Proof.
  split; [exact demo_starts|]. split; [exact self_steps|].
  apply (alt_self_receive self3 1 900 0 1 (mkChannel None [None] [Some 2%nat] 0 0) (mkChannel (Some (mkBuf 1000 2 8)) [None] [None] 0 1)
    500 600 650 1 ready_prog 2 [] [] [3%nat]); vm_compute; first [reflexivity|discriminate].
Defined.


Lemma exception_wakes_witness :
  Inv self1 /\ exists st' r', exprog 2 "interrupted" self1 = Ok tt st' /\ Inv st' /\ runq st' = [3%nat; 1%nat; 2%nat] /\
    (forall d c, 2%nat ∉ waiters d st' c) /\ progs st' !! 2%nat = Some r' /\ p_state r' = Pready /\
    p_kill r' = Some "interrupted"%string /\ cells st' = cells self1.
Proof.
  split; [exact self1_inv|].
  apply (exception_wakes self1 2 (mkProg Precv (Some 700) (Some 0%nat) 0 0 None) "interrupted" self1_inv).
  - vm_compute. reflexivity.
  - right. right. reflexivity.
Defined.

Lemma demo_turn : turn demo self1.
Proof.
  exists 2%nat, [3%nat; 1%nat], self1. split; [done|]. split; [|vm_compute; reflexivity].
  apply (RunsOn _ _ self1); [done| |apply RunsEnd]. apply (recv_works 0%nat 700 demo); vm_compute; reflexivity.
Qed.
Lemma round_robin_witness : Inv demo /\ runq demo = [2%nat] ++ 3%nat :: [1%nat] /\ nsteps turn 1 demo self1 /\ head (runq self1) = Some 3%nat.
Proof.
  assert (H : nsteps turn 1 demo self1) by (apply nsteps_once, demo_turn).
  split; [exact demo_inv|]. split; [reflexivity|]. split; [exact H|].
  apply (round_robin 1 demo self1 [2%nat] 3 [1%nat] demo_inv); [reflexivity|reflexivity|exact H].
Defined.

Lemma alt_twice_faults_witness : runq demo = [2%nat; 3%nat; 1%nat] /\ alts demo !! 2%nat = Some (twice 0 500 600) /\ nbalt 2 900 demo = Fault.
Proof.
  split; [reflexivity|]. split; [reflexivity|].
  apply (alt_twice_faults demo 2 900 0 (cnewc 0 0 8) 500 600 2 [3%nat; 1%nat]); reflexivity.
Defined.
