(* ===== verification/Pool.v ===== *)
(** * The pool allocator (emu/port/alloc.c)

    A pool is a chain of arenas, each the list of its blocks in address order
    from its leader to the header at its limit, and a tree of its free blocks by
    size; the node of a size is a ring of the blocks of that size.  A C pointer to
    a free block in the ring or the tree is here its address and its size, the
    pointers to the parent are the path from the root, and the tail word by which
    poolfree finds the block before is the order of the list.

    Left out are locks, monitors, statistics, blocks made immutable, the
    compaction of image pools and pools of other quanta; the size of a block made
    the end of an arena is that which the memory has there, which nothing reads. *)

From S2P Require Import Prelude.

(** ** Blocks, arenas and the tree *)

Inductive Magic : Type := MAGIC_A | MAGIC_F | MAGIC_E.
#[export] Instance Magic_dec : EqDecision Magic.
Proof. solve_decision. Defined.
Record Bhdr : Type := mkBhdr { b_addr : Z; b_size : Z; b_magic : Magic }.
#[export] Instance Bhdr_dec : EqDecision Bhdr.
Proof. solve_decision. Defined.

Definition sizeof_Bhdr : Z := 32.
Definition BHDRSIZE : Z := sizeof_Bhdr + 8.
Definition B2D (b : Z) : Z := b + sizeof_Bhdr.
Definition D2B (v : Z) : Z := v - sizeof_Bhdr.
(** The field quanta, one less than what sizes are multiples of, and chunk. *)
Definition pool_quanta : Z := 127.
Definition chunk : Z := 512 * 1024.

Inductive tree : Type :=
| Leaf
| Node (left : tree) (size : Z) (ring : list Z) (right : tree).

Record stat : Type := mkStat {
  root : tree;
  cursize : Z;
  arenasize : Z;
  maxsize : Z;
  ressize : Z;
}.
Definition with_root (t : tree) (st : stat) : stat := mkStat t (cursize st) (arenasize st) (maxsize st) (ressize st).
Definition with_cursize (f : Z -> Z) (st : stat) : stat := mkStat (root st) (f (cursize st)) (arenasize st) (maxsize st) (ressize st).
Definition with_arenasize (f : Z -> Z) (st : stat) : stat := mkStat (root st) (cursize st) (f (arenasize st)) (maxsize st) (ressize st).
Record Pool : Type := mkPool { arenas : list (list Bhdr); pst : stat }.

(** ** The tree *)

(** A block of a size that is there joins the ring behind all others. *)
Fixpoint pooladd (t : tree) (a size : Z) : tree :=
  match t with
  | Leaf => Node Leaf size [a] Leaf
  | Node l s ring r =>
      if size =? s then Node l s (ring ++ [a]) r
      else if size <? s then Node (pooladd l a size) s ring r
      else Node l s ring (pooladd r a size)
  end.

(** The leftmost node, and the tree without it. *)
Fixpoint take_left (l : tree) (s : Z) (ring : list Z) (r : tree) : Z * list Z * tree :=
  match l with
  | Leaf => (s, ring, r)
  | Node l1 s1 ring1 r1 => let '(m, t) := take_left l1 s1 ring1 r1 in (m, Node t s ring r)
  end.
(** What takes the place of a node. *)
Definition join (l r : tree) : tree :=
  match l, r with
  | Leaf, _ => r
  | _, Leaf => l
  | _, Node rl rs rring rr => let '(s, ring, t) := take_left rl rs rring rr in Node l s ring t
  end.
Fixpoint pooldel (t : tree) (a size : Z) : tree :=
  match t with
  | Leaf => Leaf
  | Node l s ring r =>
      if size =? s then
        match filter (fun x => x <> a) ring with
        | [] => join l r
        | ring => Node l s ring r
        end
      else if size <? s then Node (pooldel l a size) s ring r
      else Node l s ring (pooldel r a size)
  end.

(** The search of dopoolalloc: [t->fwd] of a node of the size, or the node
    itself of the least size above. *)
Fixpoint search (t : tree) (size : Z) (q : option (Z * Z)) : option (Z * Z) :=
  match t with
  | Leaf => q
  | Node l s ring r =>
      if s =? size then
        match ring with
        | [] => None
        | [a] => Some (a, s)
        | _ :: b :: _ => Some (b, s)
        end
      else if size <? s then search l size (match ring with [] => None | a :: _ => Some (a, s) end)
      else search r size q
  end.

(** ** Freeing *)

(** poolfree joins a block with its free neighbours, and moves the collector's
    cursor off a block that ceases to be one. *)
Definition join_forward (b : Bhdr) (l : list Bhdr) (p : Z) (t : tree) : Bhdr * list Bhdr * Z * tree :=
  match l with
  | c :: l' =>
      if decide (b_magic c = MAGIC_F)
      then (mkBhdr (b_addr b) (b_size b + b_size c) (b_magic b), l', if p =? b_addr c then b_addr b else p, pooldel t (b_addr c) (b_size c))
      else (b, l, p, t)
  | [] => (b, l, p, t)
  end.
Fixpoint arena_free (l : list Bhdr) (a p : Z) (t : tree) : list Bhdr * Z * tree :=
  match l with
  | c :: ((b :: rest) as tl) =>
      if b_addr b =? a then
        let '(b, rest, p, t) := join_forward b rest p t in
        if decide (b_magic c = MAGIC_F)
        then
          let size := b_size c + b_size b in
          (mkBhdr (b_addr c) size MAGIC_F :: rest, if p =? b_addr b then b_addr c else p, pooladd (pooldel t (b_addr c) (b_size c)) (b_addr c) size)
        else (c :: mkBhdr (b_addr b) (b_size b) MAGIC_F :: rest, p, pooladd t (b_addr b) (b_size b))
      else let '(tl, p, t) := arena_free tl a p t in (c :: tl, p, t)
  | _ => (l, p, t)
  end.
Definition has_block (l : list Bhdr) (a : Z) : bool := existsb (fun b => b_addr b =? a) l.
Fixpoint chain_free (ch : list (list Bhdr)) (a p : Z) (t : tree) : list (list Bhdr) * Z * tree :=
  match ch with
  | [] => ([], p, t)
  | l :: ch =>
      if has_block l a then let '(l, p, t) := arena_free l a p t in (l :: ch, p, t)
      else let '(ch, p, t) := chain_free ch a p t in (l :: ch, p, t)
  end.
Definition block_size (ch : list (list Bhdr)) (a : Z) : Z :=
  match find (fun b => b_addr b =? a) (concat ch) with Some b => b_size b | None => 0 end.
(** The pool and the cursor after [poolfree(p, v)]. *)
Definition poolfree (P : Pool) (v p : Z) : Pool * Z :=
  let a := D2B v in
  let '(ch, p, t) := chain_free (arenas P) a p (root (pst P)) in
  (mkPool ch (with_root t (with_cursize (fun n => n - block_size (arenas P) a) (pst P))), p).

(** ** Allocating *)

Definition round_size (asize : Z) : Z := Z.land (asize + BHDRSIZE + pool_quanta) (Z.lnot pool_quanta).

(** The block at [a] put in use, and split when what is over is worth a block. *)
Definition splits (s size : Z) : bool := negb ((s - size <? Z.shiftr size 2) && (s - size <? 32768)).
Definition take (s size a : Z) : list Bhdr :=
  if splits s size then [mkBhdr a size MAGIC_A; mkBhdr (a + size) (s - size) MAGIC_F] else [mkBhdr a s MAGIC_A].
Definition chain_take (ch : list (list Bhdr)) (a size : Z) : list (list Bhdr) :=
  (fun l => l ≫= fun b => if b_addr b =? a then take (b_size b) size a else [b]) <$> ch.
Definition alloc_found (P : Pool) (a s size : Z) : Pool :=
  let st := with_root (pooldel (root (pst P)) a s) (pst P) in
  let ch := chain_take (arenas P) a size in
  if splits s size
  then mkPool ch (with_cursize (fun n => n + size) (with_root (pooladd (root st) (a + size) (s - size)) st))
  else mkPool ch (with_cursize (fun n => n + s) st).

(** A new arena at [t]; [garbage] is the word of the size at its limit. *)
Definition new_arena (P : Pool) (t ns size garbage : Z) : Pool :=
  let ldr := pool_quanta + 1 in
  let a := t + ldr in
  let l := [mkBhdr t ldr MAGIC_E; mkBhdr a size MAGIC_A] in
  let st := with_cursize (fun n => n + size) (pst P) in
  if 0 <? ns - size
  then mkPool ((l ++ [mkBhdr (a + size) (ns - size) MAGIC_F; mkBhdr (a + ns) garbage MAGIC_E]) :: arenas P)
         (with_root (pooladd (root st) (a + size) (ns - size)) st)
  else mkPool ((l ++ [mkBhdr (a + ns) garbage MAGIC_E]) :: arenas P) st.
(** The head arena up to the area at its limit, as one block in use. *)
Fixpoint extend_arena (l : list Bhdr) (alloc garbage : Z) : list Bhdr :=
  match l with
  | [] => []
  | [e] => [mkBhdr (b_addr e) alloc MAGIC_A; mkBhdr (b_addr e + alloc) garbage MAGIC_E]
  | b :: l => b :: extend_arena l alloc garbage
  end.
Definition arena_limit (l : list Bhdr) : Z := match list.last l with Some b => b_addr b | None => 0 end.
Definition extend (P : Pool) (alloc garbage : Z) : Pool :=
  match arenas P with
  | [] => P
  | l :: ch => mkPool (extend_arena l alloc garbage :: ch) (with_cursize (fun n => n + alloc) (pst P))
  end.

(** How much a new arena is to have for blocks; heapmem is not compacted. *)
Definition new_size (st : stat) (size : Z) : option Z :=
  let ldr := pool_quanta + 1 in
  let ns := Z.max chunk size in
  if maxsize st <? arenasize st + (ns + ldr + ldr) then
    let ns := Z.land (maxsize st - arenasize st - ldr - ldr) (Z.lnot pool_quanta) in
    if ns <? size then None else Some ns
  else Some ns.

(** [brk] is what the host gives, an address for a number of bytes; the state
    has the pool and the cursor of the collector. *)
Section Alloc.
Variable brk : Z -> option Z.
Variable garbage : Z.

Fixpoint poolalloc (fuel : nat) (restricted : bool) (asize : Z) : ST (Pool * Z) (option Z) :=
  P ← gets fst;
  if (ressize (pst P) <? cursize (pst P)) && restricted then mret None
  else if 1024 * 1024 * 1024 <=? asize then mret None
  else
    let size := round_size asize in
    match search (root (pst P)) size None with
    | Some (a, s) =>
        modify (fun st => (alloc_found st.1 a s size, st.2));;
        mret (Some (B2D a))
    | None =>
        match new_size (pst P) size with
        | None => mret None
        | Some ns =>
            let ldr := pool_quanta + 1 in
            let alloc := ns + ldr + ldr in
            modify (fun st => (mkPool (arenas st.1) (with_arenasize (fun n => n + alloc) (pst st.1)), st.2));;
            match brk alloc with
            | None => mret None
            | Some t =>
                let t := Z.land (t + 7) (Z.lnot 7) in
                match arenas P with
                | l :: _ =>
                    if t - arena_limit l - ldr =? 0 then
                      match fuel with
                      | O => fault
                      | S fuel =>
                          modify (fun st => (extend st.1 alloc garbage, st.2));;
                          modify (fun st => poolfree st.1 (B2D (arena_limit l)) st.2);;
                          poolalloc fuel restricted asize
                      end
                    else modify (fun st => (new_arena st.1 t ns size garbage, st.2));; mret (Some (B2D (t + ldr)))
                | [] => modify (fun st => (new_arena st.1 t ns size garbage, st.2));; mret (Some (B2D (t + ldr)))
                end
            end
        end
    end.
End Alloc.

(** poolmsize, and poolmax without its lock. *)
Definition poolmsize (P : Pool) (v : Z) : Z := if v =? 0 then 0 else block_size (arenas P) (D2B v) - BHDRSIZE.
Fixpoint rightmost (t : tree) : Z :=
  match t with
  | Leaf => 0
  | Node _ s _ Leaf => s
  | Node _ _ _ r => rightmost r
  end.
Definition poolmax (P : Pool) : Z :=
  let size := (maxsize (pst P) - cursize (pst P)) mod M64 in
  let size := match root (pst P) with Leaf => size | t => if size <? rightmost t then rightmost t else size end in
  if BHDRSIZE <=? size then size - BHDRSIZE else size.

(** poolrealloc but for the bytes it copies. *)
Definition poolrealloc (brk : Z -> option Z) (garbage : Z) (fuel : nat) (restricted : bool) (v size : Z) : ST (Pool * Z) (option Z) :=
  if 1024 * 1024 * 1024 <=? size then mret None
  else if size =? 0 then
    if v =? 0 then fault else modify (fun st => poolfree st.1 v st.2);; mret None
  else
    P ← gets fst;
    if negb (v =? 0) && (size <=? block_size (arenas P) (D2B v) - BHDRSIZE) then mret (Some v)
    else
      nv ← poolalloc brk garbage fuel restricted size;
      (match nv with
       | Some _ => if v =? 0 then mret tt else modify (fun st => poolfree st.1 v st.2)
       | None => mret tt
       end);;
      mret nv.

(** ** The tree as a set of blocks *)

Fixpoint elements (t : tree) : list (Z * Z) :=
  match t with
  | Leaf => []
  | Node l s ring r => elements l ++ ((fun a => (a, s)) <$> ring) ++ elements r
  end.
(** Sizes in order, and no node without a block. *)
Fixpoint bst (t : tree) : Prop :=
  match t with
  | Leaf => True
  | Node l s ring r =>
      ring <> [] /\ bst l /\ bst r /\ (forall x, x ∈ elements l -> x.2 < s) /\ (forall x, x ∈ elements r -> s < x.2)
  end.

Lemma elem_node x l s ring r :
  x ∈ elements (Node l s ring r) <-> x ∈ elements l \/ (x.1 ∈ ring /\ x.2 = s) \/ x ∈ elements r.
Proof.
  cbn [elements]. rewrite !elem_of_app, list_elem_of_fmap. split.
  - intros [?|[(a & -> & Ha)|?]]; auto.
  - destruct x as [a s']. cbn [fst snd]. intros [?|[[? ->]|?]]; eauto 6.
Qed.
Lemma pooladd_elements t a s : elements (pooladd t a s) ≡ₚ (a, s) :: elements t.
Proof.
  induction t as [|l IHl s0 ring r IHr]; [done|]. cbn [pooladd]. destruct (Z.eqb_spec s s0) as [->|]; [|destruct (s <? s0)]; cbn [elements].
  - rewrite fmap_app. cbn [fmap list_fmap]. rewrite <- !app_assoc. cbn [app]. rewrite <- !Permutation_middle. done.
  - by rewrite IHl.
  - rewrite IHr. by rewrite <- !Permutation_middle.
Qed.
Lemma elem_pooladd x t a s : x ∈ elements (pooladd t a s) <-> x = (a, s) \/ x ∈ elements t.
Proof. by rewrite pooladd_elements, elem_of_cons. Qed.
Lemma pooladd_bst t a s : bst t -> bst (pooladd t a s).
Proof.
  induction t as [|l IHl s0 ring r IHr]; cbn [pooladd].
  - intros _. cbn. repeat split; try done; by intros x ?%elem_of_nil.
  - intros (H1 & H2 & H3 & H4 & H5). destruct (Z.eqb_spec s s0) as [->|Hn]; [|destruct (Z.ltb_spec s s0)]; cbn [bst].
    + split; [by destruct ring|done].
    + split; [done|]. split; [auto|]. split; [done|]. split; [|done]. intros x [->|Hx]%elem_pooladd; [done|auto].
    + split; [done|]. split; [done|]. split; [auto|]. split; [done|]. intros x [->|Hx]%elem_pooladd; [cbn; lia|auto].
Qed.

Lemma take_left_ok l s ring r : bst (Node l s ring r) ->
  let '(m, ring', t) := take_left l s ring r in
  elements (Node l s ring r) ≡ₚ ((fun a => (a, m)) <$> ring') ++ elements t /\ bst t /\ ring' <> [] /\
  (forall x, x ∈ elements t -> m < x.2).
Proof.
  revert s ring r. induction l as [|l1 IH s1 ring1 r1 _]; intros s ring r (H1 & H2 & H3 & H4 & H5); cbn [take_left]; [done|].
  specialize (IH s1 ring1 r1 H2). destruct (take_left l1 s1 ring1 r1) as [[m ring'] t]. destruct IH as (P & Hb & Hn & Hm).
  assert (Hin : forall x, x ∈ elements t -> x ∈ elements (Node l1 s1 ring1 r1)) by (intros x Hx; rewrite P; apply elem_of_app; by right).
  split; [|split; [|split; [done|]]].
  - cbn [elements] in *. rewrite P. by rewrite <- !app_assoc.
  - cbn [bst]. split; [done|]. split; [done|]. split; [done|]. split; [|done]. intros x Hx. by apply H4, Hin.
  - assert (Hms : m < s).
    { destruct ring' as [|a ring']; [done|]. apply (H4 (a, m)). rewrite P. constructor. }
    intros x [Hx|[[_ ->]|Hx]]%elem_node; [by apply Hm|done|]. specialize (H5 x Hx). lia.
Qed.
Lemma join_ok l r : bst l -> bst r -> (forall x y, x ∈ elements l -> y ∈ elements r -> x.2 < y.2) ->
  elements (join l r) ≡ₚ elements l ++ elements r /\ bst (join l r).
Proof.
  intros Hl Hr Hlr. destruct l as [|l1 s1 ring1 r1]; [done|].
  destruct r as [|l2 s2 ring2 r2]; [cbn [join]; split; [by rewrite app_nil_r|done]|]. cbn [join].
  pose proof (take_left_ok l2 s2 ring2 r2 Hr) as Ht. destruct (take_left l2 s2 ring2 r2) as [[m ring'] t].
  destruct Ht as (P & Hb & Hn & Hm). split.
  - change (elements (Node l2 s2 ring2 r2)) with (elements (Node l2 s2 ring2 r2)) in P. rewrite P. done.
  - split; [done|]. split; [done|]. split; [done|]. split; [|done]. intros x Hx. destruct ring' as [|a ring']; [done|].
    apply (Hlr x (a, m) Hx). rewrite P. constructor.
Qed.
Lemma join_elem x l r : bst l -> bst r -> (forall x y, x ∈ elements l -> y ∈ elements r -> x.2 < y.2) ->
  x ∈ elements (join l r) <-> x ∈ elements l \/ x ∈ elements r.
Proof. intros Hl Hr Hlr. destruct (join_ok l r Hl Hr Hlr) as [P _]. by rewrite P, elem_of_app. Qed.

(** A block that is there and is there once. *)
Lemma filter_out (a : Z) (l : list Z) : NoDup l -> a ∈ l -> l ≡ₚ a :: filter (fun x => x <> a) l.
Proof.
  intros Hnd Ha. induction l as [|x l IH]; [by apply elem_of_nil in Ha|]. apply list.NoDup_cons in Hnd as [Hx Hnd].
  destruct (decide (x = a)) as [->|Hn].
  - rewrite filter_cons_False by (intros Hf; by apply Hf). f_equiv. assert (E : filter (fun x => x <> a) l = l); [|by rewrite E].
    clear IH Ha Hnd. induction l as [|y l IH]; [done|]. rewrite filter_cons_True; [f_equal; apply IH; intros Hf; apply Hx; by right|].
    intros ->. apply Hx. constructor.
  - rewrite filter_cons_True by done. apply elem_of_cons in Ha as [->|Ha]; [done|]. rewrite (IH Hnd Ha) at 1. apply perm_swap.
Qed.
Lemma NoDup_node l s ring r : NoDup (elements (Node l s ring r)) -> NoDup (elements l) /\ NoDup ring /\ NoDup (elements r).
Proof.
  cbn [elements]. intros (H1 & _ & (H2 & _ & H3)%list.NoDup_app)%list.NoDup_app. split; [done|]. split; [|done].
  by apply NoDup_fmap_1 in H2.
Qed.
Lemma pooldel_ok t a s : bst t -> NoDup (elements t) -> (a, s) ∈ elements t ->
  elements t ≡ₚ (a, s) :: elements (pooldel t a s) /\ bst (pooldel t a s).
Proof.
  induction t as [|l IHl s0 ring r IHr]; [by intros _ _ ?%elem_of_nil|].
  intros (H1 & H2 & H3 & H4 & H5) (N1 & N2 & N3)%NoDup_node Hin%elem_node. cbn [fst snd] in Hin. cbn [pooldel].
  destruct (Z.eqb_spec s s0) as [->|Hn].
  - assert (Ha : a ∈ ring) by (destruct Hin as [Hx|[[? _]|Hx]]; [specialize (H4 _ Hx); cbn in *; lia|done|specialize (H5 _ Hx); cbn in *; lia]).
    pose proof (filter_out a ring N2 Ha) as P. destruct (filter _ ring) as [|b ring'] eqn:E.
    + assert (Hlr : forall x y, x ∈ elements l -> y ∈ elements r -> x.2 < y.2) by (intros x y Hx Hy; specialize (H4 x Hx); specialize (H5 y Hy); lia).
      destruct (join_ok l r H2 H3 Hlr) as [PJ BJ]. split; [|done]. cbn [elements]. rewrite P, PJ. cbn. by rewrite <- Permutation_middle.
    + split; [|done]. cbn [elements]. rewrite P. rewrite fmap_cons. cbn [app]. by rewrite <- Permutation_middle.
  - destruct (Z.ltb_spec s s0) as [Hlt|Hge].
    + assert (Hl : (a, s) ∈ elements l) by (destruct Hin as [?|[[_ ?]|Hx]]; [done|lia|specialize (H5 _ Hx); cbn in *; lia]).
      destruct (IHl H2 N1 Hl) as [P B]. split; [cbn [elements]; by rewrite P|]. split; [done|]. split; [done|]. split; [done|]. split; [|done].
      intros x Hx. apply H4. rewrite P. by right.
    + assert (Hr : (a, s) ∈ elements r) by (destruct Hin as [Hx|[[_ ?]|Hx]]; [specialize (H4 _ Hx); cbn in *; lia|lia|done]).
      destruct (IHr H3 N3 Hr) as [P B]. split; [cbn [elements]; rewrite P; by rewrite <- !Permutation_middle|].
      split; [done|]. split; [done|]. split; [done|]. split; [done|]. intros x Hx. apply H5. rewrite P. by right.
Qed.

(** What the search gives: nothing when no block is large enough, or a block of
    the least size that is. *)
Definition best_of (l : list (Z * Z)) (size : Z) (b : option (Z * Z)) : Prop :=
  match b with
  | Some b => b ∈ l /\ size <= b.2 /\ forall x, x ∈ l -> size <= x.2 -> b.2 <= x.2
  | None => forall x, x ∈ l -> x.2 < size
  end.
Lemma search_ok t size q : bst t ->
  (exists b, search t size q = Some b /\ best_of (elements t) size (Some b)) \/
  (search t size q = q /\ best_of (elements t) size None).
Proof.
  revert q. induction t as [|l IHl s ring r IHr]; intros q; cbn [search]; [right; split; [done|]; by intros x ?%elem_of_nil|].
  intros (H1 & H2 & H3 & H4 & H5). destruct (Z.eqb_spec s size) as [->|Hn]; [|destruct (Z.ltb_spec size s) as [Hlt|Hge]].
  - left. assert (Hb : exists a, match ring with [] => None | [a] => Some (a, size) | _ :: b :: _ => Some (b, size) end = Some (a, size) /\ a ∈ ring).
    { destruct ring as [|a [|b ring]]; [done|exists a|exists b]; (split; [done|]); [constructor|right; constructor]. }
    destruct Hb as (a & E & Ha). exists (a, size). split; [done|]. split; [by apply elem_node; right; left|]. split; [done|]. cbn. by intros.
  - left. destruct (IHl (match ring with [] => None | a :: _ => Some (a, s) end) H2) as [([a s'] & E & Hin & Hle & Hmin)|[E Hno]].
    + exists (a, s'). split; [done|]. split; [apply elem_node; by left|]. split; [done|].
      intros x Hx Hxs. cbn [snd] in *. apply elem_node in Hx as [Hx|[[_ ->]|Hx]]; [by apply Hmin|specialize (H4 _ Hin); cbn in *; lia|].
      specialize (H4 _ Hin). specialize (H5 x Hx). cbn in *. lia.
    + destruct ring as [|a ring]; [done|]. exists (a, s). split; [done|]. split; [apply elem_node; right; left; split; [constructor|done]|].
      split; [cbn; lia|]. intros x Hx Hxs. cbn [snd]. apply elem_node in Hx as [Hx|[[_ ->]|Hx]]; [specialize (Hno x Hx); lia|lia|].
      specialize (H5 x Hx). lia.
  - destruct (IHr q H3) as [([a s'] & E & Hin & Hle & Hmin)|[E Hno]].
    + left. exists (a, s'). split; [done|]. split; [apply elem_node; by right; right|]. split; [done|].
      intros x Hx Hxs. cbn [snd] in *. apply elem_node in Hx as [Hx|[[_ Ex]|Hx]]; [specialize (H4 x Hx); lia|lia|by apply Hmin].
    + right. split; [done|]. intros x Hx. apply elem_node in Hx as [Hx|[[_ Ex]|Hx]]; [specialize (H4 x Hx); lia|lia|by apply Hno].
Qed.

(** ** Arenas *)

(** Consecutive blocks. *)
Fixpoint tiled (l : list Bhdr) : Prop :=
  match l with
  | x :: ((y :: _) as l') => 0 < b_size x /\ b_addr y = b_addr x + b_size x /\ tiled l'
  | _ => True
  end.
Definition addrs (l : list Bhdr) : list Z := b_addr <$> l.
(** An arena: a leader, blocks and the header at its limit. *)
Definition arena_ok (l : list Bhdr) : Prop :=
  tiled l /\ exists b m e, l = b :: m ++ [e] /\ b_magic b = MAGIC_E /\ b_magic e = MAGIC_E.

Lemma tiled_cons x y l : tiled (x :: y :: l) <-> 0 < b_size x /\ b_addr y = b_addr x + b_size x /\ tiled (y :: l).
Proof. done. Qed.
Lemma tiled_tail x l : tiled (x :: l) -> tiled l.
Proof. destruct l; [done|]. by intros (_ & _ & H). Qed.
Lemma tiled_app_r l1 l2 : tiled (l1 ++ l2) -> tiled l2.
Proof. induction l1 as [|x l1 IH]; [done|]. intros H%tiled_tail. auto. Qed.
Lemma tiled_after x l : tiled (x :: l) -> forall y, y ∈ l -> b_addr x < b_addr y.
Proof.
  revert x. induction l as [|z l IH]; intros x Ht y Hy; [by apply elem_of_nil in Hy|].
  destruct Ht as (Hs & E & Ht). apply elem_of_cons in Hy as [->|Hy]; [lia|]. specialize (IH z Ht y Hy). lia.
Qed.
Lemma tiled_before l1 x l2 : tiled (l1 ++ x :: l2) -> forall y, y ∈ l1 -> b_addr y < b_addr x.
Proof.
  induction l1 as [|z l1 IH]; intros Ht y Hy; [by apply elem_of_nil in Hy|]. cbn [app] in Ht.
  apply elem_of_cons in Hy as [->|Hy].
  - apply (tiled_after _ _ Ht). apply elem_of_app. right. constructor.
  - apply IH; [by apply tiled_tail in Ht|done].
Qed.
(** Only addresses and sizes matter, and the last block may be replaced. *)
Lemma tiled_replace l1 x y l2 :
  b_addr y = b_addr x -> b_size y = b_size x -> tiled (l1 ++ x :: l2) -> tiled (l1 ++ y :: l2).
Proof.
  intros E1 E2. induction l1 as [|z l1 IH]; cbn [app].
  - destruct l2 as [|w l2]; [done|]. rewrite !tiled_cons. by rewrite E1, E2.
  - destruct l1 as [|w l1]; cbn [app] in *; rewrite !tiled_cons; intros (H1 & H2 & H3).
    + rewrite E1. auto.
    + auto.
Qed.
Lemma tiled_merge l1 u v w l2 :
  b_addr w = b_addr u -> b_size w = b_size u + b_size v ->
  tiled (l1 ++ u :: v :: l2) -> tiled (l1 ++ w :: l2).
Proof.
  intros E1 E2. induction l1 as [|z l1 IH]; cbn [app].
  - rewrite tiled_cons. intros (H1 & H2 & H3). destruct l2 as [|x l2]; [done|]. rewrite tiled_cons in *.
    destruct H3 as (H4 & H5 & H6). rewrite E1, E2. split; [lia|]. split; [lia|done].
  - destruct l1 as [|x l1]; cbn [app] in *; rewrite !tiled_cons; intros (H1 & H2 & H3).
    + split; [done|]. split; [by rewrite E1|]. by apply IH.
    + split; [done|]. split; [done|]. by apply IH.
Qed.

(** What freeing does to an arena and to the cursor: [gone] is the block freed. *)
Record arena_step (gone : Z -> Prop) (l l' : list Bhdr) (p p' : Z) : Prop := {
  as_ok : arena_ok l';
  as_head : head l' = head l;
  as_last : list.last l' = list.last l;
  as_used : forall b, b_magic b = MAGIC_A -> (b ∈ l' <-> b ∈ l /\ ~ gone (b_addr b));
  as_addrs : sublist (addrs l') (addrs l);
  as_ptr : p ∈ addrs l -> p' ∈ addrs l' /\ p' <= p /\ (p < arena_limit l -> p' < arena_limit l');
  as_out : p ∉ addrs l -> p' = p;
  as_ahead : forall b, b ∈ l' -> b_magic b = MAGIC_A -> (p <= b_addr b <-> p' <= b_addr b);
  as_stay : forall b, b ∈ l' -> b_magic b = MAGIC_A -> b_addr b = p -> p' = p;
  as_count : p ∈ addrs l ->
    (length (filter (fun b => (p' <= b_addr b)%Z) l') <= length (filter (fun b => (p <= b_addr b)%Z) l))%nat;
}.

Lemma arena_step_trans g1 g2 l1 l2 l3 p1 p2 p3 :
  (forall a, g2 a -> g1 a) ->
  arena_step g1 l1 l2 p1 p2 -> arena_step g2 l2 l3 p2 p3 -> arena_step g1 l1 l3 p1 p3.
Proof.
  intros Hg [A1 A2 A3 A4 A5 A6 A7 A8 A10 A9] [B1 B2 B3 B4 B5 B6 B7 B8 B10 B9]. split; try done; try congruence.
  - intros b Hb. rewrite B4, A4 by done. split; [tauto|]. intros [H1 H2]. split; [done|]. auto.
  - by etransitivity.
  - intros H. destruct (A6 H) as (H1 & H2 & H3). destruct (B6 H1) as (H4 & H5 & H6). split; [done|]. split; [lia|auto].
  - intros H. rewrite B7, A7; try done. rewrite A7 by done. intros H'. apply H. unfold addrs in *. 
    apply list_elem_of_fmap in H' as (b & -> & Hb). by eapply sublist_subseteq; [exact A5|]; apply list_elem_of_fmap_2.
  - intros b Hb Hm. rewrite <- B8 by done. apply A8; [|done]. by apply B4 in Hb as [Hb _].
  - intros b Hb Hm E. assert (E2 : p2 = p1) by (apply (A10 b); [by apply B4 in Hb as [Hb _]|done|done]).
    rewrite <- E2. apply (B10 b); [done|done|congruence].
  - intros H. destruct (A6 H) as (H1 & _). specialize (A9 H). specialize (B9 H1). lia.
Qed.

Lemma tiled_nodup l : tiled l -> NoDup (addrs l).
Proof.
  induction l as [|x l IH]; intros Ht; [constructor|]. unfold addrs. rewrite fmap_cons. constructor; [|by apply IH, (tiled_tail x)].
  intros (y & E & Hy)%list_elem_of_fmap. pose proof (tiled_after x l Ht y Hy). lia.
Qed.

Lemma arena_limit_eq l l' : list.last l' = list.last l -> arena_limit l' = arena_limit l.
Proof. unfold arena_limit. by intros ->. Qed.

Lemma filter_none {A} (P : A -> Prop) `{!forall x, Decision (P x)} (l : list A) : (forall x, x ∈ l -> ~ P x) -> filter P l = [].
Proof.
  induction l as [|x l IH]; intros Hl; [done|]. rewrite filter_cons_False by (apply Hl; constructor).
  apply IH. intros y Hy. apply Hl. by right.
Qed.
Lemma filter_every {A} (P : A -> Prop) `{!forall x, Decision (P x)} (l : list A) : (forall x, x ∈ l -> P x) -> filter P l = l.
Proof.
  induction l as [|x l IH]; intros Hl; [done|]. rewrite filter_cons_True by (apply Hl; constructor).
  f_equal. apply IH. intros y Hy. apply Hl. by right.
Qed.

(** The two steps: a block marked free, two free blocks joined. *)
Lemma remagic_step l1 b l2 p :
  arena_ok (l1 ++ b :: l2) -> l1 <> [] -> l2 <> [] ->
  arena_step (fun a => a = b_addr b) (l1 ++ b :: l2) (l1 ++ mkBhdr (b_addr b) (b_size b) MAGIC_F :: l2) p p.
Proof.
  intros [Ht (x & m & e & E & Hx & He)] H1 H2. set (b' := mkBhdr (b_addr b) (b_size b) MAGIC_F).
  destruct l1 as [|x' l1]; [done|]. destruct (exists_last H2) as (l2' & e' & ->). cbn in E. injection E as -> E.
  assert (Ee : e' = e).
  { rewrite app_comm_cons, app_assoc in E. by apply app_inj_tail in E as [_ ->]. } subst e'.
  assert (Eaddr : addrs ((x :: l1) ++ b' :: l2' ++ [e]) = addrs ((x :: l1) ++ b :: l2' ++ [e])).
  { unfold addrs. by rewrite !fmap_app, !fmap_cons. }
  split.
  - split; [by apply (tiled_replace _ b)|]. exists x, (l1 ++ b' :: l2'), e. cbn. by rewrite <- app_assoc.
  - done.
  - rewrite !app_comm_cons, !app_assoc, !last_snoc. done.
  - intros c Hc. rewrite !elem_of_app, !elem_of_cons. pose proof (tiled_before _ _ _ Ht) as Hb.
    pose proof (tiled_after _ _ (tiled_app_r _ _ Ht)) as Ha. split.
    + intros [H|[->|H]]; [|done|].
      * split; [by left|]. specialize (Hb c). rewrite elem_of_cons in Hb. intros E'. specialize (Hb H). lia.
      * split; [by right; right|]. specialize (Ha c H). lia.
    + intros [[H|[->|H]] Hn]; [by left|done|by right; right].
  - by rewrite Eaddr.
  - rewrite Eaddr. intros H. split; [done|]. split; [lia|]. intros Hl.
    rewrite (arena_limit_eq ((x :: l1) ++ b :: l2' ++ [e])); [done|]. rewrite !app_comm_cons, !app_assoc, !last_snoc. done.
  - done.
  - done.
  - done.
  - intros _. rewrite !list.filter_app, !length_app, !filter_cons. change (b_addr b') with (b_addr b).
    repeat case_decide; cbn [length]; lia.
Qed.

(** The blocks around two that follow each other. *)
Lemma tiled_around l1 u v l2 : tiled (l1 ++ u :: v :: l2) ->
  b_addr u < b_addr v /\ (forall y, y ∈ l1 -> b_addr y < b_addr u) /\ (forall y, y ∈ l2 -> b_addr v < b_addr y).
Proof.
  intros Ht. pose proof (tiled_app_r _ _ Ht) as Htu. split; [apply (tiled_after _ _ Htu); constructor|].
  split; [apply (tiled_before _ _ _ Ht)|]. apply (tiled_after _ _ (tiled_tail _ _ Htu)).
Qed.
(** Two free blocks are neither the leader nor the header at the limit. *)
Lemma arena_inner l1 u v l2 : arena_ok (l1 ++ u :: v :: l2) -> b_magic u = MAGIC_F -> b_magic v = MAGIC_F ->
  exists x l1' l2' e, l1 = x :: l1' /\ l2 = l2' ++ [e] /\ b_magic x = MAGIC_E /\ b_magic e = MAGIC_E.
Proof.
  intros [_ (x & m & e & E & Hx & He)] Hu Hv. destruct l1 as [|x' l1]; [injection E as -> _; by rewrite Hu in Hx|]. injection E as -> E.
  destruct (decide (l2 = [])) as [->|Hn].
  - exfalso. change (l1 ++ [u; v]) with (l1 ++ [u] ++ [v]) in E. rewrite app_assoc in E. apply app_inj_tail in E as [_ ->]. by rewrite Hv in He.
  - destruct (exists_last Hn) as (l2' & e' & ->). rewrite !app_comm_cons, app_assoc in E. apply app_inj_tail in E as [_ ->]. by exists x, l1, l2', e.
Qed.
(** Addresses above one that goes, one below it in its place. *)
Lemma merge_count l1 u v w l2 p : b_addr w = b_addr u -> b_addr u < b_addr v ->
  (forall y, y ∈ l1 -> b_addr y < b_addr u) -> (forall y, y ∈ l2 -> b_addr v < b_addr y) ->
  (length (filter (fun b => ((if p =? b_addr v then b_addr u else p) <= b_addr b)%Z) (l1 ++ w :: l2)) <=
   length (filter (fun b => (p <= b_addr b)%Z) (l1 ++ u :: v :: l2)))%nat.
Proof.
  intros Ew Huv Hb Ha. rewrite !list.filter_app, !length_app, (filter_cons _ w), (filter_cons _ u), (filter_cons _ v), Ew.
  destruct (Z.eqb_spec p (b_addr v)) as [->|Hn]; [|repeat case_decide; cbn [length]; lia].
  rewrite (filter_none (fun b => (b_addr u <= b_addr b)%Z) l1) by (intros y Hy; specialize (Hb y Hy); lia).
  rewrite (filter_every (fun b => (b_addr v <= b_addr b)%Z) l2) by (intros y Hy; specialize (Ha y Hy); lia).
  rewrite (decide_True (P := (b_addr u <= b_addr u)%Z)) by lia. rewrite (decide_True (P := (b_addr v <= b_addr v)%Z)) by lia.
  pose proof (length_filter (fun b => (b_addr u <= b_addr b)%Z) l2). case_decide; cbn [length]; lia.
Qed.
Lemma merge_step l1 u v l2 p :
  arena_ok (l1 ++ u :: v :: l2) -> b_magic u = MAGIC_F -> b_magic v = MAGIC_F ->
  arena_step (fun _ => False) (l1 ++ u :: v :: l2) (l1 ++ mkBhdr (b_addr u) (b_size u + b_size v) MAGIC_F :: l2)
    p (if p =? b_addr v then b_addr u else p).
Proof.
  intros Hok Hu Hv. set (w := mkBhdr (b_addr u) (b_size u + b_size v) MAGIC_F). destruct Hok as [Ht Hends].
  destruct (tiled_around _ _ _ _ Ht) as (Huv & Hbu & Hav).
  destruct (arena_inner l1 u v l2) as (x & l1' & l2' & e & E1 & E2 & Hx & He); try done.
  assert (Hlast : list.last (l1 ++ w :: l2) = list.last (l1 ++ u :: v :: l2)) by (rewrite E2, !app_comm_cons, !app_assoc, !last_snoc; done).
  assert (Hin : forall y, y ∈ addrs (l1 ++ w :: l2) <-> y ∈ addrs l1 \/ y = b_addr u \/ y ∈ addrs l2).
  { intros y. unfold addrs. by rewrite fmap_app, fmap_cons, elem_of_app, elem_of_cons. }
  assert (Hin2 : forall y, y ∈ addrs (l1 ++ u :: v :: l2) <-> y ∈ addrs l1 \/ y = b_addr u \/ y = b_addr v \/ y ∈ addrs l2).
  { intros y. unfold addrs. by rewrite fmap_app, !fmap_cons, elem_of_app, !elem_of_cons. }
  assert (Hfar : forall c, c ∈ l1 ++ w :: l2 -> b_magic c = MAGIC_A -> b_addr c < b_addr u \/ b_addr v < b_addr c).
  { intros c. rewrite elem_of_app, elem_of_cons. intros [?|[->|?]] ?; [left; auto|done|right; auto]. }
  split.
  - split; [by apply (tiled_merge _ u v)|]. exists x, (l1' ++ w :: l2'), e. subst l1 l2. cbn. by rewrite <- app_assoc.
  - by rewrite E1.
  - done.
  - intros c Hc. rewrite !elem_of_app, !elem_of_cons. split.
    + intros [H|[->|H]]; [|done|]; (split; [|tauto]); tauto.
    + intros [[H|[->|[->|H]]] _]; [by left|by rewrite Hu in Hc|by rewrite Hv in Hc|by right; right].
  - unfold addrs. rewrite !fmap_app, !fmap_cons. apply sublist_app; [done|]. cbn. apply sublist_skip, sublist_cons. done.
  - rewrite Hin, Hin2, (arena_limit_eq _ _ Hlast). intros Hp. destruct (Z.eqb_spec p (b_addr v)) as [->|Hn]; [|split; [tauto|done]].
    split; [tauto|]. split; lia.
  - rewrite Hin2. intros Hp. destruct (Z.eqb_spec p (b_addr v)) as [->|Hn]; [|done]. tauto.
  - intros c Hc Hm. destruct (Z.eqb_spec p (b_addr v)) as [->|Hn]; [|done]. specialize (Hfar c Hc Hm). lia.
  - intros c Hc Hm E. destruct (Z.eqb_spec p (b_addr v)) as [->|Hn]; [|done]. specialize (Hfar c Hc Hm). lia.
  - intros _. by apply merge_count.
Qed.

(** *** Going to the next block *)

Lemma length_filter_sub {A} (P Q : A -> Prop) `{!forall x, Decision (P x)} `{!forall x, Decision (Q x)} (l : list A) x :
  (forall y, P y -> Q y) -> x ∈ l -> Q x -> ~ P x -> (length (filter P l) < length (filter Q l))%nat.
Proof.
  intros HPQ Hx HQ HP. assert (Hle : forall l, (length (filter P l) <= length (filter Q l))%nat).
  { clear Hx l. induction l as [|y l IH]; [done|]. rewrite !filter_cons. repeat case_decide; cbn [length]; try lia. exfalso. auto. }
  apply list_elem_of_split in Hx as (l1 & l2 & ->). rewrite !list.filter_app, !length_app.
  rewrite filter_cons_False, filter_cons_True by done. cbn [length]. pose proof (Hle l1). pose proof (Hle l2). lia.
Qed.

Lemma arena_top l x : arena_ok l -> x ∈ l -> arena_limit l <= b_addr x -> b_magic x = MAGIC_E.
Proof.
  intros [Ht (b & m & e & -> & Hb & He)] Hx Hl. unfold arena_limit in Hl. rewrite app_comm_cons, last_snoc in Hl.
  rewrite app_comm_cons in Ht, Hx. apply elem_of_app in Hx as [Hx|[->|Hx]%elem_of_cons]; [|done|by apply elem_of_nil in Hx].
  pose proof (tiled_before _ _ _ Ht x Hx). lia.
Qed.
Lemma arena_next l p :
  arena_ok l -> p ∈ addrs l -> p < arena_limit l ->
  exists b y, b ∈ l /\ y ∈ l /\ b_addr b = p /\ 0 < b_size b /\ b_addr y = p + b_size b /\ b_addr y <= arena_limit l /\
    forall x, x ∈ l -> p <= b_addr x -> b_addr x = p \/ b_addr y <= b_addr x.
Proof.
  intros [Ht (b0 & m & e & El & _)] Hp Hlt. apply list_elem_of_fmap in Hp as (b & -> & Hb). apply list_elem_of_split in Hb as (l1 & l2 & E).
  assert (Hlim : arena_limit l = b_addr e) by (unfold arena_limit; by rewrite El, app_comm_cons, last_snoc).
  destruct l2 as [|y l2].
  - rewrite El, app_comm_cons in E. apply app_inj_tail in E as [_ ->]. lia.
  - rewrite E in Ht. pose proof (tiled_app_r _ _ Ht) as Ht2. destruct (proj1 (tiled_cons b y l2) Ht2) as (Hs & Ey & Ht3).
    exists b, y. rewrite E at 1 2. assert (Hy : y ∈ l1 ++ b :: y :: l2) by (apply elem_of_app; right; right; constructor).
    assert (Hb : b ∈ l1 ++ b :: y :: l2) by (apply elem_of_app; right; constructor).
    assert (Hge : forall x, x ∈ y :: l2 -> b_addr y <= b_addr x).
    { intros x [->|Hx]%elem_of_cons; [lia|]. pose proof (tiled_after _ _ Ht3 x Hx). lia. }
    split; [done|]. split; [done|]. split; [done|]. split; [done|]. split; [done|]. split.
    + rewrite Hlim. apply Hge. rewrite El, app_comm_cons in E.
      destruct (exists_last (l := y :: l2)) as (l2' & e' & E2); [done|]. rewrite E2. change (l1 ++ b :: y :: l2) with (l1 ++ [b] ++ (y :: l2)) in E.
      rewrite E2, !app_assoc in E. apply app_inj_tail in E as [_ ->]. apply elem_of_app. right. constructor.
    + intros x Hx Hle. rewrite E in Hx. apply elem_of_app in Hx as [Hx|[->|Hx]%elem_of_cons]; [|by left|right; by apply Hge].
      pose proof (tiled_before _ _ _ Ht x Hx). lia.
Qed.
Lemma arena_first l : arena_ok l -> exists x l', l = x :: l' /\ b_addr x < arena_limit l /\ forall y, y ∈ l -> b_addr x <= b_addr y.
Proof.
  intros [Ht (b & m & e & -> & _)]. exists b, (m ++ [e]). split; [done|]. pose proof (tiled_after _ _ Ht) as Ha. split.
  - unfold arena_limit. rewrite app_comm_cons, last_snoc. apply Ha, elem_of_app. right. constructor.
  - intros y [->|Hy]%elem_of_cons; [lia|]. pose proof (Ha y Hy). lia.
Qed.


(** Where the block to be freed is. *)
Lemma arena_free_next c b rest a p t :
  b_addr b <> a -> arena_free (c :: b :: rest) a p t = let '(tl, p', t') := arena_free (b :: rest) a p t in (c :: tl, p', t').
Proof. intros Hn%Z.eqb_neq. simpl. by rewrite Hn. Qed.
Lemma arena_free_skip pre c b post a p t :
  (forall y, y ∈ pre ++ [c] -> b_addr y <> a) ->
  arena_free (pre ++ c :: b :: post) a p t = let '(x, p', t') := arena_free (c :: b :: post) a p t in (pre ++ x, p', t').
Proof.
  induction pre as [|z pre IH]; intros Hn; [by destruct (arena_free _ _ _ _) as [[??]?]|].
  assert (Hn' : forall y, y ∈ pre ++ [c] -> b_addr y <> a) by (intros y Hy; apply Hn; by right).
  specialize (IH Hn'). destruct (arena_free (c :: b :: post) a p t) as [[x p'] t'].
  assert (Hnext : exists y r, pre ++ c :: b :: post = y :: r /\ b_addr y <> a).
  { destruct pre as [|y pre]; [exists c, (b :: post)|exists y, (pre ++ c :: b :: post)]; (split; [done|]); apply Hn';
      [constructor|constructor]. }
  destruct Hnext as (y & r & Ey & Hy). cbn [app]. rewrite Ey in *. rewrite arena_free_next by done. by rewrite IH.
Qed.
Lemma arena_around l b : arena_ok l -> b ∈ l -> b_magic b = MAGIC_A ->
  exists pre c post, l = pre ++ c :: b :: post /\ post <> [] /\ forall y, y ∈ pre ++ [c] -> b_addr y <> b_addr b.
Proof.
  intros [Ht (x & m & e & E & Hx & He)] Hb Hm. apply list_elem_of_split in Hb as (pre & post & ->).
  destruct (decide (pre = [])) as [->|Hpre]; [injection E as -> _; by rewrite Hm in Hx|].
  destruct (exists_last Hpre) as (pre' & c & ->). exists pre', c, post. rewrite <- app_assoc. split; [done|]. split.
  - intros ->. rewrite app_comm_cons in E. change (x :: m ++ [e]) with ((x :: m) ++ [e]) in E. apply app_inj_tail in E as [_ ->]. by rewrite Hm in He.
  - intros y Hy. pose proof (tiled_before _ _ _ Ht y Hy). lia.
Qed.

(** What follows the block is joined, then what is before it. *)
Lemma forward_step pre b post p t :
  arena_ok (pre ++ b :: post) -> pre <> [] -> post <> [] -> b_magic b = MAGIC_A ->
  let '(b2, post2, p2, _) := join_forward b post p t in
  b_addr b2 = b_addr b /\
  arena_step (fun x => x = b_addr b) (pre ++ b :: post) (pre ++ mkBhdr (b_addr b2) (b_size b2) MAGIC_F :: post2) p p2.
Proof.
  intros Hok Hpre Hpost Hm. pose proof (remagic_step pre b post p Hok Hpre Hpost) as H1. set (bF := mkBhdr (b_addr b) (b_size b) MAGIC_F) in *.
  destruct post as [|y post]; [done|]. cbn [join_forward]. destruct (decide (b_magic y = MAGIC_F)) as [Hy|Hy]; [|done]. split; [done|].
  cbn [b_addr b_size]. pose proof (merge_step pre bF y post p) as H2.
  eapply arena_step_trans; [|exact H1|apply H2; [by apply H1|done|done]]. intros ? [].
Qed.
Lemma arena_free_ok l a p t b :
  arena_ok l -> b ∈ l -> b_magic b = MAGIC_A -> b_addr b = a ->
  let '(l', p', t') := arena_free l a p t in arena_step (fun x => x = a) l l' p p'.
Proof.
  intros Hok Hb Hm <-. destruct (arena_around l b Hok Hb Hm) as (pre & c & post & -> & Hpost & Hn).
  rewrite arena_free_skip by done. cbn [arena_free]. rewrite Z.eqb_refl.
  pose proof (forward_step (pre ++ [c]) b post p t) as H1. rewrite <- !app_assoc in H1. cbn [app] in H1.
  specialize (H1 Hok ltac:(by destruct pre) Hpost Hm).
  destruct (join_forward b post p t) as [[[b2 post2] p2] t2]. destruct H1 as [Ea H1]. rewrite <- app_assoc in H1. cbn [app] in H1.
  destruct (decide (b_magic c = MAGIC_F)) as [Hc|Hc]; [|exact H1].
  pose proof (merge_step pre c (mkBhdr (b_addr b2) (b_size b2) MAGIC_F) post2 p2) as H2.
  eapply arena_step_trans; [|exact H1|apply H2; [by apply H1|done|done]]. intros ? [].
Qed.

(** *** No two free blocks are next to each other *)

Definition free_pair (x y : Bhdr) : Prop := b_magic x = MAGIC_F /\ b_magic y = MAGIC_F.
Fixpoint coalesced (l : list Bhdr) : Prop :=
  match l with
  | x :: ((y :: _) as l') => ~ free_pair x y /\ coalesced l'
  | _ => True
  end.
Lemma coalesced_cons x y l : coalesced (x :: y :: l) <-> ~ free_pair x y /\ coalesced (y :: l).
Proof. done. Qed.
Lemma coalesced_app l1 x l2 : coalesced (l1 ++ x :: l2) <-> coalesced (l1 ++ [x]) /\ coalesced (x :: l2).
Proof.
  induction l1 as [|y l1 IH]; [cbn; tauto|]. destruct l1 as [|z l1]; cbn [app] in *; rewrite !coalesced_cons; [cbn; tauto|]. rewrite IH. tauto.
Qed.
Lemma coalesced_tail x l : coalesced (x :: l) -> coalesced l.
Proof. destruct l; [done|]. by intros [_ ?]. Qed.
Lemma coalesced_magic l1 x y : b_magic x = b_magic y -> coalesced (l1 ++ [x]) -> coalesced (l1 ++ [y]).
Proof.
  intros E. induction l1 as [|z l1 IH]; [done|]. destruct l1 as [|w l1]; cbn [app] in *; rewrite !coalesced_cons; unfold free_pair; rewrite ?E; tauto.
Qed.
Lemma coalesced_used l1 x : b_magic x <> MAGIC_F -> coalesced l1 -> coalesced (l1 ++ [x]).
Proof.
  intros Hx. induction l1 as [|y l1 IH]; [done|]. destruct l1 as [|z l1]; cbn [app] in *; rewrite !coalesced_cons; unfold free_pair in *; tauto.
Qed.
Lemma coalesced_front l1 x : coalesced (l1 ++ [x]) -> coalesced l1.
Proof.
  induction l1 as [|y l1 IH]; [done|]. destruct l1 as [|z l1]; cbn [app] in *; [done|]. rewrite !coalesced_cons. tauto.
Qed.
Lemma arena_free_coalesced l a p t b :
  arena_ok l -> coalesced l -> b ∈ l -> b_magic b = MAGIC_A -> b_addr b = a ->
  let '(l', p', t') := arena_free l a p t in coalesced l'.
Proof.
  intros Hok Hco Hb Hm <-. destruct (arena_around l b Hok Hb Hm) as (pre & c & post & -> & Hpost & Hn).
  rewrite arena_free_skip by done. cbn [arena_free]. rewrite Z.eqb_refl.
  rewrite coalesced_app, coalesced_cons in Hco. destruct Hco as (Hpre & _ & Hbp).
  (* what is left of the rest begins with no free block *)
  assert (Hj : let '(b2, post2, p2, t2) := join_forward b post p t in
    forall x, b_magic x = MAGIC_F -> coalesced (x :: post2)).
  { destruct post as [|y post]; [done|]. cbn [join_forward]. apply coalesced_cons in Hbp as [_ Hyp]. destruct (decide (b_magic y = MAGIC_F)) as [Hy|Hy]; intros x Hx.
    - destruct post as [|z post]; [done|]. rewrite coalesced_cons in *. destruct Hyp as [Hyz Hz]. split; [|done]. intros [_ Hzf]. by apply Hyz.
    - rewrite coalesced_cons. split; [|done]. by intros [_ ?]. }
  destruct (join_forward b post p t) as [[[b2 post2] p2] t2]. destruct (decide (b_magic c = MAGIC_F)) as [Hc|Hc].
  - rewrite coalesced_app. split; [by apply (coalesced_magic _ c)|by apply Hj].
  - rewrite coalesced_app, coalesced_cons. split; [done|]. split; [by intros [? _]|by apply Hj].
Qed.

(** *** The free blocks are those of the tree *)

Definition free_of (l : list Bhdr) : list (Z * Z) := (fun b => (b_addr b, b_size b)) <$> filter (fun b => b_magic b = MAGIC_F) l.
Lemma free_of_app l1 l2 : free_of (l1 ++ l2) = free_of l1 ++ free_of l2.
Proof. unfold free_of. by rewrite list.filter_app, fmap_app. Qed.
Lemma free_of_cons b l : free_of (b :: l) = (if decide (b_magic b = MAGIC_F) then [(b_addr b, b_size b)] else []) ++ free_of l.
Proof. unfold free_of. rewrite filter_cons. by case_decide. Qed.
(** The tree has the blocks [l] and no more. *)
Definition holds (t : tree) (l : list (Z * Z)) : Prop := bst t /\ elements t ≡ₚ l /\ NoDup l.
Lemma holds_perm t l l' : l ≡ₚ l' -> holds t l -> holds t l'.
Proof. intros E (H1 & H2 & H3). split; [done|]. by rewrite <- E. Qed.
Lemma holds_del t a s l : holds t ((a, s) :: l) -> holds (pooldel t a s) l.
Proof.
  intros (H1 & H2 & H3). destruct (pooldel_ok t a s H1) as [P B]; [by rewrite H2|rewrite H2; constructor|].
  split; [done|]. split; [|by apply list.NoDup_cons in H3 as [_ ?]]. rewrite H2 in P. by apply (Permutation_cons_inv (a := (a, s))).
Qed.
Lemma holds_add t a s l : (a, s) ∉ l -> holds t l -> holds (pooladd t a s) ((a, s) :: l).
Proof.
  intros Hn (H1 & H2 & H3). split; [by apply pooladd_bst|]. split; [by rewrite pooladd_elements, H2|]. by constructor.
Qed.
Lemma free_of_mid l1 x l2 O : b_magic x = MAGIC_F -> free_of (l1 ++ x :: l2) ++ O ≡ₚ (b_addr x, b_size x) :: free_of (l1 ++ l2) ++ O.
Proof. intros Hx. rewrite !free_of_app, free_of_cons, decide_True by done. rewrite <- !app_assoc. cbn [app]. by rewrite <- Permutation_middle. Qed.
Lemma free_of_addrs x l : x ∈ free_of l -> x.1 ∈ addrs l.
Proof. intros (y & -> & Hy)%list_elem_of_fmap. apply list_elem_of_filter in Hy as [_ Hy]. apply (list_elem_of_fmap_2 b_addr), Hy. Qed.
Lemma holds_mid_del t l1 x l2 O : b_magic x = MAGIC_F ->
  holds t (free_of (l1 ++ x :: l2) ++ O) -> holds (pooldel t (b_addr x) (b_size x)) (free_of (l1 ++ l2) ++ O).
Proof. intros Hx Ht. apply holds_del. eapply holds_perm; [|exact Ht]. by apply free_of_mid. Qed.
Lemma holds_mid_add t l1 x l2 O : b_magic x = MAGIC_F -> tiled (l1 ++ x :: l2) -> (forall o, o ∈ O -> o.1 ∉ addrs (l1 ++ x :: l2)) ->
  holds t (free_of (l1 ++ l2) ++ O) -> holds (pooladd t (b_addr x) (b_size x)) (free_of (l1 ++ x :: l2) ++ O).
Proof.
  intros Hx Hti HO Ht. eapply holds_perm; [symmetry; by apply free_of_mid|]. apply holds_add; [|done].
  intros [Hin|Hin]%elem_of_app.
  - apply free_of_addrs in Hin. cbn [fst] in Hin. apply tiled_nodup in Hti. unfold addrs in *. rewrite fmap_app, fmap_cons, <- Permutation_middle, <- fmap_app in Hti.
    by apply list.NoDup_cons in Hti as [Hti _].
  - apply (HO _ Hin). unfold addrs. rewrite fmap_app, fmap_cons. apply elem_of_app. right. constructor.
Qed.
Lemma arena_free_tree l a p t b O :
  arena_ok l -> b ∈ l -> b_magic b = MAGIC_A -> b_addr b = a -> holds t (free_of l ++ O) ->
  (forall x, x ∈ O -> x.1 ∉ addrs l) ->
  let '(l', p', t') := arena_free l a p t in holds t' (free_of l' ++ O).
Proof.
  intros Hok Hb Hm <- Ht HO. pose proof (arena_free_ok l (b_addr b) p t b Hok Hb Hm eq_refl) as Hst.
  destruct (arena_around l b Hok Hb Hm) as (pre & c & post & -> & Hpost & Hn).
  rewrite arena_free_skip in * by done. cbn [arena_free] in *. rewrite Z.eqb_refl in *.
  assert (Hj : let '(b2, post2, p2, t2) := join_forward b post p t in
    b_addr b2 = b_addr b /\ holds t2 (free_of (pre ++ c :: post2) ++ O)).
  { assert (Hb0 : holds t (free_of (pre ++ c :: post) ++ O)).
    { revert Ht. rewrite !free_of_app, !free_of_cons, (decide_False (P := b_magic b = MAGIC_F)) by congruence. done. }
    destruct post as [|y post]; [done|]. cbn [join_forward]. destruct (decide (b_magic y = MAGIC_F)) as [Hy|Hy]; (split; [done|]); [|done].
    pose proof (holds_mid_del t (pre ++ [c]) y post O Hy) as Hd. rewrite <- !app_assoc in Hd. by apply Hd. }
  destruct (join_forward b post p t) as [[[b2 post2] p2] t2]. destruct Hj as [Ea Hj]. rewrite Ea in *.
  assert (Hout : forall l' p', arena_step (fun x => x = b_addr b) (pre ++ c :: b :: post) l' p p' -> tiled l' /\ forall o, o ∈ O -> o.1 ∉ addrs l').
  { intros l' p' St. split; [apply (as_ok _ _ _ _ _ St)|]. intros o Ho Hx. apply (HO _ Ho).
    by apply (sublist_subseteq _ _ (as_addrs _ _ _ _ _ St)). }
  destruct (decide (b_magic c = MAGIC_F)) as [Hc|Hc]; destruct (Hout _ _ Hst) as [Hti HO'].
  - apply (holds_mid_add _ pre (mkBhdr (b_addr c) (b_size c + b_size b2) MAGIC_F) post2 O); try done. by apply holds_mid_del.
  - pose proof (holds_mid_add t2 (pre ++ [c]) (mkBhdr (b_addr b) (b_size b2) MAGIC_F) post2 O) as Ha. rewrite <- !app_assoc in Ha. by apply Ha.
Qed.

(** ** Arenas in the chain *)

Lemma elem_concat {A} (x : A) l ls : x ∈ l -> l ∈ ls -> x ∈ concat ls.
Proof. intros Hx Hl. apply list_elem_of_In, in_concat. exists l. split; by apply list_elem_of_In. Qed.
Lemma concat_elem {A} (x : A) ls : x ∈ concat ls -> exists l, x ∈ l /\ l ∈ ls.
Proof. intros (l & Hl & Hx)%list_elem_of_In%in_concat. exists l. split; by apply list_elem_of_In. Qed.
Lemma elem_addrs_concat l ch x : l ∈ ch -> x ∈ addrs l -> x ∈ addrs (concat ch).
Proof. intros Hl (y & -> & Hy)%list_elem_of_fmap. by apply list_elem_of_fmap_2, (elem_concat y l). Qed.
Lemma addrs_concat x ch : x ∈ addrs (concat ch) -> exists l, x ∈ addrs l /\ l ∈ ch.
Proof. intros (y & -> & (l & Hy & Hl)%concat_elem)%list_elem_of_fmap. exists l. split; [by apply list_elem_of_fmap_2|done]. Qed.
Lemma addrs_mid x ch1 l ch2 :
  x ∈ addrs (concat (ch1 ++ l :: ch2)) <-> x ∈ addrs (concat ch1) \/ x ∈ addrs l \/ x ∈ addrs (concat ch2).
Proof. rewrite concat_app. cbn [concat]. unfold addrs. by rewrite !fmap_app, !elem_of_app. Qed.
Lemma nodup_mid ch1 l ch2 x : NoDup (addrs (concat (ch1 ++ l :: ch2))) -> x ∈ addrs l ->
  (x ∉ addrs (concat ch1)) /\ (x ∉ addrs (concat ch2)).
Proof.
  intros Hnd Hx. rewrite concat_app in Hnd. cbn [concat] in Hnd. unfold addrs in Hnd. rewrite !fmap_app in Hnd.
  apply list.NoDup_app in Hnd as (_ & D1 & Hnd). apply list.NoDup_app in Hnd as (_ & D2 & _). split; [|by apply D2].
  intros H1. apply (D1 x H1). apply elem_of_app. by left.
Qed.
Lemma has_block_spec l a : has_block l a = true <-> a ∈ addrs l.
Proof.
  unfold has_block. rewrite existsb_exists. split.
  - intros (b & Hb & E). apply list_elem_of_fmap. exists b. split; [lia|by apply list_elem_of_In].
  - intros (b & -> & Hb)%list_elem_of_fmap. exists b. split; [by apply list_elem_of_In|lia].
Qed.
(** The arena that a freed block is in, in the chain. *)
Lemma chain_free_split ch1 l0 ch2 a p t :
  NoDup (addrs (concat (ch1 ++ l0 :: ch2))) -> a ∈ addrs l0 ->
  chain_free (ch1 ++ l0 :: ch2) a p t = let '(l0', p', t') := arena_free l0 a p t in (ch1 ++ l0' :: ch2, p', t').
Proof.
  intros Hnd Ha. destruct (nodup_mid ch1 l0 ch2 a Hnd Ha) as [D1 _]. clear Hnd.
  induction ch1 as [|l ch1 IH]; cbn [app chain_free].
  - by rewrite (proj2 (has_block_spec l0 a)).
  - assert (has_block l a = false) as ->.
    { apply not_true_iff_false. rewrite has_block_spec. intros Hl. apply D1, (elem_addrs_concat l); [constructor|done]. }
    rewrite IH; [by destruct (arena_free l0 a p t) as [[??]?]|]. intros Hc. apply D1. apply addrs_concat in Hc as (l' & Hx & Hl').
    apply (elem_addrs_concat l'); [by right|done].
Qed.

(** ** The invariant of a pool *)

Definition used (ch : list (list Bhdr)) : list Bhdr := filter (fun b => b_magic b = MAGIC_A) (concat ch).
Definition total (l : list Bhdr) : Z := foldr (fun b n => b_size b + n) 0 l.
(** The memory an arena takes. *)
Definition area (l : list Bhdr) : Z * Z :=
  match l with b :: _ => (b_addr b, arena_limit l + (pool_quanta + 1)) | [] => (0, 0) end.
Definition apart (x y : Z * Z) : Prop := x.2 <= y.1 \/ y.2 <= x.1.
Record arenas_ok (ch : list (list Bhdr)) : Prop := {
  ar_ok : Forall arena_ok ch;
  ar_coalesced : Forall coalesced ch;
  ar_apart : ForallOrdPairs apart (area <$> ch);
}.
Record pool_ok (P : Pool) : Prop := {
  po_arenas : arenas_ok (arenas P);
  po_tree : holds (root (pst P)) (free_of (concat (arenas P)));
  po_cursize : cursize (pst P) = total (used (arenas P));
}.

Lemma elem_used b ch : b ∈ used ch <-> b_magic b = MAGIC_A /\ b ∈ concat ch.
Proof. unfold used. by rewrite list_elem_of_filter. Qed.
Lemma total_app l1 l2 : total (l1 ++ l2) = total l1 + total l2.
Proof. induction l1 as [|b l1 IH]; [done|]. cbn in *. unfold total in *. lia. Qed.
#[export] Instance total_perm : Proper ((≡ₚ) ==> eq) total.
Proof. induction 1; unfold total in *; cbn; lia. Qed.
Lemma arena_within l b : arena_ok l -> b ∈ l -> (area l).1 <= b_addr b < (area l).2.
Proof.
  intros [Ht (x & m & e & -> & _)] Hb. cbn [area fst snd]. unfold arena_limit. rewrite app_comm_cons, last_snoc. unfold pool_quanta.
  pose proof (tiled_after _ _ Ht) as Ha. rewrite app_comm_cons in Ht. pose proof (tiled_before _ _ _ Ht) as Hbe.
  assert (Hx : b_addr x < b_addr e) by (apply Ha, elem_of_app; right; constructor).
  rewrite app_comm_cons in Hb. apply elem_of_app in Hb as [Hb|[->|Hb]%elem_of_cons]; [|lia|by apply elem_of_nil in Hb].
  specialize (Hbe b Hb). apply elem_of_cons in Hb as [->|Hb]; [lia|]. specialize (Ha b). rewrite elem_of_app in Ha. specialize (Ha (or_introl Hb)). lia.
Qed.
Lemma pairs_app {A} (R : A -> A -> Prop) l1 x l2 : (forall x y, R x y -> R y x) ->
  ForallOrdPairs R (l1 ++ x :: l2) <-> ForallOrdPairs R (l1 ++ l2) /\ forall y, y ∈ l1 ++ l2 -> R x y.
Proof.
  intros Hsym. induction l1 as [|z l1 IH]; cbn [app].
  - split.
    + intros Hf. inversion Hf as [|?? Hx Hl]. subst. split; [done|]. intros y Hy. rewrite Forall_forall in Hx. by apply Hx, list_elem_of_In.
    + intros [Hl Hx]. constructor; [|done]. apply Forall_forall. intros y Hy. by apply Hx, list_elem_of_In.
  - split.
    + intros Hf. inversion Hf as [|?? Hz Hl]. subst. apply IH in Hl as [Hl Hx]. rewrite Forall_forall in Hz. split.
      * constructor; [|done]. apply Forall_forall. intros y Hy%list_elem_of_In. apply Hz, list_elem_of_In. rewrite elem_of_app in *. rewrite elem_of_cons. tauto.
      * intros y [->|Hy]%elem_of_cons; [|auto]. apply Hsym, Hz, list_elem_of_In, elem_of_app. right. constructor.
    + intros [Hf Hx]. inversion Hf as [|?? Hz Hl]. subst. constructor; [|apply IH; split; [done|intros y Hy; apply Hx; by right]].
      rewrite Forall_forall in Hz. apply Forall_forall. intros y Hy%list_elem_of_In. apply elem_of_app in Hy as [Hy|[->|Hy]%elem_of_cons].
      * apply Hz, list_elem_of_In, elem_of_app. by left.
      * apply Hsym, Hx. constructor.
      * apply Hz, list_elem_of_In, elem_of_app. by right.
Qed.
Lemma apart_sym x y : apart x y -> apart y x.
Proof. unfold apart. tauto. Qed.
Lemma arenas_mid ch1 l ch2 :
  arenas_ok (ch1 ++ l :: ch2) <-> arenas_ok (ch1 ++ ch2) /\ arena_ok l /\ coalesced l /\ (forall l', l' ∈ ch1 ++ ch2 -> apart (area l) (area l')).
Proof.
  split.
  - intros [H1 H2 H3]. rewrite Forall_app, Forall_cons_iff in H1, H2. rewrite fmap_app, fmap_cons, pairs_app, <- fmap_app in H3 by apply apart_sym.
    destruct H3 as [H3 H4]. split; [split; [rewrite Forall_app; tauto|rewrite Forall_app; tauto|done]|]. split; [tauto|]. split; [tauto|].
    intros l' Hl'. apply H4. by apply (list_elem_of_fmap_2 area).
  - intros ([H1 H2 H3] & H4 & H5 & H6). rewrite Forall_app in H1, H2. split; [rewrite Forall_app, Forall_cons_iff; tauto..|].
    rewrite fmap_app, fmap_cons, pairs_app, <- fmap_app by apply apart_sym. split; [done|]. intros y Hy. apply list_elem_of_fmap in Hy as (l' & -> & Hl'). auto.
Qed.
(** Another arena in its place. *)
Lemma area_eq l l' : head l' = head l -> list.last l' = list.last l -> area l' = area l.
Proof.
  intros E1 E2. unfold area. rewrite (arena_limit_eq l l' E2). destruct l as [|b l], l' as [|b' l']; try done. by injection E1 as ->.
Qed.
Lemma arenas_replace ch1 l l' ch2 : arenas_ok (ch1 ++ l :: ch2) -> arena_ok l' -> coalesced l' -> head l' = head l -> list.last l' = list.last l ->
  arenas_ok (ch1 ++ l' :: ch2).
Proof. rewrite !arenas_mid. intros (H1 & H2 & H3 & H4) ? ? ? ?. by rewrite (area_eq l l'). Qed.
Lemma arenas_nodup ch : arenas_ok ch -> NoDup (addrs (concat ch)).
Proof.
  induction ch as [|l ch IH]; [constructor|]. intros Hok. pose proof Hok as (Hch & Hl & _ & Hap)%(arenas_mid []).
  cbn [app concat] in *. unfold addrs. rewrite fmap_app. apply list.NoDup_app. split; [apply tiled_nodup, Hl|]. split; [|by apply IH].
  intros x (b & -> & Hb)%list_elem_of_fmap (l' & Hx & Hl')%addrs_concat. apply list_elem_of_fmap in Hx as (b' & E & Hb').
  pose proof (arena_within l b Hl Hb). assert (Hl2 : arena_ok l') by (destruct Hch as [Hch _ _]; rewrite Forall_forall in Hch; by apply Hch, list_elem_of_In).
  pose proof (arena_within l' b' Hl2 Hb'). destruct (Hap l' Hl'); lia.
Qed.
Lemma block_unique ch x y : NoDup (addrs (concat ch)) -> x ∈ concat ch -> y ∈ concat ch -> b_addr x = b_addr y -> x = y.
Proof.
  intros Hnd Hx Hy E. apply list_elem_of_split in Hx as (l1 & l2 & El). rewrite El in *. unfold addrs in Hnd.
  rewrite fmap_app, fmap_cons, <- Permutation_middle, <- fmap_app in Hnd. apply list.NoDup_cons in Hnd as [Hn _].
  rewrite elem_of_app, elem_of_cons in Hy. destruct Hy as [Hy|[Hy|Hy]]; [|done|]; exfalso; apply Hn; rewrite E; apply list_elem_of_fmap_2, elem_of_app; auto.
Qed.
Lemma block_found ch b : NoDup (addrs (concat ch)) -> b ∈ concat ch -> find (fun x => b_addr x =? b_addr b) (concat ch) = Some b.
Proof.
  intros Hnd Hb. destruct (find (fun x => b_addr x =? b_addr b) (concat ch)) as [x|] eqn:E.
  - apply find_some in E as [H1 H2]. f_equal. apply (block_unique ch); [done|by apply list_elem_of_In|done|lia].
  - exfalso. apply list_elem_of_In in Hb. pose proof (find_none _ _ E b Hb) as Hf. cbn in Hf. lia.
Qed.

(** ** Freeing a block *)

(** Blocks are only freed: the arenas are where they were, and blocks in use stay
    as they are or go. *)
Definition spans (ch : list (list Bhdr)) : list (option Bhdr * option Bhdr) := (fun l => (head l, list.last l)) <$> ch.
Record only_frees (P P' : Pool) : Prop := {
  of_spans : spans (arenas P') = spans (arenas P);
  of_used : forall b, b ∈ used (arenas P') -> b ∈ used (arenas P);
  of_ok : pool_ok P -> pool_ok P';
}.
Lemma only_frees_refl P : only_frees P P.
Proof. by split. Qed.
Lemma only_frees_eq P P' : P' = P -> only_frees P P'.
Proof. intros ->. apply only_frees_refl. Qed.
Lemma only_frees_trans P1 P2 P3 : only_frees P1 P2 -> only_frees P2 P3 -> only_frees P1 P3.
Proof. intros [A1 A2 A3] [B1 B2 B3]. split; [congruence|auto|auto]. Qed.

Lemma used_step ch1 l l' ch2 a b : NoDup (addrs (concat (ch1 ++ l :: ch2))) -> NoDup (addrs (concat (ch1 ++ l' :: ch2))) ->
  b ∈ l -> b_magic b = MAGIC_A -> b_addr b = a -> (forall x, b_magic x = MAGIC_A -> (x ∈ l' <-> x ∈ l /\ b_addr x <> a)) ->
  used (ch1 ++ l :: ch2) ≡ₚ b :: used (ch1 ++ l' :: ch2).
Proof.
  intros Hnd Hnd' Hb Hm <- Hl. assert (Hnb : forall ch, NoDup (addrs (concat ch)) -> NoDup (used ch)).
  { intros ch Hn. apply list.NoDup_filter. unfold addrs in Hn. by apply NoDup_fmap_1 in Hn. }
  pose proof (nodup_mid ch1 l ch2 (b_addr b) Hnd (list_elem_of_fmap_2 _ _ _ Hb)) as [D1 D2].
  assert (Hin : forall x l, x ∈ concat (ch1 ++ l :: ch2) <-> x ∈ concat ch1 \/ x ∈ l \/ x ∈ concat ch2).
  { intros x l2. rewrite concat_app. cbn [concat]. by rewrite !elem_of_app. }
  apply NoDup_Permutation; [by apply Hnb| |].
  - constructor; [|by apply Hnb]. rewrite elem_used, Hin. intros [_ [Hx|[Hx|Hx]]].
    + by apply D1, list_elem_of_fmap_2.
    + apply (Hl b Hm) in Hx as [_ Hx]. by apply Hx.
    + by apply D2, list_elem_of_fmap_2.
  - intros x. rewrite elem_of_cons, !elem_used, !Hin. destruct (decide (x = b)) as [->|Hn]; [tauto|].
    assert (Hne : b_magic x = MAGIC_A -> x ∈ l -> b_addr x <> b_addr b).
    { intros _ Hx E. apply Hn. apply (block_unique (ch1 ++ l :: ch2)); [done|apply Hin; tauto..|done]. }
    split; [|intros [?|[Hx Hc]]; [done|]; split; [done|]]; [intros [Hx Hc]; right; split; [done|]|];
      (destruct Hc as [?|[Hc|?]]; [tauto| |tauto]); right; left; [apply Hl; auto|by apply (Hl x Hx)].
Qed.

Lemma tiled_size l1 x y l2 : tiled (l1 ++ x :: y :: l2) -> 0 < b_size x.
Proof. intros Ht. apply tiled_app_r in Ht. apply Ht. Qed.
Lemma arena_free_size l a p t b : arena_ok l -> b ∈ l -> b_magic b = MAGIC_A -> b_addr b = a ->
  let '(l', _, _) := arena_free l a p t in exists x, x ∈ free_of l' /\ x.1 <= b_addr b /\ b_addr b + b_size b <= x.1 + x.2.
Proof.
  intros Hok Hb Hm <-. destruct (arena_around l b Hok Hb Hm) as (pre & c & post & -> & Hpost & Hn).
  rewrite arena_free_skip by done. cbn [arena_free]. rewrite Z.eqb_refl. destruct Hok as [Ht Hends].
  assert (Hj : let '(b2, post2, p2, t2) := join_forward b post p t in b_addr b2 = b_addr b /\ b_size b <= b_size b2).
  { destruct post as [|y post]; [done|]. cbn [join_forward]. destruct (decide (b_magic y = MAGIC_F)) as [Hy|Hy]; [|split; [done|lia]]. cbn [b_size b_addr].
    split; [done|]. destruct post as [|z post].
    - destruct Hends as (x & m & e & E & _ & He). change (pre ++ c :: b :: [y]) with (pre ++ [c; b] ++ [y]) in E. rewrite app_assoc, app_comm_cons in E.
      apply app_inj_tail in E as [_ ->]. congruence.
    - pose proof (tiled_size (pre ++ [c; b]) y z post) as Hs. rewrite <- app_assoc in Hs. specialize (Hs Ht). lia. }
  assert (Hc0 : 0 < b_size c /\ b_addr b = b_addr c + b_size c) by (apply tiled_app_r in Ht; destruct Ht as (? & ? & _); done).
  destruct (join_forward b post p t) as [[[b2 post2] p2] t2]. destruct (decide (b_magic c = MAGIC_F)) as [Hc|Hc].
  - exists (b_addr c, b_size c + b_size b2). split; [|cbn in *; lia]. rewrite free_of_app, free_of_cons, decide_True by done. apply elem_of_app. right. constructor.
  - exists (b_addr b2, b_size b2). split; [|cbn in *; lia]. rewrite free_of_app, !free_of_cons, (decide_True (P := b_magic (mkBhdr _ _ MAGIC_F) = MAGIC_F)) by done.
    rewrite !elem_of_app. right. right. left. constructor.
Qed.
Lemma used_split b ch : b ∈ used ch -> exists ch1 l ch2, ch = ch1 ++ l :: ch2 /\ b ∈ l /\ b_magic b = MAGIC_A.
Proof. intros [Hm (l & Hb & Hl)%concat_elem]%elem_used. apply list_elem_of_split in Hl as (ch1 & ch2 & ->). eauto 10. Qed.
Lemma free_of_split ch1 l ch2 : free_of (concat (ch1 ++ l :: ch2)) ≡ₚ free_of l ++ free_of (concat ch1) ++ free_of (concat ch2).
Proof. rewrite concat_app. cbn [concat]. rewrite !free_of_app. apply Permutation_app_swap_app. Qed.

Lemma poolfree_ok P v p b : Forall arena_ok (arenas P) -> NoDup (addrs (concat (arenas P))) -> b ∈ used (arenas P) -> b_addr b = D2B v ->
  let '(P', _) := poolfree P v p in
  only_frees P P' /\ used (arenas P) ≡ₚ b :: used (arenas P') /\ cursize (pst P') = cursize (pst P) - b_size b /\
  exists x, x ∈ free_of (concat (arenas P')) /\ x.1 <= b_addr b /\ b_addr b + b_size b <= x.1 + x.2.
Proof.
  intros Hok Hnd Hb Ea. pose proof (proj2 (proj1 (elem_used b _) Hb)) as Hbc. destruct (used_split b _ Hb) as (ch1 & l & ch2 & E & Hbl & Hm).
  unfold poolfree, block_size. rewrite <- Ea, block_found by done. rewrite E in *.
  assert (Hl : arena_ok l) by (apply Forall_app in Hok as [_ Hok]; by apply Forall_cons_iff in Hok as [Hok _]).
  assert (Hal : b_addr b ∈ addrs l) by by apply list_elem_of_fmap_2.
  rewrite chain_free_split by done.
  pose proof (arena_free_ok l _ p (root (pst P)) b Hl Hbl Hm eq_refl) as St. pose proof (arena_free_coalesced l (b_addr b) p (root (pst P)) b Hl) as Hco.
  pose proof (arena_free_tree l _ p (root (pst P)) b (free_of (concat ch1) ++ free_of (concat ch2)) Hl Hbl Hm eq_refl) as Htr.
  pose proof (arena_free_size l _ p (root (pst P)) b Hl Hbl Hm eq_refl) as Hsz.
  destruct (arena_free l (b_addr b) p (root (pst P))) as [[l' p'] t']. cbn [arenas pst].
  assert (Hnd' : NoDup (addrs (concat (ch1 ++ l' :: ch2)))).
  { eapply sublist_NoDup; [exact Hnd|]. rewrite !concat_app. cbn [concat]. unfold addrs. rewrite !fmap_app.
    apply sublist_app; [done|]. apply sublist_app; [apply St|done]. }
  pose proof (used_step ch1 l l' ch2 (b_addr b) b Hnd Hnd' Hbl Hm eq_refl (as_used _ _ _ _ _ St)) as Hu.
  split; [split|].
  - rewrite E. unfold spans. cbn [arenas]. rewrite !fmap_app, !fmap_cons. by rewrite (as_head _ _ _ _ _ St), (as_last _ _ _ _ _ St).
  - rewrite E. cbn [arenas]. intros x Hx. rewrite Hu. by right.
  - intros [A T C]. rewrite E in A, T, C. split; cbn [arenas pst root with_root cursize with_cursize].
    + apply (arenas_replace ch1 l); [done|apply St| |apply St|apply St]. apply Hco; [|done..]. by apply arenas_mid in A as (_ & _ & ? & _).
    + eapply holds_perm; [symmetry; apply free_of_split|]. apply Htr; [eapply holds_perm; [apply free_of_split|done]|].
      intros x Hx Hin. destruct (nodup_mid ch1 l ch2 _ Hnd Hin) as [D1 D2]. apply elem_of_app in Hx as [Hx|Hx]; apply free_of_addrs in Hx; auto.
    + rewrite C, Hu. change (total (b :: used (ch1 ++ l' :: ch2))) with (b_size b + total (used (ch1 ++ l' :: ch2))). lia.
  - split; [done|]. split; [done|]. destruct Hsz as (x & Hx & Hs). exists x. split; [|done]. rewrite free_of_split. apply elem_of_app. by left.
Qed.

(** ** Allocating *)

Lemma ldiff_round x n : 0 <= n -> Z.land x (Z.lnot (2 ^ n - 1)) = x / 2 ^ n * 2 ^ n.
Proof.
  intros Hn. rewrite <- Z.ldiff_land. replace (2 ^ n - 1) with (Z.ones n) by (rewrite Z.ones_equiv; lia).
  by rewrite Z.ldiff_ones_r, Z.shiftl_mul_pow2, Z.shiftr_div_pow2.
Qed.
(** Sizes are multiples of 128 with room for the headers. *)
Lemma round_size_ok asize : 0 <= asize -> asize + BHDRSIZE <= round_size asize < asize + BHDRSIZE + 128 /\ round_size asize mod 128 = 0.
Proof.
  intros Ha. assert (E : round_size asize = (asize + BHDRSIZE + pool_quanta) / 128 * 128).
  { unfold round_size. change (Z.lnot pool_quanta) with (Z.lnot (2 ^ 7 - 1)). by rewrite ldiff_round. }
  rewrite E. split; [|by apply Z.mod_mul]. unfold pool_quanta, BHDRSIZE, sizeof_Bhdr.
  pose proof (Z.div_mod (asize + (32 + 8) + 127) 128 ltac:(lia)). pose proof (Z.mod_pos_bound (asize + (32 + 8) + 127) 128 ltac:(lia)). lia.
Qed.
Lemma splits_size s size : splits s size = true -> 4 <= size -> size < s.
Proof.
  unfold splits. intros Hs H4. apply negb_true_iff, andb_false_iff in Hs. rewrite Z.shiftr_div_pow2 in Hs by lia.
  assert (1 <= size / 2 ^ 2) by (apply Z.div_le_lower_bound; lia). lia.
Qed.

Section Take.
Context (l1 l2 : list Bhdr) (b : Bhdr) (size : Z).
Context (Hok : arena_ok (l1 ++ b :: l2)) (Hb : b_magic b = MAGIC_F) (Hs : 4 <= size <= b_size b).
Abbreviation tk := (take (b_size b) size (b_addr b)).

Lemma take_ends : l1 <> [] /\ l2 <> [].
Proof.
  destruct Hok as [_ (x & m & e & E & Hx & He)]. split; intros ->.
  - injection E as -> _. congruence.
  - rewrite app_comm_cons in E. apply app_inj_tail in E as [_ ->]. congruence.
Qed.
Lemma tiled_split (u v w : Bhdr) : b_addr u = b_addr w -> b_addr v = b_addr u + b_size u -> 0 < b_size u -> 0 < b_size v -> b_size u + b_size v = b_size w ->
  tiled (l1 ++ w :: l2) -> tiled (l1 ++ u :: v :: l2).
Proof.
  intros E1 E2 Hu Hv E3. clear Hok. induction l1 as [|z l1' IH]; cbn [app].
  - destruct l2 as [|y l2']; [cbn; auto|]. rewrite !tiled_cons. intros (H1 & H2 & H3). split; [done|]. split; [done|]. split; [done|]. split; [lia|done].
  - destruct l1' as [|y l1']; cbn [app] in *.
    + rewrite (tiled_cons z w), (tiled_cons z u). intros (H1 & H2 & H3). split; [done|]. split; [lia|]. by apply IH.
    + rewrite !tiled_cons. intros (H1 & H2 & H3). split; [done|]. split; [done|]. by apply IH.
Qed.
Lemma take_tiled : tiled (l1 ++ tk ++ l2).
Proof.
  unfold take. destruct (splits (b_size b) size) eqn:E; cbn [app].
  - apply splits_size in E; [|lia]. apply (tiled_split _ _ b); cbn [b_addr b_size]; try lia; apply Hok.
  - apply (tiled_replace _ b); [done|done|]. apply Hok.
Qed.
Lemma take_arena : arena_ok (l1 ++ tk ++ l2) /\ head (l1 ++ tk ++ l2) = head (l1 ++ b :: l2) /\ list.last (l1 ++ tk ++ l2) = list.last (l1 ++ b :: l2).
Proof.
  destruct take_ends as [H1 H2]. pose proof take_tiled as Ht. destruct Hok as [_ (x & m & e & E & Hx & He)].
  destruct l1 as [|x' l1']; [done|]. injection E as -> E. destruct (exists_last H2) as (l2' & e' & E2). rewrite E2 in *.
  assert (e' = e) as -> by (rewrite app_comm_cons, app_assoc in E; by apply app_inj_tail in E as [_ ->]).
  split; [|split; [done|by rewrite !app_comm_cons, !app_assoc, !last_snoc]].
  split; [done|]. exists x, (l1' ++ tk ++ l2'), e. cbn [app]. by rewrite <- !app_assoc.
Qed.
Lemma take_coalesced : coalesced (l1 ++ b :: l2) -> coalesced (l1 ++ tk ++ l2).
Proof.
  intros Hc. apply coalesced_app in Hc as [Hc1 Hc2]. apply coalesced_front in Hc1.
  assert (Hx : forall x, b_magic x = MAGIC_F -> coalesced (x :: l2)).
  { intros x Hx. destruct l2 as [|y l2']; [done|]. rewrite coalesced_cons in *. unfold free_pair in *. tauto. }
  unfold take. destruct (splits (b_size b) size); cbn [app]; rewrite coalesced_app.
  - split; [by apply coalesced_used|]. rewrite coalesced_cons. split; [by intros [? _]|by apply Hx].
  - split; [by apply coalesced_used|]. apply coalesced_tail in Hc2. destruct l2 as [|y l2']; [done|]. rewrite coalesced_cons. split; [by intros [? _]|done].
Qed.
(** The block that is got. *)
Definition taken : Bhdr := mkBhdr (b_addr b) (if splits (b_size b) size then size else b_size b) MAGIC_A.
Lemma take_used : filter (fun x => b_magic x = MAGIC_A) (l1 ++ tk ++ l2) ≡ₚ taken :: filter (fun x => b_magic x = MAGIC_A) (l1 ++ b :: l2).
Proof.
  rewrite !list.filter_app, (filter_cons _ b), (decide_False (P := b_magic b = MAGIC_A)) by congruence.
  unfold take, taken. destruct (splits (b_size b) size); rewrite !filter_cons; cbn [b_magic]; rewrite !(decide_True (P := MAGIC_A = MAGIC_A)) by done;
    rewrite ?(decide_False (P := MAGIC_F = MAGIC_A)) by done; cbn [app]; by rewrite <- Permutation_middle.
Qed.
Lemma taken_size : size <= b_size taken.
Proof. unfold taken. cbn. destruct (splits _ _); lia. Qed.
End Take.

Lemma bind_single (l : list Bhdr) (f : Bhdr -> list Bhdr) a : (a ∉ addrs l) -> l ≫= (fun b => if b_addr b =? a then f b else [b]) = l.
Proof.
  induction l as [|x l IH]; [done|]. intros Hn. unfold addrs in Hn. rewrite fmap_cons, not_elem_of_cons in Hn. destruct Hn as [Hx Hn].
  cbn. destruct (Z.eqb_spec (b_addr x) a); [congruence|]. cbn. f_equal. by apply IH.
Qed.
Lemma chain_take_split ch1 l1 b l2 ch2 size : NoDup (addrs (concat (ch1 ++ (l1 ++ b :: l2) :: ch2))) ->
  chain_take (ch1 ++ (l1 ++ b :: l2) :: ch2) (b_addr b) size = ch1 ++ (l1 ++ take (b_size b) size (b_addr b) ++ l2) :: ch2.
Proof.
  intros Hnd. destruct (nodup_mid ch1 (l1 ++ b :: l2) ch2 (b_addr b) Hnd) as [D1 D2].
  { apply list_elem_of_fmap_2, elem_of_app. right. constructor. }
  assert (Hno : forall ch, (b_addr b ∉ addrs (concat ch)) -> chain_take ch (b_addr b) size = ch).
  { induction ch as [|l ch IH]; [done|]. intros Hn. cbn. f_equal.
    - apply bind_single. intros Hx. apply Hn, (elem_addrs_concat l); [constructor|done].
    - apply IH. intros Hx. apply Hn. apply addrs_concat in Hx as (l' & Hx & Hl'). apply (elem_addrs_concat l'); [by right|done]. }
  unfold chain_take. rewrite fmap_app, fmap_cons. fold (chain_take ch1 (b_addr b) size) (chain_take ch2 (b_addr b) size).
  rewrite !Hno by done. f_equal. f_equal. rewrite bind_app. cbn [mbind list_bind]. rewrite Z.eqb_refl. fold (mbind (M := list) (A := Bhdr) (B := Bhdr)).
  assert (Hl : tiled (l1 ++ b :: l2) \/ NoDup (addrs (l1 ++ b :: l2))).
  { right. rewrite concat_app in Hnd. cbn [concat] in Hnd. unfold addrs in *. rewrite !fmap_app in Hnd. apply list.NoDup_app in Hnd as (_ & _ & Hnd).
    apply list.NoDup_app in Hnd as (Hnd & _). by rewrite fmap_app. }
  assert (Hl' : NoDup (addrs (l1 ++ b :: l2))) by (destruct Hl; [by apply tiled_nodup|done]).
  unfold addrs in Hl'. rewrite fmap_app, fmap_cons, <- Permutation_middle in Hl'. apply list.NoDup_cons in Hl' as [Hl' _]. rewrite elem_of_app in Hl'.
  f_equal; [apply bind_single; tauto|]. f_equal. apply bind_single. tauto.
Qed.

(** A free block of the pool, where it is. *)
Lemma free_split ch a s : (a, s) ∈ free_of (concat ch) ->
  exists ch1 l1 b l2 ch2, ch = ch1 ++ (l1 ++ b :: l2) :: ch2 /\ b_addr b = a /\ b_size b = s /\ b_magic b = MAGIC_F.
Proof.
  intros (b & E & Hb)%list_elem_of_fmap. injection E as -> ->. apply list_elem_of_filter in Hb as [Hm Hb].
  apply concat_elem in Hb as (l & Hb & Hl). apply list_elem_of_split in Hb as (l1 & l2 & ->). apply list_elem_of_split in Hl as (ch1 & ch2 & ->). eauto 10.
Qed.
(** The arenas after a block of the tree is put in use. *)
Record takes (ch ch' : list (list Bhdr)) (b : Bhdr) : Prop := {
  tk_ok : arenas_ok ch';
  tk_spans : spans ch' = spans ch;
  tk_used : used ch' ≡ₚ b :: used ch;
  tk_new : b_addr b ∉ addrs (used ch);
  tk_split : exists ch1 l l' ch2, ch = ch1 ++ l :: ch2 /\ ch' = ch1 ++ l' :: ch2 /\ head l' = head l /\ list.last l' = list.last l /\
    forall x, x ∈ addrs l -> x ∈ addrs l';
}.
Lemma free_nodup l : NoDup (addrs l) -> NoDup (free_of l).
Proof.
  unfold addrs, free_of. intros Hnd. apply (NoDup_fmap_1 fst). rewrite <- list_fmap_compose. cbn.
  apply (sublist_NoDup _ (b_addr <$> l)); [done|]. apply fmap_sublist, sublist_filter.
Qed.
Lemma alloc_found_ok P a s size : pool_ok P -> (a, s) ∈ elements (root (pst P)) -> 4 <= size <= s ->
  exists b, pool_ok (alloc_found P a s size) /\ takes (arenas P) (arenas (alloc_found P a s size)) b /\ b_addr b = a /\ size <= b_size b.
Proof.
  intros [A T C] Hin Hs. destruct T as (T1 & T2 & T3). pose proof Hin as Hf. rewrite T2 in Hf.
  destruct (free_split _ _ _ Hf) as (ch1 & l1 & b & l2 & ch2 & E & Ea & Es & Hm). subst a s.
  pose proof (arenas_nodup _ A) as Hnd. rewrite E in Hnd, A. pose proof A as (_ & Hl & Hco & _)%arenas_mid.
  destruct (take_arena l1 l2 b size Hl Hm Hs) as (Hl' & Eh & El). assert (Hco' : coalesced (l1 ++ take (b_size b) size (b_addr b) ++ l2)) by by apply take_coalesced.
  pose proof (arenas_replace ch1 _ _ ch2 A Hl' Hco' Eh El) as A'.
  assert (Hu : used (ch1 ++ (l1 ++ take (b_size b) size (b_addr b) ++ l2) :: ch2) ≡ₚ taken b size :: used (ch1 ++ (l1 ++ b :: l2) :: ch2)).
  { unfold used. rewrite !concat_app. cbn [concat]. rewrite !(list.filter_app _ (concat ch1)), !(list.filter_app _ _ (concat ch2)).
    rewrite (take_used l1 l2 b size) by done. cbn [app]. by rewrite <- Permutation_middle. }
  assert (Hch : arenas (alloc_found P (b_addr b) (b_size b) size) = ch1 ++ (l1 ++ take (b_size b) size (b_addr b) ++ l2) :: ch2).
  { unfold alloc_found. rewrite E, chain_take_split by done. by destruct (splits _ _). }
  assert (Hfree : forall l, free_of (concat (ch1 ++ (l1 ++ l ++ l2) :: ch2)) ≡ₚ free_of l ++ free_of (l1 ++ l2) ++ free_of (concat ch1) ++ free_of (concat ch2)).
  { intros l. rewrite free_of_split, !free_of_app, <- !app_assoc. apply Permutation_app_swap_app. }
  assert (Hdel : holds (pooldel (root (pst P)) (b_addr b) (b_size b)) (free_of (l1 ++ l2) ++ free_of (concat ch1) ++ free_of (concat ch2))).
  { apply holds_del. split; [done|]. rewrite E in T2, T3. pose proof (Hfree [b]) as Hb. cbn [app] in Hb. rewrite free_of_cons, decide_True in Hb by done.
    cbn [app] in Hb. change (free_of [] ++ ?x) with x in Hb. rewrite <- Hb. done. }
  exists (taken b size). rewrite Hch, E. split; [|split; [split|]].
  - unfold alloc_found. rewrite E, chain_take_split by done. unfold take in *. unfold taken in Hu. destruct (splits (b_size b) size) eqn:Esp; split; cbn [arenas pst root with_root with_cursize cursize]; try done.
    + eapply holds_perm; [symmetry; apply Hfree|]. rewrite !free_of_cons, decide_False, decide_True by done. cbn [app b_addr b_size]. apply holds_add; [|done].
      pose proof (free_nodup _ (arenas_nodup _ A')) as Hnd'. rewrite Hfree, !free_of_cons, decide_False, decide_True in Hnd' by done. cbn [app] in Hnd'.
      by apply list.NoDup_cons in Hnd' as [Hnd' _].
    + rewrite C, E, Hu. unfold total. cbn. lia.
    + eapply holds_perm; [symmetry; apply Hfree|]. rewrite free_of_cons, decide_False by done. done.
    + rewrite C, E, Hu. unfold total. cbn. lia.
  - done.
  - unfold spans. rewrite !fmap_app, !fmap_cons. by rewrite Eh, El.
  - done.
  - intros Hx. apply list_elem_of_fmap in Hx as (y & Ey & Hy). apply elem_used in Hy as [Hym Hy].
    assert (y = b) as -> by (apply (block_unique (ch1 ++ (l1 ++ b :: l2) :: ch2)); [done|done| |done]; rewrite concat_app; cbn [concat]; rewrite !elem_of_app; right; left; right; constructor).
    congruence.
  - eexists ch1, _, _, ch2. split; [done|]. split; [done|]. split; [done|]. split; [done|]. intros x. unfold addrs, take.
    destruct (splits _ _); rewrite !fmap_app, !fmap_cons, !elem_of_app, !elem_of_cons; cbn [b_addr]; rewrite ?fmap_cons, ?elem_of_cons; tauto.
  - split; [done|]. by apply taken_size.
Qed.

(** A chain with an arena in front. *)
Lemma used_cons l ch : used (l :: ch) = filter (fun b => b_magic b = MAGIC_A) l ++ used ch.
Proof. unfold used. cbn [concat]. by rewrite list.filter_app. Qed.
Lemma free_cons l ch : free_of (concat (l :: ch)) = free_of l ++ free_of (concat ch).
Proof. cbn [concat]. by rewrite free_of_app. Qed.
Lemma arena_cons l ch : arenas_ok ch -> arena_ok l -> coalesced l -> (forall l', l' ∈ ch -> apart (area l) (area l')) -> arenas_ok (l :: ch).
Proof. intros. by apply (arenas_mid [] l ch). Qed.
Lemma fresh_used P l b : pool_ok P -> arena_ok l -> (forall l', l' ∈ arenas P -> apart (area l) (area l')) -> b ∈ l -> b_addr b ∉ addrs (used (arenas P)).
Proof.
  intros [A _ _] Hl Hap Hb Hx. apply list_elem_of_fmap in Hx as (y & E & Hy). apply elem_used in Hy as [_ Hy]. apply concat_elem in Hy as (l' & Hy & Hl').
  assert (Hok : arena_ok l') by (destruct A as [A _ _]; rewrite Forall_forall in A; by apply A, list_elem_of_In).
  pose proof (arena_within l b Hl Hb). pose proof (arena_within l' y Hok Hy). destruct (Hap l' Hl'); lia.
Qed.
(** What an allocation adds. *)
Record gets_block (P P' : Pool) (b : Bhdr) : Prop := {
  gb_ok : pool_ok P';
  gb_used : used (arenas P') ≡ₚ b :: used (arenas P);
  gb_new : b_addr b ∉ addrs (used (arenas P));
}.
(** Such an arena with one block in use. *)
Lemma front_ok P l b st : pool_ok P -> arena_ok l -> coalesced l -> (forall l', l' ∈ arenas P -> apart (area l) (area l')) ->
  filter (fun b => b_magic b = MAGIC_A) l = [b] -> cursize st = cursize (pst P) + b_size b ->
  (free_of l = [] /\ root st = root (pst P) \/ exists f, free_of l = [f] /\ root st = pooladd (root (pst P)) f.1 f.2) ->
  gets_block P (mkPool (l :: arenas P) st) b.
Proof.
  intros HP Hl Hco Hap Hu Hc Hf. pose proof HP as [A T C]. assert (A' : arenas_ok (l :: arenas P)) by by apply arena_cons.
  assert (Hb : b ∈ l) by (assert (Hb : b ∈ [b]) by constructor; rewrite <- Hu in Hb; by apply list_elem_of_filter in Hb as [_ ?]).
  split; cbn [arenas pst]; [split; cbn [arenas pst]| |]; [done| | |by rewrite used_cons, Hu|by apply (fresh_used P l b)].
  - destruct Hf as [[Hf ->]|([a s] & Hf & ->)]; rewrite free_cons, Hf; [done|]. cbn [app fst snd]. apply holds_add; [|done].
    pose proof (free_nodup _ (arenas_nodup _ A')) as Hnd. rewrite free_cons, Hf in Hnd. by apply list.NoDup_cons in Hnd as [Hnd _].
  - rewrite used_cons, Hu, Hc, C. unfold total. cbn. lia.
Qed.
Lemma new_arena_ok P t ns size garbage : pool_ok P -> 4 <= size <= ns ->
  (forall l, l ∈ arenas P -> apart (t, t + (ns + 128 + 128)) (area l)) ->
  gets_block P (new_arena P t ns size garbage) (mkBhdr (t + 128) size MAGIC_A).
Proof.
  intros HP Hs Hap. unfold new_arena. change (pool_quanta + 1) with 128. cbn [app].
  set (b := mkBhdr (t + 128) size MAGIC_A). set (x := mkBhdr t 128 MAGIC_E). set (e := mkBhdr (t + 128 + ns) garbage MAGIC_E).
  set (f := mkBhdr (t + 128 + size) (ns - size) MAGIC_F).
  assert (Har : forall m, area (x :: m ++ [e]) = (t, t + (ns + 128 + 128))).
  { intros m. unfold area, arena_limit. rewrite app_comm_cons, last_snoc. unfold pool_quanta. cbn. f_equal. lia. }
  destruct (Z.ltb_spec 0 (ns - size)) as [Hf|Hf].
  - apply front_ok; try done; [split; [cbn; lia|by exists x, [b; f], e]|cbn; unfold free_pair; cbn; intuition discriminate|by rewrite (Har [b; f] : area [x; b; f; e] = _)|].
    right. exists (t + 128 + size, ns - size). done.
  - assert (ns = size) as -> by lia.
    apply front_ok; try done; [split; [cbn; lia|by exists x, [b], e]|cbn; unfold free_pair; cbn; intuition discriminate|by rewrite (Har [b] : area [x; b; e] = _)|by left].
Qed.

(** The area after the head arena, as a block in use of that arena. *)
Lemma extend_arena_snoc l e alloc garbage :
  extend_arena (l ++ [e]) alloc garbage = l ++ [mkBhdr (b_addr e) alloc MAGIC_A; mkBhdr (b_addr e + alloc) garbage MAGIC_E].
Proof. induction l as [|x l IH]; [done|]. cbn [app extend_arena]. destruct l; [done|]. cbn [app] in *. by rewrite <- IH. Qed.
Lemma tiled_extend l e alloc u v : tiled (l ++ [e]) -> 0 < alloc -> b_addr u = b_addr e -> b_size u = alloc -> b_addr v = b_addr e + alloc -> tiled (l ++ [u; v]).
Proof.
  intros Ht Ha E1 E2 E3. induction l as [|x l IH]; cbn [app] in *; [cbn; lia|]. destruct l as [|y l]; cbn [app] in *.
  - apply tiled_cons in Ht as (H1 & H2 & _). rewrite !tiled_cons. split; [done|]. split; [lia|]. split; [lia|]. split; [lia|done].
  - apply tiled_cons in Ht as (H1 & H2 & Ht). rewrite tiled_cons. auto.
Qed.
Lemma extend_ok P l ch alloc garbage : pool_ok P -> arenas P = l :: ch -> 0 < alloc ->
  (forall l', l' ∈ arenas P -> apart (arena_limit l + 128, arena_limit l + 128 + alloc) (area l')) ->
  gets_block P (extend P alloc garbage) (mkBhdr (arena_limit l) alloc MAGIC_A).
Proof.
  intros HP E Halloc Hap. pose proof HP as [A T C]. rewrite E in A, Hap. pose proof A as (Ach & Hl & Hco & Hal)%(arenas_mid []).
  pose proof Hl as [Ht (x & m & e & -> & Hx & He)]. assert (Hlim : arena_limit (x :: m ++ [e]) = b_addr e) by (unfold arena_limit; by rewrite app_comm_cons, last_snoc).
  rewrite Hlim in *. set (b := mkBhdr (b_addr e) alloc MAGIC_A). set (e' := mkBhdr (b_addr e + alloc) garbage MAGIC_E).
  assert (Hext : extend_arena (x :: m ++ [e]) alloc garbage = x :: m ++ [b; e']) by apply (extend_arena_snoc (x :: m) e).
  set (l' := x :: m ++ [b; e']) in *. assert (Hlast : l' = x :: (m ++ [b]) ++ [e']) by (unfold l'; by rewrite <- app_assoc).
  assert (Hl' : arena_ok l').
  { split; [by apply (tiled_extend (x :: m) e alloc)|]. exists x, (m ++ [b]), e'. done. }
  assert (Harea : area l' = (b_addr x, b_addr e + 128 + alloc)).
  { rewrite Hlast. unfold area, arena_limit. rewrite app_comm_cons, last_snoc. unfold pool_quanta. cbn. f_equal. lia. }
  assert (Harea0 : area (x :: m ++ [e]) = (b_addr x, b_addr e + 128)) by (unfold area; by rewrite Hlim).
  assert (Hap' : forall y, y ∈ ch -> apart (area l') (area y)).
  { intros y Hy. specialize (Hal y Hy). specialize (Hap y ltac:(by right)). rewrite Harea0 in Hal. rewrite Harea. unfold apart in *. cbn [fst snd] in *.
    assert (Hya : arena_ok y) by (destruct Ach as [H1 _ _]; rewrite Forall_forall in H1; by apply H1, list_elem_of_In).
    pose proof Hya as [_ (y0 & my & ey & -> & _)]. pose proof (arena_within _ y0 Hya ltac:(constructor)). lia. }
  assert (Hco' : coalesced l').
  { unfold l'. rewrite app_comm_cons, coalesced_app. split; [|cbn; unfold free_pair; cbn; intuition discriminate].
    rewrite app_comm_cons in Hco. apply coalesced_used; [done|]. by apply coalesced_front in Hco. }
  assert (A' : arenas_ok (l' :: ch)) by by apply arena_cons.
  assert (Hf : free_of l' = free_of (x :: m ++ [e])).
  { unfold l'. rewrite !(free_of_cons x), !free_of_app, !free_of_cons, (decide_False (P := b_magic b = MAGIC_F)), (decide_False (P := b_magic e' = MAGIC_F)), (decide_False (P := b_magic e = MAGIC_F)) by (done || congruence). done. }
  assert (Hu : filter (fun b => b_magic b = MAGIC_A) l' ≡ₚ b :: filter (fun b => b_magic b = MAGIC_A) (x :: m ++ [e])).
  { unfold l'. rewrite !(filter_cons _ x), !list.filter_app, !filter_cons, (decide_True (P := b_magic b = MAGIC_A)), (decide_False (P := b_magic e' = MAGIC_A)), (decide_False (P := b_magic e = MAGIC_A)) by (done || congruence).
    destruct (decide (b_magic x = MAGIC_A)); [congruence|]. by rewrite <- Permutation_middle. }
  unfold extend. rewrite E, Hext. split; cbn [arenas pst].
  - split; cbn [arenas pst root with_cursize cursize]; [done| |].
    + rewrite E in T. rewrite free_cons in *. by rewrite Hf.
    + rewrite C, E, !used_cons, Hu. unfold total. cbn. lia.
  - rewrite E, !used_cons, Hu. done.
  - rewrite E. intros Hx'. apply list_elem_of_fmap in Hx' as (y & Ey & Hy). apply elem_used in Hy as [Hym Hy].
    assert (y = e) as ->; [|congruence]. apply (block_unique ((x :: m ++ [e]) :: ch)); [by apply arenas_nodup|done| |done].
    cbn [concat]. apply elem_of_app. left. rewrite app_comm_cons. apply elem_of_app. right. constructor.
Qed.

(** *** poolalloc *)

Definition allocated (asize : Z) (P : Pool) (r : option Z) (P' : Pool) : Prop :=
  match r with
  | None => pool_ok P' /\ used (arenas P') ≡ₚ used (arenas P)
  | Some v => exists b, gets_block P P' b /\ v = B2D (b_addr b) /\ asize + BHDRSIZE <= b_size b
  end.
(** What the host promises of new memory: aligned, and apart from all arenas. *)
Definition fresh_memory (brk : Z -> option Z) (P : Pool) : Prop :=
  forall n t, brk n = Some t -> t mod 8 = 0 /\ forall l, l ∈ arenas P -> apart (t, t + n) (area l).
Lemma align8 t : t mod 8 = 0 -> Z.land (t + 7) (Z.lnot 7) = t.
Proof.
  intros Ht. change (Z.lnot 7) with (Z.lnot (2 ^ 3 - 1)). rewrite ldiff_round by lia. change (2 ^ 3) with 8.
  pose proof (Z.div_mod t 8 ltac:(lia)) as E. rewrite Ht in E. rewrite E at 1. rewrite (Z.mul_comm 8), Z.add_0_r, Z.div_add_l by lia.
  change (7 / 8) with 0. lia.
Qed.
Lemma holds_elements P a s : pool_ok P -> (a, s) ∈ elements (root (pst P)) <-> (a, s) ∈ free_of (concat (arenas P)).
Proof. intros [_ (_ & E & _) _]. by rewrite E. Qed.

Section PoolAlloc.
Context (brk : Z -> option Z) (garbage asize : Z) (Hsz : 0 <= asize) (restricted : bool).
Abbreviation alloc := (poolalloc brk garbage).
Definition refused (P : Pool) : bool := ((ressize (pst P) <? cursize (pst P)) && restricted) || (1024 * 1024 * 1024 <=? asize).

Lemma size4 : 4 <= round_size asize.
Proof. destruct (round_size_ok asize Hsz) as [H _]. unfold BHDRSIZE, sizeof_Bhdr in H. lia. Qed.
Lemma refused_None fuel P p : refused P = true -> alloc fuel restricted asize (P, p) = Ok None (P, p).
Proof.
  intros H. destruct fuel; cbn [poolalloc]; rewrite (bind_ok _ _ P (P, p) (P, p)) by done; (apply orb_prop in H as [-> | H]; [done|]);
    rewrite H; by destruct (_ && _).
Qed.
(** A block of the tree. *)
Lemma alloc_search fuel P p a s : pool_ok P -> refused P = false -> search (root (pst P)) (round_size asize) None = Some (a, s) ->
  alloc fuel restricted asize (P, p) = Ok (Some (B2D a)) (alloc_found P a s (round_size asize), p).
Proof.
  intros HP Hr Hs. apply orb_false_elim in Hr as [H1 H2]. destruct fuel; cbn [poolalloc]; rewrite (bind_ok _ _ P (P, p) (P, p)) by done;
    cbv beta; rewrite H1, H2, Hs; reflexivity.
Qed.
Lemma search_some P x : pool_ok P -> x ∈ free_of (concat (arenas P)) -> round_size asize <= x.2 ->
  exists a s, search (root (pst P)) (round_size asize) None = Some (a, s) /\ best_of (free_of (concat (arenas P))) (round_size asize) (Some (a, s)).
Proof.
  intros HP Hx Hle. pose proof (po_tree _ HP) as (T1 & T2 & _).
  assert (Hb : forall b, best_of (elements (root (pst P))) (round_size asize) b -> best_of (free_of (concat (arenas P))) (round_size asize) b).
  { intros [b|]; unfold best_of; setoid_rewrite T2; done. }
  destruct (search_ok (root (pst P)) (round_size asize) None T1) as [([a s] & E & B)|[E B]]; [exists a, s; auto|].
  apply Hb in B. specialize (B x Hx). lia.
Qed.
Lemma alloc_some fuel P p x : pool_ok P -> x ∈ free_of (concat (arenas P)) -> round_size asize <= x.2 ->
  exists r P', alloc fuel restricted asize (P, p) = Ok r (P', p) /\ allocated asize P r P'.
Proof.
  intros HP Hx Hle. destruct (refused P) eqn:Hr; [exists None, P; split; [by apply refused_None|done]|].
  destruct (search_some P x HP Hx Hle) as (a & s & E & Hin & Has & _). exists (Some (B2D a)), (alloc_found P a s (round_size asize)).
  split; [by apply alloc_search|]. pose proof size4. cbn [snd] in Has.
  destruct (alloc_found_ok P a s (round_size asize) HP) as (b & HP' & [T1 T2 T3 T4] & <- & Hbs); [by apply holds_elements|lia|].
  exists b. split; [done|]. split; [done|]. pose proof (round_size_ok asize Hsz). lia.
Qed.
Lemma new_size_ok st size ns : size mod 128 = 0 -> new_size st size = Some ns -> size <= ns.
Proof.
  unfold new_size. intros Hm. destruct (_ <? _); [|intros [= <-]; lia]. destruct (Z.ltb_spec (Z.land (maxsize st - arenasize st - (pool_quanta + 1) - (pool_quanta + 1)) (Z.lnot pool_quanta)) size); [done|].
  intros [= <-]. lia.
Qed.

Lemma gets_same P P1 P' b : used (arenas P1) ≡ₚ used (arenas P) -> gets_block P1 P' b -> gets_block P P' b.
Proof.
  intros E [G1 G2 G3]. split; [done|by rewrite G2, E|]. intros Hin. apply G3. apply list_elem_of_fmap in Hin as (y & -> & Hy).
  apply list_elem_of_fmap_2. by rewrite E.
Qed.
Lemma allocated_same P P1 r P' : used (arenas P1) ≡ₚ used (arenas P) -> allocated asize P1 r P' -> allocated asize P r P'.
Proof.
  intros E. destruct r as [v|]; cbn [allocated]; [|by rewrite E]. intros (b & Hg & Hb). exists b. split; [by apply (gets_same P P1)|done].
Qed.
Lemma grown_ok P n : pool_ok P -> pool_ok (mkPool (arenas P) (with_arenasize (fun m => m + n) (pst P))).
Proof. by intros [A T C]. Qed.
(** The area joins the head arena. *)
Lemma alloc_extends fuel P p l ch n : pool_ok P -> arenas P = l :: ch -> round_size asize <= n ->
  (forall l', l' ∈ arenas P -> apart (arena_limit l + 128, arena_limit l + 128 + n) (area l')) ->
  let st := poolfree (extend P n garbage) (B2D (arena_limit l)) p in
  exists r st', alloc fuel restricted asize st = Ok r st' /\ allocated asize P r st'.1.
Proof.
  intros HP E Hn Hap. pose proof size4. destruct (extend_ok P l ch n garbage HP E ltac:(lia) Hap) as [HP1 Hu1 Hnew1].
  set (P1 := extend P n garbage) in *. set (q := mkBhdr (arena_limit l) n MAGIC_A) in *.
  assert (Hq : q ∈ used (arenas P1)) by (rewrite Hu1; constructor).
  pose proof (poolfree_ok P1 (B2D (arena_limit l)) p q) as Hf. destruct (poolfree P1 (B2D (arena_limit l)) p) as [P2 p2] eqn:E2.
  destruct Hf as (F1 & F2 & F3 & x & Hx & Hxs); [apply HP1|apply arenas_nodup, HP1|done|unfold D2B, B2D; cbn; lia|].
  assert (HP2 : pool_ok P2) by by apply F1. assert (Hu2 : used (arenas P2) ≡ₚ used (arenas P)) by (rewrite Hu1 in F2; by apply Permutation_cons_inv in F2).
  cbn zeta. destruct (refused P2) eqn:Hr.
  - exists None, (P2, p2). split; [by apply refused_None|done].
  - destruct (alloc_some fuel P2 p2 x HP2 Hx ltac:(cbn in *; lia)) as (r & P' & Er & Ha). exists r, (P', p2). split; [done|]. by apply (allocated_same P P2).
Qed.

Lemma poolalloc_ok fuel P p : pool_ok P -> fresh_memory brk P ->
  exists r st', alloc (S fuel) restricted asize (P, p) = Ok r st' /\ allocated asize P r st'.1.
Proof.
  intros HP Hfresh. destruct (refused P) eqn:Hr; [exists None, (P, p); split; [by apply refused_None|done]|].
  pose proof (po_tree _ HP) as (T1 & T2 & _). destruct (search_ok (root (pst P)) (round_size asize) None T1) as [([a s] & E & Hin & Hle & _)|[E _]].
  { destruct (alloc_some (S fuel) P p (a, s) HP) as (r & P' & Er & Ha); [by apply holds_elements|done|]. by exists r, (P', p). }
  pose proof (round_size_ok asize Hsz) as [Hrs Hmod]. pose proof size4. apply orb_false_elim in Hr as [H1 H2]. cbn [poolalloc].
  rewrite (bind_ok _ _ P (P, p) (P, p)) by done. rewrite H1, H2, E. destruct (new_size (pst P) (round_size asize)) as [ns|] eqn:Ens; [|by exists None, (P, p)].
  pose proof (new_size_ok _ _ _ Hmod Ens) as Hns. set (n := ns + (pool_quanta + 1) + (pool_quanta + 1)).
  set (P1 := mkPool (arenas P) (with_arenasize (fun m => m + n) (pst P))). pose proof (grown_ok P n HP : pool_ok P1) as HP1.
  rewrite (bind_ok _ _ tt (P, p) (P1, p)) by done. destruct (brk n) as [t|] eqn:Et; [|by exists None, (P1, p)].
  destruct (Hfresh n t Et) as [Hal Hap]. rewrite (align8 t Hal).
  assert (Hn : n = ns + 128 + 128) by (unfold n, pool_quanta; lia). clearbody n.
  assert (Hnew : exists r st', (modify (fun st => (new_arena st.1 t ns (round_size asize) garbage, st.2));; mret (Some (B2D (t + (pool_quanta + 1))))) (P1, p) = Ok r st' /\ allocated asize P r st'.1).
  { exists (Some (B2D (t + 128))), (new_arena P1 t ns (round_size asize) garbage, p). split; [done|].
    exists (mkBhdr (t + 128) (round_size asize) MAGIC_A). split; [|split; [done|cbn; lia]].
    apply (gets_same P P1); [done|]. apply new_arena_ok; [done|lia|]. intros l Hl. replace (ns + 128 + 128) with n by lia. by apply Hap. }
  destruct (arenas P) as [|l ch] eqn:El; [exact Hnew|].
  destruct (Z.eqb_spec (t - arena_limit l - (pool_quanta + 1)) 0) as [Hadj|]; [|exact Hnew].
  rewrite (bind_ok _ _ tt (P1, p) (extend P1 n garbage, p)) by done.
  rewrite (bind_ok _ _ tt _ (poolfree (extend P1 n garbage) (B2D (arena_limit l)) p)) by done.
  assert (Ht : t = arena_limit l + 128) by (unfold pool_quanta in Hadj; lia).
  destruct (alloc_extends fuel P1 p l ch n HP1 eq_refl ltac:(lia)) as (r & st' & Er & Ha).
  { intros l' Hl'. rewrite <- Ht. by apply Hap. }
  exists r, st'. split; [done|]. apply (allocated_same P P1); [by rewrite El|done].
Qed.
End PoolAlloc.

(** ** Blocks do not overlap *)

Lemma block_end l b : arena_ok l -> b ∈ l -> b_magic b = MAGIC_A -> 0 < b_size b /\ b_addr b + b_size b + (pool_quanta + 1) <= (area l).2.
Proof.
  intros [Ht (x & m & e & E & Hx & He)] Hb Hm.
  assert (Hlim : (area l).2 = b_addr e + (pool_quanta + 1)) by (rewrite E; unfold area, arena_limit; by rewrite app_comm_cons, last_snoc).
  rewrite Hlim. apply list_elem_of_split in Hb as (l1 & l2 & El). rewrite El in Ht. destruct l2 as [|y l2].
  - rewrite El in E. rewrite app_comm_cons in E. apply app_inj_tail in E as [_ ->]. congruence.
  - apply tiled_app_r in Ht. pose proof Ht as (Hs & Ey & Ht'). assert (He2 : e ∈ y :: l2).
    { destruct (exists_last (l := y :: l2)) as (l2' & e' & E2); [done|]. rewrite El, E2 in E. change (b :: l2' ++ [e']) with ((b :: l2') ++ [e']) in E.
      rewrite app_comm_cons, app_assoc in E. apply app_inj_tail in E as [_ ->]. rewrite E2. apply elem_of_app. right. constructor. }
    assert (b_addr y <= b_addr e) by (apply elem_of_cons in He2 as [->|He2]; [lia|]; pose proof (tiled_after _ _ Ht' e He2); lia). lia.
Qed.
Lemma arena_in ch l : arenas_ok ch -> l ∈ ch -> arena_ok l.
Proof. intros [A _ _] Hl. rewrite Forall_forall in A. by apply A, list_elem_of_In. Qed.
Lemma used_within ch b : arenas_ok ch -> b ∈ used ch -> exists l, l ∈ ch /\ (area l).1 <= b_addr b /\ 0 < b_size b /\ b_addr b + b_size b + (pool_quanta + 1) <= (area l).2.
Proof.
  intros A [Hm (l & Hb & Hl)%concat_elem]%elem_used. exists l. pose proof (arena_in ch l A Hl) as Hok. split; [done|].
  split; [apply (arena_within l b Hok Hb)|by apply block_end].
Qed.
Lemma same_arena l u v : arena_ok l -> u ∈ l -> v ∈ l -> b_addr u < b_addr v -> b_addr u + b_size u <= b_addr v.
Proof.
  intros [Ht _] Hu Hv Hlt. apply list_elem_of_split in Hu as (l1 & l2 & ->).
  apply elem_of_app in Hv as [Hv|[->|Hv]%elem_of_cons]; [pose proof (tiled_before _ _ _ Ht v Hv); lia|lia|].
  apply tiled_app_r in Ht. destruct l2 as [|w l2]; [by apply elem_of_nil in Hv|]. destruct Ht as (_ & Ew & Ht).
  apply elem_of_cons in Hv as [->|Hv]; [lia|]. pose proof (tiled_after _ _ Ht v Hv). lia.
Qed.
Definition disjoint (x y : Bhdr) : Prop := b_addr x + b_size x <= b_addr y \/ b_addr y + b_size y <= b_addr x.
Lemma used_disjoint ch x y : arenas_ok ch -> x ∈ used ch -> y ∈ used ch -> x <> y -> disjoint x y.
Proof.
  intros A Hx Hy Hn. destruct (used_split x ch Hx) as (ch1 & l & ch2 & E & Hxl & Hxm).
  pose proof Hy as [Hym Hyc]%elem_used. rewrite E, concat_app in Hyc. cbn [concat] in Hyc.
  assert (Hl : arena_ok l) by (rewrite E in A; by apply arenas_mid in A as (_ & ? & _)).
  destruct (decide (y ∈ l)) as [Hyl|Hyl].
  - destruct (Z.lt_trichotomy (b_addr x) (b_addr y)) as [?|[Ea|?]]; [left; by apply (same_arena l)| |right; by apply (same_arena l)].
    exfalso. apply Hn. apply (block_unique ch); [by apply arenas_nodup|apply elem_used in Hx; tauto|apply elem_used in Hy; tauto|done].
  - rewrite !elem_of_app in Hyc. assert (Hyo : exists l', l' ∈ ch1 ++ ch2 /\ y ∈ l').
    { destruct Hyc as [Hc|[?|Hc]]; [|done|]; apply concat_elem in Hc as (l' & ? & ?); exists l'; rewrite elem_of_app; tauto. }
    destruct Hyo as (l' & Hl' & Hyl'). rewrite E in A. pose proof A as (A' & _ & _ & Hap)%arenas_mid.
    pose proof (arena_in _ l' A' Hl') as Hok'. pose proof (block_end l x Hl Hxl Hxm). pose proof (block_end l' y Hok' Hyl' Hym).
    pose proof (arena_within l x Hl Hxl). pose proof (arena_within l' y Hok' Hyl'). unfold pool_quanta, disjoint in *. destruct (Hap l' Hl'); lia.
Qed.

(** ** What the pool promises *)

(** C6.  An allocation always returns, with fuel for one extension of the
    head arena.  It fails with the blocks in use as they were, or gives a block that
    has room for the bytes asked for and overlaps no block in use; all others stay,
    cursize counts the block, and the tree, the arenas and the free blocks, no two of
    them neighbours, are well formed. *)
Theorem poolalloc_sound brk garbage restricted asize P p n :
  pool_ok P -> fresh_memory brk P -> 0 <= asize ->
  exists r P' p', poolalloc brk garbage (S n) restricted asize (P, p) = Ok r (P', p') /\ pool_ok P' /\
    match r with
    | None => used (arenas P') ≡ₚ used (arenas P) /\ cursize (pst P') = cursize (pst P)
    | Some v => exists b, used (arenas P') ≡ₚ b :: used (arenas P) /\ v = B2D (b_addr b) /\ asize + BHDRSIZE <= b_size b /\
        cursize (pst P') = cursize (pst P) + b_size b /\ forall x, x ∈ used (arenas P) -> disjoint x b
    end.
Proof.
  intros HP Hf Ha. destruct (poolalloc_ok brk garbage asize Ha restricted n P p HP Hf) as (r & [P' p'] & E & Hr). exists r, P', p'. split; [done|].
  destruct r as [v|]; cbn [allocated fst] in Hr.
  - destruct Hr as (b & [G1 G2 G3] & Ev & Hs). split; [done|]. exists b. split; [done|]. split; [done|]. split; [done|]. split.
    + rewrite (po_cursize _ G1), (po_cursize _ HP), G2. unfold total. cbn. lia.
    + intros x Hx. apply (used_disjoint (arenas P')); [apply G1|rewrite G2; by right|rewrite G2; constructor|]. intros ->. by apply G3, list_elem_of_fmap_2.
  - destruct Hr as [G1 G2]. split; [done|]. split; [done|]. by rewrite (po_cursize _ G1), (po_cursize _ HP), G2.
Qed.

(**  The search is best fit: an allocation that some free block has room
    for takes one of the smallest that do, and what it keeps over the size asked for,
    rounded, is less than a quarter of that size and less than 32 KB; the rest becomes
    a free block. *)
Theorem poolalloc_best_fit brk garbage restricted asize P p n x :
  pool_ok P -> 0 <= asize -> refused asize restricted P = false -> x ∈ free_of (concat (arenas P)) -> round_size asize <= x.2 ->
  exists a s b P', poolalloc brk garbage n restricted asize (P, p) = Ok (Some (B2D a)) (P', p) /\ pool_ok P' /\
    (a, s) ∈ free_of (concat (arenas P)) /\ (forall y, y ∈ free_of (concat (arenas P)) -> round_size asize <= y.2 -> s <= y.2) /\
    used (arenas P') ≡ₚ b :: used (arenas P) /\ b_addr b = a /\ round_size asize <= b_size b <= s /\
    (b_size b = round_size asize \/ b_size b - round_size asize < Z.shiftr (round_size asize) 2 /\ b_size b - round_size asize < 32768).
Proof.
  intros HP Ha Hr Hx Hle. pose proof (size4 asize Ha) as H4. destruct (search_some asize P x HP Hx Hle) as (a & s & E & Hin & Has & Hmin).
  cbn [snd] in *. destruct (alloc_found_ok P a s (round_size asize) HP) as (b & HP' & Ht & Eb & Hbs); [by apply holds_elements|lia|].
  exists a, s, b, (alloc_found P a s (round_size asize)). split; [by apply alloc_search|]. split; [done|]. split; [done|]. split; [done|].
  split; [apply Ht|]. split; [done|]. pose proof (po_cursize _ HP') as C'. rewrite (tk_used _ _ _ Ht) in C'. change (total (b :: ?l)) with (b_size b + total l) in C'.
  rewrite <- (po_cursize _ HP) in C'. unfold alloc_found in C'. destruct (splits s (round_size asize)) eqn:Es; cbn [pst cursize with_cursize with_root] in C'.
  - split; [lia|]. left. lia.
  - split; [lia|]. right. assert (b_size b = s) as -> by lia. apply negb_false_iff, andb_prop in Es as [E1 E2]. lia.
Qed.

(** C7.  Freeing a block in use returns its memory: the other blocks in use
    stay, cursize drops by its size, some free block covers it, and the pool is well
    formed again, so that no two neighbours in an arena are both free. *)
Theorem poolfree_sound P v p b : pool_ok P -> b ∈ used (arenas P) -> v = B2D (b_addr b) ->
  let '(P', _) := poolfree P v p in
  pool_ok P' /\ Forall coalesced (arenas P') /\ used (arenas P) ≡ₚ b :: used (arenas P') /\ cursize (pst P') = cursize (pst P) - b_size b /\
  spans (arenas P') = spans (arenas P) /\
  exists x, x ∈ free_of (concat (arenas P')) /\ x.1 <= b_addr b /\ b_addr b + b_size b <= x.1 + x.2.
Proof.
  intros HP Hb ->. pose proof (poolfree_ok P (B2D (b_addr b)) p b) as Hf. destruct (poolfree P (B2D (b_addr b)) p) as [P' p'].
  destruct Hf as ([F1 F2 F3] & Hu & Hc & Hx); [apply HP|apply arenas_nodup, HP|done|unfold D2B, B2D; lia|].
  split; [auto|]. split; [apply F3, HP|]. done.
Qed.

(** A block that is allocated and freed leaves the blocks in use and
    cursize as they were. *)
Theorem alloc_then_free brk garbage restricted asize P p n v P' p' :
  pool_ok P -> fresh_memory brk P -> 0 <= asize ->
  poolalloc brk garbage (S n) restricted asize (P, p) = Ok (Some v) (P', p') ->
  let '(P2, _) := poolfree P' v p' in pool_ok P2 /\ used (arenas P2) ≡ₚ used (arenas P) /\ cursize (pst P2) = cursize (pst P).
Proof.
  intros HP Hf Ha E. destruct (poolalloc_ok brk garbage asize Ha restricted n P p HP Hf) as (r & st & E' & Hr). rewrite E in E'. injection E' as <- <-.
  destruct Hr as (b & [G1 G2 G3] & -> & Hs). cbn [fst] in *. pose proof (poolfree_ok P' (B2D (b_addr b)) p' b) as Hfr.
  destruct (poolfree P' (B2D (b_addr b)) p') as [P2 p2].
  destruct Hfr as ([F1 F2 F3] & Hu & Hc & _); [apply G1|apply arenas_nodup, G1|rewrite G2; constructor|unfold D2B, B2D; lia|].
  rewrite G2 in Hu. apply Permutation_cons_inv in Hu. split; [auto|]. split; [done|]. rewrite Hc, (po_cursize _ G1), (po_cursize _ HP), G2. unfold total. cbn. lia.
Qed.

(** When the host has no more memory the allocation fails, but arenasize
    keeps the bytes it asked for: no arena has them, and they count against maxsize
    from then on. *)
Theorem failed_brk_leaks brk garbage restricted asize P p n ns :
  pool_ok P -> 0 <= asize -> refused asize restricted P = false -> (forall x, x ∈ free_of (concat (arenas P)) -> x.2 < round_size asize) ->
  new_size (pst P) (round_size asize) = Some ns -> brk (ns + 256) = None ->
  exists P', poolalloc brk garbage n restricted asize (P, p) = Ok None (P', p) /\ arenas P' = arenas P /\ cursize (pst P') = cursize (pst P) /\
    arenasize (pst P') = arenasize (pst P) + ns + 256 /\ 0 < ns.
Proof.
  intros HP Ha Hr Hno Hns Hb. destruct (round_size_ok asize Ha) as [Hs1 Hmod]. pose proof (new_size_ok _ _ _ Hmod Hns) as Hle. apply orb_false_elim in Hr as [H1 H2].
  exists (mkPool (arenas P) (with_arenasize (fun m => m + (ns + 256)) (pst P))). split; [|cbn; unfold BHDRSIZE, sizeof_Bhdr in *; split; [done|]; split; [done|]; lia].
  assert (Hnone : search (root (pst P)) (round_size asize) None = None).
  { pose proof (po_tree _ HP) as (T1 & T2 & _). destruct (search_ok (root (pst P)) (round_size asize) None T1) as [(b & E & Hin & Hb2 & _)|[E _]]; [|done].
    rewrite T2 in Hin. specialize (Hno b Hin). lia. }
  replace (ns + 256) with (ns + (pool_quanta + 1) + (pool_quanta + 1)) in * by (unfold pool_quanta; lia).
  destruct n; cbn [poolalloc]; rewrite (bind_ok _ _ P (P, p) (P, p)) by done; rewrite H1, H2, Hnone, Hns;
    (rewrite (bind_ok _ _ tt (P, p) (mkPool (arenas P) (with_arenasize (fun m => m + (ns + (pool_quanta + 1) + (pool_quanta + 1))) (pst P)), p)) by done); by rewrite Hb.
Qed.

(** C29.  poolrealloc of a block in use, to a size that is not 0, keeps the block
    when it has the room, and otherwise puts a new block in its place or, when there is
    none, leaves it in use. *)
Theorem poolrealloc_sound brk garbage restricted size P p n b :
  pool_ok P -> fresh_memory brk P -> 0 < size -> b ∈ used (arenas P) -> B2D (b_addr b) <> 0 ->
  exists r P' p', poolrealloc brk garbage (S n) restricted (B2D (b_addr b)) size (P, p) = Ok r (P', p') /\ pool_ok P' /\
    match r with
    | None => used (arenas P') ≡ₚ used (arenas P)
    | Some v => exists b' l, used (arenas P) ≡ₚ b :: l /\ used (arenas P') ≡ₚ b' :: l /\ v = B2D (b_addr b') /\ size + BHDRSIZE <= b_size b' /\
        (size + BHDRSIZE <= b_size b -> b' = b)
    end.
Proof.
  intros HP Hf Hsz Hb Hv. pose proof (proj2 (proj1 (elem_used b _) Hb)) as Hbc. unfold poolrealloc. destruct (Z.leb_spec (1024 * 1024 * 1024) size); [exists None, P, p; done|].
  rewrite (proj2 (Z.eqb_neq size 0)) by lia. rewrite (bind_ok _ _ P (P, p) (P, p)) by done. rewrite (proj2 (Z.eqb_neq _ 0) Hv). cbn [negb andb].
  assert (Hbs : block_size (arenas P) (D2B (B2D (b_addr b))) = b_size b).
  { unfold block_size. replace (D2B (B2D (b_addr b))) with (b_addr b) by (unfold D2B, B2D; lia). by rewrite block_found by (apply arenas_nodup, HP || done). }
  rewrite Hbs. destruct (Z.leb_spec size (b_size b - BHDRSIZE)) as [Hle|Hgt].
  { exists (Some (B2D (b_addr b))), P, p. split; [done|]. split; [done|]. apply elem_of_Permutation in Hb as [l Hl]. exists b, l. split; [done|]. split; [done|]. split; [done|]. split; [lia|done]. }
  destruct (poolalloc_ok brk garbage size ltac:(lia) restricted n P p HP Hf) as (r & [P' p'] & E & Hr). rewrite (bind_ok _ _ _ _ _ E).
  destruct r as [v|]; cbn [allocated fst] in Hr; [|destruct Hr as [G1 G2]; exists None, P', p'; done].
  destruct Hr as (b' & [G1 G2 G3] & -> & Hs). pose proof (poolfree_ok P' (B2D (b_addr b)) p' b) as Hfr.
  rewrite (bind_ok _ _ tt _ (poolfree P' (B2D (b_addr b)) p')) by done.
  destruct (poolfree P' (B2D (b_addr b)) p') as [P2 p2] eqn:E2. exists (Some (B2D (b_addr b'))), P2, p2. split; [done|].
  destruct Hfr as ([F1 F2 F3] & Hu & Hc & _); [apply G1|apply arenas_nodup, G1|rewrite G2; by right|unfold D2B, B2D; lia|].
  split; [auto|]. apply elem_of_Permutation in Hb as [l Hl]. exists b', l. split; [done|]. split; [|split; [done|split; [done|lia]]].
  rewrite G2, Hl in Hu. rewrite Permutation_swap in Hu. apply Permutation_cons_inv in Hu. by rewrite Hu.
Qed.

(** *** Instances *)

(** A pool as alloc.c makes it, without an arena; a host with memory at 4096, and
    one without. *)
Definition pool0 (max : Z) : Pool := mkPool [] (mkStat Leaf 0 0 max max).
Lemma pool0_ok max : pool_ok (pool0 max).
Proof. split; [split; constructor|split; [done|]; split; [done|constructor]|done]. Qed.
Definition brk0 (n : Z) : option Z := Some 4096.
Lemma brk0_fresh max : fresh_memory brk0 (pool0 max).
Proof. intros n t [= <-]. split; [done|]. by intros l ?%elem_of_nil. Qed.
(** After one block of 1000 bytes. *)
Definition pool1 : Pool :=
  match poolalloc brk0 0 1 false 1000 (pool0 (2 ^ 30), 0) with Ok _ st => st.1 | _ => pool0 0 end.
Lemma pool1_ok : pool_ok pool1.
Proof.
  destruct (poolalloc_ok brk0 0 1000 ltac:(lia) false 0 (pool0 (2 ^ 30)) 0 (pool0_ok _) (brk0_fresh _)) as (r & st & E & Hr).
  assert (E1 : pool1 = st.1) by (unfold pool1; by rewrite E). rewrite E1. destruct r as [v|]; [|apply Hr]. destruct Hr as (b & G & _). apply G.
Qed.
Definition block1 : Bhdr := mkBhdr 4224 1152 MAGIC_A.
Lemma block1_used : block1 ∈ used (arenas pool1).
Proof. apply (bool_decide_unpack _). vm_compute. exact I. Qed.
(** The arena of [pool1] ends at 528512. *)
Definition brk1 (n : Z) : option Z := Some 528640.
Lemma brk1_fresh : fresh_memory brk1 pool1.
Proof.
  intros n t [= <-]. split; [done|]. intros l Hl. assert (E : arenas pool1 = [[mkBhdr 4096 128 MAGIC_E; block1; mkBhdr 5376 523136 MAGIC_F; mkBhdr 528512 0 MAGIC_E]])
    by (vm_compute; reflexivity). rewrite E in Hl. apply elem_of_cons in Hl as [->|Hl]; [|by apply elem_of_nil in Hl]. right. vm_compute. done.
Qed.

(** The host's memory is next to the arena, which is extended. *)
Lemma poolalloc_sound_witness : exists r P' p', poolalloc brk1 0 1 false 600000 (pool1, 0) = Ok r (P', p') /\ pool_ok P' /\ r = Some (B2D 5376).
Proof.
  destruct (poolalloc_sound brk1 0 false 600000 pool1 0 0 pool1_ok brk1_fresh ltac:(lia)) as (r & P' & p' & E & HP & _).
  exists r, P', p'. split; [exact E|]. split; [exact HP|].
  assert (Hv : match poolalloc brk1 0 1 false 600000 (pool1, 0) with Ok v _ => v | _ => None end = Some (B2D 5376)) by (vm_compute; reflexivity).
  rewrite E in Hv. exact Hv.
Defined.
Lemma poolalloc_best_fit_witness : exists a s b P', poolalloc brk1 0 0 false 300 (pool1, 0) = Ok (Some (B2D a)) (P', 0) /\ s = 523136 /\ b_addr b = a.
Proof.
  assert (Hx : (5376, 523136) ∈ free_of (concat (arenas pool1))) by (apply (bool_decide_unpack _); vm_compute; exact I).
  destruct (poolalloc_best_fit brk1 0 false 300 pool1 0 0 (5376, 523136) pool1_ok ltac:(lia) ltac:(vm_compute; reflexivity) Hx ltac:(vm_compute; discriminate))
    as (a & s & b & P' & E & _ & Hin & _ & _ & Eb & _).
  exists a, s, b, P'. split; [exact E|]. split; [|exact Eb].
  assert (Ef : free_of (concat (arenas pool1)) = [(5376, 523136)]) by (vm_compute; reflexivity). rewrite Ef in Hin.
  apply elem_of_cons in Hin as [Hin|Hin]; [congruence|by apply elem_of_nil in Hin].
Defined.
Lemma poolfree_sound_witness : let '(P', _) := poolfree pool1 (B2D 4224) 0 in pool_ok P' /\ used (arenas pool1) ≡ₚ block1 :: used (arenas P').
Proof.
  pose proof (poolfree_sound pool1 (B2D 4224) 0 block1 pool1_ok block1_used eq_refl) as Hf.
  destruct (poolfree pool1 (B2D 4224) 0) as [P' p']. destruct Hf as (H1 & _ & H2 & _). exact (conj H1 H2).
Defined.
Lemma alloc_then_free_witness : exists P' p', poolalloc brk1 0 1 false 300 (pool1, 0) = Ok (Some (B2D 5376)) (P', p') /\
  let '(P2, _) := poolfree P' (B2D 5376) p' in used (arenas P2) ≡ₚ used (arenas pool1).
Proof.
  eexists _, _. split; [vm_compute; reflexivity|].
  match goal with |- let '(_, _) := poolfree ?P ?v ?p in _ =>
    pose proof (alloc_then_free brk1 0 false 300 pool1 0 0 v P p pool1_ok brk1_fresh ltac:(lia) ltac:(vm_compute; reflexivity)) as Hf;
    destruct (poolfree P v p) as [P2 p2] end.
  apply Hf.
Defined.
Lemma failed_brk_leaks_witness : exists P', poolalloc (fun _ => None) 0 1 false 1000 (pool0 (2 ^ 30), 0) = Ok None (P', 0) /\
  arenas P' = [] /\ arenasize (pst P') = 0 + 524288 + 256.
Proof.
  destruct (failed_brk_leaks (fun _ => None) 0 false 1000 (pool0 (2 ^ 30)) 0 1 524288 (pool0_ok _) ltac:(lia) ltac:(vm_compute; reflexivity)
    ltac:(by intros x ?%elem_of_nil) ltac:(vm_compute; reflexivity) eq_refl) as (P' & E & Ea & _ & Es & _).
  exists P'. split; [exact E|]. split; [exact Ea|exact Es].
Defined.
Lemma poolrealloc_sound_witness : exists r P' p', poolrealloc brk1 0 1 false (B2D 4224) 5000 (pool1, 0) = Ok r (P', p') /\ pool_ok P'.
Proof.
  destruct (poolrealloc_sound brk1 0 false 5000 pool1 0 0 block1 pool1_ok brk1_fresh ltac:(lia) block1_used ltac:(vm_compute; discriminate)) as (r & P' & p' & E & HP & _).
  exists r, P', p'. exact (conj E HP).
Defined.
