(* ===== verification/Gc.v ===== *)
(** * The garbage collector (libinterp/gc.c, heap.c, emu/port/alloc.c)

    The collector runs a slice at a time between the turns of the programs.  It
    walks the blocks of the heap pool in address order, colours what the roots
    reach and frees the blocks that kept the colour of two epochs ago.  The
    state [gcs] has the memory in words, the descriptors, the block headers, the
    pool, the cursor of the walk and the variables of gc.c.

    A stack is the list of its frames in the order rootset visits them, and the
    list of the modules that of their origmp; the pool is that of Pool.  The
    statistics and blocks made immutable are left out, as are the free
    functions of the built-in modules' types, what freechan does to the programs
    that wait and what unload frees outside the heap; a descriptor whose count falls
    to zero stays.  A count of references goes up without overflow. *)

From S2P Require Import Prelude Pool.

(** ** State *)

Definition H : Z := M64 - 1.
Definition propagator : Z := 3.
Definition Quanta : Z := 50.
Definition MaxQuanta : Z := 15 * Quanta.
Definition sizeof_Heap : Z := 32.
Definition H2D (h : Z) : Z := h + sizeof_Heap.
Definition D2H (d : Z) : Z := d - sizeof_Heap.

Inductive markfn : Type := noptrs | Markheap | Markarray | Marklist.
Inductive freefn : Type := nofree | Freeheap | Freestring | Freearray | Freelist | Freemodlink | Freechan.
Record Ty : Type := mkTy { ty_ref : Z; ty_free : freefn; ty_mark : markfn; ty_size : Z; ty_map : list Z }.
Record Heap : Type := mkHeap { h_color : Z; h_ref : Z; h_t : Z }.

(** Of a program, what rootset reads: its module link and its frames, each with
    its address, its type ([R.TR] of its extent when the frame has none) and the
    module link it returns to. *)
Record Frame : Type := mkFrame { f_addr : Z; f_t : Z; f_mr : Z }.
Record GProg : Type := mkGProg { g_M : Z; g_frames : list Frame }.

(** Of a module, its address, its count and its module data. *)
Record Module : Type := mkModule { m_addr : Z; m_ref : Z; m_origmp : Z }.

(** The collector's variables.  [gccolor] is an int in the code, which counts epochs
    from 3 and is not to wrap: here it does not, which is the code's value for the
    first 2^31 - 4 epochs. *)
Record gcv : Type := mkGcv {
  gccolor : Z;
  mutator : Z;
  sweeper : Z;
  visit : Z;
  nprop : Z;
  quanta : Z;
  gce : Z;
  gct : Z;
}.
Record gcs : Type := mkGcs {
  mem : Z -> Z;
  types : gmap Z Ty;
  heap : gmap Z Heap;
  chain : list (list Bhdr);
  hpst : stat;
  base : option Z;
  ptr : Z;
  limit : Z;
  progs : list GProg;
  modules : list Module;
  ptrtab : list Z;
  gchalt : Z;
  vars : gcv;
}.

Definition with_types (f : gmap Z Ty -> gmap Z Ty) (s : gcs) : gcs :=
  mkGcs (mem s) (f (types s)) (heap s) (chain s) (hpst s) (base s) (ptr s) (limit s) (progs s) (modules s) (ptrtab s) (gchalt s) (vars s).
Definition with_heap (f : gmap Z Heap -> gmap Z Heap) (s : gcs) : gcs :=
  mkGcs (mem s) (types s) (f (heap s)) (chain s) (hpst s) (base s) (ptr s) (limit s) (progs s) (modules s) (ptrtab s) (gchalt s) (vars s).
Definition with_pool (P : Pool) (p : Z) (s : gcs) : gcs :=
  mkGcs (mem s) (types s) (heap s) (arenas P) (pst P) (base s) p (limit s) (progs s) (modules s) (ptrtab s) (gchalt s) (vars s).
Definition with_cursor (b : option Z) (p l : Z) (s : gcs) : gcs :=
  mkGcs (mem s) (types s) (heap s) (chain s) (hpst s) b p l (progs s) (modules s) (ptrtab s) (gchalt s) (vars s).
Definition with_vars (f : gcv -> gcv) (s : gcs) : gcs :=
  mkGcs (mem s) (types s) (heap s) (chain s) (hpst s) (base s) (ptr s) (limit s) (progs s) (modules s) (ptrtab s) (gchalt s) (f (vars s)).

(** The pool of the heap. *)
Definition heapmem (s : gcs) : Pool := mkPool (chain s) (hpst s).
Definition origmps (s : gcs) : list Z := m_origmp <$> modules s.

Definition with_mem (f : (Z -> Z) -> Z -> Z) (s : gcs) : gcs :=
  mkGcs (f (mem s)) (types s) (heap s) (chain s) (hpst s) (base s) (ptr s) (limit s) (progs s) (modules s) (ptrtab s) (gchalt s) (vars s).
Definition with_progs (f : list GProg -> list GProg) (s : gcs) : gcs :=
  mkGcs (mem s) (types s) (heap s) (chain s) (hpst s) (base s) (ptr s) (limit s) (f (progs s)) (modules s) (ptrtab s) (gchalt s) (vars s).
Definition with_modules (f : list Module -> list Module) (s : gcs) : gcs :=
  mkGcs (mem s) (types s) (heap s) (chain s) (hpst s) (base s) (ptr s) (limit s) (progs s) (f (modules s)) (ptrtab s) (gchalt s) (vars s).
Definition with_halt (f : Z -> Z) (s : gcs) : gcs :=
  mkGcs (mem s) (types s) (heap s) (chain s) (hpst s) (base s) (ptr s) (limit s) (progs s) (modules s) (ptrtab s) (f (gchalt s)) (vars s).

Definition put_colors (c m s : Z) (v : gcv) : gcv := mkGcv c m s (visit v) (nprop v) (quanta v) (gce v) (gct v).
Definition put_visit (x : Z) (v : gcv) : gcv :=
  mkGcv (gccolor v) (mutator v) (sweeper v) x (nprop v) (quanta v) (gce v) (gct v).
Definition put_nprop (x : Z) (v : gcv) : gcv :=
  mkGcv (gccolor v) (mutator v) (sweeper v) (visit v) x (quanta v) (gce v) (gct v).
Definition put_quanta (x : Z) (v : gcv) : gcv :=
  mkGcv (gccolor v) (mutator v) (sweeper v) (visit v) (nprop v) x (gce v) (gct v).
Definition put_gce (e t : Z) (v : gcv) : gcv :=
  mkGcv (gccolor v) (mutator v) (sweeper v) (visit v) (nprop v) (quanta v) e t.

Abbreviation S := (ST gcs).

Definition heap_at (h : Z) : S Heap := fun s => of_option (heap s !! h) s.
Definition type_at (t : Z) : S Ty := fun s => of_option (types s !! t) s.
Definition word (a : Z) : S Z := gets (fun s => mem s a).
Definition var (f : gcv -> Z) : S Z := gets (fun s => f (vars s)).
Definition set_var (f : gcv -> gcv) : S unit := modify (with_vars f).
Definition recolor (c : Z) (h : Heap) : Heap := mkHeap c (h_ref h) (h_t h).
Definition set_color (h c : Z) : S unit := modify (with_heap (alter (recolor c) h)).

(** ** Marking *)

Definition Setmark (h : Z) : S unit :=
  hd ← heap_at h;
  m ← var mutator;
  if h_color hd =? m then mret tt else set_color h propagator;; set_var (put_nprop 1).

(** The words of a pointer map, the first the highest bit. *)
Definition byte_fields (c w : Z) : list Z :=
  (fun i => w + 8 * Z.of_nat i) <$> filter (fun i => Z.testbit c (7 - Z.of_nat i) = true) (seq 0 8).
Fixpoint fields (map : list Z) (w : Z) : list Z :=
  match map with
  | [] => []
  | c :: map => byte_fields c w ++ fields map (w + 64)
  end.

Fixpoint for_all {A} (f : A -> S unit) (l : list A) : S unit :=
  match l with
  | [] => mret tt
  | a :: l => f a;; for_all f l
  end.

(** [mark] is [t1->mark], or none at [markdepth] 64. *)
Definition mark_word (mark : option (Z -> Z -> S unit)) (q : Z) : S unit :=
  v ← word q;
  if v =? H then mret tt
  else
    let h := D2H v in
    Setmark h;;
    hd ← heap_at h;
    if h_color hd =? propagator then
      n ← var visit;
      set_var (put_visit (n - 1));;
      match mark with
      | Some mark =>
          if 0 <=? n - 1 then
            e ← var gce;
            t ← var gct;
            set_var (put_gce (e - 1) t);;
            m ← var mutator;
            set_color h m;;
            if h_t hd =? 0 then mret tt else mark (h_t hd) (H2D h)
          else mret tt
      | None => mret tt
      end
    else mret tt.

Definition markheap (mark : option (Z -> Z -> S unit)) (t vw : Z) : S unit :=
  if t =? 0 then mret tt
  else ty ← type_at t; for_all (mark_word mark) (fields (ty_map ty) vw).

Definition markarray (mark : option (Z -> Z -> S unit)) (vw : Z) : S unit :=
  t ← word (vw + 8);
  root ← word (vw + 16);
  (if root =? H then mret tt else Setmark (D2H root));;
  ty ← type_at t;
  match ty_map ty with
  | [] => mret tt
  | _ =>
      data ← word (vw + 24);
      len ← word vw;
      for_all (fun i => markheap mark t (data + Z.of_nat i * ty_size ty)) (seq 0 (Z.to_nat len));;
      n ← var visit;
      set_var (put_visit (n - len))
  end.

Fixpoint marklist_loop (fuel : nat) (mark : option (Z -> Z -> S unit)) (l : Z) : S unit :=
  n ← var visit;
  if 0 <? n then
    match fuel with
    | O => fault
    | Datatypes.S fuel =>
        l ← word l;
        if l =? H then mret tt
        else
          Setmark (D2H l);;
          t ← word (l + 8);
          markheap mark t (l + 16);;
          n ← var visit;
          set_var (put_visit (n - 1));;
          marklist_loop fuel mark l
    end
  else
    l ← word l;
    if l =? H then mret tt else set_color (D2H l) propagator;; set_var (put_nprop 1).
Definition marklist (mark : option (Z -> Z -> S unit)) (vw : Z) : S unit :=
  t ← word (vw + 8);
  markheap mark t (vw + 16);;
  n ← var visit;
  marklist_loop (Z.to_nat n) mark vw.

(** [t->mark(t, vw)]; [k] is what is left of the depth. *)
Fixpoint mark (k : nat) (t vw : Z) : S unit :=
  let rec := match k with O => None | Datatypes.S k => Some (mark k) end in
  ty ← type_at t;
  match ty_mark ty with
  | noptrs => mret tt
  | Markheap => markheap rec t vw
  | Markarray => markarray rec vw
  | Marklist => marklist rec vw
  end.
(** markdepth is 1 in the first call, and 64 allows no more. *)
Definition maxdepth : nat := 63.

(** ** The roots *)

(** A module link and its module data. *)
Definition mark_link (ml : Z) : S unit :=
  Setmark (D2H ml);;
  mp ← word ml;
  if mp =? H then mret tt else Setmark (D2H mp).
Definition root_frame (f : Frame) : S unit :=
  mark maxdepth (f_t f) (f_addr f);;
  if f_mr f =? 0 then mret tt else mark_link (f_mr f).
Definition root_prog (p : GProg) : S unit :=
  mark_link (g_M p);; for_all root_frame (g_frames p).
Definition ptrmark : S unit := l ← gets ptrtab; for_all Setmark l.
Definition rootset : S unit :=
  c ← var gccolor;
  set_var (put_colors c (c mod 3) ((c - 2) mod 3));;
  ps ← gets progs;
  for_all root_prog ps;;
  ms ← gets origmps;
  for_all (fun mp => if mp =? H then mret tt else Setmark (D2H mp)) ms;;
  ptrmark.

(** ** The pool (emu/port/alloc.c) *)

Definition poolfree (h : Z) : S unit :=
  s ← gets (fun s => Pool.poolfree (heapmem s) h (ptr s));
  modify (with_pool s.1 s.2);;
  modify (with_heap (delete h)).

(** ** Counting (heap.c) *)

Definition freetype (t : Z) : S unit :=
  modify (with_types (alter (fun y => mkTy (ty_ref y - 1) (ty_free y) (ty_mark y) (ty_size y) (ty_map y)) t)).
(** [--h->ref] of a uvlong. *)
Definition ref_less (n : Z) : Z := if n =? 0 then M64 - 1 else n - 1.
Definition set_ref (h r : Z) : S unit := modify (with_heap (alter (fun hd => mkHeap (h_color hd) r (h_t hd)) h)).
Definition gclock : S unit := modify (with_halt (fun n => n + 1)).
Definition gcunlock : S unit := modify (with_halt (fun n => n - 1)).

(** freeptrs takes the words of a byte of the map from the last to the first. *)
Fixpoint free_fields (map : list Z) (w : Z) : list Z :=
  match map with
  | [] => []
  | c :: map => rev (byte_fields c w) ++ free_fields map (w + 64)
  end.

(** The free functions call [destroy], which calls the free functions: here they
    take it as an argument. *)
Section Free.
Variable destroy : Z -> S unit.

Definition freeptrs (v t : Z) : S unit :=
  ty ← type_at t;
  for_all (fun q => x ← word q; if x =? H then mret tt else destroy x) (free_fields (ty_map ty) v).

Definition freearray (h : Z) (swept : bool) : S unit :=
  let a := H2D h in
  t ← word (a + 8);
  (if swept then mret tt
   else
     root ← word (a + 16);
     if negb (root =? H) then destroy root
     else
       data ← word (a + 24);
       len ← word a;
       ty ← type_at t;
       for_all (fun i => freeptrs (data + Z.of_nat i * ty_size ty) t) (seq 0 (Z.to_nat len)));;
  freetype t.

Fixpoint freelist_loop (fuel : nat) (l : Z) : S unit :=
  if l =? H then mret tt
  else
    match fuel with
    | O => fault
    | Datatypes.S fuel =>
        t ← word (l + 8);
        let th := D2H l in
        hd ← heap_at th;
        set_ref th (ref_less (h_ref hd));;
        if negb (h_ref hd =? 1) then mret tt
        else
          freetype (h_t hd);;
          (if t =? 0 then mret tt else freeptrs (l + 16) t;; freetype t);;
          l ← word l;
          poolfree th;;
          freelist_loop fuel l
    end.
(** One round for each block at most. *)
Definition freelist (h : Z) (swept : bool) : S unit :=
  let l := H2D h in
  t ← word (l + 8);
  (if t =? 0 then mret tt else (if swept then mret tt else freeptrs (l + 16) t);; freetype t);;
  if swept then mret tt
  else
    l ← word l;
    fuel ← gets (fun s => size (heap s));
    freelist_loop fuel l.

(** Of unload, what has to do with the heap (load.c). *)
Definition unload (m : Z) : S unit :=
  ms ← gets modules;
  md ← of_option (find (fun md => m_addr md =? m) ms);
  let r := m_ref md - 1 in
  modify (with_modules (fmap (fun md => if m_addr md =? m then mkModule m r (m_origmp md) else md)));;
  if 0 <? r then mret tt
  else if r =? -1 then fault
  else
    modify (with_modules (filter (fun md => m_addr md <> m)));;
    destroy (m_origmp md).
Definition freemodlink (h : Z) (swept : bool) : S unit :=
  (if swept then mret tt else mp ← word (H2D h); destroy mp);;
  m ← word (H2D h + 8);
  unload m.

Definition freechan (h : Z) (swept : bool) : S unit :=
  if swept then mret tt else buf ← word (H2D h); if buf =? H then mret tt else destroy buf.

Definition freeheap (h : Z) (swept : bool) : S unit :=
  if swept then mret tt else hd ← heap_at h; freeptrs (H2D h) (h_t hd).

(** [t->free(h, swept)] *)
Definition free (f : freefn) (h : Z) (swept : bool) : S unit :=
  match f with
  | nofree => fault
  | Freeheap => freeheap h swept
  | Freestring => mret tt
  | Freearray => freearray h swept
  | Freelist => freelist h swept
  | Freemodlink => freemodlink h swept
  | Freechan => freechan h swept
  end.
End Free.

Fixpoint destroy_in (k : nat) (v : Z) : S unit :=
  if v =? H then mret tt
  else
    match k with
    | O => fault
    | Datatypes.S k =>
        let h := D2H v in
        hd ← heap_at h;
        let r := ref_less (h_ref hd) in
        set_ref h r;;
        halt ← gets gchalt;
        if (0 <? r) || (64 <? halt) then mret tt
        else
          (if h_t hd =? 0 then mret tt
           else gclock;; ty ← type_at (h_t hd); free (destroy_in k) (ty_free ty) h false;; gcunlock;; freetype (h_t hd));;
          poolfree h
    end.
(** The calls of [destroy] in [destroy] each count in gchalt, and more than 64
    free nothing. *)
Definition destroy : Z -> S unit := destroy_in 66.

(** ** A slice *)

Definition block_at (a : Z) : S Bhdr :=
  fun s => of_option (find (fun b => b_addr b =? a) (concat (chain s))) s.
(** The arenas from the one with leader [b] on, along [clink]. *)
Fixpoint from_arena (ch : list (list Bhdr)) (b : Z) : list (list Bhdr) :=
  match ch with
  | [] => []
  | l :: ch' => if bool_decide (b_addr <$> head l = Some b) then ch else from_arena ch' b
  end.
(** [base = b; ptr = b; limit = B2LIMIT(b)] *)
Definition start_arena (l : list Bhdr) : S unit :=
  match l with
  | b :: _ => modify (with_cursor (Some (b_addr b)) (b_addr b) (arena_limit l))
  | [] => fault
  end.
Definition okbhdr (a : Z) : S bool :=
  gets (fun s => match find (fun b => b_addr b =? a) (concat (chain s)) with Some _ => true | None => false end).

(** A block in use. *)
Definition inspect (h : Z) : S unit :=
  n ← var visit;
  set_var (put_visit (n - 1));;
  e ← var gce;
  t ← var gct;
  set_var (put_gce e (t + 1));;
  hd ← heap_at h;
  if h_color hd =? propagator then
    set_var (put_gce (e - 1) (t + 1));;
    m ← var mutator;
    set_color h m;;
    if h_t hd =? 0 then mret tt else mark maxdepth (h_t hd) (H2D h)
  else
    sw ← var sweeper;
    if h_color hd =? sw then
      set_var (put_gce (e + 1) (t + 1));;
      (if h_t hd =? 0 then mret tt
       else gclock;; ty ← type_at (h_t hd); free destroy (ty_free ty) h true;; gcunlock;; freetype (h_t hd));;
      poolfree h
    else mret tt.

(** The cursor goes to the next block or the next arena; the result is whether
    there is one. *)
Definition advance : S bool :=
  p ← gets ptr;
  b ← block_at p;
  l ← gets limit;
  bs ← gets base;
  if b_addr b + b_size b <? l then
    modify (with_cursor bs (b_addr b + b_size b) l);; mret true
  else
    rest ← gets (fun s => match bs with Some b => tail (from_arena (chain s) b) | None => [] end);
    match rest with
    | [] => modify (with_cursor None (b_addr b + b_size b) l);; mret false
    | l :: _ => start_arena l;; mret true
    end.
Fixpoint slice_loop (fuel : nat) : S unit :=
  n ← var visit;
  if 0 <? n then
    match fuel with
    | O => fault
    | Datatypes.S fuel =>
        p ← gets ptr;
        b ← block_at p;
        (if decide (b_magic b = MAGIC_A) then inspect (B2D p) else mret tt);;
        more ← advance;
        if (more : bool) then slice_loop fuel else mret tt
    end
  else mret tt.

(** One round of the loop for each block of the pool. *)
Definition slice_fuel (s : gcs) : nat := length (concat (chain s)).

Definition next_quanta (e t : Z) : Z :=
  let q := Z.quot (MaxQuanta + Quanta) 2 + Z.quot (MaxQuanta - Quanta) 20 * Z.quot (100 * e) t in
  let q := if q <? Quanta then Quanta else q in
  if MaxQuanta <? q then MaxQuanta else q.

(** How long the next slice may be; at the end of the walk another walk, or another
    epoch. *)
Definition settle : S unit :=
  e ← var gce;
  t ← var gct;
  set_var (put_quanta (next_quanta e t));;
  b ← gets base;
  match b with
  | Some _ => mret tt
  | None =>
      n ← var nprop;
      if n =? 0 then
        c ← var gccolor;
        m ← var mutator;
        w ← var sweeper;
        set_var (put_colors (c + 1) m w);;
        rootset;;
        set_var (put_gce 0 1)
      else set_var (put_nprop 0)
  end.
Definition rungc : S unit :=
  halt ← gets gchalt;
  if negb (halt =? 0) then mret tt
  else
    b ← gets base;
    ch ← gets chain;
    match b with None => match ch with [] => fault | l :: _ => start_arena l end | Some _ => mret tt end;;
    p ← gets ptr;
    ok ← okbhdr p;
    if negb ok then p ← gets ptr; l ← gets limit; modify (with_cursor None p l)
    else
      q ← var quanta;
      set_var (put_visit q);;
      fuel ← gets slice_fuel;
      slice_loop fuel;;
      settle.
