(* ===== verification/GcMark.v ===== *)
(** * Marking (libinterp/gc.c)

    What the collector sees in data, and what Setmark, the mark functions and
    rootset do: they always complete, change only colours, and shade what they
    come to. *)

From S2P Require Import Prelude Pool Gc.

(** ** A specification of effects *)

(** From a state in [P], [c] succeeds and relates the states by [Q]. *)
Definition does {A} (c : S A) (P : gcs -> Prop) (Q : gcs -> A -> gcs -> Prop) : Prop :=
  forall s, P s -> exists a s', c s = Ok a s' /\ Q s a s'.

(** ** What the collector sees *)

Definition seen_fields (m : Z -> Z) (map : list Z) (w : Z) : list Z := filter (fun v => v <> H) (m <$> fields map w).
Definition map_of (tys : gmap Z Ty) (t : Z) : list Z :=
  if t =? 0 then [] else match tys !! t with Some ty => ty_map ty | None => [] end.
Definition not_H (v : Z) : list Z := if v =? H then [] else [v].

(** The pointers in the data at [vw] of type [t]. *)
Definition seen (m : Z -> Z) (tys : gmap Z Ty) (t vw : Z) : list Z :=
  match tys !! t with
  | None => []
  | Some ty =>
      match ty_mark ty with
      | noptrs => []
      | Markheap => seen_fields m (map_of tys t) vw
      | Markarray =>
          let et := m (vw + 8) in
          not_H (m (vw + 16)) ++
          match tys !! et with
          | None => []
          | Some ety => seq 0 (Z.to_nat (m vw)) ≫= fun i => seen_fields m (map_of tys et) (m (vw + 24) + Z.of_nat i * ty_size ety)
          end
      | Marklist => seen_fields m (map_of tys (m (vw + 8))) (vw + 16) ++ not_H (m vw)
      end
  end.
(** [v] is nil or a list. *)
Definition is_list (s : gcs) (v : Z) : Prop :=
  v = H \/ exists hd ty, heap s !! D2H v = Some hd /\ h_t hd <> 0 /\ types s !! h_t hd = Some ty /\ ty_mark ty = Marklist.
(** The data at [vw] is of type [t]: its descriptors exist, the tail of a list
    is a list. *)
Definition shaped (s : gcs) (t vw : Z) : Prop :=
  exists ty, types s !! t = Some ty /\
    match ty_mark ty with
    | Markarray => is_Some (types s !! mem s (vw + 8)) /\ 0 <= mem s vw
    | Marklist => (mem s (vw + 8) = 0 \/ is_Some (types s !! mem s (vw + 8))) /\ is_list s (mem s vw)
    | _ => True
    end.

Definition color (s : gcs) (h : Z) : option Z := h_color <$> heap s !! h.
Definition is_mutator (s : gcs) (h : Z) : Prop := color s h = Some (mutator (vars s)).
Definition shaded (s : gcs) (h : Z) : Prop := is_mutator s h \/ color s h = Some propagator.
Definition white (s : gcs) (h : Z) : Prop := color s h = Some (sweeper (vars s)).
(** In use, and not to be swept. *)
Definition kept (s : gcs) (h : Z) : Prop := is_Some (heap s !! h) /\ ~ white s h.

(** The blocks that a block points to. *)
Definition points (s : gcs) (h : Z) : list Z :=
  match heap s !! h with
  | Some hd => D2H <$> (if h_t hd =? 0 then [] else seen (mem s) (types s) (h_t hd) (H2D h))
  | None => []
  end.
Definition block_ok (s : gcs) (h : Z) : Prop :=
  forall hd, heap s !! h = Some hd -> h_t hd = 0 \/ shaped s (h_t hd) (H2D h).

(** What a block to be kept points to is to be kept. *)
Definition closed (s : gcs) : Prop :=
  forall h, kept s h -> block_ok s h /\ forall x, x ∈ points s h -> kept s x.

Definition link_roots (m : Z -> Z) (ml : Z) : list Z := D2H ml :: (D2H <$> not_H (m ml)).
Definition frame_roots (s : gcs) (f : Frame) : list Z :=
  (D2H <$> seen (mem s) (types s) (f_t f) (f_addr f)) ++ (if f_mr f =? 0 then [] else link_roots (mem s) (f_mr f)).
Definition prog_roots (s : gcs) (p : GProg) : list Z := link_roots (mem s) (g_M p) ++ (g_frames p ≫= frame_roots s).
Definition roots (s : gcs) : list Z :=
  (progs s ≫= prog_roots s) ++ (D2H <$> (origmps s ≫= not_H)) ++ ptrtab s.
(** A frame's descriptor is one that dtype made. *)
Definition frame_ok (s : gcs) (f : Frame) : Prop :=
  f_t f <> 0 /\ exists ty, types s !! f_t f = Some ty /\ ty_mark ty = Markheap.
Definition frames_ok (s : gcs) : Prop := forall p f, p ∈ progs s -> f ∈ g_frames p -> frame_ok s f.
Lemma frame_shaped s f : frame_ok s f -> shaped s (f_t f) (f_addr f).
Proof. intros (_ & ty & Hty & Hm). exists ty. by rewrite Hm. Qed.

(** ** The effect of marking *)

(** The block headers but for their colours. *)
Definition heads (s : gcs) : gmap Z (Z * Z) := (fun hd => (h_ref hd, h_t hd)) <$> heap s.

Record marks (s s' : gcs) : Prop := {
  mk_mem : mem s' = mem s;
  mk_types : types s' = types s;
  mk_chain : chain s' = chain s;
  mk_hpst : hpst s' = hpst s;
  mk_cursor : base s' = base s /\ ptr s' = ptr s /\ limit s' = limit s;
  mk_roots : progs s' = progs s /\ modules s' = modules s /\ ptrtab s' = ptrtab s;
  mk_colors : gccolor (vars s') = gccolor (vars s) /\ mutator (vars s') = mutator (vars s) /\ sweeper (vars s') = sweeper (vars s);
  mk_halt : gchalt s' = gchalt s;
  mk_quanta : quanta (vars s') = quanta (vars s);
  mk_visit : visit (vars s') <= visit (vars s);
  mk_heads : heads s' = heads s;
  mk_valid : forall h c, color s' h = Some c -> color s h = Some c \/ c = propagator \/ c = mutator (vars s);
  mk_shaded : forall h, shaded s h -> shaded s' h;
  mk_white : forall h, white s h <-> white s' h;
  mk_black : forall h, is_mutator s' h -> is_mutator s h \/ forall x, x ∈ points s h -> shaded s' x;
  mk_nprop : nprop (vars s') = 0 -> nprop (vars s) = 0 /\ forall h, color s' h = Some propagator -> color s h = Some propagator;
}.

Lemma heads_lookup s s' h :
  heads s' = heads s ->
  match heap s !! h, heap s' !! h with
  | Some hd, Some hd' => h_ref hd' = h_ref hd /\ h_t hd' = h_t hd
  | None, None => True
  | _, _ => False
  end.
Proof.
  intros E. unfold heads in E. apply (f_equal (lookup h)) in E. rewrite !lookup_fmap in E.
  destruct (heap s !! h), (heap s' !! h); cbn in E; try discriminate; [|done]. injection E as -> ->. done.
Qed.
Lemma points_same s s' h : mem s' = mem s -> types s' = types s ->
  heads s' = heads s -> points s' h = points s h.
Proof.
  intros E1 E2 E3. pose proof (heads_lookup s s' h E3) as Hh. unfold points. rewrite E1, E2.
  destruct (heap s !! h), (heap s' !! h); try done. by destruct Hh as [_ ->].
Qed.
Lemma marks_points s s' h : marks s s' -> points s' h = points s h.
Proof. intros M. apply points_same; apply M. Qed.
Lemma marks_some s s' h : marks s s' -> is_Some (heap s' !! h) <-> is_Some (heap s !! h).
Proof.
  intros M. pose proof (heads_lookup s s' h (mk_heads _ _ M)) as Hh.
  by destruct (heap s !! h), (heap s' !! h).
Qed.
Lemma marks_kept s s' h : marks s s' -> kept s' h <-> kept s h.
Proof. intros M. unfold kept. by rewrite (marks_some s s' h M), (mk_white _ _ M h). Qed.
Lemma is_list_same s s' v : types s' = types s ->
  heads s' = heads s -> is_list s v -> is_list s' v.
Proof.
  intros E1 E2 [->|(hd & ty & Hhd & Hn & Hty & Hm)]; [by left|right]. pose proof (heads_lookup s s' (D2H v) E2) as Hh.
  rewrite Hhd in Hh. destruct (heap s' !! D2H v) as [hd'|]; [|done]. exists hd', ty. destruct Hh as [_ ->]. by rewrite E1.
Qed.
Lemma shaped_same s s' t vw : mem s' = mem s -> types s' = types s ->
  heads s' = heads s -> shaped s t vw -> shaped s' t vw.
Proof.
  intros E1 E2 E3 (ty & Hty & Hm). exists ty. rewrite E1, E2. split; [done|]. destruct (ty_mark ty); try done.
  destruct Hm as [H1 H2]. split; [done|by apply (is_list_same s s')].
Qed.
Lemma marks_shaped s s' t vw : marks s s' -> shaped s t vw -> shaped s' t vw.
Proof. intros M. apply shaped_same; apply M. Qed.
Lemma marks_block_ok s s' h : marks s s' -> block_ok s h -> block_ok s' h.
Proof.
  intros M Hb hd Hhd. pose proof (heads_lookup s s' h (mk_heads _ _ M)) as Hh. rewrite Hhd in Hh.
  destruct (heap s !! h) as [hd0|] eqn:E; [|done]. destruct Hh as [_ ->]. destruct (Hb hd0 E) as [?|Hs]; [by left|right; by apply (marks_shaped s s')].
Qed.
Lemma marks_closed s s' : marks s s' -> closed s -> closed s'.
Proof.
  intros M Hc h Hh. apply (marks_kept s s' h M) in Hh. destruct (Hc h Hh) as [H1 H2].
  split; [by eapply marks_block_ok|]. intros x. rewrite (marks_points s s' h M). intros Hx. apply (marks_kept s s' x M). auto.
Qed.
Lemma is_mutator_same s s' h : heap s' !! h = heap s !! h -> mutator (vars s') = mutator (vars s) -> is_mutator s' h <-> is_mutator s h.
Proof. intros E1 E2. unfold is_mutator, color. by rewrite E1, E2. Qed.

Lemma marks_refl s : marks s s.
Proof. split; auto; try tauto; lia. Qed.
Lemma marks_trans s1 s2 s3 : marks s1 s2 -> marks s2 s3 -> marks s1 s3.
Proof.
  intros M1 M2. pose proof (fun h => marks_points s1 s2 h M1) as Hp. destruct M1, M2. split; try congruence.
  - intuition congruence.
  - intuition congruence.
  - intuition congruence.
  - lia.
  - intros h c Hc. destruct (mk_valid1 h c Hc) as [H1|[H1|H1]]; [auto|auto|]. right. right. intuition congruence.
  - auto.
  - intros h. by rewrite mk_white0.
  - intros h Hh. destruct (mk_black1 h Hh) as [H1|H1]; [|right; intros x Hx; apply H1; by rewrite Hp].
    destruct (mk_black0 h H1) as [H2|H2]; [by left|]. right. intros x Hx. auto.
  - intros E. destruct (mk_nprop1 E) as [E1 H1]. destruct (mk_nprop0 E1) as [E2 H2]. split; [done|]. auto.
Qed.

(** ** Setmark *)

Definition colors_ok (s : gcs) : Prop :=
  0 <= mutator (vars s) < 3 /\ 0 <= sweeper (vars s) < 3 /\ mutator (vars s) <> sweeper (vars s).
Lemma marks_colors_ok s s' : marks s s' -> colors_ok s -> colors_ok s'.
Proof. intros M. unfold colors_ok. by destruct (mk_colors _ _ M) as (_ & -> & ->). Qed.

Lemma color_recolor s h c h' :
  color (with_heap (alter (recolor c) h) s) h' = if decide (h' = h) then (fun _ => c) <$> heap s !! h else color s h'.
Proof.
  unfold color. cbn. destruct (decide (h' = h)) as [->|Hn]; [|by rewrite lookup_alter_ne].
  rewrite lookup_alter_eq. by destruct (heap s !! h).
Qed.
Lemma heads_recolor s h c :
  heads (with_heap (alter (recolor c) h) s) = heads s.
Proof.
  unfold heads. apply map_eq. intros h'. cbn. rewrite !lookup_fmap. destruct (decide (h' = h)) as [->|Hn]; [|by rewrite lookup_alter_ne].
  rewrite lookup_alter_eq. by destruct (heap s !! h).
Qed.
Lemma color_some s h : is_Some (heap s !! h) <-> is_Some (color s h).
Proof. unfold color. by rewrite fmap_is_Some. Qed.

Lemma vars_marks s f :
  gccolor (f (vars s)) = gccolor (vars s) -> mutator (f (vars s)) = mutator (vars s) ->
  sweeper (f (vars s)) = sweeper (vars s) -> nprop (f (vars s)) = nprop (vars s) ->
  quanta (f (vars s)) = quanta (vars s) -> visit (f (vars s)) <= visit (vars s) -> marks s (with_vars f s).
Proof.
  intros E1 E2 E3 E4 E5 E6. split; try done.
  - intros h c Hc. by left.
  - intros h. unfold shaded, is_mutator. cbn. by rewrite E2.
  - intros h. unfold white. cbn. by rewrite E3.
  - intros h. unfold is_mutator. cbn. rewrite E2. by left.
  - cbn. rewrite E4. auto.
Qed.

(** A block in use takes the propagator's colour. *)
Definition greyed (h : Z) (s : gcs) : gcs := with_vars (put_nprop 1) (with_heap (alter (recolor propagator) h) s).
Lemma greyed_marks s h : colors_ok s -> kept s h -> marks s (greyed h s) /\ color (greyed h s) h = Some propagator.
Proof.
  intros (Hm & Hw & Hne) [[hd Hhd] Hnw].
  assert (Hc : forall h', color (greyed h s) h' = if decide (h' = h) then Some propagator else color s h').
  { intros h'. unfold greyed. change (color (with_vars ?f ?s') h') with (color s' h'). rewrite color_recolor, Hhd. done. }
  assert (Hp : propagator = 3) by done. split; [|by rewrite Hc, decide_True]. split; try done.
  - apply heads_recolor.
  - intros h' c. rewrite Hc. case_decide; [intros [= <-]; by right; left|by left].
  - intros h'. unfold shaded, is_mutator. rewrite !Hc. case_decide; [by right|done].
  - intros h'. unfold white. rewrite Hc. case_decide; [subst|done]. cbn. split; [done|]. intros [= E]. lia.
  - intros h'. unfold is_mutator. rewrite Hc. case_decide; [|by left]. cbn. intros [= E]. lia.
Qed.

Lemma heap_at_ok s h hd : heap s !! h = Some hd -> heap_at h s = Ok hd s.
Proof. intros E. unfold heap_at. by rewrite E. Qed.
Lemma type_at_ok s t ty : types s !! t = Some ty -> type_at t s = Ok ty s.
Proof. intros E. unfold type_at. by rewrite E. Qed.

Definition pre (s : gcs) : Prop := colors_ok s /\ closed s.
Lemma marks_pre s s' : marks s s' -> pre s -> pre s'.
Proof. intros M [H1 H2]. split; [by eapply marks_colors_ok|by eapply marks_closed]. Qed.

Lemma Setmark_ok s h :
  colors_ok s -> kept s h -> exists s', Setmark h s = Ok tt s' /\ marks s s' /\ shaded s' h /\
    (s' = s /\ is_mutator s h \/ s' = greyed h s).
Proof.
  intros Hc Hk. destruct (Hk) as [[hd Hhd] _]. unfold Setmark. rewrite (bind_ok _ _ _ _ _ (heap_at_ok _ _ _ Hhd)).
  rewrite (bind_ok _ _ (mutator (vars s)) s s) by done.
  destruct (Z.eqb_spec (h_color hd) (mutator (vars s))) as [E|E].
  - exists s. assert (is_mutator s h) by (unfold is_mutator, color; by rewrite Hhd, <- E).
    split; [done|]. split; [apply marks_refl|]. split; [by left|]. by left.
  - exists (greyed h s). destruct (greyed_marks s h Hc Hk) as [M Hg]. split; [done|]. split; [done|]. split; [by right|by right].
Qed.

(** ** Marking what a word or a block points to *)

(** What [t->mark] does: the effect is a [marks], and all it saw is shaded. *)
Definition mark_spec (f : Z -> Z -> S unit) : Prop :=
  forall s t vw, pre s -> shaped s t vw ->
    (forall v, v ∈ seen (mem s) (types s) t vw -> kept s (D2H v)) ->
    exists s', f t vw s = Ok tt s' /\ marks s s' /\ forall v, v ∈ seen (mem s) (types s) t vw -> shaded s' (D2H v).

Lemma color_Some_inv s h c : color s h = Some c -> exists hd, heap s !! h = Some hd /\ h_color hd = c.
Proof. unfold color. destruct (heap s !! h) as [hd|]; [|done]. intros [= <-]. eauto. Qed.
Lemma is_mutator_shaded s h : is_mutator s h -> shaded s h.
Proof. by left. Qed.
Lemma shaded_kept s h : colors_ok s -> shaded s h -> kept s h.
Proof.
  intros (Hm & Hw & Hne) Hs. split.
  - apply color_some. destruct Hs as [E|E]; [unfold is_mutator in E|]; rewrite E; eauto.
  - unfold white. intros E. assert (propagator = 3) by done. destruct Hs as [E'|E']; [unfold is_mutator in E'|]; rewrite E in E'; injection E'; lia.
Qed.

(** A propagator takes the mutator's colour. *)
Definition blackened (h : Z) (s : gcs) : gcs := with_heap (alter (recolor (mutator (vars s))) h) s.
Lemma blackened_color s h : color s h = Some propagator ->
  forall x, color (blackened h s) x = if decide (x = h) then Some (mutator (vars s)) else color s x.
Proof.
  intros Hh x. unfold blackened. rewrite color_recolor. unfold color in Hh. by destruct (heap s !! h).
Qed.
Lemma blackened_points s h x : points (blackened h s) x = points s x.
Proof. apply points_same; [done|done|apply heads_recolor]. Qed.
Lemma blackened_white s h x : colors_ok s -> color s h = Some propagator -> white (blackened h s) x <-> white s x.
Proof.
  intros (Hm & Hw & Hne) Hh. assert (Hp : propagator = 3) by done. unfold white. rewrite (blackened_color s h Hh).
  case_decide; [subst|done]. rewrite Hh. cbn. split; intros [= E]; lia.
Qed.
Lemma blackened_kept s h x : colors_ok s -> color s h = Some propagator -> kept (blackened h s) x <-> kept s x.
Proof.
  intros Hc Hh. unfold kept. rewrite (blackened_white s h x Hc Hh), !color_some, (blackened_color s h Hh).
  case_decide; [subst; rewrite Hh|done]. split; intros [_ ?]; (split; [eauto|done]).
Qed.
Lemma blackened_pre s h : pre s -> color s h = Some propagator -> pre (blackened h s).
Proof.
  intros [Hc Hcl] Hh. split; [done|]. intros x Hx. apply (blackened_kept s h x Hc Hh) in Hx. destruct (Hcl x Hx) as [Hb Hp]. split.
  - intros hd' Hhd'. pose proof (heads_lookup s (blackened h s) x (heads_recolor _ _ _)) as E. rewrite Hhd' in E.
    destruct (heap s !! x) as [hd|] eqn:Ex; [|done]. destruct E as [_ ->]. destruct (Hb hd Ex) as [?|Hs]; [by left|right].
    apply (shaped_same s); [done|done|apply heads_recolor|done].
  - intros y. rewrite blackened_points. intros Hy. apply (blackened_kept s h y Hc Hh). auto.
Qed.
Lemma blackened_marks s h s' :
  colors_ok s -> color s h = Some propagator -> marks (blackened h s) s' -> (forall x, x ∈ points s h -> shaded s' x) ->
  marks s s' /\ (nprop (vars s') = 0 -> color s' h <> Some propagator).
Proof.
  intros Hc Hh M Hx. pose proof (blackened_color s h Hh) as Ec. assert (Hp : propagator = 3) by done.
  pose proof Hc as (Hm & Hw & Hne).
  assert (Hself : nprop (vars s') = 0 -> color s' h <> Some propagator).
  { intros E E'. destruct (mk_nprop _ _ M E) as [_ H2]. specialize (H2 h E'). rewrite Ec, decide_True in H2 by done. injection H2 as H2. lia. }
  split; [|done]. destruct M. split; try done; cbn in *.
  - rewrite mk_heads0. apply heads_recolor.
  - intros x c Hxc. destruct (mk_valid0 x c Hxc) as [H1|H1]; [|tauto].
    rewrite Ec in H1. case_decide; [|by left]. injection H1 as <-. right. by right.
  - intros x Hs. apply mk_shaded0. unfold shaded, is_mutator in *. rewrite Ec. case_decide; [by left|done].
  - intros x. by rewrite <- mk_white0, blackened_white.
  - intros x Hb. destruct (mk_black0 x Hb) as [H1|H1]; [|right; intros y Hy; apply H1; by rewrite blackened_points].
    unfold is_mutator in H1. rewrite Ec in H1. case_decide; [subst; by right|by left].
  - intros E. destruct (mk_nprop0 E) as [H1 H2]. split; [done|]. intros x Hxp. specialize (H2 x Hxp). rewrite Ec in H2.
    case_decide; [|done]. injection H2 as H2. lia.
Qed.

Lemma blacken_ok mk s h hd :
  mark_spec mk -> pre s -> heap s !! h = Some hd -> h_color hd = propagator ->
  exists s', (m ← var mutator; set_color h m;; if h_t hd =? 0 then mret tt else mk (h_t hd) (H2D h)) s = Ok tt s' /\
    marks s s' /\ (nprop (vars s') = 0 -> color s' h <> Some propagator).
Proof.
  intros Hmk Hpre Hhd Hcol. assert (Hh : color s h = Some propagator) by (unfold color; by rewrite Hhd, <- Hcol).
  destruct (Hpre) as [Hc Hcl]. rewrite (bind_ok _ _ (mutator (vars s)) s s) by done.
  rewrite (bind_ok _ _ tt s (blackened h s)) by done.
  assert (Hk : kept s h) by (apply shaded_kept; [done|by right]). destruct (Hcl h Hk) as [Hbok Hpts].
  assert (Hpo : points s h = D2H <$> (if h_t hd =? 0 then [] else seen (mem s) (types s) (h_t hd) (H2D h))) by (unfold points; by rewrite Hhd).
  destruct (Z.eqb_spec (h_t hd) 0) as [E0|E0].
  - exists (blackened h s). split; [done|]. apply blackened_marks; [done|done|apply marks_refl|]. intros x. rewrite Hpo. cbn. by rewrite elem_of_nil.
  - destruct (Hbok hd Hhd) as [?|Hsh]; [done|].
    destruct (Hmk (blackened h s) (h_t hd) (H2D h)) as (s' & E & M & Hpost).
    + by apply blackened_pre.
    + apply (shaped_same s); [done|done|apply heads_recolor|done].
    + intros v Hv. apply (blackened_kept s h); [done|done|]. apply Hpts. rewrite Hpo. by apply list_elem_of_fmap_2.
    + exists s'. split; [done|]. apply blackened_marks; [done|done|done|]. intros x. rewrite Hpo.
      intros (v & -> & Hv)%list_elem_of_fmap. by apply Hpost.
Qed.

Lemma for_all_ok {A} (f : A -> S unit) (P Q : gcs -> A -> Prop) l s :
  (forall a s, a ∈ l -> pre s -> P s a -> exists s', f a s = Ok tt s' /\ marks s s' /\ Q s' a) ->
  (forall a s s', marks s s' -> P s a -> P s' a) -> (forall a s s', marks s s' -> Q s a -> Q s' a) ->
  pre s -> (forall a, a ∈ l -> P s a) ->
  exists s', for_all f l s = Ok tt s' /\ marks s s' /\ forall a, a ∈ l -> Q s' a.
Proof.
  intros Hf HP HQ. revert s. induction l as [|a l IH]; intros s Hpre Hl; cbn [for_all].
  - exists s. split; [done|]. split; [apply marks_refl|]. intros a Ha. by apply elem_of_nil in Ha.
  - destruct (Hf a s) as (s1 & E1 & M1 & Q1); [constructor|done|apply Hl; constructor|].
    destruct (IH ltac:(intros; apply Hf; [by right|done|done]) s1) as (s2 & E2 & M2 & Q2).
    + by apply (marks_pre s s1).
    + intros b Hb. apply (HP b s s1 M1), Hl. by right.
    + exists s2. split; [by rewrite (bind_ok _ _ _ _ _ E1)|]. split; [by apply (marks_trans s s1)|].
      intros b [->|Hb]%elem_of_cons; [by apply (HQ a s1 s2)|auto].
Qed.

Definition marker_ok (mk : option (Z -> Z -> S unit)) : Prop := forall f, mk = Some f -> mark_spec f.

Definition H_or_kept (s : gcs) (v : Z) : Prop := v = H \/ kept s (D2H v).
Definition H_or_shaded (s : gcs) (v : Z) : Prop := v = H \/ shaded s (D2H v).
Lemma H_or_kept_marks s s' v : marks s s' -> H_or_kept s v -> H_or_kept s' v.
Proof. intros M [?|Hk]; [by left|right]. by apply (marks_kept s s'). Qed.
Lemma H_or_shaded_marks s s' v : marks s s' -> H_or_shaded s v -> H_or_shaded s' v.
Proof. intros M [?|Hk]; [by left|right]. by apply (mk_shaded s s'). Qed.

Lemma Setmark_word_ok s v :
  pre s -> H_or_kept s v ->
  exists s', (if v =? H then mret tt else Setmark (D2H v)) s = Ok tt s' /\ marks s s' /\ H_or_shaded s' v.
Proof.
  intros [Hc _] Hv. destruct (Z.eqb_spec v H) as [->|Hn].
  - exists s. split; [done|]. split; [apply marks_refl|by left].
  - destruct Hv as [?|Hk]; [done|]. destruct (Setmark_ok s (D2H v) Hc Hk) as (s' & E & M & Hs & _).
    exists s'. split; [done|]. split; [done|by right].
Qed.

Lemma mark_word_ok mk s q :
  marker_ok mk -> pre s -> H_or_kept s (mem s q) ->
  exists s', mark_word mk q s = Ok tt s' /\ marks s s' /\ H_or_shaded s' (mem s q).
Proof.
  intros Hmk Hpre Hv. unfold mark_word. rewrite (bind_ok _ _ (mem s q) s s) by done. set (v := mem s q) in *.
  destruct (Z.eqb_spec v H) as [E|Hn]; [exists s; split; [done|]; split; [apply marks_refl|by left]|].
  destruct Hv as [?|Hk]; [done|]. destruct (Setmark_ok s (D2H v) (proj1 Hpre) Hk) as (s1 & E1 & M1 & Hs1 & _).
  rewrite (bind_ok _ _ _ _ _ E1). destruct (proj1 (shaded_kept s1 _ (marks_colors_ok _ _ M1 (proj1 Hpre)) Hs1)) as [hd Hhd].
  rewrite (bind_ok _ _ _ _ _ (heap_at_ok _ _ _ Hhd)).
  assert (Hend : forall s', marks s1 s' -> marks s s' /\ H_or_shaded s' v).
  { intros s' M. split; [by apply (marks_trans s s1)|]. right. by apply (mk_shaded s1 s'). }
  destruct (Z.eqb_spec (h_color hd) propagator) as [Ec|Ec].
  2: { exists s1. split; [done|]. apply Hend, marks_refl. }
  rewrite (bind_ok _ _ (visit (vars s1)) s1 s1) by done. set (n := visit (vars s1)).
  set (s2 := with_vars (put_visit (n - 1)) s1). assert (M2 : marks s1 s2) by (apply vars_marks; try done; cbn; lia).
  rewrite (bind_ok _ _ tt s1 s2) by done. destruct mk as [f|].
  - destruct (0 <=? n - 1); [|exists s2; split; [done|]; by apply Hend].
    rewrite (bind_ok _ _ (gce (vars s2)) s2 s2) by done. rewrite (bind_ok _ _ (gct (vars s2)) s2 s2) by done.
    set (s3 := with_vars (put_gce (gce (vars s2) - 1) (gct (vars s2))) s2). rewrite (bind_ok _ _ tt s2 s3) by done.
    assert (M3 : marks s2 s3) by by apply vars_marks. assert (M13 : marks s1 s3) by by apply (marks_trans s1 s2).
    destruct (blacken_ok f s3 (D2H v) hd) as (s4 & E4 & M4 & _); [by apply Hmk| |done|done|].
    + apply (marks_pre s); [|done]. by apply (marks_trans s s1).
    + exists s4. split; [done|]. apply Hend. by apply (marks_trans s1 s3).
  - exists s2. split; [done|]. by apply Hend.
Qed.

Lemma elem_seen_fields m map w v : v ∈ seen_fields m map w <-> exists q, q ∈ fields map w /\ v = m q /\ v <> H.
Proof.
  unfold seen_fields. rewrite list_elem_of_filter. split.
  - intros [Hv (q & -> & Hq)%list_elem_of_fmap]. eauto.
  - intros (q & Hq & -> & Hv). split; [done|]. by apply list_elem_of_fmap_2.
Qed.
Lemma elem_not_H v x : x ∈ not_H v <-> x = v /\ v <> H.
Proof.
  unfold not_H. destruct (Z.eqb_spec v H) as [E|E]; [rewrite elem_of_nil|rewrite list_elem_of_singleton]; tauto.
Qed.

Lemma markheap_ok mk s t vw :
  marker_ok mk -> pre s -> t = 0 \/ is_Some (types s !! t) ->
  (forall v, v ∈ seen_fields (mem s) (map_of (types s) t) vw -> kept s (D2H v)) ->
  exists s', markheap mk t vw s = Ok tt s' /\ marks s s' /\
    forall v, v ∈ seen_fields (mem s) (map_of (types s) t) vw -> shaded s' (D2H v).
Proof.
  intros Hmk Hpre Ht Hk. unfold markheap, map_of in *. destruct (Z.eqb_spec t 0) as [->|Hn].
  - exists s. split; [done|]. split; [apply marks_refl|]. intros v Hv. by apply elem_of_nil in Hv.
  - destruct Ht as [?|[ty Hty]]; [done|]. rewrite Hty in *. rewrite (bind_ok _ _ _ _ _ (type_at_ok _ _ _ Hty)).
    destruct (for_all_ok (mark_word mk) (fun s' q => mem s' q = mem s q /\ H_or_kept s' (mem s q)) (fun s' q => H_or_shaded s' (mem s q))
      (fields (ty_map ty) vw) s) as (s' & E & M & Hq).
    + intros q s' _ Hpre' [Em Hq]. rewrite <- Em in *. by apply mark_word_ok.
    + intros q s1 s2 M [Em Hq]. split; [by rewrite (mk_mem _ _ M)|by eapply H_or_kept_marks].
    + intros q s1 s2 M. by apply H_or_shaded_marks.
    + done.
    + intros q Hq. split; [done|]. destruct (decide (mem s q = H)) as [E|E]; [by left|right]. apply Hk, elem_seen_fields. eauto.
    + exists s'. split; [done|]. split; [done|]. intros v (q & Hq' & -> & Hv)%elem_seen_fields. by destruct (Hq q Hq').
Qed.

Lemma markarray_ok mk s vw ety :
  marker_ok mk -> pre s -> 0 <= mem s vw -> types s !! mem s (vw + 8) = Some ety ->
  let l := not_H (mem s (vw + 16)) ++
    (seq 0 (Z.to_nat (mem s vw)) ≫= fun i => seen_fields (mem s) (map_of (types s) (mem s (vw + 8))) (mem s (vw + 24) + Z.of_nat i * ty_size ety)) in
  (forall v, v ∈ l -> kept s (D2H v)) ->
  exists s', markarray mk vw s = Ok tt s' /\ marks s s' /\ forall v, v ∈ l -> shaded s' (D2H v).
Proof.
  intros Hmk Hpre Hlen Hety l Hk. unfold markarray. rewrite (bind_ok _ _ (mem s (vw + 8)) s s) by done.
  rewrite (bind_ok _ _ (mem s (vw + 16)) s s) by done.
  destruct (Setmark_word_ok s (mem s (vw + 16)) Hpre) as (s1 & E1 & M1 & H1).
  { destruct (decide (mem s (vw + 16) = H)); [by left|right]. apply Hk, elem_of_app. left. by apply elem_not_H. }
  rewrite (bind_ok _ _ _ _ _ E1).
  assert (Hety1 : types s1 !! mem s (vw + 8) = Some ety) by by rewrite (mk_types _ _ M1).
  rewrite (bind_ok _ _ _ _ _ (type_at_ok _ _ _ Hety1)).
  assert (Hroot : forall s' v, marks s1 s' -> v ∈ not_H (mem s (vw + 16)) -> shaded s' (D2H v)).
  { intros s' v M [-> Hn]%elem_not_H. destruct H1 as [?|H1]; [done|]. by apply (mk_shaded s1 s'). }
  destruct (ty_map ety) as [|c map] eqn:Emap.
  - exists s1. split; [done|]. split; [done|]. intros v [Hv|Hv]%elem_of_app; [by apply Hroot; [apply marks_refl|]|].
    apply list_elem_of_bind in Hv as (i & Hv & _). unfold map_of in Hv. rewrite Hety, Emap in Hv.
    destruct (_ =? 0); by apply elem_of_nil in Hv.
  - assert (Em : mem s1 = mem s) by apply M1. assert (Et : types s1 = types s) by apply M1.
    rewrite (bind_ok _ _ (mem s (vw + 24)) s1 s1) by (unfold word, gets; by rewrite Em).
    rewrite (bind_ok _ _ (mem s vw) s1 s1) by (unfold word, gets; by rewrite Em).
    set (elem := fun i => mem s (vw + 24) + Z.of_nat i * ty_size ety) in *.
    set (words := fun i => seen_fields (mem s) (map_of (types s) (mem s (vw + 8))) (elem i)) in *.
    destruct (for_all_ok (fun i => markheap mk (mem s (vw + 8)) (elem i))
      (fun s' i => mem s' = mem s /\ types s' = types s /\ forall v, v ∈ words i -> kept s' (D2H v))
      (fun s' i => forall v, v ∈ words i -> shaded s' (D2H v)) (seq 0 (Z.to_nat (mem s vw))) s1) as (s2 & E2 & M2 & Hi).
    + intros i s' _ Hpre' (Em' & Et' & Hw). destruct (markheap_ok mk s' (mem s (vw + 8)) (elem i) Hmk Hpre') as (s'' & E & M & Hs).
      * right. rewrite Et', Hety. eauto.
      * rewrite Em', Et'. exact Hw.
      * rewrite Em', Et' in Hs. eauto.
    + intros i s' s'' M (Em' & Et' & Hw). split; [by rewrite (mk_mem _ _ M)|]. split; [by rewrite (mk_types _ _ M)|].
      intros v Hv. apply (marks_kept s' s'' _ M). auto.
    + intros i s' s'' M Hs v Hv. apply (mk_shaded _ _ M). auto.
    + by apply (marks_pre s s1).
    + intros i Hi. split; [done|]. split; [done|]. intros v Hv. apply (marks_kept s s1 _ M1), Hk, elem_of_app. right.
      apply list_elem_of_bind. eauto.
    + rewrite (bind_ok _ _ _ _ _ E2). rewrite (bind_ok _ _ (visit (vars s2)) s2 s2) by done.
      set (s3 := with_vars (put_visit (visit (vars s2) - mem s vw)) s2). assert (M3 : marks s2 s3) by (apply vars_marks; try done; cbn; lia).
      exists s3. split; [done|]. split; [by apply (marks_trans s s1), (marks_trans s1 s2)|].
      intros v [Hv|Hv]%elem_of_app; [apply Hroot; [by apply (marks_trans s1 s2)|done]|].
      apply list_elem_of_bind in Hv as (i & Hv & Hin). apply (mk_shaded _ _ M3). by apply (Hi i).
Qed.

Lemma H2D_D2H d : H2D (D2H d) = d.
Proof. unfold H2D, D2H. lia. Qed.
Lemma D2H_H2D h : D2H (H2D h) = h.
Proof. unfold H2D, D2H. lia. Qed.

(** A node of a list that is kept: its descriptor, and what it points to. *)
Lemma list_node s v :
  pre s -> v <> H -> is_list s v -> kept s (D2H v) ->
  (mem s (v + 8) = 0 \/ is_Some (types s !! mem s (v + 8))) /\ is_list s (mem s v) /\ H_or_kept s (mem s v) /\
  (forall x, x ∈ seen_fields (mem s) (map_of (types s) (mem s (v + 8))) (v + 16) -> kept s (D2H x)).
Proof.
  intros [_ Hcl] Hn Hl Hk. destruct Hl as [?|(hd & ty & Hhd & Ht & Hty & Hm)]; [done|].
  destruct (Hcl _ Hk) as [Hb Hp]. destruct (Hb hd Hhd) as [?|Hsh]; [done|]. rewrite H2D_D2H in Hsh.
  destruct Hsh as (ty' & Hty' & Hsh). assert (ty' = ty) as -> by congruence. rewrite Hm in Hsh. destruct Hsh as [H1 H2].
  assert (Hpt : forall x, x ∈ seen_fields (mem s) (map_of (types s) (mem s (v + 8))) (v + 16) ++ not_H (mem s v) -> kept s (D2H x)).
  { intros x Hx. apply Hp. unfold points. rewrite Hhd. destruct (Z.eqb_spec (h_t hd) 0); [done|]. unfold seen.
    rewrite Hty, Hm, H2D_D2H. by apply list_elem_of_fmap_2. }
  split; [done|]. split; [done|]. split.
  - destruct (decide (mem s v = H)); [by left|right]. apply Hpt, elem_of_app. right. by apply elem_not_H.
  - intros x Hx. apply Hpt, elem_of_app. by left.
Qed.

Lemma marklist_loop_ok mk fuel s l :
  marker_ok mk -> pre s -> visit (vars s) <= Z.of_nat fuel -> is_list s (mem s l) -> H_or_kept s (mem s l) ->
  exists s', marklist_loop fuel mk l s = Ok tt s' /\ marks s s' /\ H_or_shaded s' (mem s l).
Proof.
  intros Hmk. revert s l. induction fuel as [|fuel IH]; intros s l Hpre Hf Hl Hk; cbn [marklist_loop];
    rewrite (bind_ok _ _ (visit (vars s)) s s) by done; destruct (Z.ltb_spec 0 (visit (vars s))) as [Hv|Hv]; try (cbn in Hf; lia);
    rewrite (bind_ok _ _ (mem s l) s s) by done; set (v := mem s l) in *.
  all: destruct (Z.eqb_spec v H) as [E|E]; [exists s; split; [done|]; split; [apply marks_refl|by left]|].
  all: destruct Hk as [?|Hk]; [done|].
  1, 3: exists (greyed (D2H v) s); split; [done|]; destruct (greyed_marks s (D2H v) (proj1 Hpre) Hk) as [M Hg]; split; [done|]; right; by right.
  destruct (Setmark_ok s (D2H v) (proj1 Hpre) Hk) as (s1 & E1 & M1 & Hs1 & _). rewrite (bind_ok _ _ _ _ _ E1).
  assert (Hpre1 : pre s1) by by apply (marks_pre s). assert (Hk1 : kept s1 (D2H v)) by by apply (marks_kept s s1).
  assert (Hl1 : is_list s1 v) by (apply (is_list_same s s1); [apply M1|apply M1|done]).
  destruct (list_node s1 v Hpre1 E Hl1 Hk1) as (Ht & Hl2 & Hk2 & Hf2).
  rewrite (bind_ok _ _ (mem s1 (v + 8)) s1 s1) by done.
  destruct (markheap_ok mk s1 (mem s1 (v + 8)) (v + 16) Hmk Hpre1 Ht Hf2) as (s2 & E2 & M2 & _). rewrite (bind_ok _ _ _ _ _ E2).
  rewrite (bind_ok _ _ (visit (vars s2)) s2 s2) by done. set (s3 := with_vars (put_visit (visit (vars s2) - 1)) s2).
  assert (M3 : marks s2 s3) by (apply vars_marks; try done; cbn; lia). rewrite (bind_ok _ _ tt s2 s3) by done.
  assert (M13 : marks s1 s3) by by apply (marks_trans s1 s2).
  assert (Em : mem s3 v = mem s1 v) by by rewrite (mk_mem _ _ M13).
  destruct (IH s3 v) as (s4 & E4 & M4 & H4).
  - by apply (marks_pre s1).
  - cbn. pose proof (mk_visit _ _ M1). pose proof (mk_visit _ _ M2). lia.
  - rewrite Em. apply (is_list_same s1 s3); [apply M13|apply M13|done].
  - rewrite Em. by apply (H_or_kept_marks s1 s3).
  - exists s4. split; [done|]. assert (M14 : marks s1 s4) by by apply (marks_trans s1 s3).
    split; [by apply (marks_trans s s1)|]. right. by apply (mk_shaded s1 s4).
Qed.

Lemma marklist_ok mk s vw :
  marker_ok mk -> pre s -> mem s (vw + 8) = 0 \/ is_Some (types s !! mem s (vw + 8)) -> is_list s (mem s vw) ->
  let l := seen_fields (mem s) (map_of (types s) (mem s (vw + 8))) (vw + 16) ++ not_H (mem s vw) in
  (forall v, v ∈ l -> kept s (D2H v)) ->
  exists s', marklist mk vw s = Ok tt s' /\ marks s s' /\ forall v, v ∈ l -> shaded s' (D2H v).
Proof.
  intros Hmk Hpre Ht Hl l Hk. unfold marklist. rewrite (bind_ok _ _ (mem s (vw + 8)) s s) by done.
  destruct (markheap_ok mk s _ (vw + 16) Hmk Hpre Ht) as (s1 & E1 & M1 & H1).
  { intros v Hv. apply Hk, elem_of_app. by left. }
  rewrite (bind_ok _ _ _ _ _ E1). rewrite (bind_ok _ _ (visit (vars s1)) s1 s1) by done.
  assert (Em : mem s1 vw = mem s vw) by by rewrite (mk_mem _ _ M1).
  destruct (marklist_loop_ok mk (Z.to_nat (visit (vars s1))) s1 vw Hmk) as (s2 & E2 & M2 & H2).
  - by apply (marks_pre s).
  - lia.
  - rewrite Em. apply (is_list_same s s1); [apply M1|apply M1|done].
  - rewrite Em. apply (H_or_kept_marks s s1 _ M1). destruct (decide (mem s vw = H)); [by left|right].
    apply Hk, elem_of_app. right. by apply elem_not_H.
  - exists s2. split; [done|]. split; [by apply (marks_trans s s1)|]. rewrite Em in H2.
    intros v [Hv|[-> Hn]%elem_not_H]%elem_of_app; [apply (mk_shaded _ _ M2); auto|]. by destruct H2.
Qed.

(** [t->mark] at any depth. *)
Lemma mark_ok k : mark_spec (mark k).
Proof.
  induction k as [|k IH]; intros s t vw Hpre (ty & Hty & Hm) Hk; cbn [mark]; rewrite (bind_ok _ _ _ _ _ (type_at_ok _ _ _ Hty));
    unfold seen in *; rewrite Hty in *; destruct (ty_mark ty) eqn:Em.
  1, 5: exists s; split; [done|]; split; [apply marks_refl|]; intros v Hv; by apply elem_of_nil in Hv.
  1, 4: apply markheap_ok; [by intros f [= <-]|done|right; by rewrite Hty|done].
  1, 3: destruct Hm as [[ety Hety] Hlen]; rewrite Hety in *; apply markarray_ok; [by intros f [= <-]|done..].
  1, 2: destruct Hm as [Ht Hl]; apply marklist_ok; [by intros f [= <-]|done..].
Qed.

(** ** Marking the roots *)

Definition all_kept (s : gcs) (l : list Z) : Prop := forall x, x ∈ l -> kept s x.
Definition all_shaded (s : gcs) (l : list Z) : Prop := forall x, x ∈ l -> shaded s x.
Lemma all_kept_marks s s' l : marks s s' -> all_kept s l -> all_kept s' l.
Proof. intros M Hl x Hx. apply (marks_kept s s' x M). auto. Qed.
Lemma all_shaded_marks s s' l : marks s s' -> all_shaded s l -> all_shaded s' l.
Proof. intros M Hl x Hx. apply (mk_shaded s s' M). auto. Qed.

Lemma Setmark_list_ok l s :
  pre s -> all_kept s l -> exists s', for_all Setmark l s = Ok tt s' /\ marks s s' /\ all_shaded s' l.
Proof.
  intros Hpre Hl. apply (for_all_ok Setmark kept shaded l s); [|intros; by apply (marks_kept s0 s')|intros; by eapply mk_shaded|done|done].
  intros h s0 _ Hp Hk. destruct (Setmark_ok s0 h (proj1 Hp) Hk) as (s' & E & M & Hs & _). eauto.
Qed.

Lemma elem_D2H_not_H v x : x ∈ D2H <$> not_H v <-> x = D2H v /\ v <> H.
Proof.
  rewrite list_elem_of_fmap. split.
  - intros (y & -> & [-> Hn]%elem_not_H). done.
  - intros [-> Hn]. exists v. by rewrite elem_not_H.
Qed.

Lemma mark_link_ok ml s :
  pre s -> all_kept s (link_roots (mem s) ml) ->
  exists s', mark_link ml s = Ok tt s' /\ marks s s' /\ all_shaded s' (link_roots (mem s) ml).
Proof.
  intros Hpre Hk. unfold mark_link. destruct (Setmark_ok s (D2H ml) (proj1 Hpre)) as (s1 & E1 & M1 & H1 & _); [apply Hk; constructor|].
  rewrite (bind_ok _ _ _ _ _ E1). rewrite (bind_ok _ _ (mem s ml) s1 s1) by (unfold word, gets; by rewrite (mk_mem _ _ M1)).
  destruct (Setmark_word_ok s1 (mem s ml)) as (s2 & E2 & M2 & H2).
  - by apply (marks_pre s).
  - apply (H_or_kept_marks s s1 _ M1). destruct (decide (mem s ml = H)); [by left|right]. apply Hk. right. by apply elem_D2H_not_H.
  - exists s2. split; [done|]. split; [by apply (marks_trans s s1)|].
    intros x [->|[-> Hn]%elem_D2H_not_H]%elem_of_cons; [by apply (mk_shaded s1 s2)|]. by destruct H2.
Qed.

Lemma frame_roots_same s s' f : mem s' = mem s -> types s' = types s -> frame_roots s' f = frame_roots s f.
Proof. intros E1 E2. unfold frame_roots. by rewrite E1, E2. Qed.

Lemma root_frame_ok f s :
  pre s -> shaped s (f_t f) (f_addr f) -> all_kept s (frame_roots s f) ->
  exists s', root_frame f s = Ok tt s' /\ marks s s' /\ all_shaded s' (frame_roots s f).
Proof.
  intros Hpre Hsh Hk. unfold root_frame.
  destruct (mark_ok maxdepth s (f_t f) (f_addr f) Hpre Hsh) as (s1 & E1 & M1 & H1).
  { intros v Hv. apply Hk, elem_of_app. left. by apply list_elem_of_fmap_2. }
  rewrite (bind_ok _ _ _ _ _ E1). unfold frame_roots in *.
  assert (Hdone : forall s2, marks s1 s2 -> all_shaded s2 (if f_mr f =? 0 then [] else link_roots (mem s) (f_mr f)) ->
    marks s s2 /\ all_shaded s2 ((D2H <$> seen (mem s) (types s) (f_t f) (f_addr f)) ++ (if f_mr f =? 0 then [] else link_roots (mem s) (f_mr f)))).
  { intros s2 M2 H2. split; [by apply (marks_trans s s1)|]. intros x [Hx|Hx]%elem_of_app; [|by apply H2].
    apply list_elem_of_fmap in Hx as (v & -> & Hv). apply (mk_shaded _ _ M2). auto. }
  destruct (f_mr f =? 0).
  - exists s1. split; [done|]. apply Hdone; [apply marks_refl|]. intros x Hx. by apply elem_of_nil in Hx.
  - assert (Em : mem s1 = mem s) by apply M1. destruct (mark_link_ok (f_mr f) s1) as (s2 & E2 & M2 & H2).
    + by apply (marks_pre s).
    + rewrite Em. apply (all_kept_marks s s1 _ M1). intros x Hx. apply Hk, elem_of_app. by right.
    + exists s2. split; [done|]. rewrite Em in H2. by apply Hdone.
Qed.

Lemma root_prog_ok p s :
  pre s -> (forall f, f ∈ g_frames p -> shaped s (f_t f) (f_addr f)) -> all_kept s (prog_roots s p) ->
  exists s', root_prog p s = Ok tt s' /\ marks s s' /\ all_shaded s' (prog_roots s p).
Proof.
  intros Hpre Hsh Hk. unfold root_prog. destruct (mark_link_ok (g_M p) s Hpre) as (s1 & E1 & M1 & H1).
  { intros x Hx. apply Hk, elem_of_app. by left. }
  rewrite (bind_ok _ _ _ _ _ E1).
  destruct (for_all_ok root_frame
    (fun s' f => mem s' = mem s /\ types s' = types s /\ shaped s' (f_t f) (f_addr f) /\ all_kept s' (frame_roots s f))
    (fun s' f => all_shaded s' (frame_roots s f)) (g_frames p) s1) as (s2 & E2 & M2 & H2).
  - intros f s' _ Hp (Em & Et & Hs & Ha). rewrite <- (frame_roots_same s s' f Em Et) in *. by apply root_frame_ok.
  - intros f s' s'' M (Em & Et & Hs & Ha). split; [by rewrite (mk_mem _ _ M)|]. split; [by rewrite (mk_types _ _ M)|].
    split; [by apply (marks_shaped s' s'')|by apply (all_kept_marks s' s'')].
  - intros f s' s'' M. by apply all_shaded_marks.
  - by apply (marks_pre s).
  - intros f Hf. split; [apply M1|]. split; [apply M1|]. split; [apply (marks_shaped s s1); auto|].
    apply (all_kept_marks s s1 _ M1). intros x Hx. apply Hk, elem_of_app. right. apply list_elem_of_bind. eauto.
  - exists s2. split; [done|]. split; [by apply (marks_trans s s1)|].
    intros x [Hx|Hx]%elem_of_app; [by apply (mk_shaded _ _ M2), H1|].
    apply list_elem_of_bind in Hx as (f & Hx & Hf). by apply (H2 f).
Qed.

Lemma prog_roots_same s s' p : mem s' = mem s -> types s' = types s -> prog_roots s' p = prog_roots s p.
Proof.
  intros E1 E2. unfold prog_roots. rewrite E1. f_equal. induction (g_frames p) as [|f l IH]; [done|]. cbn.
  by rewrite (frame_roots_same s s' f E1 E2), IH.
Qed.

(** The epoch's colours. *)
Definition flipped (s : gcs) : gcs :=
  with_vars (put_colors (gccolor (vars s)) (gccolor (vars s) mod 3) ((gccolor (vars s) - 2) mod 3)) s.

Lemma rootset_ok s :
  pre (flipped s) -> frames_ok (flipped s) -> all_kept (flipped s) (roots s) ->
  exists s', rootset s = Ok tt s' /\ marks (flipped s) s' /\ all_shaded s' (roots s).
Proof.
  intros Hpre Hfr Hk. unfold rootset. set (s0 := flipped s) in *.
  rewrite (bind_ok _ _ (gccolor (vars s)) s s) by done. rewrite (bind_ok _ _ tt s s0) by done.
  rewrite (bind_ok _ _ (progs s) s0 s0) by done.
  destruct (for_all_ok root_prog
    (fun s' p => mem s' = mem s /\ types s' = types s /\ (forall f, f ∈ g_frames p -> shaped s' (f_t f) (f_addr f)) /\ all_kept s' (prog_roots s p))
    (fun s' p => all_shaded s' (prog_roots s p)) (progs s) s0) as (s1 & E1 & M1 & H1).
  - intros p s' _ Hp (Em & Et & Hs & Ha). rewrite <- (prog_roots_same s s' p Em Et) in *. by apply root_prog_ok.
  - intros p s' s'' M (Em & Et & Hs & Ha). split; [by rewrite (mk_mem _ _ M)|]. split; [by rewrite (mk_types _ _ M)|].
    split; [intros f Hf; by apply (marks_shaped s' s''); auto|by apply (all_kept_marks s' s'')].
  - intros p s' s'' M. by apply all_shaded_marks.
  - done.
  - intros p Hp. split; [done|]. split; [done|]. split; [intros f Hf; by apply frame_shaped, (Hfr p f)|].
    intros x Hx. apply Hk, elem_of_app. left. apply list_elem_of_bind. eauto.
  - rewrite (bind_ok _ _ _ _ _ E1). rewrite (bind_ok _ _ (origmps s) s1 s1) by (destruct (mk_roots _ _ M1) as (_ & E & _); unfold gets, origmps; by rewrite E).
    assert (Hrest : all_kept s1 ((D2H <$> (origmps s ≫= not_H)) ++ ptrtab s)).
    { apply (all_kept_marks s0 s1 _ M1). intros x Hx. apply Hk, elem_of_app. by right. }
    destruct (for_all_ok (fun mp => if mp =? H then mret tt else Setmark (D2H mp)) H_or_kept H_or_shaded (origmps s) s1) as (s2 & E2 & M2 & H2).
    + intros v s' _ Hp Hv. by apply Setmark_word_ok.
    + intros v s' s'' M. by apply H_or_kept_marks.
    + intros v s' s'' M. by apply H_or_shaded_marks.
    + by apply (marks_pre s0).
    + intros v Hv. destruct (decide (v = H)); [by left|right]. apply Hrest, elem_of_app. left. apply list_elem_of_fmap_2.
      apply list_elem_of_bind. exists v. by rewrite elem_not_H.
    + rewrite (bind_ok _ _ _ _ _ E2). unfold ptrmark. assert (M02 : marks s0 s2) by by apply (marks_trans s0 s1).
      rewrite (bind_ok _ _ (ptrtab s) s2 s2) by (destruct (mk_roots _ _ M02) as (_ & _ & E); unfold gets; by rewrite E).
      destruct (Setmark_list_ok (ptrtab s) s2) as (s3 & E3 & M3 & H3).
      * by apply (marks_pre s0).
      * apply (all_kept_marks s1 s2 _ M2). intros x Hx. apply Hrest, elem_of_app. by right.
      * exists s3. split; [done|]. split; [by apply (marks_trans s0 s2)|].
        intros x [Hx|[Hx|Hx]%elem_of_app]%elem_of_app; [| |by apply H3].
        -- apply list_elem_of_bind in Hx as (p & Hx & Hp). apply (mk_shaded _ _ M3), (mk_shaded _ _ M2). by apply (H1 p).
        -- apply list_elem_of_fmap in Hx as (v & -> & Hv). apply list_elem_of_bind in Hv as (mp & [-> Hn]%elem_not_H & Hmp).
           apply (mk_shaded _ _ M3). by destruct (H2 mp Hmp).
Qed.
