(* ===== verification/GcPool.v ===== *)
(** * The walk through the pool (libinterp/gc.c, emu/port/alloc.c)

    The cursor of the collector in the chain of arenas, the blocks that it has
    still to visit, and what the freeing of a block does to both. *)

From S2P Require Import Prelude Pool Gc GcMark.

Record chain_ok (ch : list (list Bhdr)) : Prop := {
  co_arenas : Forall arena_ok ch;
  co_nodup : NoDup (addrs (concat ch));
}.
Definition cursor_ok (s : gcs) : Prop :=
  match base s with
  | None => True
  | Some b => exists l rest, from_arena (chain s) b = l :: rest /\ ptr s ∈ addrs l /\ ptr s < limit s /\ limit s <= arena_limit l
  end.
(** The walk has still to visit the block at [a].  The limit is the arena's when the
    walk came to it; the arena may have been extended since. *)
Definition ahead (s : gcs) (a : Z) : Prop :=
  match base s with
  | None => True
  | Some b => exists l rest, from_arena (chain s) b = l :: rest /\ (a ∈ addrs l /\ ptr s <= a < limit s \/ a ∈ addrs (concat rest))
  end.

(** How many blocks it has still to visit. *)
Definition remaining (s : gcs) : nat :=
  match base s with
  | None => 0
  | Some b =>
      match from_arena (chain s) b with
      | [] => 0
      | l :: rest => length (filter (fun x => (ptr s <= b_addr x)%Z) l) + length (concat rest)
      end
  end.

Lemma from_arena_subst ch1 l0 l0' ch2 b l rest :
  head l0' = head l0 -> from_arena (ch1 ++ l0 :: ch2) b = l :: rest ->
  (exists r, rest = r ++ l0 :: ch2 /\ l ∈ ch1 /\ from_arena (ch1 ++ l0' :: ch2) b = l :: r ++ l0' :: ch2) \/
  (l = l0 /\ rest = ch2 /\ from_arena (ch1 ++ l0' :: ch2) b = l0' :: ch2) \/
  (exists r, ch2 = r ++ l :: rest /\ from_arena (ch1 ++ l0' :: ch2) b = l :: rest).
Proof.
  intros Eh. induction ch1 as [|x ch1 IH]; cbn [app from_arena].
  - rewrite Eh. case_bool_decide; intros E.
    + injection E as <- <-. right. by left.
    + right. right. rewrite E.
      assert (Hs : forall ch, from_arena ch b = l :: rest -> exists r, ch = r ++ l :: rest).
      { clear. induction ch as [|y ch IH]; [done|]. cbn. case_bool_decide; intros E; [by exists []|].
        destruct (IH E) as [r ->]. by exists (y :: r). }
      destruct (Hs ch2 E) as [r Er]. by exists r.
  - case_bool_decide as Hx; intros E.
    + injection E as <- <-. left. exists ch1. split; [done|]. split; [constructor|done].
    + destruct (IH E) as [(r & E1 & E2 & E3)|H]; [left; exists r; split; [done|]; split; [by right|done]|by right].
Qed.

(** What freeing in the arena [l0] does to the chain and to the walk. *)
Section FreeChain.
Context (s : gcs) (a : Z) (ch1 ch2 : list (list Bhdr)) (l0 l0' : list Bhdr) (p' : Z) (st' : stat).
Context (E : chain s = ch1 ++ l0 :: ch2) (Hnd : NoDup (addrs (concat (chain s)))) (Ha : a ∈ addrs l0).
Context (St : arena_step (fun x => x = a) l0 l0' (ptr s) p').
Abbreviation ch' := (ch1 ++ l0' :: ch2).

Lemma fc_apart x : x ∈ addrs l0 -> (x ∉ addrs (concat ch1)) /\ (x ∉ addrs (concat ch2)).
Proof.
  intros Hx. rewrite E, concat_app in Hnd. cbn [concat] in Hnd. unfold addrs in Hnd. rewrite !fmap_app in Hnd.
  apply list.NoDup_app in Hnd as (_ & D1 & Hnd2). apply list.NoDup_app in Hnd2 as (_ & D2 & _). split; [|by apply D2].
  intros H1. apply (D1 x H1). apply elem_of_app. by left.
Qed.
(** The cursor is moved only when it is in that arena. *)
Lemma fc_out l ch : l ∈ ch -> ch = ch1 \/ ch = ch2 -> ptr s ∈ addrs l -> p' = ptr s.
Proof.
  intros Hl Hch Hp. apply (as_out _ _ _ _ _ St). intros H0. destruct (fc_apart _ H0) as [D1 D2].
  destruct Hch as [->| ->]; [apply D1|apply D2]; by apply (elem_addrs_concat l).
Qed.
Lemma fc_elem x : x ∈ concat ch' <-> x ∈ concat ch1 \/ x ∈ l0' \/ x ∈ concat ch2.
Proof. rewrite concat_app. cbn [concat]. by rewrite !elem_of_app. Qed.
Lemma fc_here x : x ∈ concat ch' -> b_addr x ∈ addrs l0 -> x ∈ l0'.
Proof.
  intros Hx Hin. destruct (fc_apart _ Hin) as [D1 D2]. apply fc_elem in Hx as [H3|[H3|H3]]; [|done|]; exfalso; [apply D1|apply D2];
    by apply list_elem_of_fmap_2.
Qed.
Lemma fc_chain : Forall arena_ok (chain s) -> chain_ok ch'.
Proof.
  intros Hok. rewrite E in Hok. apply Forall_app in Hok as [Hok1 Hok2]. apply Forall_cons_iff in Hok2 as [_ Hok2]. split.
  - apply Forall_app. split; [done|]. constructor; [apply St|done].
  - apply (sublist_NoDup _ (addrs (concat (chain s)))); [done|]. rewrite E, !concat_app. cbn [concat]. unfold addrs.
    rewrite !fmap_app. apply sublist_app; [done|]. apply sublist_app; [apply St|done].
Qed.
Lemma fc_used x : b_magic x = MAGIC_A -> (x ∈ concat ch' <-> x ∈ concat (chain s) /\ b_addr x <> a).
Proof.
  intros Hx. rewrite fc_elem, E, concat_app. cbn [concat]. rewrite !elem_of_app, (as_used _ _ _ _ _ St) by done.
  assert (Hne : forall ch, b_addr x = a -> x ∈ concat ch -> (a ∈ addrs (concat ch))) by (intros ch <- ?; by apply list_elem_of_fmap_2).
  destruct (fc_apart a Ha) as [D1 D2]. split; [|tauto].
  intros [H|[[H Hn]|H]]; (split; [tauto|]); try done; intros Ex; [by apply D1, Hne|by apply D2, Hne].
Qed.
Lemma fc_cursor : cursor_ok s -> cursor_ok (with_pool (mkPool ch' st') p' s).
Proof.
  unfold cursor_ok. cbn [base with_pool arenas ptr limit chain]. destruct (base s) as [bs|]; [|done].
  intros (l & rest & Hfa & Hp & Hlt & Hlim). rewrite E in Hfa.
  destruct (from_arena_subst ch1 l0 l0' ch2 bs l rest (as_head _ _ _ _ _ St) Hfa) as [(r & -> & Hl & Hn)|[(-> & -> & Hn)|(r & E2 & Hn)]].
  - exists l, (r ++ l0' :: ch2). rewrite (fc_out l ch1); auto.
  - exists l0', ch2. split; [done|]. destruct (as_ptr _ _ _ _ _ St Hp) as (H1 & H2 & _). split; [done|].
    cbn [limit with_pool]. rewrite (arena_limit_eq l0 l0' (as_last _ _ _ _ _ St)). lia.
  - exists l, rest. rewrite (fc_out l ch2); auto. rewrite E2. apply elem_of_app. right. constructor.
Qed.
Lemma fc_ahead x : cursor_ok s -> b_magic x = MAGIC_A -> x ∈ concat ch' -> ahead s (b_addr x) -> ahead (with_pool (mkPool ch' st') p' s) (b_addr x).
Proof.
  unfold ahead, cursor_ok. cbn [base with_pool arenas ptr chain]. destruct (base s) as [bs|]; [|done].
  intros (l1 & rest1 & Hfa1 & Hp & Hlt & Hlim) Hx Hxin (l & rest & Hfa & Hah). pose proof (fc_here x Hxin) as Hhere. rewrite Hfa in Hfa1. injection Hfa1 as <- <-. rewrite E in Hfa.
  destruct (from_arena_subst ch1 l0 l0' ch2 bs l rest (as_head _ _ _ _ _ St) Hfa) as [(r & -> & Hl & Hn)|[(-> & -> & Hn)|(r & E2 & Hn)]].
  - exists l, (r ++ l0' :: ch2). rewrite (fc_out l ch1) by auto. split; [done|]. destruct Hah as [Hah|Hah]; [by left|right].
    unfold addrs in *. rewrite concat_app in *. cbn [concat] in *. rewrite !fmap_app, !elem_of_app in *.
    destruct Hah as [Hah|[Hah|Hah]]; [tauto| |tauto]. right. left. by apply list_elem_of_fmap_2, Hhere.
  - exists l0', ch2. split; [done|]. destruct Hah as [[H1 H2]|Hah]; [left|by right].
    assert (Hx' : x ∈ l0') by by apply Hhere. split; [by apply list_elem_of_fmap_2|]. split; [apply (as_ahead _ _ _ _ _ St x Hx' Hx), H2|apply H2].
  - exists l, rest. rewrite (fc_out l ch2); auto. rewrite E2. apply elem_of_app. right. constructor.
Qed.
Lemma fc_remaining : cursor_ok s -> (remaining (with_pool (mkPool ch' st') p' s) <= remaining s)%nat.
Proof.
  unfold remaining, cursor_ok. cbn [base with_pool arenas ptr chain]. destruct (base s) as [bs|]; [|done].
  intros (l & rest & Hfa & Hp & _). rewrite Hfa. rewrite E in Hfa.
  assert (Hlen : (length l0' <= length l0)%nat) by (pose proof (sublist_length _ _ (as_addrs _ _ _ _ _ St)) as Hs; unfold addrs in Hs; by rewrite !length_fmap in Hs).
  destruct (from_arena_subst ch1 l0 l0' ch2 bs l rest (as_head _ _ _ _ _ St) Hfa) as [(r & -> & Hl & ->)|[(-> & -> & ->)|(r & E2 & ->)]].
  - rewrite (fc_out l ch1), !concat_app, !length_app by auto. cbn [concat]. rewrite !length_app. lia.
  - pose proof (as_count _ _ _ _ _ St Hp). lia.
  - rewrite (fc_out l ch2); auto. rewrite E2. apply elem_of_app. right. constructor.
Qed.
Lemma fc_stay x : b_magic x = MAGIC_A -> x ∈ concat ch' -> b_addr x = ptr s -> p' = ptr s.
Proof.
  intros Hx Hxin Ex. destruct (decide (ptr s ∈ addrs l0)) as [H0|H0]; [|by apply (as_out _ _ _ _ _ St)].
  apply (as_stay _ _ _ _ _ St x); [|done|done]. apply fc_here; [done|by rewrite Ex].
Qed.
Lemma fc_off x : ptr s = a -> b_magic x = MAGIC_A -> x ∈ concat ch' -> b_addr x <> p'.
Proof.
  intros Ep Hx Hxin Ex. rewrite <- Ep in Ha. destruct (as_ptr _ _ _ _ _ St Ha) as (H1 & H2 & _).
  assert (Hx0 : x ∈ l0').
  { apply fc_here; [done|]. rewrite Ex. by apply (sublist_subseteq _ _ (as_addrs _ _ _ _ _ St)). }
  assert (Hle : ptr s <= b_addr x) by (apply (as_ahead _ _ _ _ _ St x Hx0 Hx); lia).
  apply (as_used _ _ _ _ _ St x Hx) in Hx0 as [_ Hn]. apply Hn. lia.
Qed.
End FreeChain.

Lemma free_chain s h b :
  chain_ok (chain s) -> cursor_ok s -> b ∈ concat (chain s) -> b_magic b = MAGIC_A -> b_addr b = h - sizeof_Bhdr ->
  exists P' p', Pool.poolfree (heapmem s) h (ptr s) = (P', p') /\
    chain_ok (arenas P') /\ cursor_ok (with_pool P' p' s) /\ only_frees (heapmem s) P' /\
    (forall x, b_magic x = MAGIC_A -> (x ∈ concat (arenas P') <-> x ∈ concat (chain s) /\ b_addr x <> h - sizeof_Bhdr)) /\
    (forall x, b_magic x = MAGIC_A -> x ∈ concat (arenas P') -> ahead s (b_addr x) -> ahead (with_pool P' p' s) (b_addr x)) /\
    (remaining (with_pool P' p' s) <= remaining s)%nat /\
    (forall x, b_magic x = MAGIC_A -> x ∈ concat (arenas P') -> b_addr x = ptr s -> p' = ptr s) /\
    (ptr s = h - sizeof_Bhdr -> forall x, b_magic x = MAGIC_A -> x ∈ concat (arenas P') -> b_addr x <> p').
Proof.
  intros [Hok Hnd] Hcur Hb Hm Ea.
  pose proof (poolfree_ok (heapmem s) h (ptr s) b Hok Hnd (proj2 (elem_used _ _) (conj Hm Hb)) Ea) as Hof.
  apply concat_elem in Hb as (l0 & Hb & Hl0). apply list_elem_of_split in Hl0 as (ch1 & ch2 & E).
  assert (Hok0 : arena_ok l0) by (rewrite E in Hok; apply Forall_app in Hok as [_ Hok]; by apply Forall_cons_iff in Hok as [Hok _]).
  assert (Ha : h - sizeof_Bhdr ∈ addrs l0) by (rewrite <- Ea; by apply list_elem_of_fmap_2).
  pose proof (arena_free_ok l0 (h - sizeof_Bhdr) (ptr s) (root (hpst s)) b Hok0 Hb Hm Ea) as St.
  unfold Pool.poolfree in *. cbn [heapmem arenas pst] in *. unfold D2B in *. rewrite E, chain_free_split in * by (done || by rewrite <- E).
  destruct (arena_free l0 (h - sizeof_Bhdr) (ptr s) (root (hpst s))) as [[l0' p'] t'] eqn:Ef. destruct Hof as [Hof _].
  eexists _, p'. split; [done|]. cbn [arenas]. rewrite <- E in *.
  split; [by eapply fc_chain|]. split; [by eapply fc_cursor|]. split; [exact Hof|].
  split; [intros x; by eapply fc_used|]. split; [intros x; by eapply fc_ahead|]. split; [by eapply fc_remaining|].
  split; [intros x; by eapply fc_stay|intros Hp x; by eapply fc_off].
Qed.

(** ** Going to the next block *)

Lemma find_block s b : chain_ok (chain s) -> b ∈ concat (chain s) -> block_at (b_addr b) s = Ok b s.
Proof. intros [_ Hnd] Hb. unfold block_at. by rewrite block_found. Qed.
Lemma same_addr ch x y : chain_ok ch -> x ∈ concat ch -> y ∈ concat ch -> b_addr x = b_addr y -> x = y.
Proof. intros [_ Hnd]. by apply block_unique. Qed.

Lemma from_arena_suffix ch b l rest : from_arena ch b = l :: rest -> exists pre, ch = pre ++ l :: rest.
Proof.
  induction ch as [|y ch IH]; [done|]. cbn. case_bool_decide; intros E; [by exists []|].
  destruct (IH E) as [r ->]. by exists (y :: r).
Qed.
Lemma from_arena_at pre x l rest :
  NoDup (addrs (concat (pre ++ (x :: l) :: rest))) -> from_arena (pre ++ (x :: l) :: rest) (b_addr x) = (x :: l) :: rest.
Proof.
  induction pre as [|y pre IH]; intros Hnd; cbn [app from_arena]; [by rewrite bool_decide_true|].
  cbn [app concat] in Hnd. unfold addrs in Hnd. rewrite fmap_app in Hnd. apply list.NoDup_app in Hnd as (_ & Hd & Hnd).
  rewrite bool_decide_false; [by apply IH|]. destruct y as [|z y]; [done|]. cbn. intros [= E]. apply (Hd (b_addr z)).
  - apply list_elem_of_fmap_2. constructor.
  - rewrite E, concat_app. apply list_elem_of_fmap_2, elem_of_app. right. constructor.
Qed.
