(* ===== verification/GcInv.v ===== *)
(** * The invariant of the collector

    The tricolour invariant with its roots, the pool, and the counts: a block
    counts at least the words that point to it in frames and in blocks that are not
    about to be swept. *)

From S2P Require Import Prelude Pool Gc GcMark GcPool.

(** ** Descriptors but for their counts *)

Definition types_eq (tys tys' : gmap Z Ty) : Prop :=
  (fun ty => (ty_free ty, ty_mark ty, ty_size ty, ty_map ty)) <$> tys' =
  (fun ty => (ty_free ty, ty_mark ty, ty_size ty, ty_map ty)) <$> tys.
Lemma types_eq_lookup tys tys' t : types_eq tys tys' ->
  match tys !! t, tys' !! t with
  | Some y, Some y' => ty_free y' = ty_free y /\ ty_mark y' = ty_mark y /\ ty_size y' = ty_size y /\ ty_map y' = ty_map y
  | None, None => True
  | _, _ => False
  end.
Proof.
  intros E. apply (f_equal (lookup t)) in E. rewrite !lookup_fmap in E.
  destruct (tys !! t), (tys' !! t); cbn in E; try discriminate; [|done]. injection E as -> -> -> ->. done.
Qed.
Lemma types_eq_refl tys : types_eq tys tys.
Proof. done. Qed.
Lemma types_eq_sym a b : types_eq a b -> types_eq b a.
Proof. done. Qed.
Lemma types_eq_trans a b c : types_eq a b -> types_eq b c -> types_eq a c.
Proof. unfold types_eq. intros E1 E2. by rewrite E2. Qed.
Lemma types_eq_get tys tys' t y : types_eq tys tys' -> tys !! t = Some y ->
  exists y', tys' !! t = Some y' /\ ty_free y' = ty_free y /\ ty_mark y' = ty_mark y /\ ty_size y' = ty_size y /\ ty_map y' = ty_map y.
Proof. intros E Hy. pose proof (types_eq_lookup _ _ t E) as Ht. rewrite Hy in Ht. destruct (tys' !! t) as [y'|]; [eauto|done]. Qed.
Lemma types_eq_some tys tys' t : types_eq tys tys' -> is_Some (tys !! t) -> is_Some (tys' !! t).
Proof. intros E [y Hy]. destruct (types_eq_get _ _ t y E Hy) as (y' & Hy' & _). eauto. Qed.
Lemma map_of_eq tys tys' t : types_eq tys tys' -> map_of tys' t = map_of tys t.
Proof.
  intros E. unfold map_of. destruct (t =? 0); [done|]. pose proof (types_eq_lookup _ _ t E) as Ht.
  destruct (tys !! t), (tys' !! t); try done. by destruct Ht as (_ & _ & _ & ->).
Qed.
Lemma seen_eq m tys tys' t vw : types_eq tys tys' -> seen m tys' t vw = seen m tys t vw.
Proof.
  intros E. unfold seen. pose proof (types_eq_lookup _ _ t E) as Ht. destruct (tys !! t), (tys' !! t); try done.
  destruct Ht as (_ & -> & _ & _). rewrite !(map_of_eq tys tys') by done. destruct (ty_mark t0); try done.
  f_equal. pose proof (types_eq_lookup _ _ (m (vw + 8)) E) as He. destruct (tys !! m (vw + 8)), (tys' !! m (vw + 8)); try done.
  by destruct He as (_ & _ & -> & _).
Qed.
Lemma freetype_eq tys t (f : Ty -> Ty) :
  (forall y, ty_free (f y) = ty_free y /\ ty_mark (f y) = ty_mark y /\ ty_size (f y) = ty_size y /\ ty_map (f y) = ty_map y) -> types_eq tys (alter f t tys).
Proof.
  intros Hf. apply map_eq. intros t'. rewrite !lookup_fmap. destruct (decide (t' = t)) as [->|Hn]; [|by rewrite lookup_alter_ne].
  rewrite lookup_alter_eq. destruct (tys !! t) as [y|]; [|done]. cbn. by destruct (Hf y) as (-> & -> & -> & ->).
Qed.

(** ** The pointers that are counted *)

(** The words of the elements of an array. *)
Definition elem_slots (m : Z -> Z) (tys : gmap Z Ty) (vw : Z) : list Z :=
  match tys !! m (vw + 8) with
  | None => []
  | Some ety => seq 0 (Z.to_nat (m vw)) ≫= fun i => fields (map_of tys (m (vw + 8))) (m (vw + 24) + Z.of_nat i * ty_size ety)
  end.
(** The words of the data of type [t] at [vw] whose pointers count: the elements
    of a slice are those of its root. *)
Definition owned (m : Z -> Z) (tys : gmap Z Ty) (t vw : Z) : list Z :=
  if t =? 0 then [] else
  match tys !! t with
  | None => []
  | Some ty =>
      match ty_mark ty with
      | noptrs => []
      | Markheap => fields (map_of tys t) vw
      | Markarray => if m (vw + 16) =? H then elem_slots m tys vw else [vw + 16]
      | Marklist => fields (map_of tys (m (vw + 8))) (vw + 16) ++ [vw]
      end
  end.
(** The module that a block of type [t] at [h] links to. *)
Definition linked (m : Z -> Z) (tys : gmap Z Ty) (t h : Z) : list Z :=
  if t =? 0 then [] else
  match tys !! t with
  | Some ty => match ty_free ty with Freemodlink => [m (H2D h + 8)] | _ => [] end
  | None => []
  end.

Definition blocks (s : gcs) : list (Z * Z) := map_to_list (h_t <$> heap s).
#[export] Instance white_dec s h : Decision (white s h).
Proof. unfold white. apply _. Defined.
(** Those that are not to be swept: what a block to be swept points to may be gone. *)
Definition live_blocks (s : gcs) : list (Z * Z) := filter (fun b => ~ white s b.1) (blocks s).
Definition block_slots (s : gcs) : list Z := live_blocks s ≫= fun b => owned (mem s) (types s) b.2 (H2D b.1).
Definition frame_slots (s : gcs) : list Z :=
  progs s ≫= fun p => g_frames p ≫= fun f => owned (mem s) (types s) (f_t f) (f_addr f).
(** The module links of the programs, and all pointers outside the memory. *)
Definition links (s : gcs) : list Z := progs s ≫= fun p => g_M p :: (g_frames p ≫= fun f => if f_mr f =? 0 then [] else [f_mr f]).
Definition held (s : gcs) : list Z := links s ++ origmps s ++ (H2D <$> ptrtab s).
Definition owners (s : gcs) : list Z := (mem s <$> (frame_slots s ++ block_slots s)) ++ held s.
Definition mod_owners (s : gcs) : list Z := blocks s ≫= fun b => linked (mem s) (types s) b.2 b.1.

Definition refs_to (h : Z) (l : list Z) : nat := length (filter (fun v => v <> H /\ D2H v = h) l).
Definition count (m : Z) (l : list Z) : nat := length (filter (fun v => v = m) l).

Lemma refs_to_app h l1 l2 : refs_to h (l1 ++ l2) = (refs_to h l1 + refs_to h l2)%nat.
Proof. unfold refs_to. by rewrite list.filter_app, length_app. Qed.
Lemma refs_to_cons h v l : refs_to h (v :: l) = ((if decide (v <> H /\ D2H v = h) then 1 else 0) + refs_to h l)%nat.
Proof. unfold refs_to. rewrite filter_cons. by case_decide. Qed.
#[export] Instance refs_to_perm h : Proper ((≡ₚ) ==> eq) (refs_to h).
Proof. intros l1 l2 E. unfold refs_to. by rewrite E. Qed.
#[export] Instance count_perm m : Proper ((≡ₚ) ==> eq) (count m).
Proof. intros l1 l2 E. unfold count. by rewrite E. Qed.
Lemma counts_app h l1 l2 : count h (l1 ++ l2) = (count h l1 + count h l2)%nat.
Proof. unfold count. by rewrite list.filter_app, length_app. Qed.
Lemma refs_to_pos h v l : v ∈ l -> v <> H -> D2H v = h -> (0 < refs_to h l)%nat.
Proof.
  intros Hv Hn E. unfold refs_to. assert (Hin : v ∈ filter (fun v => v <> H /\ D2H v = h) l) by (by apply list_elem_of_filter).
  destruct (filter _ l); [by apply elem_of_nil in Hin|cbn; lia].
Qed.

Lemma elem_slots_eq m tys tys' vw : types_eq tys tys' -> elem_slots m tys' vw = elem_slots m tys vw.
Proof.
  intros E. unfold elem_slots. rewrite !(map_of_eq tys tys') by done. pose proof (types_eq_lookup _ _ (m (vw + 8)) E) as Ht.
  destruct (tys !! m (vw + 8)), (tys' !! m (vw + 8)); try done. by destruct Ht as (_ & _ & -> & _).
Qed.
Lemma owned_eq m tys tys' t vw : types_eq tys tys' -> owned m tys' t vw = owned m tys t vw.
Proof.
  intros E. unfold owned. rewrite !(map_of_eq tys tys'), (elem_slots_eq m tys tys') by done. destruct (t =? 0); [done|].
  pose proof (types_eq_lookup _ _ t E) as Ht. destruct (tys !! t), (tys' !! t); try done. by destruct Ht as (_ & -> & _).
Qed.
Lemma linked_eq m tys tys' t h : types_eq tys tys' -> linked m tys' t h = linked m tys t h.
Proof.
  intros E. unfold linked. destruct (t =? 0); [done|].
  pose proof (types_eq_lookup _ _ t E) as Ht. destruct (tys !! t), (tys' !! t); try done. by destruct Ht as (-> & _).
Qed.

(** What is seen is in a word that is owned, or that is an element of an array. *)
Lemma seen_slot m tys t vw v : t <> 0 -> v ∈ seen m tys t vw ->
  v <> H /\ exists q, v = m q /\ (q ∈ owned m tys t vw \/ (exists ty, tys !! t = Some ty /\ ty_mark ty = Markarray /\ q ∈ elem_slots m tys vw)).
Proof.
  intros Ht. unfold seen, owned. destruct (Z.eqb_spec t 0); [done|]. destruct (tys !! t) as [ty|]; [|by rewrite elem_of_nil].
  destruct (ty_mark ty) eqn:Em.
  - by rewrite elem_of_nil.
  - intros (q & Hq & -> & Hn)%elem_seen_fields. eauto.
  - intros [[-> Hn]%elem_not_H|Hv]%elem_of_app.
    + split; [done|]. exists (vw + 16). split; [done|]. left. rewrite (proj2 (Z.eqb_neq _ _) Hn). constructor.
    + unfold elem_slots. destruct (tys !! m (vw + 8)) as [ety|]; [|by apply elem_of_nil in Hv].
      apply list_elem_of_bind in Hv as (i & Hv & Hi). apply elem_seen_fields in Hv as (q & Hq & -> & Hn). split; [done|].
      exists q. split; [done|]. right. exists ty. split; [done|]. split; [done|]. apply list_elem_of_bind. eauto.
  - intros [(q & Hq & -> & Hn)%elem_seen_fields|[-> Hn]%elem_not_H]%elem_of_app; (split; [done|]).
    + exists q. split; [done|]. left. apply elem_of_app. by left.
    + exists vw. split; [done|]. left. apply elem_of_app. right. constructor.
Qed.

Lemma blocks_delete s h hd : heap s !! h = Some hd -> blocks s ≡ₚ (h, h_t hd) :: blocks (with_heap (delete h) s).
Proof.
  intros Hh. unfold blocks. cbn. rewrite fmap_delete. symmetry. apply map_to_list_delete. by rewrite lookup_fmap, Hh.
Qed.
Lemma perm_front {A} (a o b h : list A) : (a ++ o ++ b) ++ h ≡ₚ o ++ (a ++ b) ++ h.
Proof. rewrite !app_assoc. do 2 apply Permutation_app_tail. apply Permutation_app_comm. Qed.
Lemma elem_blocks s h t : (h, t) ∈ blocks s <-> exists hd, heap s !! h = Some hd /\ h_t hd = t.
Proof.
  unfold blocks. rewrite elem_of_map_to_list, lookup_fmap_Some. split.
  - intros (hd & <- & Hh). eauto.
  - intros (hd & Hh & <-). eauto.
Qed.
Lemma elem_live s h t : (h, t) ∈ live_blocks s <-> exists hd, heap s !! h = Some hd /\ h_t hd = t /\ kept s h.
Proof.
  unfold live_blocks. rewrite list_elem_of_filter, elem_blocks. cbn [fst]. split.
  - intros (Hw & hd & Hh & Et). exists hd. split; [done|]. split; [done|]. split; [by rewrite Hh|done].
  - intros (hd & Hh & Et & [_ Hw]). eauto.
Qed.
Lemma filter_in_ext {A} (P Q : A -> Prop) `{!forall x, Decision (P x)} `{!forall x, Decision (Q x)} (l : list A) :
  (forall x, x ∈ l -> P x <-> Q x) -> filter P l = filter Q l.
Proof.
  induction l as [|x l IH]; intros Hl; [done|]. assert (E : filter P l = filter Q l) by (apply IH; intros y Hy; apply Hl; by right).
  destruct (decide (P x)) as [Hp|Hp].
  - rewrite !filter_cons_True; [by rewrite E|apply (Hl x); [constructor|done]|done].
  - rewrite !filter_cons_False; [done|intros Hq; apply Hp, (Hl x); [constructor|done]|done].
Qed.
Lemma live_delete s h hd : heap s !! h = Some hd ->
  live_blocks s ≡ₚ (if decide (white s h) then [] else [(h, h_t hd)]) ++ live_blocks (with_heap (delete h) s).
Proof.
  intros Hh. set (s' := with_heap (delete h) s). unfold live_blocks at 1. rewrite (blocks_delete s h hd Hh).
  assert (E : filter (fun b => ~ white s b.1) (blocks s') = live_blocks s').
  { apply filter_in_ext. intros [x t] Hx. apply elem_blocks in Hx as (hd' & Hx & _). cbn in Hx. apply lookup_delete_Some in Hx as [Hn Hx].
    unfold white, color. cbn. rewrite lookup_delete_ne by done. done. }
  rewrite <- E. destruct (decide (white s h)) as [Hw|Hw]; [rewrite filter_cons_False by (intros Hf; by apply Hf)|rewrite filter_cons_True by done]; done.
Qed.
Lemma owners_delete s h hd : heap s !! h = Some hd ->
  owners s ≡ₚ (mem s <$> if decide (white s h) then [] else owned (mem s) (types s) (h_t hd) (H2D h)) ++ owners (with_heap (delete h) s).
Proof.
  intros Hh. unfold owners. set (s' := with_heap (delete h) s).
  assert (E : block_slots s ≡ₚ (if decide (white s h) then [] else owned (mem s) (types s) (h_t hd) (H2D h)) ++ block_slots s').
  { unfold block_slots. rewrite (live_delete s h hd Hh), bind_app. destruct (decide (white s h)); [done|]. cbn. by rewrite app_nil_r. }
  rewrite E, !fmap_app. apply perm_front.
Qed.
Lemma mod_owners_delete s h hd : heap s !! h = Some hd ->
  mod_owners s ≡ₚ linked (mem s) (types s) (h_t hd) h ++ mod_owners (with_heap (delete h) s).
Proof. intros Hh. unfold mod_owners. by rewrite (blocks_delete s h hd Hh). Qed.
Lemma owned_owner s h hd q : heap s !! h = Some hd -> kept s h -> q ∈ owned (mem s) (types s) (h_t hd) (H2D h) -> mem s q ∈ owners s.
Proof.
  intros Hh Hk Hq. apply elem_of_app. left. apply list_elem_of_fmap_2, elem_of_app. right. apply list_elem_of_bind.
  exists (h, h_t hd). split; [done|]. apply elem_live. eauto.
Qed.

(** ** The invariant *)

(** The colours: no block that is to be kept points to one that is not, and none
    that is marked points to one that is not. *)
Record tri (s : gcs) : Prop := {
  iv_colors : colors_ok s;
  iv_mutator : mutator (vars s) = gccolor (vars s) mod 3;
  iv_next : forall h, color s h = Some ((gccolor (vars s) + 1) mod 3) -> white s h;
  iv_valid : forall h c, color s h = Some c -> 0 <= c <= 3;
  iv_closed : closed s;
  iv_typed : forall h hd, heap s !! h = Some hd -> h_t hd = 0 \/ exists ty, types s !! h_t hd = Some ty /\ ty_free ty <> nofree;
  iv_frames : frames_ok s;
  iv_black : forall h, is_mutator s h -> all_shaded s (points s h);
}.
Definition rooted (s : gcs) : Prop := all_shaded s (roots s).

(** The pool, and the walk: what it still has to do is ahead of it.  [K] are
    blocks in use that are being freed. *)
Record pool (K : gmap Z Heap) (s : gcs) : Prop := {
  iv_grey : nprop (vars s) = 0 -> forall h, color s h = Some propagator -> ahead s (h - sizeof_Bhdr);
  iv_white : forall h, white s h -> ahead s (h - sizeof_Bhdr);
  iv_chain : chain_ok (chain s);
  iv_nonempty : chain s <> [];
  iv_cursor : cursor_ok s;
  iv_blocks : forall h, is_Some (heap s !! h) \/ is_Some (K !! h) <->
    exists b, b ∈ concat (chain s) /\ b_magic b = MAGIC_A /\ b_addr b = h - sizeof_Bhdr;
  iv_apart : forall h, is_Some (K !! h) -> heap s !! h = None;
}.

Definition types_wf (tys : gmap Z Ty) : Prop :=
  forall t ty, tys !! t = Some ty ->
    t <> 0 /\
    match ty_free ty with
    | nofree => True
    | Freeheap => ty_mark ty = Markheap
    | Freestring => ty_mark ty = noptrs
    | Freearray => ty_mark ty = Markarray
    | Freelist => ty_mark ty = Marklist
    | Freemodlink | Freechan => ty_mark ty = Markheap /\ ty_map ty = [128]
    end.
Definition is_array (s : gcs) (h : Z) : Prop :=
  exists hd ty, heap s !! h = Some hd /\ h_t hd <> 0 /\ types s !! h_t hd = Some ty /\ ty_mark ty = Markarray.
(** A block that is a module link. *)
Definition is_link (s : gcs) (h : Z) : Prop :=
  exists hd ty, heap s !! h = Some hd /\ h_t hd <> 0 /\ types s !! h_t hd = Some ty /\ ty_free ty = Freemodlink.
(** The counts: [O] are pointers, and [OM] links to modules, that are about to go
    and that nothing else has. *)
Record counted (O OM : list Z) (s : gcs) : Prop := {
  ct_refs : forall h hd, heap s !! h = Some hd -> Z.of_nat (refs_to h (O ++ owners s)) <= h_ref hd;
  ct_tokens : forall v, v ∈ O -> v = H \/ kept s (D2H v);
  ct_mods : forall md, md ∈ modules s -> Z.of_nat (count (m_addr md) (OM ++ mod_owners s)) <= m_ref md;
  ct_mod_in : forall m, m ∈ OM ++ mod_owners s -> m ∈ m_addr <$> modules s;
  ct_nodup : NoDup (m_addr <$> modules s);
  ct_slices : forall h, kept s h -> is_array s h ->
    let r := mem s (H2D h + 16) in
    r = H \/ is_array s (D2H r) /\ mem s (r + 16) = H /\
      forall q, q ∈ elem_slots (mem s) (types s) (H2D h) -> q ∈ elem_slots (mem s) (types s) r;
  ct_types : types_wf (types s);
  ct_links : forall ml, ml ∈ links s -> is_link s (D2H ml);
  ct_H : heap s !! D2H H = None;
  ct_halt : 0 <= gchalt s;
}.
Record inv_with (K : gmap Z Heap) (O OM : list Z) (s : gcs) : Prop := {
  iw_tri : tri s;
  iw_roots : rooted s;
  iw_pool : pool K s;
  iw_counted : counted O OM s;
}.
(** The invariant. *)
Definition inv (s : gcs) : Prop := inv_with ∅ [] [] s.

(** ** What keeps the invariant *)

Lemma ahead_same s s' a : base s' = base s -> ptr s' = ptr s -> limit s' = limit s -> chain s' = chain s -> ahead s' a <-> ahead s a.
Proof. intros E1 E2 E3 E4. unfold ahead. by rewrite E1, E2, E3, E4. Qed.
Lemma cursor_same s s' : base s' = base s -> ptr s' = ptr s -> limit s' = limit s -> chain s' = chain s -> cursor_ok s -> cursor_ok s'.
Proof. intros E1 E2 E3 E4. unfold cursor_ok. by rewrite E1, E2, E3, E4. Qed.

Lemma owners_same s s' :
  mem s' = mem s -> types_eq (types s) (types s') -> h_t <$> heap s' = h_t <$> heap s ->
  progs s' = progs s -> origmps s' = origmps s -> ptrtab s' = ptrtab s -> (forall h, white s' h <-> white s h) -> owners s' = owners s.
Proof.
  intros E1 E2 E3 E4 E5 E6 E7. unfold owners, held, links. rewrite E1, E4, E5, E6. f_equal. f_equal. f_equal.
  - unfold frame_slots. rewrite E1, E4. apply list_bind_ext; [|done]. intros p. apply list_bind_ext; [|done]. intros f. by apply owned_eq.
  - unfold block_slots. rewrite E1. apply list_bind_ext; [intros b; by apply owned_eq|]. unfold live_blocks, blocks. rewrite E3.
    apply filter_in_ext. intros b _. by rewrite E7.
Qed.
(** More of the blocks are to be swept. *)
Lemma filter_fewer {A} (P Q : A -> Prop) `{!forall x, Decision (P x)} `{!forall x, Decision (Q x)} (l : list A) :
  (forall x, x ∈ l -> P x -> Q x) -> sublist (filter P l) (filter Q l).
Proof.
  induction l as [|x l IH]; intros Hl; [done|]. assert (E : sublist (filter P l) (filter Q l)) by (apply IH; intros y Hy; apply Hl; by right).
  rewrite !filter_cons. destruct (decide (P x)) as [Hp|Hp]; [rewrite decide_True by (apply Hl; [constructor|done]); by apply sublist_skip|].
  destruct (decide (Q x)); [by apply sublist_cons|done].
Qed.
Lemma sublist_bind {A B} (f : A -> list B) l1 l2 : sublist l1 l2 -> sublist (l1 ≫= f) (l2 ≫= f).
Proof. induction 1; cbn; [done|by apply sublist_app|by apply sublist_inserts_l]. Qed.
Lemma refs_to_fewer h l1 l2 : sublist l1 l2 -> (refs_to h l1 <= refs_to h l2)%nat.
Proof.
  unfold refs_to. induction 1 as [|x l1 l2 _ IH|x l1 l2 _ IH]; [done|rewrite !filter_cons; case_decide; cbn; lia|rewrite filter_cons; case_decide; cbn; lia].
Qed.
Lemma owners_fewer s s' x :
  mem s' = mem s -> types s' = types s -> heap s' = heap s ->
  progs s' = progs s -> origmps s' = origmps s -> ptrtab s' = ptrtab s -> (forall h, white s h -> is_Some (heap s !! h) -> white s' h) ->
  (refs_to x (owners s') <= refs_to x (owners s))%nat.
Proof.
  intros E1 E2 E3 E4 E5 E6 E7. apply refs_to_fewer. unfold owners, held, links, frame_slots, block_slots. rewrite E1, E2, E4, E5, E6.
  rewrite !fmap_app. apply sublist_app; [|done]. apply sublist_app; [done|]. apply fmap_sublist, sublist_bind.
  unfold live_blocks, blocks. rewrite E3. apply filter_fewer. intros [h t] Hb Hn Hw. apply Hn. cbn [fst] in *. apply E7; [done|].
  apply elem_of_map_to_list in Hb. apply lookup_fmap_Some in Hb as (hd & _ & Hh). eauto.
Qed.
Lemma mod_owners_same s s' :
  mem s' = mem s -> types_eq (types s) (types s') -> h_t <$> heap s' = h_t <$> heap s -> mod_owners s' = mod_owners s.
Proof.
  intros E1 E2 E3. unfold mod_owners, blocks. rewrite E1, E3. apply list_bind_ext; [|done]. intros b. by apply linked_eq.
Qed.
Lemma heads_types s s' : heads s' = heads s -> h_t <$> heap s' = h_t <$> heap s.
Proof.
  intros E. assert (Ht : forall s, h_t <$> heap s = snd <$> heads s) by (intros x; unfold heads; by rewrite <- map_fmap_compose).
  by rewrite !Ht, E.
Qed.

Lemma mod3 x : 0 <= x mod 3 < 3.
Proof. apply Z.mod_pos_bound. lia. Qed.
Lemma next_mod x : (x + 1) mod 3 <> x mod 3.
Proof. Z.div_mod_to_equations. lia. Qed.

Lemma roots_types s s' : mem s' = mem s -> types_eq (types s) (types s') ->
  progs s' = progs s -> origmps s' = origmps s -> ptrtab s' = ptrtab s -> roots s' = roots s.
Proof.
  intros E1 E2 E3 E4 E5. unfold roots. rewrite E3, E4, E5. f_equal.
  apply list_bind_ext; [|done]. intros p. unfold prog_roots. rewrite E1. f_equal.
  apply list_bind_ext; [|done]. intros f. unfold frame_roots. rewrite E1. by rewrite (seen_eq _ (types s) (types s')).
Qed.

(** Marking. *)
Lemma marks_roots s s' : marks s s' -> roots s' = roots s.
Proof.
  intros M. destruct (mk_roots _ _ M) as (E1 & E2 & E3). apply roots_types; try done; [apply M| |unfold origmps; by rewrite E2].
  unfold types_eq. by rewrite (mk_types _ _ M).
Qed.
Lemma marks_rooted s s' : marks s s' -> rooted s -> rooted s'.
Proof. intros M Hr. unfold rooted. rewrite (marks_roots s s' M). by apply (all_shaded_marks s s'). Qed.
Lemma marks_tri s s' : tri s -> marks s s' -> tri s'.
Proof.
  intros [I1 I2 I3 I4 I5 I6 I7 I9] M.
  destruct (mk_colors _ _ M) as (C1 & C2 & C3).
  split.
  - by apply (marks_colors_ok s).
  - congruence.
  - intros h Hc. rewrite C1 in Hc. apply (mk_white _ _ M), I3. destruct (mk_valid _ _ M h _ Hc) as [H1|[H1|H1]]; [done| |].
    + pose proof (mod3 (gccolor (vars s) + 1)). unfold propagator in H1. lia.
    + rewrite I2 in H1. by apply next_mod in H1.
  - intros h c Hc. destruct (mk_valid _ _ M h c Hc) as [H1|[->| ->]]; [by eapply I4|unfold propagator; lia|destruct I1; lia].
  - by apply (marks_closed s).
  - intros h hd Hh. pose proof (heads_lookup s s' h (mk_heads _ _ M)) as E. rewrite Hh in E.
    destruct (heap s !! h) as [hd0|] eqn:E0; [|done]. destruct E as [_ ->]. rewrite (mk_types _ _ M). by eapply I6.
  - intros p f Hp Hf. destruct (mk_roots _ _ M) as (E & _). rewrite E in Hp. unfold frame_ok. rewrite (mk_types _ _ M). by apply (I7 p f).
  - intros h Hh x. rewrite (marks_points s s' h M). intros Hx. destruct (mk_black _ _ M h Hh) as [H1|H1]; [|by apply H1].
    apply (mk_shaded _ _ M). by apply (I9 h).
Qed.
Lemma marks_pool K s s' : pool K s -> marks s s' -> pool K s'.
Proof.
  intros [I10 I11 I12 I13 I14 I15 I16] M. destruct (mk_cursor _ _ M) as (B1 & B2 & B3). pose proof (mk_chain _ _ M) as Ech.
  assert (Hah : forall a, ahead s' a <-> ahead s a) by (intros a; by apply ahead_same).
  split.
  - intros E h Hc. destruct (mk_nprop _ _ M E) as [E0 H0]. apply Hah, I10; auto.
  - intros h Hw. apply Hah, I11. by apply (mk_white _ _ M).
  - by rewrite Ech.
  - by rewrite Ech.
  - by apply (cursor_same s).
  - intros h. by rewrite (marks_some s s' h M), I15, Ech.
  - intros h Hh. apply eq_None_not_Some. rewrite (marks_some s s' h M). rewrite (I16 h Hh). by intros [].
Qed.
Lemma marks_array s s' h : marks s s' -> is_array s' h <-> is_array s h.
Proof.
  intros M. unfold is_array. rewrite (mk_types _ _ M). pose proof (heads_lookup s s' h (mk_heads _ _ M)) as E. split.
  - intros (hd & ty & Hh & Ht & Hty & Hm). rewrite Hh in E. destruct (heap s !! h) as [hd0|]; [|done]. destruct E as [_ E]. rewrite E in *. eauto 10.
  - intros (hd & ty & Hh & Ht & Hty & Hm). rewrite Hh in E. destruct (heap s' !! h) as [hd0|]; [|done]. destruct E as [_ E]. rewrite <- E in *. eauto 10.
Qed.
Lemma marks_counted O OM s s' : counted O OM s -> marks s s' -> counted O OM s'.
Proof.
  intros [C1 C2 C3 C4 C5 C6 C7 C9 C10 C8] M. destruct (mk_roots _ _ M) as (E1 & E2 & E3). pose proof (heads_types _ _ (mk_heads _ _ M)) as Et.
  assert (Ety : types_eq (types s) (types s')) by (unfold types_eq; by rewrite (mk_types _ _ M)).
  assert (Eo : owners s' = owners s) by (apply owners_same; try done; [apply M|unfold origmps; by rewrite E2|intros h; symmetry; apply (mk_white _ _ M)]).
  assert (Em : mod_owners s' = mod_owners s) by (apply mod_owners_same; try done; apply M).
  split; rewrite ?Eo, ?Em, ?E2, ?(mk_types _ _ M), ?(mk_halt _ _ M), ?(mk_mem _ _ M); try done.
  - intros h hd Hh. pose proof (heads_lookup s s' h (mk_heads _ _ M)) as E. rewrite Hh in E.
    destruct (heap s !! h) as [hd0|] eqn:E0; [|done]. destruct E as [-> _]. auto.
  - intros v Hv. destruct (C2 v Hv) as [?|Hk]; [by left|right]. by apply (marks_kept s s').
  - intros h Hk Ha. apply (marks_kept s s' h M) in Hk. apply (marks_array s s' h M) in Ha. cbn zeta.
    destruct (C6 h Hk Ha) as [?|(H1 & H2 & H3)]; [by left|right]. split; [by apply (marks_array s s')|done].
  - intros ml Hml. unfold links in Hml. rewrite E1 in Hml. destruct (C9 ml Hml) as (hd & ty & Hh & Hn & Hty & Hf).
    pose proof (heads_lookup s s' (D2H ml) (mk_heads _ _ M)) as E. rewrite Hh in E. destruct (heap s' !! D2H ml) as [hd'|] eqn:E'; [|done].
    exists hd', ty. destruct E as [_ ->]. by rewrite (mk_types _ _ M).
  - apply eq_None_not_Some. rewrite (marks_some s s' _ M), C10. by intros [].
Qed.
Lemma marks_inv K O OM s s' : inv_with K O OM s -> marks s s' -> inv_with K O OM s'.
Proof.
  intros [I1 I2 I3 I4] M. split; [by apply (marks_tri s)|by apply (marks_rooted s)|by apply (marks_pool K s)|by apply (marks_counted O OM s)].
Qed.

(** ** Blocks that go *)

(** Some blocks are gone that nothing to be kept points to. *)
Record shrinks (s s' : gcs) : Prop := {
  sh_mem : mem s' = mem s;
  sh_types : types_eq (types s) (types s');
  sh_progs : progs s' = progs s;
  sh_ptrtab : ptrtab s' = ptrtab s;
  sh_origmps : forall v, v ∈ origmps s' -> v ∈ origmps s;
  sh_vars : vars s' = vars s;
  sh_heap : forall h hd', heap s' !! h = Some hd' -> exists hd, heap s !! h = Some hd /\ h_t hd' = h_t hd /\ h_color hd' = h_color hd;
  sh_gone : forall h, heap s' !! h = None -> (h ∉ roots s') /\ forall b, kept s b -> is_Some (heap s' !! b) -> h ∉ points s b;
}.

Lemma link_root s ml : ml ∈ links s -> D2H ml ∈ roots s.
Proof.
  unfold links, roots. rewrite list_elem_of_bind. intros (p & Hml & Hp). apply elem_of_app. left. apply list_elem_of_bind.
  exists p. split; [|done]. unfold prog_roots. apply elem_of_cons in Hml as [->|Hml]; [by left|]. apply elem_of_app. right.
  apply list_elem_of_bind in Hml as (f & Hml & Hf). apply list_elem_of_bind. exists f. split; [|done]. unfold frame_roots. apply elem_of_app. right.
  destruct (f_mr f =? 0); [by apply elem_of_nil in Hml|]. apply list_elem_of_singleton in Hml as ->. constructor.
Qed.

Section Shrinks.
Context (s s' : gcs) (Sh : shrinks s s').

Lemma sh_color x c : color s' x = Some c -> color s x = Some c.
Proof.
  intros (hd' & Hh & <-)%color_Some_inv. destruct (sh_heap _ _ Sh x hd' Hh) as (hd & Hd & _ & Ec). unfold color. by rewrite Hd, Ec.
Qed.
Lemma sh_color_stays x : is_Some (heap s' !! x) -> color s' x = color s x.
Proof. intros [c Hc]%color_some. rewrite Hc. symmetry. by apply sh_color. Qed.
Lemma sh_white x : is_Some (heap s' !! x) -> white s' x <-> white s x.
Proof. intros Hx. unfold white. by rewrite (sh_color_stays x Hx), (sh_vars _ _ Sh). Qed.
Lemma sh_shaded x : is_Some (heap s' !! x) -> shaded s' x <-> shaded s x.
Proof. intros Hx. unfold shaded, is_mutator. by rewrite (sh_color_stays x Hx), (sh_vars _ _ Sh). Qed.
Lemma sh_some x : is_Some (heap s' !! x) -> is_Some (heap s !! x).
Proof. intros [hd' Hh]. destruct (sh_heap _ _ Sh x hd' Hh) as (hd & Hd & _). eauto. Qed.
Lemma sh_kept x : kept s' x <-> kept s x /\ is_Some (heap s' !! x).
Proof.
  split.
  - intros [Hx Hw]. split; [|done]. split; [by apply sh_some|]. by rewrite <- (sh_white x Hx).
  - intros [[_ Hw] Hx]. split; [done|]. by rewrite (sh_white x Hx).
Qed.
Lemma sh_points x : is_Some (heap s' !! x) -> points s' x = points s x.
Proof.
  intros [hd' Hh]. destruct (sh_heap _ _ Sh x hd' Hh) as (hd & Hd & Et & _). unfold points. rewrite Hh, Hd, Et, (sh_mem _ _ Sh).
  by rewrite (seen_eq _ _ _ _ _ (sh_types _ _ Sh)).
Qed.
Lemma sh_roots x : x ∈ roots s' -> x ∈ roots s.
Proof.
  unfold roots. rewrite !elem_of_app, (sh_progs _ _ Sh), (sh_ptrtab _ _ Sh). intros [Hx|[Hx|Hx]]; [left|right; left|right; by right].
  - assert (E : forall p, prog_roots s' p = prog_roots s p); [|apply list_elem_of_bind in Hx as (p & Hx & Hp); rewrite E in Hx; apply list_elem_of_bind; eauto].
    intros p. unfold prog_roots. rewrite (sh_mem _ _ Sh). f_equal. apply list_bind_ext; [|done]. intros f. unfold frame_roots.
    rewrite (sh_mem _ _ Sh). by rewrite (seen_eq _ _ _ _ _ (sh_types _ _ Sh)).
  - apply list_elem_of_fmap in Hx as (v & -> & Hv). apply list_elem_of_fmap_2. apply list_elem_of_bind in Hv as (y & Hv & Hy).
    apply list_elem_of_bind. exists y. split; [done|]. by apply (sh_origmps _ _ Sh).
Qed.
Lemma sh_list v : is_list s v -> v = H \/ is_Some (heap s' !! D2H v) -> is_list s' v.
Proof.
  intros [->|(hd & ty & Hd & Hn & Hty & Hm)] Hv; [by left|]. destruct Hv as [->|[hd' Hh]]; [by left|right].
  destruct (sh_heap _ _ Sh _ hd' Hh) as (hd2 & Hd2 & Et & _). assert (hd2 = hd) as -> by congruence.
  destruct (types_eq_get _ _ _ ty (sh_types _ _ Sh) Hty) as (ty' & Hty' & _ & Em & _). exists hd', ty'. rewrite Et, Em. done.
Qed.
Lemma sh_shaped t vw : shaped s t vw ->
  (forall v, v ∈ seen (mem s) (types s) t vw -> is_Some (heap s' !! D2H v)) -> shaped s' t vw.
Proof.
  intros (ty & Hty & Hm) Hs. destruct (types_eq_get _ _ _ ty (sh_types _ _ Sh) Hty) as (ty' & Hty' & _ & Em & _). exists ty'. split; [done|].
  rewrite Em, (sh_mem _ _ Sh). unfold seen in Hs. rewrite Hty in Hs. destruct (ty_mark ty); try done.
  - destruct Hm as [H1 H2]. split; [|done]. by apply (types_eq_some (types s)); [apply Sh|].
  - destruct Hm as [H1 H2]. split.
    + destruct H1 as [?|H1]; [by left|right]. by apply (types_eq_some (types s)); [apply Sh|].
    + apply sh_list; [done|]. destruct (decide (mem s vw = H)) as [E|Hn]; [by left|right].
      apply Hs, elem_of_app. right. by apply elem_not_H.
Qed.

Lemma shrink_tri : tri s -> rooted s -> tri s' /\ rooted s'.
Proof.
  intros [I1 I2 I3 I4 I5 I6 I7 I9] Hr.
  assert (Hstay : forall b x, kept s b -> is_Some (heap s' !! b) -> x ∈ points s b -> is_Some (heap s' !! x)).
  { intros b x Hb Hb' Hx. destruct (heap s' !! x) as [hd|] eqn:E; [eauto|]. destruct (sh_gone _ _ Sh x E) as [_ Hg]. by destruct (Hg b Hb Hb'). }
  split.
  - split; rewrite ?(sh_vars _ _ Sh); try done.
    + unfold colors_ok. by rewrite (sh_vars _ _ Sh).
    + intros x Hx. assert (Hs : is_Some (heap s' !! x)) by (apply color_some; rewrite Hx; eauto). apply (sh_white x Hs), I3. by apply sh_color.
    + intros x c Hx. apply (I4 x). by apply sh_color.
    + intros x Hk. apply sh_kept in Hk as [Hk Hx]. destruct (I5 x Hk) as [Hbo Hpt]. split.
      * intros hd' Hh'. destruct (sh_heap _ _ Sh x hd' Hh') as (hd & Hd & Et & _). destruct (Z.eq_dec (h_t hd) 0) as [E0|E0]; [left; congruence|].
        destruct (Hbo hd Hd) as [?|Hs]; [done|right]. rewrite Et. apply sh_shaped; [done|]. intros v Hv. apply (Hstay x); [done|done|].
        unfold points. rewrite Hd. destruct (Z.eqb_spec (h_t hd) 0); [done|]. by apply list_elem_of_fmap_2.
      * intros y. rewrite (sh_points x Hx). intros Hy. apply sh_kept. split; [by apply Hpt|by apply (Hstay x)].
    + intros x hd' Hh'. destruct (sh_heap _ _ Sh x hd' Hh') as (hd & Hd & Et & _). rewrite Et. destruct (I6 x hd Hd) as [?|(ty & Hty & Hn)]; [by left|right].
      destruct (types_eq_get _ _ _ ty (sh_types _ _ Sh) Hty) as (ty' & Hty' & Ef & _). exists ty'. by rewrite Ef.
    + intros p f Hp Hf. rewrite (sh_progs _ _ Sh) in Hp. destruct (I7 p f Hp Hf) as (Hn & ty & Hty & Hm).
      destruct (types_eq_get _ _ _ ty (sh_types _ _ Sh) Hty) as (ty' & Hty' & _ & Em & _). split; [done|]. exists ty'. by rewrite Em.
    + intros x Hx y. assert (Hs : is_Some (heap s' !! x)) by (apply color_some; unfold is_mutator in Hx; rewrite Hx; eauto).
      rewrite (sh_points x Hs). intros Hy. unfold is_mutator in Hx. rewrite (sh_vars _ _ Sh) in Hx. apply sh_color in Hx.
      apply sh_shaded; [|by apply (I9 x)]. apply (Hstay x); [|done|done]. apply shaded_kept; [done|by left].
  - intros x Hx. assert (Hs : is_Some (heap s' !! x)).
    { destruct (heap s' !! x) as [hd|] eqn:E; [eauto|]. by destruct (sh_gone _ _ Sh x E). }
    apply (sh_shaded x Hs), Hr. by apply sh_roots.
Qed.

Lemma shrink_array h : is_array s' h -> is_array s h.
Proof.
  intros (hd' & ty' & Hh & Hn & Hty & Hm). destruct (sh_heap _ _ Sh h hd' Hh) as (hd & Hd & Et & _).
  destruct (types_eq_get _ _ _ ty' (types_eq_sym _ _ (sh_types _ _ Sh)) Hty) as (ty & Hty0 & _ & Em & _). exists hd, ty.
  rewrite <- Et, Em. done.
Qed.
Lemma shrink_array_stays h : is_array s h -> is_Some (heap s' !! h) -> is_array s' h.
Proof.
  intros (hd & ty & Hh & Hn & Hty & Hm) [hd' Hd]. destruct (sh_heap _ _ Sh h hd' Hd) as (hd2 & Hd2 & Et & _). assert (hd2 = hd) as -> by congruence.
  destruct (types_eq_get _ _ _ ty (sh_types _ _ Sh) Hty) as (ty' & Hty' & _ & Em & _). exists hd', ty'. rewrite Et, Em. done.
Qed.
(** What goes leaves its counts to [O'] and [OM']. *)
Lemma shrink_counted O OM O' OM' :
  tri s -> rooted s -> counted O OM s ->
  (forall h hd', heap s' !! h = Some hd' -> Z.of_nat (refs_to h (O' ++ owners s')) <= h_ref hd') ->
  (forall v, v ∈ O' -> v = H \/ kept s' (D2H v)) ->
  (forall md, md ∈ modules s' -> Z.of_nat (count (m_addr md) (OM' ++ mod_owners s')) <= m_ref md) ->
  (forall m, m ∈ OM' ++ mod_owners s' -> m ∈ m_addr <$> modules s') -> NoDup (m_addr <$> modules s') -> 0 <= gchalt s' ->
  counted O' OM' s'.
Proof.
  intros T R [C1 C2 C3 C4 C5 C6 C7 C9 C10 C8] H1 H2 H3 H4 H5 H6. split; try done.
  - intros h Hk Ha. apply sh_kept in Hk as [Hk Hh]. pose proof (shrink_array h Ha) as Ha0. cbn zeta. rewrite (sh_mem _ _ Sh).
    destruct (C6 h Hk Ha0) as [?|(G1 & G2 & G3)]; [by left|]. destruct (decide (mem s (H2D h + 16) = H)) as [?|Hn]; [by left|right].
    split; [|split; [done|intros q; rewrite !(elem_slots_eq _ _ _ _ (sh_types _ _ Sh)); apply G3]].
    apply shrink_array_stays; [done|]. destruct (heap s' !! D2H (mem s (H2D h + 16))) as [hd|] eqn:E; [eauto|].
    destruct (sh_gone _ _ Sh _ E) as [_ Hg]. destruct (Hg h Hk Hh). destruct Ha0 as (hd & ty & Hd & Hn0 & Hty & Hm).
    unfold points. rewrite Hd. destruct (Z.eqb_spec (h_t hd) 0); [done|]. apply list_elem_of_fmap_2. unfold seen. rewrite Hty, Hm.
    apply elem_of_app. left. by apply elem_not_H.
  - intros t ty Hty. destruct (types_eq_get _ _ _ ty (types_eq_sym _ _ (sh_types _ _ Sh)) Hty) as (ty0 & Hty0 & Ef & Em & _ & Emap).
    specialize (C7 t ty0 Hty0). by rewrite Ef, Em, Emap in C7.
  - intros ml Hml. unfold links in Hml. rewrite (sh_progs _ _ Sh) in Hml. destruct (C9 ml Hml) as (hd & ty & Hh & Hn & Hty & Hf).
    destruct (heap s' !! D2H ml) as [hd'|] eqn:E; [|destruct (sh_gone _ _ Sh _ E) as [Hg _]; destruct Hg; apply link_root; unfold links; by rewrite (sh_progs _ _ Sh)].
    destruct (sh_heap _ _ Sh _ hd' E) as (hd2 & Hd2 & Et & _). assert (hd2 = hd) as -> by congruence.
    destruct (types_eq_get _ _ _ ty (sh_types _ _ Sh) Hty) as (ty' & Hty' & Ef & _). exists hd', ty'. rewrite E, Et, Ef. done.
  - destruct (heap s' !! D2H H) as [hd'|] eqn:E; [|done]. destruct (sh_heap _ _ Sh _ hd' E) as (hd & Hd & _). congruence.
Qed.
End Shrinks.

(** The pool when the blocks, those that are being freed among them, stay. *)
Lemma pool_same K K' s s' :
  pool K s -> chain s' = chain s -> base s' = base s -> ptr s' = ptr s -> limit s' = limit s -> vars s' = vars s ->
  (forall x c, color s' x = Some c -> color s x = Some c) ->
  (forall x, is_Some (heap s' !! x) \/ is_Some (K' !! x) <-> is_Some (heap s !! x) \/ is_Some (K !! x)) ->
  (forall x, is_Some (K' !! x) -> heap s' !! x = None) -> pool K' s'.
Proof.
  intros [I10 I11 I12 I13 I14 I15 I16] Ec Eb Ep El Ev Hc Hb Ha.
  assert (Hah : forall a, ahead s' a <-> ahead s a) by (intros a; by apply ahead_same).
  split; rewrite ?Ec; try done.
  - rewrite Ev. intros En h Hh. apply Hah. auto.
  - intros h Hh. apply Hah, I11. unfold white in *. rewrite Ev in Hh. auto.
  - by apply (cursor_same s).
  - intros h. by rewrite Hb.
Qed.
