(* ===== verification/GcFree.v ===== *)
(** * Freeing (libinterp/heap.c, load.c, gc.c)

    destroy and the free functions complete and keep the invariant: they free only
    blocks that nothing points to. *)

From S2P Require Import Prelude Pool Gc GcMark GcPool GcInv.

(** ** What points to a block counts *)

Lemma fields_ptr w : fields [128] w = [w].
Proof. unfold fields, byte_fields. vm_compute (filter _ _). cbn. f_equal. lia. Qed.

Lemma owned_seen m tys t vw q : q ∈ owned m tys t vw -> m q <> H -> m q ∈ (if t =? 0 then [] else seen m tys t vw).
Proof.
  unfold owned, seen. destruct (t =? 0); [by intros ?%elem_of_nil|].
  destruct (tys !! t) as [ty|]; [|by intros ?%elem_of_nil]. intros Hq Hn. destruct (ty_mark ty).
  - by apply elem_of_nil in Hq.
  - apply elem_seen_fields. eauto.
  - apply elem_of_app. destruct (Z.eqb_spec (m (vw + 16)) H) as [E|E].
    + right. unfold elem_slots in Hq. destruct (tys !! m (vw + 8)); [|by apply elem_of_nil in Hq].
      apply list_elem_of_bind in Hq as (i & Hq & Hi). apply list_elem_of_bind. exists i. split; [|done]. apply elem_seen_fields. eauto.
    + left. apply list_elem_of_singleton in Hq as ->. by apply elem_not_H.
  - apply elem_of_app. apply elem_of_app in Hq as [Hq|Hq].
    + left. apply elem_seen_fields. eauto.
    + right. apply list_elem_of_singleton in Hq as ->. by apply elem_not_H.
Qed.
Lemma owned_points s h hd q : heap s !! h = Some hd -> q ∈ owned (mem s) (types s) (h_t hd) (H2D h) -> mem s q <> H ->
  D2H (mem s q) ∈ points s h.
Proof. intros Hh Hq Hn. unfold points. rewrite Hh. apply list_elem_of_fmap_2. by apply owned_seen. Qed.

Section Owners.
Context (s : gcs) (T : tri s) (R : rooted s) {O OM : list Z} (C : counted O OM s).

Lemma owner_pos v x : v ∈ owners s -> D2H v = x -> is_Some (heap s !! x) -> (0 < refs_to x (owners s))%nat.
Proof.
  intros Hv E Hx. apply (refs_to_pos x v); [done| |done]. intros ->. rewrite <- E, (ct_H _ _ _ C) in Hx. by destruct Hx.
Qed.
Lemma point_owner b x : kept s b -> x ∈ points s b -> (0 < refs_to x (owners s))%nat.
Proof.
  intros Hk Hx. assert (Hxs : is_Some (heap s !! x)) by (apply (iv_closed _ T b Hk); done).
  unfold points in Hx. destruct (heap s !! b) as [hd|] eqn:Hh; [|by apply elem_of_nil in Hx].
  apply list_elem_of_fmap in Hx as (v & -> & Hv). destruct (Z.eqb_spec (h_t hd) 0) as [E0|E0]; [by apply elem_of_nil in Hv|].
  apply seen_slot in Hv as (Hn & q & -> & [Hq|(ty & Hty & Hm & Hq)]); [| |done].
  - apply (owner_pos (mem s q)); [by apply (owned_owner s b hd)|done|done].
  - assert (Ha : is_array s b) by (by exists hd, ty).
    destruct (ct_slices _ _ _ C b Hk Ha) as [E|((hr & tr & Hr & Hnr & Htr & Hmr) & Hroot & Hsub)].
    + apply (owner_pos (mem s q)); [|done|done]. apply (owned_owner s b hd); [done|done|]. unfold owned.
      destruct (Z.eqb_spec (h_t hd) 0); [done|]. rewrite Hty, Hm. by rewrite (proj2 (Z.eqb_eq _ _) E).
    + assert (Hroot_kept : kept s (D2H (mem s (H2D b + 16)))).
      { apply (iv_closed _ T b Hk). unfold points. rewrite Hh, (proj2 (Z.eqb_neq _ _) E0). apply list_elem_of_fmap_2. unfold seen. rewrite Hty, Hm.
        apply elem_of_app. left. apply elem_not_H. split; [done|]. intros E. rewrite E in Hr. change (heap s !! D2H H = Some hr) in Hr.
        by rewrite (ct_H _ _ _ C) in Hr. }
      apply (owner_pos (mem s q)); [|done|done]. apply (owned_owner s (D2H (mem s (H2D b + 16))) hr); [exact Hr|by apply Hroot_kept|]. unfold owned.
      destruct (Z.eqb_spec (h_t hr) 0); [done|]. rewrite Htr, Hmr, H2D_D2H, (proj2 (Z.eqb_eq _ _) Hroot). by apply Hsub.
Qed.
Lemma link_roots_owner ml x : ml ∈ links s -> x ∈ link_roots (mem s) ml -> is_Some (heap s !! x) -> (0 < refs_to x (owners s))%nat.
Proof.
  intros Hml Hx Hs. assert (Hk : kept s (D2H ml)) by (apply (shaded_kept s _ (iv_colors _ T)), R; by apply link_root).
  apply elem_of_cons in Hx as [->|Hx].
  - apply (owner_pos ml); [|done|done]. apply elem_of_app. right. apply elem_of_app. by left.
  - apply elem_D2H_not_H in Hx as [-> Hn]. apply (owner_pos (mem s ml)); [|done|done].
    destruct (ct_links _ _ _ C ml Hml) as (hd & ty & Hh & Hn0 & Hty & Hf). apply (owned_owner s (D2H ml) hd); [exact Hh|done|].
    pose proof (ct_types _ _ _ C _ _ Hty) as Hwf. rewrite Hf in Hwf. destruct Hwf as (_ & Hm & Hmap). unfold owned, map_of.
    destruct (Z.eqb_spec (h_t hd) 0); [done|]. rewrite Hty, Hm, Hmap, fields_ptr, H2D_D2H. constructor.
Qed.
Lemma root_owner x : x ∈ roots s -> (0 < refs_to x (owners s))%nat.
Proof.
  intros Hx. assert (Hs : is_Some (heap s !! x)) by (apply (shaded_kept s x (iv_colors _ T)); by apply R).
  apply elem_of_app in Hx as [Hx|[Hx|Hx]%elem_of_app].
  - apply list_elem_of_bind in Hx as (p & Hx & Hp). apply elem_of_app in Hx as [Hx|Hx].
    + apply (link_roots_owner (g_M p)); [|done|done]. apply list_elem_of_bind. exists p. split; [constructor|done].
    + apply list_elem_of_bind in Hx as (f & Hx & Hf). apply elem_of_app in Hx as [Hx|Hx].
      * apply list_elem_of_fmap in Hx as (v & -> & Hv). destruct (iv_frames _ T p f Hp Hf) as (Hn0 & ty & Hty & Hm).
        apply seen_slot in Hv as (Hn & q & -> & [Hq|(ty' & Hty' & Hm' & _)]); [| |done]; [|congruence].
        apply (owner_pos (mem s q)); [|done|done]. apply elem_of_app. left. apply list_elem_of_fmap_2, elem_of_app. left.
        apply list_elem_of_bind. exists p. split; [|done]. apply list_elem_of_bind. eauto.
      * destruct (f_mr f =? 0) eqn:E0; [by apply elem_of_nil in Hx|]. apply (link_roots_owner (f_mr f)); [|done|done].
        apply list_elem_of_bind. exists p. split; [|done]. right. apply list_elem_of_bind. exists f. rewrite E0. split; [constructor|done].
  - apply list_elem_of_fmap in Hx as (v & -> & Hv). apply list_elem_of_bind in Hv as (mp & [-> Hn]%elem_not_H & Hmp).
    apply (owner_pos mp); [|done|done]. apply elem_of_app. right. apply elem_of_app. right. apply elem_of_app. by left.
  - apply (owner_pos (H2D x)); [|apply D2H_H2D|done]. apply elem_of_app. right. apply elem_of_app. right. apply elem_of_app. right.
    by apply list_elem_of_fmap_2.
Qed.
(** A block that is not there is not pointed to. *)
Lemma gone_none x : heap s !! x = None -> (x ∉ roots s) /\ forall b, kept s b -> x ∉ points s b.
Proof.
  intros E. split.
  - intros Hx. apply R in Hx. apply (shaded_kept s x (iv_colors _ T)) in Hx as [Hx _]. rewrite E in Hx. by destruct Hx.
  - intros b Hb Hx. apply (iv_closed _ T b Hb) in Hx as [Hx _]. rewrite E in Hx. by destruct Hx.
Qed.
End Owners.

(** ** The steps of freeing *)

(** The state with the blocks that are being freed. *)
Definition plus (K : gmap Z Heap) (s : gcs) : gcs := with_heap (fun m => K ∪ m) s.

Lemma plus_empty s : plus ∅ s = s.
Proof. unfold plus, with_heap. rewrite (left_id_L ∅ (∪)). by destruct s. Qed.
Lemma plus_alter K f h s : K !! h = None -> with_heap (alter f h) (plus K s) = plus K (with_heap (alter f h) s).
Proof.
  intros Hh. unfold plus, with_heap. cbn. f_equal. apply map_eq. intros x. rewrite lookup_union.
  destruct (decide (x = h)) as [->|Hn]; [rewrite !lookup_alter_eq, lookup_union, Hh; by destruct (heap s !! h)|].
  by rewrite !lookup_alter_ne, lookup_union by done.
Qed.
Lemma plus_die K h hd s : heap s !! h = Some hd -> K !! h = None -> plus (<[h := hd]> K) (with_heap (delete h) s) = plus K s.
Proof.
  intros Hh HK. unfold plus, with_heap. cbn. f_equal. apply map_eq. intros x. rewrite !lookup_union.
  destruct (decide (x = h)) as [->|Hn]; [by rewrite lookup_insert_eq, lookup_delete_eq, HK, Hh|].
  by rewrite lookup_insert_ne, lookup_delete_ne by done.
Qed.
Lemma plus_gone K h hd s : heap s !! h = None -> K !! h = None ->
  delete h (heap (plus (<[h := hd]> K) s)) = heap (plus K s).
Proof.
  intros Hh HK. cbn. apply map_eq. intros x. destruct (decide (x = h)) as [->|Hn].
  - by rewrite lookup_delete_eq, lookup_union, HK, Hh.
  - by rewrite lookup_delete_ne, !lookup_union, lookup_insert_ne by done.
Qed.
Lemma plus_lookup K s h : K !! h = None -> heap (plus K s) !! h = heap s !! h.
Proof. intros Hh. cbn. rewrite lookup_union, Hh. by destruct (heap s !! h). Qed.
Lemma apart K O OM s h hd : inv_with K O OM s -> heap s !! h = Some hd -> K !! h = None.
Proof.
  intros I Hh. destruct (K !! h) as [x|] eqn:E; [|done]. pose proof (iv_apart _ _ (iw_pool _ _ _ _ I) h) as Ha. rewrite E, Hh in Ha.
  discriminate Ha. eauto.
Qed.

(** What freeing leaves. *)
Record frees (K : gmap Z Heap) (s s' : gcs) : Prop := {
  fr_mem : mem s' = mem s;
  fr_types : types_eq (types s) (types s');
  fr_progs : progs s' = progs s;
  fr_ptrtab : ptrtab s' = ptrtab s;
  fr_origmps : forall v, v ∈ origmps s' -> v ∈ origmps s;
  fr_vars : vars s' = vars s;
  fr_halt : gchalt s' = gchalt s;
  fr_base : base s' = base s /\ limit s' = limit s;
  fr_heap : forall h hd', heap s' !! h = Some hd' -> exists hd, heap s !! h = Some hd /\ h_t hd' = h_t hd /\ h_color hd' = h_color hd;
  fr_chain : only_frees (heapmem s) (heapmem s');
  fr_remaining : (remaining s' <= remaining s)%nat;
  fr_ptr : forall h, is_Some (K !! h) -> h - sizeof_Bhdr = ptr s -> ptr s' = ptr s;
}.
Lemma frees_refl K s : frees K s s.
Proof. split; try done. eauto. Qed.
Lemma frees_trans K s1 s2 s3 : frees K s1 s2 -> frees K s2 s3 -> frees K s1 s3.
Proof.
  intros [A1 A2 A3 A4 A5 A6 A7 A8 A9 AC A10 A11] [B1 B2 B3 B4 B5 B6 B7 B8 B9 BC B10 B11]. split; try congruence; auto.
  - intuition congruence.
  - intros h hd3 H3. destruct (B9 h hd3 H3) as (hd2 & H2 & E1 & E2). destruct (A9 h hd2 H2) as (hd1 & H1 & E3 & E4).
    exists hd1. split; [done|]. split; congruence.
  - by apply (only_frees_trans _ (heapmem s2)).
  - lia.
  - intros h HK E. rewrite (B11 h HK); [by apply (A11 h)|]. by rewrite (A11 h).
Qed.
(** With fewer blocks being freed. *)
Lemma frees_sub K K' s s' : (forall h, is_Some (K !! h) -> is_Some (K' !! h)) -> frees K' s s' -> frees K s s'.
Proof. intros Hsub [A1 A2 A3 A4 A5 A6 A7 A8 A9 AC A10 A11]. split; auto. intros h HK. apply A11. auto. Qed.

(** A step that no block goes by. *)
Lemma inv_same K O OM s s' :
  inv_with K O OM s -> mem s' = mem s -> types_eq (types s) (types s') -> heap s' = heap s ->
  (progs s' = progs s /\ modules s' = modules s /\ ptrtab s' = ptrtab s) -> vars s' = vars s ->
  (chain s' = chain s /\ base s' = base s /\ ptr s' = ptr s /\ limit s' = limit s) -> 0 <= gchalt s' -> inv_with K O OM s'.
Proof.
  intros [T R P C] E1 E2 E3 (E4 & E5 & E6) E7 (E8 & E9 & E10 & E11) Hh.
  assert (Eo : origmps s' = origmps s) by (unfold origmps; by rewrite E5).
  assert (Et : h_t <$> heap s' = h_t <$> heap s) by by rewrite E3.
  assert (Sh : shrinks s s').
  { split; try done; [by rewrite Eo|rewrite E3; eauto|]. intros x Hx. rewrite E3 in Hx.
    destruct (gone_none s T R x Hx) as [G1 G2]. split; [by rewrite (roots_types s s')|]. intros b Hb _. by apply G2. }
  destruct (shrink_tri s s' Sh T R) as [T' R']. split; [done|done| |].
  - apply (pool_same K K s); try done; [|by rewrite E3|rewrite E3; apply (iv_apart _ _ P)]. unfold color. by rewrite E3.
  - assert (Hw : forall h, white s' h <-> white s h) by (intros h; unfold white, color; by rewrite E3, E7).
    apply (shrink_counted s s' Sh O OM); try done; rewrite ?E5, ?(owners_same s s'), ?(mod_owners_same s s'), ?E3 by done; try apply C.
    intros v Hv. destruct (ct_tokens _ _ _ C v Hv) as [?|Hk]; [by left|right]. apply (sh_kept s s' Sh). split; [done|]. rewrite E3. apply Hk.
Qed.
Lemma freetype_step K O OM s t : inv_with K O OM s ->
  exists s', freetype t (plus K s) = Ok tt (plus K s') /\ inv_with K O OM s' /\ frees K s s' /\ modules s' = modules s /\ heap s' = heap s.
Proof.
  intros I. exists (with_types (alter (fun y => mkTy (ty_ref y - 1) (ty_free y) (ty_mark y) (ty_size y) (ty_map y)) t) s).
  split; [done|]. assert (E : types_eq (types s) (alter (fun y => mkTy (ty_ref y - 1) (ty_free y) (ty_mark y) (ty_size y) (ty_map y)) t (types s))) by by apply freetype_eq.
  split; [apply (inv_same K O OM s); try done; apply (ct_halt _ _ _ (iw_counted _ _ _ _ I))|].
  split; [|done]. split; try done. eauto.
Qed.
Lemma halt_step K O OM s (f : Z -> Z) : inv_with K O OM s -> 0 <= f (gchalt s) -> inv_with K O OM (with_halt f s).
Proof. intros I Hf. by apply (inv_same K O OM s). Qed.

(** The owners come in any order, and nil is no pointer. *)
Lemma tokens_perm K O O' OM s : O ≡ₚ O' -> inv_with K O OM s -> inv_with K O' OM s.
Proof.
  intros E [T R P [C1 C2 C3 C4 C5 C6 C7 C9 C10 C8]]. split; try done. split; try done.
  - intros h hd Hh. rewrite <- E. auto.
  - intros v. rewrite <- E. auto.
Qed.
Lemma token_H K O OM s : inv_with K (H :: O) OM s -> inv_with K O OM s.
Proof.
  intros [T R P [C1 C2 C3 C4 C5 C6 C7 C9 C10 C8]]. split; try done. split; try done.
  intros v Hv. apply C2. by right.
Qed.

(** The count goes down. *)
Definition counted_down (h r : Z) (s : gcs) : gcs := with_heap (alter (fun hd => mkHeap (h_color hd) r (h_t hd)) h) s.
Lemma counted_down_lookup h r s x hd' : heap (counted_down h r s) !! x = Some hd' ->
  exists hd, heap s !! x = Some hd /\ h_t hd' = h_t hd /\ h_color hd' = h_color hd /\ h_ref hd' = if decide (x = h) then r else h_ref hd.
Proof.
  cbn. intros Hx. destruct (decide (x = h)) as [->|Hn].
  - rewrite lookup_alter_eq in Hx. destruct (heap s !! h) as [hd|]; [|done]. injection Hx as <-. by exists hd.
  - rewrite lookup_alter_ne in Hx by done. by exists hd'.
Qed.
Lemma counted_down_white h r s x : white (counted_down h r s) x <-> white s x.
Proof.
  unfold white, color. cbn. destruct (decide (x = h)) as [->|Hn]; [rewrite lookup_alter_eq; by destruct (heap s !! h)|by rewrite lookup_alter_ne].
Qed.
Lemma counted_down_types h r s : h_t <$> heap (counted_down h r s) = h_t <$> heap s.
Proof.
  apply map_eq. intros x. rewrite !lookup_fmap. cbn. destruct (decide (x = h)) as [->|Hn]; [|by rewrite lookup_alter_ne].
  rewrite lookup_alter_eq. by destruct (heap s !! h).
Qed.
Lemma counted_down_some h r s x : is_Some (heap (counted_down h r s) !! x) <-> is_Some (heap s !! x).
Proof.
  cbn. destruct (decide (x = h)) as [->|Hn]; [rewrite lookup_alter_eq; by rewrite fmap_is_Some|by rewrite lookup_alter_ne].
Qed.
Lemma recount_ok K O O' OM s h r :
  inv_with K O OM s -> (forall v, v ∈ O' -> v = H \/ kept s (D2H v)) ->
  (forall x hd, heap s !! x = Some hd -> Z.of_nat (refs_to x (O' ++ owners s)) <= if decide (x = h) then r else h_ref hd) ->
  inv_with K O' OM (counted_down h r s) /\ frees K s (counted_down h r s).
Proof.
  intros [T R P C] HO' Hc. set (s' := counted_down h r s).
  assert (Hl : forall x hd', heap s' !! x = Some hd' -> exists hd, heap s !! x = Some hd /\ h_t hd' = h_t hd /\ h_color hd' = h_color hd).
  { intros x hd' Hx. destruct (counted_down_lookup _ _ _ _ _ Hx) as (hd0 & E1 & E2 & E3 & _). eauto. }
  assert (Sh : shrinks s s').
  { split; try done. intros x Hx. assert (E : heap s !! x = None).
    { apply eq_None_not_Some. rewrite <- (counted_down_some h r s x). fold s'. rewrite Hx. by intros []. }
    destruct (gone_none s T R x E) as [G1 G2]. split; [by rewrite (roots_types s s')|]. intros b Hb _. by apply G2. }
  destruct (shrink_tri s s' Sh T R) as [T' R']. pose proof (counted_down_types h r s) as Et. fold s' in Et.
  assert (Hsome : forall x, is_Some (heap s' !! x) <-> is_Some (heap s !! x)) by apply counted_down_some.
  split; [|by split]. split; [done|done| |].
  - apply (pool_same K K s s'); try done.
    + intros x c. apply (sh_color s s' Sh).
    + intros x. by rewrite Hsome.
    + intros x Hx. apply eq_None_not_Some. rewrite Hsome, (iv_apart _ _ P x Hx). by intros [].
  - assert (Hw : forall x, white s' x <-> white s x) by (intros x; apply counted_down_white).
    apply (shrink_counted s s' Sh O OM); try done; rewrite ?(owners_same s s'), ?(mod_owners_same s s') by done; try apply C.
    + intros x hd' Hx. destruct (counted_down_lookup _ _ _ _ _ Hx) as (hd0 & E1 & _ & _ & E2). rewrite E2. by apply Hc.
    + intros x Hx. destruct (HO' x Hx) as [?|Hk]; [by left|right]. apply (sh_kept s s' Sh). split; [done|]. apply Hsome. apply Hk.
Qed.
(** A block that has a pointer has a reference to give up. *)
Lemma token_ref K v O OM s hd : inv_with K (v :: O) OM s -> v <> H -> heap s !! D2H v = Some hd -> ref_less (h_ref hd) = h_ref hd - 1.
Proof.
  intros I Hv Hh. pose proof (ct_refs _ _ _ (iw_counted _ _ _ _ I) _ hd Hh) as Hc. cbn [app] in Hc. rewrite refs_to_cons, decide_True in Hc by done.
  unfold ref_less. destruct (Z.eqb_spec (h_ref hd) 0); [lia|done].
Qed.
Lemma decr_ok K v O OM s hd :
  inv_with K (v :: O) OM s -> v <> H -> heap s !! D2H v = Some hd ->
  inv_with K O OM (counted_down (D2H v) (h_ref hd - 1) s) /\ frees K s (counted_down (D2H v) (h_ref hd - 1) s).
Proof.
  intros I Hv Hh. apply (recount_ok K (v :: O)); [done| |].
  - intros x Hx. apply (ct_tokens _ _ _ (iw_counted _ _ _ _ I)). by right.
  - intros x hd0 Hx. pose proof (ct_refs _ _ _ (iw_counted _ _ _ _ I) x hd0 Hx) as Hc. cbn [app] in Hc. rewrite refs_to_cons in Hc.
    destruct (decide (x = D2H v)) as [->|Hn]; [|rewrite decide_False in Hc by (by intros [_ ?]); lia].
    rewrite decide_True in Hc by done. assert (hd0 = hd) as -> by congruence. lia.
Qed.
Lemma incr_ok K v O OM s hd :
  inv_with K O OM s -> kept s (D2H v) -> heap s !! D2H v = Some hd ->
  inv_with K (v :: O) OM (counted_down (D2H v) (h_ref hd + 1) s) /\ frees K s (counted_down (D2H v) (h_ref hd + 1) s).
Proof.
  intros I Hk Hh. apply (recount_ok K O); [done| |].
  - intros x [->|Hx]%elem_of_cons; [by right|]. by apply (ct_tokens _ _ _ (iw_counted _ _ _ _ I)).
  - intros x hd0 Hx. pose proof (ct_refs _ _ _ (iw_counted _ _ _ _ I) x hd0 Hx) as Hc. cbn [app]. rewrite refs_to_cons.
    destruct (decide (x = D2H v)) as [->|Hn]; [|rewrite decide_False by (by intros [_ ?]); lia]. assert (hd0 = hd) as -> by congruence.
    case_decide; lia.
Qed.

(** A block begins to be freed: nothing points to it, and what it owns goes with
    it. *)
Lemma hide_shrinks K O OM s h :
  inv_with K O OM s -> (h ∉ roots s) -> (forall b, kept s b -> h ∉ points s b) -> shrinks s (with_heap (delete h) s).
Proof.
  intros [T R P C] Hr Hp. split; try done.
  - intros x hd' Hx. cbn in Hx. apply lookup_delete_Some in Hx as [_ Hx]. eauto.
  - intros x Hx. cbn in Hx. destruct (decide (x = h)) as [->|Hn]; [split; [exact Hr|intros b Hb _; by apply Hp]|].
    rewrite lookup_delete_ne in Hx by done. destruct (gone_none s T R x Hx) as [G1 G2]. split; [exact G1|]. intros b Hb _. by apply G2.
Qed.
Lemma hide_ok K O O' OM s h hd :
  inv_with K O OM s -> heap s !! h = Some hd -> (h ∉ roots s) -> (forall b, kept s b -> h ∉ points s b) ->
  let s' := with_heap (delete h) s in
  (forall x, (refs_to x O' <= refs_to x O + refs_to x (mem s <$> if decide (white s h) then [] else owned (mem s) (types s) (h_t hd) (H2D h)))%nat) ->
  (forall v, v ∈ O' -> v = H \/ kept s (D2H v) /\ D2H v <> h) ->
  inv_with (<[h := hd]> K) O' (linked (mem s) (types s) (h_t hd) h ++ OM) s' /\ frees K s s'.
Proof.
  intros I Hh Hr Hp s' HO HO'. pose proof (hide_shrinks K O OM s h I Hr Hp) as Sh. fold s' in Sh. pose proof (apart K O OM s h hd I Hh) as HK.
  destruct I as [T R P C]. destruct (shrink_tri s s' Sh T R) as [T' R'].
  assert (Hsome : forall x, is_Some (heap s' !! x) <-> is_Some (heap s !! x) /\ x <> h).
  { intros x. cbn. split.
    - intros [hd' Hd]. apply lookup_delete_Some in Hd as [Hn Hd]. eauto.
    - intros [[hd' Hd] Hn]. exists hd'. by rewrite lookup_delete_ne. }
  pose proof (owners_delete s h hd Hh) as Eo. pose proof (mod_owners_delete s h hd Hh) as Em. fold s' in Eo, Em.
  assert (Emo : (linked (mem s) (types s) (h_t hd) h ++ OM) ++ mod_owners s' ≡ₚ OM ++ mod_owners s).
  { rewrite Em, (Permutation_app_comm (linked _ _ _ _)), <- app_assoc. done. }
  split; [|split; try done; apply Sh]. split; [done|done| |].
  - apply (pool_same K (<[h := hd]> K) s); try done.
    + intros x c. apply (sh_color s s' Sh).
    + intros x. rewrite Hsome. destruct (decide (x = h)) as [->|Hn]; [rewrite lookup_insert_eq, Hh; split; eauto|rewrite lookup_insert_ne by done; tauto].
    + intros x Hx. cbn. destruct (decide (x = h)) as [->|Hn]; [apply lookup_delete_eq|]. rewrite lookup_insert_ne in Hx by done.
      rewrite lookup_delete_ne by done. by apply (iv_apart _ _ P).
  - apply (shrink_counted s s' Sh O OM); try done.
    + intros x hd' Hx. cbn in Hx. apply lookup_delete_Some in Hx as [Hn Hx]. pose proof (ct_refs _ _ _ C x hd' Hx) as Hc.
      rewrite !refs_to_app, Eo, refs_to_app in *. specialize (HO x). lia.
    + intros v Hv. destruct (HO' v Hv) as [?|[Hk Hn]]; [by left|right]. apply (sh_kept s s' Sh). split; [done|]. apply Hsome. split; [apply Hk|done].
    + intros md. rewrite Emo. apply (ct_mods _ _ _ C).
    + intros m. rewrite Emo. apply (ct_mod_in _ _ _ C).
    + apply C.
    + apply C.
Qed.
(** Nothing points to a block whose count is zero. *)
Lemma dead K O OM s h hd : inv_with K O OM s -> heap s !! h = Some hd -> h_ref hd <= 0 ->
  (h ∉ roots s) /\ (forall b, kept s b -> h ∉ points s b) /\ forall v, v ∈ O -> v <> H -> D2H v <> h.
Proof.
  intros [T R P C] Hh Href.
  assert (H0 : refs_to h O = 0%nat /\ refs_to h (owners s) = 0%nat).
  { pose proof (ct_refs _ _ _ C h hd Hh) as Hc. rewrite refs_to_app in Hc. lia. }
  split; [|split].
  - intros Hr. pose proof (root_owner s T R C h Hr). lia.
  - intros b Hb Hp. pose proof (point_owner s T C b h Hb Hp). lia.
  - intros v Hv Hn E. pose proof (refs_to_pos h v O Hv Hn E). lia.
Qed.
Lemma die_ok K O OM s h hd :
  inv_with K O OM s -> heap s !! h = Some hd -> kept s h -> h_ref hd <= 0 ->
  let s' := with_heap (delete h) s in
  inv_with (<[h := hd]> K) ((mem s <$> owned (mem s) (types s) (h_t hd) (H2D h)) ++ O) (linked (mem s) (types s) (h_t hd) h ++ OM) s' /\ frees K s s'.
Proof.
  intros I Hh Hk Href. destruct (dead K O OM s h hd I Hh Href) as (Hr & Hp & Ht).
  apply (hide_ok K O); [done|done|done|done|intros x; rewrite refs_to_app, decide_False by apply Hk; lia|].
  intros v [Hv|Hv]%elem_of_app.
  - apply list_elem_of_fmap in Hv as (q & -> & Hq). destruct (decide (mem s q = H)) as [?|Hn]; [by left|right].
    pose proof (owned_points s h hd q Hh Hq Hn) as Hpt. split; [by apply (iv_closed _ (iw_tri _ _ _ _ I) h Hk)|].
    intros E. rewrite E in Hpt. by apply (Hp h Hk).
  - destruct (ct_tokens _ _ _ (iw_counted _ _ _ _ I) v Hv) as [?|Hkv]; [by left|]. destruct (decide (v = H)) as [?|Hn]; [by left|right].
    split; [done|by apply Ht].
Qed.
(** A block of the sweeper's colour drops what it owns. *)
Lemma white_ok K OM s h hd :
  inv_with K [] OM s -> heap s !! h = Some hd -> white s h ->
  let s' := with_heap (delete h) s in
  inv_with (<[h := hd]> K) [] (linked (mem s) (types s) (h_t hd) h ++ OM) s' /\ frees K s s'.
Proof.
  intros I Hh Hw. destruct (I) as [T R P C]. apply (hide_ok K []); [done|done| | |intros x; unfold refs_to; cbn; lia|intros v Hv; by apply elem_of_nil in Hv].
  - intros Hr. by destruct (shaded_kept s h (iv_colors _ T) (R h Hr)).
  - intros b Hb Hp. by destruct (proj2 (iv_closed _ T b Hb) h Hp).
Qed.

(** The block goes back to the pool. *)
Lemma gone_ok K O OM s h hd :
  inv_with (<[h := hd]> K) O OM s -> K !! h = None ->
  exists s', poolfree h (plus (<[h := hd]> K) s) = Ok tt (plus K s') /\ inv_with K O OM s' /\ frees K s s' /\ heap s' = heap s /\ modules s' = modules s /\
    (ptr s = h - sizeof_Bhdr -> forall x, is_Some (heap s' !! x) -> x - sizeof_Bhdr <> ptr s').
Proof.
  intros [T R P C] HK. pose proof P as [I10 I11 I12 I13 I14 I15 I16].
  assert (Hh : heap s !! h = None) by (apply I16; rewrite lookup_insert_eq; eauto).
  destruct (proj1 (I15 h)) as (b & Hb & Hbm & Hba); [right; rewrite lookup_insert_eq; eauto|].
  destruct (free_chain s h b I12 I14 Hb Hbm Hba) as (P' & p' & Ecf & F1 & F2 & FK & F3 & F4 & F5 & F7 & F6).
  destruct P' as [ch' st']. set (P' := mkPool ch' st') in *.
  set (s' := with_pool P' p' s).
  assert (Hblocks : forall x, is_Some (heap s' !! x) \/ is_Some (K !! x) <->
    exists b, b ∈ concat (arenas P') /\ b_magic b = MAGIC_A /\ b_addr b = x - sizeof_Bhdr).
  { intros x. split.
    - intros Hx. assert (Hn : x <> h) by (intros ->; cbn in Hx; rewrite Hh, HK in Hx; destruct Hx as [[]|[]]; done).
      destruct (proj1 (I15 x)) as (y & Hy & Hm & Ha); [rewrite lookup_insert_ne by done; done|]. exists y. rewrite (F3 y Hm). split; [split; [done|lia]|done].
    - intros (y & Hy & Hm & Ha). apply (F3 y Hm) in Hy as [Hy Hn]. assert (Hx : x <> h) by (intros ->; lia).
      destruct (proj2 (I15 x)) as [?|Hk]; [by exists y|by left|right]. by rewrite lookup_insert_ne in Hk. }
  assert (Hahead : forall x, is_Some (heap s !! x) -> ahead s (x - sizeof_Bhdr) -> ahead s' (x - sizeof_Bhdr)).
  { intros x Hx Hax. destruct (proj1 (Hblocks x) (or_introl Hx)) as (y & Hy & Hm & Ha). rewrite <- Ha in *. by apply F4. }
  exists s'. split; [|split; [split; [by destruct T; split|exact R| |by destruct C; split]|split; [|split; [done|split; [done|]]]]].
  - unfold poolfree. rewrite (bind_ok _ _ (P', p') (plus (<[h := hd]> K) s) (plus (<[h := hd]> K) s)) by (unfold gets; f_equal; exact Ecf).
    rewrite (bind_ok _ _ tt _ (with_pool P' p' (plus (<[h := hd]> K) s))) by done. unfold modify. f_equal.
    unfold plus, with_heap, s'. cbn. f_equal. by apply plus_gone.
  - split; try done.
    + intros En x Hx. apply Hahead; [apply color_some; change (color s x = Some propagator) in Hx; rewrite Hx; eauto|]. by apply I10.
    + intros x Hx. apply Hahead; [apply color_some; change (white s x) in Hx; unfold white in Hx; rewrite Hx; eauto|]. by apply I11.
    + intros E0. pose proof (of_spans _ _ FK) as Es. cbn in Es, E0. rewrite E0 in Es. by destruct (chain s).
    + intros x Hx. apply I16. destruct (decide (x = h)) as [->|Hn]; [rewrite lookup_insert_eq; eauto|by rewrite lookup_insert_ne].
  - split; try done; [eauto|]. intros x Hx Ex. cbn. destruct (proj1 (Hblocks x) (or_intror Hx)) as (y & Hy & Hm & Ha).
    apply (F7 y Hm Hy). lia.
  - intros Ep x Hx Ex. destruct (proj1 (Hblocks x) (or_introl Hx)) as (y & Hy & Hm & Ha). apply (F6 Ep y Hm Hy). cbn in Ex. lia.
Qed.

(** ** Freeing what a block owns *)

Lemma free_fields_perm map w : free_fields map w ≡ₚ fields map w.
Proof. revert w. induction map as [|c map IH]; intros w; cbn [free_fields fields]; [done|]. rewrite IH, <- Permutation_rev. done. Qed.
Lemma list_frees K s s' v : frees K s s' -> is_list s v -> v = H \/ kept s' (D2H v) -> is_list s' v.
Proof.
  intros F [->|(hd & ty & Hh & Hn & Hty & Hm)] Hv; [by left|]. destruct Hv as [->|[[hd' Hd] _]]; [by left|right].
  destruct (fr_heap _ _ _ F _ hd' Hd) as (hd2 & Hd2 & Et & _). assert (hd2 = hd) as -> by congruence.
  destruct (types_eq_get _ _ _ ty (fr_types _ _ _ F) Hty) as (ty' & Hty' & _ & Em & _). exists hd', ty'. rewrite Et, Em. done.
Qed.
Lemma frees_size K s s' : frees K s s' -> (size (heap s') <= size (heap s))%nat.
Proof.
  intros F. rewrite <- !size_dom. apply subseteq_size. intros h [hd' Hh]%elem_of_dom. apply elem_of_dom.
  destruct (fr_heap _ _ _ F h hd' Hh) as (hd & Hd & _). eauto.
Qed.
Lemma token_kept K v O OM s : inv_with K (v :: O) OM s -> v = H \/ kept s (D2H v).
Proof. intros I. apply (ct_tokens _ _ _ (iw_counted _ _ _ _ I)). constructor. Qed.

(** [d] destroys what is in [gchalt] at least [n] deep. *)
Definition destroys (d : Z -> S unit) (n : Z) : Prop :=
  forall K v O OM s, inv_with K (v :: O) OM s -> n <= gchalt s ->
    exists s', d v (plus K s) = Ok tt (plus K s') /\ inv_with K O OM s' /\ frees K s s'.

Section Free.
Context (d : Z -> S unit) (n : Z) (Hd : destroys d n).

Lemma destroy_list K O OM qs s :
  inv_with K ((mem s <$> qs) ++ O) OM s -> n <= gchalt s ->
  exists s', for_all (fun q => x ← word q; if x =? H then mret tt else d x) qs (plus K s) = Ok tt (plus K s') /\
    inv_with K O OM s' /\ frees K s s'.
Proof.
  revert s. induction qs as [|q qs IH]; intros s I Hn; cbn [for_all]; [exists s; split; [done|]; split; [done|apply frees_refl]|].
  cbn [fmap list_fmap app] in I.
  assert (H1 : exists s1, (x ← word q; if x =? H then mret tt else d x) (plus K s) = Ok tt (plus K s1) /\
    inv_with K ((mem s <$> qs) ++ O) OM s1 /\ frees K s s1).
  { rewrite (bind_ok _ _ (mem s q) (plus K s) (plus K s)) by done. destruct (Z.eqb_spec (mem s q) H) as [E|E]; [|by apply Hd].
    exists s. rewrite E in I. split; [done|]. split; [by apply token_H|apply frees_refl]. }
  destruct H1 as (s1 & E1 & I1 & F1). rewrite (bind_ok _ _ _ _ _ E1).
  destruct (IH s1) as (s2 & E2 & I2 & F2); [by rewrite (fr_mem _ _ _ F1)|by rewrite (fr_halt _ _ _ F1)|].
  exists s2. split; [done|]. split; [done|]. by apply (frees_trans K s s1).
Qed.
Lemma freeptrs_ok K O OM s v t ty :
  inv_with K ((mem s <$> fields (ty_map ty) v) ++ O) OM s -> types s !! t = Some ty -> n <= gchalt s ->
  exists s', freeptrs d v t (plus K s) = Ok tt (plus K s') /\ inv_with K O OM s' /\ frees K s s'.
Proof.
  intros I Hty Hn. unfold freeptrs. rewrite (bind_ok _ _ ty (plus K s) (plus K s)) by (by apply type_at_ok).
  apply destroy_list; [|done]. eapply tokens_perm; [|exact I]. by rewrite free_fields_perm.
Qed.
Lemma freeptrs_list K O OM (f : nat -> Z) l s t ty :
  inv_with K ((mem s <$> (l ≫= fun i => fields (ty_map ty) (f i))) ++ O) OM s -> types s !! t = Some ty -> n <= gchalt s ->
  exists s', for_all (fun i => freeptrs d (f i) t) l (plus K s) = Ok tt (plus K s') /\ inv_with K O OM s' /\ frees K s s'.
Proof.
  revert s ty. induction l as [|i l IH]; intros s ty I Hty Hn; cbn [for_all]; [exists s; split; [done|]; split; [done|apply frees_refl]|].
  cbn [mbind list_bind] in I. rewrite fmap_app, <- app_assoc in I. destruct (freeptrs_ok K _ OM s (f i) t ty I Hty Hn) as (s1 & E1 & I1 & F1).
  rewrite (bind_ok _ _ _ _ _ E1). destruct (types_eq_get _ _ _ ty (fr_types _ _ _ F1) Hty) as (ty' & Hty' & _ & _ & _ & Emap).
  destruct (IH s1 ty') as (s2 & E2 & I2 & F2); [by rewrite (fr_mem _ _ _ F1), Emap|done|by rewrite (fr_halt _ _ _ F1)|].
  exists s2. split; [done|]. split; [done|]. by apply (frees_trans K s s1).
Qed.

Lemma freearray_ok K O OM s h :
  inv_with K ((mem s <$> (if mem s (H2D h + 16) =? H then elem_slots (mem s) (types s) (H2D h) else [H2D h + 16])) ++ O) OM s ->
  is_Some (types s !! mem s (H2D h + 8)) -> n <= gchalt s ->
  exists s', freearray d h false (plus K s) = Ok tt (plus K s') /\ inv_with K O OM s' /\ frees K s s'.
Proof.
  intros I [ty Hty] Hn. unfold freearray. set (a := H2D h) in *. rewrite (bind_ok _ _ (mem s (a + 8)) (plus K s) (plus K s)) by done.
  pose proof (proj1 (ct_types _ _ _ (iw_counted _ _ _ _ I) _ ty Hty)) as Ht0.
  assert (H1 : exists s1, (root ← word (a + 16); if negb (root =? H) then d root
     else data ← word (a + 24); len ← word a; ty ← type_at (mem s (a + 8));
       for_all (fun i => freeptrs d (data + Z.of_nat i * ty_size ty) (mem s (a + 8))) (seq 0 (Z.to_nat len))) (plus K s) = Ok tt (plus K s1) /\
     inv_with K O OM s1 /\ frees K s s1).
  { rewrite (bind_ok _ _ (mem s (a + 16)) (plus K s) (plus K s)) by done. destruct (mem s (a + 16) =? H); cbn [negb].
    - rewrite (bind_ok _ _ (mem s (a + 24)) (plus K s) (plus K s)) by done. rewrite (bind_ok _ _ (mem s a) (plus K s) (plus K s)) by done.
      rewrite (bind_ok _ _ ty (plus K s) (plus K s)) by (by apply type_at_ok). apply (freeptrs_list K O OM) with (ty := ty); [|done|done].
      unfold elem_slots, map_of in I. rewrite Hty in I. by destruct (Z.eqb_spec (mem s (a + 8)) 0).
    - by apply Hd. }
  destruct H1 as (s1 & E1 & I1 & F1). rewrite (bind_ok _ _ _ _ _ E1).
  destruct (freetype_step K O OM s1 (mem s (a + 8)) I1) as (s2 & E2 & I2 & F2 & _). exists s2. split; [done|]. split; [done|].
  by apply (frees_trans K s s1).
Qed.
End Free.

Lemma count_pos m l : m ∈ l -> (0 < count m l)%nat.
Proof.
  intros Hm. unfold count. assert (Hin : m ∈ filter (fun v => v = m) l) by (by apply list_elem_of_filter).
  destruct (filter _ l); [by apply elem_of_nil in Hin|cbn; lia].
Qed.
Lemma find_module (ms : list Module) m : m ∈ m_addr <$> ms ->
  exists md, find (fun md => m_addr md =? m) ms = Some md /\ md ∈ ms /\ m_addr md = m.
Proof.
  intros (md & -> & Hin)%list_elem_of_fmap. destruct (find (fun x => m_addr x =? m_addr md) ms) as [x|] eqn:E.
  - apply find_some in E as [H1 H2]. exists x. split; [done|]. split; [by apply list_elem_of_In|lia].
  - exfalso. apply list_elem_of_In in Hin. pose proof (find_none _ _ E md Hin) as Hf. cbn in Hf. lia.
Qed.

(** A change of the modules' counts. *)
Definition rerefs (m r : Z) : list Module -> list Module :=
  fmap (fun md => if m_addr md =? m then mkModule m r (m_origmp md) else md).
Lemma rerefs_addrs m r ms : m_addr <$> rerefs m r ms = m_addr <$> ms.
Proof. unfold rerefs. rewrite <- list_fmap_compose. apply list_fmap_ext. intros i md _. cbn. destruct (Z.eqb_spec (m_addr md) m); [subst|]; done. Qed.
Lemma rerefs_origmps m r ms : m_origmp <$> rerefs m r ms = m_origmp <$> ms.
Proof. unfold rerefs. rewrite <- list_fmap_compose. apply list_fmap_ext. intros i md _. cbn. by destruct (m_addr md =? m). Qed.

Lemma shrinks_modules K O OM s f :
  inv_with K O OM s -> (forall v, v ∈ m_origmp <$> f (modules s) -> v ∈ m_origmp <$> modules s) -> shrinks s (with_modules f s).
Proof.
  intros [T R P C] Hf. split; try done; [eauto|]. intros x Hx. destruct (gone_none s T R x Hx) as [G1 G2]. split; [|intros b Hb _; by apply G2].
  intros Hr. apply G1. unfold roots in *. rewrite !elem_of_app in *. destruct Hr as [?|[Hr|?]]; [by left| |by right; right]. right. left.
  apply list_elem_of_fmap in Hr as (v & -> & Hv). apply list_elem_of_fmap_2. apply list_elem_of_bind in Hv as (y & Hv & Hy). apply list_elem_of_bind.
  exists y. split; [done|]. by apply Hf.
Qed.
Lemma modules_ok K O O' OM OM' s f :
  inv_with K O OM s -> (forall v, v ∈ m_origmp <$> f (modules s) -> v ∈ m_origmp <$> modules s) ->
  (forall x, (refs_to x (O' ++ (m_origmp <$> f (modules s))) <= refs_to x (O ++ (m_origmp <$> modules s)))%nat) ->
  (forall v, v ∈ O' -> v = H \/ kept s (D2H v)) ->
  (forall md, md ∈ f (modules s) -> Z.of_nat (count (m_addr md) (OM' ++ mod_owners s)) <= m_ref md) ->
  (forall m, m ∈ OM' ++ mod_owners s -> m ∈ m_addr <$> f (modules s)) -> NoDup (m_addr <$> f (modules s)) ->
  inv_with K O' OM' (with_modules f s) /\ frees K s (with_modules f s).
Proof.
  intros I Hf Hc Hk Hm Hi Hn. pose proof (shrinks_modules K O OM s f I Hf) as Sh. destruct I as [T R P C].
  destruct (shrink_tri _ _ Sh T R) as [T' R']. split; [|by split; try done; eauto]. split; [done|done| |].
  - apply (pool_same K K s); try done. apply (iv_apart _ _ P).
  - apply (shrink_counted _ _ Sh O OM); try done; [|apply (ct_halt _ _ _ C)].
    intros h hd Hh. pose proof (ct_refs _ _ _ C h hd Hh) as Hr. specialize (Hc h). unfold owners, held in *. rewrite !refs_to_app in *.
    change (origmps (with_modules f s)) with (m_origmp <$> f (modules s)). change (origmps s) with (m_origmp <$> modules s) in Hr.
    change (links (with_modules f s)) with (links s). change (ptrtab (with_modules f s)) with (ptrtab s).
    change (mem (with_modules f s)) with (mem s). change (frame_slots (with_modules f s)) with (frame_slots s).
    change (block_slots (with_modules f s)) with (block_slots s). lia.
Qed.

(** A module and the others. *)
Lemma modules_split (l : list Module) m md : md ∈ l -> m_addr md = m -> NoDup (m_addr <$> l) ->
  l ≡ₚ md :: filter (fun x : Module => m_addr x <> m) l.
Proof.
  intros Hin E1 Hnd. induction l as [|x l IH]; [by apply elem_of_nil in Hin|].
  rewrite fmap_cons in Hnd. apply list.NoDup_cons in Hnd as [Hx Hnd]. apply elem_of_cons in Hin as [<-|Hin].
  - rewrite filter_cons_False by (intros Hf; by apply Hf). rewrite filter_every; [done|]. intros y Hy E. apply Hx. rewrite E1, <- E. by apply list_elem_of_fmap_2.
  - rewrite filter_cons_True by (intros E; apply Hx; rewrite E, <- E1; by apply list_elem_of_fmap_2). rewrite (IH Hin Hnd) at 1. apply perm_swap.
Qed.
Lemma unload_ok d n K O OM m s :
  destroys d n -> inv_with K O (m :: OM) s -> n <= gchalt s ->
  exists s', unload d m (plus K s) = Ok tt (plus K s') /\ inv_with K O OM s' /\ frees K s s'.
Proof.
  intros Hd I Hn. pose proof (iw_counted _ _ _ _ I) as C. destruct (find_module (modules s) m) as (md & Ef & Hmd & Ea).
  { apply (ct_mod_in _ _ _ C). constructor. }
  assert (Hc : Z.of_nat (count m (OM ++ mod_owners s)) + 1 <= m_ref md).
  { pose proof (ct_mods _ _ _ C md Hmd) as Hc. rewrite Ea in Hc. unfold count in *. cbn [app] in Hc. rewrite filter_cons_True in Hc by done. cbn [length] in Hc. lia. }
  unfold unload. rewrite (bind_ok _ _ (modules s) (plus K s) (plus K s)) by done. rewrite (bind_ok _ _ md (plus K s) (plus K s)) by (by rewrite Ef).
  set (r := m_ref md - 1). set (s1 := with_modules (rerefs m r) s). rewrite (bind_ok _ _ tt (plus K s) (plus K s1)) by done.
  assert (Hother : forall x, x ∈ modules s -> m_addr x <> m -> Z.of_nat (count (m_addr x) (OM ++ mod_owners s)) <= m_ref x).
  { intros x Hx Hxn. pose proof (ct_mods _ _ _ C x Hx) as Hcx. unfold count in Hcx. cbn [app] in Hcx. by rewrite filter_cons_False in Hcx by done. }
  destruct (modules_ok K O O (m :: OM) OM s (rerefs m r) I) as [I1 F1].
  { intros v. by rewrite rerefs_origmps. }
  { intros x. by rewrite rerefs_origmps. }
  { apply C. }
  { intros x Hx. apply list_elem_of_fmap in Hx as (y & -> & Hy). destruct (Z.eqb_spec (m_addr y) m) as [E|E]; [change (Z.of_nat (count m (OM ++ mod_owners s)) <= r); unfold r; lia|by apply Hother]. }
  { intros x Hx. rewrite rerefs_addrs. apply (ct_mod_in _ _ _ C). by right. }
  { rewrite rerefs_addrs. apply C. }
  fold s1 in I1, F1. destruct (Z.ltb_spec 0 r) as [Hr|Hr]; [by exists s1|]. destruct (Z.eqb_spec r (-1)) as [Hr1|Hr1]; [lia|].
  (* the last link: the module goes *)
  set (md1 := mkModule m r (m_origmp md)). set (f := filter (fun x : Module => m_addr x <> m)).
  assert (Hm0 : count m (OM ++ mod_owners s) = 0%nat) by lia.
  assert (Hperm : modules s1 ≡ₚ md1 :: f (modules s1)).
  { apply modules_split; [apply list_elem_of_fmap; exists md; by rewrite Ea, Z.eqb_refl|done|].
    change (modules s1) with (rerefs m r (modules s)). rewrite rerefs_addrs. apply C. }
  set (s2 := with_modules f s1). rewrite (bind_ok _ _ tt (plus K s1) (plus K s2)) by done.
  destruct (modules_ok K O (m_origmp md :: O) OM OM s1 f I1) as [I2 F2].
  { intros v (x & -> & Hx)%list_elem_of_fmap. apply list_elem_of_filter in Hx as [_ Hx]. by apply list_elem_of_fmap_2. }
  { intros x. assert (E : refs_to x (m_origmp <$> modules s1) = refs_to x (m_origmp <$> md1 :: f (modules s1))) by (by rewrite <- Hperm).
    rewrite fmap_cons in E. cbn [app m_origmp md1] in *. rewrite !refs_to_app, !refs_to_cons, refs_to_app in *. lia. }
  { intros v [->|Hv]%elem_of_cons; [|by apply (ct_tokens _ _ _ (iw_counted _ _ _ _ I1))]. destruct (decide (m_origmp md = H)) as [?|Hmn]; [by left|right].
    apply (shaded_kept s1 _ (iv_colors _ (iw_tri _ _ _ _ I1))), (iw_roots _ _ _ _ I1). apply elem_of_app. right. apply elem_of_app. left.
    apply list_elem_of_fmap_2, list_elem_of_bind. exists (m_origmp md). rewrite elem_not_H. split; [done|].
    change (origmps s1) with (m_origmp <$> rerefs m r (modules s)). rewrite rerefs_origmps. by apply list_elem_of_fmap_2. }
  { intros x Hx. apply list_elem_of_filter in Hx as [Hxn Hx]. by apply (ct_mods _ _ _ (iw_counted _ _ _ _ I1)). }
  { intros x Hx. pose proof (ct_mod_in _ _ _ (iw_counted _ _ _ _ I1) x Hx) as Hx1. apply list_elem_of_fmap in Hx1 as (y & -> & Hy).
    apply list_elem_of_fmap_2, list_elem_of_filter. split; [|done]. intros E. pose proof (count_pos _ _ Hx) as Hpos. rewrite E in Hpos.
    change (mod_owners s1) with (mod_owners s) in Hpos. lia. }
  { pose proof (ct_nodup _ _ _ (iw_counted _ _ _ _ I1)) as Hnd. rewrite Hperm, fmap_cons in Hnd. by apply list.NoDup_cons in Hnd as [_ Hnd]. }
  fold s2 in I2, F2. destruct (Hd K (m_origmp md) O OM s2 I2) as (s3 & E3 & I3 & F3); [done|].
  exists s3. split; [done|]. split; [done|]. by apply (frees_trans K s s2); [apply (frees_trans K s s1)|].
Qed.

(** ** Lists, module links and the free functions *)

Section Freeing.
Context (d : Z -> S unit) (n : Z) (Hd : destroys d n).

Lemma freemodlink_ok K O OM s h :
  inv_with K (mem s (H2D h) :: O) (mem s (H2D h + 8) :: OM) s -> n <= gchalt s ->
  exists s', freemodlink d h false (plus K s) = Ok tt (plus K s') /\ inv_with K O OM s' /\ frees K s s'.
Proof.
  intros I Hn. unfold freemodlink. destruct (Hd K _ _ _ s I Hn) as (s1 & E1 & I1 & F1).
  rewrite (bind_ok _ _ tt (plus K s) (plus K s1)) by (rewrite (bind_ok _ _ (mem s (H2D h)) (plus K s) (plus K s)) by done; exact E1).
  rewrite (bind_ok _ _ (mem s (H2D h + 8)) (plus K s1) (plus K s1)) by (unfold word, gets; cbn; by rewrite (fr_mem _ _ _ F1)).
  destruct (unload_ok d n K O OM (mem s (H2D h + 8)) s1 Hd I1) as (s2 & E2 & I2 & F2); [by rewrite (fr_halt _ _ _ F1)|].
  exists s2. split; [done|]. split; [done|]. by apply (frees_trans K s s1).
Qed.

(** The data of a list cell and its descriptor. *)
Lemma cell_ok K O OM s l :
  inv_with K ((mem s <$> fields (map_of (types s) (mem s (l + 8))) (l + 16)) ++ O) OM s ->
  mem s (l + 8) = 0 \/ is_Some (types s !! mem s (l + 8)) -> n <= gchalt s ->
  exists s', (if mem s (l + 8) =? 0 then mret tt else freeptrs d (l + 16) (mem s (l + 8));; freetype (mem s (l + 8))) (plus K s) =
    Ok tt (plus K s') /\ inv_with K O OM s' /\ frees K s s'.
Proof.
  intros I Ht Hn. unfold map_of in I. destruct (Z.eqb_spec (mem s (l + 8)) 0) as [E|E].
  - exists s. split; [done|]. split; [done|apply frees_refl].
  - destruct Ht as [?|[ty Hty]]; [done|]. rewrite Hty in I.
    destruct (freeptrs_ok d n Hd K O OM s (l + 16) (mem s (l + 8)) ty I Hty Hn) as (s1 & E1 & I1 & F1). rewrite (bind_ok _ _ _ _ _ E1).
    destruct (freetype_step K O OM s1 (mem s (l + 8)) I1) as (s2 & E2 & I2 & F2 & _). exists s2. split; [done|]. split; [done|].
    by apply (frees_trans K s s1).
Qed.

Lemma list_block s v hd ty : heap s !! D2H v = Some hd -> types s !! h_t hd = Some ty -> ty_mark ty = Marklist -> h_t hd <> 0 ->
  block_ok s (D2H v) -> types_wf (types s) -> ty_free ty <> nofree ->
  (mem s (v + 8) = 0 \/ is_Some (types s !! mem s (v + 8))) /\ is_list s (mem s v) /\
  owned (mem s) (types s) (h_t hd) (H2D (D2H v)) = fields (map_of (types s) (mem s (v + 8))) (v + 16) ++ [v] /\
  linked (mem s) (types s) (h_t hd) (D2H v) = [].
Proof.
  intros Hh Hty Hm Hn Hb Hwf Hnf. destruct (Hb hd Hh) as [?|(ty' & Hty' & Hsh)]; [done|]. assert (ty' = ty) as -> by congruence.
  rewrite Hm, H2D_D2H in Hsh. destruct Hsh as [H1 H2]. split; [done|]. split; [done|]. unfold owned, linked.
  destruct (Z.eqb_spec (h_t hd) 0); [done|]. rewrite Hty, Hm, H2D_D2H. split; [done|].
  destruct (Hwf _ ty Hty) as [_ Hf]. destruct (ty_free ty); try done. destruct Hf; congruence.
Qed.

Lemma freelist_loop_ok fuel K O OM s l :
  inv_with K (l :: O) OM s -> is_list s l -> n <= gchalt s -> (size (heap s) <= fuel)%nat ->
  exists s', freelist_loop d fuel l (plus K s) = Ok tt (plus K s') /\ inv_with K O OM s' /\ frees K s s'.
Proof.
  revert O s l. induction fuel as [|fuel IH]; intros O s l I Hl Hn Hf; cbn [freelist_loop]; (destruct (Z.eqb_spec l H) as [E|E];
    [subst l; exists s; split; [done|]; split; [by apply token_H|apply frees_refl]|]);
    (destruct (token_kept K l O OM s I) as [?|Hk]; [done|]); destruct (Hk) as [[hd Hh] _].
  { exfalso. assert (size (heap s) <> 0%nat); [|lia]. intros Hz. apply map_size_empty_iff in Hz. by rewrite Hz in Hh. }
  pose proof (apart _ _ _ _ _ _ I Hh) as HK.
  rewrite (bind_ok _ _ (mem s (l + 8)) (plus K s) (plus K s)) by done. rewrite (bind_ok _ _ hd (plus K s) (plus K s)) by (apply heap_at_ok; by rewrite plus_lookup).
  rewrite (token_ref K l O OM s hd I E Hh). destruct (decr_ok K l O OM s hd I E Hh) as [I1 F1]. set (s1 := counted_down (D2H l) (h_ref hd - 1) s) in *.
  rewrite (bind_ok _ _ tt (plus K s) (plus K s1)) by (unfold set_ref, modify; f_equal; by apply plus_alter).
  destruct (Z.eqb_spec (h_ref hd) 1) as [Er|Er]; cbn [negb]; [|by exists s1].
  (* the cell goes *)
  set (hd1 := mkHeap (h_color hd) (h_ref hd - 1) (h_t hd)).
  assert (Hh1 : heap s1 !! D2H l = Some hd1) by (cbn; by rewrite lookup_alter_eq, Hh).
  assert (Hk1 : kept s1 (D2H l)) by (destruct Hk as [_ Hk2]; split; [by rewrite Hh1|]; unfold white, color in *; by rewrite Hh1, Hh in *).
  destruct (die_ok K O OM s1 (D2H l) hd1 I1 Hh1 Hk1) as [I2 F2]; [cbn; lia|]. set (s2 := with_heap (delete (D2H l)) s1) in *.
  set (K2 := <[D2H l := hd1]> K) in *. rewrite <- (plus_die K (D2H l) hd1 s1 Hh1 HK). fold K2 s2.
  destruct Hl as [?|(hd' & ty & Hh' & Hn0 & Hty & Hm)]; [done|]. assert (hd' = hd) as -> by congruence.
  destruct (iv_typed _ (iw_tri _ _ _ _ I1) _ _ Hh1) as [?|(ty' & Hty' & Hnf)]; [done|]. assert (ty' = ty) as -> by (cbn in Hty'; congruence).
  destruct (list_block s1 l hd1 ty Hh1 Hty' Hm Hn0 (proj1 (iv_closed _ (iw_tri _ _ _ _ I1) _ Hk1)) (ct_types _ _ _ (iw_counted _ _ _ _ I1)) Hnf) as (Hct & Hl1 & Eown & Elink).
  rewrite Eown, Elink in I2. cbn [app] in I2. rewrite fmap_app, <- app_assoc in I2. cbn [fmap list_fmap app] in I2.
  destruct (freetype_step K2 _ OM s2 (h_t hd) I2) as (s3 & E3 & I3 & F3 & _). rewrite (bind_ok _ _ _ _ _ E3).
  assert (M3 : mem s3 = mem s) by by rewrite (fr_mem _ _ _ F3).
  destruct (cell_ok K2 (mem s l :: O) OM s3 l) as (s4 & E4 & I4 & F4).
  { rewrite M3, (map_of_eq _ _ _ (fr_types _ _ _ F3)). exact I3. }
  { rewrite M3. destruct Hct as [?|Hct]; [by left|right]. by apply (types_eq_some (types s2)); [apply F3|]. }
  { by rewrite (fr_halt _ _ _ F3). }
  rewrite M3 in E4. rewrite (bind_ok _ _ _ _ _ E4). assert (F24 : frees K2 s2 s4) by by apply (frees_trans K2 s2 s3).
  assert (M4 : mem s4 = mem s) by by rewrite (fr_mem _ _ _ F24).
  rewrite (bind_ok _ _ (mem s l) (plus K2 s4) (plus K2 s4)) by (unfold word, gets; cbn; by rewrite M4).
  destruct (gone_ok K (mem s l :: O) OM s4 (D2H l) hd1 I4 HK) as (s5 & E5 & I5 & F5 & H5 & _). fold K2 in E5. rewrite (bind_ok _ _ _ _ _ E5).
  assert (F15 : frees K s1 s5).
  { apply (frees_trans K s1 s2); [done|]. apply (frees_trans K s2 s4); [|done].
    apply (frees_sub K K2); [|done]. intros x Hx. unfold K2. destruct (decide (x = D2H l)) as [->|Hne]; [rewrite lookup_insert_eq; eauto|by rewrite lookup_insert_ne]. }
  assert (Fall : frees K s s5) by by apply (frees_trans K s s1).
  destruct (IH O s5 (mem s l) I5) as (s6 & E6 & I6 & F6).
  { apply (list_frees K s1); [done|exact Hl1|by apply (token_kept K _ O OM)]. }
  { by rewrite (fr_halt _ _ _ Fall). }
  { rewrite H5. pose proof (frees_size _ _ _ F24) as Hs4. cbn [s2 with_heap heap] in Hs4. rewrite map_size_delete, Hh1 in Hs4.
    pose proof (frees_size _ _ _ F1). cbn in *. lia. }
  exists s6. split; [done|]. split; [done|]. by apply (frees_trans K s s5).
Qed.
(** The whole of [t->free(h, 0)] for a block that is being freed. *)
Lemma free_ok K O OM s h hd ty :
  inv_with K ((mem s <$> owned (mem s) (types s) (h_t hd) (H2D h)) ++ O) (linked (mem s) (types s) (h_t hd) h ++ OM) s ->
  K !! h = Some hd -> types s !! h_t hd = Some ty -> ty_free ty <> nofree -> shaped s (h_t hd) (H2D h) -> n <= gchalt s ->
  exists s', free d (ty_free ty) h false (plus K s) = Ok tt (plus K s') /\ inv_with K O OM s' /\ frees K s s'.
Proof.
  intros I Hh Hty Hnf (ty' & Hty' & Hsh) Hn. assert (ty' = ty) as -> by congruence. clear Hty'.
  destruct (ct_types _ _ _ (iw_counted _ _ _ _ I) _ ty Hty) as [Ht0 Hwf]. unfold owned, linked in I.
  destruct (Z.eqb_spec (h_t hd) 0); [done|]. rewrite Hty in I.
  destruct (ty_free ty) eqn:Ef; cbn [free]; try done.
  - (* Freeheap *)
    rewrite Hwf in I. unfold map_of in I. destruct (Z.eqb_spec (h_t hd) 0); [done|]. rewrite Hty in I. unfold freeheap.
    rewrite (bind_ok _ _ hd (plus K s) (plus K s)); [by apply (freeptrs_ok d n Hd K O OM) with (ty := ty)|].
    apply heap_at_ok. cbn. by rewrite lookup_union, Hh, union_Some_l.
  - (* Freestring *)
    rewrite Hwf in I. exists s. split; [done|]. split; [done|apply frees_refl].
  - (* Freearray *)
    rewrite Hwf in I, Hsh. apply (freearray_ok d n Hd); [exact I|apply Hsh|done].
  - (* Freelist *)
    rewrite Hwf in I, Hsh. destruct Hsh as [Hct Hl]. unfold freelist. set (l := H2D h) in *.
    cbn [app] in I. rewrite fmap_app, <- app_assoc in I. cbn [fmap list_fmap app] in I.
    destruct (cell_ok K (mem s l :: O) OM s l I Hct Hn) as (s1 & E1 & I1 & F1).
    rewrite (bind_ok _ _ (mem s (l + 8)) (plus K s) (plus K s)) by done. rewrite (bind_ok _ _ _ _ _ E1).
    rewrite (bind_ok _ _ (mem s l) (plus K s1) (plus K s1)) by (unfold word, gets; cbn; by rewrite (fr_mem _ _ _ F1)).
    rewrite (bind_ok _ _ (size (heap (plus K s1))) (plus K s1) (plus K s1)) by done.
    destruct (freelist_loop_ok (size (heap (plus K s1))) K O OM s1 (mem s l) I1) as (s2 & E2 & I2 & F2).
    + apply (list_frees K s); [done|done|by apply (token_kept K _ O OM)].
    + by rewrite (fr_halt _ _ _ F1).
    + rewrite <- !size_dom. apply subseteq_size. intros x Hx%elem_of_dom. apply elem_of_dom. destruct Hx as [y Hy].
      cbn. rewrite lookup_union, Hy. destruct (K !! x); eauto.
    + exists s2. split; [done|]. split; [done|]. by apply (frees_trans K s s1).
  - (* Freemodlink *)
    destruct Hwf as [Hm Hmap]. rewrite Hm in I. unfold map_of in I. destruct (Z.eqb_spec (h_t hd) 0); [done|]. rewrite Hty, Hmap, fields_ptr in I.
    apply freemodlink_ok; [exact I|done].
  - (* Freechan *)
    destruct Hwf as [Hm Hmap]. rewrite Hm in I. unfold map_of in I. destruct (Z.eqb_spec (h_t hd) 0); [done|]. rewrite Hty, Hmap, fields_ptr in I.
    unfold freechan. rewrite (bind_ok _ _ (mem s (H2D h)) (plus K s) (plus K s)) by done. cbn [fmap list_fmap app] in I.
    destruct (Z.eqb_spec (mem s (H2D h)) H) as [E|E]; [|by apply Hd]. exists s. split; [done|]. rewrite E in I. split; [by apply token_H|apply frees_refl].
Qed.
End Freeing.

(** ** destroy *)

Lemma frees_weaken K h hd s s' : frees (<[h := hd]> K) s s' -> frees K s s'.
Proof.
  apply frees_sub. intros x Hx. destruct (decide (x = h)) as [->|Hne]; [rewrite lookup_insert_eq; eauto|by rewrite lookup_insert_ne].
Qed.
Lemma decr_kept s h r : kept s h -> kept (counted_down h r s) h.
Proof.
  intros [Hs Hw]. split; [by apply counted_down_some|]. intros Hw'. apply Hw. unfold white, color in *. cbn in Hw'. rewrite lookup_alter_eq in Hw'.
  by destruct (heap s !! h).
Qed.
Lemma halt_frees K s s' : frees K (with_halt (fun n => n + 1) s) s' -> frees K s (with_halt (fun n => n - 1) s').
Proof. intros [A1 A2 A3 A4 A5 A6 A7 A8 A9 A10 A11]. split; try done. cbn in *. lia. Qed.

(** A block that nothing points to any longer. *)
Lemma release_ok d n K O OM s h hd :
  destroys d n -> n <= gchalt s + 1 -> inv_with K O OM s -> heap s !! h = Some hd -> kept s h -> h_ref hd <= 0 ->
  exists s', ((if h_t hd =? 0 then mret tt
     else gclock;; ty ← type_at (h_t hd); free d (ty_free ty) h false;; gcunlock;; freetype (h_t hd));; poolfree h) (plus K s) =
    Ok tt (plus K s') /\ inv_with K O OM s' /\ frees K s s'.
Proof.
  intros Hd Hn I Hh Hk Hr. pose proof (apart _ _ _ _ _ _ I Hh) as HK. destruct (dead K O OM s h hd I Hh Hr) as (Hdr & Hdp & _).
  destruct (die_ok K O OM s h hd I Hh Hk Hr) as [I1 F1]. set (s1 := with_heap (delete h) s) in *. set (K1 := <[h := hd]> K) in *.
  rewrite <- (plus_die K h hd s Hh HK). fold K1 s1.
  assert (H2 : exists s2, (if h_t hd =? 0 then mret tt
     else gclock;; ty ← type_at (h_t hd); free d (ty_free ty) h false;; gcunlock;; freetype (h_t hd)) (plus K1 s1) = Ok tt (plus K1 s2) /\
     inv_with K1 O OM s2 /\ frees K1 s1 s2).
  { destruct (Z.eqb_spec (h_t hd) 0) as [E|E].
    { exists s1. unfold owned, linked in I1. rewrite E in I1. split; [done|]. split; [done|apply frees_refl]. }
    pose proof (iv_closed _ (iw_tri _ _ _ _ I) h Hk) as [Hb Hp].
    destruct (Hb hd Hh) as [?|Hsh]; [done|]. destruct (iv_typed _ (iw_tri _ _ _ _ I) h hd Hh) as [?|(ty & Hty & Hnf)]; [done|].
    set (s2 := with_halt (fun n => n + 1) s1). rewrite (bind_ok _ _ tt (plus K1 s1) (plus K1 s2)) by done.
    assert (I2 : inv_with K1 ((mem s <$> owned (mem s) (types s) (h_t hd) (H2D h)) ++ O) (linked (mem s) (types s) (h_t hd) h ++ OM) s2).
    { apply halt_step; [done|]. pose proof (ct_halt _ _ _ (iw_counted _ _ _ _ I)) as Hg. cbn. lia. }
    rewrite (bind_ok _ _ ty (plus K1 s2) (plus K1 s2)) by (by apply type_at_ok).
    destruct (free_ok d n Hd K1 O OM s2 h hd ty) as (s3 & E3 & I3 & F3); try done.
    - unfold K1. by rewrite lookup_insert_eq.
    - assert (Sh : shrinks s s1).
      { by apply (hide_shrinks K O OM). }
      assert (Hsh1 : shaped s1 (h_t hd) (H2D h)).
      { apply (sh_shaped s s1 Sh _ _ Hsh). intros v Hv. assert (Hpv : D2H v ∈ points s h).
        { unfold points. rewrite Hh. destruct (Z.eqb_spec (h_t hd) 0); [done|]. by apply list_elem_of_fmap_2. }
        destruct (Hp _ Hpv) as [[hv Hv2] _]. exists hv. cbn. rewrite lookup_delete_ne; [done|]. intros Ev.
        rewrite <- Ev in Hpv. by apply (Hdp h Hk). }
      destruct Hsh1 as (ty1 & G1 & G2). exists ty1. split; [done|]. destruct (ty_mark ty1); done.
    - rewrite (bind_ok _ _ _ _ _ E3). set (s4 := with_halt (fun n => n - 1) s3). rewrite (bind_ok _ _ tt (plus K1 s3) (plus K1 s4)) by done.
      assert (Hg : 0 <= gchalt s3 - 1).
      { rewrite (fr_halt _ _ _ F3). pose proof (ct_halt _ _ _ (iw_counted _ _ _ _ I)) as Hg. cbn. lia. }
      destruct (freetype_step K1 O OM s4 (h_t hd)) as (s5 & E5 & I5 & F5 & _); [by apply halt_step|].
      exists s5. split; [done|]. split; [done|]. apply (frees_trans K1 s1 s4); [by apply halt_frees|done]. }
  destruct H2 as (s2 & E2 & I2 & F2). rewrite (bind_ok _ _ _ _ _ E2).
  destruct (gone_ok K O OM s2 h hd I2 HK) as (s3 & E3 & I3 & F3 & _). exists s3. split; [done|]. split; [done|].
  apply (frees_trans K s s1); [done|]. apply (frees_trans K s1 s2); [by apply (frees_weaken K h hd)|done].
Qed.

Lemma destroy_ok k : destroys (destroy_in (Datatypes.S k)) (65 - Z.of_nat k).
Proof.
  induction k as [k IH] using lt_wf_ind. intros K v O OM s I Hn. cbn [destroy_in]. destruct (Z.eqb_spec v H) as [E|E].
  { subst v. exists s. split; [done|]. split; [by apply token_H|apply frees_refl]. }
  destruct (token_kept K v O OM s I) as [?|Hk]; [done|]. destruct (Hk) as [[hd Hh] _]. pose proof (apart _ _ _ _ _ _ I Hh) as HK.
  rewrite (bind_ok _ _ hd (plus K s) (plus K s)) by (apply heap_at_ok; by rewrite plus_lookup).
  rewrite (token_ref K v O OM s hd I E Hh). destruct (decr_ok K v O OM s hd I E Hh) as [I1 F1]. set (s1 := counted_down (D2H v) (h_ref hd - 1) s) in *.
  rewrite (bind_ok _ _ tt (plus K s) (plus K s1)) by (unfold set_ref, modify; f_equal; by apply plus_alter).
  rewrite (bind_ok _ _ (gchalt s1) (plus K s1) (plus K s1)) by done.
  destruct (Z.ltb_spec 0 (h_ref hd - 1)) as [Hr|Hr]; cbn [orb]; [by exists s1|].
  destruct (Z.ltb_spec 64 (gchalt s1)) as [Hg|Hg]; [by exists s1|].
  change (gchalt s1) with (gchalt s) in Hg.
  set (hd1 := mkHeap (h_color hd) (h_ref hd - 1) (h_t hd)).
  assert (Hh1 : heap s1 !! D2H v = Some hd1) by (cbn; by rewrite lookup_alter_eq, Hh).
  destruct k as [|k]; [lia|].
  destruct (release_ok (destroy_in (Datatypes.S k)) (65 - Z.of_nat k) K O OM s1 (D2H v) hd1) as (s2 & E2 & I2 & F2); try done.
  - apply (IH k). lia.
  - change (gchalt s1) with (gchalt s). lia.
  - by apply decr_kept.
  - exists s2. split; [exact E2|]. split; [done|]. by apply (frees_trans K s s1).
Qed.
