(* ===== verification/GcRun.v ===== *)
(** * A slice of the collector (libinterp/gc.c)

    rungc inspects block after block and, at the end of a walk with nothing left to
    propagate, starts a new epoch. *)

From S2P Require Import Prelude Pool Gc GcMark GcPool GcInv GcFree.

(** ** Inspecting a block *)

(** What a part of a slice does to the rest: the memory, the descriptors and the
    programs stay, and blocks may only go. *)
Record spares (s s' : gcs) : Prop := {
  sp_mem : mem s' = mem s;
  sp_types : types_eq (types s) (types s');
  sp_progs : progs s' = progs s;
  sp_ptrtab : ptrtab s' = ptrtab s;
  sp_origmps : forall v, v ∈ origmps s' -> v ∈ origmps s;
  sp_halt : gchalt s' = gchalt s;
  sp_chain : only_frees (heapmem s) (heapmem s');
  sp_colors : gccolor (vars s') = gccolor (vars s) /\ mutator (vars s') = mutator (vars s) /\ sweeper (vars s') = sweeper (vars s);
  sp_heap : forall h hd', heap s' !! h = Some hd' -> exists hd, heap s !! h = Some hd /\ h_t hd' = h_t hd /\ (white s h <-> white s' h);
}.
Lemma spares_refl s : spares s s.
Proof. split; try done. eauto. Qed.
Lemma spares_trans s1 s2 s3 : spares s1 s2 -> spares s2 s3 -> spares s1 s3.
Proof.
  intros [A1 A2 A3 A4 A5 A6 AC A7 A8] [B1 B2 B3 B4 B5 B6 BC B7 B8]. split; try congruence; auto; try (intuition congruence).
  1: by apply (only_frees_trans _ (heapmem s2)).
  intros h hd3 H3. destruct (B8 h hd3 H3) as (hd2 & H2 & E1 & W1). destruct (A8 h hd2 H2) as (hd1 & H1 & E2 & W2).
  exists hd1. split; [done|]. split; [congruence|]. by rewrite W2.
Qed.
Lemma marks_spares s s' : marks s s' -> spares s s'.
Proof.
  intros M. destruct (mk_roots _ _ M) as (E1 & E2 & E3). split; try done; try apply M; [unfold types_eq; by rewrite (mk_types _ _ M)|unfold origmps; by rewrite E2|unfold heapmem; rewrite (mk_chain _ _ M), (mk_hpst _ _ M); apply only_frees_refl|].
  intros h hd' Hh. pose proof (heads_lookup s s' h (mk_heads _ _ M)) as E. rewrite Hh in E. destruct (heap s !! h) as [hd|]; [|done].
  exists hd. split; [done|]. split; [apply E|]. apply (mk_white _ _ M).
Qed.
Lemma frees_spares K s s' : frees K s s' -> spares s s'.
Proof.
  intros F. split; try apply F; [by rewrite (fr_vars _ _ _ F)|].
  intros h hd' Hh. destruct (fr_heap _ _ _ F h hd' Hh) as (hd & Hd & E1 & E2). exists hd. split; [done|]. split; [done|].
  unfold white, color. rewrite Hh, Hd, (fr_vars _ _ _ F). cbn. by rewrite E2.
Qed.
Lemma spares_none s s' h : spares s s' -> heap s !! h = None -> heap s' !! h = None.
Proof.
  intros S Hh. destruct (heap s' !! h) as [hd'|] eqn:E; [|done]. destruct (sp_heap _ _ S h hd' E) as (hd & Hd & _). congruence.
Qed.
Lemma spares_white s s' h : spares s s' -> white s h -> heap s' !! h = None \/ white s' h.
Proof.
  intros S Hw. destruct (heap s' !! h) as [hd'|] eqn:E; [right|by left]. by destruct (sp_heap _ _ S h hd' E) as (_ & _ & _ & <-).
Qed.

(** Nothing is left to do for the block at the cursor in this pass. *)
Definition passed (s : gcs) : Prop :=
  forall h, is_Some (heap s !! h) -> h - sizeof_Bhdr = ptr s ->
    ~ white s h /\ (nprop (vars s) = 0 -> color s h <> Some propagator).

Lemma remaining_same s s' : base s' = base s -> ptr s' = ptr s -> chain s' = chain s -> remaining s' = remaining s.
Proof. intros E1 E2 E3. unfold remaining. by rewrite E1, E2, E3. Qed.
Lemma marks_remaining s s' : marks s s' -> remaining s' = remaining s.
Proof. intros M. destruct (mk_cursor _ _ M) as (E1 & E2 & _). apply remaining_same; [done|done|apply M]. Qed.
Lemma B2D_eq a : B2D a - sizeof_Bhdr = a.
Proof. unfold B2D. lia. Qed.
Lemma B2D_inj h a : h - sizeof_Bhdr = a -> h = B2D a.
Proof. unfold B2D. lia. Qed.

(** [t->free(h, 1)] *)
Lemma free_swept_ok K O OM s h t ty :
  inv_with K O (linked (mem s) (types s) t h ++ OM) s -> types s !! t = Some ty -> ty_free ty <> nofree ->
  exists s', free destroy (ty_free ty) h true (plus K s) = Ok tt (plus K s') /\ inv_with K O OM s' /\ frees K s s'.
Proof.
  intros I Hty Hnf. destruct (ct_types _ _ _ (iw_counted _ _ _ _ I) _ ty Hty) as [Ht0 _]. unfold linked in I.
  destruct (Z.eqb_spec t 0); [done|]. rewrite Hty in I. pose proof (ct_halt _ _ _ (iw_counted _ _ _ _ I)) as Hg.
  assert (Hft : forall a, inv_with K O OM s -> exists s', (x ← word a; freetype x) (plus K s) = Ok tt (plus K s') /\ inv_with K O OM s' /\ frees K s s').
  { intros a Ia. rewrite (bind_ok _ _ (mem s a) (plus K s) (plus K s)) by done.
    destruct (freetype_step K O OM s (mem s a) Ia) as (s' & E' & I' & F' & _). eauto. }
  destruct (ty_free ty) eqn:Ef; cbn [free]; try done; try (exists s; split; [done|]; split; [exact I|apply frees_refl]).
  - unfold freearray. rewrite (bind_ok _ _ (mem s (H2D h + 8)) (plus K s) (plus K s)) by done. rewrite (bind_ok _ _ tt (plus K s) (plus K s)) by done.
    by apply (Hft (H2D h + 8)).
  - unfold freelist. rewrite (bind_ok _ _ (mem s (H2D h + 8)) (plus K s) (plus K s)) by done.
    destruct (Z.eqb_spec (mem s (H2D h + 8)) 0) as [E|E]; [exists s; split; [done|]; split; [exact I|apply frees_refl]|].
    destruct (freetype_step K O OM s (mem s (H2D h + 8)) I) as (s' & E' & I' & F' & _). exists s'. split; [|done].
    rewrite (bind_ok _ _ tt (plus K s) (plus K s')); [done|]. by rewrite (bind_ok _ _ tt (plus K s) (plus K s)).
  - unfold freemodlink. rewrite (bind_ok _ _ tt (plus K s) (plus K s)) by done.
    rewrite (bind_ok _ _ (mem s (H2D h + 8)) (plus K s) (plus K s)) by done.
    apply (unload_ok destroy 0 K O OM); [apply (destroy_ok 65)|exact I|done].
Qed.

(** What the sweeper does with a block. *)
Lemma sweep_ok s h hd :
  inv s -> heap s !! h = Some hd -> white s h ->
  exists s', ((if h_t hd =? 0 then mret tt
     else gclock;; ty ← type_at (h_t hd); free destroy (ty_free ty) h true;; gcunlock;; freetype (h_t hd));; poolfree h) s = Ok tt s' /\
    inv s' /\ frees ∅ s s' /\ (ptr s = h - sizeof_Bhdr -> forall x, is_Some (heap s' !! x) -> x - sizeof_Bhdr <> ptr s').
Proof.
  intros I Hh Hw. destruct (white_ok ∅ [] s h hd I Hh Hw) as [I1 F1]. set (s1 := with_heap (delete h) s) in *. set (K1 := <[h := hd]> ∅) in *.
  assert (Es : plus K1 s1 = s) by (unfold K1, s1; rewrite plus_die by done; apply plus_empty).
  match goal with |- exists s', ?c s = _ /\ _ => replace (c s) with (c (plus K1 s1)) by (by rewrite Es) end.
  assert (H2 : exists s2, (if h_t hd =? 0 then mret tt
     else gclock;; ty ← type_at (h_t hd); free destroy (ty_free ty) h true;; gcunlock;; freetype (h_t hd)) (plus K1 s1) = Ok tt (plus K1 s2) /\
     inv_with K1 [] [] s2 /\ frees K1 s1 s2).
  { destruct (Z.eqb_spec (h_t hd) 0) as [E|E].
    { exists s1. unfold linked in I1. rewrite E in I1. split; [done|]. split; [done|apply frees_refl]. }
    destruct (iv_typed _ (iw_tri _ _ _ _ I) h hd Hh) as [?|(ty & Hty & Hnf)]; [done|].
    set (s2 := with_halt (fun n => n + 1) s1). rewrite (bind_ok _ _ tt (plus K1 s1) (plus K1 s2)) by done.
    assert (I2 : inv_with K1 [] (linked (mem s) (types s) (h_t hd) h ++ []) s2).
    { apply halt_step; [done|]. pose proof (ct_halt _ _ _ (iw_counted _ _ _ _ I)) as Hg. cbn. lia. }
    rewrite (bind_ok _ _ ty (plus K1 s2) (plus K1 s2)) by (by apply type_at_ok).
    destruct (free_swept_ok K1 [] [] s2 h (h_t hd) ty I2 Hty Hnf) as (s3 & E3 & I3 & F3). rewrite (bind_ok _ _ _ _ _ E3).
    set (s4 := with_halt (fun n => n - 1) s3). rewrite (bind_ok _ _ tt (plus K1 s3) (plus K1 s4)) by done.
    assert (Hg : 0 <= gchalt s3 - 1).
    { rewrite (fr_halt _ _ _ F3). pose proof (ct_halt _ _ _ (iw_counted _ _ _ _ I)) as Hg. cbn. lia. }
    destruct (freetype_step K1 [] [] s4 (h_t hd)) as (s5 & E5 & I5 & F5 & _); [by apply halt_step|].
    exists s5. split; [done|]. split; [done|]. apply (frees_trans K1 s1 s4); [by apply halt_frees|done]. }
  destruct H2 as (s2 & E2 & I2 & F2). rewrite (bind_ok _ _ _ _ _ E2).
  destruct (gone_ok ∅ [] [] s2 h hd I2) as (s3 & E3 & I3 & F3 & H3 & _ & P3); [apply lookup_empty|]. exists s3.
  split; [by rewrite plus_empty in E3|]. split; [done|]. split.
  - apply (frees_trans ∅ s s1); [done|]. apply (frees_trans ∅ s1 s2); [by apply (frees_weaken ∅ h hd)|done].
  - intros Ep. apply P3. rewrite (fr_ptr _ _ _ F2 h); [done| |done]. unfold K1. rewrite lookup_insert_eq. eauto.
Qed.

Lemma blocks_in s h : inv s -> is_Some (heap s !! h) <->
  exists b, b ∈ concat (chain s) /\ b_magic b = MAGIC_A /\ b_addr b = h - sizeof_Bhdr.
Proof.
  intros I. rewrite <- (iv_blocks _ _ (iw_pool _ _ _ _ I) h), lookup_empty. split; [by left|]. intros [?|[? ?]]; done.
Qed.
Lemma block_block s b : inv s -> b ∈ concat (chain s) -> b_magic b = MAGIC_A -> exists hd, heap s !! B2D (b_addr b) = Some hd.
Proof.
  intros I Hb Hm. destruct (proj2 (blocks_in s (B2D (b_addr b)) I)) as [hd Hd]; [|eauto].
  exists b. split; [done|]. split; [done|]. by rewrite B2D_eq.
Qed.

Lemma inspect_ok s b :
  inv s -> b ∈ concat (chain s) -> b_magic b = MAGIC_A -> b_addr b = ptr s ->
  exists s', inspect (B2D (ptr s)) s = Ok tt s' /\ inv s' /\ spares s s' /\ passed s' /\ base s' = base s /\ (remaining s' <= remaining s)%nat.
Proof.
  intros I Hb Hm Ha. unfold inspect. rewrite (bind_ok _ _ (visit (vars s)) s s) by done.
  set (s1 := with_vars (put_visit (visit (vars s) - 1)) s). rewrite (bind_ok _ _ tt s s1) by done.
  rewrite (bind_ok _ _ (gce (vars s)) s1 s1) by done. rewrite (bind_ok _ _ (gct (vars s)) s1 s1) by done.
  set (e := gce (vars s)). set (t := gct (vars s)). set (s2 := with_vars (put_gce e (t + 1)) s1). rewrite (bind_ok _ _ tt s1 s2) by done.
  assert (M2 : marks s s2) by (apply (marks_trans s s1); apply vars_marks; try done; cbn; lia).
  set (h := B2D (ptr s)). destruct (block_block s b I Hb Hm) as [hd Hhd]. rewrite Ha in Hhd. fold h in Hhd.
  rewrite (bind_ok _ _ hd s2 s2) by (apply heap_at_ok, Hhd).
  assert (Hcol : color s h = Some (h_color hd)) by (unfold color; by rewrite Hhd).
  assert (Hpass : forall s', ptr s' = ptr s -> ~ white s' h -> (nprop (vars s') = 0 -> color s' h <> Some propagator) -> passed s').
  { intros s' Ep Hw Hg x _ Hx. rewrite Ep in Hx. apply B2D_inj in Hx as ->. done. }
  assert (Hvar : forall g, gccolor (g (vars s2)) = gccolor (vars s2) -> mutator (g (vars s2)) = mutator (vars s2) ->
    sweeper (g (vars s2)) = sweeper (vars s2) -> nprop (g (vars s2)) = nprop (vars s2) ->
    quanta (g (vars s2)) = quanta (vars s2) -> visit (g (vars s2)) <= visit (vars s2) -> marks s (with_vars g s2) /\ inv (with_vars g s2)).
  { intros g E1 E2 E3 E4 E5 E6. assert (M : marks s (with_vars g s2)) by (apply (marks_trans s s2); [done|by apply vars_marks]).
    split; [done|by apply (marks_inv ∅ [] [] s)]. }
  destruct (Z.eqb_spec (h_color hd) propagator) as [Ep|Ep].
  - set (s3 := with_vars (put_gce (e - 1) (t + 1)) s2). rewrite (bind_ok _ _ tt s2 s3) by done.
    destruct (Hvar (put_gce (e - 1) (t + 1))) as [M3 I3]; try done. fold s3 in M3, I3.
    destruct (blacken_ok (mark maxdepth) s3 h hd) as (s4 & E4 & M4 & G4); [apply mark_ok| |done|done|].
    { split; apply (iw_tri _ _ _ _ I3). }
    exists s4. split; [done|]. assert (M : marks s s4) by by apply (marks_trans s s3).
    split; [by apply (marks_inv ∅ [] [] s)|]. split; [by apply marks_spares|]. destruct (mk_cursor _ _ M) as (B1 & B2 & B3).
    split; [|split; [done|by rewrite (marks_remaining s s4 M)]]. apply Hpass; [done| |done].
    intros Hw. apply (mk_white _ _ M) in Hw. unfold white in Hw. rewrite Hcol in Hw. injection Hw as Hw.
    destruct (iv_colors _ (iw_tri _ _ _ _ I)) as (_ & Hr & _). unfold propagator in Ep. lia.
  - rewrite (bind_ok _ _ (sweeper (vars s)) s2 s2) by done. destruct (Z.eqb_spec (h_color hd) (sweeper (vars s))) as [Es|Es].
    + set (s3 := with_vars (put_gce (e + 1) (t + 1)) s2). rewrite (bind_ok _ _ tt s2 s3) by done.
      destruct (Hvar (put_gce (e + 1) (t + 1))) as [M3 I3]; try done. fold s3 in M3, I3.
      destruct (sweep_ok s3 h hd I3 Hhd) as (s4 & E4 & I4 & F4 & P4); [unfold white; change (color s3 h) with (color s h); by rewrite Hcol, Es|].
      exists s4. split; [done|]. split; [done|]. split; [apply (spares_trans s s3); [by apply marks_spares|by apply (frees_spares ∅)]|].
      split; [|split; [by destruct (fr_base _ _ _ F4) as [-> _]|]].
      * intros x Hx Ex. exfalso. apply (P4 ltac:(cbn; unfold h; by rewrite B2D_eq) x Hx Ex).
      * pose proof (fr_remaining _ _ _ F4) as R4. by rewrite (marks_remaining s s3 M3) in R4.
    + exists s2. split; [done|]. split; [by apply (marks_inv ∅ [] [] s)|]. split; [by apply marks_spares|].
      split; [|split; [done|by rewrite (marks_remaining s s2 M2)]]. apply Hpass; [done| |].
      * unfold white. change (color s2 h) with (color s h). rewrite Hcol. by intros [= ?].
      * intros _. change (color s2 h) with (color s h). rewrite Hcol. by intros [= ?].
Qed.

(** In use and either white or, when the epoch is ending, grey. *)
Definition pending (s : gcs) (h : Z) : Prop :=
  is_Some (heap s !! h) /\ (white s h \/ nprop (vars s) = 0 /\ color s h = Some propagator).

Lemma white_pending s h : white s h -> pending s h.
Proof. intros Hw. split; [|by left]. apply color_some. unfold white in Hw. rewrite Hw. eauto. Qed.
Lemma grey_pending s h : nprop (vars s) = 0 -> color s h = Some propagator -> pending s h.
Proof. intros Hn Hg. split; [|by right]. apply color_some. rewrite Hg. eauto. Qed.

(** The cursor elsewhere. *)
Lemma moved_inv s b p l :
  inv s -> cursor_ok (with_cursor b p l s) ->
  (forall h, pending s h -> ahead (with_cursor b p l s) (h - sizeof_Bhdr)) ->
  inv (with_cursor b p l s) /\ spares s (with_cursor b p l s).
Proof.
  intros [T R [I10 I11 I12 I13 I14 I15 I16] C] Hc Ha. split; [split; [by destruct T; split|exact R| |by destruct C; split]|].
  - split; try assumption; [|intros h Hh; by apply Ha, white_pending]. intros E h Hh. by apply Ha, grey_pending.
  - split; try done. intros h hd' Hh. by exists hd'.
Qed.
Lemma start_arena_ok s pre l rest :
  inv s -> chain s = pre ++ l :: rest ->
  exists b, start_arena l s = Ok tt (with_cursor (Some b) b (arena_limit l) s) /\
    cursor_ok (with_cursor (Some b) b (arena_limit l) s) /\
    (forall x, x ∈ concat (l :: rest) -> b_magic x = MAGIC_A -> ahead (with_cursor (Some b) b (arena_limit l) s) (b_addr x)) /\
    (remaining (with_cursor (Some b) b (arena_limit l) s) <= length (concat (l :: rest)))%nat.
Proof.
  intros I E. destruct (iv_chain _ _ (iw_pool _ _ _ _ I)) as [Hok Hnd]. rewrite E in Hok, Hnd.
  assert (Hl : arena_ok l) by (apply Forall_app in Hok as [_ Hok]; by apply Forall_cons_iff in Hok as [Hok _]).
  destruct (arena_first l Hl) as (x & l' & -> & Hlt & Hle). exists (b_addr x).
  pose proof (from_arena_at pre x l' rest Hnd) as Hfa. rewrite <- E in Hfa. split; [done|]. split; [|split].
  - exists (x :: l'), rest. split; [done|]. split; [|done].
    change (b_addr x ∈ addrs (x :: l')). apply list_elem_of_fmap_2. constructor.
  - intros y Hy Hm. exists (x :: l'), rest. split; [done|]. cbn [concat] in Hy. apply elem_of_app in Hy as [Hy|Hy].
    + left. split; [by apply list_elem_of_fmap_2|]. split; [by apply Hle|]. cbn [limit with_cursor].
      destruct (Z.lt_ge_cases (b_addr y) (arena_limit (x :: l'))) as [?|Hge]; [done|]. pose proof (arena_top _ y Hl Hy Hge). congruence.
    + right. by apply list_elem_of_fmap_2.
  - unfold remaining. cbn [base chain ptr with_cursor]. rewrite Hfa. cbn [concat]. rewrite length_app.
    pose proof (length_filter (fun y => (b_addr x <= b_addr y)%Z) (x :: l')). lia.
Qed.

(** The walk is over, and it leaves nothing behind it. *)
Record finished (s : gcs) : Prop := {
  fi_base : base s = None;
  fi_white : forall h, ~ white s h;
  fi_grey : nprop (vars s) = 0 -> forall h, color s h <> Some propagator;
}.

(** What is pending is past the block at the cursor, in its arena or in those
    that follow. *)
Lemma past_cursor s bs l rest b y :
  inv s -> passed s -> base s = Some bs -> from_arena (chain s) bs = l :: rest -> b_addr b = ptr s ->
  (forall x, x ∈ l -> ptr s <= b_addr x -> b_addr x = ptr s \/ b_addr y <= b_addr x) ->
  forall h, pending s h -> exists x, b_addr x = h - sizeof_Bhdr /\ b_magic x = MAGIC_A /\ (x ∈ l /\ b_addr y <= b_addr x < limit s \/ x ∈ concat rest).
Proof.
  intros I Hpass Eb Hfa Ebp Hnext h [Hh Hc]. destruct (proj1 (blocks_in s h I) Hh) as (x & Hx & Hm & Ex). pose proof (iw_pool _ _ _ _ I) as C. exists x. split; [done|]. split; [done|].
  destruct (from_arena_suffix _ _ _ _ Hfa) as [pre Ech].
  assert (Hah : ahead s (b_addr x)).
  { rewrite Ex. destruct Hc as [Hw|[Hn Hg]]; [by apply (iv_white _ _ C)|by apply (iv_grey _ _ C)]. }
  unfold ahead in Hah. rewrite Eb in Hah. destruct Hah as (l2 & rest2 & Hfa2 & Hah). rewrite Hfa in Hfa2. injection Hfa2 as <- <-.
  assert (Hsame : forall x', x' ∈ l \/ x' ∈ concat rest -> b_addr x = b_addr x' -> x = x').
  { intros x' Hx' E. apply (same_addr (chain s)); [apply (iv_chain _ _ C)|done| |done].
    rewrite Ech, concat_app. cbn [concat]. rewrite !elem_of_app. tauto. }
  destruct Hah as [[H1 H2]|H1]; apply list_elem_of_fmap in H1 as (x' & Ex' & Hx'); rewrite <- (Hsame x') in Hx' by auto; [|by right].
  left. split; [done|]. destruct (Hnext x Hx' (proj1 H2)) as [E|?]; [|by split; [|apply H2]]. exfalso.
  destruct (Hpass h Hh) as [P1 P2]; [lia|]. destruct Hc as [Hw|[H3 H4]]; [by apply P1|by apply (P2 H3)].
Qed.

Lemma advance_ok s :
  inv s -> passed s -> base s <> None ->
  exists more s', advance s = Ok more s' /\ inv s' /\ spares s s' /\ vars s' = vars s /\
    if (more : bool) then base s' <> None /\ (remaining s' < remaining s)%nat else finished s'.
Proof.
  intros I Hpass Hb. pose proof (iw_pool _ _ _ _ I) as C. pose proof (iv_cursor _ _ C) as Hcur. unfold cursor_ok in Hcur.
  destruct (base s) as [bs|] eqn:Eb; [clear Hb|done]. destruct Hcur as (l & rest & Hfa & Hp & Hlt & Hlim).
  destruct (from_arena_suffix _ _ _ _ Hfa) as [pre Ech]. pose proof (iv_chain _ _ C) as [Hok Hnd].
  assert (Hl : arena_ok l) by (rewrite Ech in Hok; apply Forall_app in Hok as [_ Hok]; by apply Forall_cons_iff in Hok as [Hok _]).
  destruct (arena_next l (ptr s) Hl Hp ltac:(lia)) as (b & y & Hbl & Hyl & Ebp & Hsz & Ey & Hylim & Hnext).
  assert (Hblk : block_at (ptr s) s = Ok b s).
  { rewrite <- Ebp. apply find_block; [done|]. apply (elem_concat b l); [done|]. rewrite Ech. apply elem_of_app. right. constructor. }
  pose proof (past_cursor s bs l rest b y I Hpass Eb Hfa Ebp Hnext) as Hpast.
  unfold advance. rewrite (bind_ok _ _ (ptr s) s s) by done. rewrite (bind_ok _ _ _ _ _ Hblk).
  rewrite (bind_ok _ _ (limit s) s s) by done. rewrite (bind_ok _ _ (base s) s s) by done. rewrite Ebp, Ey in *.
  assert (Hrem : remaining s = (length (filter (fun x => (ptr s <= b_addr x)%Z) l) + length (concat rest))%nat) by (unfold remaining; by rewrite Eb, Hfa).
  destruct (Z.ltb_spec (ptr s + b_size b) (limit s)) as [Hin|Hout].
  - (* the next block of the arena *)
    exists true. eexists. split; [reflexivity|]. set (s' := with_cursor (base s) (ptr s + b_size b) (limit s) s).
    destruct (moved_inv s (base s) (ptr s + b_size b) (limit s) I) as [I' S'].
    + unfold cursor_ok. cbn. rewrite Eb. exists l, rest. split; [done|]. split; [rewrite <- Ey; by apply list_elem_of_fmap_2|]. split; [lia|done].
    + intros h Hc. destruct (Hpast h Hc) as (x & Ex & _ & Hx). unfold ahead. cbn. rewrite Eb. exists l, rest. split; [done|].
      rewrite <- Ex. destruct Hx as [[H1 H2]|H1]; [left; split; [by apply list_elem_of_fmap_2|done]|right; by apply list_elem_of_fmap_2].
    + split; [done|]. split; [done|]. split; [done|]. split; [cbn; by rewrite Eb|]. rewrite Hrem. unfold remaining. cbn. rewrite Eb, Hfa.
      apply Nat.add_lt_mono_r. apply (length_filter_sub _ _ l b); [intros; lia|done|lia|lia].
  - (* the end of the arena *)
    assert (Hend : forall h, pending s h -> exists x, b_addr x = h - sizeof_Bhdr /\ b_magic x = MAGIC_A /\ x ∈ concat rest).
    { intros h Hc. destruct (Hpast h Hc) as (x & Ex & Hm & [[Hx Hge]|Hx]); [lia|eauto]. }
    rewrite Eb. rewrite (bind_ok _ _ rest s s) by (unfold gets; by rewrite Hfa).
    destruct rest as [|l2 rest2].
    + exists false. eexists. split; [reflexivity|]. assert (Hno : forall h, ~ pending s h).
      { intros h Hc. destruct (Hend h Hc) as (x & _ & _ & Hx). by apply elem_of_nil in Hx. }
      destruct (moved_inv s None (ptr s + b_size b) (limit s) I) as [I' S']; [done|done|].
      split; [done|]. split; [done|]. split; [done|]. split; [done| |].
      * intros h Hw. by apply (Hno h), white_pending.
      * intros E h Hg. by apply (Hno h), grey_pending.
    + exists true.
      destruct (start_arena_ok s (pre ++ [l]) l2 rest2 I) as (b2 & E2 & C2 & A2 & R2); [by rewrite <- app_assoc|].
      rewrite (bind_ok _ _ _ _ _ E2). eexists. split; [reflexivity|].
      destruct (moved_inv s (Some b2) b2 (arena_limit l2) I C2) as [I' S'].
      { intros h Hc. destruct (Hend h Hc) as (x & <- & Hm & Hx). by apply A2. }
      split; [done|]. split; [done|]. split; [done|]. split; [done|]. rewrite Hrem.
      assert (Hpos : (0 < length (filter (fun x => (ptr s <= b_addr x)%Z) l))%nat).
      { destruct (filter _ l) as [|z zs] eqn:Ef; [|cbn; lia]. exfalso. assert (Hbf : b ∈ filter (fun x => (ptr s <= b_addr x)%Z) l).
        { apply list_elem_of_filter. split; [lia|done]. } rewrite Ef in Hbf. by apply elem_of_nil in Hbf. }
      lia.
Qed.

(** ** The walk *)

Lemma cursor_block s : inv s -> base s <> None ->
  exists b, b ∈ concat (chain s) /\ b_addr b = ptr s /\ block_at (ptr s) s = Ok b s /\ (0 < remaining s)%nat /\
    (remaining s <= length (concat (chain s)))%nat.
Proof.
  intros I Hb. pose proof (iw_pool _ _ _ _ I) as C. pose proof (iv_cursor _ _ C) as Hcur. unfold cursor_ok in Hcur.
  destruct (base s) as [bs|] eqn:Eb; [clear Hb|done]. destruct Hcur as (l & rest & Hfa & Hp & Hlt & Hlim).
  destruct (from_arena_suffix _ _ _ _ Hfa) as [pre Ech]. apply list_elem_of_fmap in Hp as (b & Ep & Hbl).
  assert (Hin : b ∈ concat (chain s)) by (apply (elem_concat b l); [done|]; rewrite Ech; apply elem_of_app; right; constructor).
  exists b. split; [done|]. split; [done|]. split; [rewrite Ep; apply find_block; [apply (iv_chain _ _ C)|done]|].
  unfold remaining. rewrite Eb, Hfa. split.
  - destruct (filter _ l) as [|z zs] eqn:Ef; [|cbn; lia]. exfalso. assert (Hbf : b ∈ filter (fun x => (ptr s <= b_addr x)%Z) l).
    { apply list_elem_of_filter. split; [lia|done]. } rewrite Ef in Hbf. by apply elem_of_nil in Hbf.
  - rewrite Ech, concat_app, length_app. cbn [concat]. rewrite length_app. pose proof (length_filter (fun x => (ptr s <= b_addr x)%Z) l). lia.
Qed.

(** A round of the loop but for the move to the next block. *)
Lemma round_ok s b :
  inv s -> b ∈ concat (chain s) -> b_addr b = ptr s ->
  exists s', (if decide (b_magic b = MAGIC_A) then inspect (B2D (ptr s)) else mret tt) s = Ok tt s' /\
    inv s' /\ spares s s' /\ passed s' /\ base s' = base s /\ (remaining s' <= remaining s)%nat.
Proof.
  intros I Hin Ep. destruct (decide (b_magic b = MAGIC_A)) as [Hm|Hm]; [by apply (inspect_ok s b)|].
  exists s. split; [done|]. split; [done|]. split; [apply spares_refl|]. split; [|done]. intros h Hh Eh. exfalso.
  destruct (proj1 (blocks_in s h I) Hh) as (x & Hx & Hxm & Ex).
  assert (x = b) as -> by (apply (same_addr (chain s)); [apply (iv_chain _ _ (iw_pool _ _ _ _ I))|done|done|congruence]). done.
Qed.

Lemma slice_loop_ok fuel s :
  inv s -> base s <> None -> (remaining s <= fuel)%nat ->
  exists s', slice_loop fuel s = Ok tt s' /\ inv s' /\ spares s s' /\ (base s' = None -> finished s') /\
    (remaining s' <= remaining s)%nat /\ (0 < visit (vars s) -> base s' <> None -> (remaining s' < remaining s)%nat).
Proof.
  revert s. induction fuel as [|fuel IH]; intros s I Hb Hf.
  { destruct (cursor_block s I Hb) as (b & _ & _ & _ & Hpos & _). lia. }
  cbn [slice_loop]. rewrite (bind_ok _ _ (visit (vars s)) s s) by done.
  destruct (Z.ltb_spec 0 (visit (vars s))) as [Hv|Hv]; [|exists s; split; [done|]; split; [done|]; split; [apply spares_refl|]; split; [done|]; lia].
  destruct (cursor_block s I Hb) as (b & Hin & Ep & Hblk & _ & _).
  rewrite (bind_ok _ _ (ptr s) s s) by done. rewrite (bind_ok _ _ _ _ _ Hblk).
  destruct (round_ok s b I Hin Ep) as (s1 & E1 & I1 & S1 & P1 & B1 & R1). rewrite (bind_ok _ _ _ _ _ E1).
  destruct (advance_ok s1 I1 P1) as (more & s2 & E2 & I2 & S2 & V2 & R2); [congruence|].
  rewrite (bind_ok _ _ _ _ _ E2). assert (S12 : spares s s2) by by apply (spares_trans s s1).
  destruct more.
  - destruct R2 as [B2 R2]. destruct (IH s2 I2 B2) as (s3 & E3 & I3 & S3 & F3 & R3 & _); [lia|].
    exists s3. split; [done|]. split; [done|]. split; [by apply (spares_trans s s2)|]. split; [done|]. split; [lia|]. lia.
  - exists s2. split; [done|]. split; [done|]. split; [done|].
    split; [done|]. split; [|intros _ Hn; destruct Hn; apply (fi_base _ R2)]. unfold remaining at 1. rewrite (fi_base _ R2). lia.
Qed.

(** ** The end of an epoch *)

(** All roots and what they lead to have the mutator's colour, so that the blocks
    of the colour before it can be swept. *)
Section Epoch.
Context (s : gcs) (I : inv s) (F : finished s) (Hn : nprop (vars s) = 0).
Let c := gccolor (vars s).
Let s1 := with_vars (fun v => put_colors (gccolor v + 1) (mutator v) (sweeper v) v) s.

Lemma ep_colors h x : color s h = Some x -> x = c mod 3 \/ x = (c - 1) mod 3.
Proof.
  intros Hx. pose proof (iw_tri _ _ _ _ I) as T. destruct F as [Fb Fw Fg].
  pose proof (iv_valid _ T h x Hx). destruct (decide (x = propagator)) as [->|Hp]; [by destruct (Fg Hn h)|].
  destruct (decide (x = (c + 1) mod 3)) as [->|Hx1]; [by destruct (Fw h); apply (iv_next _ T)|]. unfold propagator in Hp.
  revert Hx1. Z.div_mod_to_equations. lia.
Qed.
Lemma ep_shaded h : shaded s h -> color s h = Some (c mod 3).
Proof.
  intros [Hh|Hh]; [unfold is_mutator in Hh; rewrite Hh; f_equal; apply (iv_mutator _ (iw_tri _ _ _ _ I))|]. by destruct (fi_grey _ F Hn h).
Qed.
Lemma ep_white h : white (flipped s1) h <-> color s h = Some ((c - 1) mod 3).
Proof. unfold white. cbn. fold c. replace (c + 1 - 2) with (c - 1) by lia. done. Qed.
Lemma ep_kept h : kept (flipped s1) h <-> color s h = Some (c mod 3).
Proof.
  unfold kept. rewrite ep_white, (color_some (flipped s1)). change (color (flipped s1) h) with (color s h). split.
  - intros [[x Hx] Hnot]. destruct (ep_colors h x Hx) as [->| ->]; [done|by destruct Hnot].
  - intros E. split; [eauto|]. rewrite E. intros [= E']. revert E'. Z.div_mod_to_equations. lia.
Qed.
Lemma ep_was_kept h : kept (flipped s1) h -> kept s h.
Proof.
  intros Hk%ep_kept. apply shaded_kept; [apply (iw_tri _ _ _ _ I)|]. left. unfold is_mutator. by rewrite Hk, (iv_mutator _ (iw_tri _ _ _ _ I)).
Qed.
Lemma ep_tri : tri (flipped s1).
Proof.
  pose proof (iw_tri _ _ _ _ I) as T. split; try apply T.
  - unfold colors_ok. cbn. fold c. Z.div_mod_to_equations. lia.
  - done.
  - intros h Hh. apply ep_white. cbn in Hh. fold c in Hh. change (color s h = Some ((c + 1 + 1) mod 3)) in Hh. rewrite Hh. f_equal.
    Z.div_mod_to_equations. lia.
  - intros h Hh. pose proof (ep_was_kept h Hh) as Hk. apply ep_kept in Hh.
    assert (Hmu : is_mutator s h) by (unfold is_mutator; by rewrite Hh, (iv_mutator _ T)). split; [apply (iv_closed _ T h Hk)|].
    intros x Hx. apply ep_kept, ep_shaded. by apply (iv_black _ T h Hmu).
  - intros h Hh. exfalso. unfold is_mutator in Hh. cbn in Hh. fold c in Hh. change (color s h = Some ((c + 1) mod 3)) in Hh.
    destruct (ep_colors h _ Hh) as [E'|E']; revert E'; Z.div_mod_to_equations; lia.
Qed.
Lemma epoch_ok : exists s', rootset s1 = Ok tt s' /\ inv s' /\ marks (flipped s1) s'.
Proof.
  pose proof I as [T R [P1 P2 P3 P4 P5 P6 P7] [C1 C2 C3 C4 C5 C6 C7 C9 C10 C8]]. pose proof ep_tri as T1. destruct (rootset_ok s1) as (s' & E & M & Hsh).
  - split; apply T1.
  - exact (iv_frames _ T).
  - intros x Hx. apply ep_kept, ep_shaded, R. exact Hx.
  - exists s'. split; [done|]. split; [|done]. split.
    + by apply (marks_tri (flipped s1)).
    + unfold rooted. rewrite (marks_roots _ _ M). exact Hsh.
    + apply (marks_pool ∅ (flipped s1)); [|done]. split; try assumption; intros; unfold ahead; cbn; by rewrite (fi_base _ F).
    + apply (marks_counted [] [] (flipped s1)); [|done]. split; try assumption; [|intros v Hv; by apply elem_of_nil in Hv|].
      { intros h hd Hh. specialize (C1 h hd Hh). pose proof (owners_fewer s (flipped s1) h) as Hle. cbn [app] in *.
        assert (Hwh : forall x, white s x -> is_Some (heap s !! x) -> white (flipped s1) x) by (intros x Hw; by destruct (fi_white _ F x)).
        specialize (Hle eq_refl eq_refl eq_refl eq_refl eq_refl eq_refl Hwh). lia. }
      intros h Hk Ha. apply (C6 h); [by apply ep_was_kept|done].
Qed.
End Epoch.

(** ** A slice *)

(** Over a slice that may end an epoch: the memory and the programs stay, and
    blocks may only go. *)
Record safe (s s' : gcs) : Prop := {
  sf_mem : mem s' = mem s;
  sf_types : types_eq (types s) (types s');
  sf_progs : progs s' = progs s;
  sf_ptrtab : ptrtab s' = ptrtab s;
  sf_origmps : forall v, v ∈ origmps s' -> v ∈ origmps s;
  sf_halt : gchalt s' = gchalt s;
  sf_chain : only_frees (heapmem s) (heapmem s');
  sf_heap : forall h hd', heap s' !! h = Some hd' -> exists hd, heap s !! h = Some hd /\ h_t hd' = h_t hd;
}.
Lemma spares_safe s s' : spares s s' -> safe s s'.
Proof.
  intros S. split; try apply S. intros h hd' Hh. destruct (sp_heap _ _ S h hd' Hh) as (hd & E1 & E2 & _). eauto.
Qed.
(** A change that no block is affected by. *)
Record same_blocks (s s' : gcs) : Prop := {
  sb_mem : mem s' = mem s;
  sb_roots : progs s' = progs s /\ modules s' = modules s /\ ptrtab s' = ptrtab s;
  sb_types : types s' = types s;
  sb_halt : gchalt s' = gchalt s;
  sb_heads : heads s' = heads s;
  sb_chain : heapmem s' = heapmem s;
}.
Lemma safe_same s s1 s2 : safe s s1 -> same_blocks s1 s2 -> safe s s2.
Proof.
  intros [A1 A2 A3 A4 A5 A6 AC A7] [B1 (B2 & B3 & B4) B5 B6 B7 BC]. split; try congruence.
  - unfold origmps in *. rewrite B3. auto.
  - intros h hd2 Hh. pose proof (heads_lookup s1 s2 h B7) as E. rewrite Hh in E.
    destruct (heap s1 !! h) as [hd1|] eqn:E1; [|done]. destruct (A7 h hd1 E1) as (hd & Hd & Et). exists hd. split; [done|].
    destruct E as [_ ->]. done.
Qed.

(** Variables that the walk and the colours do not depend on. *)
Lemma vars_inv s f :
  gccolor (f (vars s)) = gccolor (vars s) -> mutator (f (vars s)) = mutator (vars s) -> sweeper (f (vars s)) = sweeper (vars s) ->
  nprop (f (vars s)) = nprop (vars s) \/ base s = None -> inv s -> inv (with_vars f s).
Proof.
  intros E1 E2 E3 E4 [[I1 I2 I3 I4 I5 I6 I7 I9] R [P1 P2 P3 P4 P5 P6 P7] [C1 C2 C3 C4 C5 C6 C7 C9 C10 C8]].
  assert (Hw : forall h, white (with_vars f s) h <-> white s h) by (intros h; unfold white; cbn; by rewrite E3).
  assert (Hm : forall h, is_mutator (with_vars f s) h <-> is_mutator s h) by (intros h; unfold is_mutator; cbn; by rewrite E2).
  assert (Hs : forall h, shaded (with_vars f s) h <-> shaded s h) by (intros h; unfold shaded; by rewrite Hm).
  assert (Hk : forall h, kept (with_vars f s) h <-> kept s h) by (intros h; unfold kept; by rewrite Hw).
  assert (Eo : owners (with_vars f s) = owners s) by by apply owners_same.
  split; [split; try assumption| |split; try assumption|split; rewrite ?Eo; try assumption].
  - unfold colors_ok. cbn. by rewrite E2, E3.
  - cbn. congruence.
  - intros h Hh. apply Hw, I3. cbn in Hh. by rewrite E1 in Hh.
  - intros h Hh. apply Hk in Hh. destruct (I5 h Hh) as [H1 H2]. split; [exact H1|]. intros x Hx. apply Hk. by apply H2.
  - intros h Hh x Hx. apply Hs. apply Hm in Hh. by apply (I9 h Hh).
  - intros x Hx. apply Hs. by apply R.
  - intros E h Hh. destruct E4 as [E4|E4]; [|unfold ahead; cbn; by rewrite E4]. apply P1; [cbn in E; congruence|done].
  - intros h Hh. apply Hw in Hh. by apply P2.
  - intros v Hv. by apply elem_of_nil in Hv.
  - intros h Hh Ha. apply (C6 h); [by apply Hk|done].
Qed.

(** The walk from the cursor or from the first arena. *)
Lemma start_ok s :
  inv s ->
  exists s', (match base s with None => match chain s with [] => fault | l :: _ => start_arena l end | Some _ => mret tt end) s = Ok tt s' /\
    inv s' /\ spares s s' /\ base s' <> None /\ vars s' = vars s /\ (base s <> None -> s' = s).
Proof.
  intros I. destruct (base s) as [b|] eqn:Eb.
  - exists s. split; [done|]. split; [done|]. split; [apply spares_refl|]. rewrite Eb. done.
  - destruct (chain s) as [|l ch] eqn:Ech; [by destruct (iv_nonempty _ _ (iw_pool _ _ _ _ I))|].
    destruct (start_arena_ok s [] l ch I Ech) as (b & E & C & A & _). eexists. split; [exact E|].
    destruct (moved_inv s (Some b) b (arena_limit l) I C) as [I' S'].
    + intros h [Hh _]. destruct (proj1 (blocks_in s h I) Hh) as (x & Hx & Hm & <-). apply A; [|done]. by rewrite <- Ech.
    + split; [done|]. split; [done|]. split; [done|]. split; [done|]. by intros [].
Qed.

Lemma okbhdr_ok s : inv s -> base s <> None -> okbhdr (ptr s) s = Ok true s.
Proof.
  intros C Hb. destruct (cursor_block s C Hb) as (b & Hin & Ep & Hblk & _). unfold okbhdr, gets. unfold block_at in Hblk.
  destruct (find _ _); [done|discriminate].
Qed.

Lemma next_quanta_min e t : Quanta <= next_quanta e t <= MaxQuanta.
Proof.
  unfold next_quanta, MaxQuanta, Quanta. generalize (Z.quot (15 * 50 + 50) 2 + Z.quot (15 * 50 - 50) 20 * Z.quot (100 * e) t). intros q.
  repeat case_match; lia.
Qed.

Lemma vars_same f s : same_blocks s (with_vars f s).
Proof. split; done. Qed.

(** The end of a slice: how long the next may be, and at the end of the walk
    another walk or another epoch. *)
Definition settled (s s' : gcs) : Prop :=
  Quanta <= quanta (vars s') <= MaxQuanta /\ base s' = base s /\ ptr s' = ptr s /\ chain s' = chain s /\
  (base s <> None -> heap s' = heap s /\ sweeper (vars s') = sweeper (vars s)) /\
  (gccolor (vars s') = gccolor (vars s) \/ gccolor (vars s') = gccolor (vars s) + 1 /\ base s = None /\ nprop (vars s) = 0).
Lemma settle_ok s :
  inv s -> (base s = None -> finished s) ->
  exists s', settle s = Ok tt s' /\ inv s' /\ same_blocks s s' /\ settled s s'.
Proof.
  intros I Hfin. unfold settle. rewrite (bind_ok _ _ (gce (vars s)) s s) by done. rewrite (bind_ok _ _ (gct (vars s)) s s) by done.
  set (q := next_quanta (gce (vars s)) (gct (vars s))). pose proof (next_quanta_min (gce (vars s)) (gct (vars s))) as Hq. fold q in Hq.
  set (s1 := with_vars (put_quanta q) s). rewrite (bind_ok _ _ tt s s1) by done. rewrite (bind_ok _ _ (base s) s1 s1) by done.
  assert (I1 : inv s1) by (apply vars_inv; auto). destruct (base s) as [b|] eqn:Eb.
  - exists s1. split; [done|]. split; [done|]. split; [apply vars_same|]. split; [done|]. repeat (split; [done|]). by left.
  - rewrite (bind_ok _ _ (nprop (vars s)) s1 s1) by done. destruct (Z.eqb_spec (nprop (vars s)) 0) as [En|En].
    + assert (F1 : finished s1) by (destruct (Hfin eq_refl) as [F1 F2 F3]; by split).
      destruct (epoch_ok s1 I1 F1 En) as (s2 & E2 & I2 & M2). cbn beta in E2.
      rewrite (bind_ok _ _ (gccolor (vars s)) s1 s1) by done. rewrite (bind_ok _ _ (mutator (vars s)) s1 s1) by done.
      rewrite (bind_ok _ _ (sweeper (vars s)) s1 s1) by done.
      set (s3 := with_vars (put_colors (gccolor (vars s) + 1) (mutator (vars s)) (sweeper (vars s))) s1).
      rewrite (bind_ok _ _ tt s1 s3) by done. rewrite (bind_ok _ _ tt s3 s2) by exact E2.
      exists (with_vars (put_gce 0 1) s2). split; [done|]. split; [apply vars_inv; auto|].
      destruct M2 as [M1 M2 M3 MP M4 M5 M6 M7 M8 _ M9 _ _ _ _ _]. destruct M4 as (B1 & B2 & B3).
      split; [split; try done; cbn; unfold heapmem in *; cbn in *; by rewrite M3, MP|].
      split; [cbn; rewrite M8; cbn; lia|]. split; [exact B1|]. split; [exact B2|]. split; [exact M3|]. split; [intros Hb; by destruct Hb|]. right. split; [|done]. by destruct M6 as [M6 _].
    + exists (with_vars (put_nprop 0) s1). split; [done|]. split; [apply vars_inv; auto|]. split; [apply (vars_same (fun v => put_nprop 0 (put_quanta q v)))|].
      split; [done|]. repeat (split; [done|]). by left.
Qed.

(** What a slice does. *)
Record sliced (s s' : gcs) : Prop := {
  sl_inv : inv s';
  sl_safe : safe s s';
  sl_quanta : Quanta <= quanta (vars s') <= MaxQuanta;
  sl_swept : base s' = None -> forall h, white s h -> heap s' !! h = None;
  sl_white : base s' <> None -> forall h, white s h -> heap s' !! h = None \/ white s' h;
  sl_progress : 0 < quanta (vars s) -> base s <> None -> base s' <> None -> (remaining s' < remaining s)%nat;
  sl_start : 0 < quanta (vars s) -> base s' <> None -> (remaining s' < length (concat (chain s)))%nat;
  sl_epoch : gccolor (vars s') = gccolor (vars s) \/ gccolor (vars s') = gccolor (vars s) + 1 /\ base s' = None;
}.
(** A slice up to the end of its loop. *)
Lemma rungc_walk s : inv s -> gchalt s = 0 -> exists s2 s3,
  rungc s = settle s3 /\ inv s2 /\ spares s s2 /\ base s2 <> None /\ chain s2 = chain s /\ heap s2 = heap s /\
  vars s2 = put_visit (quanta (vars s)) (vars s) /\ (base s <> None -> remaining s2 = remaining s) /\ (remaining s2 <= slice_fuel s2)%nat /\
  slice_loop (slice_fuel s2) s2 = Ok tt s3 /\ inv s3 /\ spares s s3 /\ (base s3 = None -> finished s3) /\
  (0 < visit (vars s2) -> base s3 <> None -> (remaining s3 < remaining s2)%nat).
Proof.
  intros I Hh. unfold rungc. rewrite (bind_ok _ _ (gchalt s) s s) by done. rewrite Hh. cbn [Z.eqb negb].
  rewrite (bind_ok _ _ (base s) s s) by done. rewrite (bind_ok _ _ (chain s) s s) by done.
  destruct (start_ok s I) as (s1 & E1 & I1 & S1 & B1 & V1 & Hsame). rewrite (bind_ok _ _ _ _ _ E1).
  rewrite (bind_ok _ _ (ptr s1) s1 s1) by done. rewrite (bind_ok _ _ _ _ _ (okbhdr_ok s1 I1 B1)). cbn [negb].
  rewrite (bind_ok _ _ (quanta (vars s1)) s1 s1) by done. set (s2 := with_vars (put_visit (quanta (vars s1))) s1).
  rewrite (bind_ok _ _ tt s1 s2) by done. assert (I2 : inv s2) by (apply vars_inv; auto).
  assert (S2 : spares s s2) by (apply (spares_trans s s1); [done|]; split; try done; eauto).
  destruct (cursor_block s2 I2 B1) as (_ & _ & _ & _ & _ & Hlen).
  rewrite (bind_ok _ _ (slice_fuel s2) s2 s2) by done.
  destruct (slice_loop_ok (slice_fuel s2) s2 I2 B1 Hlen) as (s3 & E3 & I3 & S3 & F3 & R3 & P3). rewrite (bind_ok _ _ _ _ _ E3).
  assert (Hch : chain s1 = chain s /\ heap s1 = heap s).
  { destruct (base s) eqn:Eb; [by rewrite Hsame|]. destruct (chain s) as [|[|x l] ch] eqn:Ec; cbn in E1; [discriminate..|]. injection E1 as <-. done. }
  exists s2, s3. do 4 (split; [done|]). split; [apply Hch|]. split; [apply Hch|]. split; [cbn; by rewrite V1|].
  split; [intros Hb; apply remaining_same; cbn; by rewrite (Hsame Hb)|]. do 3 (split; [done|]). split; [by apply (spares_trans s s2)|]. done.
Qed.
Lemma rungc_ok s : inv s -> gchalt s = 0 -> exists s', rungc s = Ok tt s' /\ sliced s s'.
Proof.
  intros I Hh. destruct (rungc_walk s I Hh) as (s2 & s3 & -> & I2 & S2 & B2 & Ech & _ & V2 & R2 & Hf & E3 & I3 & S23 & F3 & P3).
  destruct (settle_ok s3 I3 F3) as (s4 & E4 & I4 & S4 & Q4 & B4 & T4 & C4 & K4 & G4).
  exists s4. split; [exact E4|]. assert (Hrem : remaining s4 = remaining s3) by by apply remaining_same.
  assert (Hv : visit (vars s2) = quanta (vars s)) by by rewrite V2. split; try done.
  - apply (safe_same s s3); [by apply spares_safe|done].
  - rewrite B4. intros Eb h Hw. destruct (spares_white _ _ h S23 Hw) as [Hn|Hw']; [|by destruct (fi_white _ (F3 Eb) h)].
    pose proof (heads_lookup s3 s4 h (sb_heads _ _ S4)) as E. rewrite Hn in E. by destruct (heap s4 !! h).
  - rewrite B4. intros Hb4 h Hw. destruct (K4 Hb4) as [K5 K6]. unfold white, color. rewrite K5, K6. by apply (spares_white s s3).
  - intros Hq Hb Hb4. rewrite B4 in Hb4. rewrite Hrem. specialize (P3 ltac:(lia) Hb4). specialize (R2 Hb). lia.
  - intros Hq Hb4. rewrite B4 in Hb4. rewrite Hrem. specialize (P3 ltac:(lia) Hb4). unfold slice_fuel in Hf. rewrite Ech in Hf. lia.
  - rewrite B4. destruct (sp_colors _ _ S23) as (Ec & _). rewrite <- Ec. intuition.
Qed.

(** ** Reachable blocks *)

(** What can be come to from the blocks [rs]. *)
Inductive reach (s : gcs) (rs : list Z) : Z -> Prop :=
| reach_root h : h ∈ rs -> reach s rs h
| reach_step h x : reach s rs h -> x ∈ points s h -> reach s rs x.
(** What the programs have hold of, and what the kernel has. *)
Definition prog_side (s : gcs) : list Z := (progs s ≫= prog_roots s) ++ ptrtab s.
Lemma prog_side_root s x : x ∈ prog_side s -> x ∈ roots s.
Proof. unfold prog_side, roots. rewrite !elem_of_app. tauto. Qed.
Lemma reach_kept s rs h : inv s -> (forall x, x ∈ rs -> x ∈ roots s) -> reach s rs h -> kept s h.
Proof.
  intros [T R _ _] Hrs. induction 1 as [h Hh|h x _ IH Hx]; [by apply shaded_kept; [apply T|apply R, Hrs]|].
  by apply (iv_closed _ T h).
Qed.
Lemma safe_points s s' h : safe s s' -> is_Some (heap s' !! h) -> points s' h = points s h.
Proof.
  intros S [hd' Hh']. destruct (sf_heap _ _ S h hd' Hh') as (hd & Hh & Et). unfold points. rewrite Hh, Hh', Et.
  rewrite (sf_mem _ _ S). by rewrite (seen_eq _ _ _ _ _ (sf_types _ _ S)).
Qed.
Lemma safe_prog_side s s' : safe s s' -> prog_side s' = prog_side s.
Proof.
  intros S. unfold prog_side. rewrite (sf_progs _ _ S), (sf_ptrtab _ _ S). f_equal. apply list_bind_ext; [|done]. intros p.
  unfold prog_roots. rewrite (sf_mem _ _ S). f_equal. apply list_bind_ext; [|done]. intros f. unfold frame_roots.
  rewrite (sf_mem _ _ S). by rewrite (seen_eq _ _ _ _ _ (sf_types _ _ S)).
Qed.
Lemma safe_reach s s' h : inv s' -> safe s s' -> reach s' (prog_side s') h <-> reach s (prog_side s) h.
Proof.
  intros I S. pose proof (safe_prog_side s s' S) as E. split; induction 1 as [h Hh|h x Hr IH Hx].
  - apply reach_root. by rewrite <- E.
  - apply (reach_step s _ h); [done|]. rewrite <- (safe_points s s' h S); [done|].
    apply (reach_kept s' (prog_side s') h I); [apply prog_side_root|done].
  - apply reach_root. by rewrite E.
  - apply (reach_step s' _ h); [done|]. rewrite (safe_points s s' h S); [done|].
    apply (reach_kept s' (prog_side s') h I); [apply prog_side_root|done].
Qed.
(** Nothing that the programs can come to is lost. *)
Definition keeps_reachable (s s' : gcs) : Prop :=
  (forall h, reach s' (prog_side s') h <-> reach s (prog_side s) h) /\
  (forall h, reach s (prog_side s) h -> exists hd hd', heap s !! h = Some hd /\ heap s' !! h = Some hd' /\ h_t hd' = h_t hd).
Lemma safe_keeps s s' : inv s' -> safe s s' -> keeps_reachable s s'.
Proof.
  intros I S. split; [intros h; by apply safe_reach|]. intros h Hr. apply (safe_reach s s' h I S) in Hr.
  destruct (reach_kept s' _ h I (prog_side_root s') Hr) as [[hd' Hh'] _]. destruct (sf_heap _ _ S h hd' Hh') as (hd & Hh & Et). eauto.
Qed.

Lemma rungc_halted s : gchalt s <> 0 -> rungc s = Ok tt s.
Proof. intros Hh%Z.eqb_neq. unfold rungc. rewrite (bind_ok _ _ (gchalt s) s s) by done. by rewrite Hh. Qed.
Lemma safe_refl s : safe s s.
Proof. split; try done. eauto. Qed.
Lemma safe_none s s' h : safe s s' -> heap s !! h = None -> heap s' !! h = None.
Proof.
  intros S Hh. destruct (heap s' !! h) as [hd'|] eqn:E; [|done]. destruct (sf_heap _ _ S h hd' E) as (hd & Hd & _). congruence.
Qed.
Lemma rungc_safe s : inv s -> exists s', rungc s = Ok tt s' /\ inv s' /\ safe s s'.
Proof.
  intros I. destruct (Z.eq_dec (gchalt s) 0) as [Hh|Hh].
  - destruct (rungc_ok s I Hh) as (s' & E & S). exists s'. split; [done|]. split; apply S.
  - exists s. split; [by apply rungc_halted|]. split; [done|apply safe_refl].
Qed.

(** C4.  A slice of the collector always completes: from any state that
    satisfies the invariant rungc returns, the invariant holds again, the memory
    is as it was, and every block that a program can come to from its stack and its
    module links is still in the heap, with its type, so that the programs can come
    to just the blocks they could before. *)
Theorem collector_safe s : inv s ->
  exists s', rungc s = Ok tt s' /\ inv s' /\ mem s' = mem s /\ keeps_reachable s s'.
Proof.
  intros I. destruct (rungc_safe s I) as (s' & E & I' & S). exists s'. split; [done|]. split; [done|]. split; [apply S|].
  by apply safe_keeps.
Qed.

(** C26.  A reference that its holder gives up: destroy, whose calls of itself
    are as deep as the data but never deeper than gchalt allows, completes, keeps the
    invariant, and frees no block that a program can still come to. *)
Theorem destroy_safe s v : inv_with ∅ [v] [] s ->
  exists s', destroy v s = Ok tt s' /\ inv s' /\ mem s' = mem s /\ keeps_reachable s s'.
Proof.
  intros I. destruct (destroy_ok 65 ∅ v [] [] s I) as (s' & E & I' & F); [apply (ct_halt _ _ _ (iw_counted _ _ _ _ I))|].
  rewrite !plus_empty in E. exists s'. split; [done|]. split; [done|]. split; [apply F|]. apply safe_keeps; [done|].
  by apply spares_safe, (frees_spares ∅).
Qed.

(** Slices with no step of a program between them. *)
Fixpoint slices (n : nat) : S unit :=
  match n with
  | O => mret tt
  | Datatypes.S n => rungc;; slices n
  end.
Lemma slices_ok n s : inv s -> exists s', slices n s = Ok tt s' /\ inv s' /\ (forall h, heap s !! h = None -> heap s' !! h = None).
Proof.
  revert s. induction n as [|n IH]; intros s I; cbn [slices]; [by exists s|].
  destruct (rungc_safe s I) as (s1 & E1 & I1 & S1). rewrite (bind_ok _ _ _ _ _ E1). destruct (IH s1 I1) as (s2 & E2 & I2 & N2).
  exists s2. split; [done|]. split; [done|]. intros h Hh. by apply N2, (safe_none _ _ _ S1).
Qed.
Lemma walk_on n s : inv s -> gchalt s = 0 -> 0 < quanta (vars s) -> base s <> None -> (remaining s <= n)%nat ->
  exists k s', (0 < k <= n)%nat /\ slices k s = Ok tt s' /\ inv s' /\ base s' = None /\
    forall h, white s h \/ heap s !! h = None -> heap s' !! h = None.
Proof.
  revert s. induction n as [|n IH]; intros s I Hh Hq Hb Hr.
  { destruct (cursor_block s I Hb) as (b & _ & _ & _ & Hpos & _). lia. }
  destruct (rungc_ok s I Hh) as (s1 & E1 & S1). destruct S1 as [I1 S1 Q1 W1 V1 P1 _ _]. destruct (base s1) as [b|] eqn:Eb1.
  - destruct (IH s1) as (k & s2 & Hk & E2 & I2 & B2 & W2); [done|by rewrite (sf_halt _ _ S1)|unfold Quanta in Q1; lia|by rewrite Eb1|specialize (P1 Hq Hb ltac:(done)); lia|].
    exists (Datatypes.S k), s2. split; [lia|]. split; [cbn [slices]; by rewrite (bind_ok _ _ _ _ _ E1)|]. split; [done|]. split; [done|].
    intros h [Hw|Hn]; apply W2; [by apply or_comm, V1; rewrite ?Eb1|right; by apply (safe_none _ _ _ S1)].
  - exists 1%nat, s1. split; [lia|]. split; [cbn [slices]; by rewrite (bind_ok _ _ _ _ _ E1)|]. split; [done|]. split; [done|].
    intros h [Hw|Hn]; [by apply W1|by apply (safe_none _ _ _ S1)].
Qed.

(** C28.  With no program at work, the collector comes to the end of the walk
    through the heap after at most one slice more than the arenas have blocks, in use
    or free, the headers at both ends of each arena counted, and it has by then freed
    every block that was of the sweeper's colour. *)
Theorem walk_ends s : inv s -> gchalt s = 0 -> 0 < quanta (vars s) ->
  exists n s', (0 < n <= Datatypes.S (length (concat (chain s))))%nat /\ slices n s = Ok tt s' /\ inv s' /\ base s' = None /\
    forall h, white s h -> heap s' !! h = None.
Proof.
  intros I Hh Hq. destruct (rungc_ok s I Hh) as (s1 & E1 & S1). destruct S1 as [I1 S1 Q1 W1 V1 _ P1 _]. destruct (base s1) as [b|] eqn:Eb1.
  - assert (Hb1 : base s1 <> None) by by rewrite Eb1.
    destruct (walk_on (length (concat (chain s))) s1) as (k & s2 & Hk & E2 & I2 & B2 & W2); [done|by rewrite (sf_halt _ _ S1)|unfold Quanta in Q1; lia|done| |].
    { specialize (P1 Hq ltac:(done)). lia. }
    exists (Datatypes.S k), s2. split; [lia|]. split; [cbn [slices]; by rewrite (bind_ok _ _ _ _ _ E1)|]. split; [done|]. split; [done|].
    intros h Hw. by apply W2, or_comm, V1.
  - exists 1%nat, s1. split; [lia|]. split; [cbn [slices]; by rewrite (bind_ok _ _ _ _ _ E1)|]. split; [done|]. split; [done|].
    intros h Hw. by apply W1.
Qed.
