(* ===== verification/GcOps.v ===== *)
(** * Instructions that move pointers (libinterp/xec.c)

    A word with a pointer gets another: movp, headp, tail and self, with the
    barrier and the reference they take, and of mcall what the collector sees.  What
    programs and the collector keep together is [heap_ok], the invariant and where
    data lies. *)

From S2P Require Import Prelude Pool Gc GcMark GcPool GcInv GcFree GcRun.

(** ** Stores of pointers *)

Definition store (a v : Z) : S unit := modify (with_mem (fun m x => if x =? a then v else m x)).
Definition stored (a v : Z) (s : gcs) : gcs := with_mem (fun m x => if x =? a then v else m x) s.

(** The words that say where the pointers of the data at [vw] are. *)
Definition header (tys : gmap Z Ty) (t vw : Z) : list Z :=
  if t =? 0 then [] else
  match tys !! t with
  | None => []
  | Some ty =>
      match ty_mark ty, ty_free ty with
      | Markarray, _ => [vw; vw + 8; vw + 16; vw + 24]
      | Marklist, _ => [vw; vw + 8]
      | _, Freemodlink => [vw + 8]
      | _, _ => []
      end
  end.
(** No block's header is at [a]. *)
Definition plain (s : gcs) (a : Z) : Prop := forall h t, (h, t) ∈ blocks s -> a ∉ header (types s) t (H2D h).
(** The words with a pointer that counts, in frames and blocks that are kept. *)
Definition slots (s : gcs) : list Z := frame_slots s ++ block_slots s.
(** One that may be stored to. *)
Record slot (s : gcs) (a : Z) : Prop := {
  sl_in : a ∈ slots s;
  sl_plain : plain s a;
}.

Section Stored.
Context (s : gcs) (a v : Z).
Abbreviation s' := (stored a v s).

Lemma st_other x : x <> a -> mem s' x = mem s x.
Proof. intros Hn%Z.eqb_neq. cbn. by rewrite Hn. Qed.
Lemma st_self : mem s' a = v.
Proof. cbn. by rewrite Z.eqb_refl. Qed.
Lemma not_header x (l : list Z) : a ∉ l -> x ∈ l -> mem s' x = mem s x.
Proof. intros Hn Hx. apply st_other. by intros ->. Qed.

(** Of one block, all but the pointer is as before. *)
Lemma st_elem_slots t vw ty :
  t <> 0 -> types s !! t = Some ty -> ty_mark ty = Markarray -> a ∉ header (types s) t vw ->
  mem s' vw = mem s vw /\ mem s' (vw + 8) = mem s (vw + 8) /\ mem s' (vw + 16) = mem s (vw + 16) /\ mem s' (vw + 24) = mem s (vw + 24) /\
  elem_slots (mem s') (types s) vw = elem_slots (mem s) (types s) vw.
Proof.
  intros Ht Hty Hm Hh. unfold header in Hh. destruct (Z.eqb_spec t 0); [done|]. rewrite Hty, Hm in Hh.
  assert (H1 : mem s' vw = mem s vw) by (apply (not_header vw _ Hh); by constructor).
  assert (H2 : mem s' (vw + 8) = mem s (vw + 8)) by (apply (not_header _ _ Hh); set_solver).
  assert (H3 : mem s' (vw + 16) = mem s (vw + 16)) by (apply (not_header _ _ Hh); set_solver).
  assert (H4 : mem s' (vw + 24) = mem s (vw + 24)) by (apply (not_header _ _ Hh); set_solver).
  split; [done|]. split; [done|]. split; [done|]. split; [done|]. unfold elem_slots. by rewrite H1, H2, H4.
Qed.
Lemma st_list t vw ty :
  t <> 0 -> types s !! t = Some ty -> ty_mark ty = Marklist -> a ∉ header (types s) t vw ->
  mem s' vw = mem s vw /\ mem s' (vw + 8) = mem s (vw + 8).
Proof.
  intros Ht Hty Hm Hh. unfold header in Hh. destruct (Z.eqb_spec t 0); [done|]. rewrite Hty, Hm in Hh.
  split; apply (not_header _ _ Hh); set_solver.
Qed.
Lemma st_owned t vw : a ∉ header (types s) t vw -> owned (mem s') (types s) t vw = owned (mem s) (types s) t vw.
Proof.
  intros Hh. unfold owned. destruct (Z.eqb_spec t 0); [done|]. destruct (types s !! t) as [ty|] eqn:Hty; [|done].
  destruct (ty_mark ty) eqn:Hm; [done|done| |].
  - destruct (st_elem_slots t vw ty) as (_ & _ & E3 & _ & E5); try done. by rewrite E3, E5.
  - destruct (st_list t vw ty) as (_ & E2); try done. by rewrite E2.
Qed.
Lemma st_linked t h ty : types s !! t = Some ty -> types_wf (types s) -> a ∉ header (types s) t (H2D h) ->
  linked (mem s') (types s) t h = linked (mem s) (types s) t h.
Proof.
  intros Hty Hwf Hh. unfold linked, header in *. destruct (Z.eqb_spec t 0); [done|]. rewrite Hty in *.
  destruct (Hwf t ty Hty) as [_ Hf]. destruct (ty_free ty); try done. destruct Hf as [Hm _]. rewrite Hm in Hh.
  f_equal. apply (not_header _ _ Hh). constructor.
Qed.
(** A word of a frame or a block as seen by the collector. *)
Lemma st_seen t vw x : (forall ty, types s !! t = Some ty -> ty_mark ty = Markheap \/ a ∉ header (types s) t vw) -> t <> 0 ->
  x ∈ seen (mem s') (types s) t vw -> x = v /\ v <> H \/ x ∈ seen (mem s) (types s) t vw.
Proof.
  intros Hh Ht. assert (Hf : forall map w, x ∈ seen_fields (mem s') map w -> x = v /\ v <> H \/ x ∈ seen_fields (mem s) map w).
  { intros map w (q & Hq & -> & Hn)%elem_seen_fields. destruct (decide (q = a)) as [->|Hqa].
    - left. rewrite st_self in *. done.
    - right. rewrite st_other in * by done. apply elem_seen_fields. eauto. }
  unfold seen. destruct (types s !! t) as [ty|] eqn:Hty; [|by intros ?%elem_of_nil].
  destruct (Hh ty eq_refl) as [E|Hh']; [rewrite E; by apply Hf|].
  destruct (ty_mark ty) eqn:Hm; [by intros ?%elem_of_nil|by apply Hf| |].
  - destruct (st_elem_slots t vw ty) as (E1 & E2 & E3 & E4 & _); try done. rewrite E1, E2, E3, E4. rewrite !elem_of_app. intros [Hx|Hx]; [by right; left|].
    destruct (types s !! mem s (vw + 8)) as [ety|]; [|by apply elem_of_nil in Hx].
    apply list_elem_of_bind in Hx as (i & Hx & Hi). destruct (Hf _ _ Hx) as [?|Hx']; [by left|]. right. right. apply list_elem_of_bind. eauto.
  - destruct (st_list t vw ty) as (E1 & E2); try done. rewrite E1, E2, !elem_of_app. intros [Hx|Hx]; [|by right; right].
    destruct (Hf _ _ Hx) as [?|Hx']; [by left|]. right. by left.
Qed.
Lemma st_shaped t vw : a ∉ header (types s) t vw -> t <> 0 -> shaped s t vw -> shaped s' t vw.
Proof.
  intros Hh Ht (ty & Hty & Hm). exists ty. split; [done|]. destruct (ty_mark ty) eqn:Em; try done.
  - destruct (st_elem_slots t vw ty) as (E1 & E2 & _); try done. change (mem s' vw) with (mem (stored a v s) vw). by rewrite E1, E2.
  - destruct (st_list t vw ty) as (E1 & E2); try done. rewrite E1, E2. exact Hm.
Qed.
End Stored.

Lemma bind_ext_in {A B} (f g : A -> list B) l : (forall x, x ∈ l -> f x = g x) -> l ≫= f = l ≫= g.
Proof.
  induction l as [|x l IH]; intros Hfg; [done|]. cbn. rewrite (Hfg x) by constructor. f_equal. apply IH. intros y Hy. apply Hfg. by right.
Qed.

Section Store.
Context (K : gmap Z Heap) (v : Z) (O OM : list Z) (s : gcs) (a : Z).
Context (I : inv_with K (v :: O) OM s) (Hnd : NoDup (slots s)) (Ha : slot s a) (Hv : v = H \/ shaded s (D2H v)).
Abbreviation s' := (stored a v s).

Lemma store_header h hd : heap s !! h = Some hd -> a ∉ header (types s) (h_t hd) (H2D h).
Proof. intros Hh. apply (sl_plain _ _ Ha). apply elem_blocks. eauto. Qed.
Lemma store_block_slots : block_slots s' = block_slots s.
Proof.
  change (live_blocks s') with (live_blocks s). apply bind_ext_in. intros [h t] Hb. apply (st_owned s a v).
  apply list_elem_of_filter in Hb as [_ Hb]. by apply (sl_plain _ _ Ha).
Qed.
Lemma store_frame_slots : frame_slots s' = frame_slots s.
Proof.
  apply bind_ext_in. intros p Hp. apply bind_ext_in. intros f Hf.
  destruct (iv_frames _ (iw_tri _ _ _ _ I) p f Hp Hf) as (Hn & ty & Hty & Hm). unfold owned. cbn [types stored with_mem]. by rewrite Hty, Hm.
Qed.
Lemma store_mod_owners : mod_owners s' = mod_owners s.
Proof.
  apply bind_ext_in. intros [h t] Hb. cbn [fst snd]. destruct (types s !! t) as [ty|] eqn:Hty.
  - apply (st_linked s a v t h ty Hty); [apply (ct_types _ _ _ (iw_counted _ _ _ _ I))|by apply (sl_plain _ _ Ha)].
  - unfold linked. cbn [types stored with_mem]. by rewrite Hty.
Qed.
Lemma store_owners : mem s a :: owners s' ≡ₚ v :: owners s.
Proof.
  unfold owners. rewrite store_frame_slots, store_block_slots. change (held s') with (held s). fold (slots s).
  assert (Hin : a ∈ slots s) by apply Ha. apply list_elem_of_split in Hin as (l1 & l2 & E). rewrite E in *.
  apply list.NoDup_app in Hnd as (_ & Hd & Hnd2). apply list.NoDup_cons in Hnd2 as [Hd2 _].
  assert (Hsame : forall l : list Z, a ∉ l -> mem s' <$> l = mem s <$> l).
  { intros l Hl. apply list_fmap_ext. intros i x Hx. apply st_other. intros ->. apply Hl. by eapply list_elem_of_lookup_2. }
  rewrite !fmap_app, !fmap_cons, (Hsame l1), (Hsame l2), (st_self s a v); [|done|intros H1; apply (Hd a H1); constructor].
  rewrite <- !app_assoc. cbn [app]. rewrite <- !Permutation_middle. apply perm_swap.
Qed.

(** What is seen of a block, or is a root, after the store. *)
Lemma store_points h x : x ∈ points s' h -> x = D2H v /\ v <> H \/ x ∈ points s h.
Proof.
  unfold points. cbn [heap stored with_mem types]. destruct (heap s !! h) as [hd|] eqn:Hh; [|by intros ?%elem_of_nil].
  destruct (Z.eqb_spec (h_t hd) 0) as [E|E]; [by intros ?%elem_of_nil|].
  intros (y & -> & Hy)%list_elem_of_fmap.
  destruct (st_seen s a v (h_t hd) (H2D h) y (fun ty _ => or_intror (store_header h hd Hh)) E Hy) as [[-> Hn]|Hy']; [by left|].
  right. by apply list_elem_of_fmap_2.
Qed.
Lemma store_link_roots ml x : x ∈ link_roots (mem s') ml -> x = D2H v /\ v <> H \/ x ∈ link_roots (mem s) ml.
Proof.
  unfold link_roots. rewrite !elem_of_cons. intros [->|Hx]; [by right; left|]. apply elem_D2H_not_H in Hx as [-> Hn].
  destruct (decide (ml = a)) as [->|Hne]; [left; by rewrite (st_self s a v) in *|].
  rewrite (st_other s a v ml Hne) in *. right. right. by apply elem_D2H_not_H.
Qed.
Lemma store_roots x : x ∈ roots s' -> x = D2H v /\ v <> H \/ x ∈ roots s.
Proof.
  unfold roots. change (progs s') with (progs s). change (origmps s') with (origmps s). change (ptrtab s') with (ptrtab s).
  rewrite !elem_of_app. intros [Hx|Hx]; [|right; by right]. apply list_elem_of_bind in Hx as (p & Hx & Hp).
  assert (Hgoal : x = D2H v /\ v <> H \/ x ∈ prog_roots s p); [|destruct Hgoal as [?|Hg]; [by left|right; left; apply list_elem_of_bind; eauto]].
  unfold prog_roots in *. rewrite elem_of_app in *. destruct Hx as [Hx|Hx].
  - destruct (store_link_roots _ _ Hx) as [?|?]; [by left|right; by left].
  - apply list_elem_of_bind in Hx as (f & Hx & Hf).
    assert (Hgoal : x = D2H v /\ v <> H \/ x ∈ frame_roots s f); [|destruct Hgoal as [?|Hg]; [by left|right; right; apply list_elem_of_bind; eauto]].
    destruct (iv_frames _ (iw_tri _ _ _ _ I) p f Hp Hf) as (Hn & ty & Hty & Hm). unfold frame_roots in *. rewrite elem_of_app in *.
    destruct Hx as [Hx|Hx].
    + apply list_elem_of_fmap in Hx as (y & -> & Hy). assert (Hc : forall ty', types s !! f_t f = Some ty' -> ty_mark ty' = Markheap \/ a ∉ header (types s) (f_t f) (f_addr f)) by (intros ty' Hty'; left; congruence).
      destruct (st_seen s a v (f_t f) (f_addr f) y Hc Hn Hy) as [[-> Hnv]|Hy']; [by left|]. right. left. by apply list_elem_of_fmap_2.
    + destruct (f_mr f =? 0); [by apply elem_of_nil in Hx|]. destruct (store_link_roots _ _ Hx) as [?|?]; [by left|right; by right].
Qed.

Lemma store_kept x : x = D2H v /\ v <> H -> kept s x.
Proof.
  intros [-> Hn]. destruct (ct_tokens _ _ _ (iw_counted _ _ _ _ I) v) as [?|Hk]; [constructor|done|done].
Qed.
Lemma store_shaded x : x = D2H v /\ v <> H -> shaded s x.
Proof. intros [-> Hn]. by destruct Hv. Qed.
Lemma store_tri : tri s' /\ rooted s'.
Proof.
  pose proof (iw_tri _ _ _ _ I) as [I1 I2 I3 I4 I5 I6 I7 I9]. split; [split; try assumption|].
  - intros h Hk. destruct (I5 h Hk) as [Hb Hp]. split.
    + intros hd Hh. destruct (Hb hd Hh) as [?|Hs]; [by left|]. destruct (Z.eq_dec (h_t hd) 0) as [?|Hn]; [by left|right].
      pose proof (st_shaped s a v (h_t hd) (H2D h) (store_header h hd Hh) Hn Hs) as (ty & Hty & Hm). exists ty. split; [done|]. exact Hm.
    + intros x Hx. destruct (store_points h x Hx) as [Hx'|Hx']; [by apply store_kept|by apply Hp].
  - intros h Hm x Hx. destruct (store_points h x Hx) as [Hx'|Hx']; [by apply store_shaded|by apply (I9 h Hm)].
  - intros x Hx. destruct (store_roots x Hx) as [Hx'|Hx']; [by apply store_shaded|by apply (iw_roots _ _ _ _ I)].
Qed.
Lemma store_array h : is_array s h -> exists hd ty, heap s !! h = Some hd /\ h_t hd <> 0 /\ types s !! h_t hd = Some ty /\ ty_mark ty = Markarray /\
  mem s' (H2D h + 16) = mem s (H2D h + 16) /\ elem_slots (mem s') (types s) (H2D h) = elem_slots (mem s) (types s) (H2D h).
Proof.
  intros (hd & ty & Hh & Hn & Hty & Hm). exists hd, ty.
  destruct (st_elem_slots s a v (h_t hd) (H2D h) ty Hn Hty Hm (store_header h hd Hh)) as (_ & _ & E3 & _ & E5). done.
Qed.
(** A store keeps the invariant; what was in the word is to be destroyed. *)
Lemma store_ok : inv_with K (mem s a :: O) OM s'.
Proof.
  destruct store_tri as [T' R']. pose proof (iw_counted _ _ _ _ I) as [C1 C2 C3 C4 C5 C6 C7 C9 C10 C8].
  split; [done|done|by destruct (iw_pool _ _ _ _ I); split|].
  split; try assumption; rewrite ?store_mod_owners; try assumption.
  - intros h hd Hh. specialize (C1 h hd Hh). cbn [app] in *.
    assert (E : mem s a :: O ++ owners s' ≡ₚ v :: O ++ owners s) by (rewrite !(Permutation_middle O); by rewrite store_owners).
    by rewrite E.
  - intros x [->|Hx]%elem_of_cons; [|apply C2; by right].
    destruct (decide (mem s a = H)) as [?|Hn]; [by left|right]. change (kept s (D2H (mem s a))).
    pose proof (sl_in _ _ Ha) as Hin. apply elem_of_app in Hin as [Hin|Hin].
    + apply list_elem_of_bind in Hin as (p & Hin & Hp). apply list_elem_of_bind in Hin as (f & Hin & Hf).
      apply (shaded_kept s _ (iv_colors _ (iw_tri _ _ _ _ I))), (iw_roots _ _ _ _ I). apply elem_of_app. left. apply list_elem_of_bind. exists p. split; [|done].
      apply elem_of_app. right. apply list_elem_of_bind. exists f. split; [|done]. apply elem_of_app. left. apply list_elem_of_fmap_2.
      pose proof (owned_seen _ _ _ _ _ Hin Hn) as Hs. destruct (f_t f =? 0); [by apply elem_of_nil in Hs|done].
    + apply list_elem_of_bind in Hin as ([h t] & Hin & Hb). apply elem_live in Hb as (hd & Hh & <- & Hk). apply (iv_closed _ (iw_tri _ _ _ _ I) h Hk). by apply (owned_points s h hd).
  - intros h Hk Har. destruct (store_array h Har) as (hd & ty & Hh & Hn & Hty & Hm & E1 & E2). cbn zeta. change (types s') with (types s). rewrite E1, E2.
    destruct (C6 h Hk Har) as [?|(H1 & H2 & H3)]; [by left|right]. split; [exact H1|].
    destruct (store_array _ H1) as (hr & tr & Hhr & Hnr & Htr & Hmr & E3 & E4). rewrite H2D_D2H in *. rewrite E3. split; [done|].
    intros q Hq. rewrite E4. auto.
Qed.
End Store.

(** ** Instructions that move pointers (xec.c) *)

Definition incref (h : Z) : S unit := hd ← heap_at h; set_ref h (h_ref hd + 1).
(** The operands are the words' addresses. *)
Definition movp (src dst : Z) : S unit :=
  sv ← word src;
  (if sv =? H then mret tt else incref (D2H sv);; Setmark (D2H sv));;
  dv ← word dst;
  store dst sv;;
  destroy dv.
(** A nil list traps in the host. *)
Definition headp (src dst : Z) : S unit :=
  l ← word src;
  if l =? H then fault else movp (l + 16) dst.
Definition tail (src dst : Z) : S unit :=
  l ← word src;
  if l =? H then fault else movp l dst.
Definition self (p : nat) (dst : Z) : S unit :=
  g ← gets (fun s => progs s !! p);
  g ← of_option g;
  let ml := g_M g in
  incref (D2H ml);;
  Setmark (D2H ml);;
  t ← word dst;
  store dst ml;;
  destroy t.
(** Of mcall, what the collector sees: the callee's frame, the last of the
    stack, gets the caller's link, and the program the callee's. *)
Definition set_last_mr (mr : Z) (fs : list Frame) : list Frame :=
  match rev fs with
  | f :: l => rev (mkFrame (f_addr f) (f_t f) mr :: l)
  | [] => []
  end.
Definition mcall (p : nat) (src : Z) : S unit :=
  ml ← word src;
  if ml =? H then error "mcall: module not loaded"
  else
    modify (with_progs (alter (fun g => mkGProg ml (set_last_mr (g_M g) (g_frames g))) p));;
    incref (D2H ml).

Lemma slot_value K O OM s a : inv_with K O OM s -> a ∈ slots s -> mem s a = H \/ kept s (D2H (mem s a)).
Proof.
  intros I Hin. destruct (decide (mem s a = H)) as [?|Hn]; [by left|right]. pose proof (iw_tri _ _ _ _ I) as T.
  apply elem_of_app in Hin as [Hin|Hin].
  - apply list_elem_of_bind in Hin as (p & Hin & Hp). apply list_elem_of_bind in Hin as (f & Hin & Hf).
    apply (shaded_kept s _ (iv_colors _ T)), (iw_roots _ _ _ _ I). apply elem_of_app. left. apply list_elem_of_bind. exists p. split; [|done].
    apply elem_of_app. right. apply list_elem_of_bind. exists f. split; [|done]. apply elem_of_app. left. apply list_elem_of_fmap_2.
    pose proof (owned_seen _ _ _ _ _ Hin Hn) as Hs. destruct (f_t f =? 0); [by apply elem_of_nil in Hs|done].
  - apply list_elem_of_bind in Hin as ([h t] & Hin & Hb). apply elem_live in Hb as (hd & Hh & <- & Hk). apply (iv_closed _ T h Hk). by apply (owned_points s h hd).
Qed.

(** Steps that change no type and no word keep the words with pointers. *)
Lemma slots_same s s' : mem s' = mem s -> types_eq (types s) (types s') -> h_t <$> heap s' = h_t <$> heap s -> progs s' = progs s ->
  (forall h, white s' h <-> white s h) -> slots s' = slots s.
Proof.
  intros E1 E2 E3 E4 E5. unfold slots, frame_slots, block_slots. rewrite E1, E4. f_equal.
  - apply list_bind_ext; [|done]. intros p. apply list_bind_ext; [|done]. intros f. by apply owned_eq.
  - apply list_bind_ext; [intros b; by apply owned_eq|]. unfold live_blocks, blocks. rewrite E3. apply filter_in_ext. intros b _. by rewrite E5.
Qed.
Lemma header_eq tys tys' t vw : types_eq tys tys' -> header tys' t vw = header tys t vw.
Proof.
  intros E. unfold header. destruct (t =? 0); [done|]. pose proof (types_eq_lookup _ _ t E) as Ht.
  destruct (tys !! t), (tys' !! t); try done. by destruct Ht as (-> & -> & _).
Qed.
Lemma slot_same s s' a : mem s' = mem s -> types s' = types s -> h_t <$> heap s' = h_t <$> heap s -> progs s' = progs s ->
  (forall h, white s' h <-> white s h) -> slot s a -> slot s' a.
Proof.
  intros E1 E2 E3 E4 E5 [H1 H2]. split; [rewrite (slots_same s s'); try done; by rewrite E2|].
  intros h t Hb. rewrite E2. apply H2. unfold blocks in *. by rewrite <- E3.
Qed.

(** ** Where data is *)

(** The words with pointers of all blocks. *)
Definition all_slots (s : gcs) : list Z := frame_slots s ++ (blocks s ≫= fun b => owned (mem s) (types s) b.2 (H2D b.1)).
(** The pool is well formed, the words of a block that the collector reads are in
    the block, those of the frames are outside the arenas, and no word is in two
    data.  The last address is not one of a block. *)
Record layout (s : gcs) : Prop := {
  ly_pool : pool_ok (heapmem s);
  ly_nodup : NoDup (all_slots s);
  ly_inside : forall h hd b q, heap s !! h = Some hd -> b ∈ used (chain s) -> b_addr b = h - sizeof_Bhdr ->
    q ∈ owned (mem s) (types s) (h_t hd) (H2D h) ++ header (types s) (h_t hd) (H2D h) -> H2D h <= q /\ q + 8 <= b_addr b + b_size b;
  ly_frames : forall q l, q ∈ frame_slots s -> l ∈ chain s -> q + 8 <= (area l).1 \/ (area l).2 <= q;
  ly_top : forall l, l ∈ chain s -> 0 < (area l).1 /\ (area l).2 < H;
  ly_maps : forall t ty q, types s !! t = Some ty -> ty_free ty = Freeheap -> q ∈ fields (ty_map ty) 0 -> q + 8 <= ty_size ty;
}.
(** What programs and the collector keep. *)
Record heap_ok (s : gcs) : Prop := {
  hk_inv : inv s;
  hk_layout : layout s;
}.

Lemma slots_sub s : sublist (slots s) (all_slots s).
Proof. apply sublist_app; [done|]. apply sublist_bind, sublist_filter. Qed.
Lemma layout_slots s : layout s -> NoDup (slots s).
Proof. intros L. eapply sublist_NoDup; [apply (ly_nodup _ L)|apply slots_sub]. Qed.

Lemma bind_submseteq {A B} (f : A -> list B) l1 l2 : l1 ⊆+ l2 -> l1 ≫= f ⊆+ l2 ≫= f.
Proof.
  induction 1 as [|x l1 l2 _ IH|x y l|x l1 l2 _ IH|l1 l2 l3 _ IH1 _ IH2]; [done|..].
  - cbn. by apply submseteq_app.
  - cbn. rewrite !app_assoc. apply submseteq_app; [|done]. by rewrite Permutation_app_comm.
  - cbn. etransitivity; [exact IH|]. apply submseteq_inserts_l. done.
  - by etransitivity.
Qed.
(** Blocks that go take their words with them. *)
Lemma slots_go s s' :
  mem s' = mem s -> types_eq (types s) (types s') -> progs s' = progs s ->
  (forall h hd', heap s' !! h = Some hd' -> exists hd, heap s !! h = Some hd /\ h_t hd' = h_t hd) ->
  all_slots s' ⊆+ all_slots s.
Proof.
  intros E1 E2 E3 Hh. assert (Hb : blocks s' ⊆+ blocks s).
  { apply map_to_list_submseteq, map_subseteq_spec. intros h t (hd' & <- & Hh')%lookup_fmap_Some.
    destruct (Hh h hd' Hh') as (hd & Hd & ->). by rewrite lookup_fmap, Hd. }
  unfold all_slots, frame_slots. rewrite E1, E3.
  rewrite (list_bind_ext (fun b => owned (mem s) (types s') b.2 (H2D b.1)) (fun b => owned (mem s) (types s) b.2 (H2D b.1)) (blocks s') (blocks s'));
    [|intros b; by apply owned_eq|done].
  rewrite (list_bind_ext (fun p => g_frames p ≫= fun f => owned (mem s) (types s') (f_t f) (f_addr f))
    (fun p => g_frames p ≫= fun f => owned (mem s) (types s) (f_t f) (f_addr f)) (progs s) (progs s)); [|intros p; apply list_bind_ext; [intros f; by apply owned_eq|done]|done].
  apply submseteq_app; [done|]. by apply bind_submseteq.
Qed.
Lemma frame_slots_eq s s' : mem s' = mem s -> types_eq (types s) (types s') -> progs s' = progs s -> frame_slots s' = frame_slots s.
Proof.
  intros E1 E2 E3. unfold frame_slots. rewrite E1, E3. apply list_bind_ext; [|done]. intros p. apply list_bind_ext; [|done]. intros f. by apply owned_eq.
Qed.
(** The arenas stay where they are. *)
Lemma spans_area ch ch' l' : spans ch' = spans ch -> l' ∈ ch' -> exists l, l ∈ ch /\ area l' = area l.
Proof.
  intros E Hl. assert (Hin : (head l', list.last l') ∈ spans ch) by (rewrite <- E; by apply (list_elem_of_fmap_2 (fun l => (head l, list.last l)))).
  apply list_elem_of_fmap in Hin as (l & [= E1 E2] & Hin). exists l. split; [done|by apply area_eq].
Qed.
Lemma layout_go s s' :
  layout s -> mem s' = mem s -> types_eq (types s) (types s') -> progs s' = progs s ->
  (forall h hd', heap s' !! h = Some hd' -> exists hd, heap s !! h = Some hd /\ h_t hd' = h_t hd) ->
  only_frees (heapmem s) (heapmem s') -> layout s'.
Proof.
  intros [L1 L2 L3 L4 L5 L6] E1 E2 E3 Hh [F1 F2 F3]. split.
  - auto.
  - pose proof (slots_go s s' E1 E2 E3 Hh) as Hsub. apply submseteq_Permutation in Hsub as [k Hk]. rewrite Hk in L2. by apply list.NoDup_app in L2 as [L2 _].
  - intros h hd' b q Hd Hb Ea. destruct (Hh h hd' Hd) as (hd & Hd0 & ->). rewrite E1, (owned_eq _ _ _ _ _ E2), (header_eq _ _ _ _ E2). apply (L3 h hd); auto.
  - intros q l Hq Hl. rewrite (frame_slots_eq s s') in Hq by done. destruct (spans_area _ _ _ F1 Hl) as (l0 & Hl0 & ->). auto.
  - intros l Hl. destruct (spans_area _ _ _ F1 Hl) as (l0 & Hl0 & ->). auto.
  - intros t ty q Hty Hf Hq. destruct (types_eq_get _ _ _ ty (types_eq_sym _ _ E2) Hty) as (ty0 & Hty0 & Ef & _ & Es & Em). rewrite <- Es. rewrite <- Em in Hq.
    apply (L6 t ty0); [done|congruence|done].
Qed.
Lemma layout_safe s s' : layout s -> safe s s' -> layout s'.
Proof. intros L S. apply (layout_go s s' L); apply S. Qed.

(** A store to a slot moves no data. *)
Lemma layout_stored s dst v : frames_ok s -> layout s -> slot s dst -> layout (stored dst v s).
Proof.
  intros Hf [L1 L2 L3 L4 L5 L6] [_ Hp]. set (s' := stored dst v s).
  assert (Eo : forall h t, (h, t) ∈ blocks s -> owned (mem s') (types s) t (H2D h) = owned (mem s) (types s) t (H2D h)).
  { intros h t Hb. apply (st_owned s dst v). by apply Hp. }
  assert (Ef : frame_slots s' = frame_slots s).
  { apply bind_ext_in. intros p Hpr. apply bind_ext_in. intros f Hfr. destruct (Hf p f Hpr Hfr) as (Hn & ty & Hty & Hm).
    unfold owned. cbn [types s' stored with_mem]. by rewrite Hty, Hm. }
  split; try assumption.
  - unfold all_slots. rewrite Ef. change (blocks s') with (blocks s). change (types s') with (types s).
    rewrite (bind_ext_in _ (fun b => owned (mem s) (types s) b.2 (H2D b.1)) (blocks s)); [done|]. intros [h t] Hb. by apply Eo.
  - intros h hd b q Hh Hb Ea. change (types s') with (types s). rewrite (Eo h); [by apply (L3 h hd)|]. apply elem_blocks. eauto.
  - intros q l. rewrite Ef. apply L4.
Qed.

(** A reference more, and the barrier: what comes of [h->ref++; Setmark(h)]. *)
Record retained (s s' : gcs) : Prop := {
  rt_mem : mem s' = mem s;
  rt_types : types s' = types s;
  rt_heap : h_t <$> heap s' = h_t <$> heap s;
  rt_progs : progs s' = progs s;
  rt_rest : modules s' = modules s /\ ptrtab s' = ptrtab s /\ gchalt s' = gchalt s;
  rt_pool : heapmem s' = heapmem s;
  rt_white : forall h, white s' h <-> white s h;
}.
Lemma retain_ok O OM s v :
  inv_with ∅ O OM s -> kept s (D2H v) ->
  exists s', (incref (D2H v);; Setmark (D2H v)) s = Ok tt s' /\ inv_with ∅ (v :: O) OM s' /\ shaded s' (D2H v) /\ retained s s'.
Proof.
  intros I Hk. destruct (Hk) as [[hd Hh] _]. unfold incref.
  rewrite (bind_ok _ _ tt s (counted_down (D2H v) (h_ref hd + 1) s)) by (rewrite (bind_ok _ _ _ _ _ (heap_at_ok _ _ _ Hh)); done).
  destruct (incr_ok ∅ v O OM s hd I Hk Hh) as [I1 F1]. set (s1 := counted_down (D2H v) (h_ref hd + 1) s) in *.
  assert (Hw : forall h, white s1 h <-> white s h) by (intros h; apply counted_down_white).
  assert (Hk1 : kept s1 (D2H v)) by (split; [by apply counted_down_some|rewrite Hw; apply Hk]).
  destruct (Setmark_ok s1 (D2H v)) as (s2 & E2 & M2 & H2 & _); [apply (iw_tri _ _ _ _ I1)|done|].
  exists s2. split; [done|]. split; [by apply (marks_inv ∅ (v :: O) OM s1)|]. split; [done|].
  destruct (mk_roots _ _ M2) as (R1 & R2 & R3). split; try apply M2; try done.
  - rewrite (heads_types s1 s2) by apply M2. apply counted_down_types.
  - split; [done|]. split; [done|]. apply M2.
  - unfold heapmem. by rewrite (mk_chain _ _ M2), (mk_hpst _ _ M2).
  - intros h. by rewrite <- (mk_white _ _ M2).
Qed.
Lemma retained_slots s s' : retained s s' -> slots s' = slots s.
Proof. intros [R1 R2 R3 R4 R5 R6 R7]. apply slots_same; try done. by rewrite R2. Qed.
Lemma retained_slot s s' a : retained s s' -> slot s a -> slot s' a.
Proof. intros [R1 R2 R3 R4 R5 R6 R7]. by apply slot_same. Qed.
Lemma retained_layout s s' : retained s s' -> layout s -> layout s'.
Proof.
  intros [R1 R2 R3 R4 R5 R6 R7] L. apply (layout_go s s' L); try done; [by rewrite R2| |by apply only_frees_eq].
  intros h hd' Hh. apply (f_equal (lookup h)) in R3. rewrite !lookup_fmap, Hh in R3. destruct (heap s !! h) as [hd|]; [|done]. injection R3 as R3. eauto.
Qed.
Lemma retained_kept s s' h : retained s s' -> kept s' h <-> kept s h.
Proof.
  intros R. unfold kept. rewrite (rt_white _ _ R). assert (E : is_Some (heap s' !! h) <-> is_Some (heap s !! h)); [|by rewrite E].
  rewrite <- (fmap_is_Some h_t (heap s' !! h)), <- (fmap_is_Some h_t (heap s !! h)), <- !lookup_fmap. by rewrite (rt_heap _ _ R).
Qed.
Lemma retained_refl s : retained s s.
Proof. by split. Qed.
(** The same for a word that may be nil. *)
Lemma retain_word_ok s v : inv s -> v = H \/ kept s (D2H v) ->
  exists s', (if v =? H then mret tt else incref (D2H v);; Setmark (D2H v)) s = Ok tt s' /\ inv_with ∅ [v] [] s' /\ (v = H \/ shaded s' (D2H v)) /\ retained s s'.
Proof.
  intros I Hv. destruct (Z.eqb_spec v H) as [E|E].
  - exists s. split; [done|]. split; [|split; [by left|apply retained_refl]]. rewrite E. destruct I as [T R P [C1 C2 C3 C4 C5 C6 C7 C9 C10 C8]].
    split; try done. split; try done. intros x [->|Hx]%elem_of_cons; [by left|by apply elem_of_nil in Hx].
  - destruct Hv as [?|Hk]; [done|]. destruct (retain_ok [] [] s v I Hk) as (s1 & E1 & I1 & Hs1 & R1). exists s1. split; [done|]. split; [done|]. split; [by right|done].
Qed.

(** The store and what it lets go. *)
Lemma replace_ok s v dst :
  inv_with ∅ [v] [] s -> layout s -> slot s dst -> v = H \/ shaded s (D2H v) ->
  exists s', (dv ← word dst; store dst v;; destroy dv) s = Ok tt s' /\ heap_ok s' /\ mem s' = mem (stored dst v s) /\ safe (stored dst v s) s'.
Proof.
  intros I L Hs Hv. rewrite (bind_ok _ _ (mem s dst) s s) by done. rewrite (bind_ok _ _ tt s (stored dst v s)) by done.
  pose proof (store_ok ∅ v [] [] s dst I (layout_slots _ L) Hs Hv) as I1. set (s1 := stored dst v s) in *.
  destruct (destroy_ok 65 ∅ (mem s dst) [] [] s1 I1) as (s2 & E2 & I2 & F2); [apply (ct_halt _ _ _ (iw_counted _ _ _ _ I1))|].
  rewrite !plus_empty in E2. exists s2. split; [done|].
  assert (S2 : safe s1 s2) by by apply spares_safe, (frees_spares ∅).
  split; [split; [done|]|].
  - apply (layout_safe s1); [|done]. apply layout_stored; [apply (iw_tri _ _ _ _ I)|done|done].
  - split; [apply F2|done].
Qed.
Lemma movp_ok s src dst :
  heap_ok s -> src ∈ slots s -> slot s dst ->
  exists s', movp src dst s = Ok tt s' /\ heap_ok s' /\ mem s' dst = mem s src /\ (forall x, x <> dst -> mem s' x = mem s x).
Proof.
  intros [I L] Hsrc Hdst. set (v := mem s src). unfold movp. rewrite (bind_ok _ _ v s s) by done.
  destruct (retain_word_ok s v I (slot_value ∅ [] [] s src I Hsrc)) as (s1 & E1 & I1 & Hv & R1). rewrite (bind_ok _ _ _ _ _ E1).
  destruct (replace_ok s1 v dst I1 (retained_layout _ _ R1 L) (retained_slot _ _ _ R1 Hdst) Hv) as (s2 & E2 & K2 & Em2 & _).
  exists s2. split; [done|]. split; [done|]. rewrite Em2. split; [by rewrite (st_self s1 dst v)|].
  intros x Hx. rewrite (st_other s1 dst v x Hx). by rewrite (rt_mem _ _ R1).
Qed.
