(* ===== verification/GcAlloc.v ===== *)
(** * Allocation (libinterp/heap.c, xec.c)

    nheap, heap, heapz, heaparray and the instructions that make data with them;
    what a block out of the pool changes, and when it may become data. *)

From S2P Require Import Prelude Pool Gc GcMark GcPool GcInv GcFree GcRun GcOps.

(** ** Allocation (heap.c) *)

Definition exHeap : string := "out of memory: heap".
(** The addresses of the descriptors Tarray, Tlist and Tptr. *)
Record builtin : Type := mkBuiltin { Tarray : Z; Tlist : Z; Tptr : Z }.
Definition sizeof_Array : Z := 32.
Definition sizeof_List : Z := 24.

(** [brk] and [garbage] are the host's part of poolalloc, [junk] what is in the
    memory of a block that was free, and [restricted] whether the program is. *)
Section Allocation.
Variable brk : Z -> option Z.
Variables garbage : Z.
Variable junk : Z -> Z.
Variable restricted : bool.
Variable bt : builtin.

Definition poolalloc (asize : Z) : S (option Z) := fun s =>
  match Pool.poolalloc brk garbage 1 restricted asize (heapmem s, ptr s) with
  | Ok r (P, p) =>
      let s := with_pool P p s in
      let old := fun v q => (H2D v <=? q) && (q <? v - sizeof_Bhdr + block_size (chain s) (D2B v)) in
      Ok r (match r with Some v => with_mem (fun m q => if old v q then junk q else m q) s | None => s end)
  | Err e _ => Err e s
  | Fault => Fault
  end.
Definition set_type (h t : Z) : S unit := modify (with_heap (alter (fun hd => mkHeap (h_color hd) (h_ref hd) t) h)).
Definition reftype (t : Z) : S unit :=
  modify (with_types (alter (fun y => mkTy (ty_ref y + 1) (ty_free y) (ty_mark y) (ty_size y) (ty_map y)) t)).
Definition nheap (n : Z) : S Z :=
  h ← poolalloc (sizeof_Heap + n);
  match h with
  | None => error exHeap
  | Some h =>
      m ← var mutator;
      modify (with_heap (<[h := mkHeap m 1 0]>));;
      mret h
  end.
(** The words of the map of [t] are made nil, in each byte from the last. *)
Definition initmem (t vw : Z) : S unit :=
  ty ← type_at t;
  for_all (fun q => store q H) (free_fields (ty_map ty) vw).
Definition heap_ (t : Z) : S Z :=
  ty ← type_at t;
  h ← poolalloc (sizeof_Heap + ty_size ty);
  match h with
  | None => error exHeap
  | Some h =>
      m ← var mutator;
      modify (with_heap (<[h := mkHeap m 1 t]>));;
      reftype t;;
      (match ty_map ty with [] => mret tt | _ => initmem t (H2D h) end);;
      mret h
  end.
Definition memset (a n : Z) : S unit := for_all (fun i => store (a + 8 * Z.of_nat i) 0) (seq 0 (Z.to_nat (n / 8))).
Definition heapz (t : Z) : S Z :=
  ty ← type_at t;
  h ← poolalloc (sizeof_Heap + ty_size ty);
  match h with
  | None => error exHeap
  | Some h =>
      m ← var mutator;
      modify (with_heap (<[h := mkHeap m 1 t]>));;
      reftype t;;
      memset (H2D h) (ty_size ty);;
      (match ty_map ty with [] => mret tt | _ => initmem t (H2D h) end);;
      mret h
  end.
Definition initarray (t a : Z) : S unit :=
  reftype t;;
  ty ← type_at t;
  match ty_map ty with
  | [] => mret tt
  | _ =>
      data ← word (a + 24);
      len ← word a;
      for_all (fun i => initmem t (data + Z.of_nat i * ty_size ty)) (seq 0 (Z.to_nat len))
  end.
Definition heaparray (t sz : Z) : S Z :=
  ty ← type_at t;
  h ← nheap (sizeof_Array + ty_size ty * sz);
  set_type h (Tarray bt);;
  reftype (Tarray bt);;
  let a := H2D h in
  store (a + 8) t;;
  store a sz;;
  store (a + 16) H;;
  store (a + 24) (a + sizeof_Array);;
  initarray t a;;
  mret h.

(** *** Instructions (xec.c) *)

(** new, newz and newa, whose type is [R.M->type[W(s)]]; a bound that acheck
    refuses is an error. *)
Definition new (t dst : Z) : S unit :=
  h ← heap_ t;
  d ← word dst;
  store dst (H2D h);;
  destroy d.
Definition newz (t dst : Z) : S unit :=
  h ← heapz t;
  d ← word dst;
  store dst (H2D h);;
  destroy d.
Definition newa (t sz dst : Z) : S unit :=
  h ← heaparray t sz;
  d ← word dst;
  store dst (H2D h);;
  destroy d.

(** The new cell goes in front of the list at [lp]. *)
Definition cons (n lp : Z) : S Z :=
  h ← nheap (sizeof_List + n - 8);
  set_type h (Tlist bt);;
  reftype (Tlist bt);;
  let l := H2D h in
  store (l + 8) 0;;
  lv ← word lp;
  (if lv =? H then mret tt else Setmark (D2H lv));;
  store l lv;;
  store lp l;;
  mret l.
Definition consw (src lp : Z) : S unit :=
  l ← cons 8 lp;
  w ← word src;
  store (l + 16) w.
Definition consp (src lp : Z) : S unit :=
  l ← cons 8 lp;
  sv ← word src;
  (if sv =? H then mret tt else incref (D2H sv);; Setmark (D2H sv));;
  store (l + 8) (Tptr bt);;
  reftype (Tptr bt);;
  store (l + 16) sv.
End Allocation.

(** ** A new block *)

(** The words the collector reads of blocks and frames. *)
Definition block_words (s : gcs) (h : Z) : list Z :=
  match heap s !! h with
  | Some hd => owned (mem s) (types s) (h_t hd) (H2D h) ++ header (types s) (h_t hd) (H2D h)
  | None => []
  end.
Definition unread (s : gcs) (q : Z) : Prop := (q ∉ frame_slots s) /\ forall h, q ∉ block_words s h.

(** A memory that differs only where nothing is read. *)
Section Unread.
Context (s : gcs) (m' : Z -> Z) (Hm : forall q, m' q = mem s q \/ unread s q).
Abbreviation s' := (with_mem (fun _ => m') s).

Lemma ur_block h hd q : heap s !! h = Some hd -> q ∈ owned (mem s) (types s) (h_t hd) (H2D h) ++ header (types s) (h_t hd) (H2D h) -> m' q = mem s q.
Proof. intros Hh Hq. destruct (Hm q) as [?|[_ Hu]]; [done|]. destruct (Hu h). unfold block_words. by rewrite Hh. Qed.
Lemma ur_header h hd q : heap s !! h = Some hd -> q ∈ header (types s) (h_t hd) (H2D h) -> m' q = mem s q.
Proof. intros Hh Hq. apply (ur_block h hd); [done|]. apply elem_of_app. by right. Qed.
Lemma ur_elem h hd ty : heap s !! h = Some hd -> h_t hd <> 0 -> types s !! h_t hd = Some ty -> ty_mark ty = Markarray ->
  m' (H2D h) = mem s (H2D h) /\ m' (H2D h + 8) = mem s (H2D h + 8) /\ m' (H2D h + 16) = mem s (H2D h + 16) /\ m' (H2D h + 24) = mem s (H2D h + 24) /\
  elem_slots m' (types s) (H2D h) = elem_slots (mem s) (types s) (H2D h).
Proof.
  intros Hh Ht Hty Hma. assert (Hd : header (types s) (h_t hd) (H2D h) = [H2D h; H2D h + 8; H2D h + 16; H2D h + 24]).
  { unfold header. rewrite (proj2 (Z.eqb_neq _ _) Ht), Hty, Hma. done. }
  assert (Hw : forall q, q ∈ [H2D h; H2D h + 8; H2D h + 16; H2D h + 24] -> m' q = mem s q) by (intros q Hq; apply (ur_header h hd); [done|by rewrite Hd]).
  assert (E0 := Hw (H2D h)). assert (E1 := Hw (H2D h + 8)). assert (E2 := Hw (H2D h + 16)). assert (E3 := Hw (H2D h + 24)).
  rewrite E0, E1, E2, E3 by set_solver. do 4 (split; [done|]). unfold elem_slots. by rewrite E0, E1, E3 by set_solver.
Qed.
Lemma ur_list h hd ty : heap s !! h = Some hd -> h_t hd <> 0 -> types s !! h_t hd = Some ty -> ty_mark ty = Marklist ->
  m' (H2D h) = mem s (H2D h) /\ m' (H2D h + 8) = mem s (H2D h + 8).
Proof.
  intros Hh Ht Hty Hma. assert (Hd : header (types s) (h_t hd) (H2D h) = [H2D h; H2D h + 8]).
  { unfold header. rewrite (proj2 (Z.eqb_neq _ _) Ht), Hty, Hma. done. }
  split; apply (ur_header h hd); try done; rewrite Hd; set_solver.
Qed.
Lemma ur_owned h hd : heap s !! h = Some hd -> owned m' (types s) (h_t hd) (H2D h) = owned (mem s) (types s) (h_t hd) (H2D h).
Proof.
  intros Hh. unfold owned. destruct (Z.eqb_spec (h_t hd) 0) as [|Ht]; [done|]. destruct (types s !! h_t hd) as [ty|] eqn:Hty; [|done].
  destruct (ty_mark ty) eqn:Hma; [done|done| |].
  - destruct (ur_elem h hd ty) as (_ & _ & E2 & _ & E); try done. by rewrite E2, E.
  - destruct (ur_list h hd ty) as (_ & E1); try done. by rewrite E1.
Qed.
Lemma ur_linked h hd : types_wf (types s) -> heap s !! h = Some hd -> linked m' (types s) (h_t hd) h = linked (mem s) (types s) (h_t hd) h.
Proof.
  intros Hwf Hh. unfold linked. destruct (Z.eqb_spec (h_t hd) 0) as [|Ht]; [done|]. destruct (types s !! h_t hd) as [ty|] eqn:Hty; [|done].
  destruct (ty_free ty) eqn:Hf; try done. f_equal. apply (ur_header h hd); [done|]. destruct (Hwf _ _ Hty) as [_ Hw]. rewrite Hf in Hw. destruct Hw as [Hma _].
  unfold header. rewrite (proj2 (Z.eqb_neq _ _) Ht), Hty, Hma, Hf. constructor.
Qed.
Lemma ur_shaped h hd : heap s !! h = Some hd -> h_t hd <> 0 -> shaped s (h_t hd) (H2D h) -> shaped s' (h_t hd) (H2D h).
Proof.
  intros Hh Ht (ty & Hty & Hma). exists ty. split; [done|]. destruct (ty_mark ty) eqn:Em; try done.
  - destruct (ur_elem h hd ty) as (E0 & E1 & _); try done. cbn [mem with_mem types] in *. by rewrite E0, E1.
  - destruct (ur_list h hd ty) as (E0 & E1); try done. cbn [mem with_mem types] in *. by rewrite E0, E1.
Qed.

Context {K : gmap Z Heap} {O OM : list Z} (I : inv_with K O OM s).
Lemma ur_elem_slot h q : kept s h -> is_array s h -> q ∈ elem_slots (mem s) (types s) (H2D h) -> m' q = mem s q.
Proof.
  intros Hk Ha Hq. pose proof (iw_counted _ _ _ _ I) as C. pose proof Ha as (hd & ty & Hh & Ht & Hty & Hma).
  assert (Hroot : forall r hr tr, heap s !! r = Some hr -> h_t hr <> 0 -> types s !! h_t hr = Some tr -> ty_mark tr = Markarray ->
    mem s (H2D r + 16) = H -> q ∈ elem_slots (mem s) (types s) (H2D r) -> m' q = mem s q).
  { intros r hr tr Hr Htr Htyr Hmr HH Hq'. apply (ur_block r hr); [done|]. apply elem_of_app. left. unfold owned.
    by rewrite (proj2 (Z.eqb_neq _ _) Htr), Htyr, Hmr, (proj2 (Z.eqb_eq _ _) HH). }
  destruct (ct_slices _ _ _ C h Hk Ha) as [E|((hr & tr & Hr & Htr & Htyr & Hmr) & HH & Hsub)]; [by apply (Hroot h hd ty)|].
  apply (Hroot (D2H (mem s (H2D h + 16))) hr tr); try done; rewrite H2D_D2H; [done|by apply Hsub].
Qed.
Lemma seen_fields_same map w x : (forall q, q ∈ fields map w -> m' q = mem s q) -> x ∈ seen_fields m' map w -> x ∈ seen_fields (mem s) map w.
Proof. rewrite !elem_seen_fields. intros Hq (q & Hin & -> & Hn). exists q. rewrite <- (Hq q Hin). done. Qed.
Lemma ur_points h x : kept s h -> x ∈ points s' h -> x ∈ points s h.
Proof.
  intros Hk. unfold points. cbn [heap with_mem mem types]. destruct (heap s !! h) as [hd|] eqn:Hh; [|done].
  destruct (Z.eqb_spec (h_t hd) 0) as [|Ht]; [done|]. intros (y & -> & Hy)%list_elem_of_fmap. apply list_elem_of_fmap_2. revert Hy.
  pose proof (ur_block h hd) as Hb. unfold owned in Hb. rewrite (proj2 (Z.eqb_neq _ _) Ht) in Hb.
  unfold seen. destruct (types s !! h_t hd) as [ty|] eqn:Hty; [|done]. destruct (ty_mark ty) eqn:Hma; [done| | |].
  - apply seen_fields_same. intros q Hq. apply (Hb q Hh). apply elem_of_app. by left.
  - destruct (ur_elem h hd ty) as (E0 & E1 & E2 & E3 & _); try done. rewrite E0, E1, E2, E3, !elem_of_app. intros [?|Hy]; [by left|right].
    destruct (types s !! mem s (H2D h + 8)) as [ety|] eqn:Het; [|done]. apply list_elem_of_bind in Hy as (i & Hy & Hi). apply list_elem_of_bind. exists i. split; [|done].
    revert Hy. apply seen_fields_same. intros q Hq. apply (ur_elem_slot h); [done|by exists hd, ty|]. unfold elem_slots. rewrite Het. apply list_elem_of_bind. eauto.
  - destruct (ur_list h hd ty) as (E0 & E1); try done. rewrite E0, E1, !elem_of_app. intros [Hy|?]; [left|by right].
    revert Hy. apply seen_fields_same. intros q Hq. apply (Hb q Hh). rewrite !elem_of_app. left. by left.
Qed.
Lemma ur_link ml : ml ∈ links s -> m' ml = mem s ml.
Proof.
  intros Hml. pose proof (iw_counted _ _ _ _ I) as C. destruct (ct_links _ _ _ C ml Hml) as (hd & ty & Hh & Ht & Hty & Hf).
  destruct (ct_types _ _ _ C _ _ Hty) as [_ Hw]. rewrite Hf in Hw. destruct Hw as [Hma Hmap].
  apply (ur_block (D2H ml) hd); [done|]. apply elem_of_app. left. unfold owned, map_of.
  rewrite (proj2 (Z.eqb_neq _ _) Ht), Hty, Hma, Hmap, fields_ptr, H2D_D2H. constructor.
Qed.
Lemma ur_frame q : q ∈ frame_slots s -> m' q = mem s q.
Proof. intros Hq. by destruct (Hm q) as [?|[Hu _]]. Qed.
Lemma ur_roots x : x ∈ roots s' -> x ∈ roots s.
Proof.
  unfold roots. cbn [progs ptrtab with_mem]. change (origmps s') with (origmps s). rewrite !elem_of_app. intros [Hx|Hx]; [left|by right].
  apply list_elem_of_bind in Hx as (p & Hx & Hp). apply list_elem_of_bind. exists p. split; [|done]. unfold prog_roots in *. rewrite elem_of_app in *.
  destruct Hx as [Hx|Hx].
  - left. unfold link_roots in *. cbn [mem with_mem] in Hx. rewrite ur_link in Hx; [done|]. apply list_elem_of_bind. exists p. split; [constructor|done].
  - right. apply list_elem_of_bind in Hx as (f & Hx & Hf). apply list_elem_of_bind. exists f. split; [|done]. unfold frame_roots in *. rewrite elem_of_app in *.
    destruct Hx as [Hx|Hx]; [left|right].
    + apply list_elem_of_fmap in Hx as (y & -> & Hy). apply list_elem_of_fmap_2. revert Hy. unfold seen. cbn [types mem with_mem].
      destruct (iv_frames _ (iw_tri _ _ _ _ I) p f Hp Hf) as (Ht & ty & Hty & Hma). rewrite Hty, Hma. apply seen_fields_same. intros q Hq. apply ur_frame.
      apply list_elem_of_bind. exists p. split; [|done]. apply list_elem_of_bind. exists f. split; [|done]. unfold owned.
      by rewrite (proj2 (Z.eqb_neq _ _) Ht), Hty, Hma.
    + destruct (f_mr f =? 0) eqn:E0; [by apply elem_of_nil in Hx|]. unfold link_roots in *. cbn [mem with_mem] in Hx. rewrite ur_link in Hx; [done|].
      apply list_elem_of_bind. exists p. split; [|done]. right. apply list_elem_of_bind. exists f. rewrite E0. split; [constructor|done].
Qed.
Lemma ur_frame_slots : frame_slots s' = frame_slots s.
Proof.
  apply bind_ext_in. intros p Hp. apply bind_ext_in. intros f Hf. destruct (iv_frames _ (iw_tri _ _ _ _ I) p f Hp Hf) as (Ht & ty & Hty & Hma).
  unfold owned. cbn [types with_mem]. by rewrite Hty, Hma.
Qed.
Lemma ur_block_slots : block_slots s' = block_slots s.
Proof.
  change (block_slots s') with (live_blocks s ≫= fun b => owned m' (types s) b.2 (H2D b.1)). apply bind_ext_in. intros [h t] Hb.
  apply elem_live in Hb as (hd & Hh & <- & _). by apply (ur_owned h hd).
Qed.
Lemma ur_owners : owners s' = owners s.
Proof.
  unfold owners. rewrite ur_frame_slots, ur_block_slots. change (held s') with (held s). f_equal. apply list_fmap_ext. intros i q Hq.
  apply list_elem_of_lookup_2, elem_of_app in Hq as [Hq|Hq]; [by apply ur_frame|].
  apply list_elem_of_bind in Hq as ([h t] & Hq & Hb). apply elem_live in Hb as (hd & Hh & <- & _). apply (ur_block h hd); [done|]. apply elem_of_app. by left.
Qed.
Lemma ur_mod_owners : mod_owners s' = mod_owners s.
Proof.
  apply bind_ext_in. intros [h t] Hb. apply elem_blocks in Hb as (hd & Hh & <-). apply (ur_linked h hd); [|done]. apply (ct_types _ _ _ (iw_counted _ _ _ _ I)).
Qed.
Lemma unread_inv : inv_with K O OM s'.
Proof.
  destruct (I) as [[I1 I2 I3 I4 I5 I6 I7 I9] R P [C1 C2 C3 C4 C5 C6 C7 C9 C10 C8]].
  split; [split; try assumption| |by destruct P; split|split; rewrite ?ur_owners, ?ur_mod_owners; try assumption].
  - intros h Hk. destruct (I5 h Hk) as [H1 H2]. split; [|intros x Hx; by apply H2, ur_points].
    intros hd Hh. destruct (H1 hd Hh) as [?|Hs]; [by left|]. destruct (Z.eq_dec (h_t hd) 0) as [?|Ht]; [by left|right]. by apply ur_shaped.
  - intros h Hh x Hx. apply (I9 h Hh). apply ur_points; [|done]. apply shaded_kept; [done|by left].
  - intros x Hx. by apply R, ur_roots.
  - intros h Hk Ha. assert (Hel : forall x, is_array s x -> m' (H2D x + 16) = mem s (H2D x + 16) /\ elem_slots m' (types s) (H2D x) = elem_slots (mem s) (types s) (H2D x)).
    { intros x (hd & ty & Hh & Ht & Hty & Hma). destruct (ur_elem x hd ty) as (_ & _ & E2 & _ & E); done. }
    destruct (Hel h Ha) as [E1 E2]. cbn zeta. cbn [mem with_mem types]. rewrite E1, E2. destruct (C6 h Hk Ha) as [?|(G1 & G2 & G3)]; [by left|right].
    destruct (Hel _ G1) as [E3 E4]. rewrite H2D_D2H in *. rewrite E3, E4. done.
Qed.
End Unread.

(** *** A block out of the pool *)

(** The block [b] at [h] has been got, and nothing in it is read yet. *)
Record fresh (s : gcs) (h : Z) (b : Bhdr) : Prop := {
  fs_used : b ∈ used (chain s);
  fs_addr : b_addr b = h - sizeof_Bhdr;
  fs_none : heap s !! h = None;
  fs_unread : forall q, H2D h <= q < b_addr b + b_size b -> unread s q;
  fs_top : h <> D2H H;
}.
Lemma cursor_taken s P' p b : takes (chain s) (arenas P') b -> cursor_ok s -> p = ptr s -> cursor_ok (with_pool P' p s).
Proof.
  intros [_ _ _ _ (ch1 & l0 & l0' & ch2 & E & E' & Hh & Hl & Ha)] Hc ->. unfold cursor_ok in *. cbn [base with_pool chain ptr limit].
  destruct (base s) as [bs|]; [|done]. destruct Hc as (l & rest & Hf & Hp & Hlt & Hlim). rewrite E in Hf. rewrite E'.
  destruct (from_arena_subst ch1 l0 l0' ch2 bs l rest Hh Hf) as [(r & -> & _ & Hn)|[(-> & -> & Hn)|(r & _ & Hn)]]; eauto 10.
  exists l0', ch2. rewrite (arena_limit_eq l0 l0' Hl). auto 10.
Qed.
Lemma ahead_taken s P' p b a : takes (chain s) (arenas P') b -> p = ptr s -> ahead s a -> ahead (with_pool P' p s) a.
Proof.
  intros [_ _ _ _ (ch1 & l0 & l0' & ch2 & E & E' & Hh & Hl & Ha)] -> Hc. unfold ahead in *. cbn [base with_pool chain ptr].
  destruct (base s) as [bs|]; [|done]. destruct Hc as (l & rest & Hf & Hah). rewrite E in Hf. rewrite E'.
  destruct (from_arena_subst ch1 l0 l0' ch2 bs l rest Hh Hf) as [(r & -> & _ & Hn)|[(-> & -> & Hn)|(r & _ & Hn)]]; [| |eauto 10].
  - exists l, (r ++ l0' :: ch2). split; [done|]. destruct Hah as [?|Hah]; [by left|right]. revert Hah. rewrite !addrs_mid. intros [?|[?|?]]; auto.
  - exists l0', ch2. split; [done|]. destruct Hah as [[H1 H2]|?]; [left; auto|by right].
Qed.

Definition hold (h : Z) (hd : Heap) : gmap Z Heap := <[h := hd]> ∅.
Lemma hold_some h hd x : is_Some (hold h hd !! x) <-> x = h.
Proof.
  unfold hold. destruct (decide (x = h)) as [->|Hn]; [rewrite lookup_insert_eq; split; eauto|]. rewrite lookup_insert_ne by done.
  rewrite lookup_empty. split; [by intros []|done].
Qed.
Lemma used_blocks K s : pool K s -> forall x, is_Some (heap s !! x) \/ is_Some (K !! x) <-> exists y, y ∈ used (chain s) /\ b_addr y = x - sizeof_Bhdr.
Proof.
  intros P x. rewrite (iv_blocks _ _ P x). split; intros (y & H1 & H2); exists y; rewrite elem_used in *; tauto.
Qed.

(** Where frames and blocks are not: where an arena may be. *)
Definition clear (s : gcs) (r : Z * Z) : Prop :=
  (forall q, q ∈ frame_slots s -> q + 8 <= r.1 \/ r.2 <= q) /\ 0 < r.1 /\ r.2 < H.
(** The pool [P'], with the cursor at [p'], has besides what it had the blocks [bs]
    in use; the walk has still to visit what it had. *)
Record grants (s : gcs) (P' : Pool) (p' : Z) (bs : list Bhdr) : Prop := {
  gr_ok : pool_ok P';
  gr_used : used (arenas P') ≡ₚ bs ++ used (chain s);
  gr_new : forall b, b ∈ bs -> b_addr b ∉ addrs (used (chain s));
  gr_cursor : cursor_ok s -> cursor_ok (with_pool P' p' s);
  gr_ahead : forall a, cursor_ok s -> a ∈ addrs (used (chain s)) -> ahead s a -> ahead (with_pool P' p' s) a;
  gr_some : chain s <> [] -> arenas P' <> [];
  gr_clear : (forall l, l ∈ chain s -> clear s (area l)) -> forall l, l ∈ arenas P' -> clear s (area l);
}.
Lemma takes_grants s P' b : pool_ok P' -> takes (chain s) (arenas P') b -> grants s P' (ptr s) [b].
Proof.
  intros HP Ht. split; [done|apply (tk_used _ _ _ Ht)| |intros Hc; by apply (cursor_taken s P' (ptr s) b)| | |].
  - intros x ->%list_elem_of_singleton. apply (tk_new _ _ _ Ht).
  - intros a _ _ Ha. by apply (ahead_taken s P' (ptr s) b).
  - destruct (tk_split _ _ _ Ht) as (ch1 & l & l' & ch2 & _ & E & _). rewrite E. by destruct ch1.
  - intros Hc l Hl. destruct (spans_area _ _ _ (tk_spans _ _ _ Ht) Hl) as (l0 & Hl0 & ->). by apply Hc.
Qed.
Lemma layout_clear s l : layout s -> l ∈ chain s -> clear s (area l).
Proof. intros L Hl. split; [|by apply (ly_top _ L)]. intros q Hq. by apply (ly_frames _ L). Qed.

(** What holds of any pool that grants. *)
Section Granted.
Context (O OM : list Z) (s : gcs) (P' : Pool) (p' : Z) (bs : list Bhdr).
Context (I : inv_with ∅ O OM s) (L : layout s) (Gr : grants s P' p' bs).
Abbreviation s' := (with_pool P' p' s).

Lemma got_blocks x : is_Some (heap s !! x) <-> exists y, y ∈ used (chain s) /\ b_addr y = x - sizeof_Bhdr.
Proof. rewrite <- (used_blocks ∅ s (iw_pool _ _ _ _ I)). rewrite lookup_empty. split; [by left|]. intros [?|[? ?]]; done. Qed.
Lemma got_used x : x ∈ used (arenas P') <-> x ∈ bs \/ x ∈ used (chain s).
Proof. by rewrite (gr_used _ _ _ _ Gr), elem_of_app. Qed.
Lemma got_other x hd' y : heap s !! x = Some hd' -> y ∈ used (arenas P') -> b_addr y = x - sizeof_Bhdr -> y ∈ used (chain s) /\ y ∉ bs.
Proof.
  intros Hx Hy Ey. destruct (proj1 (got_blocks x) (ex_intro _ hd' Hx)) as (z & Hz & Ez).
  assert (Hn : y ∉ bs). { intros Hb. apply (gr_new _ _ _ _ Gr y Hb). rewrite Ey, <- Ez. by apply list_elem_of_fmap_2. }
  apply got_used in Hy as [?|?]; done.
Qed.
Lemma got_clear l : l ∈ arenas P' -> clear s (area l).
Proof. apply (gr_clear _ _ _ _ Gr). intros l'. by apply layout_clear. Qed.
Lemma got_layout : layout s'.
Proof.
  destruct L as [L1 L2 L3 L4 L5 L6]. split; try assumption.
  - pose proof (gr_ok _ _ _ _ Gr) as HP. by destruct P'.
  - intros x hd' y q Hx Hy Ey. destruct (got_other x hd' y Hx Hy Ey) as [Hy' _]. by apply (L3 x hd' y).
  - intros q l Hq Hl. by apply (got_clear l Hl).
  - intros l Hl. by apply (got_clear l Hl).
Qed.
Lemma got_ahead x : is_Some (heap s !! x) -> ahead s (x - sizeof_Bhdr) -> ahead s' (x - sizeof_Bhdr).
Proof.
  intros (y & Hy & Ey)%got_blocks. apply (gr_ahead _ _ _ _ Gr); [apply (iv_cursor _ _ (iw_pool _ _ _ _ I))|]. rewrite <- Ey. by apply list_elem_of_fmap_2.
Qed.
(** [K] are the blocks granted, which are no data. *)
Lemma granted_inv K : (forall x, is_Some (K !! x) <-> exists b, b ∈ bs /\ x = B2D (b_addr b)) -> inv_with K O OM s'.
Proof.
  intros HK. pose proof I as [T R [P1 P2 P3 P4 P5 P6 P7] C]. split; [by destruct T; split|exact R| |by destruct C; split]. split.
  - intros En x Hx. apply got_ahead; [|by apply P1]. change (color s x = Some propagator) in Hx. apply color_some. rewrite Hx. eauto.
  - intros x Hx. apply got_ahead; [|by apply P2]. change (white s x) in Hx. apply color_some. unfold white in Hx. rewrite Hx. eauto.
  - split; [apply (gr_ok _ _ _ _ Gr)|apply arenas_nodup, (gr_ok _ _ _ _ Gr)].
  - by apply (gr_some _ _ _ _ Gr).
  - by apply (gr_cursor _ _ _ _ Gr).
  - intros x. cbn [heap with_pool chain]. rewrite HK, got_blocks. unfold B2D. split.
    + intros Hx. assert (Hy : exists y, y ∈ used (arenas P') /\ b_addr y = x - sizeof_Bhdr).
      { destruct Hx as [(y & Hy & Ey)|(b & Hb & ->)]; [exists y|exists b]; rewrite got_used; [auto|]. split; [by left|lia]. }
      destruct Hy as (y & [Hm Hy]%elem_used & Ey). by exists y.
    + intros (y & Hy & Hm & Ey). assert (Hy' : y ∈ used (arenas P')) by (by apply elem_used). apply got_used in Hy' as [?|?]; [right|left; eauto].
      exists y. split; [done|lia].
  - intros x (b & Hb & ->)%HK. cbn [heap with_pool]. apply eq_None_not_Some. intros (y & Hy & Ey)%got_blocks.
    apply (gr_new _ _ _ _ Gr b Hb). replace (b_addr b) with (b_addr y) by (unfold B2D in Ey; lia). by apply list_elem_of_fmap_2.
Qed.
End Granted.
(** Nothing granted. *)
Lemma none_inv O OM s P' p' : inv_with ∅ O OM s -> grants s P' p' [] -> inv_with ∅ O OM (with_pool P' p' s).
Proof.
  intros I Gr. apply (granted_inv O OM s P' p' []); [done|done|]. intros x. rewrite lookup_empty. split; [by intros []|]. by intros (b & ?%elem_of_nil & _).
Qed.

(** The block [b] of the pool is got. *)
Section Got.
Context (O OM : list Z) (s : gcs) (P' : Pool) (p' : Z) (b : Bhdr) (hd : Heap).
Context (I : inv_with ∅ O OM s) (L : layout s) (Gr : grants s P' p' [b]).
Abbreviation h := (B2D (b_addr b)).
Abbreviation s' := (with_pool P' p' s).

Lemma got_addr : b_addr b = h - sizeof_Bhdr.
Proof. unfold B2D. lia. Qed.
Lemma got_heap : inv_with (hold h hd) O OM s'.
Proof.
  apply (granted_inv O OM s P' p' [b]); [done|done|]. intros x. rewrite hold_some. split; [intros ->; exists b; split; [constructor|done]|].
  by intros (b' & ->%list_elem_of_singleton & ->).
Qed.
Lemma got_none : heap s !! h = None.
Proof.
  apply eq_None_not_Some. intros (y & Hy & Ey)%(got_blocks O OM s I). apply (gr_new _ _ _ _ Gr b ltac:(constructor)). rewrite got_addr, <- Ey.
  by apply list_elem_of_fmap_2.
Qed.
Lemma got_in : b ∈ used (arenas P').
Proof. apply (got_used s P' p' [b] Gr). left. constructor. Qed.
Lemma got_fresh : fresh s' h b.
Proof.
  destruct (used_within _ b (po_arenas _ (gr_ok _ _ _ _ Gr)) got_in) as (l & Hl & Hb1 & Hb2 & Hb3). pose proof (got_clear s P' p' [b] L Gr l Hl) as [Hc1 Hc2].
  split; [apply got_in|apply got_addr|apply got_none| |].
  - intros q Hq. split.
    + intros Hqf. destruct (Hc1 q Hqf); unfold H2D, B2D, sizeof_Heap, sizeof_Bhdr, pool_quanta in *; lia.
    + intros x Hqx. unfold block_words in Hqx. destruct (heap s' !! x) as [hd'|] eqn:Hx; [|by apply elem_of_nil in Hqx].
      change (heap s !! x = Some hd') in Hx. destruct (proj1 (got_blocks O OM s I x) (ex_intro _ hd' Hx)) as (y & Hy & Ey).
      destruct (ly_inside _ L x hd' y q Hx Hy Ey Hqx) as [G1 G2].
      assert (Hy' : y ∈ used (arenas P')) by (apply (got_used s P' p' [b] Gr); by right).
      destruct (got_other O OM s P' p' [b] I Gr x hd' y Hx Hy' Ey) as [_ Hyb]. rewrite list_elem_of_singleton in Hyb.
      destruct (used_disjoint _ y b (po_arenas _ (gr_ok _ _ _ _ Gr)) Hy' got_in Hyb); unfold H2D, B2D, sizeof_Heap, sizeof_Bhdr in *; lia.
  - intros E. unfold B2D, D2H, sizeof_Heap, sizeof_Bhdr, pool_quanta, H in *. lia.
Qed.
End Got.

(** Writing to it, whatever it is. *)
Definition within (h : Z) (b : Bhdr) (q : Z) : Prop := H2D h <= q < b_addr b + b_size b.
Section Written.
Context (K : gmap Z Heap) (O OM : list Z) (s : gcs) (h : Z) (b : Bhdr) (m' : Z -> Z).
Context (I : inv_with K O OM s) (L : layout s) (F : fresh s h b) (Hm : forall q, ~ within h b q -> m' q = mem s q).
Abbreviation s' := (with_mem (fun _ => m') s).

Lemma written_unread q : m' q = mem s q \/ unread s q.
Proof.
  destruct (decide (H2D h <= q < b_addr b + b_size b)) as [Hq|Hq]; [right; by apply (fs_unread _ _ _ F)|left; by apply Hm].
Qed.
Lemma written_owned x hd : heap s !! x = Some hd -> owned m' (types s) (h_t hd) (H2D x) = owned (mem s) (types s) (h_t hd) (H2D x).
Proof. apply (ur_owned s m' written_unread). Qed.
Lemma written_frames : frame_slots s' = frame_slots s.
Proof. apply (ur_frame_slots s m' I). Qed.
Lemma written_inv : inv_with K O OM s'.
Proof. by apply unread_inv; [apply written_unread|]. Qed.
Lemma written_fresh : fresh s' h b.
Proof.
  destruct F as [F1 F2 F3 F4 F5]. split; try done. intros q Hq. destruct (F4 q Hq) as [U1 U2]. split; [by rewrite written_frames|].
  intros x Hx. apply (U2 x). unfold block_words in *. change (heap s') with (heap s) in Hx. destruct (heap s !! x) as [hd|] eqn:Hh; [|done].
  cbn [mem with_mem types] in Hx. by rewrite written_owned in Hx.
Qed.
Lemma written_layout : layout s'.
Proof.
  destruct L as [L1 L2 L3 L4 L5 L6]. split; try assumption.
  - unfold all_slots. rewrite written_frames. change (blocks s') with (blocks s). change (types s') with (types s).
    rewrite (bind_ext_in _ (fun b => owned (mem s) (types s) b.2 (H2D b.1)) (blocks s)); [done|]. intros [x t] (hd & Hh & <-)%elem_blocks.
    by apply (written_owned x hd).
  - intros x hd y q Hx Hy Ey. cbn [mem with_mem types]. rewrite (written_owned x hd Hx). by apply (L3 x hd y).
  - intros q l. rewrite written_frames. apply L4.
Qed.
End Written.

(** *** The block is data *)

(** A pointer that is held or is in a word of a kept block. *)
Lemma owner_kept K O OM s v : inv_with K O OM s -> v ∈ owners s -> v = H \/ kept s (D2H v).
Proof.
  intros I Hv. apply elem_of_app in Hv as [Hv|Hv].
  - apply list_elem_of_fmap in Hv as (q & -> & Hq). by apply (slot_value K O OM).
  - destruct (decide (v = H)) as [?|Hn]; [by left|right]. pose proof (iw_tri _ _ _ _ I) as T. apply shaded_kept; [apply T|]. apply (iw_roots _ _ _ _ I).
    apply elem_of_app in Hv as [Hv|[Hv|Hv]%elem_of_app]; [by apply link_root|apply elem_of_app; right; apply elem_of_app..].
    + left. apply list_elem_of_fmap_2, list_elem_of_bind. exists v. by rewrite elem_not_H.
    + right. apply list_elem_of_fmap in Hv as (x & -> & Hx). by rewrite D2H_H2D.
Qed.


Section Reveal.
Context (O vals : list Z) (s : gcs) (h : Z) (b : Bhdr) (hd : Heap).
Context (I : inv_with (hold h hd) (vals ++ O) [] s) (L : layout s) (F : fresh s h b).
Context (Hcolor : h_color hd = mutator (vars s)) (Href : 1 <= h_ref hd).
Abbreviation t := (h_t hd).
Abbreviation words := (owned (mem s) (types s) t (H2D h)).
Context (Htyped : t = 0 \/ exists ty, types s !! t = Some ty /\ ty_free ty <> nofree /\ ty_free ty <> Freemodlink /\
  (ty_mark ty = Markarray -> mem s (H2D h + 16) = H)).
Context (Hshaped : t = 0 \/ shaped s t (H2D h)).
Context (Hinside : forall q, q ∈ words ++ header (types s) t (H2D h) -> H2D h <= q /\ q + 8 <= b_addr b + b_size b).
Context (Hnodup : NoDup words) (Hvals : forall x, (refs_to x (mem s <$> words) <= refs_to x vals)%nat).
Context (Hshaded : forall q, q ∈ words -> mem s q = H \/ shaded s (D2H (mem s q))).
Abbreviation s' := (with_heap (fun m => <[h := hd]> m) s).

Lemma rv_lookup x : x <> h -> heap s' !! x = heap s !! x.
Proof. intros Hn. cbn. by rewrite lookup_insert_ne. Qed.
Lemma rv_self : heap s' !! h = Some hd.
Proof. cbn. apply lookup_insert_eq. Qed.
Lemma rv_old x hx : heap s !! x = Some hx -> x <> h /\ heap s' !! x = Some hx.
Proof. intros Hx. assert (Hn : x <> h) by (intros ->; by rewrite (fs_none _ _ _ F) in Hx). split; [done|]. by rewrite rv_lookup. Qed.
Lemma rv_color x : color s' x = if decide (x = h) then Some (mutator (vars s)) else color s x.
Proof.
  unfold color. destruct (decide (x = h)) as [->|Hn]; [rewrite rv_self; cbn; by rewrite Hcolor|by rewrite rv_lookup].
Qed.
Lemma rv_colors : 0 <= mutator (vars s) < 3 /\ mutator (vars s) <> sweeper (vars s).
Proof. destruct (iv_colors _ (iw_tri _ _ _ _ I)) as (H1 & _ & H2). done. Qed.
Lemma rv_white x : white s' x <-> white s x.
Proof.
  unfold white. rewrite rv_color. destruct (decide (x = h)) as [->|Hn]; [|done]. change (sweeper (vars s')) with (sweeper (vars s)).
  unfold color. rewrite (fs_none _ _ _ F). destruct rv_colors as [_ Hc]. split; [intros [= E]; congruence|done].
Qed.
Lemma rv_kept x : kept s' x <-> x = h \/ kept s x.
Proof.
  unfold kept. rewrite rv_white. destruct (decide (x = h)) as [->|Hn].
  - rewrite rv_self. split; [by left|]. intros _. split; [done|]. unfold white, color. by rewrite (fs_none _ _ _ F).
  - rewrite rv_lookup by done. split; [by right|]. by intros [?|?].
Qed.
Lemma rv_shaded x : shaded s x -> shaded s' x.
Proof.
  unfold shaded, is_mutator. rewrite rv_color. destruct (decide (x = h)) as [->|Hn]; [|done]. intros _. by left.
Qed.
Lemma rv_is_list v : is_list s v -> is_list s' v.
Proof. intros [->|(hx & ty & Hx & Hr)]; [by left|right]. exists hx, ty. by rewrite (proj2 (rv_old _ _ Hx)). Qed.
Lemma rv_shaped t' vw : shaped s t' vw -> shaped s' t' vw.
Proof.
  intros (ty & Hty & Hs). exists ty. split; [done|]. destruct (ty_mark ty); try done. destruct Hs as [H1 H2]. split; [done|by apply rv_is_list].
Qed.
Lemma rv_points x : x <> h -> points s' x = points s x.
Proof. intros Hn. unfold points. by rewrite rv_lookup. Qed.
(** What the new block points to. *)
Lemma rv_new x : x ∈ points s' h -> exists q, q ∈ words /\ mem s q <> H /\ x = D2H (mem s q).
Proof.
  unfold points. rewrite rv_self. destruct (Z.eqb_spec t 0) as [|Ht]; [by intros ?%elem_of_nil|].
  intros (v & -> & Hv)%list_elem_of_fmap. destruct (seen_slot (mem s) (types s) t (H2D h) v Ht Hv) as (Hn & q & -> & [Hq|(ty & Hty & Hma & Hq)]); [eauto|].
  exists q. split; [|done]. destruct Htyped as [?|(ty' & Hty' & _ & _ & Hroot)]; [done|]. assert (ty' = ty) as -> by congruence.
  unfold owned. by rewrite (proj2 (Z.eqb_neq _ _) Ht), Hty, Hma, (proj2 (Z.eqb_eq _ _) (Hroot Hma)).
Qed.
Lemma rv_new_shaded x : x ∈ points s' h -> shaded s x.
Proof. intros (q & Hq & Hn & ->)%rv_new. by destruct (Hshaded q Hq). Qed.
Lemma rv_tri : tri s' /\ rooted s'.
Proof.
  pose proof (iw_tri _ _ _ _ I) as [I1 I2 I3 I4 I5 I6 I7 I9]. destruct rv_colors as [Hc1 Hc2]. split; [split; try assumption|].
  - intros x. rewrite rv_color, rv_white. destruct (decide (x = h)) as [->|Hn]; [|apply I3]. intros [= E]. cbn in E. rewrite I2 in E. by destruct (next_mod (gccolor (vars s))).
  - intros x c. rewrite rv_color. destruct (decide (x = h)) as [->|Hn]; [|apply I4]. intros [= <-]. lia.
  - intros x Hx. destruct (decide (x = h)) as [->|Hn].
    + split; [|intros y Hy; apply rv_kept; right; apply shaded_kept; [done|by apply rv_new_shaded]].
      intros hd' Hh. rewrite rv_self in Hh. injection Hh as <-. destruct Hshaped as [?|Hs]; [by left|right]. by apply rv_shaped.
    + apply rv_kept in Hx as [?|Hk]; [done|]. destruct (I5 x Hk) as [H1 H2]. split.
      * intros hd' Hh. rewrite rv_lookup in Hh by done. destruct (H1 hd' Hh) as [?|Hs]; [by left|right]. by apply rv_shaped.
      * intros y Hy. rewrite rv_points in Hy by done. apply rv_kept. right. by apply H2.
  - intros x hx. destruct (decide (x = h)) as [->|Hn]; [|rewrite rv_lookup by done; apply I6]. rewrite rv_self. intros [= <-].
    destruct Htyped as [?|(ty & ? & ? & _)]; [by left|right; eauto].
  - intros x Hx y Hy. apply rv_shaded. destruct (decide (x = h)) as [->|Hn]; [by apply rv_new_shaded|].
    rewrite rv_points in Hy by done. apply (I9 x); [|done]. unfold is_mutator in *. by rewrite rv_color, decide_False in Hx.
  - intros x Hx. apply rv_shaded. by apply (iw_roots _ _ _ _ I).
Qed.
Lemma rv_delete : with_heap (delete h) s' = s.
Proof. destruct s as [m ty he ch st ba p l ps ms pt g vs]. unfold with_heap. cbn. f_equal. rewrite delete_insert_eq. apply delete_id. apply (fs_none _ _ _ F). Qed.
Lemma rv_not_white : ~ white s' h.
Proof. apply rv_kept. by left. Qed.
Lemma rv_owners : owners s' ≡ₚ (mem s <$> words) ++ owners s.
Proof. rewrite (owners_delete s' h hd rv_self), rv_delete, decide_False by apply rv_not_white. done. Qed.
Lemma rv_mod_owners : mod_owners s' ≡ₚ mod_owners s.
Proof.
  rewrite (mod_owners_delete s' h hd rv_self), rv_delete. cbn [mem with_heap types]. unfold linked. destruct (Z.eqb_spec t 0); [done|].
  destruct Htyped as [E|(ty & Hty & _ & Hf & _)]; [done|].
  rewrite Hty. by destruct (ty_free ty).
Qed.
(** All pointers there are to a block that is kept, or nil. *)
Lemma rv_owner v : v ∈ owners s -> v = H \/ kept s (D2H v).
Proof. apply (owner_kept (hold h hd) (vals ++ O) []), I. Qed.
Lemma rv_unowned l : (forall v, v ∈ l -> v = H \/ kept s (D2H v)) -> refs_to h l = 0%nat.
Proof.
  intros Hl. unfold refs_to. rewrite filter_none; [done|]. intros v Hv [Hn E]. destruct (Hl v Hv) as [?|[[hx Hx] _]]; [done|].
  rewrite E in Hx. by rewrite (fs_none _ _ _ F) in Hx.
Qed.
Lemma rv_refs : Z.of_nat (refs_to h ((H2D h :: O) ++ owners s')) <= h_ref hd /\
  forall x, x <> h -> (refs_to x ((H2D h :: O) ++ owners s') <= refs_to x ((vals ++ O) ++ owners s))%nat.
Proof.
  pose proof (ct_tokens _ _ _ (iw_counted _ _ _ _ I)) as Htok. split.
  - rewrite rv_owners. cbn [app]. rewrite refs_to_cons, !refs_to_app. rewrite decide_True by (rewrite D2H_H2D; split; [intros E; apply (fs_top _ _ _ F); by rewrite <- E, D2H_H2D|done]).
    rewrite (rv_unowned O) by (intros v Hv; apply Htok, elem_of_app; by right). rewrite (rv_unowned (owners s)) by apply rv_owner.
    pose proof (Hvals h) as Hv. rewrite (rv_unowned vals) in Hv by (intros v Hv'; apply Htok, elem_of_app; by left). lia.
  - intros x Hn. rewrite rv_owners. cbn [app]. rewrite refs_to_cons, !refs_to_app, decide_False by (rewrite D2H_H2D; by intros [_ ?]). specialize (Hvals x). lia.
Qed.
Lemma rv_array x : x <> h -> is_array s' x <-> is_array s x.
Proof. intros Hn. unfold is_array. by rewrite rv_lookup. Qed.
Lemma rv_counted : counted (H2D h :: O) [] s'.
Proof.
  pose proof (iw_counted _ _ _ _ I) as [C1 C2 C3 C4 C5 C6 C7 C9 C10 C8]. destruct rv_refs as [R1 R2]. split; try assumption; try (setoid_rewrite rv_mod_owners; assumption).
  - intros x hx Hx. destruct (decide (x = h)) as [->|Hn]; [rewrite rv_self in Hx; by injection Hx as <-|]. rewrite rv_lookup in Hx by done.
    specialize (C1 x hx Hx). specialize (R2 x Hn). lia.
  - intros v [->|Hv]%elem_of_cons; [right; rewrite D2H_H2D; apply rv_kept; by left|]. destruct (C2 v) as [?|?]; [apply elem_of_app; by right|by left|right].
    apply rv_kept. by right.
  - intros x Hk Ha. cbn zeta. destruct (decide (x = h)) as [->|Hn].
    + left. destruct Ha as (hx & ty & Hx & Ht & Hty & Hma). rewrite rv_self in Hx. injection Hx as <-. destruct Htyped as [?|(ty' & Hty' & _ & _ & Hroot)]; [done|].
      cbn [types with_heap] in Hty. apply Hroot. congruence.
    + apply rv_kept in Hk as [?|Hk]; [done|]. apply rv_array in Ha; [|done]. destruct (C6 x Hk Ha) as [?|(G1 & G2 & G3)]; [by left|right]. split; [|done].
      apply rv_array; [|done]. intros E. destruct G1 as (hx & ty & Hx & _). cbn [mem with_heap] in E, Hx. rewrite E in Hx. by rewrite (fs_none _ _ _ F) in Hx.
  - intros ml Hml. destruct (C9 ml Hml) as (hx & ty & Hx & Hr). exists hx, ty. by rewrite (proj2 (rv_old _ _ Hx)).
  - rewrite rv_lookup; [done|]. intros E. by apply (fs_top _ _ _ F).
Qed.
Lemma rv_pool : pool ∅ s'.
Proof.
  destruct (iw_pool _ _ _ _ I) as [P1 P2 P3 P4 P5 P6 P7]. destruct rv_colors as [Hc1 Hc2]. split; try assumption.
  - intros En x. rewrite rv_color. destruct (decide (x = h)) as [->|Hn]; [|by apply P1]. intros [= E]. unfold propagator in E. lia.
  - intros x Hx. apply rv_white in Hx. by apply P2.
  - intros x. rewrite lookup_empty. rewrite <- P6, hold_some. destruct (decide (x = h)) as [->|Hn].
    + rewrite rv_self. split; [by right|]. intros _. left. eauto.
    + rewrite rv_lookup by done. split; [intros [?|[? ?]]; [by left|done]|intros [?|?]; [by left|done]].
  - intros x. rewrite lookup_empty. by intros [].
Qed.
Lemma reveal_inv : inv_with ∅ (H2D h :: O) [] s'.
Proof. destruct rv_tri as [T R]. split; [done|done|apply rv_pool|apply rv_counted]. Qed.
Lemma reveal_layout : layout s'.
Proof.
  destruct L as [L1 L2 L3 L4 L5 L6]. pose proof F as [F1 F2 F3 F4 F5]. split; try assumption.
  - assert (E : all_slots s' ≡ₚ words ++ all_slots s).
    { unfold all_slots. rewrite (blocks_delete s' h hd rv_self), rv_delete. cbn [mbind list_bind]. change (frame_slots s') with (frame_slots s). cbn [fst snd].
      apply Permutation_app_swap_app. }
    rewrite E. apply list.NoDup_app. split; [done|]. split; [|done]. intros q Hq Hin. destruct (Hinside q) as [G1 G2]; [apply elem_of_app; by left|].
    destruct (F4 q) as [U1 U2]; [lia|]. apply elem_of_app in Hin as [?|Hin]; [done|]. apply list_elem_of_bind in Hin as ([x t'] & Hin & Hb).
    apply elem_blocks in Hb as (hx & Hx & <-). apply (U2 x). unfold block_words. rewrite Hx. apply elem_of_app. by left.
  - intros x hx y q Hx Hy Ey Hq. destruct (decide (x = h)) as [->|Hn]; [|rewrite rv_lookup in Hx by done; by apply (L3 x hx y q)].
    rewrite rv_self in Hx. injection Hx as <-. assert (y = b) as ->; [|by apply Hinside].
    apply (block_unique (chain s)); [apply arenas_nodup, L1|apply elem_used in Hy; tauto|apply elem_used in F1; tauto|congruence].
Qed.
End Reveal.
