(* ===== verification/GcGrow.v ===== *)
(** * Memory for the heap (emu/port/alloc.c, libinterp/heap.c)

    What an allocation does to the heap's pool while the collector is at its walk: a
    block of the tree is taken, or an arena is made of the host's memory, or the first
    arena is extended by it.  The collector's limit stays that of the arena as it was. *)

From S2P Require Import Prelude Pool Gc GcMark GcPool GcInv GcFree GcRun GcOps GcAlloc.

(** What the host promises of the memory it gives: aligned, addresses of words, and
    apart from the arenas and the frames. *)
Definition host_ok (brk : Z -> option Z) (s : gcs) : Prop :=
  forall n t, brk n = Some t -> t mod 8 = 0 /\ clear s (t, t + n) /\ forall l, l ∈ chain s -> Pool.apart (t, t + n) (area l).

(** *** A new arena *)

Lemma from_arena_head ch b l rest : from_arena ch b = l :: rest -> b_addr <$> head l = Some b /\ l ∈ ch.
Proof.
  induction ch as [|y ch IH]; cbn; [done|]. case_bool_decide as Hy; [intros [= <- <-]; split; [done|constructor]|].
  intros E. destruct (IH E) as [H1 H2]. split; [done|by right].
Qed.
Lemma area_head l b : arena_ok l -> b_addr <$> head l = Some b -> (area l).1 = b /\ (area l).1 < (area l).2.
Proof.
  intros Hl. destruct (arena_first l Hl) as (x & l' & -> & Hlt & _). cbn. intros [= <-]. split; [done|]. unfold pool_quanta. lia.
Qed.
Lemma front_cursor s P' l b l0 rest : arenas_ok (chain s) -> arenas P' = l :: chain s -> (forall l', l' ∈ chain s -> (area l).1 <> (area l').1) ->
  b_addr <$> head l = Some (area l).1 -> from_arena (chain s) b = l0 :: rest -> from_arena (arenas P') b = l0 :: rest.
Proof.
  intros A -> Hap Hh E. destruct (from_arena_head _ _ _ _ E) as [H1 H2]. destruct (area_head l0 b (arena_in _ _ A H2) H1) as [Eb _].
  cbn [from_arena]. rewrite bool_decide_false; [done|]. rewrite Hh. intros [= Ea]. apply (Hap l0 H2). congruence.
Qed.
Lemma front_grants s P1 P' l b : arenas P1 = chain s -> arenas P' = l :: chain s -> gets_block P1 P' b -> clear s (area l) ->
  grants s P' (ptr s) [b].
Proof.
  intros E1 E' [G1 G2 G3] Hc. rewrite E1 in G2, G3. pose proof (po_arenas _ G1) as A. rewrite E' in A.
  pose proof A as (A' & Hl & _ & Hap)%(arenas_mid []).
  assert (Hh : b_addr <$> head l = Some (area l).1) by (destruct (arena_first l Hl) as (x & l' & -> & _); done).
  assert (Hne : forall l', l' ∈ chain s -> (area l).1 <> (area l').1).
  { intros l' Hl'. specialize (Hap l' Hl'). destruct (arena_first l' (arena_in _ _ A' Hl')) as (x & l2 & -> & _).
    destruct (area_head l _ Hl Hh) as [_ H1]. destruct (area_head (x :: l2) _ (arena_in _ _ A' Hl') eq_refl) as [_ H2]. unfold Pool.apart in Hap. lia. }
  split; [done|done| | | | |].
  - by intros x ->%list_elem_of_singleton.
  - unfold cursor_ok. cbn [base with_pool ptr limit chain]. destruct (base s) as [bs|]; [|done].
    intros (l0 & rest & Hf & Hr). exists l0, rest. split; [|done]. by apply (front_cursor s P' l).
  - intros a _ _. unfold ahead. cbn [base with_pool ptr limit chain]. destruct (base s) as [bs|]; [|done].
    intros (l0 & rest & Hf & Hr). exists l0, rest. split; [|done]. by apply (front_cursor s P' l).
  - by rewrite E'.
  - intros Hold l' Hl'. rewrite E' in Hl'. apply elem_of_cons in Hl' as [->|Hl']; [done|by apply Hold].
Qed.

Lemma grants_trans s P p P' p' bs : grants s P p [] -> grants (with_pool P p s) P' p' bs -> grants s P' p' bs.
Proof.
  intros [G1 G2 G3 G4 G5 G6 G7] [K1 K2 K3 K4 K5 K6 K7]. cbn [chain with_pool app] in *.
  assert (Ha : forall a, a ∈ addrs (used (arenas P)) <-> a ∈ addrs (used (chain s))).
  { intros a. unfold addrs. rewrite !list_elem_of_fmap. setoid_rewrite G2. done. }
  split; [done|by rewrite K2, G2| | | | |].
  - intros b Hb Hin. apply (K3 b Hb). by apply Ha.
  - intros Hc. by apply K4, G4.
  - intros a Hc Hin Hah. apply K5; [by apply G4|by apply Ha|by apply G5].
  - intros Hn. by apply K6, G6.
  - intros Hc l Hl. by apply (K7 (G7 Hc)).
Qed.
Lemma same_grants s P' : pool_ok P' -> arenas P' = chain s -> grants s P' (ptr s) [].
Proof.
  intros HP E. split; [done|by rewrite E| | | | |]; rewrite ?E.
  - by intros b ?%elem_of_nil.
  - unfold cursor_ok. cbn [base with_pool ptr limit chain]. by rewrite E.
  - intros a _ _. unfold ahead. cbn [base with_pool ptr limit chain]. by rewrite E.
  - done.
  - done.
Qed.

Lemma new_grants s P1 t ns size garbage : pool_ok P1 -> arenas P1 = chain s -> 4 <= size <= ns ->
  clear s (t, t + (ns + 128 + 128)) -> (forall l, l ∈ chain s -> Pool.apart (t, t + (ns + 128 + 128)) (area l)) ->
  grants s (new_arena P1 t ns size garbage) (ptr s) [mkBhdr (t + 128) size MAGIC_A].
Proof.
  intros HP E Hs Hc Hap. rewrite <- E in Hap. pose proof (new_arena_ok P1 t ns size garbage HP Hs Hap) as G.
  assert (Hl : exists l, arenas (new_arena P1 t ns size garbage) = l :: chain s /\ area l = (t, t + (ns + 128 + 128))).
  { unfold new_arena. change (pool_quanta + 1) with 128. rewrite E. destruct (_ <? _); eexists; (split; [done|]);
      unfold area, arena_limit; cbn; unfold pool_quanta; f_equal; lia. }
  destruct Hl as (l & El & Ea). apply (front_grants s P1 _ l); [done|done|done|by rewrite Ea].
Qed.

(** *** The first arena extended *)

Lemma extend_addrs l n garbage : l <> [] -> exists e l1, l = l1 ++ [e] /\ arena_limit l = b_addr e /\
  extend_arena l n garbage = l1 ++ [mkBhdr (b_addr e) n MAGIC_A; mkBhdr (b_addr e + n) garbage MAGIC_E].
Proof.
  intros Hl. destruct (exists_last Hl) as (l1 & e & ->). exists e, l1. split; [done|]. split; [unfold arena_limit; by rewrite last_snoc|].
  apply extend_arena_snoc.
Qed.
Lemma area_two l : l <> [] -> (area l).2 = arena_limit l + (pool_quanta + 1).
Proof. by destruct l. Qed.
Lemma extend_grants s P l ch n garbage : pool_ok P -> arenas P = chain s -> chain s = l :: ch -> 0 < n ->
  let t := arena_limit l + 128 in
  (forall l', l' ∈ chain s -> Pool.apart (t, t + n) (area l')) -> clear s (t, t + n) ->
  grants s (extend P n garbage) (ptr s) [mkBhdr (arena_limit l) n MAGIC_A].
Proof.
  intros HP EP E Hn t Hap [Hc1 Hc2]. rewrite <- EP in Hap. assert (EA : arenas P = l :: ch) by congruence.
  destruct (extend_ok P l ch n garbage HP EA Hn Hap) as [G1 G2 G3]. rewrite EP in G2, G3.
  pose proof (po_arenas _ HP) as A. rewrite EA in A. pose proof A as (_ & Hl & _ & _)%(arenas_mid []).
  assert (Hne : l <> []) by (destruct (arena_first l Hl) as (x & l' & -> & _); done).
  destruct (extend_addrs l n garbage Hne) as (e & l1 & El & Elim & Eext). set (l' := extend_arena l n garbage) in *.
  assert (E' : arenas (extend P n garbage) = l' :: ch) by (unfold extend; by rewrite EA).
  assert (Hlim : arena_limit l' = arena_limit l + n).
  { rewrite Eext, Elim. unfold arena_limit. change (?a ++ [?b; ?c]) with (a ++ [b] ++ [c]). rewrite app_assoc, last_snoc. done. }
  assert (Hhead : head l' = head l \/ l1 = []) by (rewrite Eext, El; destruct l1; [by right|by left]).
  assert (Hh : b_addr <$> head l' = b_addr <$> head l) by (rewrite Eext, El; by destruct l1).
  assert (Hsub : forall a, a ∈ addrs l -> a ∈ addrs l').
  { intros a. rewrite Eext, El. unfold addrs. rewrite !fmap_app, !elem_of_app, !fmap_cons, !elem_of_cons. cbn. tauto. }
  assert (Hf : forall bs l0 rest, from_arena (chain s) bs = l0 :: rest ->
    (l0 = l /\ rest = ch /\ from_arena (l' :: ch) bs = l' :: ch) \/ from_arena (l' :: ch) bs = l0 :: rest).
  { intros bs l0 rest. rewrite E. cbn [from_arena]. rewrite Hh. case_bool_decide; [|by right]. intros [= <- <-]. by left. }
  split; [done|done| | | | |].
  - by intros b ->%list_elem_of_singleton.
  - unfold cursor_ok. cbn [base with_pool ptr limit chain]. rewrite E'. destruct (base s) as [bs|]; [|done].
    intros (l0 & rest & Hfa & Hp & Hlt & Hle). destruct (Hf bs l0 rest Hfa) as [(-> & -> & Hfb)|Hfb]; [|by exists l0, rest].
    exists l', ch. split; [done|]. split; [by apply Hsub|]. split; [done|]. lia.
  - intros a _ _. unfold ahead. cbn [base with_pool ptr limit chain]. rewrite E'. destruct (base s) as [bs|]; [|done].
    intros (l0 & rest & Hfa & Hah). destruct (Hf bs l0 rest Hfa) as [(-> & -> & Hfb)|Hfb]; [|by exists l0, rest].
    exists l', ch. split; [done|]. destruct Hah as [[Ha1 Ha2]|Ha]; [left; split; [by apply Hsub|done]|by right].
  - by rewrite E'.
  - intros Hold y Hy. rewrite E' in Hy. apply elem_of_cons in Hy as [->|Hy]; [|apply Hold; rewrite E; by right].
    destruct (Hold l ltac:(rewrite E; constructor)) as [O1 O2].
    assert (E2 : (area l).2 = t) by (rewrite area_two by done; unfold t, pool_quanta; lia).
    assert (Hne' : l' <> []) by (rewrite Eext; by destruct l1).
    assert (E3 : (area l').2 = t + n) by (rewrite area_two, Hlim by done; unfold t, pool_quanta; lia).
    assert (E1 : (area l').1 = (area l).1) by (rewrite Eext, El; by destruct l1).
    unfold clear. rewrite E1, E3. rewrite E2 in O1, O2. split; [|cbn in *; lia].
    intros q Hq. destruct (O1 q Hq) as [?|?]; [by left|]. destruct (Hc1 q Hq); cbn [fst snd] in *; [lia|by right].
Qed.

Lemma heapmem_pool P p s : heapmem (with_pool P p s) = P.
Proof. by destruct P. Qed.
(** It is then freed, joining the free block before it. *)
Lemma extended_grants s P l ch n garbage : cursor_ok s -> pool_ok P -> arenas P = chain s -> chain s = l :: ch -> 0 < n ->
  let t := arena_limit l + 128 in
  (forall l', l' ∈ chain s -> Pool.apart (t, t + n) (area l')) -> clear s (t, t + n) ->
  exists P' p', Pool.poolfree (extend P n garbage) (B2D (arena_limit l)) (ptr s) = (P', p') /\ grants s P' p' [] /\
    cursize (pst P') = cursize (pst P) /\ exists x, x ∈ free_of (concat (arenas P')) /\ n <= x.2.
Proof.
  intros Hcur HP EP E Hn t Hap Hc. pose proof (extend_grants s P l ch n garbage HP EP E Hn Hap Hc) as [G1 G2 G3 G4 G5 G6 G7].
  set (P2 := extend P n garbage) in *. set (q := mkBhdr (arena_limit l) n MAGIC_A) in *. set (s1 := with_pool P2 (ptr s) s) in *.
  assert (Hq : q ∈ used (arenas P2)) by (rewrite G2; constructor). pose proof (po_arenas _ G1) as A. pose proof Hq as [Hqm Hqc]%elem_used.
  assert (Hok : chain_ok (chain s1)) by (split; [apply A|by apply arenas_nodup]).
  destruct (free_chain s1 (B2D (arena_limit l)) q Hok (G4 Hcur) Hqc Hqm) as (P' & p' & Ef & F1 & F2 & F3 & F4 & F5 & _); [unfold B2D, q; cbn; lia|].
  assert (EH : heapmem s1 = P2) by apply heapmem_pool. rewrite EH in Ef, F3. change (ptr s1) with (ptr s) in Ef. exists P', p'. split; [done|].
  pose proof (poolfree_ok P2 (B2D (arena_limit l)) (ptr s) q (ar_ok _ A) (arenas_nodup _ A) Hq) as Hf. rewrite Ef in Hf.
  destruct Hf as (_ & U & Cs & x & Hx & Hx1 & Hx2); [unfold B2D, D2B, q; cbn; lia|].
  assert (Hu : used (arenas P') ≡ₚ used (chain s)) by (rewrite G2 in U; by apply Permutation_cons_inv in U).
  assert (HP' : pool_ok P') by by apply F3. split; [split; try done|split].
  - by intros b ?%elem_of_nil.
  - intros a Hc' Hin Hah. pose proof (G5 a Hc' Hin Hah) as H1. apply list_elem_of_fmap in Hin as (y & -> & Hy).
    rewrite <- Hu in Hy. apply elem_used in Hy as [Hm Hy]. by apply F5.
  - intros Hne E0. pose proof (of_spans _ _ F3) as Es. rewrite E0 in Es. specialize (G6 Hne). by destruct (arenas P2).
  - intros Hold y Hy. destruct (spans_area _ _ _ (of_spans _ _ F3) Hy) as (y0 & Hy0 & ->). by apply G7.
  - rewrite (po_cursize _ HP'), (po_cursize _ HP), EP, Hu. done.
  - exists x. split; [done|]. cbn in Hx1, Hx2. lia.
Qed.

Lemma freed_ressize P v p P' p' : Pool.poolfree P v p = (P', p') -> ressize (pst P') = ressize (pst P).
Proof. unfold Pool.poolfree. destruct (chain_free _ _ _ _) as [[ch p2] t]. by intros [= <- _]. Qed.

(** ** An allocation *)

Section Outcome.
Context (brk : Z -> option Z) (garbage asize : Z) (Ha : 0 <= asize) (restricted : bool).
Definition gets_memory (s : gcs) (P : Pool) (p : Z) : Prop :=
  (exists st, Pool.poolalloc brk garbage 1 restricted asize (P, p) = Ok None st /\ grants s st.1 st.2 []) \/
  (exists st b, Pool.poolalloc brk garbage 1 restricted asize (P, p) = Ok (Some (B2D (b_addr b))) st /\ grants s st.1 st.2 [b] /\ asize + BHDRSIZE <= b_size b).

(** A block of the tree. *)
Lemma search_grants fuel s P p a sz : grants s P p [] -> refused asize restricted P = false -> search (root (pst P)) (round_size asize) None = Some (a, sz) ->
  (a, sz) ∈ elements (root (pst P)) -> round_size asize <= sz ->
  exists P' b, Pool.poolalloc brk garbage fuel restricted asize (P, p) = Ok (Some (B2D (b_addr b))) (P', p) /\ grants s P' p [b] /\ asize + BHDRSIZE <= b_size b.
Proof.
  intros Gr Hr Es Hin Hle. pose proof (gr_ok _ _ _ _ Gr) as HP. pose proof (size4 asize Ha). pose proof (round_size_ok asize Ha).
  destruct (alloc_found_ok P a sz (round_size asize) HP Hin) as (b & HP' & Ht & <- & Hb); [lia|].
  exists (alloc_found P (b_addr b) sz (round_size asize)), b. split; [by apply alloc_search|]. split; [|lia].
  apply (grants_trans s P p); [done|]. by apply (takes_grants (with_pool P p s)).
Qed.
(** What is left of the blocks of the tree is no less than they were, and the
    pool does not refuse now what it did not before. *)
Lemma refused_cursize P P' : cursize (pst P') = cursize (pst P) -> ressize (pst P') = ressize (pst P) ->
  refused asize restricted P' = refused asize restricted P.
Proof. unfold refused. by intros -> ->. Qed.

Lemma memory_ok s : cursor_ok s -> layout s -> host_ok brk s -> gets_memory s (heapmem s) (ptr s).
Proof.
  intros Hcur L Hhost. set (P := heapmem s). pose proof (ly_pool _ L : pool_ok P) as HP.
  assert (Same : forall P1, pool_ok P1 -> arenas P1 = chain s -> grants s P1 (ptr s) []) by apply same_grants.
  destruct (refused asize restricted P) eqn:Hr; [left; exists (P, ptr s); split; [by apply refused_None|by apply Same]|].
  pose proof (po_tree _ HP) as (T1 & T2 & _). destruct (search_ok (root (pst P)) (round_size asize) None T1) as [([a sz] & E & Hin & Hle & _)|[E _]].
  { right. destruct (search_grants 1 s P (ptr s) a sz) as (P' & b & Eb & Gb & Hb); [by apply Same|done..|]. by exists (P', ptr s), b. }
  pose proof (round_size_ok asize Ha) as [Hrs Hmod]. pose proof (size4 asize Ha). pose proof Hr as [H1 H2]%orb_false_elim. unfold gets_memory. cbn [Pool.poolalloc].
  rewrite (bind_ok _ _ P (P, ptr s) (P, ptr s)) by done. rewrite H1, H2, E.
  destruct (new_size (pst P) (round_size asize)) as [ns|] eqn:Ens; [|left; exists (P, ptr s); split; [done|by apply Same]].
  pose proof (new_size_ok _ _ _ Hmod Ens) as Hns. set (n := ns + (pool_quanta + 1) + (pool_quanta + 1)).
  set (P1 := mkPool (arenas P) (with_arenasize (fun m => m + n) (pst P))). pose proof (grown_ok P n HP : pool_ok P1) as HP1.
  rewrite (bind_ok _ _ tt (P, ptr s) (P1, ptr s)) by done.
  destruct (brk n) as [t|] eqn:Et; [|left; exists (P1, ptr s); split; [done|by apply Same]].
  destruct (Hhost n t Et) as (Hal & Hc & Hap). rewrite (align8 t Hal).
  assert (Hn : n = ns + 128 + 128) by (unfold n, pool_quanta; lia). clearbody n.
  assert (Hnew : exists st b, (modify (fun st => (new_arena st.1 t ns (round_size asize) garbage, st.2));; mret (Some (B2D (t + (pool_quanta + 1))))) (P1, ptr s) =
    Ok (Some (B2D (b_addr b))) st /\ grants s st.1 st.2 [b] /\ asize + BHDRSIZE <= b_size b).
  { exists (new_arena P1 t ns (round_size asize) garbage, ptr s), (mkBhdr (t + 128) (round_size asize) MAGIC_A). split; [done|]. split; [|cbn; lia].
    apply (new_grants s P1 t ns); [done|done|lia|by rewrite <- Hn|intros l Hl; rewrite <- Hn; by apply Hap]. }
  change (arenas P) with (chain s). destruct (chain s) as [|l ch] eqn:El; [by right|].
  destruct (Z.eqb_spec (t - arena_limit l - (pool_quanta + 1)) 0) as [Hadj|]; [|by right].
  assert (Ht : t = arena_limit l + 128) by (unfold pool_quanta in Hadj; lia). rewrite Ht, <- El in *.
  destruct (extended_grants s P1 l ch n garbage Hcur HP1 eq_refl El ltac:(lia) Hap Hc) as (P2 & p2 & Ef & G2 & Ec & x & Hx & Hnx).
  rewrite (bind_ok _ _ tt (P1, ptr s) (extend P1 n garbage, ptr s)) by done. rewrite (bind_ok _ _ tt _ (P2, p2)) by (unfold modify; cbn; by rewrite Ef).
  right. pose proof (gr_ok _ _ _ _ G2) as HP2. destruct (search_some asize P2 x HP2 Hx ltac:(lia)) as (a & sz & Es & Hin & Hle & _).
  destruct (search_grants 0 s P2 p2 a sz G2) as (P' & b & Eb & Gb & Hb); [|done|by apply holds_elements|done|exists (P', p2), b; cbn [Pool.poolalloc] in Eb; rewrite H2 in Eb; exact (conj Eb (conj Gb Hb))].
  rewrite <- Hr. apply refused_cursize; [done|]. rewrite (freed_ressize _ _ _ _ _ Ef). unfold extend. by rewrite (El : arenas P1 = l :: ch).
Qed.
End Outcome.
