(* ===== verification/GcNew.v ===== *)
(** * The instructions new and newz (libinterp/xec.c)

    heap and heapz make the block they get a record whose pointers are nil, which
    the destination then points to. *)

From S2P Require Import Prelude Pool Gc GcMark GcPool GcInv GcFree GcRun GcOps GcAlloc GcGrow.

(** ** The allocators *)

Lemma inv_types K O OM s f : inv_with K O OM s -> types_eq (types s) (f (types s)) -> inv_with K O OM (with_types f s).
Proof. intros I E. apply (inv_same K O OM s); try done. apply (ct_halt _ _ _ (iw_counted _ _ _ _ I)). Qed.
Lemma layout_types s f : layout s -> types_eq (types s) (f (types s)) -> layout (with_types f s).
Proof. intros L E. apply (layout_go s); try done; eauto. Qed.
Lemma fresh_types s f h b : fresh s h b -> types_eq (types s) (f (types s)) -> fresh (with_types f s) h b.
Proof.
  intros [F1 F2 F3 F4 F5] E. split; try done. intros q Hq. destruct (F4 q Hq) as [U1 U2]. split.
  - rewrite (frame_slots_eq s); done.
  - intros x. specialize (U2 x). unfold block_words in *. cbn [heap with_types mem types]. destruct (heap s !! x) as [hd|]; [|done].
    by rewrite (owned_eq _ _ _ _ _ E), (header_eq _ _ _ _ E).
Qed.
Lemma ref_eq tys t d : types_eq tys (alter (fun y => mkTy (ty_ref y + d) (ty_free y) (ty_mark y) (ty_size y) (ty_map y)) t tys).
Proof.
  unfold types_eq. apply map_eq. intros x. rewrite !lookup_fmap. destruct (decide (x = t)) as [->|Hn]; [rewrite lookup_alter_eq|by rewrite lookup_alter_ne].
  by destruct (tys !! t).
Qed.

(** The words of a map are in order. *)
Lemma fields_shift map w : fields map w = (fun q => w + q) <$> fields map 0.
Proof.
  assert (Hb : forall c w d, byte_fields c (w + d) = (fun q => w + q) <$> byte_fields c d).
  { intros c u d. unfold byte_fields. rewrite <- list_fmap_compose. apply list_fmap_ext. intros. cbn. lia. }
  assert (Hf : forall map w d, fields map (w + d) = (fun q => w + q) <$> fields map d).
  { clear map w. induction map as [|c map IH]; intros w d; cbn [fields]; [done|]. rewrite fmap_app, <- Hb, <- IH. f_equal. f_equal. lia. }
  rewrite <- Hf. f_equal. lia.
Qed.
Lemma byte_fields_range c w q : q ∈ byte_fields c w -> w <= q < w + 64.
Proof.
  intros (i & -> & Hi)%list_elem_of_fmap. apply list_elem_of_filter in Hi as [_ Hi]. apply list_elem_of_In, in_seq in Hi. lia.
Qed.
Lemma fields_range map w q : q ∈ fields map w -> w <= q.
Proof.
  revert w. induction map as [|c map IH]; intros w; cbn [fields]; [by intros ?%elem_of_nil|]. intros [Hq|Hq]%elem_of_app.
  - apply byte_fields_range in Hq. lia.
  - apply IH in Hq. lia.
Qed.
Lemma fields_nodup map w : NoDup (fields map w).
Proof.
  revert w. induction map as [|c map IH]; intros w; cbn [fields]; [constructor|]. apply list.NoDup_app. split; [|split; [|apply IH]].
  - unfold byte_fields. apply NoDup_fmap_2_strong; [intros x y _ _ ?; lia|]. apply list.NoDup_filter, NoDup_ListNoDup, seq_NoDup.
  - intros q Hq Hq2. apply byte_fields_range in Hq. apply fields_range in Hq2. lia.
Qed.

(** Stores one after the other. *)
Lemma for_all_store (l : list Z) v s : exists m', for_all (fun q => store q v) l s = Ok tt (with_mem (fun _ => m') s) /\
  (forall x, x ∈ l -> m' x = v) /\ (forall x, x ∉ l -> m' x = mem s x).
Proof.
  revert s. induction l as [|q l IH]; intros s; cbn [for_all].
  - exists (mem s). split; [by destruct s|]. split; [by intros x ?%elem_of_nil|done].
  - rewrite (bind_ok _ _ tt s (stored q v s)) by done. destruct (IH (stored q v s)) as (m' & E & H1 & H2). exists m'. split; [exact E|].
    assert (Hq : forall x, x ∉ l -> m' x = if x =? q then v else mem s x) by (intros x Hx; by rewrite (H2 x Hx)). split.
    + intros x Hx. destruct (decide (x ∈ l)) as [Hl|Hl]; [by apply H1|]. rewrite Hq by done. apply elem_of_cons in Hx as [->|?]; [by rewrite Z.eqb_refl|done].
    + intros x Hx. rewrite not_elem_of_cons in Hx. destruct Hx as [Hn Hx]. rewrite Hq by done. by rewrite (proj2 (Z.eqb_neq _ _) Hn).
Qed.

Section Allocators.
Context (brk : Z -> option Z) (garbage : Z) (junk : Z -> Z) (restricted : bool) (bt : builtin).
Abbreviation poolalloc := (poolalloc brk garbage junk restricted).

(** What an allocation leaves as it is. *)
Record beside (h : Z) (b : Bhdr) (s s' : gcs) : Prop := {
  be_mem : forall q, ~ within h b q -> mem s' q = mem s q;
  be_types : types_eq (types s) (types s');
  be_heap : forall x, x <> h -> heap s' !! x = heap s !! x;
  be_progs : progs s' = progs s;
  be_rest : modules s' = modules s /\ ptrtab s' = ptrtab s /\ gchalt s' = gchalt s;
  be_vars : vars s' = vars s;
}.
(** No memory, or a block that is not data yet. *)
Lemma got_block O asize s : inv_with ∅ O [] s -> layout s -> 0 <= asize -> host_ok brk s ->
  (exists s', poolalloc asize s = Ok None s' /\ inv_with ∅ O [] s' /\ layout s') \/
  exists s' h b, poolalloc asize s = Ok (Some h) s' /\ (forall hd, inv_with (hold h hd) O [] s') /\ layout s' /\ fresh s' h b /\
    asize + BHDRSIZE <= b_size b /\ heap s' = heap s /\ types s' = types s /\ (forall q, within h b q -> unread s q) /\ beside h b s s'.
Proof.
  intros I L Ha Hhost. unfold GcAlloc.poolalloc.
  destruct (memory_ok brk garbage asize Ha restricted s (iv_cursor _ _ (iw_pool _ _ _ _ I)) L Hhost) as [([P' p'] & E & Gr)|([P' p'] & b & E & Gr & Hbs)]; rewrite E; cbn [fst snd] in Gr.
  { left. exists (with_pool P' p' s). split; [done|]. split; [by apply none_inv|]. by apply (got_layout O [] s P' p' []). }
  right. set (h := B2D (b_addr b)). pose proof (gr_ok _ _ _ _ Gr) as HP'. pose proof (got_in s P' p' b Gr) as Hbu.
  assert (Hfound : block_size (arenas P') (b_addr b) = b_size b).
  { unfold block_size. apply elem_used in Hbu as [_ Hbu]. rewrite block_found; [done|apply arenas_nodup, HP'|done]. }
  set (s1 := with_pool P' p' s). set (m' := fun q => if (H2D h <=? q) && (q <? h - sizeof_Bhdr + block_size (chain s1) (D2B h)) then junk q else mem s1 q).
  assert (Hm : forall q, ~ within h b q -> m' q = mem s1 q).
  { intros q Hq. unfold m'. replace (D2B h) with (b_addr b) by (unfold D2B, h, B2D; lia). cbn [chain s1 with_pool]. rewrite Hfound.
    destruct (Z.leb_spec (H2D h) q), (Z.ltb_spec q (h - sizeof_Bhdr + b_size b)); try done. destruct Hq. unfold within, h, B2D in *. lia. }
  pose proof (got_layout O [] s P' p' [b] I L Gr) as L1. pose proof (got_fresh O [] s P' p' b I L Gr) as F1.
  assert (I1 : forall hd, inv_with (hold h hd) O [] s1) by (intros hd; by apply got_heap).
  exists (with_mem (fun _ => m') s1), h, b. split; [done|].
  set (hd0 := mkHeap 0 0 0). split; [intros hd; eapply (written_inv _ O [] s1 h b); done|].
  split; [eapply (written_layout (hold h hd0) O [] s1 h b); done|]. split; [eapply (written_fresh (hold h hd0) O [] s1 h b); done|].
  split; [done|]. split; [done|]. split; [done|]. split; [exact (fs_unread _ _ _ F1)|]. split; try done.
Qed.

(** The block made data whose pointers are all nil. *)
Definition made (s : gcs) (h t : Z) (f : gmap Z Ty -> gmap Z Ty) (m' : Z -> Z) : gcs :=
  with_heap (fun hp => <[h := mkHeap (mutator (vars s)) 1 t]> hp) (with_mem (fun _ => m') (with_types f s)).
Lemma made_ok O s s1 h b t ty f m' :
  (forall hd, inv_with (hold h hd) O [] s1) -> layout s1 -> fresh s1 h b -> beside h b s s1 ->
  types_eq (types s1) (f (types s1)) -> (forall q, ~ within h b q -> m' q = mem s1 q) ->
  t <> 0 -> types s1 !! t = Some ty -> ty_free ty <> nofree -> ty_free ty <> Freemodlink -> (ty_mark ty = Markarray -> m' (H2D h + 16) = H) ->
  shaped (with_mem (fun _ => m') s1) t (H2D h) ->
  (forall q, q ∈ owned m' (types s1) t (H2D h) ++ header (types s1) t (H2D h) -> H2D h <= q /\ q + 8 <= b_addr b + b_size b) ->
  NoDup (owned m' (types s1) t (H2D h)) -> (forall q, q ∈ owned m' (types s1) t (H2D h) -> m' q = H) ->
  inv_with ∅ (H2D h :: O) [] (made s1 h t f m') /\ layout (made s1 h t f m') /\ beside h b s (made s1 h t f m').
Proof.
  intros I L F B E Hm Ht Hty Hf1 Hf2 Hr Hs Hin Hnd Hnil. set (hd := mkHeap (mutator (vars s1)) 1 t). set (s2 := with_mem (fun _ => m') (with_types f s1)).
  pose proof (inv_types (hold h hd) O [] s1 f (I hd) E) as I1. pose proof (layout_types s1 f L E) as L1. pose proof (fresh_types s1 f h b F E) as F1.
  pose proof (written_inv (hold h hd) O [] _ h b m' I1 F1 Hm) as I2. pose proof (written_layout (hold h hd) O [] _ h b m' I1 L1 F1 Hm) as L2.
  pose proof (written_fresh (hold h hd) O [] _ h b m' I1 F1 Hm) as F2.
  assert (Eo : owned m' (f (types s1)) t (H2D h) = owned m' (types s1) t (H2D h)) by by apply owned_eq.
  assert (Eh : header (f (types s1)) t (H2D h) = header (types s1) t (H2D h)) by by apply header_eq.
  destruct (types_eq_get _ _ _ ty E Hty) as (ty' & Hty' & Ef & Em & _).
  assert (Htyped : t = 0 \/ exists ty, f (types s1) !! t = Some ty /\ ty_free ty <> nofree /\ ty_free ty <> Freemodlink /\ (ty_mark ty = Markarray -> m' (H2D h + 16) = H)).
  { right. exists ty'. rewrite Ef, Em. done. }
  assert (Hshaped : t = 0 \/ shaped s2 t (H2D h)).
  { right. destruct Hs as (ty0 & Hty0 & Hs). cbn [types with_mem] in Hty0. assert (ty0 = ty) as -> by congruence. exists ty'. split; [done|]. rewrite Em.
    destruct (ty_mark ty); try done.
    - destruct Hs as [Hs1 Hs2]. split; [by apply (types_eq_some (types s1))|done].
    - destruct Hs as [Hs1 Hs2]. split; [destruct Hs1 as [?|Hs1]; [by left|right; by apply (types_eq_some (types s1))]|].
      destruct Hs2 as [?|(hl & tl & Hl & Hn & Htl & Hml)]; [by left|right]. destruct (types_eq_get _ _ _ tl E Htl) as (tl' & Htl' & _ & Eml & _).
      exists hl, tl'. rewrite Eml. done. }
  assert (Hz : forall x, (refs_to x (m' <$> owned m' (f (types s1)) t (H2D h)) <= refs_to x [])%nat).
  { intros x. rewrite Eo. unfold refs_to at 1. rewrite filter_none; [cbn; lia|]. intros v (q & -> & Hq)%list_elem_of_fmap. rewrite (Hnil q Hq). by intros [? _]. }
  rewrite <- Eo, <- Eh in Hin. rewrite <- Eo in Hnd, Hnil. assert (Hsh : forall q, q ∈ owned m' (f (types s1)) t (H2D h) -> m' q = H \/ shaded s2 (D2H (m' q))) by (intros q Hq; left; by apply Hnil).
  split; [|split].
  - exact (reveal_inv O [] s2 h b hd I2 L2 F2 eq_refl (Z.le_refl 1) Htyped Hshaped Hin Hnd Hz Hsh).
  - exact (reveal_layout O [] s2 h b hd I2 L2 F2 eq_refl Htyped Hshaped Hin Hnd Hz Hsh).
  - destruct B as [B1 B2 B3 B4 B5 B6]. split; try done.
    + intros q Hq. cbn. rewrite Hm by done. by apply B1.
    + apply (types_eq_trans _ (types s1)); done.
    + intros x Hn. cbn. rewrite lookup_insert_ne by done. by apply B3.
Qed.
End Allocators.

(** ** heap, heapz and the instructions that use them *)

Section New.
Context (brk : Z -> option Z) (garbage : Z) (junk : Z -> Z) (restricted : bool).
Abbreviation poolalloc := (poolalloc brk garbage junk restricted).
Abbreviation heap_ := (heap_ brk garbage junk restricted).
Abbreviation heapz := (heapz brk garbage junk restricted).
Abbreviation new := (new brk garbage junk restricted).
Abbreviation newz := (newz brk garbage junk restricted).

(** The memory after the words of the map are nil. *)
Lemma initmem_ok s t ty vw : types s !! t = Some ty -> exists m',
  (match ty_map ty with [] => mret tt | _ => initmem t vw end) s = Ok tt (with_mem (fun _ => m') s) /\
  (forall q, q ∈ fields (ty_map ty) vw -> m' q = H) /\ (forall q, q ∉ fields (ty_map ty) vw -> m' q = mem s q).
Proof.
  intros Hty. destruct (ty_map ty) as [|c map] eqn:Em.
  - exists (mem s). split; [by destruct s|]. split; [by intros q ?%elem_of_nil|done].
  - destruct (for_all_store (free_fields (ty_map ty) vw) H s) as (m' & E & H1 & H2). exists m'. rewrite <- Em. split; [|split].
    + unfold initmem, type_at. rewrite (bind_ok _ _ ty s s) by (by rewrite Hty). exact E.
    + intros q Hq. apply H1. by rewrite free_fields_perm.
    + intros q Hq. apply H2. by rewrite free_fields_perm.
Qed.
Lemma memset_ok s a n : 0 <= n -> exists m', memset a n s = Ok tt (with_mem (fun _ => m') s) /\
  (forall q, ~ (a <= q < a + n) -> m' q = mem s q).
Proof.
  intros Hn. unfold memset. assert (Hl : forall l s, (forall i, i ∈ l -> a <= a + 8 * Z.of_nat i < a + n) -> exists m',
    for_all (fun i => store (a + 8 * Z.of_nat i) 0) l s = Ok tt (with_mem (fun _ => m') s) /\ (forall q, ~ (a <= q < a + n) -> m' q = mem s q)).
  { clear s. induction l as [|i l IH]; intros s Hi; [exists (mem s); split; [by destruct s|done]|]. cbn [for_all].
    rewrite (bind_ok _ _ tt s (stored (a + 8 * Z.of_nat i) 0 s)) by done. destruct (IH (stored (a + 8 * Z.of_nat i) 0 s)) as (m' & E & Hm).
    { intros j Hj. apply Hi. by right. }
    exists m'. split; [exact E|]. intros q Hq. rewrite Hm by done. apply st_other. intros ->. apply Hq, Hi. by left. }
  apply Hl. intros i Hi. apply list_elem_of_In, in_seq in Hi. pose proof (Z.div_mod n 8 ltac:(lia)). pose proof (Z.mod_pos_bound n 8 ltac:(lia)). lia.
Qed.

(** A plain type: a record or a frame, of which the words in the map are in it. *)
Lemma plain_words tys m t ty vw : types_wf tys -> tys !! t = Some ty -> ty_free ty = Freeheap ->
  t <> 0 /\ ty_mark ty = Markheap /\ owned m tys t vw = fields (ty_map ty) vw /\ header tys t vw = [].
Proof.
  intros Hwf Hty Hf. destruct (Hwf t ty Hty) as [Hn Hm]. rewrite Hf in Hm. split; [done|]. split; [done|].
  unfold owned, map_of, header. by rewrite (proj2 (Z.eqb_neq _ _) Hn), Hty, Hm, Hf.
Qed.
(** What heap and heapz make of the block they got. *)
Lemma typed_ok s s1 h b t ty m' :
  (forall hd, inv_with (hold h hd) [] [] s1) -> layout s1 -> fresh s1 h b -> beside h b s s1 ->
  sizeof_Heap + ty_size ty + BHDRSIZE <= b_size b -> (forall q, ~ within h b q -> m' q = mem s1 q) ->
  types s1 !! t = Some ty -> ty_free ty = Freeheap -> (forall q, q ∈ fields (ty_map ty) (H2D h) -> m' q = H) ->
  let s' := made s1 h t (alter (fun y => mkTy (ty_ref y + 1) (ty_free y) (ty_mark y) (ty_size y) (ty_map y)) t) m' in
  inv_with ∅ [H2D h] [] s' /\ layout s' /\ beside h b s s'.
Proof.
  intros I L F B Hsz Hm Hty Hf Hnil. pose proof (ct_types _ _ _ (iw_counted _ _ _ _ (I (mkHeap 0 0 0)))) as Hwf.
  destruct (plain_words _ m' _ _ (H2D h) Hwf Hty Hf) as (Hn & Hma & Eo & Eh).
  apply (made_ok [] s s1 h b t ty); try done; rewrite ?Eo, ?Eh, ?app_nil_r; try (by rewrite Hf); try (by rewrite Hma).
  - exact (ref_eq (types s1) t 1).
  - exists ty. split; [done|]. by rewrite Hma.
  - intros q Hq. rewrite fields_shift in Hq. apply list_elem_of_fmap in Hq as (d & -> & Hd). pose proof (fields_range _ _ _ Hd).
    pose proof (ly_maps _ L t ty d Hty Hf Hd). pose proof (fs_addr _ _ _ F). unfold BHDRSIZE, H2D, sizeof_Heap, sizeof_Bhdr in *. lia.
  - apply fields_nodup.
  - exact Hnil.
Qed.

(** A word that may be stored to still may. *)
Lemma white_same s s' x : vars s' = vars s -> heap s' !! x = heap s !! x -> white s' x <-> white s x.
Proof. intros Ev Eh. unfold white, color. by rewrite Ev, Eh. Qed.
Lemma beside_frame_slots s s' h b : inv s -> (forall q, within h b q -> unread s q) -> beside h b s s' -> frame_slots s' = frame_slots s.
Proof.
  intros I Hu B. assert (Hm : forall q, mem s' q = mem s q \/ unread s q).
  { intros q. destruct (decide (H2D h <= q < b_addr b + b_size b)) as [Hq|Hq]; [right; by apply Hu|left; by apply (be_mem _ _ _ _ B)]. }
  rewrite <- (ur_frame_slots s (mem s') I). apply frame_slots_eq; [done|apply B|apply B].
Qed.
Lemma beside_slot s s' h b hd dst :
  inv s -> heap s !! h = None -> (forall q, within h b q -> unread s q) -> beside h b s s' -> heap s' !! h = Some hd ->
  (forall q, q ∈ header (types s') (h_t hd) (H2D h) -> within h b q) -> slot s dst -> slot s' dst.
Proof.
  intros I Hn Hu B Hh Hd [Hin Hp]. assert (Hm : forall q, mem s' q = mem s q \/ unread s q).
  { intros q. destruct (decide (H2D h <= q < b_addr b + b_size b)) as [Hq|Hq]; [right; by apply Hu|left; by apply (be_mem _ _ _ _ B)]. }
  pose proof (be_types _ _ _ _ B) as Et. split.
  - apply elem_of_app. apply elem_of_app in Hin as [Hin|Hin]; [left; by rewrite (beside_frame_slots s s' h b)|right].
    apply list_elem_of_bind in Hin as ([x t] & Hin & Hb). apply elem_live in Hb as (hx & Hx & <- & Hk). apply list_elem_of_bind. exists (x, h_t hx).
    assert (Hne : x <> h) by (intros ->; congruence). pose proof (be_heap _ _ _ _ B x Hne) as Ex. cbn [fst snd] in *. split.
    + rewrite (owned_eq _ _ _ _ _ Et). pose proof (ur_owned s (mem s') Hm x hx Hx) as Eo. by rewrite Eo.
    + apply elem_live. exists hx. rewrite Ex. split; [done|]. split; [done|]. destruct Hk as [K1 K2]. split; [by rewrite Ex|].
      rewrite (white_same s s' x); [done|apply B|done].
  - intros x t Hb. apply elem_blocks in Hb as (hx & Hx & <-). destruct (decide (x = h)) as [->|Hne].
    + assert (hx = hd) as -> by congruence. intros Hq. destruct (Hu dst (Hd dst Hq)) as [U1 U2]. apply elem_of_app in Hin as [?|Hin]; [done|].
      apply list_elem_of_bind in Hin as ([x t] & Hin & Hb). apply elem_live in Hb as (hy & Hy & <- & _). apply (U2 x). unfold block_words. rewrite Hy.
      apply elem_of_app. by left.
    + rewrite (header_eq _ _ _ _ Et). apply Hp, elem_blocks. exists hx. by rewrite <- (be_heap _ _ _ _ B x Hne).
Qed.

(** The new data replaces what the destination has. *)
Definition placed (h : Z) (b : Bhdr) (t dst : Z) (s s' : gcs) : Prop :=
  heap_ok s' /\ mem s' dst = H2D h /\ heap s !! h = None /\ (forall q, within h b q -> unread s q) /\
  (forall q, ~ within h b q -> q <> dst -> mem s' q = mem s q) /\
  (dst ∈ frame_slots s -> exists hd, heap s' !! h = Some hd /\ h_t hd = t).
Lemma place_ok s s1 h b t dst :
  inv s -> heap s !! h = None -> (forall q, within h b q -> unread s q) -> beside h b s s1 ->
  inv_with ∅ [H2D h] [] s1 -> layout s1 -> heap s1 !! h = Some (mkHeap (mutator (vars s1)) 1 t) -> header (types s1) t (H2D h) = [] -> slot s dst ->
  exists s', (d ← word dst; store dst (H2D h);; destroy d) s1 = Ok tt s' /\ placed h b t dst s s' /\
    (forall q, within h b q -> mem s' q = mem s1 q).
Proof.
  intros I Hn Hu B I1 L1 Hh Eh Hdst. assert (Hs1 : slot s1 dst) by (apply (beside_slot s s1 h b _ dst I Hn Hu B Hh); [cbn; rewrite Eh; by intros q ?%elem_of_nil|done]).
  assert (Hout : ~ within h b dst).
  { intros Hw. destruct (Hu dst Hw) as [U1 U2]. destruct Hdst as [Hin _]. apply elem_of_app in Hin as [?|Hin]; [done|].
    apply list_elem_of_bind in Hin as ([x t'] & Hin & Hb). apply elem_live in Hb as (hy & Hy & <- & _). apply (U2 x). unfold block_words. rewrite Hy.
    apply elem_of_app. by left. }
  destruct (replace_ok s1 (H2D h) dst I1 L1 Hs1) as (s' & E & K & Em & S); [right; left; unfold is_mutator, color; rewrite D2H_H2D, Hh; done|].
  exists s'. split; [done|]. assert (Hst : forall q, q <> dst -> mem s' q = mem s1 q) by (intros q Hq; rewrite Em; by apply st_other). split.
  - split; [done|]. split; [rewrite Em; apply st_self|]. split; [done|]. split; [done|]. split.
    + intros q Hq Hne. rewrite Hst by done. by apply (be_mem _ _ _ _ B).
    + intros Hf. assert (Hd' : dst ∈ slots s').
      { apply elem_of_app. left. pose proof (beside_frame_slots s s1 h b I Hu B) as E1. destruct K as [I' L'].
        rewrite (frame_slots_eq (stored dst (H2D h) s1) s'); [|apply S..]. rewrite (store_frame_slots ∅ (H2D h) [] [] s1 dst I1). by rewrite E1. }
      destruct K as [I' L']. destruct (slot_value ∅ [] [] s' dst I' Hd') as [E0|[[hd' Hk] _]].
      { exfalso. rewrite Em, (st_self s1) in E0. pose proof (ct_H _ _ _ (iw_counted _ _ _ _ I1)) as HH. rewrite <- E0, D2H_H2D in HH. congruence. }
      rewrite Em, (st_self s1), D2H_H2D in Hk. exists hd'. split; [done|]. destruct (sf_heap _ _ S h hd' Hk) as (hd & Hd & ->). cbn in Hd.
      rewrite Hh in Hd. by injection Hd as <-.
  - intros q Hq. apply Hst. by intros ->.
Qed.

(** No memory for a new block of type [ty], or the block, what [clear] makes of it
    before the pointers become nil. *)
Lemma alloc_ok t ty s :
  heap_ok s -> types s !! t = Some ty -> ty_free ty = Freeheap -> 0 <= ty_size ty -> host_ok brk s ->
  (exists s1, poolalloc (sizeof_Heap + ty_size ty) s = Ok None s1 /\ heap_ok s1) \/
  exists s1 h b, poolalloc (sizeof_Heap + ty_size ty) s = Ok (Some h) s1 /\ heap s !! h = None /\ types s1 = types s /\ vars s1 = vars s /\
    (forall q, H2D h <= q < H2D h + ty_size ty -> within h b q) /\ (forall q, within h b q -> unread s q) /\
    forall m', (forall q, ~ within h b q -> m' q = mem s1 q) -> (forall q, q ∈ fields (ty_map ty) (H2D h) -> m' q = H) ->
    let s' := made s1 h t (alter (fun y => mkTy (ty_ref y + 1) (ty_free y) (ty_mark y) (ty_size y) (ty_map y)) t) m' in
    inv_with ∅ [H2D h] [] s' /\ layout s' /\ beside h b s s'.
Proof.
  intros [I L] Hty Hf Hsz Hhost. destruct (got_block brk garbage junk restricted [] (sizeof_Heap + ty_size ty) s I L) as [(s1 & E & I1 & L1)|(s1 & h & b & E & I1 & L1 & F & Hb & Eh & Et & Hu & B)];
    [unfold sizeof_Heap; lia|done|left; by exists s1|]. right. exists s1, h, b. split; [exact E|]. split; [by rewrite <- Eh, (fs_none _ _ _ F)|]. split; [done|]. split; [apply B|].
  split; [|split; [done|]].
  - intros q Hq. unfold within. pose proof (fs_addr _ _ _ F). unfold BHDRSIZE, H2D, sizeof_Heap, sizeof_Bhdr in *. lia.
  - intros m' Hm Hnil. apply (typed_ok s s1 h b t ty m'); try done. by rewrite Et.
Qed.
(** heap and heapz give a block of their type: one reference, the collector's
    present colour, all its pointers nil. *)
Definition newborn (h : Z) (b : Bhdr) (t : Z) (ty : Ty) (s s' : gcs) : Prop :=
  heap s !! h = None /\ (forall q, within h b q -> unread s q) /\ inv_with ∅ [H2D h] [] s' /\ layout s' /\
  beside h b s s' /\ heap s' !! h = Some (mkHeap (mutator (vars s')) 1 t) /\ (forall q, H2D h <= q < H2D h + ty_size ty -> within h b q) /\
  (forall q, q ∈ fields (ty_map ty) (H2D h) -> mem s' q = H).
Lemma fields_within h b ty s t q : layout s -> types s !! t = Some ty -> ty_free ty = Freeheap ->
  (forall q, H2D h <= q < H2D h + ty_size ty -> within h b q) -> q ∈ fields (ty_map ty) (H2D h) -> within h b q.
Proof.
  intros L Hty Hf Hw Hq. apply Hw. rewrite fields_shift in Hq. apply list_elem_of_fmap in Hq as (d & -> & Hd). pose proof (fields_range _ _ _ Hd).
  pose proof (ly_maps _ L t ty d Hty Hf Hd). lia.
Qed.
Lemma newborn_ok t ty s : heap_ok s -> types s !! t = Some ty -> ty_free ty = Freeheap -> 0 <= ty_size ty -> host_ok brk s ->
  (exists s', heap_ok s' /\ heap_ t s = Err exHeap s' /\ heapz t s = Err exHeap s') \/
  ((exists s' h b, heap_ t s = Ok h s' /\ newborn h b t ty s s') /\
   (exists s' h b, heapz t s = Ok h s' /\ newborn h b t ty s s')).
Proof.
  intros K Hty Hf Hsz Hhost. destruct (alloc_ok t ty s K Hty Hf Hsz Hhost) as [(s1 & E & K1)|(s1 & h & b & E & Hn & Et & Ev & Hw & Hu & Hmk)].
  { left. exists s1. split; [done|]. unfold GcAlloc.heap_, GcAlloc.heapz, type_at. rewrite !(bind_ok _ _ ty s s) by (by rewrite Hty).
    by rewrite !(bind_ok _ _ _ _ _ E). }
  right.
  set (f := alter (fun y => mkTy (ty_ref y + 1) (ty_free y) (ty_mark y) (ty_size y) (ty_map y)) t) in *.
  set (ty' := mkTy (ty_ref ty + 1) (ty_free ty) (ty_mark ty) (ty_size ty) (ty_map ty)).
  set (s2 := with_types f (with_heap <[h := mkHeap (mutator (vars s1)) 1 t]> s1)).
  assert (Hty2 : types s2 !! t = Some ty') by (change (types s2) with (f (types s1)); rewrite Et; unfold f; by rewrite lookup_alter_eq, Hty).
  assert (Hgood : forall m', (forall q, ~ within h b q -> m' q = mem s1 q) -> (forall q, q ∈ fields (ty_map ty) (H2D h) -> m' q = H) ->
    newborn h b t ty s (with_mem (fun _ => m') s2)).
  { intros m' M1 M2. destruct (Hmk m' M1 M2) as (I' & L' & B'). split; [done|]. split; [done|]. split; [exact I'|]. split; [exact L'|]. split; [exact B'|].
    split; [cbn; by rewrite lookup_insert_eq|]. split; [done|]. exact M2. }
  assert (Hfw : forall q, q ∈ fields (ty_map ty) (H2D h) -> within h b q) by (intros q; by apply (fields_within h b ty s t q (hk_layout _ K))).
  destruct (memset_ok s2 (H2D h) (ty_size ty) Hsz) as (mz & Ez & Mz). set (s3 := with_mem (fun _ => mz) s2).
  destruct (initmem_ok s2 t ty' (H2D h) Hty2) as (m2 & E2 & M1 & M2). destruct (initmem_ok s3 t ty' (H2D h) Hty2) as (m3 & E3 & N1 & N2). split.
  - exists (with_mem (fun _ => m2) s2), h, b. split; [|apply Hgood; [|exact M1]].
    + unfold GcAlloc.heap_, type_at. rewrite (bind_ok _ _ ty s s) by (by rewrite Hty). rewrite (bind_ok _ _ _ _ _ E).
      unfold var, reftype. rewrite (bind_ok _ _ (mutator (vars s1)) s1 s1) by done.
      rewrite (bind_ok _ _ tt s1 (with_heap <[h := mkHeap (mutator (vars s1)) 1 t]> s1)) by done. rewrite (bind_ok _ _ tt _ s2) by done.
      change (ty_map ty') with (ty_map ty) in E2. by rewrite (bind_ok _ _ _ _ _ E2).
    + intros q Hq. apply M2. intros Hq2. apply Hq. by apply Hfw.
  - exists (with_mem (fun _ => m3) s3), h, b. split; [|apply Hgood; [|exact N1]].
    + unfold GcAlloc.heapz, type_at. rewrite (bind_ok _ _ ty s s) by (by rewrite Hty). rewrite (bind_ok _ _ _ _ _ E).
      unfold var, reftype. rewrite (bind_ok _ _ (mutator (vars s1)) s1 s1) by done.
      rewrite (bind_ok _ _ tt s1 (with_heap <[h := mkHeap (mutator (vars s1)) 1 t]> s1)) by done. rewrite (bind_ok _ _ tt _ s2) by done.
      rewrite (bind_ok _ _ _ _ _ Ez). change (ty_map ty') with (ty_map ty) in E3. by rewrite (bind_ok _ _ _ _ _ E3).
    + intros q Hq. rewrite N2; [|intros Hq2; apply Hq; by apply Hfw]. apply Mz. intros Hr. apply Hq. by apply Hw.
Qed.
Lemma newborn_place h b t ty dst s s1 : heap_ok s -> types s !! t = Some ty -> ty_free ty = Freeheap -> slot s dst -> newborn h b t ty s s1 ->
  exists s', (d ← word dst; store dst (H2D h);; destroy d) s1 = Ok tt s' /\ placed h b t dst s s' /\
    (forall q, q ∈ fields (ty_map ty) (H2D h) -> mem s' q = H).
Proof.
  intros [I L] Hty Hf Hdst (Hn & Hu & I1 & L1 & B & Hh & Hw & Hnil). destruct (types_eq_get _ _ _ ty (be_types _ _ _ _ B) Hty) as (ty1 & Hty1 & Ef & _).
  destruct (plain_words _ (mem s1) t ty1 (H2D h) (ct_types _ _ _ (iw_counted _ _ _ _ I1)) Hty1) as (_ & _ & _ & Eh); [by rewrite Ef|].
  destruct (place_ok s s1 h b t dst I Hn Hu B I1 L1 Hh Eh Hdst) as (s' & E & P & Hm). exists s'. split; [done|]. split; [done|].
  intros q Hq. rewrite Hm by by apply (fields_within h b ty s t). by apply Hnil.
Qed.
Definition new_outcome (make : S unit) (t : Z) (ty : Ty) (dst : Z) (s : gcs) : Prop :=
  (exists s', make s = Err exHeap s' /\ heap_ok s') \/
  exists s' h b, make s = Ok tt s' /\ placed h b t dst s s' /\ forall q, q ∈ fields (ty_map ty) (H2D h) -> mem s' q = H.

(** new and newz, for a record type and a word with a pointer, in a pool that the
    host gives memory as it promises.  They complete: the destination points to a block
    that was not in the heap and of which no word was read by anything, its pointers
    are nil, every word outside it but the destination is as it was, and the block is
    there with its type when the destination is in a frame; or the error that the heap
    is full is raised, with the heap well formed. *)
Lemma new_sound t ty dst s :
  heap_ok s -> types s !! t = Some ty -> ty_free ty = Freeheap -> 0 <= ty_size ty -> host_ok brk s -> slot s dst ->
  new_outcome (new t dst) t ty dst s /\ new_outcome (newz t dst) t ty dst s.
Proof.
  intros K Hty Hf Hsz Hhost Hdst. unfold new_outcome, GcAlloc.new, GcAlloc.newz.
  destruct (newborn_ok t ty s K Hty Hf Hsz Hhost) as [(s1 & K1 & E1 & E2)|[(s1 & h & b & E & N) (s2 & h2 & b2 & E2 & N2)]].
  - split; left; exists s1; by rewrite ?(bind_err _ _ _ _ _ E1), ?(bind_err _ _ _ _ _ E2).
  - split; right.
    + destruct (newborn_place h b t ty dst s s1 K Hty Hf Hdst N) as (s' & Ep & P). exists s', h, b. by rewrite (bind_ok _ _ _ _ _ E).
    + destruct (newborn_place h2 b2 t ty dst s s2 K Hty Hf Hdst N2) as (s' & Ep & P). exists s', h2, b2. by rewrite (bind_ok _ _ _ _ _ E2).
Qed.
End New.
