(* ===== verification/GcStep.v ===== *)
(** * Programs and the collector together (libinterp/xec.c, gc.c)

    Instructions and slices in any order as a step relation, and what holds along
    all its runs. *)

From S2P Require Import Prelude Pool Gc GcMark GcPool GcInv GcFree GcRun GcOps GcAlloc GcGrow GcNew.

(** ** Programs and the collector *)

Lemma bind_two {A} (c d : S unit) (k : S A) s s' : (c;; d) s = Ok tt s' -> (c;; d;; k) s = k s'.
Proof. unfold mbind, ST_bind. destruct (c s) as [u s1|e s1|]; [|done|done]. by intros ->. Qed.

Inductive instr : Type :=
  Imovp (src dst : Z) | Iheadp (src dst : Z) | Itail (src dst : Z) | Iself (p : nat) (dst : Z) | Inew (t dst : Z) | Inewz (t dst : Z).
(** What an allocation meets: the host's memory and what is in it, and whether the
    program is restricted.  It may be other at each instruction. *)
Record host : Type := mkHost { h_brk : Z -> option Z; h_garbage : Z; h_junk : Z -> Z; h_restricted : bool }.
Definition exec (w : host) (i : instr) : S unit :=
  match i with
  | Imovp src dst => movp src dst
  | Iheadp src dst => headp src dst
  | Itail src dst => tail src dst
  | Iself p dst => self p dst
  | Inew t dst => new (h_brk w) (h_garbage w) (h_junk w) (h_restricted w) t dst
  | Inewz t dst => newz (h_brk w) (h_garbage w) (h_junk w) (h_restricted w) t dst
  end.
(** The operands are words with a pointer, a list whose head is taken is not nil,
    the type is one of records, and the host's memory is what it promises. *)
Definition operands_ok (w : host) (s : gcs) (i : instr) : Prop :=
  match i with
  | Imovp src dst => src ∈ slots s /\ slot s dst
  | Iheadp src dst => mem s src <> H /\ mem s src + 16 ∈ slots s /\ slot s dst
  | Itail src dst => mem s src <> H /\ mem s src ∈ slots s /\ slot s dst
  | Iself p dst => (p < length (progs s))%nat /\ slot s dst
  | Inew t dst | Inewz t dst => slot s dst /\ host_ok (h_brk w) s /\
      exists ty, types s !! t = Some ty /\ ty_free ty = Freeheap /\ 0 <= ty_size ty
  end.

Lemma headp_ok w s src dst : heap_ok s -> operands_ok w s (Iheadp src dst) ->
  exists s', headp src dst s = Ok tt s' /\ heap_ok s' /\ mem s' dst = mem s (mem s src + 16) /\ (forall x, x <> dst -> mem s' x = mem s x).
Proof.
  intros K (Hn & Hs & Hd). unfold headp. rewrite (bind_ok _ _ (mem s src) s s) by done. rewrite (proj2 (Z.eqb_neq _ _) Hn). by apply movp_ok.
Qed.
Lemma tail_ok w s src dst : heap_ok s -> operands_ok w s (Itail src dst) ->
  exists s', tail src dst s = Ok tt s' /\ heap_ok s' /\ mem s' dst = mem s (mem s src) /\ (forall x, x <> dst -> mem s' x = mem s x).
Proof.
  intros K (Hn & Hs & Hd). unfold tail. rewrite (bind_ok _ _ (mem s src) s s) by done. rewrite (proj2 (Z.eqb_neq _ _) Hn). by apply movp_ok.
Qed.
Lemma self_ok w s p dst : heap_ok s -> operands_ok w s (Iself p dst) ->
  exists s' g, self p dst s = Ok tt s' /\ progs s !! p = Some g /\ heap_ok s' /\ mem s' dst = g_M g /\ (forall x, x <> dst -> mem s' x = mem s x).
Proof.
  intros [I L] [Hp Hd]. destruct (lookup_lt_is_Some_2 _ _ Hp) as [g Hg]. unfold self. rewrite (bind_ok _ _ (Some g) s s) by (unfold gets; by rewrite Hg).
  rewrite (bind_ok _ _ g s s) by done. cbn zeta. assert (Hl : g_M g ∈ links s).
  { unfold links. apply list_elem_of_bind. exists g. split; [constructor|]. by apply list_elem_of_lookup_2 in Hg. }
  destruct (retain_ok [] [] s (g_M g) I) as (s1 & E1 & I1 & Hs1 & R1).
  { apply shaded_kept; [apply I|]. apply (iw_roots _ _ _ _ I). by apply link_root. }
  destruct (replace_ok s1 (g_M g) dst I1 (retained_layout _ _ R1 L) (retained_slot _ _ _ R1 Hd)) as (s2 & E2 & K2 & Em2 & _); [by right|].
  exists s2, g. rewrite (bind_two _ _ _ _ _ E1). split; [exact E2|]. split; [done|]. split; [done|]. rewrite Em2. split; [by apply st_self|].
  intros x Hx. rewrite (st_other s1 dst (g_M g) x Hx). by rewrite (rt_mem _ _ R1).
Qed.

(** One instruction, or the error that the heap is full. *)
Lemma exec_ok w s i : heap_ok s -> operands_ok w s i ->
  (exists s', exec w i s = Ok tt s' /\ heap_ok s') \/ exists s', exec w i s = Err exHeap s' /\ heap_ok s'.
Proof.
  intros K. destruct i as [src dst|src dst|src dst|p dst|t dst|t dst]; intros Hop; cbn [exec].
  - left. destruct Hop as [H1 H2]. destruct (movp_ok s src dst K H1 H2) as (s' & E & K' & _). eauto.
  - left. destruct (headp_ok w s src dst K Hop) as (s' & E & K' & _). eauto.
  - left. destruct (tail_ok w s src dst K Hop) as (s' & E & K' & _). eauto.
  - left. destruct (self_ok w s p dst K Hop) as (s' & g & E & _ & K' & _). eauto.
  - destruct Hop as (Hd & Hh & ty & Hty & Hf & Hsz).
    destruct (new_sound (h_brk w) (h_garbage w) (h_junk w) (h_restricted w) t ty dst s K Hty Hf Hsz Hh Hd) as [[?|(s' & h & b & E & (K' & _) & _)] _]; eauto.
  - destruct Hop as (Hd & Hh & ty & Hty & Hf & Hsz).
    destruct (new_sound (h_brk w) (h_garbage w) (h_junk w) (h_restricted w) t ty dst s K Hty Hf Hsz Hh Hd) as [_ [?|(s' & h & b & E & (K' & _) & _)]]; eauto.
Qed.
Lemma gc_ok s : heap_ok s -> exists s', rungc s = Ok tt s' /\ heap_ok s'.
Proof.
  intros [I L]. destruct (rungc_safe s I) as (s' & E & I' & S). exists s'. split; [done|]. split; [done|]. by apply (layout_safe s).
Qed.

(** The machine takes instructions and slices of the collector in any order. *)
Inductive step : gcs -> gcs -> Prop :=
| step_gc s s' : rungc s = Ok tt s' -> step s s'
| step_exec s s' w i : operands_ok w s i -> exec w i s = Ok tt s' -> step s s'
| step_fail s s' w i e : operands_ok w s i -> exec w i s = Err e s' -> step s s'.

Lemma step_ok s s' : heap_ok s -> step s s' -> heap_ok s'.
Proof.
  intros K Hs. inversion Hs as [? ? E|? ? w i Hop E|? ? w i e Hop E]; subst.
  - destruct (gc_ok _ K) as (s2 & E2 & K2). rewrite E in E2. by injection E2 as ->.
  - destruct (exec_ok w _ _ K Hop) as [(s2 & E2 & K2)|(s2 & E2 & K2)]; rewrite E in E2; [by injection E2 as ->|done].
  - destruct (exec_ok w _ _ K Hop) as [(s2 & E2 & K2)|(s2 & E2 & K2)]; rewrite E in E2; [done|by injection E2 as -> ->].
Qed.
Lemma steps_ok s s' : heap_ok s -> rtc step s s' -> heap_ok s'.
Proof. intros K Hr. induction Hr as [|? ? ? Hs _ IH]; [done|]. by apply IH, (step_ok _ _ K). Qed.

(** C3.  Programs that move pointers (movp, the head and tail of a list that is
    not nil, their own module) between words that hold pointers, and make records
    (new and newz), with slices of the collector between the instructions in any
    order, never come to a block that has been freed: along every run each block that
    can be come to from the stacks, the module links and the kernel's table is in the
    heap, and the counts, colours and the pool stay well formed; the next slice
    completes, and so does the next of these instructions, or it raises the error
    that the heap is full.  The pool gets memory from the host when it needs more,
    as a new arena or an extension of the first, also while the collector walks; the
    host's memory must be aligned and apart from the arenas and the stacks. *)
Theorem run_safe s s' : heap_ok s -> rtc step s s' ->
  heap_ok s' /\
  (forall h, reach s' (prog_side s') h -> is_Some (heap s' !! h)) /\
  (exists s2, rungc s' = Ok tt s2) /\
  (forall w i, operands_ok w s' i -> exists s2, exec w i s' = Ok tt s2 \/ exec w i s' = Err exHeap s2).
Proof.
  intros K Hr. pose proof (steps_ok s s' K Hr) as K'. split; [done|]. split; [|split].
  - intros h Hh. by apply (reach_kept s' _ h (hk_inv _ K') (prog_side_root s') Hh).
  - destruct (gc_ok _ K') as (s2 & E & _). eauto.
  - intros w i Hop. destruct (exec_ok w _ _ K' Hop) as [(s2 & E & _)|(s2 & E & _)]; eauto.
Qed.

(** C27.  The data keeps its types along the runs of C3 (pointers moved, heads and
    tails of lists that are not nil, records made, and slices of the collector): a block that a program can
    come to has the shape its descriptor says, an array the descriptor of its elements
    and a length that is not negative, a list that of its head and another list or nil
    behind it, and each of its pointers leads to a block that is in the heap. *)
Theorem run_typed s s' h : heap_ok s -> rtc step s s' -> reach s' (prog_side s') h ->
  exists hd, heap s' !! h = Some hd /\ (h_t hd = 0 \/ shaped s' (h_t hd) (H2D h)) /\
    forall x, x ∈ points s' h -> is_Some (heap s' !! x) /\ reach s' (prog_side s') x.
Proof.
  intros K Hr Hh. pose proof (hk_inv _ (steps_ok s s' K Hr)) as I. pose proof (reach_kept s' _ h I (prog_side_root s') Hh) as Hk.
  destruct (Hk) as [[hd Hd] _]. exists hd. split; [done|]. destruct (iv_closed _ (iw_tri _ _ _ _ I) h Hk) as [Hs _]. split; [by apply Hs|].
  intros x Hx. pose proof (reach_step _ _ _ _ Hh Hx) as Hrx. split; [|done]. by apply (reach_kept s' _ x I (prog_side_root s') Hrx).
Qed.
