(* ===== verification/GcWalk.v ===== *)
(** * What a walk does (libinterp/gc.c)

    Marking and inspecting blocks, for any relation that sums up their parts: the
    proofs about garbage and about the length of an epoch go by such relations. *)

From S2P Require Import Prelude Pool Gc GcMark GcPool GcInv GcFree GcRun.

(** ** What marking costs *)

(** [G] is closed under the pointers of its blocks, and marking from within [G] is
    related to its effect by [R d], [d] the price of what was done: to blacken a
    block pays for the marking of its data, and for shading the tail of a list whose
    marking goes no further. *)
Section Stays.
Context (G : Z -> Prop) (s0 : gcs).
Context (Hshape : forall h, G h -> block_ok s0 h) (Hclosed : forall h x, G h -> x ∈ points s0 h -> G x).

Record near (s : gcs) : Prop := {
  nr_mem : mem s = mem s0;
  nr_types : types s = types s0;
  nr_heads : heads s = heads s0;
  nr_roots : progs s = progs s0 /\ modules s = modules s0 /\ ptrtab s = ptrtab s0;
  nr_mutator : mutator (vars s) = mutator (vars s0);
}.
Definition list_cell (l : Z) : Prop :=
  exists hd ty, heap s0 !! D2H l = Some hd /\ h_t hd <> 0 /\ types s0 !! h_t hd = Some ty /\ ty_mark ty = Marklist.
Record prices (R : Z -> gcs -> gcs -> Prop) (rank : Z -> Z) : Prop := {
  pr_mono : forall d e s s', d <= e -> R d s s' -> R e s s';
  pr_trans : forall d e s1 s2 s3, R d s1 s2 -> R e s2 s3 -> R (d + e) s1 s3;
  pr_vars : forall s f, mutator (f (vars s)) = mutator (vars s) -> R 0 s (with_vars f s);
  pr_grey : forall s h, near s -> G h -> color s h <> Some (mutator (vars s)) -> R 0 s (with_heap (alter (recolor propagator) h) s);
  pr_again : forall s h, near s -> G h -> R (rank h + 1) s (with_heap (alter (recolor propagator) h) s);
  pr_black : forall s h, near s -> G h -> color s h = Some propagator -> R (- (rank h + 1)) s (blackened h s);
  pr_rank : forall h, 0 <= rank h;
  pr_tail : forall l s s', G (D2H l) -> list_cell l -> mem s0 l <> H -> R (rank (D2H (mem s0 l)) + 1) s s' -> R (rank (D2H l)) s s';
}.
Context (R : Z -> gcs -> gcs -> Prop) (rank : Z -> Z) (HR : prices R rank).

(** From [s], and from any state near [s0]. *)
Definition from {A} (s : gcs) (d : Z) (c : S A) : Prop := forall a s', c s = Ok a s' -> near s' /\ R d s s'.
Definition stays {A} (d : Z) (c : S A) : Prop := forall s, near s -> from s d c.
Definition in_G (v : Z) : Prop := v = H \/ G (D2H v).

Lemma pr_refl s : R 0 s s.
Proof. replace s with (with_vars (fun v => v) s) at 2 by by destruct s. by apply (pr_vars _ _ HR). Qed.
Lemma near_vars s f : mutator (f (vars s)) = mutator (vars s) -> near s -> near (with_vars f s).
Proof. intros E [N1 N2 N3 N4 N5]. split; [done..|]. cbn. congruence. Qed.
Lemma near_recolor s h c : near s -> near (with_heap (alter (recolor c) h) s).
Proof. intros [N1 N2 N3 N4 N5]. split; [done|done|by rewrite heads_recolor|done|done]. Qed.
Lemma from_mono {A} s d e (c : S A) : d <= e -> from s d c -> from s e c.
Proof. intros Hd Hc a s' E. destruct (Hc a s' E) as [N1 R1]. split; [done|by apply (pr_mono _ _ HR d)]. Qed.
Lemma from_bind {A B} s d e (c : S A) (k : A -> S B) : from s d c -> (forall a, stays e (k a)) -> from s (d + e) (c ≫= k).
Proof.
  intros Hc Hk b s2 E. apply bind_ok_inv in E as (a & s1 & E1 & E2). destruct (Hc a s1 E1) as (N1 & R1).
  destruct (Hk a s1 N1 b s2 E2) as (N2 & R2). split; [done|by apply (pr_trans _ _ HR _ _ _ s1)].
Qed.
Lemma stays_mono {A} d e (c : S A) : d <= e -> stays d c -> stays e c.
Proof. intros Hd Hc s N. by apply (from_mono s d), Hc. Qed.
Lemma stays_ret {A} (a : A) : stays 0 (mret a).
Proof. intros s N b s' E. injection E as <- <-. split; [done|apply pr_refl]. Qed.
Lemma stays_fault {A} d : stays d (fault : S A).
Proof. by intros s N b s' E. Qed.
Lemma stays_bind {A B} d e (c : S A) (k : A -> S B) : stays d c -> (forall a, stays e (k a)) -> stays (d + e) (c ≫= k).
Proof. intros Hc Hk s N. by apply from_bind; [apply Hc|]. Qed.
(** What costs nothing comes first. *)
Lemma stays_then {A B} d (c : S A) (k : A -> S B) : stays 0 c -> (forall a, stays d (k a)) -> stays d (c ≫= k).
Proof. apply (stays_bind 0 d). Qed.
Lemma stays_gets {A B} d (f : gcs -> A) (k : A -> S B) : (forall s, near s -> stays d (k (f s))) -> stays d (gets f ≫= k).
Proof. intros Hk s N b s2 E. change ((gets f ≫= k) s) with (k (f s) s) in E. by apply (Hk s N s N) in E. Qed.
Lemma stays_word {B} d q (k : Z -> S B) : stays d (k (mem s0 q)) -> stays d (word q ≫= k).
Proof. intros Hk. apply stays_gets. intros s N. by rewrite (nr_mem _ N). Qed.
Lemma stays_var {B} d f (k : Z -> S B) : (forall x, stays d (k x)) -> stays d (var f ≫= k).
Proof. intros Hk. apply stays_gets. auto. Qed.
Lemma stays_type {B} d t (k : Ty -> S B) : (forall ty, types s0 !! t = Some ty -> stays d (k ty)) -> stays d (type_at t ≫= k).
Proof.
  intros Hk s N b s2 E. apply bind_ok_inv in E as (ty & s1 & E1 & E2). unfold type_at in E1. rewrite (nr_types _ N) in E1.
  destruct (types s0 !! t) as [ty'|] eqn:Ht; [|done]. injection E1 as <- <-. by apply (Hk ty' eq_refl s N) in E2.
Qed.
Lemma stays_head {B} d h (k : Heap -> S B) :
  (forall s hd hd0, near s -> heap s0 !! h = Some hd0 -> h_t hd = h_t hd0 -> color s h = Some (h_color hd) -> from s d (k hd)) ->
  stays d (heap_at h ≫= k).
Proof.
  intros Hk s N b s2 E. apply bind_ok_inv in E as (hd & s1 & E1 & E2). unfold heap_at in E1.
  pose proof (heads_lookup s0 s h (nr_heads _ N)) as Hh. destruct (heap s !! h) as [hd'|] eqn:Eh; [|done]. injection E1 as <- <-.
  destruct (heap s0 !! h) as [hd0|]; [|done]. assert (Ec : color s h = Some (h_color hd')) by (unfold color; by rewrite Eh).
  by apply (Hk s hd' hd0 N eq_refl (proj2 Hh) Ec) in E2.
Qed.
Lemma stays_vars f : (forall v, mutator (f v) = mutator v) -> stays 0 (set_var f).
Proof. intros Hf s N a s' E. injection E as <- <-. split; [by apply near_vars|by apply (pr_vars _ _ HR)]. Qed.
Lemma from_var {B} s d f (k : Z -> S B) : from s d (k (f (vars s))) -> from s d (var f ≫= k).
Proof. intros Hk a s' E. exact (Hk a s' E). Qed.
Lemma from_vars {B} s d f (k : unit -> S B) : mutator (f (vars s)) = mutator (vars s) -> from (with_vars f s) d (k tt) -> from s d (set_var f ≫= k).
Proof. intros Ef Hk a s' E. destruct (Hk a s' E) as [N1 R1]. split; [done|]. apply (pr_trans _ _ HR 0 d _ (with_vars f s)); [by apply (pr_vars _ _ HR)|done]. Qed.
Lemma stays_all {A} (f : A -> S unit) l : (forall x, x ∈ l -> stays 0 (f x)) -> stays 0 (for_all f l).
Proof.
  induction l as [|x l IH]; intros Hf; cbn [for_all]; [apply stays_ret|]. apply stays_then; [apply Hf; constructor|]. intros _.
  apply IH. intros y Hy. apply Hf. by right.
Qed.
Lemma stays_Setmark h : G h -> stays 0 (Setmark h).
Proof.
  intros Hh. apply stays_head. intros s hd _ N _ _ Hc. apply from_var. destruct (Z.eqb_spec (h_color hd) (mutator (vars s))) as [E|E]; [by apply stays_ret|].
  apply (from_bind s 0 0); [|intros _; by apply stays_vars]. intros a s' E'. injection E' as <- <-. split; [by apply near_recolor|].
  apply (pr_grey _ _ HR); [done|done|]. rewrite Hc. by intros [= ?].
Qed.
Lemma stays_mark_word_ v : in_G v -> stays 0 (if v =? H then mret tt else Setmark (D2H v)).
Proof. intros Hv. destruct (Z.eqb_spec v H); [apply stays_ret|]. destruct Hv as [?|Hv]; [done|]. by apply stays_Setmark. Qed.

(** What [t->mark] must do. *)
Definition mark_stays (f : Z -> Z -> S unit) : Prop :=
  forall t vw, shaped s0 t vw -> (forall v, v ∈ seen (mem s0) (types s0) t vw -> G (D2H v)) ->
    (forall ty, types s0 !! t = Some ty -> ty_mark ty = Marklist -> G (D2H vw) /\ list_cell vw) -> stays (rank (D2H vw)) (f t vw).
Lemma seen_points h hd v : heap s0 !! h = Some hd -> h_t hd <> 0 -> v ∈ seen (mem s0) (types s0) (h_t hd) (H2D h) -> D2H v ∈ points s0 h.
Proof. intros Hh Ht Hv. unfold points. rewrite Hh, (proj2 (Z.eqb_neq _ _) Ht). by apply list_elem_of_fmap_2. Qed.
Lemma from_black f s h hd0 : mark_stays f -> near s -> G h -> heap s0 !! h = Some hd0 -> color s h = Some propagator ->
  from s (-1) (m ← var mutator; set_color h m;; if h_t hd0 =? 0 then mret tt else f (h_t hd0) (H2D h)).
Proof.
  intros Hf N Hg Hh Hc. apply from_var. apply (from_mono s (- (rank h + 1) + rank h)); [lia|]. apply from_bind.
  { intros a s' E. injection E as <- <-. split; [by apply near_recolor|by apply (pr_black _ _ HR)]. }
  intros _. destruct (Z.eqb_spec (h_t hd0) 0) as [|Ht]; [apply (stays_mono 0); [apply (pr_rank _ _ HR)|apply stays_ret]|].
  assert (E : D2H (H2D h) = h) by (unfold D2H, H2D; lia). rewrite <- E at 1. apply Hf.
  - destruct (Hshape _ Hg hd0 Hh) as [?|Hs]; [done|exact Hs].
  - intros v Hv. apply (Hclosed _ _ Hg). by apply (seen_points _ hd0).
  - intros ty Hty Hm. rewrite E. split; [done|]. exists hd0, ty. by rewrite E.
Qed.
Lemma stays_mark_word mk q : (forall f, mk = Some f -> mark_stays f) -> in_G (mem s0 q) -> stays 0 (mark_word mk q).
Proof.
  intros Hmk Hq. unfold mark_word. apply stays_word. destruct (Z.eqb_spec (mem s0 q) H) as [E|E]; [apply stays_ret|].
  destruct Hq as [?|Hq]; [done|]. apply stays_then; [by apply stays_Setmark|]. intros _. apply stays_head. intros s hd hd0 N Hd0 Et Hc.
  destruct (Z.eqb_spec (h_color hd) propagator) as [Ep|]; [|by apply stays_ret]. apply from_var, from_vars; [done|].
  destruct mk as [f|]; [|by apply stays_ret, near_vars]. case_match; [|by apply stays_ret, near_vars]. apply from_var, from_var, from_vars; [done|].
  apply (from_mono _ (-1)); [lia|]. rewrite Et. apply from_black; [by apply Hmk|by apply near_vars, near_vars|done|done|]. rewrite <- Ep. exact Hc.
Qed.
Lemma in_G_seen map w q : (forall v, v ∈ seen_fields (mem s0) map w -> G (D2H v)) -> q ∈ fields map w -> in_G (mem s0 q).
Proof. intros Hv Hq. destruct (decide (mem s0 q = H)) as [?|Hn]; [by left|right]. apply Hv, elem_seen_fields. eauto. Qed.
Lemma stays_markheap mk t vw : (forall f, mk = Some f -> mark_stays f) ->
  (forall v, v ∈ seen_fields (mem s0) (map_of (types s0) t) vw -> G (D2H v)) -> stays 0 (markheap mk t vw).
Proof.
  intros Hmk Hv. unfold markheap. destruct (Z.eqb_spec t 0) as [|Ht]; [apply stays_ret|]. apply stays_type. intros ty Hty.
  apply stays_all. intros q Hq. apply stays_mark_word; [done|]. apply (in_G_seen (map_of (types s0) t) vw); [done|].
  unfold map_of. by rewrite (proj2 (Z.eqb_neq _ _) Ht), Hty.
Qed.
Lemma stays_markarray mk t vw ty : (forall f, mk = Some f -> mark_stays f) -> types s0 !! t = Some ty -> ty_mark ty = Markarray ->
  (forall v, v ∈ seen (mem s0) (types s0) t vw -> G (D2H v)) -> stays 0 (markarray mk vw).
Proof.
  intros Hmk Hty Hm Hv. unfold seen in Hv. rewrite Hty, Hm in Hv. unfold markarray. apply stays_word, stays_word.
  apply stays_then. { apply stays_mark_word_. destruct (decide (mem s0 (vw + 16) = H)) as [?|Hn]; [by left|right]. apply Hv, elem_of_app. left. by apply elem_not_H. }
  intros _. apply stays_type. intros ety Hety. rewrite Hety in Hv. destruct (ty_map ety); [apply stays_ret|]. apply stays_word, stays_word.
  apply stays_then; [|intros _; apply stays_var; intros n; by apply stays_vars]. apply stays_all. intros i Hi. apply stays_markheap; [done|].
  intros v Hvi. apply Hv, elem_of_app. right. apply list_elem_of_bind. eauto.
Qed.
Lemma stays_grey h : G h -> stays (rank h + 1) (set_color h propagator;; set_var (put_nprop 1)).
Proof.
  intros Hh. apply (stays_mono (rank h + 1 + 0)); [lia|]. apply stays_bind; [|intros _; by apply stays_vars].
  intros s N a s' E. injection E as <- <-. split; [by apply near_recolor|by apply (pr_again _ _ HR)].
Qed.
Lemma list_tail l : is_list s0 l -> l <> H -> G (D2H l) ->
  list_cell l /\ is_list s0 (mem s0 l) /\ (forall v, v ∈ seen_fields (mem s0) (map_of (types s0) (mem s0 (l + 8))) (l + 16) -> G (D2H v)) /\ in_G (mem s0 l).
Proof.
  intros [?|(hd & ty & Hh & Ht & Hty & Hm)] Hn Hg; [done|]. destruct (Hshape _ Hg hd Hh) as [?|(ty' & Hty' & Hs)]; [done|].
  assert (ty' = ty) as -> by congruence. rewrite Hm, H2D_D2H in Hs. destruct Hs as [_ Hs]. split; [by exists hd, ty|]. split; [done|].
  assert (Hp : forall v, v ∈ seen_fields (mem s0) (map_of (types s0) (mem s0 (l + 8))) (l + 16) ++ not_H (mem s0 l) -> G (D2H v)).
  { intros v Hv. apply (Hclosed _ _ Hg), (seen_points _ hd); [done|done|]. unfold seen. rewrite Hty, Hm, H2D_D2H. exact Hv. }
  split; [intros v Hv; apply Hp, elem_of_app; by left|]. destruct (decide (mem s0 l = H)) as [?|Hl]; [by left|right]. apply Hp, elem_of_app. right. by apply elem_not_H.
Qed.
Lemma stays_rank {A} h (c : S A) : stays 0 c -> stays (rank h) c.
Proof. apply stays_mono, (pr_rank _ _ HR). Qed.
Lemma stays_tail {A} l (c : S A) : G (D2H l) -> list_cell l -> mem s0 l <> H -> stays (rank (D2H (mem s0 l)) + 1) c -> stays (rank (D2H l)) c.
Proof. intros H1 H2 H3 Hc s N a s' E. destruct (Hc s N a s' E) as [N1 R1]. split; [done|by apply (pr_tail _ _ HR)]. Qed.
Lemma stays_marklist_loop fuel mk l : (forall f, mk = Some f -> mark_stays f) -> G (D2H l) -> list_cell l -> is_list s0 (mem s0 l) -> in_G (mem s0 l) ->
  stays (rank (D2H l)) (marklist_loop fuel mk l).
Proof.
  intros Hmk. revert l. induction fuel as [|fuel IH]; intros l Hgl Hcl Hl Hg; cbn [marklist_loop]; apply stays_var; intros n;
    (destruct (0 <? n); [|apply stays_word; destruct (Z.eqb_spec (mem s0 l) H) as [E|E];
      [apply stays_rank, stays_ret|destruct Hg as [?|Hg]; [done|by apply stays_tail, stays_grey]]]).
  { apply stays_fault. }
  apply stays_word. destruct (Z.eqb_spec (mem s0 l) H) as [E|E]; [apply stays_rank, stays_ret|]. destruct Hg as [?|Hg]; [done|].
  destruct (list_tail _ Hl E Hg) as (Hc' & Hl' & Hs & Hg'). apply stays_then; [by apply stays_Setmark|]. intros _. apply stays_word.
  apply stays_then; [by apply stays_markheap|]. intros _. apply stays_var. intros n1. apply stays_then; [by apply stays_vars|]. intros _.
  apply stays_tail; [done..|]. apply (stays_mono (rank (D2H (mem s0 l)))); [lia|]. by apply IH.
Qed.
Lemma stays_mark_type mk : (forall f, mk = Some f -> mark_stays f) -> mark_stays (fun t vw => ty ← type_at t;
  match ty_mark ty with noptrs => mret tt | Markheap => markheap mk t vw | Markarray => markarray mk vw | Marklist => marklist mk vw end).
Proof.
  intros Hmk t vw (ty & Hty & Hs) Hv Hl. apply stays_type. intros ty' Hty'. assert (ty' = ty) as -> by congruence. specialize (Hl ty Hty).
  destruct (ty_mark ty) eqn:Hm; [apply stays_rank, stays_ret|apply stays_rank|by apply stays_rank, (stays_markarray _ t vw ty)|]; unfold seen in Hv; rewrite Hty, Hm in Hv.
  - by apply stays_markheap.
  - destruct (Hl eq_refl) as [Hgl Hcl]. unfold marklist. apply stays_word. apply stays_then; [apply stays_markheap; [done|]; intros v Hx; apply Hv, elem_of_app; by left|].
    intros _. apply stays_var. intros n. apply stays_marklist_loop; [done|done|done|apply Hs|].
    destruct (decide (mem s0 vw = H)) as [?|Hn]; [by left|right]. apply Hv, elem_of_app. right. by apply elem_not_H.
Qed.
Lemma stays_mark k : mark_stays (mark k).
Proof.
  induction k as [|k IH]; [apply (stays_mark_type None)|apply (stays_mark_type (Some (mark k)))]; intros f [= <-]; exact IH.
Qed.

(** The roots. *)
Lemma stays_link ml : (forall x, x ∈ link_roots (mem s0) ml -> G x) -> stays 0 (mark_link ml).
Proof.
  intros Hx. apply stays_then; [apply stays_Setmark, Hx; constructor|]. intros _. apply stays_word. apply stays_mark_word_.
  destruct (decide (mem s0 ml = H)) as [?|Hn]; [by left|right]. apply Hx. right. by apply elem_D2H_not_H.
Qed.
Lemma stays_frame k f : frame_ok s0 f -> (forall x, x ∈ frame_roots s0 f -> G x) -> stays 0 (mark k (f_t f) (f_addr f)).
Proof.
  intros (Ht & ty & Hty & Hm) Hx. assert (Hmark : forall mk, (forall g, mk = Some g -> mark_stays g) -> stays 0 (markheap mk (f_t f) (f_addr f))).
  { intros mk Hmk. apply stays_markheap; [done|]. intros v Hv. apply Hx, elem_of_app. left. apply list_elem_of_fmap_2. unfold seen. by rewrite Hty, Hm. }
  destruct k as [|k]; cbn [mark]; apply stays_type; intros ty' Hty'; (assert (ty' = ty) as -> by congruence); rewrite Hm; apply Hmark; [done|].
  intros g [= <-]. apply stays_mark.
Qed.
Lemma stays_root_prog p : (forall f, f ∈ g_frames p -> frame_ok s0 f) -> (forall x, x ∈ prog_roots s0 p -> G x) -> stays 0 (root_prog p).
Proof.
  intros Hf Hx. apply stays_then; [apply stays_link; intros x Hl; apply Hx, elem_of_app; by left|]. intros _. apply stays_all. intros f Hin.
  assert (Hfr : forall x, x ∈ frame_roots s0 f -> G x) by (intros x Hr; apply Hx, elem_of_app; right; apply list_elem_of_bind; eauto).
  apply stays_then; [by apply stays_frame; [apply Hf|]|]. intros _. unfold frame_roots in Hfr.
  destruct (f_mr f =? 0); [apply stays_ret|]. apply stays_link. intros x Hl. apply Hfr, elem_of_app. by right.
Qed.
Lemma stays_rootset : frames_ok s0 -> (forall x, x ∈ roots s0 -> G x) ->
  stays 0 (ps ← gets progs; for_all root_prog ps;; ms ← gets origmps; for_all (fun mp => if mp =? H then mret tt else Setmark (D2H mp)) ms;; ptrmark).
Proof.
  intros Hfr Hr. apply stays_gets. intros s1 N1. destruct (nr_roots _ N1) as (-> & _ & _). apply stays_then.
  { apply stays_all. intros p Hp. apply stays_root_prog; [intros f Hf; by apply (Hfr p)|]. intros x Hx. apply Hr, elem_of_app. left. apply list_elem_of_bind. eauto. }
  intros _. apply stays_gets. intros s2 N2. replace (origmps s2) with (origmps s0) by (unfold origmps; by destruct (nr_roots _ N2) as (_ & -> & _)). apply stays_then.
  { apply stays_all. intros v Hv. apply stays_mark_word_. destruct (decide (v = H)) as [?|Hv']; [by left|right]. apply Hr, elem_of_app. right. apply elem_of_app. left.
    apply list_elem_of_fmap_2, list_elem_of_bind. exists v. by rewrite elem_not_H. }
  intros _. apply stays_gets. intros s3 N3. destruct (nr_roots _ N3) as (_ & _ & ->). apply stays_all. intros x Hx. apply stays_Setmark, Hr, elem_of_app. right.
  apply elem_of_app. by right.
Qed.
End Stays.

(** ** Along a slice *)

(** What inspecting a block comes to: it is blackened, or blocks are freed, or neither. *)
Lemma inspect_inv s b s' :
  inv s -> b ∈ concat (chain s) -> b_magic b = MAGIC_A -> b_addr b = ptr s -> inspect (B2D (ptr s)) s = Ok tt s' ->
  exists f hd, let s1 := with_vars f s in
    mutator (f (vars s)) = mutator (vars s) /\ nprop (f (vars s)) = nprop (vars s) /\ heap s !! B2D (ptr s) = Some hd /\
    (color s (B2D (ptr s)) = Some propagator /\
       (m ← var mutator; set_color (B2D (ptr s)) m;; if h_t hd =? 0 then mret tt else mark maxdepth (h_t hd) (H2D (B2D (ptr s)))) s1 = Ok tt s' \/
     frees ∅ s1 s').
Proof.
  intros I Hb Hm Ha E. set (h := B2D (ptr s)) in *. destruct (block_block s b I Hb Hm) as [hd Hhd]. rewrite Ha in Hhd. fold h in Hhd.
  assert (Hcol : color s h = Some (h_color hd)) by (unfold color; by rewrite Hhd). unfold inspect in E. rewrite (bind_ok _ _ (visit (vars s)) s s) in E by done.
  set (s1 := with_vars (put_visit (visit (vars s) - 1)) s) in *. rewrite (bind_ok _ _ tt s s1) in E by done.
  rewrite (bind_ok _ _ (gce (vars s)) s1 s1) in E by done. rewrite (bind_ok _ _ (gct (vars s)) s1 s1) in E by done.
  set (s2 := with_vars (put_gce (gce (vars s)) (gct (vars s) + 1)) s1) in *. rewrite (bind_ok _ _ tt s1 s2) in E by done.
  rewrite (bind_ok _ _ hd s2 s2) in E by (apply heap_at_ok, Hhd). set (f2 := fun v => put_gce (gce v) (gct v + 1) (put_visit (visit v - 1) v)).
  destruct (Z.eqb_spec (h_color hd) propagator) as [Ep|Ep].
  - exists (fun v => put_gce (gce v - 1) (gct v + 1) (f2 v)), hd. do 3 (split; [done|]). left. split; [by rewrite Hcol, Ep|].
    set (s3 := with_vars (put_gce (gce (vars s) - 1) (gct (vars s) + 1)) s2) in *. by rewrite (bind_ok _ _ tt s2 s3) in E.
  - rewrite (bind_ok _ _ (sweeper (vars s)) s2 s2) in E by done. destruct (Z.eqb_spec (h_color hd) (sweeper (vars s))) as [Es|Es].
    + exists (fun v => put_gce (gce v + 1) (gct v + 1) (f2 v)), hd. do 3 (split; [done|]). right.
      set (s3 := with_vars (put_gce (gce (vars s) + 1) (gct (vars s) + 1)) s2) in *. rewrite (bind_ok _ _ tt s2 s3) in E by done.
      assert (I3 : inv s3) by (apply (marks_inv ∅ [] [] s); [exact I|]; apply (vars_marks s (fun v => put_gce (gce v + 1) (gct v + 1) (f2 v))); cbn; try done; lia).
      destruct (sweep_ok s3 h hd I3 Hhd) as (s4 & E4 & _ & F4 & _); [unfold white; change (color s3 h) with (color s h); by rewrite Hcol, Es|].
      rewrite E in E4. by injection E4 as <-.
    + exists f2, hd. do 3 (split; [done|]). right. injection E as <-. apply frees_refl.
Qed.

(** Moves of the cursor. *)
Definition quiet {A} (c : S A) : Prop := forall s a s', c s = Ok a s' -> heap s' = heap s /\ vars s' = vars s.
Lemma quiet_ret {A} (a : A) : quiet (mret a).
Proof. intros s b s' E. by injection E as <- <-. Qed.
Lemma quiet_bind {A B} (c : S A) (k : A -> S B) : quiet c -> (forall a, quiet (k a)) -> quiet (c ≫= k).
Proof.
  intros Hc Hk s b s2 E. apply bind_ok_inv in E as (a & s1 & E1 & E2). destruct (Hk a _ _ _ E2) as [-> ->]. exact (Hc _ _ _ E1).
Qed.
Lemma quiet_gets {A} (f : gcs -> A) : quiet (gets f).
Proof. intros s b s' E. by injection E as <- <-. Qed.
Lemma quiet_cursor b p l : quiet (modify (with_cursor b p l)).
Proof. intros s a s' E. by injection E as <- <-. Qed.
Lemma quiet_start l : quiet (start_arena l).
Proof. destruct l as [|b l]; [by intros s a s' E|apply quiet_cursor]. Qed.
Lemma quiet_block a : quiet (block_at a).
Proof. intros s b s' E. unfold block_at, of_option in E. destruct (find _ _); [by injection E as <- <-|done]. Qed.
Lemma quiet_advance : quiet advance.
Proof.
  apply quiet_bind; [apply quiet_gets|]. intros p. apply quiet_bind; [apply quiet_block|]. intros b. apply quiet_bind; [apply quiet_gets|]. intros l.
  apply quiet_bind; [apply quiet_gets|]. intros bs. case_match; [apply quiet_bind; [apply quiet_cursor|intros _; apply quiet_ret]|].
  apply quiet_bind; [apply quiet_gets|]. intros rest. destruct rest as [|l' rest].
  - apply quiet_bind; [apply quiet_cursor|intros _; apply quiet_ret].
  - apply quiet_bind; [apply quiet_start|intros _; apply quiet_ret].
Qed.

(** What holds of each block inspected, and is not touched by the moves of the cursor,
    holds of the loop. *)
Lemma slice_loop_rel (Q : gcs -> gcs -> Prop) s0 fuel s s' :
  (forall s s', heap s' = heap s -> vars s' = vars s -> Q s s') -> (forall s1 s2 s3, Q s1 s2 -> Q s2 s3 -> Q s1 s3) ->
  (forall s b s', inv s -> spares s0 s -> b ∈ concat (chain s) -> b_magic b = MAGIC_A -> b_addr b = ptr s -> inspect (B2D (ptr s)) s = Ok tt s' -> Q s s') ->
  inv s -> spares s0 s -> base s <> None -> (remaining s <= fuel)%nat -> slice_loop fuel s = Ok tt s' -> Q s s'.
Proof.
  intros Hq Ht Hi. revert s. induction fuel as [|fuel IH]; intros s I S Hb Hf E.
  { destruct (cursor_block s I Hb) as (b & _ & _ & _ & Hpos & _). lia. }
  cbn [slice_loop] in E. rewrite (bind_ok _ _ (visit (vars s)) s s) in E by done.
  destruct (Z.ltb_spec 0 (visit (vars s))) as [Hv|Hv]; [|injection E as <-; by apply Hq].
  destruct (cursor_block s I Hb) as (b & Hin & Ep & Hblk & _ & _).
  rewrite (bind_ok _ _ (ptr s) s s) in E by done. rewrite (bind_ok _ _ _ _ _ Hblk) in E.
  destruct (round_ok s b I Hin Ep) as (s1 & E1 & I1 & S1 & P1 & B1 & R1). rewrite (bind_ok _ _ _ _ _ E1) in E.
  assert (O1 : Q s s1) by (case_decide; [by apply (Hi s b)|injection E1 as <-; by apply Hq]).
  destruct (advance_ok s1 I1 P1) as (more & s2 & E2 & I2 & S2 & V2 & R2); [congruence|]. rewrite (bind_ok _ _ _ _ _ E2) in E.
  destruct (quiet_advance _ _ _ E2) as [Eh Ev]. assert (O2 : Q s s2) by (apply (Ht s s1 s2); [done|by apply Hq]).
  destruct more; [|by injection E as <-]. destruct R2 as [B2 R2]. apply (Ht s s2 s'); [done|].
  apply (IH s2); try done; [|lia]. apply (spares_trans s0 s); [done|]. by apply (spares_trans s s1).
Qed.
