(* ===== verification/GcLive.v ===== *)
(** * Garbage (libinterp/gc.c)

    Marking from within a closed set of blocks leaves the colours of the others, so
    what the roots do not lead to is marked in no later epoch and is swept. *)

From S2P Require Import Prelude Pool Gc GcMark GcPool GcInv GcFree GcRun GcWalk.

(** ** What a slice leaves alone *)

(** Closed under the pointers of all blocks. *)
Definition around (G : Z -> Prop) (s : gcs) : Prop := forall h x, G h -> x ∈ points s h -> G x.
(** Only blocks of [G] have been marked in the epoch. *)
Definition only (G : Z -> Prop) (s : gcs) : Prop := forall h, shaded s h -> G h.
Lemma around_safe G s s' : safe s s' -> around G s -> around G s'.
Proof.
  intros S A h x Hh Hx. apply (A h x Hh). destruct (heap s' !! h) as [hd|] eqn:E; [by rewrite <- (safe_points s s' h S) by (rewrite E; eauto)|].
  unfold points in Hx. rewrite E in Hx. by apply elem_of_nil in Hx.
Qed.
Lemma only_same G s s' : mutator (vars s') = mutator (vars s) -> (forall h c, color s' h = Some c -> color s h = Some c \/ G h) -> only G s -> only G s'.
Proof. intros Em Hc Ho h Hh. unfold shaded, is_mutator in Hh. rewrite Em in Hh. destruct Hh as [Hh|Hh]; (destruct (Hc h _ Hh) as [E|?]; [|done]); apply Ho; [by left|by right]. Qed.
Lemma only_frees_marks G K s s' : frees K s s' -> only G s -> only G s'.
Proof.
  intros F. apply only_same; [by rewrite (fr_vars _ _ _ F)|]. intros h c Hc. left. destruct (color_Some_inv _ _ _ Hc) as (hd' & Hh' & <-).
  destruct (fr_heap _ _ _ F h hd' Hh') as (hd & Hh & _ & ->). unfold color. by rewrite Hh.
Qed.

(** The blocks of [G] that the collector keeps are closed as well, and have the shape
    of their types. *)
Section Kept.
Context (G : Z -> Prop) (s : gcs) (I : inv s) (A : around G s).
Definition kept_of (h : Z) : Prop := G h /\ kept s h.
Lemma kept_of_shape h : kept_of h -> block_ok s h.
Proof. intros [_ Hk]. apply (iv_closed _ (iw_tri _ _ _ _ I) h Hk). Qed.
Lemma kept_of_closed h x : kept_of h -> x ∈ points s h -> kept_of x.
Proof. intros [Hg Hk] Hx. split; [by apply (A h)|]. by apply (iv_closed _ (iw_tri _ _ _ _ I) h Hk). Qed.
(** A block of [G] is blackened. *)
Lemma kept_black R rank f h hd s' :
  prices kept_of s R rank -> mutator (f (vars s)) = mutator (vars s) -> heap s !! h = Some hd -> color s h = Some propagator -> G h ->
  (m ← var mutator; set_color h m;; if h_t hd =? 0 then mret tt else mark maxdepth (h_t hd) (H2D h)) (with_vars f s) = Ok tt s' ->
  near s s' /\ R (-1) (with_vars f s) s'.
Proof.
  intros HR Ef Hh Hc Hg. pose proof (stays_mark _ _ kept_of_shape kept_of_closed _ _ HR maxdepth) as Hm.
  apply (from_black _ _ kept_of_shape kept_of_closed _ _ HR _ _ _ _ Hm); [by split| |done|exact Hc].
  split; [done|]. apply shaded_kept; [apply I|by right].
Qed.
End Kept.

(** Marking from within [G] leaves the colours of all other blocks. *)
Definition leaves (G : Z -> Prop) (d : Z) (s s' : gcs) : Prop := forall h, color s' h = color s h \/ G h.
Lemma leaves_prices G s0 : prices G s0 (leaves G) (fun _ => 0).
Proof.
  assert (Hc : forall s h c, G h -> forall x, color (with_heap (alter (recolor c) h) s) x = color s x \/ G x).
  { intros s h c Hh x. rewrite color_recolor. case_decide as E; [right; by rewrite E|by left]. }
  split; try done; try (intros s h _ Hh; intros; intros x; exact (Hc s h _ Hh x)).
  - intros d e s1 s2 s3 H1 H2 x. destruct (H2 x) as [->|?]; [apply H1|by right].
  - intros s f _ x. by left.
Qed.

Lemma inspect_only G s b s' :
  inv s -> around G s -> only G s -> b ∈ concat (chain s) -> b_magic b = MAGIC_A -> b_addr b = ptr s ->
  inspect (B2D (ptr s)) s = Ok tt s' -> only G s'.
Proof.
  intros I A Ho Hb Hm Ha E. destruct (inspect_inv s b s' I Hb Hm Ha E) as (f & hd & Ef & _ & Hh & [[Hc E1]|F]).
  - assert (Hg : G (B2D (ptr s))) by (apply Ho; by right).
    destruct (kept_black G s I A _ _ f _ hd s' (leaves_prices _ s) Ef Hh Hc Hg E1) as [N Hk].
    apply (only_same G s s'); [by rewrite (nr_mutator _ _ N)| |done].
    intros x c Hx. destruct (Hk x) as [E'|[? _]]; [|by right]. left. rewrite E' in Hx. exact Hx.
  - apply (only_frees_marks G ∅ (with_vars f s)); [done|]. revert Ho. apply only_same; [done|]. intros h c. by left.
Qed.
Lemma safe_roots s s' x : safe s s' -> x ∈ roots s' -> x ∈ roots s.
Proof.
  intros S. pose proof (safe_prog_side s s' S) as Ep. assert (Hp : forall s x, x ∈ roots s <-> x ∈ prog_side s \/ x ∈ D2H <$> (origmps s ≫= not_H)).
  { intros r y. unfold roots, prog_side. rewrite !elem_of_app. tauto. }
  rewrite !Hp, Ep. intros [?|Hx]; [by left|right]. apply list_elem_of_fmap in Hx as (v & -> & Hv). apply list_elem_of_fmap_2.
  apply list_elem_of_bind in Hv as (mp & Hv & Hm). apply list_elem_of_bind. exists mp. split; [done|]. by apply (sf_origmps _ _ S).
Qed.

Lemma slice_loop_only G fuel s s' :
  inv s -> base s <> None -> (remaining s <= fuel)%nat -> around G s -> only G s -> slice_loop fuel s = Ok tt s' -> only G s'.
Proof.
  intros I Hb Hf A Ho E. revert Ho. apply (slice_loop_rel (fun s s' => only G s -> only G s') s fuel s s'); [|by auto| |done|apply spares_refl|done|done|done].
  - intros s1 s2 Eh Ev. apply only_same; [by rewrite Ev|]. intros h x. unfold color. rewrite Eh. by left.
  - intros s1 b s2 I1 S1 Hb1 Hm Ha E1 Ho. apply (inspect_only G s1 b); try done. apply (around_safe G s); [by apply spares_safe|done].
Qed.

Lemma rootset_only G s s' : pre (flipped s) -> frames_ok s -> around G s -> (forall x, x ∈ roots s -> G x) -> all_kept (flipped s) (roots s) ->
  (forall h, ~ shaded (flipped s) h) -> rootset s = Ok tt s' -> only G s'.
Proof.
  intros Hpre Hfr A Hr Hk Hn E. unfold rootset in E. set (s0 := flipped s) in *.
  rewrite (bind_ok _ _ (gccolor (vars s)) s s) in E by done. rewrite (bind_ok _ _ tt s s0) in E by done.
  set (K := fun h => G h /\ kept s0 h). assert (Hroot : forall x, x ∈ roots s -> K x) by (intros x Hx; split; auto).
  assert (H1 : forall h, K h -> block_ok s0 h) by (intros h [_ Hh]; by apply (proj2 Hpre)).
  assert (H2 : forall h x, K h -> x ∈ points s0 h -> K x) by (intros h x [Hg Hh] Hx; split; [by apply (A h)|by apply (proj2 Hpre h)]).
  pose proof (stays_rootset K s0 H1 H2 _ _ (leaves_prices K s0)) as St.
  destruct (St Hfr Hroot s0 ltac:(done) tt s' E) as (N & Hc). intros h Hh. destruct (Hc h) as [Eh|[Hg _]]; [|done]. destruct (Hn h).
  unfold shaded, is_mutator in *. by rewrite Eh, (nr_mutator _ _ N) in Hh.
Qed.

(** ** Epochs *)

(** The blocks of an epoch's start that are not of [G] can be swept in it. *)
Definition almost (G : Z -> Prop) (s : gcs) : Prop := forall h, is_Some (heap s !! h) -> G h \/ white s h.
Lemma flip_only G s s' :
  inv s -> finished s -> nprop (vars s) = 0 -> around G s -> (forall x, x ∈ roots s -> G x) ->
  rootset (with_vars (fun v => put_colors (gccolor v + 1) (mutator v) (sweeper v) v) s) = Ok tt s' ->
  only G s' /\ (only G s -> almost G s').
Proof.
  intros I F Hn A Hr E. set (s1 := with_vars _ s) in E. pose proof (ep_tri s I F Hn) as T1. fold s1 in T1.
  destruct (epoch_ok s I F Hn) as (s2 & E2 & _ & M). fold s1 in E2, M. rewrite E in E2. injection E2 as <-. split.
  - apply (rootset_only G s1); [by split; apply T1|apply (iv_frames _ (iw_tri _ _ _ _ I))|exact A|exact Hr| |intros h Hh|exact E].
    + intros x Hx. apply (ep_kept s I F Hn), (ep_shaded s I F Hn). by apply (iw_roots _ _ _ _ I).
    + destruct Hh as [Hh|Hh]; [|by destruct (fi_grey _ F Hn h)]. unfold is_mutator in Hh. change (color s h = Some ((gccolor (vars s) + 1) mod 3)) in Hh.
      destruct (ep_colors s I F Hn h _ Hh) as [E'|E']; revert E'; Z.div_mod_to_equations; lia.
  - intros Ho h Hh. apply (marks_some _ _ _ M) in Hh. apply color_some in Hh as [x Hx]. change (color s h = Some x) in Hx.
    destruct (ep_colors s I F Hn h x Hx) as [->| ->].
    + left. apply Ho. left. unfold is_mutator. by rewrite Hx, (iv_mutator _ (iw_tri _ _ _ _ I)).
    + right. apply (mk_white _ _ M). by apply (ep_white s).
Qed.
Lemma settle_only G s s' : inv s -> (base s = None -> finished s) -> around G s -> (forall x, x ∈ roots s -> G x) -> settle s = Ok tt s' ->
  (gccolor (vars s') = gccolor (vars s) -> only G s -> only G s') /\
  (gccolor (vars s') <> gccolor (vars s) -> only G s' /\ (only G s -> almost G s')).
Proof.
  intros I Hfin A Hr E. unfold settle in E. rewrite (bind_ok _ _ (gce (vars s)) s s) in E by done. rewrite (bind_ok _ _ (gct (vars s)) s s) in E by done.
  set (q := next_quanta (gce (vars s)) (gct (vars s))) in E.
  set (s1 := with_vars (put_quanta q) s) in E. rewrite (bind_ok _ _ tt s s1) in E by done. rewrite (bind_ok _ _ (base s) s1 s1) in E by done.
  destruct (base s) as [b|] eqn:Eb; [by injection E as <-|]. rewrite (bind_ok _ _ (nprop (vars s)) s1 s1) in E by done.
  destruct (Z.eqb_spec (nprop (vars s)) 0) as [En|En]; [|by injection E as <-].
  assert (I1 : inv s1) by (apply vars_inv; auto). assert (F1 : finished s1) by (destruct (Hfin eq_refl) as [F1 F2 F3]; by split).
  rewrite (bind_ok _ _ (gccolor (vars s)) s1 s1) in E by done. rewrite (bind_ok _ _ (mutator (vars s)) s1 s1) in E by done.
  rewrite (bind_ok _ _ (sweeper (vars s)) s1 s1) in E by done. apply bind_ok_inv in E as (u & s2 & E1 & E).
  injection E1 as _ <-. apply bind_ok_inv in E as (u' & s3 & E3 & E). injection E as <-. destruct u'.
  destruct (epoch_ok s1 I1 F1 En) as (s4 & E4 & _ & M). change (rootset (with_vars (fun v => put_colors (gccolor v + 1) (mutator v) (sweeper v) v) s1) = Ok tt s3) in E3.
  rewrite E3 in E4. injection E4 as <-. destruct (flip_only G s1 s3 I1 F1 En A Hr E3) as [H1 H2]. split; [|intros _; split; [exact H1|exact H2]].
  intros Ec. exfalso. cbn in Ec. destruct (mk_colors _ _ M) as (Ec' & _). cbn in Ec'. lia.
Qed.
Lemma rungc_only G s s' : inv s -> gchalt s = 0 -> around G s -> (forall x, x ∈ roots s -> G x) -> rungc s = Ok tt s' ->
  (gccolor (vars s') = gccolor (vars s) -> only G s -> only G s') /\
  (gccolor (vars s') <> gccolor (vars s) -> only G s' /\ (only G s -> almost G s')).
Proof.
  intros I Hh A Hr E. destruct (rungc_walk s I Hh) as (s2 & s3 & E0 & I2 & S2 & B2 & _ & Eh & V2 & _ & Hf & E3 & I3 & S3 & F3 & _). rewrite E0 in E.
  assert (O23 : only G s -> only G s3).
  { intros Ho. apply (slice_loop_only G (slice_fuel s2) s2); try done; [apply (around_safe G s); [by apply spares_safe|done]|].
    revert Ho. apply only_same; [by rewrite V2|]. intros h c. unfold color. rewrite Eh. by left. }
  destruct (settle_only G s3 s' I3 F3) as [H1 H2]; [apply (around_safe G s); [by apply spares_safe|done]| |exact E|].
  { intros x Hx. apply Hr. by apply (safe_roots s s3 x (spares_safe _ _ S3)). }
  destruct (sp_colors _ _ S3) as (Ec & _). rewrite Ec in H1, H2. split; [auto|]. intros Hn. destruct (H2 Hn) as [H3 H4]. auto.
Qed.

(** How far garbage has come after [k] changes of epoch: nothing is known; only [G]
    is marked; all else is white; all else is gone. *)
Definition phase (G : Z -> Prop) (k : nat) (s : gcs) : Prop :=
  match k with
  | 0 => True
  | 1 => only G s
  | 2 => only G s /\ almost G s
  | _ => forall h, is_Some (heap s !! h) -> G h
  end%nat.
Lemma safe_some s s' h : safe s s' -> is_Some (heap s' !! h) -> is_Some (heap s !! h).
Proof. intros S [hd Hh]. destruct (sf_heap _ _ S h hd Hh) as (hd0 & Hh0 & _). eauto. Qed.
Lemma phase_slice G k s s' : inv s -> around G s -> (forall x, x ∈ roots s -> G x) -> rungc s = Ok tt s' -> phase G k s ->
  inv s' /\ safe s s' /\ exists j, phase G (k + j) s' /\ Z.of_nat j = gccolor (vars s') - gccolor (vars s).
Proof.
  intros I A Hr E Hk. destruct (Z.eq_dec (gchalt s) 0) as [Hh|Hh].
  2: { rewrite (rungc_halted s Hh) in E. injection E as <-. split; [done|]. split; [apply safe_refl|]. exists 0%nat. rewrite Nat.add_0_r. split; [done|lia]. }
  destruct (rungc_ok s I Hh) as (s2 & E2 & S). rewrite E in E2. injection E2 as <-. destruct S as [I' S _ W1 W2 _ _ Ec].
  destruct (rungc_only G s s' I Hh A Hr E) as [N1 N2]. split; [done|]. split; [done|]. destruct Ec as [Ec|[Ec Eb]].
  - exists 0%nat. rewrite Nat.add_0_r. split; [|lia]. destruct k as [|[|[|k]]]; cbn [phase] in *; [done|auto| |].
    + destruct Hk as [H1 H2]. split; [auto|]. intros h Hx. destruct (H2 h (safe_some s s' h S Hx)) as [?|Hw]; [by left|].
      destruct (base s') as [b|] eqn:Eb; [|destruct Hx as [hd Hx]; rewrite (W1 eq_refl h Hw) in Hx; discriminate].
      destruct (W2 ltac:(done) h Hw) as [Hno|?]; [|by right]. destruct Hx as [hd Hx]. congruence.
    + intros h Hx. by apply Hk, (safe_some s s').
  - exists 1%nat. rewrite Nat.add_1_r. split; [|lia]. destruct (N2 ltac:(lia)) as [N3 N4]. destruct k as [|[|[|k]]]; cbn [phase] in *; [done|auto| |].
    + destruct Hk as [H1 H2]. intros h Hx. destruct (H2 h (safe_some s s' h S Hx)) as [?|Hw]; [done|]. destruct Hx as [hd Hx]. rewrite (W1 Eb h Hw) in Hx. discriminate.
    + intros h Hx. by apply Hk, (safe_some s s').
Qed.
Lemma phase_slices G n k s s' : inv s -> around G s -> (forall x, x ∈ roots s -> G x) -> slices n s = Ok tt s' -> phase G k s ->
  exists j, phase G (k + j) s' /\ Z.of_nat j = gccolor (vars s') - gccolor (vars s).
Proof.
  revert k s. induction n as [|n IH]; intros k s I A Hr E Hk; cbn [slices] in E.
  - injection E as <-. exists 0%nat. rewrite Nat.add_0_r. split; [done|lia].
  - apply bind_ok_inv in E as ([] & s1 & E1 & E2). destruct (phase_slice G k s s1 I A Hr E1 Hk) as (I1 & S1 & j1 & Hj1 & Ej1).
    destruct (IH (k + j1)%nat s1 I1) as (j2 & Hj2 & Ej2); try done; [by apply (around_safe G s)|intros x Hx; by apply Hr, (safe_roots s s1)|].
    exists (j1 + j2)%nat. rewrite Nat.add_assoc. split; [done|lia].
Qed.

(** No garbage stays: over any number of slices with no program at work in which
    the epoch changes three times, every block that could not be come to from the
    roots at the start, cycles included, is freed. *)
Lemma garbage_gone n s s' : inv s -> slices n s = Ok tt s' -> gccolor (vars s) + 3 <= gccolor (vars s') ->
  forall h, is_Some (heap s' !! h) -> reach s (roots s) h.
Proof.
  intros I E He. destruct (phase_slices (reach s (roots s)) n 0 s s' I) as (j & Hj & Ej); [|by apply reach_root|done|done|].
  - intros h x Hh Hx. by apply (reach_step s _ h).
  - destruct j as [|[|[|j]]]; [lia..|]. exact Hj.
Qed.
Lemma safe_trans s1 s2 s3 : safe s1 s2 -> safe s2 s3 -> safe s1 s3.
Proof.
  intros [A1 A2 A3 A4 A5 A6 AC A7] [B1 B2 B3 B4 B5 B6 BC B7]. split; try congruence; auto.
  - by apply (only_frees_trans _ (heapmem s2)).
  - intros h hd3 H3. destruct (B7 h hd3 H3) as (hd2 & H2 & E1). destruct (A7 h hd2 H2) as (hd1 & H1 & E2). exists hd1. split; [done|congruence].
Qed.
Lemma slices_safe n s s' : inv s -> slices n s = Ok tt s' -> safe s s'.
Proof.
  revert s. induction n as [|n IH]; intros s I E; cbn [slices] in E; [injection E as <-; apply safe_refl|].
  apply bind_ok_inv in E as ([] & s1 & E1 & E2). destruct (rungc_safe s I) as (s2 & E3 & I2 & S2). rewrite E1 in E3. injection E3 as <-.
  apply (safe_trans s s1); [done|by apply IH].
Qed.
