(* ===== verification/GcEpoch.v ===== *)
(** * Epochs end (libinterp/gc.c)

    What is left to do in an epoch is the blocks that have not the mutator's
    colour; a walk after which another is to follow has less left, so that every
    epoch ends and garbage goes. *)

From S2P Require Import Prelude Pool Gc GcMark GcPool GcInv GcFree GcRun GcWalk GcLive.

(** ** What is left to do in an epoch *)

(** Lists are finite: [rank] falls along their tails. *)
Definition ranked (rank : Z -> Z) (s : gcs) : Prop :=
  forall l, kept s (D2H l) -> list_cell s l -> mem s l <> H -> rank (D2H (mem s l)) < rank (D2H l).

Section Potential.
Context (rank : Z -> Z) (Hrank : forall h, 0 <= rank h).

(** A block that has not the mutator's colour counts, a list more than its tail. *)
Definition weight (s : gcs) (h : Z) : Z :=
  match color s h with
  | Some c => if c =? mutator (vars s) then 0 else rank h + 1
  | None => 0
  end.
Fixpoint weights (s : gcs) (l : list Z) : Z :=
  match l with
  | [] => 0
  | h :: l => weight s h + weights s l
  end.

Lemma weight_bound s h : 0 <= weight s h <= rank h + 1.
Proof. specialize (Hrank h). unfold weight. repeat case_match; lia. Qed.
Lemma weights_pos s l : 0 <= weights s l.
Proof. induction l as [|h l IH]; cbn; [done|]. pose proof (weight_bound s h). lia. Qed.
Lemma weights_le s s' l : (forall h, weight s' h <= weight s h) -> weights s' l <= weights s l.
Proof. intros Hw. induction l as [|h l IH]; cbn; [done|]. specialize (Hw h). lia. Qed.
Lemma weights_change s s' h l : NoDup l -> (forall x, x <> h -> weight s' x = weight s x) ->
  (h ∈ l -> weights s' l + weight s h = weights s l + weight s' h) /\ (h ∉ l -> weights s' l = weights s l).
Proof.
  intros Hl Hw. induction Hl as [|x l Hx Hl [IH1 IH2]]; [split; [by intros ?%elem_of_nil|done]|]. cbn [weights]. split.
  - intros [->|Hh]%elem_of_cons; [rewrite IH2 by done; lia|]. rewrite Hw by (by intros ->). specialize (IH1 Hh). lia.
  - rewrite not_elem_of_cons. intros [Hn Hh]. rewrite Hw, IH2 by done. done.
Qed.
Lemma weight_other s h c x : x <> h -> weight (with_heap (alter (recolor c) h) s) x = weight s x.
Proof. intros Hn. unfold weight. by rewrite color_recolor, decide_False. Qed.

(** The blocks [L] are those of the heap when the epoch is watched. *)
Context (L : list Z) (HL : NoDup L).
Definition todo (s : gcs) : Z := weights s L.
Definition pays (d : Z) (s s' : gcs) : Prop := todo s' <= todo s + d.
Lemma todo_recolor s h c : todo (with_heap (alter (recolor c) h) s) <= todo s + (rank h + 1).
Proof.
  destruct (weights_change s (with_heap (alter (recolor c) h) s) h L HL (fun x => weight_other s h c x)) as [H1 H2].
  pose proof (weight_bound s h). pose proof (weight_bound (with_heap (alter (recolor c) h) s) h). unfold todo.
  destruct (decide (h ∈ L)) as [Hi|Hi]; [specialize (H1 Hi); lia|specialize (H2 Hi); lia].
Qed.
Lemma todo_grey s h c : color s h <> Some (mutator (vars s)) -> todo (with_heap (alter (recolor c) h) s) <= todo s.
Proof.
  intros Hc. apply weights_le. intros x. destruct (decide (x = h)) as [->|Hn]; [|by rewrite weight_other].
  unfold weight at 2. destruct (color s h) as [c'|] eqn:E.
  - destruct (Z.eqb_spec c' (mutator (vars s))); [congruence|apply weight_bound].
  - unfold weight. rewrite color_recolor, decide_True by done. unfold color in E. by destruct (heap s !! h).
Qed.
Lemma todo_black s h : color s h = Some propagator -> mutator (vars s) <> propagator -> h ∈ L -> todo (blackened h s) + (rank h + 1) = todo s.
Proof.
  intros Hc Hm Hin. destruct (weights_change s (blackened h s) h L HL (fun x => weight_other s h _ x)) as [E _]. specialize (E Hin).
  assert (W1 : weight s h = rank h + 1) by (unfold weight; rewrite Hc; by rewrite (proj2 (Z.eqb_neq _ _) (not_eq_sym Hm))).
  assert (W2 : weight (blackened h s) h = 0).
  { unfold weight. rewrite (blackened_color s h Hc), decide_True by done. cbn. by rewrite Z.eqb_refl. }
  unfold todo. lia.
Qed.
Lemma pays_prices (G : Z -> Prop) s0 : colors_ok s0 -> ranked rank s0 -> (forall h, is_Some (heap s0 !! h) -> h ∈ L) -> (forall h, G h -> kept s0 h) -> prices G s0 pays rank.
Proof.
  intros Hc Hr Hin HG. split.
  - unfold pays. intros. lia.
  - unfold pays. intros. lia.
  - intros s f Ef. unfold pays, todo. rewrite Z.add_0_r. apply weights_le. intros h. unfold weight. cbn [vars with_vars]. by rewrite Ef.
  - intros s h N Hg Hm. unfold pays. rewrite Z.add_0_r. by apply todo_grey.
  - intros s h _ _. apply todo_recolor.
  - intros s h N Hg Hm. unfold pays. rewrite <- (todo_black s h Hm); [lia| |by apply Hin, HG].
    rewrite (nr_mutator _ _ N). destruct Hc as (Hc & _). unfold propagator. lia.
  - done.
  - unfold pays. intros l s s' Hk Hl Hn. specialize (Hr l (HG _ Hk) Hl Hn). lia.
Qed.

(** ** A slice has less to do *)

Definition covers (s : gcs) : Prop := forall h, is_Some (heap s !! h) -> h ∈ L.
Lemma covers_safe s s' : safe s s' -> covers s -> covers s'.
Proof. intros S Hc h [hd Hh]. destruct (sf_heap _ _ S h hd Hh) as (hd0 & Hh0 & _). apply Hc. eauto. Qed.
Lemma list_cell_safe s s' l : safe s s' -> list_cell s' l -> list_cell s l.
Proof.
  intros S (hd & ty & Hh & Ht & Hty & Hm). destruct (sf_heap _ _ S _ hd Hh) as (hd0 & Hh0 & E). rewrite E in Ht, Hty.
  destruct (types_eq_get _ _ _ _ (types_eq_sym _ _ (sf_types _ _ S)) Hty) as (ty0 & Hty0 & _ & Em & _). exists hd0, ty0.
  split; [done|]. split; [done|]. split; [done|congruence].
Qed.
Lemma ranked_safe s s' : safe s s' -> (forall h, kept s' h -> kept s h) -> ranked rank s -> ranked rank s'.
Proof. intros S Hk Hr l Hl Hc. rewrite (sf_mem _ _ S). intros Hn. apply Hr; [by apply Hk|by apply (list_cell_safe s s')|done]. Qed.
Lemma spares_kept s s' h : spares s s' -> kept s' h -> kept s h.
Proof.
  intros S [[hd Hh] Hw]. destruct (sp_heap _ _ S h hd Hh) as (hd0 & Hh0 & _ & Ew). split; [eauto|]. by rewrite Ew.
Qed.

(** There is not more to do, and if there is something new to propagate there is less. *)
Definition moves (s s' : gcs) : Prop := todo s' <= todo s /\ (nprop (vars s') = nprop (vars s) \/ todo s' < todo s).
Lemma moves_trans s1 s2 s3 : moves s1 s2 -> moves s2 s3 -> moves s1 s3.
Proof. intros [A1 A2] [B1 B2]. split; [lia|]. destruct A2 as [A2|A2], B2 as [B2|B2]; [left; congruence|right; lia..]. Qed.
(** Colours gone with their blocks. *)
Lemma moves_fewer s s' : mutator (vars s') = mutator (vars s) -> nprop (vars s') = nprop (vars s) ->
  (forall h c, color s' h = Some c -> color s h = Some c) -> moves s s'.
Proof.
  intros Em En Hc. split; [|by left]. apply weights_le. intros h. pose proof (weight_bound s h) as Hw. revert Hw. unfold weight. rewrite Em.
  destruct (color s' h) as [c|] eqn:E; [|lia]. by rewrite (Hc h c E).
Qed.
Lemma inspect_moves s b s' : inv s -> ranked rank s -> covers s ->
  b ∈ concat (chain s) -> b_magic b = MAGIC_A -> b_addr b = ptr s -> inspect (B2D (ptr s)) s = Ok tt s' -> moves s s'.
Proof.
  intros I Hr Hin Hb Hm Ha E. destruct (inspect_inv s b s' I Hb Hm Ha E) as (f & hd & Ef & En & Hh & [[Hc E1]|F]).
  - set (G := fun _ : Z => True). assert (HR : prices (kept_of G s) s pays rank).
    { apply pays_prices; [apply I|done|done|]. by intros h [_ ?]. }
    destruct (kept_black G s I (fun _ _ _ _ => Logic.I) _ _ f _ hd s' HR Ef Hh Hc Logic.I E1) as [_ Hp]. unfold pays in Hp.
    assert (E2 : todo (with_vars f s) = todo s). { destruct (moves_fewer s (with_vars f s)) as [E2 _]; [done..|]. destruct (moves_fewer (with_vars f s) s) as [E3 _]; [done..|]. lia. }
    split; [lia|right; lia].
  - apply moves_fewer; [by rewrite (fr_vars _ _ _ F)|by rewrite (fr_vars _ _ _ F)|]. intros h c Hc. destruct (color_Some_inv _ _ _ Hc) as (hd' & Hh' & <-).
    destruct (fr_heap _ _ _ F h hd' Hh') as (hd0 & Hh0 & _ & ->). unfold color. cbn in Hh0. by rewrite Hh0.
Qed.
Lemma slice_loop_moves fuel s s' :
  inv s -> ranked rank s -> covers s -> base s <> None -> (remaining s <= fuel)%nat -> slice_loop fuel s = Ok tt s' -> moves s s'.
Proof.
  intros I Hr Hin Hb Hf E. apply (slice_loop_rel moves s fuel s s'); [|by apply moves_trans| |done|apply spares_refl|done|done|done].
  - intros s1 s2 Eh Ev. apply moves_fewer; [by rewrite Ev..|]. intros h c. unfold color. by rewrite Eh.
  - intros s1 b s2 I1 S1. apply inspect_moves; [done| |apply (covers_safe s); [by apply spares_safe|done]].
    apply (ranked_safe s); [by apply spares_safe|intros h; by apply spares_kept|done].
Qed.

(** The end of a slice that starts no epoch. *)
Lemma settle_same s s' : inv s -> (base s = None -> finished s) -> settle s = Ok tt s' -> gccolor (vars s') = gccolor (vars s) ->
  heap s' = heap s /\ base s' = base s /\ mutator (vars s') = mutator (vars s) /\
  match base s with Some _ => nprop (vars s') = nprop (vars s) | None => nprop (vars s) <> 0 /\ nprop (vars s') = 0 end.
Proof.
  intros I Hfin E Ec. unfold settle in E. rewrite (bind_ok _ _ (gce (vars s)) s s) in E by done. rewrite (bind_ok _ _ (gct (vars s)) s s) in E by done.
  set (q := next_quanta (gce (vars s)) (gct (vars s))) in E. set (s1 := with_vars (put_quanta q) s) in E.
  rewrite (bind_ok _ _ tt s s1) in E by done. rewrite (bind_ok _ _ (base s) s1 s1) in E by done.
  destruct (base s) as [b|] eqn:Eb; [by injection E as <-|]. rewrite (bind_ok _ _ (nprop (vars s)) s1 s1) in E by done.
  destruct (Z.eqb_spec (nprop (vars s)) 0) as [En|En]; [|by injection E as <-]. exfalso.
  assert (I1 : inv s1) by (apply vars_inv; auto). assert (F1 : finished s1) by (destruct (Hfin eq_refl) as [F1 F2 F3]; by split).
  destruct (epoch_ok s1 I1 F1 En) as (s4 & E4 & _ & M).
  rewrite (bind_ok _ _ (gccolor (vars s)) s1 s1) in E by done. rewrite (bind_ok _ _ (mutator (vars s)) s1 s1) in E by done.
  rewrite (bind_ok _ _ (sweeper (vars s)) s1 s1) in E by done. apply bind_ok_inv in E as (u & s2 & E1 & E). injection E1 as _ <-.
  apply bind_ok_inv in E as (u' & s3 & E3 & E). injection E as <-. destruct u'.
  change (rootset (with_vars (fun v => put_colors (gccolor v + 1) (mutator v) (sweeper v) v) s1) = Ok tt s3) in E3.
  rewrite E3 in E4. injection E4 as <-. destruct (mk_colors _ _ M) as (Ec' & _). cbn in Ec, Ec'. lia.
Qed.

(** The measure of an epoch: a walk that does not end it makes it less. *)
Definition measure (s : gcs) : Z := 2 * todo s + (if nprop (vars s) =? 0 then 0 else 1).
Lemma measure_pos s : 0 <= measure s.
Proof. unfold measure, todo. pose proof (weights_pos s L). case_match; lia. Qed.
Lemma rungc_measure s s' : inv s -> gchalt s = 0 -> ranked rank s -> covers s -> rungc s = Ok tt s' -> gccolor (vars s') = gccolor (vars s) ->
  measure s' <= measure s /\ (base s' = None -> measure s' < measure s).
Proof.
  intros I Hh Hr Hin E Ec. destruct (rungc_walk s I Hh) as (s2 & s3 & E0 & I2 & S2 & B2 & _ & Eh & V2 & _ & Hf & E3 & I3 & S3 & F3 & _). rewrite E0 in E.
  assert (M2 : moves s s2) by (apply moves_fewer; [by rewrite V2..|]; intros h c; unfold color; by rewrite Eh).
  assert (M3 : moves s s3).
  { apply (moves_trans s s2); [done|]. apply (slice_loop_moves (slice_fuel s2)); try done; [|by apply (covers_safe s); [apply spares_safe|]].
    apply (ranked_safe s); [by apply spares_safe|intros h; by apply spares_kept|done]. }
  destruct (sp_colors _ _ S3) as (Ec3 & _). destruct (settle_same s3 s' I3 F3 E ltac:(congruence)) as (Eh' & Eb & Em & Hn).
  assert (Et : todo s' = todo s3).
  { unfold todo. apply Z.le_antisymm; apply weights_le; intros h; unfold weight, color; by rewrite Eh', Em. }
  unfold measure. rewrite Et, Eb. destruct M3 as [M3 N3], (base s3) as [b|].
  - rewrite Hn. split; [|done]. destruct N3 as [->|N3]; repeat case_match; lia.
  - destruct Hn as [Hn0 ->]. cbn [Z.eqb]. destruct (Z.eqb_spec (nprop (vars s)) 0) as [En|En]; [|lia].
    destruct N3 as [N3|N3]; [congruence|lia].
Qed.

(** ** Epochs end *)

(** The states of a heap watched while no program runs. *)
Record watched (s : gcs) : Prop := {
  wa_inv : inv s;
  wa_halt : gchalt s = 0;
  wa_quanta : 0 < quanta (vars s);
  wa_ranked : ranked rank s;
  wa_covers : covers s;
}.
Lemma sliced_kept s s' h : sliced s s' -> kept s' h -> kept s h.
Proof.
  intros S [Hs Hw]. split; [by apply (safe_some s s' h (sl_safe _ _ S))|]. intros Hw0. destruct Hs as [hd Hh]. destruct (base s') as [b|] eqn:Eb.
  - destruct (sl_white _ _ S ltac:(by rewrite Eb) h Hw0) as [Hn|?]; [congruence|done].
  - rewrite (sl_swept _ _ S Eb h Hw0) in Hh. discriminate.
Qed.
Lemma watched_slice s : watched s -> exists s', rungc s = Ok tt s' /\ watched s' /\ sliced s s' /\
  (gccolor (vars s') = gccolor (vars s) + 1 \/
   gccolor (vars s') = gccolor (vars s) /\ measure s' <= measure s /\ (base s' = None -> measure s' < measure s)).
Proof.
  intros [I Hh Hq Hr Hc]. destruct (rungc_ok s I Hh) as (s' & E & S). exists s'. split; [done|]. pose proof (sl_safe _ _ S) as Hs. split; [|split; [done|]].
  - split; [apply S|by rewrite (sf_halt _ _ Hs)|pose proof (sl_quanta _ _ S) as Hq'; unfold Quanta in Hq'; lia| |by apply (covers_safe s)].
    apply (ranked_safe s); [done|intros h; by apply sliced_kept|done].
  - destruct (sl_epoch _ _ S) as [Ec|[Ec _]]; [right|by left]. split; [done|]. by apply rungc_measure.
Qed.
Definition ends (s : gcs) : Prop := exists n s', slices n s = Ok tt s' /\ watched s' /\ gccolor (vars s') = gccolor (vars s) + 1.
Lemma ends_slice s s' : rungc s = Ok tt s' -> gccolor (vars s') = gccolor (vars s) -> ends s' -> ends s.
Proof.
  intros E Ec (n & s2 & E2 & W2 & Ec2). exists (Datatypes.S n), s2. split; [cbn [slices]; by rewrite (bind_ok _ _ _ _ _ E)|]. split; [done|congruence].
Qed.
Lemma ends_now s s' : rungc s = Ok tt s' -> watched s' -> gccolor (vars s') = gccolor (vars s) + 1 -> ends s.
Proof. intros E W Ec. exists 1%nat, s'. split; [cbn [slices]; by rewrite (bind_ok _ _ _ _ _ E)|done]. Qed.
(** To the end of the walk. *)
Lemma ends_walk r m s : (forall s', watched s' -> measure s' < m -> ends s') ->
  watched s -> measure s <= m -> base s <> None -> (remaining s <= r)%nat -> ends s.
Proof.
  intros Hrec. revert s. induction r as [|r IH]; intros s W Hm Hb Hr.
  { destruct (cursor_block s (wa_inv _ W) Hb) as (b & _ & _ & _ & Hpos & _). lia. }
  destruct (watched_slice s W) as (s' & E & W' & S & [Ec|(Ec & Hle & Hlt)]); [by apply (ends_now s s')|]. apply (ends_slice s s' E Ec).
  destruct (base s') as [b|] eqn:Eb; [|apply Hrec; [done|specialize (Hlt eq_refl); lia]]. assert (Hb' : base s' <> None) by by rewrite Eb.
  apply IH; [done|lia|done|]. pose proof (sl_progress _ _ S (wa_quanta _ W) Hb Hb'). lia.
Qed.
Lemma epoch_ends s : watched s -> ends s.
Proof.
  enough (Hn : forall n s, watched s -> measure s < Z.of_nat n -> ends s).
  { intros W. apply (Hn (Z.to_nat (measure s + 1))); [done|]. pose proof (measure_pos s). lia. }
  clear s. induction n as [|n IH]; intros s W Hm; [pose proof (measure_pos s); lia|].
  destruct (watched_slice s W) as (s' & E & W' & S & [Ec|(Ec & Hle & Hlt)]); [by apply (ends_now s s')|]. apply (ends_slice s s' E Ec).
  destruct (base s') as [b|] eqn:Eb; [|apply IH; [done|specialize (Hlt eq_refl); lia]].
  apply (ends_walk (remaining s') (Z.of_nat n)); [intros s2 W2 Hm2; by apply IH|done|lia|by rewrite Eb|done].
Qed.
Lemma slices_app n k s s' : slices n s = Ok tt s' -> slices (n + k) s = slices k s'.
Proof.
  revert s. induction n as [|n IH]; intros s; cbn [slices Nat.add]; [by intros [= <-]|]. intros E. apply bind_ok_inv in E as ([] & s1 & E1 & E2).
  rewrite (bind_ok _ _ _ _ _ E1). by apply IH.
Qed.
Lemma epochs_end k s : watched s -> exists n s', slices n s = Ok tt s' /\ watched s' /\ gccolor (vars s') = gccolor (vars s) + Z.of_nat k.
Proof.
  revert s. induction k as [|k IH]; intros s W; [exists 0%nat, s; split; [done|]; split; [done|lia]|].
  destruct (epoch_ends s W) as (n & s1 & E1 & W1 & Ec1). destruct (IH s1 W1) as (n2 & s2 & E2 & W2 & Ec2).
  exists (n + n2)%nat, s2. split; [by rewrite (slices_app n n2 s s1)|]. split; [done|lia].
Qed.
End Potential.

(** C5.  All garbage goes: with no program at work and every list finite, a number of
    slices is enough after which only blocks are left that could be come to from
    the roots at the start; garbage in cycles is freed too, and what the programs can come
    to is still there. *)
Theorem garbage_collected rank s :
  inv s -> gchalt s = 0 -> 0 < quanta (vars s) -> (forall h, 0 <= rank h) -> ranked rank s ->
  exists n s', slices n s = Ok tt s' /\ inv s' /\ keeps_reachable s s' /\ forall h, is_Some (heap s' !! h) -> reach s (roots s) h.
Proof.
  intros I Hh Hq Hp Hr. pose (L := (map_to_list (heap s)).*1). assert (HL : NoDup L) by apply NoDup_fst_map_to_list.
  destruct (epochs_end rank Hp L HL 3 s) as (n & s' & E & W & Ec).
  { split; [done..|]. intros h [hd Hh']. apply list_elem_of_fmap. exists (h, hd). split; [done|]. by apply elem_of_map_to_list. }
  exists n, s'. split; [done|]. split; [apply W|]. split; [|apply (garbage_gone n s s'); [done|done|lia]].
  apply safe_keeps; [apply W|]. by apply (slices_safe n).
Qed.
