(* ===== verification/GcDemo.v ===== *)
(** * Heaps (libinterp/gc.c)

    The invariant as a check that evaluates, two heaps that pass it, the theorems of
    the collector applied to them, and the run by which a call loses data. *)

From S2P Require Import Prelude Pool Gc GcMark GcPool GcInv GcFree GcRun GcOps GcAlloc GcGrow GcNew GcStep GcWalk GcLive GcEpoch.

(** ** Deciding the invariant *)

#[export] Instance markfn_dec : EqDecision markfn.
Proof. solve_decision. Defined.
#[export] Instance freefn_dec : EqDecision freefn.
Proof. solve_decision. Defined.
#[export] Instance kept_dec s h : Decision (kept s h).
Proof. unfold kept. apply _. Defined.
#[export] Instance shaded_dec s h : Decision (shaded s h).
Proof. unfold shaded, is_mutator. apply _. Defined.
#[export] Instance is_list_dec s v : Decision (is_list s v).
Proof.
  unfold is_list. destruct (decide (v = H)) as [E|E]; [left; by left|].
  destruct (heap s !! D2H v) as [hd|] eqn:E1; [|right; intros [?|(hd & ty & ? & _)]; [done|congruence]].
  destruct (types s !! h_t hd) as [ty|] eqn:E2.
  2: { right. intros [?|(hd' & ty & ? & _ & ? & _)]; [done|]. simplify_eq. }
  destruct (decide (h_t hd <> 0 /\ ty_mark ty = Marklist)) as [[H1 H2]|Hn]; [left; right; by exists hd, ty|].
  right. intros [?|(hd' & ty' & ? & ? & ? & ?)]; [done|]. simplify_eq. by apply Hn.
Defined.
#[export] Instance shaped_dec s t vw : Decision (shaped s t vw).
Proof.
  unfold shaped. destruct (types s !! t) as [ty|] eqn:E; [|right; intros (? & ? & _); congruence].
  assert (Decision (match ty_mark ty with
    | Markarray => is_Some (types s !! mem s (vw + 8)) /\ 0 <= mem s vw
    | Marklist => (mem s (vw + 8) = 0 \/ is_Some (types s !! mem s (vw + 8))) /\ is_list s (mem s vw)
    | _ => True
    end)) as [H1|H1] by (destruct (ty_mark ty); apply _).
  - left. by exists ty.
  - right. intros (ty' & ? & ?). simplify_eq. by apply H1.
Defined.
#[export] Instance ahead_dec s a : Decision (ahead s a).
Proof.
  unfold ahead. destruct (base s) as [b|]; [|left; done]. destruct (from_arena (chain s) b) as [|l rest] eqn:E; [right; by intros (? & ? & ? & _)|].
  destruct (decide (a ∈ addrs l /\ ptr s <= a < limit s \/ a ∈ addrs (concat rest))) as [Hd|Hd].
  - left. by exists l, rest.
  - right. intros (l' & rest' & E' & ?). injection E' as <- <-. by apply Hd.
Defined.
#[export] Instance cursor_ok_dec s : Decision (cursor_ok s).
Proof.
  unfold cursor_ok. destruct (base s) as [b|]; [|left; done]. destruct (from_arena (chain s) b) as [|l rest] eqn:E; [right; by intros (? & ? & ? & _)|].
  destruct (decide (ptr s ∈ addrs l /\ ptr s < limit s /\ limit s <= arena_limit l)) as [Hd|Hd].
  - left. by exists l, rest.
  - right. intros (l' & rest' & E' & ?). injection E' as <- <-. by apply Hd.
Defined.
Fixpoint tiledb (l : list Bhdr) : bool :=
  match l with
  | x :: ((y :: _) as l') => (0 <? b_size x) && (b_addr y =? b_addr x + b_size x) && tiledb l'
  | _ => true
  end.
Lemma tiledb_ok l : tiledb l = true -> tiled l.
Proof.
  induction l as [|x [|y l] IH]; try done. intros Hb. apply andb_prop in Hb as [Hb H3]. apply andb_prop in Hb as [H1 H2].
  rewrite tiled_cons. split; [lia|]. split; [lia|]. by apply IH.
Qed.
Definition arena_okb (l : list Bhdr) : bool :=
  tiledb l && match l with
  | b :: ((_ :: _) as l') => bool_decide (b_magic b = MAGIC_E) && match list.last l' with Some e => bool_decide (b_magic e = MAGIC_E) | None => false end
  | _ => false
  end.
Lemma arena_okb_ok l : arena_okb l = true -> arena_ok l.
Proof.
  unfold arena_okb. intros Hb. apply andb_prop in Hb as [H1 H2]. split; [by apply tiledb_ok|].
  destruct l as [|b [|x l]]; [done|done|]. apply andb_prop in H2 as [H2 H3].
  destruct (exists_last (l := x :: l)) as (m & e & E); [done|]. rewrite E in *. rewrite last_snoc in H3. exists b, m, e.
  apply bool_decide_eq_true in H2, H3. done.
Qed.

#[export] Instance frame_ok_dec s f : Decision (frame_ok s f).
Proof.
  unfold frame_ok. destruct (types s !! f_t f) as [ty|] eqn:E; [|right; intros (_ & ? & ? & _); congruence].
  destruct (decide (f_t f <> 0 /\ ty_mark ty = Markheap)) as [[H1 H2]|Hn]; [left; by eauto|].
  right. intros (? & ty' & ? & ?). simplify_eq. by apply Hn.
Defined.
(** The type of the block at [h]. *)
Definition type_of (s : gcs) (h : Z) : option Ty :=
  match heap s !! h with Some hd => if h_t hd =? 0 then None else types s !! h_t hd | None => None end.
Lemma type_of_Some s h ty : type_of s h = Some ty <-> exists hd, heap s !! h = Some hd /\ h_t hd <> 0 /\ types s !! h_t hd = Some ty.
Proof.
  unfold type_of. destruct (heap s !! h) as [hd|]; [|split; [done|by intros (? & ? & _)]].
  destruct (Z.eqb_spec (h_t hd) 0); split; try done.
  - intros (? & [= <-] & ? & _). done.
  - eauto.
  - by intros (? & [= <-] & _ & ?).
Qed.
Definition is_arrayb (s : gcs) (h : Z) : bool := match type_of s h with Some ty => bool_decide (ty_mark ty = Markarray) | None => false end.
Definition is_linkb (s : gcs) (h : Z) : bool := match type_of s h with Some ty => bool_decide (ty_free ty = Freemodlink) | None => false end.
Lemma is_arrayb_ok s h : is_arrayb s h = true <-> is_array s h.
Proof.
  unfold is_arrayb, is_array. destruct (type_of s h) as [ty|] eqn:E.
  - apply type_of_Some in E as (hd & H1 & H2 & H3). rewrite bool_decide_eq_true. split; [eauto 10|]. intros (? & ? & ? & ? & ? & ?). by simplify_eq.
  - split; [done|]. intros (hd & ty & ? & ? & ? & ?). assert (E' : type_of s h = Some ty) by (apply type_of_Some; eauto). congruence.
Qed.
Lemma is_linkb_ok s h : is_linkb s h = true -> is_link s h.
Proof.
  unfold is_linkb, is_link. destruct (type_of s h) as [ty|] eqn:E; [|done]. rewrite bool_decide_eq_true. intros Hf.
  apply type_of_Some in E as (hd & H1 & H2 & H3). eauto 10.
Qed.

(** The invariant as a check over the blocks. *)
Definition check_tri (s : gcs) : Prop :=
  (colors_ok s /\ mutator (vars s) = gccolor (vars s) mod 3) /\
  map_Forall (fun h hd =>
    (h_color hd = (gccolor (vars s) + 1) mod 3 -> white s h) /\ 0 <= h_color hd <= 3 /\
    (kept s h -> (h_t hd = 0 \/ shaped s (h_t hd) (H2D h)) /\ Forall (kept s) (points s h)) /\
    (h_t hd = 0 \/ match types s !! h_t hd with Some ty => ty_free ty <> nofree | None => False end) /\
    (h_color hd = mutator (vars s) -> Forall (shaded s) (points s h))) (heap s) /\
  Forall (fun p => Forall (frame_ok s) (g_frames p)) (progs s) /\
  Forall (shaded s) (roots s).
Definition check_pool (s : gcs) : Prop :=
  map_Forall (fun h hd =>
    (nprop (vars s) = 0 -> h_color hd = propagator -> ahead s (h - sizeof_Bhdr)) /\
    (white s h -> ahead s (h - sizeof_Bhdr)) /\
    Exists (fun b => b_magic b = MAGIC_A /\ b_addr b = h - sizeof_Bhdr) (concat (chain s))) (heap s) /\
  (Forall (fun l => arena_okb l = true) (chain s) /\ NoDup (addrs (concat (chain s))) /\ chain s <> [] /\ cursor_ok s) /\
  Forall (fun b => b_magic b = MAGIC_A -> is_Some (heap s !! B2D (b_addr b))) (concat (chain s)).
Definition ty_wfb (ty : Ty) : bool :=
  match ty_free ty with
  | nofree => true
  | Freeheap => bool_decide (ty_mark ty = Markheap)
  | Freestring => bool_decide (ty_mark ty = noptrs)
  | Freearray => bool_decide (ty_mark ty = Markarray)
  | Freelist => bool_decide (ty_mark ty = Marklist)
  | Freemodlink | Freechan => bool_decide (ty_mark ty = Markheap /\ ty_map ty = [128])
  end.
Definition check_counted (O : list Z) (s : gcs) : Prop :=
  map_Forall (fun h hd =>
    Z.of_nat (refs_to h (O ++ owners s)) <= h_ref hd /\
    (if is_arrayb s h then
      mem s (H2D h + 16) = H \/ is_arrayb s (D2H (mem s (H2D h + 16))) = true /\ mem s (mem s (H2D h + 16) + 16) = H /\
        Forall (fun q => q ∈ elem_slots (mem s) (types s) (mem s (H2D h + 16))) (elem_slots (mem s) (types s) (H2D h))
     else True)) (heap s) /\
  Forall (fun v => v = H \/ kept s (D2H v)) O /\
  Forall (fun md => Z.of_nat (count (m_addr md) (mod_owners s)) <= m_ref md) (modules s) /\
  Forall (fun m => m ∈ m_addr <$> modules s) (mod_owners s) /\ NoDup (m_addr <$> modules s) /\
  map_Forall (fun t ty => t <> 0 /\ ty_wfb ty = true) (types s) /\
  Forall (fun ml => is_linkb s (D2H ml) = true) (links s) /\ heap s !! D2H H = None /\ 0 <= gchalt s.
#[export] Instance check_tri_dec s : Decision (check_tri s).
Proof.
  unfold check_tri, colors_ok. assert (Hd : forall hd, Decision (match types s !! h_t hd with Some ty => ty_free ty <> nofree | None => False end)).
  { intros hd. destruct (types s !! h_t hd); apply _. }
  apply _.
Defined.
#[export] Instance check_pool_dec s : Decision (check_pool s).
Proof. unfold check_pool. apply _. Defined.
#[export] Instance check_counted_dec O s : Decision (check_counted O s).
Proof.
  unfold check_counted.
  assert (Hd : forall h, Decision (if is_arrayb s h then
      mem s (H2D h + 16) = H \/ is_arrayb s (D2H (mem s (H2D h + 16))) = true /\ mem s (mem s (H2D h + 16) + 16) = H /\
        Forall (fun q => q ∈ elem_slots (mem s) (types s) (mem s (H2D h + 16))) (elem_slots (mem s) (types s) (H2D h))
     else True)) by (intros h; destruct (is_arrayb s h); apply _).
  apply _.
Defined.

Lemma Forall_in {A} (P : A -> Prop) l : Forall P l -> forall x, x ∈ l -> P x.
Proof. rewrite Forall_forall. intros Hl x Hx. by apply Hl, list_elem_of_In. Qed.
Lemma check_tri_ok s : check_tri s -> tri s /\ rooted s.
Proof.
  intros ([H1 H2] & Hb & Hf & Hr). split; [split; try done|by intros x Hx; apply (Forall_in _ _ Hr)].
  - intros h E. destruct (color_Some_inv s h _ E) as (hd & Hh & Ec). destruct (Hb h hd Hh) as (B1 & _). auto.
  - intros h c E. destruct (color_Some_inv s h _ E) as (hd & Hh & Ec). destruct (Hb h hd Hh) as (_ & B1 & _). lia.
  - intros h Hk. destruct (proj1 Hk) as [hd Hh]. destruct (Hb h hd Hh) as (_ & _ & B1 & _). destruct (B1 Hk) as [B2 B3].
    split; [by intros hd' E; simplify_eq|by apply (Forall_in _ _ B3)].
  - intros h hd Hh. destruct (Hb h hd Hh) as (_ & _ & _ & [?|B1] & _); [by left|right]. destruct (types s !! h_t hd) as [ty|]; [eauto|done].
  - intros p f Hp Hfr. by apply (Forall_in _ _ (Forall_in _ _ Hf p Hp)).
  - intros h E. destruct (color_Some_inv s h _ E) as (hd & Hh & Ec). destruct (Hb h hd Hh) as (_ & _ & _ & _ & B1). intros x Hx. by apply (Forall_in _ _ (B1 Ec)).
Qed.
Lemma check_pool_ok s : check_pool s -> pool ∅ s.
Proof.
  intros (Hb & (Ha & Hnd & Hne & Hc) & Hblk). split; try done.
  - intros En h E. destruct (color_Some_inv s h _ E) as (hd & Hh & Ec). destruct (Hb h hd Hh) as (B1 & _). auto.
  - intros h E. destruct (color_Some_inv s h _ E) as (hd & Hh & Ec). destruct (Hb h hd Hh) as (_ & B1 & _). auto.
  - split; [|done]. rewrite Forall_forall in *. intros l Hin. by apply arena_okb_ok, Ha.
  - intros h. rewrite lookup_empty. split.
    + intros [[hd Hh]|[? ?]]; [|done]. destruct (Hb h hd Hh) as (_ & _ & B1). apply Exists_exists in B1 as (b & Hin & B2 & B3). exists b.
      split; [by apply list_elem_of_In|done].
    + intros (b & Hin & B2 & B3). left. pose proof (Forall_in _ _ Hblk b Hin B2) as Hs. rewrite B3 in Hs. unfold B2D in Hs.
      by replace (h - sizeof_Bhdr + sizeof_Bhdr) with h in Hs by lia.
  - intros h. rewrite lookup_empty. by intros [].
Qed.
Lemma check_counted_ok O s : check_counted O s -> counted O [] s.
Proof.
  intros (Hb & HO & Hm & Hin & Hnd & Hty & Hl & HH & Hg). split; try done.
  - intros h hd Hh. apply (Hb h hd Hh).
  - by apply Forall_in.
  - by apply Forall_in.
  - by apply Forall_in.
  - intros h Hk Ha. destruct (proj1 Hk) as [hd Hh]. destruct (Hb h hd Hh) as (_ & B1). rewrite (proj2 (is_arrayb_ok s h) Ha) in B1. destruct B1 as [?|(B2 & B3 & B4)]; [by left|right]. split; [by apply is_arrayb_ok|]. split; [done|].
    by apply (Forall_in _ _ B4).
  - intros t ty Ht. destruct (Hty t ty Ht) as [H1 H2]. split; [done|]. unfold ty_wfb in H2. destruct (ty_free ty); try done; by apply bool_decide_eq_true in H2.
  - intros ml Hml. apply is_linkb_ok. by apply (Forall_in _ _ Hl).
Qed.
Definition checks (O : list Z) (s : gcs) : Prop := check_tri s /\ check_pool s /\ check_counted O s /\ NoDup (slots s).
#[export] Instance checks_dec O s : Decision (checks O s).
Proof. unfold checks. apply _. Defined.
Lemma checks_inv O s : checks O s -> inv_with ∅ O [] s.
Proof.
  intros (H1 & H2 & H3 & _). destruct (check_tri_ok s H1) as [T R]. split; [done|done|by apply check_pool_ok|by apply check_counted_ok].
Qed.

(** *** Where data is *)

Fixpoint bstb (t : tree) : bool :=
  match t with
  | Leaf => true
  | Node l s ring r =>
      bool_decide (ring <> []) && bstb l && bstb r && forallb (fun x => x.2 <? s) (elements l) && forallb (fun x => s <? x.2) (elements r)
  end.
Lemma forallb_in {A} (f : A -> bool) l x : forallb f l = true -> x ∈ l -> f x = true.
Proof. rewrite forallb_forall. intros Hf Hx. by apply Hf, list_elem_of_In. Qed.
Lemma bstb_ok t : bstb t = true -> bst t.
Proof.
  induction t as [|l IHl s ring r IHr]; [done|]. cbn [bstb bst]. rewrite !andb_true_iff, bool_decide_eq_true. intros [[[[H1 H2] H3] H4] H5].
  split; [done|]. split; [by apply IHl|]. split; [by apply IHr|]. split; intros x Hx; [pose proof (forallb_in _ _ x H4 Hx)|pose proof (forallb_in _ _ x H5 Hx)]; cbn in *; lia.
Qed.
Fixpoint coalescedb (l : list Bhdr) : bool :=
  match l with
  | x :: ((y :: _) as l') => negb (bool_decide (b_magic x = MAGIC_F) && bool_decide (b_magic y = MAGIC_F)) && coalescedb l'
  | _ => true
  end.
Lemma coalescedb_ok l : coalescedb l = true -> coalesced l.
Proof.
  induction l as [|x [|y l] IH]; [done|done|]. intros Hb. cbn [coalescedb] in Hb. apply andb_prop in Hb as [H1 H2]. rewrite coalesced_cons. split; [|by apply IH].
  intros [E1 E2]. rewrite !bool_decide_true in H1 by done. done.
Qed.
Fixpoint apart_all (l : list (Z * Z)) : Prop :=
  match l with
  | [] => True
  | x :: l => Forall (Pool.apart x) l /\ apart_all l
  end.
#[export] Instance apart_all_dec l : Decision (apart_all l).
Proof. induction l as [|x l IH]; cbn [apart_all]; unfold Pool.apart; apply _. Defined.
Lemma apart_all_ok l : apart_all l -> ForallOrdPairs Pool.apart l.
Proof. induction l as [|x l IH]; [constructor|]. intros [H1 H2]. constructor; auto. Qed.
Definition check_heapmem (s : gcs) : Prop :=
  (Forall (fun l => arena_okb l = true /\ coalescedb l = true) (chain s) /\ apart_all (area <$> chain s)) /\
  (bstb (root (hpst s)) = true /\ NoDup (elements (root (hpst s))) /\ NoDup (free_of (concat (chain s))) /\
    Forall (fun x => x ∈ free_of (concat (chain s))) (elements (root (hpst s))) /\ Forall (fun x => x ∈ elements (root (hpst s))) (free_of (concat (chain s)))) /\
  cursize (hpst s) = total (used (chain s)).
#[export] Instance check_heapmem_dec s : Decision (check_heapmem s).
Proof. unfold check_heapmem. apply _. Defined.
Lemma check_heapmem_ok s : check_heapmem s -> pool_ok (heapmem s).
Proof.
  intros ((H1 & H2) & (T1 & T2 & T3 & T4 & T5) & Hc). split; cbn [arenas pst heapmem]; [|split; [by apply bstb_ok|split; [|done]]|done].
  - split; [..|by apply apart_all_ok]; rewrite Forall_forall in *; intros l Hl; [apply arena_okb_ok|apply coalescedb_ok]; by apply H1.
  - apply NoDup_Permutation; [done|done|]. intros x. split; [by apply (Forall_in _ _ T4)|by apply (Forall_in _ _ T5)].
Qed.

Definition check_layout (s : gcs) : Prop :=
  (check_heapmem s /\ NoDup (all_slots s)) /\
  map_Forall (fun h hd => Forall (fun b => b_addr b = h - sizeof_Bhdr ->
    Forall (fun q => H2D h <= q /\ q + 8 <= b_addr b + b_size b) (owned (mem s) (types s) (h_t hd) (H2D h) ++ header (types s) (h_t hd) (H2D h))) (used (chain s))) (heap s) /\
  Forall (fun q => Forall (fun l => q + 8 <= (area l).1 \/ (area l).2 <= q) (chain s)) (frame_slots s) /\
  Forall (fun l => 0 < (area l).1 /\ (area l).2 < H) (chain s) /\
  map_Forall (fun t ty => ty_free ty = Freeheap -> Forall (fun q => q + 8 <= ty_size ty) (fields (ty_map ty) 0)) (types s).
#[export] Instance check_layout_dec s : Decision (check_layout s).
Proof. unfold check_layout. apply _. Defined.
Lemma check_layout_ok s : check_layout s -> layout s.
Proof.
  intros ((H1 & H2) & H3 & H4 & H5 & H6). split.
  - by apply check_heapmem_ok.
  - done.
  - intros h hd b q Hh Hb Ea. apply (Forall_in _ _ (Forall_in _ _ (H3 h hd Hh) b Hb Ea)).
  - intros q l Hq Hl. by apply (Forall_in _ _ (Forall_in _ _ H4 q Hq)).
  - intros l Hl. by apply (Forall_in _ _ H5).
  - intros t ty q Ht Hf. by apply (Forall_in _ _ (H6 t ty Ht Hf)).
Qed.
Definition check_heap (s : gcs) : Prop := checks [] s /\ check_layout s.
#[export] Instance check_heap_dec s : Decision (check_heap s).
Proof. unfold check_heap. apply _. Defined.
Lemma check_heap_ok s : check_heap s -> heap_ok s.
Proof. intros [H1 H2]. split; [by apply checks_inv|by apply check_layout_ok]. Qed.

(** ** A heap *)

Definition words (l : list (Z * Z)) (a : Z) : Z := default 0 (snd <$> find (fun w => w.1 =? a) l).
Definition demo_types : gmap Z Ty :=
  list_to_map [
    (1, mkTy 1 Freeheap Markheap 16 [192]);
    (2, mkTy 1 Freemodlink Markheap 16 [128]);
    (3, mkTy 1 Freeheap Markheap 24 [224]);
    (4, mkTy 3 Freearray Markarray 32 []);
    (5, mkTy 3 Freelist Marklist 16 []);
    (6, mkTy 1 Freestring noptrs 0 []);
    (7, mkTy 8 Freeheap Markheap 8 [128])].
(** A link and its module data [1320], of which comes the list 1576, 3192 to the
    array 3320 and the string 3448; the list 3576 and the slice 3704 are garbage
    of the last epoch but one. *)
Definition demo_mem : Z -> Z :=
  words [
    (1192, 1320); (1200, 5000);
    (1320, 1576); (1328, H);
    (1576, 3192); (1584, 7); (1592, 3448);
    (3192, H); (3200, 7); (3208, 3320);
    (3320, 2); (3328, 7); (3336, H); (3344, 3352); (3352, 3448); (3360, H);
    (3576, 3576); (3584, 7); (3592, 3448);
    (3704, 1); (3712, 7); (3720, 3320); (3728, 3352);
    (9000, 1576); (9008, H); (9016, 1192)].
Definition demo_heap : gmap Z Heap :=
  list_to_map [
    (1160, mkHeap 0 2 2);
    (1288, mkHeap 3 2 1);
    (1544, mkHeap 3 2 5);
    (3160, mkHeap 2 1 5);
    (3288, mkHeap 2 2 4);
    (3416, mkHeap 2 3 6);
    (3544, mkHeap 1 1 5);
    (3672, mkHeap 1 1 4)].
Definition demo_chain : list (list Bhdr) :=
  [[mkBhdr 1000 128 MAGIC_E; mkBhdr 1128 128 MAGIC_A; mkBhdr 1256 128 MAGIC_A; mkBhdr 1384 128 MAGIC_F; mkBhdr 1512 128 MAGIC_A;
    mkBhdr 1640 0 MAGIC_E];
   [mkBhdr 3000 128 MAGIC_E; mkBhdr 3128 128 MAGIC_A; mkBhdr 3256 128 MAGIC_A; mkBhdr 3384 128 MAGIC_A; mkBhdr 3512 128 MAGIC_A;
    mkBhdr 3640 128 MAGIC_A; mkBhdr 3768 0 MAGIC_E]].
Definition demo : gcs :=
  mkGcs demo_mem demo_types demo_heap demo_chain (mkStat (Node Leaf 128 [1384] Leaf) 1024 1664 65536 65536) None 0 0
    [mkGProg 1192 [mkFrame 9000 3 0]] [mkModule 5000 1 1320] [] 0 (mkGcv 3 0 1 0 1 50 0 1).

Lemma demo_ok : heap_ok demo.
Proof. apply check_heap_ok, (bool_decide_unpack _). vm_compute. exact I. Qed.
Definition after {A} (c : S A) (s : gcs) : gcs := match c s with Ok _ s => s | Err _ s => s | Fault => s end.
Definition check_slot (s : gcs) (a : Z) : Prop := a ∈ slots s /\ Forall (fun b => a ∉ header (types s) b.2 (H2D b.1)) (blocks s).
#[export] Instance check_slot_dec s a : Decision (check_slot s a).
Proof. unfold check_slot. apply _. Defined.
Lemma check_slot_ok s a : check_slot s a -> slot s a.
Proof. intros [H1 H2]. split; [done|]. intros h t Hb. apply (Forall_in _ _ H2 (h, t) Hb). Qed.
(** What a host promises, of one that gives memory at [t] when less than [m] is asked for. *)
Definition brk_at (t m n : Z) : option Z := if n <? m then Some t else None.
Definition check_host (t m : Z) (s : gcs) : Prop :=
  (t mod 8 = 0 /\ 0 < t /\ t + m < H) /\ Forall (fun q => q + 8 <= t \/ t + m <= q) (frame_slots s) /\
  Forall (fun l => Pool.apart (t, t + m) (area l)) (chain s).
#[export] Instance check_host_dec t m s : Decision (check_host t m s).
Proof. unfold check_host, Pool.apart. apply _. Defined.
Lemma check_host_ok t m s : check_host t m s -> host_ok (brk_at t m) s.
Proof.
  intros ((H1 & H2 & H3) & H4 & H5) n t'. unfold brk_at. destruct (Z.ltb_spec n m) as [Hn|]; [|done]. intros [= <-].
  split; [done|]. split; [split; [|cbn; lia]|].
  - intros q Hq. destruct (Forall_in _ _ H4 q Hq); cbn; [by left|right; lia].
  - intros l Hl. pose proof (Forall_in _ _ H5 l Hl) as Ha. unfold Pool.apart in *. cbn in *. lia.
Qed.
(** One that has no memory, and one that has. *)
Definition idle : host := mkHost (brk_at 0 0) 0 (fun _ => 0) false.
Definition giving : host := mkHost (brk_at 100000 65536) 0 (fun _ => 0) false.

(** A record of type 3 in the free block, one of type 7 for which the pool gets an
    arena, a slice of the collector, and the tail of the list. *)
Definition demo1 : gcs := after (exec idle (Inew 3 9008)) demo.
Definition demo_grown : gcs := after (exec giving (Inewz 7 9008)) demo1.
Definition demo2 : gcs := after rungc demo_grown.
Definition demo3 : gcs := after (exec idle (Itail 9000 9000)) demo2.

Lemma demo_new_operands : operands_ok giving demo (Inew 3 9008).
Proof.
  split; [apply check_slot_ok, (bool_decide_unpack _); vm_compute; exact I|]. split; [apply check_host_ok, (bool_decide_unpack _); vm_compute; exact I|].
  exists (mkTy 1 Freeheap Markheap 24 [224]). split; [vm_compute; reflexivity|]. done.
Qed.
Lemma demo_newz_operands : operands_ok giving demo1 (Inewz 7 9008).
Proof.
  split; [apply check_slot_ok, (bool_decide_unpack _); vm_compute; exact I|]. split; [apply check_host_ok, (bool_decide_unpack _); vm_compute; exact I|].
  exists (mkTy 8 Freeheap Markheap 8 [128]). split; [vm_compute; reflexivity|]. done.
Qed.
Lemma demo_tail_operands : operands_ok idle demo2 (Itail 9000 9000).
Proof.
  split; [vm_compute; discriminate|].
  split; [apply (bool_decide_unpack _); vm_compute; exact I|apply check_slot_ok, (bool_decide_unpack _); vm_compute; exact I].
Qed.
Lemma demo_run : rtc step demo demo3.
Proof.
  apply (rtc_l _ _ demo1); [apply (step_exec _ _ giving (Inew 3 9008)); [apply demo_new_operands|vm_compute; reflexivity]|].
  apply (rtc_l _ _ demo_grown); [apply (step_exec _ _ giving (Inewz 7 9008)); [apply demo_newz_operands|vm_compute; reflexivity]|].
  apply (rtc_l _ _ demo2); [apply step_gc; vm_compute; reflexivity|].
  apply (rtc_l _ _ demo3); [|apply rtc_refl].
  apply (step_exec _ _ idle (Itail 9000 9000)); [apply demo_tail_operands|vm_compute; reflexivity].
Qed.

Lemma run_safe_witness : exists s2, rtc step demo demo3 /\ rungc demo3 = Ok tt s2 /\
  length (chain demo3) = 3%nat /\ mem demo3 9008 = 100192 /\ mem demo3 9000 = 3192 /\ heap demo3 !! 3544 = None.
Proof.
  destruct (run_safe demo demo3 demo_ok demo_run) as (_ & _ & [s2 E] & _).
  exists s2. split; [exact demo_run|]. split; [exact E|]. split; [vm_compute; reflexivity|]. split; [vm_compute; reflexivity|]. split; vm_compute; reflexivity.
Defined.

(** *** The theorems at the heap *)

Lemma run_typed_witness : exists hd, heap demo3 !! 3160 = Some hd /\ h_t hd = 5 /\ shaped demo3 5 3192.
Proof.
  destruct (run_typed demo demo3 3160 demo_ok demo_run) as (hd & Hd & Hs & _).
  { apply reach_root. apply (bool_decide_unpack _). vm_compute. done. }
  exists hd. split; [exact Hd|]. assert (E : h_t <$> heap demo3 !! 3160 = Some 5) by (vm_compute; reflexivity).
  rewrite Hd in E. injection E as E. rewrite E in Hs. split; [exact E|]. destruct Hs as [Hs|Hs]; [discriminate|exact Hs].
Defined.
Lemma collector_safe_witness : exists s', rungc demo2 = Ok tt s' /\ heap s' !! 3672 = None /\ is_Some (heap s' !! 3416).
Proof.
  destruct (collector_safe demo2) as (s' & E & _ & _ & _ & Hk); [apply checks_inv, (bool_decide_unpack _); vm_compute; exact I|].
  exists s'. split; [exact E|]. split.
  - assert (Hv : match rungc demo2 with Ok _ x => heap x !! 3672 | _ => Some (mkHeap 0 0 0) end = None) by (vm_compute; reflexivity). rewrite E in Hv. exact Hv.
  - destruct (Hk 3416) as (hd & hd' & _ & Hd' & _); [|exists hd'; exact Hd'].
    apply (reach_step _ _ 3288); [apply (reach_step _ _ 3160); [apply (reach_step _ _ 1544); [apply reach_root|]|]|]; apply (bool_decide_unpack _); vm_compute; done.
Defined.
(** The frame's reference to the list is given up. *)
Definition demo_drop : gcs := stored 9000 H demo.
Lemma destroy_safe_witness : exists s', destroy 1576 demo_drop = Ok tt s' /\ inv s' /\ mem s' = mem demo_drop.
Proof.
  destruct (destroy_safe demo_drop 1576) as (s' & E & I' & Em & _); [apply checks_inv, (bool_decide_unpack _); vm_compute; exact I|].
  exists s'. split; [exact E|]. split; [exact I'|exact Em].
Defined.
Lemma walk_ends_witness : exists n s', (0 < n <= 14)%nat /\ slices n demo = Ok tt s' /\ base s' = None /\ heap s' !! 3544 = None.
Proof.
  destruct (walk_ends demo (hk_inv _ demo_ok) eq_refl ltac:(vm_compute; reflexivity)) as (n & s' & Hn & E & _ & Hb & Hw).
  exists n, s'. split; [exact Hn|]. split; [exact E|]. split; [exact Hb|]. apply Hw. apply (bool_decide_unpack _). vm_compute. exact I.
Defined.
Lemma new_sound_witness : exists s' h b, newz (brk_at 100000 65536) 0 (fun _ => 0) false 7 9008 demo1 = Ok tt s' /\ placed h b 7 9008 demo1 s'.
Proof.
  assert (K : heap_ok demo1) by (apply check_heap_ok, (bool_decide_unpack _); vm_compute; exact I).
  destruct demo_newz_operands as (Hd & Hh & ty & Hty & Hf & Hsz).
  destruct (new_sound (brk_at 100000 65536) 0 (fun _ => 0) false 7 ty 9008 demo1 K Hty Hf Hsz Hh Hd) as [_ [(s' & E & _)|(s' & h & b & E & P & _)]].
  - exfalso. vm_compute in E. discriminate E.
  - exists s', h, b. exact (conj E P).
Defined.
(** The record 3576, which points to itself and was marked in the last epoch. *)
Definition demo_cycle : gcs := with_heap (insert 3544 (mkHeap 2 1 7)) demo.
Definition demo_rank (h : Z) : Z := if h =? 1544 then 1 else 0.
Definition check_ranked (rank : Z -> Z) (s : gcs) : Prop :=
  map_Forall (fun h hd => (h_t hd <> 0 /\ match types s !! h_t hd with Some ty => ty_mark ty = Marklist | None => False end) ->
    kept s h -> mem s (H2D h) <> H -> rank (D2H (mem s (H2D h))) < rank h) (heap s).
#[export] Instance check_ranked_dec rank s : Decision (check_ranked rank s).
Proof.
  unfold check_ranked. assert (Hd : forall hd, Decision (match types s !! h_t hd with Some ty => ty_mark ty = Marklist | None => False end)).
  { intros hd. destruct (types s !! h_t hd); apply _. }
  apply _.
Defined.
Lemma check_ranked_ok rank s : check_ranked rank s -> ranked rank s.
Proof.
  intros Hc l Hk (hd & ty & Hh & Ht & Hty & Hm) Hn. specialize (Hc (D2H l) hd Hh). cbn beta in Hc. rewrite H2D_D2H, Hty in Hc. by apply Hc.
Qed.
Lemma reach_within s rs (l : list Z) h : Forall (fun x => x ∈ l) rs -> Forall (fun x => Forall (fun y => y ∈ l) (points s x)) l -> reach s rs h -> h ∈ l.
Proof. intros Hr Hl. induction 1 as [x Hx|x y _ IH Hy]; [exact (Forall_in _ _ Hr x Hx)|exact (Forall_in _ _ (Forall_in _ _ Hl x IH) y Hy)]. Qed.
Lemma garbage_collected_witness : exists n s', slices n demo_cycle = Ok tt s' /\ heap s' !! 3544 = None /\ is_Some (heap s' !! 3416).
Proof.
  destruct (garbage_collected demo_rank demo_cycle) as (n & s' & E & _ & [_ Hk] & Hg);
    [apply checks_inv, (bool_decide_unpack _); vm_compute; exact I|reflexivity|reflexivity|intros h; unfold demo_rank; destruct (h =? 1544); discriminate| |].
  { apply check_ranked_ok, (bool_decide_unpack _). vm_compute. exact I. }
  exists n, s'. split; [exact E|]. split.
  - destruct (heap s' !! 3544) as [hd|] eqn:Eh; [exfalso|reflexivity].
    assert (Hin : 3544 ∈ [1160; 1288; 1544; 3160; 3288; 3416]).
    { apply (reach_within demo_cycle (roots demo_cycle)); [apply (bool_decide_unpack _); vm_compute; exact I..|]. apply Hg. rewrite Eh. eauto. }
    apply (bool_decide_pack _) in Hin. vm_compute in Hin. exact Hin.
  - destruct (Hk 3416) as (hd & hd' & _ & Hd' & _); [|exists hd'; exact Hd'].
    apply (reach_step _ _ 3288); [apply (reach_step _ _ 3160); [apply (reach_step _ _ 1544); [apply reach_root|]|]|]; apply (bool_decide_unpack _); vm_compute; done.
Defined.

(** Two programs in a module with data [3448], whose first word has the link 3192
    to a second module, with data [3320] that has the string [1320]; the frame
    9100 is made for a call through the link. *)
Definition call_types : gmap Z Ty :=
  list_to_map [
    (1, mkTy 4 Freeheap Markheap 16 [192]);
    (2, mkTy 2 Freemodlink Markheap 16 [128]);
    (3, mkTy 1 Freeheap Markheap 24 [224]);
    (6, mkTy 1 Freestring noptrs 0 [])].
Definition call_mem : Z -> Z :=
  words [
    (1192, 3448); (1200, 5000);
    (3448, 3192); (3456, H);
    (3192, 3320); (3200, 5100);
    (3320, 1320); (3328, H);
    (3576, H); (3584, H); (3704, H); (3712, H);
    (9000, H); (9008, H); (9016, H); (9100, H); (9108, H); (9116, H)].
Definition call_heap : gmap Z Heap :=
  list_to_map [
    (1160, mkHeap 0 2 2);
    (3416, mkHeap 3 1 1);
    (3160, mkHeap 2 1 2);
    (1288, mkHeap 2 1 6);
    (3288, mkHeap 2 1 1);
    (3544, mkHeap 3 1 1);
    (3672, mkHeap 3 1 1)].
Definition call_chain : list (list Bhdr) :=
  [[mkBhdr 1000 128 MAGIC_E; mkBhdr 1128 128 MAGIC_A; mkBhdr 1256 128 MAGIC_A; mkBhdr 1384 0 MAGIC_E];
   [mkBhdr 3000 128 MAGIC_E; mkBhdr 3128 128 MAGIC_A; mkBhdr 3256 128 MAGIC_A; mkBhdr 3384 128 MAGIC_A;
    mkBhdr 3512 128 MAGIC_A; mkBhdr 3640 128 MAGIC_A; mkBhdr 3768 0 MAGIC_E]].
Definition call_demo : gcs :=
  mkGcs call_mem call_types call_heap call_chain (mkStat Leaf 896 1408 65536 65536) None 0 0
    [mkGProg 1192 [mkFrame 9000 3 0; mkFrame 9100 3 0]; mkGProg 1192 []]
    [mkModule 5000 1 3576; mkModule 5100 1 3704] [] 0 (mkGcv 3 0 1 0 1 50 0 1).
Lemma call_demo_ok : heap_ok call_demo.
Proof. apply check_heap_ok, (bool_decide_unpack _). vm_compute. exact I. Qed.
Definition called : gcs := after (mcall 0 3448) call_demo.
Definition dropped : gcs := after (movp 3456 3448) called.
Definition flipped_over : gcs := after (slices 2) dropped.

(** C31.  mcall moves a link to the register M without the collector's barrier.
    From a state that satisfies the invariant, a call through a link, a store of nil
    over the link by another program and two slices of the collector come to a state
    in which data of the module that runs is of the sweeper's colour although the
    program comes to it through M, and the next slice frees it and reads it. *)
Theorem mcall_loses_data : exists s s1 s2 s3 h,
  heap_ok s /\ mcall 0 3448 s = Ok tt s1 /\ movp 3456 3448 s1 = Ok tt s2 /\ slices 2 s2 = Ok tt s3 /\
  reach s3 (prog_side s3) h /\ white s3 h /\ rungc s3 = Fault.
Proof.
  exists call_demo, called, dropped, flipped_over, 1288. split; [apply call_demo_ok|].
  split; [vm_compute; reflexivity|]. split; [vm_compute; reflexivity|]. split; [vm_compute; reflexivity|].
  split; [|split; [apply (bool_decide_unpack _); vm_compute; done|vm_compute; reflexivity]].
  apply (reach_step _ _ 3288); [|apply (bool_decide_unpack _); vm_compute; done].
  apply reach_root. apply (bool_decide_unpack _). vm_compute. done.
Qed.
