(* ===== verification/Str.v ===== *)
(** * Strings (libinterp/string.c, heap.c)

    A string keeps its characters as bytes while all are below 0x80 and as runes of
    four bytes otherwise; [s_len] is negative then.  A string is the data from its
    header to the end of its block, byte by byte, [None] a byte not yet written: an
    access outside of it faults, and so does the use of an unwritten byte.

    Strings are counted, a slot is a word of a program that points to one, and an
    instruction gets the addresses of its slots.  The allocator is what the class
    [Blocks] asks for.  The buffer [tmp] is left out, and of destroy all but what it
    does to a string; the call of destroy is not one of the 64 in each other. *)

From S2P Require Import Prelude Utf.

(** ** Strings *)

Definition H : Z := M64 - 1.
Definition sizeof_Heap : Z := 32.
Definition STRUCTALIGN : Z := 8.
Definition sizeof_String : Z := 24 + STRUCTALIGN.
Definition sizeof_Rune : Z := 4.
Definition H2D (h : Z) : Z := h + sizeof_Heap.
Definition D2H (d : Z) : Z := d - sizeof_Heap.
Definition exHeap : string := "out of memory: heap".
Definition exBounds : string := "array bounds error".
Definition exNilref : string := "dereference of nil".

Record Str : Type := mkStr { s_ref : Z; s_len : Z; s_max : Z; s_data : list (option Z) }.
Definition with_ref (r : Z) (s : Str) : Str := mkStr r (s_len s) (s_max s) (s_data s).
Definition with_len (n : Z) (s : Str) : Str := mkStr (s_ref s) n (s_max s) (s_data s).
Definition with_max (n : Z) (s : Str) : Str := mkStr (s_ref s) (s_len s) n (s_data s).
Definition with_data (d : list (option Z)) (s : Str) : Str := mkStr (s_ref s) (s_len s) (s_max s) d.

(** [n] bytes from [off] on, and such bytes stored. *)
Definition cells (d : list (option Z)) (off n : Z) : option (list (option Z)) :=
  if (0 <=? off) && (0 <=? n) && (off + n <=? Z.of_nat (length d)) then Some (list.take (Z.to_nat n) (list.drop (Z.to_nat off) d)) else None.
Definition splice (d : list (option Z)) (off : Z) (cs : list (option Z)) : option (list (option Z)) :=
  if (0 <=? off) && (off + Z.of_nat (length cs) <=? Z.of_nat (length d))
  then Some (list.take (Z.to_nat off) d ++ cs ++ list.drop (Z.to_nat off + length cs) d) else None.
Definition byte_at (d : list (option Z)) (i : Z) : option Z :=
  if i <? 0 then None else mjoin (d !! Z.to_nat i).
(** [Sascii[i]], of type char, and [Srune[i]]. *)
Definition ascii_at (s : Str) (i : Z) : option Z := s8 <$> byte_at (s_data s) i.
Definition rune_at (s : Str) (i : Z) : option Z :=
  cs ← cells (s_data s) (sizeof_Rune * i) sizeof_Rune;
  bs ← mapM (fun c => c) cs;
  Some (le_val bs).
Definition rune_cells (r : Z) : list (option Z) := Some <$> le_bytes 4 (u32 r).

(** What the strings ask of the heap pool. *)
Class Blocks (P : Type) : Type := {
  poolalloc : Z -> P -> option Z * P;
  poolmsize : P -> Z -> Z;
  poolfree : P -> Z -> P;
}.

Section Strings.
Context {P : Type} {BP : Blocks P}.

Record sst : Type := mkSst { store : gmap Z Str; slots : gmap Z Z; hp : P }.
Definition with_store (f : gmap Z Str -> gmap Z Str) (s : sst) : sst := mkSst (f (store s)) (slots s) (hp s).
Definition with_slots (f : gmap Z Z -> gmap Z Z) (s : sst) : sst := mkSst (store s) (f (slots s)) (hp s).
Definition with_hp (f : P -> P) (s : sst) : sst := mkSst (store s) (slots s) (f (hp s)).
Abbreviation S := (ST sst).

(** [*R.d] of a pointer to a string. *)
Definition slot (a : Z) : S Z := fun s => of_option (slots s !! a) s.
Definition set_slot (a v : Z) : S unit := modify (with_slots (<[a := v]>)).
Definition str_at (p : Z) : S Str := fun s => of_option (store s !! p) s.
Definition set_str (p : Z) (s : Str) : S unit := modify (with_store (<[p := s]>)).
Definition change (p : Z) (f : Str -> Str) : S unit := s ← str_at p; set_str p (f s).
Definition write (p off : Z) (cs : list (option Z)) : S unit :=
  s ← str_at p;
  d ← of_option (splice (s_data s) off cs);
  set_str p (with_data d s).
Definition memmove (p off q qoff n : Z) : S unit :=
  s ← str_at q;
  cs ← of_option (cells (s_data s) qoff n);
  write p off cs.
Definition set_rune (p i r : Z) : S unit := write p (sizeof_Rune * i) (rune_cells r).
Definition set_ascii (p i c : Z) : S unit := write p i [Some (u8 c)].

(** ** Allocation *)

Definition nheap (n : Z) : S Z :=
  r ← gets (fun s => poolalloc (u64 (sizeof_Heap + s32 n)) (hp s));
  modify (with_hp (fun _ => r.2));;
  match r.1 with
  | None => error exHeap
  | Some h => mret h
  end.
Definition hmsize (h : Z) : S Z := gets (fun s => s32 (poolmsize (hp s) h)).
(** A string in a new block of [ms] bytes. *)
Definition blank (ms len max : Z) : Str :=
  mkStr 1 len max (replicate (Z.to_nat (ms - sizeof_Heap - (sizeof_String - STRUCTALIGN))) None).
Definition newstring (nb : Z) : S Z :=
  let nb := s32 nb in
  h ← nheap (sizeof_String + nb);
  ms ← hmsize h;
  set_str (H2D h) (blank ms nb (s64 (ms - (sizeof_String + sizeof_Heap))));;
  mret (H2D h).
Definition newrunes (nr : Z) : S Z :=
  let nr := s32 nr in
  if nr =? 0 then newstring nr
  else
    let nr := if nr <? 0 then s32 (- nr) else nr in
    h ← nheap (sizeof_String + nr * sizeof_Rune);
    ms ← hmsize h;
    set_str (H2D h) (blank ms (- nr) (u64 (ms - (sizeof_String + sizeof_Heap)) / sizeof_Rune));;
    mret (H2D h).

(** [--h->ref] of an unsigned count. *)
Definition ref_less (n : Z) : Z := if n =? 0 then M64 - 1 else n - 1.
Definition destroy (v : Z) : S unit :=
  if v =? H then mret tt
  else
    s ← str_at v;
    let r := ref_less (s_ref s) in
    if 0 <? r then set_str v (with_ref r s)
    else modify (with_store (delete v));; modify (with_hp (fun p => poolfree p (D2H v))).

Definition stringdup (s : Z) : S Z :=
  if s =? H then mret H
  else
    st ← str_at s;
    if 0 <=? s_len st then
      ns ← newstring (s_len st);
      memmove ns 0 s 0 (s_len st);;
      mret ns
    else
      ns ← newrunes (- s_len st);
      memmove ns 0 s 0 (- s_len st * sizeof_Rune);;
      mret ns.

(** The bytes of [s] from [j] on as the runes of [p] from [i] on. *)
Fixpoint cvtup_loop (n : nat) (p i s j : Z) : S unit :=
  match n with
  | O => mret tt
  | Datatypes.S n =>
      st ← str_at s;
      b ← of_option (byte_at (s_data st) j);
      set_rune p i b;;
      cvtup_loop n p (i + 1) s (j + 1)
  end.
Definition cvtup (p i s : Z) : S unit :=
  st ← str_at s;
  cvtup_loop (Z.to_nat (s_len st)) p i s 0.

Definition splitc (d : Z) (expand : bool) : S Z :=
  ss ← slot d;
  st ← str_at ss;
  ns ← (if expand && (0 <? s_len st) then ns ← newrunes (s_len st); cvtup ns 0 ss;; mret ns else stringdup ss);
  destroy ss;;
  set_slot d ns;;
  mret ns.

(** ** Characters *)

Definition indc (s v : Z) : S Z :=
  ss ← slot s;
  if ss =? H then error exNilref
  else
    st ← str_at ss;
    let l := s_len st in
    if l <? 0 then
      if - l <=? v then error exBounds else of_option (rune_at st v)
    else
      if l <=? v then error exBounds else of_option (ascii_at st v).

Definition lenc (s : Z) : S Z :=
  ss ← slot s;
  if ss =? H then mret 0
  else st ← str_at ss; mret (if s_len st <? 0 then - s_len st else s_len st).

(** The two branches of insc: the result is the string that holds the character. *)
Definition insc_rune (ss l v r : Z) : S Z :=
  st ← str_at ss;
  if v <? l then set_rune ss v r;; mret ss
  else if (v =? l) && (v <? s_max st) then
    change ss (with_len (- (v + 1)));; set_rune ss v r;; mret ss
  else if negb (v =? l) then error exBounds
  else
    ns ← newstring (u32 (v + 1 + v / 4) * sizeof_Rune);
    memmove ns 0 ss 0 (l * sizeof_Rune);;
    set_rune ns v r;;
    change ns (with_len (- (v + 1)));;
    change ns (fun s => with_max (u64 (s_max s) / sizeof_Rune) s);;
    mret ns.
Definition insc_ascii (ss l v r : Z) : S Z :=
  st ← str_at ss;
  if v <? l then set_ascii ss v r;; mret ss
  else if (v =? l) && (v <? s_max st) then
    change ss (with_len (v + 1));; set_ascii ss v r;; mret ss
  else if negb (v =? l) then error exBounds
  else
    ns ← newstring (u32 (v + 1 + v / 4));
    memmove ns 0 ss 0 l;;
    set_ascii ns v r;;
    change ns (with_len (v + 1));;
    mret ns.
(** The string to change, and whether the jump to [r:] is taken. *)
Definition insc_target (d : Z) (expand : bool) : S (Z * bool) :=
  ss ← slot d;
  if ss =? H then
    ss ← newstring 0;
    if expand then change ss (fun s => with_max (u64 (s_max s) / sizeof_Rune) s);; mret (ss, true)
    else mret (ss, false)
  else
    st ← str_at ss;
    if (1 <? s_ref st) || expand && (0 <? s_len st)
    then ss ← splitc d expand; mret (ss, false)
    else mret (ss, false).
Definition insc (r v d : Z) : S unit :=
  let v := u32 v in
  let expand := Runeself <=? r in
  t ← insc_target d expand;
  let '(ss, jump) := t in
  ns ← (if jump : bool then insc_rune ss 0 v r
        else
          st ← str_at ss;
          let l := s_len st in
          if (l <? 0) || expand then insc_rune ss (- l) v r else insc_ascii ss l v r);
  p ← slot d;
  if ns =? p then mret tt else destroy p;; set_slot d ns.

(** ** Slices and sums *)

Definition slicer (start v ds : Z) : S Z :=
  let start := u32 start in
  let v := u32 v in
  if ds =? H then
    if (start =? 0) && (v =? 0) then mret H else error exBounds
  else
    st ← str_at ds;
    let nc := u32 (v - start) in
    if s_len st <? 0 then
      if (v <? start) || (- s_len st <? v) then error exBounds
      else if nc =? 0 then mret H
      else
        ns ← newrunes nc;
        memmove ns 0 ds (sizeof_Rune * start) (nc * sizeof_Rune);;
        mret ns
    else
      if (v <? start) || (s_len st <? v) then error exBounds
      else if nc =? 0 then mret H
      else
        ns ← newstring nc;
        memmove ns 0 ds start nc;;
        mret ns.
Definition slicec (start v d : Z) : S unit :=
  ds ← slot d;
  ns ← slicer start v ds;
  p ← slot d;
  destroy p;;
  set_slot d ns.

(** [append? l+l/4: l] *)
Definition grown (append : bool) (l : Z) : Z := if append then l + Z.quot l 4 else l.
Definition addstring (s1 s2 : Z) (append : bool) : S Z :=
  if s1 =? H then
    if s2 =? H then mret H else stringdup s2
  else
    st1 ← str_at s1;
    let append := append && negb (1 <? s_ref st1) in
    if s2 =? H then
      if append then mret s1 else stringdup s1
    else
      st2 ← str_at s2;
      if s_len st1 <? 0 then
        let l1 := - s_len st1 in
        let l := if s_len st2 <? 0 then l1 - s_len st2 else l1 + s_len st2 in
        ns ← (if append && (l <=? s_max st1) then mret s1
              else ns ← newrunes (grown append l); memmove ns 0 s1 0 (l1 * sizeof_Rune);; mret ns);
        change ns (with_len (- l));;
        st2 ← str_at s2;
        (if s_len st2 <? 0 then memmove ns (sizeof_Rune * l1) s2 0 (- s_len st2 * sizeof_Rune) else cvtup ns l1 s2);;
        mret ns
      else if s_len st2 <? 0 then
        let l2 := - s_len st2 in
        let l := s_len st1 + l2 in
        ns ← newrunes (grown append l);
        change ns (with_len (- l));;
        cvtup ns 0 s1;;
        memmove ns (sizeof_Rune * s_len st1) s2 0 (l2 * sizeof_Rune);;
        mret ns
      else
        let l1 := s_len st1 in
        let l := l1 + s_len st2 in
        ns ← (if append && (l <=? s_max st1) then mret s1
              else ns ← newstring (grown append l); memmove ns 0 s1 0 l1;; mret ns);
        change ns (with_len l);;
        st2 ← str_at s2;
        memmove ns l1 s2 0 (s_len st2);;
        mret ns.
Definition addc (s m d : Z) : S unit :=
  s1 ← slot m;
  s2 ← slot s;
  ns ← addstring s1 s2 (m =? d);
  p ← slot d;
  if ns =? p then mret tt else destroy p;; set_slot d ns.

(** ** Comparison *)

(** Of the two characters compared the first that differ, as [c1], [c2]. *)
Fixpoint cmp_loop (n : nat) (i : Z) (f g : Z -> option Z) : option (option (Z * Z)) :=
  match n with
  | O => Some None
  | Datatypes.S n =>
      c1 ← f i;
      c2 ← g i;
      if c1 =? c2 then cmp_loop n (i + 1) f g else Some (Some (c1, c2))
  end.
(** [memcmp]: the sign of its result. *)
Definition memcmp (n : nat) (s1 s2 : Str) : option Z :=
  r ← cmp_loop n 0 (byte_at (s_data s1)) (byte_at (s_data s2));
  Some (match r with Some (c1, c2) => if c1 <? c2 then -1 else 1 | None => 0 end).
Definition snil : Str := mkStr 1 0 0 (replicate (Z.to_nat STRUCTALIGN) (Some 0)).
Definition int_of_rune (r : option Z) : option Z := s32 <$> r.
Definition stringcmp_at (s1 s2 : Str) : option Z :=
  let n1 := s32 (s_len s1) in
  let n2 := s32 (s_len s2) in
  let v1 := n1 <? 0 in
  let v2 := n2 <? 0 in
  let n1 := if v1 then s32 (- n1) else n1 in
  let n2 := if v2 then s32 (- n2) else n2 in
  let n := Z.to_nat (if n2 <? n1 then n2 else n1) in
  let diff (r : option (Z * Z)) := match r with Some (c1, c2) => if c1 <? c2 then -1 else 1 | None => s32 (n1 - n2) end in
  match v1, v2 with
  | false, false => r ← memcmp n s1 s2; Some (if r =? 0 then s32 (n1 - n2) else r)
  | true, false => diff <$> cmp_loop n 0 (fun i => int_of_rune (rune_at s1 i)) (ascii_at s2)
  | false, true => diff <$> cmp_loop n 0 (ascii_at s1) (fun i => int_of_rune (rune_at s2 i))
  | true, true => diff <$> cmp_loop n 0 (fun i => int_of_rune (rune_at s1 i)) (fun i => int_of_rune (rune_at s2 i))
  end.
Definition stringcmp (s1 s2 : Z) : S Z :=
  if s1 =? s2 then mret 0
  else
    st1 ← (if s1 =? H then mret snil else str_at s1);
    st2 ← (if s2 =? H then mret snil else str_at s2);
    of_option (stringcmp_at st1 st2).

(** ** To and from UTF-8 *)

Fixpoint string2c_loop (n : nat) (st : Str) (i : Z) : option (list Z) :=
  match n with
  | O => Some [0]
  | Datatypes.S n =>
      c ← int_of_rune (rune_at st i);
      rest ← string2c_loop n st (i + 1);
      Some ((if c <? Runeself then [u8 c] else runetochar (u32 c)) ++ rest)
  end.
(** The bytes at the result, with their NUL. *)
Definition string2c (s : Z) : S (list Z) :=
  if s =? H then mret [0]
  else
    st ← str_at s;
    if 0 <=? s_len st then
      set_ascii s (s_len st) 0;;
      st ← str_at s;
      cs ← of_option (cells (s_data st) 0 (s_len st + 1));
      of_option (mapM (fun c => c) cs)
    else of_option (string2c_loop (Z.to_nat (- s_len st)) st 0).

(** The bytes of [cs] before the first that is not ASCII. *)
Fixpoint ascii_prefix (cs : list Z) : nat :=
  match cs with
  | [] => O
  | c :: cs => if Runeself <=? c then O else Datatypes.S (ascii_prefix cs)
  end.
(** The characters that begin in [p], up to one that is not complete. *)
Fixpoint count_runes (fuel : nat) (p : list Z) : option Z :=
  match p, fuel with
  | [], _ => Some 0
  | _, O => None
  | c :: p', Datatypes.S fuel =>
      if c <? Runeself then n ← count_runes fuel p'; Some (n + 1)
      else
        full ← (if UTFmax <=? Z.of_nat (length p) then Some true else fullrune p (Z.of_nat (length p)));
        if full : bool then
          '(_, w) ← chartorune p;
          n ← count_runes fuel (drop (Z.to_nat w) p);
          Some (n + 1)
        else Some 0
  end.
Fixpoint decode_runes (n : nat) (s i : Z) (cs : list Z) : S unit :=
  match n with
  | O => mret tt
  | Datatypes.S n =>
      rw ← of_option (chartorune cs);
      let '(r, w) := rw in
      set_rune s i r;;
      decode_runes n s (i + 1) (drop (Z.to_nat w) cs)
  end.
Definition c2string (cs : list Z) : S Z :=
  let a := ascii_prefix cs in
  if bool_decide (a = length cs) then
    s ← newstring (Z.of_nat (length cs));
    write s 0 (Some <$> cs);;
    mret s
  else
    nc ← of_option (count_runes (length cs) (drop a cs));
    let nc := Z.of_nat a + nc in
    s ← newrunes nc;
    decode_runes (Z.to_nat nc) s 0 cs;;
    mret s.
(** The array is nil or has the bytes [a]. *)
Definition cvtac (a : option (list Z)) (d : Z) : S unit :=
  ds ← match a with None => mret H | Some bs => c2string bs end;
  p ← slot d;
  destroy p;;
  set_slot d ds.

(** movp of xec.c: the two slots have the same string. *)
Definition movp (s d : Z) : S unit :=
  sv ← slot s;
  (if sv =? H then mret tt else change sv (fun st => with_ref (s_ref st + 1) st));;
  dv ← slot d;
  set_slot d sv;;
  destroy dv.

(** The instructions that change a string of a slot. *)
Inductive instr : Type := Iinsc (r v d : Z) | Islicec (start v d : Z) | Iaddc (s m d : Z) | Icvtac (a : option (list Z)) (d : Z) | Imovp (s d : Z).
Definition exec (i : instr) : S unit :=
  match i with
  | Iinsc r v d => insc r v d
  | Islicec start v d => slicec start v d
  | Iaddc s m d => addc s m d
  | Icvtac a d => cvtac a d
  | Imovp s d => movp s d
  end.

End Strings.
