(* ===== verification/StrInv.v ===== *)
(** * What strings keep

    The invariant of the strings and their slots, what allocation and freeing do to
    it, and how the bytes of a string are those of its characters. *)

From S2P Require Import Prelude Utf Str.

(** ** Bytes of a string *)

Definition rcells (xs : list Z) : list (option Z) := xs ≫= rune_cells.
Definition is_ascii (c : Z) : Prop := 0 <= c < 128.
Definition is_rune (c : Z) : Prop := 0 <= c < M32.

(** [s] holds the characters [xs]. *)
Inductive repr (s : Str) (xs : list Z) : Prop :=
| repr_ascii rest : s_len s = Z.of_nat (length xs) -> Forall is_ascii xs -> s_len s <= s_max s -> s_max s + STRUCTALIGN <= Z.of_nat (length (s_data s)) ->
    s_data s = (Some <$> xs) ++ rest -> repr s xs
| repr_runes rest : s_len s = - Z.of_nat (length xs) -> xs <> [] -> Forall is_rune xs -> - s_len s <= s_max s -> 4 * s_max s <= Z.of_nat (length (s_data s)) ->
    s_data s = rcells xs ++ rest -> repr s xs.

Lemma length_rune_cells r : length (rune_cells r) = 4%nat.
Proof. done. Qed.
Lemma length_rcells xs : length (rcells xs) = (4 * length xs)%nat.
Proof. unfold rcells. induction xs as [|x xs IH]; [done|]. cbn [mbind list_bind length]. rewrite length_app, IH, length_rune_cells. lia. Qed.
#[global] Arguments rune_cells : simpl never.
#[global] Arguments rcells : simpl never.
Lemma rcells_app xs ys : rcells (xs ++ ys) = rcells xs ++ rcells ys.
Proof. apply bind_app. Qed.
Lemma rcells_cons x xs : rcells (x :: xs) = rune_cells x ++ rcells xs.
Proof. done. Qed.
Lemma rcells_snoc xs x : rcells (xs ++ [x]) = rcells xs ++ rune_cells x.
Proof. by rewrite rcells_app. Qed.
Lemma ascii_rune c : is_ascii c -> is_rune c.
Proof. unfold is_ascii, is_rune, M32. lia. Qed.
Lemma rune_cells_val r : is_rune r -> exists bs, mapM (fun c => c) (rune_cells r) = Some bs /\ le_val bs = r.
Proof.
  intros Hr. exists (le_bytes 4 (u32 r)). split; [done|]. rewrite le_val_bytes. unfold is_rune, u32, pow8, M32 in *. cbn.
  rewrite Z.mod_mod by done. apply Z.mod_small. lia.
Qed.

Lemma splice_at a r off cs : off = Z.of_nat (length a) -> (length cs <= length r)%nat -> splice (a ++ r) off cs = Some (a ++ cs ++ list.drop (length cs) r).
Proof.
  intros -> Hl. unfold splice. rewrite length_app, (proj2 (Z.leb_le 0 _)), (proj2 (Z.leb_le _ _)) by lia. cbn [andb].
  rewrite Nat2Z.id, list.take_app_length. do 3 f_equal. by rewrite list.drop_app_add.
Qed.
Lemma splice_over a old r off cs : off = Z.of_nat (length a) -> length old = length cs -> splice (a ++ old ++ r) off cs = Some (a ++ cs ++ r).
Proof. intros Ho Hl. rewrite splice_at; [|done|rewrite length_app; lia]. by rewrite <- Hl, list.drop_app_length. Qed.
Lemma cells_at a b c off n : off = Z.of_nat (length a) -> n = Z.of_nat (length b) -> cells (a ++ b ++ c) off n = Some b.
Proof.
  intros -> ->. unfold cells. rewrite !length_app, !(proj2 (Z.leb_le _ _)) by lia. cbn [andb].
  by rewrite !Nat2Z.id, list.drop_app_length, list.take_app_length.
Qed.
Lemma cells_front b c n : n = Z.of_nat (length b) -> cells (b ++ c) 0 n = Some b.
Proof. by apply (cells_at []). Qed.
Lemma byte_at_list (xs : list Z) rest i x : xs !! Z.to_nat i = Some x -> 0 <= i -> byte_at ((Some <$> xs) ++ rest) i = Some x.
Proof.
  intros Hx Hi. unfold byte_at. rewrite (proj2 (Z.ltb_ge i 0)) by lia. rewrite list.lookup_app_l.
  - by rewrite list_lookup_fmap, Hx.
  - rewrite list.length_fmap. by apply list.lookup_lt_Some in Hx.
Qed.
Lemma split_at {A} (xs : list A) i x : xs !! i = Some x -> exists a b, xs = a ++ x :: b /\ length a = i.
Proof. intros Hx. exists (list.take i xs), (list.drop (Datatypes.S i) xs). split; [by rewrite take_drop_middle|]. rewrite length_take. apply list.lookup_lt_Some in Hx. lia. Qed.
Lemma rune_at_list s xs rest i x : s_data s = rcells xs ++ rest -> Forall is_rune xs -> xs !! Z.to_nat i = Some x -> 0 <= i -> rune_at s i = Some x.
Proof.
  intros Ed Hr Hx Hi. destruct (split_at xs _ x Hx) as (a & b & -> & Ea). unfold rune_at. rewrite Ed, rcells_app, rcells_cons, <- !app_assoc.
  unfold sizeof_Rune. rewrite (cells_at _ _ _ (4 * i) 4); [|rewrite length_rcells; lia|done]. cbn [mbind option_bind].
  apply Forall_app in Hr as [_ Hr]. apply Forall_cons_iff in Hr as [Hr _]. destruct (rune_cells_val x Hr) as (bs & -> & E). cbn. by rewrite E.
Qed.

Lemma rcells_inj xs ys : Forall is_rune xs -> Forall is_rune ys -> rcells xs = rcells ys -> xs = ys.
Proof.
  revert ys. induction xs as [|x xs IH]; intros [|y ys] Hx Hy E; [done|by apply (f_equal length) in E|by apply (f_equal length) in E|].
  rewrite !rcells_cons in E. apply app_inj_1 in E as [E1 E2]; [|done]. apply Forall_cons_iff in Hx as [Hx1 Hx], Hy as [Hy1 Hy].
  destruct (rune_cells_val x Hx1) as (bs & Eb & <-), (rune_cells_val y Hy1) as (cs & Ec & <-). f_equal; [|by apply IH]. congruence.
Qed.
Lemma repr_unique st xs ys : repr st xs -> repr st ys -> xs = ys.
Proof.
  intros [r1 L1 A1 _ _ E1|r1 L1 N1 A1 _ _ E1] [r2 L2 A2 _ _ E2|r2 L2 N2 A2 _ _ E2].
  - rewrite E1 in E2. apply app_inj_1 in E2 as [E2 _]; [|rewrite !length_fmap; lia]. by apply (inj (fmap Some)) in E2.
  - destruct ys; [done|cbn in *; lia].
  - destruct xs; [done|cbn in *; lia].
  - rewrite E1 in E2. apply app_inj_1 in E2 as [E2 _]; [|rewrite !length_rcells; lia]. by apply rcells_inj.
Qed.

(** ** The pool *)

Class BlocksOk (P : Type) `{Blocks P} : Type := {
  b_ok : P -> Prop;
  b_used : P -> Z -> Prop;
  used_bound p h : b_ok p -> b_used p h -> poolmsize p h < 2 ^ 28 /\ H2D h <> H;
  alloc_ok n p : b_ok p -> 0 <= n ->
    let '(r, p') := poolalloc n p in
    b_ok p' /\ (forall x, b_used p x -> poolmsize p' x = poolmsize p x) /\
    match r with
    | None => forall x, b_used p' x <-> b_used p x
    | Some h => n <= poolmsize p' h /\ ~ b_used p h /\ forall x, b_used p' x <-> x = h \/ b_used p x
    end;
  free_ok p h : b_ok p -> b_used p h ->
    b_ok (poolfree p h) /\ forall x, (b_used (poolfree p h) x <-> x <> h /\ b_used p x) /\ (x <> h -> b_used p x -> poolmsize (poolfree p h) x = poolmsize p x);
}.

Section Inv.
Context {P : Type} {BP : Blocks P} {BO : BlocksOk P}.
Abbreviation sst := (@sst P).
Abbreviation S := (ST sst).

(** ** Runs that may fail *)

Definition meets {A} (c : S A) (s : sst) (Q : A -> sst -> Prop) (E : string -> sst -> Prop) : Prop :=
  match c s with Ok a s' => Q a s' | Err e s' => E e s' | Fault => False end.
Lemma meets_bind {A B} (c : S A) (k : A -> S B) s Q E : meets c s (fun a s' => meets (k a) s' Q E) E -> meets (c ≫= k) s Q E.
Proof. unfold meets, mbind, ST_bind. by destruct (c s). Qed.
Lemma meets_bind_inv {A B} (c : S A) (k : A -> S B) s Q E : meets (c ≫= k) s Q E -> meets c s (fun a s' => meets (k a) s' Q E) E.
Proof. unfold meets, mbind, ST_bind. by destruct (c s). Qed.
Lemma meets_ret {A} (a : A) s (Q : A -> sst -> Prop) E : Q a s -> meets (mret a) s Q E.
Proof. done. Qed.
Lemma meets_mono {A} (c : S A) s (Q Q' : A -> sst -> Prop) (E E' : string -> sst -> Prop) :
  (forall a s', Q a s' -> Q' a s') -> (forall e s', E e s' -> E' e s') -> meets c s Q E -> meets c s Q' E'.
Proof. intros HQ HE. unfold meets. destruct (c s); auto. Qed.
Lemma meets_gets {A B} (f : sst -> A) (k : A -> S B) s Q E : meets (k (f s)) s Q E -> meets (gets f ≫= k) s Q E.
Proof. done. Qed.
Lemma meets_modify {B} (f : sst -> sst) (k : unit -> S B) s Q E : meets (k tt) (f s) Q E -> meets (modify f ≫= k) s Q E.
Proof. done. Qed.
Lemma meets_option {A B} (o : option A) (k : A -> S B) a s Q E : o = Some a -> meets (k a) s Q E -> meets (of_option o ≫= k) s Q E.
Proof. by intros ->. Qed.
Lemma meets_slot {B} a (k : Z -> S B) p s Q E : slots s !! a = Some p -> meets (k p) s Q E -> meets (slot a ≫= k) s Q E.
Proof. intros Hp Hk. unfold meets, mbind, ST_bind, slot. by rewrite Hp. Qed.
Lemma meets_str {B} p (k : Str -> S B) st s Q E : store s !! p = Some st -> meets (k st) s Q E -> meets (str_at p ≫= k) s Q E.
Proof. intros Hp Hk. unfold meets, mbind, ST_bind, str_at. by rewrite Hp. Qed.

(** [s] with the string [st] at [p]. *)
Definition put (p : Z) (st : Str) (s : sst) : sst := with_store (<[p := st]>) s.
Lemma put_put p st st' s : put p st' (put p st s) = put p st' s.
Proof. unfold put, with_store. cbn. by rewrite insert_insert_eq. Qed.
Lemma store_put p st s : store (put p st s) !! p = Some st.
Proof. apply lookup_insert_eq. Qed.
Lemma store_put_ne p q st s : p <> q -> store (put p st s) !! q = store s !! q.
Proof. intros Hn. by apply lookup_insert_ne. Qed.
Lemma meets_write {B} p off cs d (k : unit -> S B) st s Q E : store s !! p = Some st -> splice (s_data st) off cs = Some d ->
  meets (k tt) (put p (with_data d st) s) Q E -> meets (write p off cs ≫= k) s Q E.
Proof. intros Hp Hd Hk. apply meets_bind. unfold write. apply (meets_str _ _ st); [done|]. by apply (meets_option _ _ d). Qed.
Lemma meets_memmove {B} p off q qoff n cs d (k : unit -> S B) st sq s Q E : store s !! q = Some sq -> cells (s_data sq) qoff n = Some cs ->
  store s !! p = Some st -> splice (s_data st) off cs = Some d -> meets (k tt) (put p (with_data d st) s) Q E -> meets (memmove p off q qoff n ≫= k) s Q E.
Proof.
  intros Hq Hc Hp Hd Hk. apply meets_bind. unfold memmove. apply (meets_str _ _ sq); [done|]. apply (meets_option _ _ cs); [done|].
  unfold write. apply (meets_str _ _ st); [done|]. by apply (meets_option _ _ d).
Qed.
Lemma meets_change {B} p f (k : unit -> S B) st s Q E : store s !! p = Some st -> meets (k tt) (put p (f st) s) Q E -> meets (change p f ≫= k) s Q E.
Proof. intros Hp Hk. apply meets_bind. unfold change. by apply (meets_str _ _ st). Qed.

(** ** The invariant *)

(** The slots that point to [p]. *)
Definition count (p : Z) (m : gmap Z Z) : nat := size (filter (fun aq => aq.2 = p) m).
Record str_in (s : sst) (p : Z) (st : Str) : Prop := {
  in_used : b_used (hp s) (D2H p);
  in_size : Z.of_nat (length (s_data st)) = poolmsize (hp s) (D2H p) - 56;
  in_refs : Z.of_nat (count p (slots s)) <= s_ref st;
  in_ref : 1 <= s_ref st;
}.
Record sinv (s : sst) : Prop := {
  si_pool : b_ok (hp s);
  si_str : forall p st, store s !! p = Some st -> str_in s p st;
  si_repr : forall p st, store s !! p = Some st -> exists xs, repr st xs;
  si_slot : forall a p, slots s !! a = Some p -> p = H \/ is_Some (store s !! p);
}.
Lemma str_not_H s p st : sinv s -> store s !! p = Some st -> p <> H.
Proof.
  intros I Hp. destruct (used_bound (hp s) (D2H p) (si_pool _ I) (in_used _ _ _ (si_str _ I p st Hp))) as [_ Hn].
  intros ->. apply Hn. unfold H2D, D2H. lia.
Qed.
Lemma no_H s : sinv s -> store s !! H = None.
Proof. intros I. destruct (store s !! H) eqn:E; [|done]. by destruct (str_not_H s H _ I E). Qed.
Lemma str_bound s p st : sinv s -> store s !! p = Some st -> Z.of_nat (length (s_data st)) < 2 ^ 28 - 56.
Proof.
  intros I Hp. pose proof (si_str _ I p st Hp) as [Hu Hs _ _]. destruct (used_bound (hp s) (D2H p) (si_pool _ I) Hu) as [Hb _]. lia.
Qed.

(** *** Counting *)

Lemma count_insert p a v m : m !! a = None -> count p (<[a:=v]> m) = (count p m + (if decide (v = p) then 1 else 0))%nat.
Proof.
  intros Ha. unfold count. rewrite map_filter_insert. cbn. case_decide as E.
  - rewrite map_size_insert_None; [lia|]. apply map_lookup_filter_None. by left.
  - rewrite delete_id by done. lia.
Qed.
Lemma count_set p a q v m : m !! a = Some q ->
  (count p (<[a:=v]> m) + (if decide (q = p) then 1 else 0) = count p m + (if decide (v = p) then 1 else 0))%nat.
Proof.
  intros Ha. assert (Hd : delete a m !! a = None) by apply lookup_delete_eq. pose proof (count_insert p a v _ Hd) as E1. pose proof (count_insert p a q _ Hd) as E2.
  rewrite insert_delete_eq in E1. rewrite insert_delete_id in E2 by done. lia.
Qed.
Lemma count_one p a m : m !! a = Some p -> (1 <= count p m)%nat.
Proof.
  intros Ha. pose proof (count_insert p a p (delete a m) (lookup_delete_eq _ _)) as E. rewrite insert_delete_id, decide_True in E by done. lia.
Qed.
Lemma count_two p a b m : a <> b -> m !! a = Some p -> m !! b = Some p -> (2 <= count p m)%nat.
Proof.
  intros Hab Ha Hb. pose proof (count_insert p a p (delete a m) (lookup_delete_eq _ _)) as E. rewrite insert_delete_id, decide_True in E by done.
  assert (Hb' : delete a m !! b = Some p) by by rewrite lookup_delete_ne. pose proof (count_one p b _ Hb'). lia.
Qed.
Lemma count_none p m : (forall a, m !! a <> Some p) -> count p m = 0%nat.
Proof. intros Hn. unfold count. apply map_size_empty_iff, map_empty_filter_2. intros a q Hq E. cbn in E. subst. by apply (Hn a). Qed.

(** *** What the slots hold *)

Definition holds (s : sst) (p : Z) (xs : list Z) : Prop := p = H /\ xs = [] \/ exists st, store s !! p = Some st /\ repr st xs.
(** The strings of the slots as values. *)
Definition abs (s : sst) (A : gmap Z (list Z)) : Prop :=
  forall a, match slots s !! a, A !! a with Some p, Some xs => holds s p xs | None, None => True | _, _ => False end.
Definition same (s s' : sst) : Prop := store s' = store s /\ slots s' = slots s.
Lemma same_refl s : same s s.
Proof. done. Qed.
Lemma abs_same s s' A : same s s' -> abs s A -> abs s' A.
Proof. intros [E1 E2] HA a. specialize (HA a). rewrite E2. unfold holds. by rewrite E1. Qed.
Lemma abs_slot s A a p : abs s A -> slots s !! a = Some p -> exists xs, A !! a = Some xs /\ holds s p xs.
Proof. intros HA Hp. specialize (HA a). rewrite Hp in HA. destruct (A !! a) as [xs|]; [by exists xs|done]. Qed.
Lemma abs_value s A a xs : abs s A -> A !! a = Some xs -> exists p, slots s !! a = Some p /\ holds s p xs.
Proof. intros HA Hp. specialize (HA a). rewrite Hp in HA. destruct (slots s !! a) as [p|]; [by exists p|done]. Qed.
Lemma sinv_same s hp' : sinv s -> b_ok hp' -> (forall x, b_used (hp s) x -> b_used hp' x /\ poolmsize hp' x = poolmsize (hp s) x) -> sinv (with_hp (fun _ => hp') s).
Proof.
  intros [I1 I2 I3 I4] Hok Hu. split; [done| |done|done]. intros p st Hp. destruct (I2 p st Hp) as [J1 J2 J3 J4].
  destruct (Hu _ J1) as [K1 K2]. split; [done|cbn; by rewrite K2|done|done].
Qed.

(** *** A new string *)

(** A block for a string of [n] bytes at [p]. *)
Record room (p n : Z) (s : sst) : Prop := {
  ro_new : store s !! p = None;
  ro_ptr : p <> H;
  ro_used : b_used (hp s) (D2H p);
  ro_size : n = poolmsize (hp s) (D2H p) - 56;
  ro_slots : forall a, slots s !! a <> Some p;
}.
Lemma seal s p n st xs : sinv s -> room p n s -> s_ref st = 1 -> Z.of_nat (length (s_data st)) = n -> repr st xs -> sinv (put p st s).
Proof.
  intros [I1 I2 I3 I4] [R1 R2 R3 R4 R5] Hr Hn Hx. assert (Hne : forall q st', store s !! q = Some st' -> p <> q) by congruence. split; [done| | |].
  - intros q st'. destruct (decide (p = q)) as [<-|Hq].
    + rewrite store_put. intros [= <-]. split; [done|cbn; lia| |lia]. cbn. rewrite (count_none p) by done. lia.
    + rewrite store_put_ne by done. intros Hs. destruct (I2 q st' Hs) as [J1 J2 J3 J4]. by split.
  - intros q st'. destruct (decide (p = q)) as [<-|Hq]; [rewrite store_put; intros [= <-]; by exists xs|rewrite store_put_ne by done; apply I3].
  - intros a q Hq. destruct (I4 a q Hq) as [?|Hs]; [by left|right]. cbn. apply lookup_insert_is_Some. destruct (decide (p = q)); [by left|by right].
Qed.
Lemma holds_put s p st q xs : store s !! p = None -> holds s q xs -> holds (put p st s) q xs.
Proof.
  intros Hp [?|(st' & Hs & Hx)]; [by left|right]. exists st'. split; [|done]. rewrite store_put_ne; [done|]. intros ->. congruence.
Qed.
Lemma abs_put s p st A : store s !! p = None -> abs s A -> abs (put p st s) A.
Proof.
  intros Hp HA a. specialize (HA a). cbn. destruct (slots s !! a), (A !! a); [|done..]. by apply holds_put.
Qed.

Definition failed (s : sst) (E : string -> sst -> Prop) : Prop := forall s1, sinv s1 -> same s s1 -> E exHeap s1.
Lemma meets_nheap {B} n (k : Z -> S B) s Q E : sinv s -> 0 <= n < 2 ^ 32 - 64 ->
  (forall h s1, sinv s1 -> same s s1 -> room (H2D h) (poolmsize (hp s1) h - 56) s1 -> sizeof_Heap + n <= poolmsize (hp s1) h < 2 ^ 28 -> meets (k h) s1 Q E) ->
  failed s E -> meets (nheap n ≫= k) s Q E.
Proof.
  intros I Hn Hk He. apply meets_bind. unfold nheap. set (sz := u64 (sizeof_Heap + s32 n)). apply meets_gets, meets_modify.
  assert (Hsz : 0 <= sz) by (unfold sz; int_lia). pose proof (alloc_ok sz (hp s) (si_pool _ I) Hsz) as Ha.
  destruct (poolalloc sz (hp s)) as [r p'] eqn:Er. destruct Ha as (Hok & Hm & Hr). cbn [fst snd]. set (s1 := with_hp (fun _ => p') s).
  assert (I1 : sinv s1). { apply sinv_same; [done|done|]. intros x Hx. split; [|by apply Hm]. destruct r; [apply (proj2 (proj2 Hr)); by right|by apply Hr]. }
  destruct r as [h|]; [|by apply He]. apply meets_ret. destruct Hr as (Hle & Hnew & Hu). assert (Huh : b_used p' h) by (apply Hu; by left).
  destruct (used_bound p' h Hok Huh) as [Hb Hp]. assert (E1 : D2H (H2D h) = h) by (unfold D2H, H2D; lia). assert (Hfresh : store s !! H2D h = None).
  { destruct (store s !! H2D h) as [st|] eqn:Es; [|done]. destruct (si_str _ I _ _ Es) as [J _ _ _]. by rewrite E1 in J. }
  apply Hk; [done|done| |].
  - split; [done|done|by rewrite E1|by rewrite E1|]. intros a Ha. destruct (si_slot _ I a _ Ha) as [?|[st Hs]]; [done|]. congruence.
  - cbn. split; [|done]. revert Hle. unfold sz, sizeof_Heap. clear - Hn Hb. intros. int_lia.
Qed.
Lemma meets_newstring {B} nb (k : Z -> S B) s Q E : sinv s -> 0 <= nb < 2 ^ 31 ->
  (forall p max s1, sinv s1 -> same s s1 -> room p (max + STRUCTALIGN) s1 -> nb <= max < 2 ^ 28 ->
    meets (k p) (put p (mkStr 1 nb max (replicate (Z.to_nat (max + STRUCTALIGN)) None)) s1) Q E) ->
  failed s E -> meets (newstring nb ≫= k) s Q E.
Proof.
  intros I Hn Hk He. apply meets_bind. unfold newstring. assert (En : s32 nb = nb) by int_lia. rewrite En. apply meets_nheap; [done|unfold sizeof_String, STRUCTALIGN; lia| |done].
  intros h s1 I1 S1 R1 Hb. unfold hmsize. apply meets_gets. set (ms := poolmsize (hp s1) h) in *. unfold sizeof_Heap, sizeof_String, STRUCTALIGN in *.
  assert (E1 : s32 ms = ms) by int_lia. rewrite E1. assert (E2 : s64 (ms - (24 + 8 + 32)) = ms - 64) by int_lia. rewrite E2.
  unfold set_str. apply meets_modify, meets_ret. specialize (Hk (H2D h) (ms - 64) s1 I1 S1). replace (ms - 64 + 8) with (ms - 56) in Hk by lia.
  unfold blank, put in *. replace (ms - sizeof_Heap - (sizeof_String - STRUCTALIGN)) with (ms - 56) by (unfold sizeof_Heap, sizeof_String, STRUCTALIGN; lia).
  apply Hk; [done|lia].
Qed.
Lemma meets_newrunes {B} nr (k : Z -> S B) s Q E : sinv s -> 1 <= nr < 2 ^ 30 - 32 ->
  (forall p max n s1, sinv s1 -> same s s1 -> room p n s1 -> nr <= max -> 4 * max + STRUCTALIGN <= n < 2 ^ 28 ->
    meets (k p) (put p (mkStr 1 (- nr) max (replicate (Z.to_nat n) None)) s1) Q E) ->
  failed s E -> meets (newrunes nr ≫= k) s Q E.
Proof.
  intros I Hn Hk He. apply meets_bind. unfold newrunes. assert (En : s32 nr = nr) by int_lia. rewrite En. rewrite (proj2 (Z.eqb_neq _ _)), (proj2 (Z.ltb_ge _ _)) by lia.
  apply meets_nheap; [done|unfold sizeof_String, sizeof_Rune, STRUCTALIGN; lia| |done].
  intros h s1 I1 S1 R1 Hb. unfold hmsize. apply meets_gets. set (ms := poolmsize (hp s1) h) in *. unfold sizeof_Heap, sizeof_String, sizeof_Rune, STRUCTALIGN in *.
  assert (E1 : s32 ms = ms) by int_lia. rewrite E1. assert (E2 : u64 (ms - (24 + 8 + 32)) = ms - 64) by int_lia. rewrite E2.
  unfold set_str. apply meets_modify, meets_ret. specialize (Hk (H2D h) ((ms - 64) / 4) (ms - 56) s1 I1 S1 R1).
  unfold blank, put in *. replace (ms - sizeof_Heap - (sizeof_String - STRUCTALIGN)) with (ms - 56) by (unfold sizeof_Heap, sizeof_String, STRUCTALIGN; lia).
  apply Hk; [|split]; Z.div_mod_to_equations; lia.
Qed.

(** ** Changes of the slots *)

Lemma holds_eq s s' p xs : store s' !! p = store s !! p -> holds s p xs -> holds s' p xs.
Proof. intros E [?|(st & Hs & Hx)]; [by left|right]. exists st. by rewrite E. Qed.
(** The old string of [d] goes, and [d] gets another. *)
Section Assign.
Context (s : sst) (d p ns : Z) (zs : list Z) (I : sinv s) (Hd : slots s !! d = Some p) (Hns : holds s ns zs).
Context (Hc : ns <> H -> exists st, store s !! ns = Some st /\ Z.of_nat (count ns (slots s)) + 1 <= s_ref st).
Definition after_slots : gmap Z Z := <[d:=ns]> (slots s).
Lemma assign_count q : (count q after_slots + (if decide (p = q) then 1 else 0) = count q (slots s) + (if decide (ns = q) then 1 else 0))%nat.
Proof. by apply count_set. Qed.

(** A string that stays, its count perhaps less. *)
Definition stays_in (hp' : P) (q : Z) (qs : Str) : Prop :=
  exists q0, store s !! q = Some q0 /\ s_data qs = s_data q0 /\ (forall xs, repr q0 xs -> repr qs xs) /\
    b_used hp' (D2H q) /\ poolmsize hp' (D2H q) = poolmsize (hp s) (D2H q) /\ Z.of_nat (count q after_slots) <= s_ref qs /\ 1 <= s_ref qs.
Lemma assign_state st hp' : b_ok hp' -> (forall q qs, st !! q = Some qs -> stays_in hp' q qs) ->
  (forall a q, after_slots !! a = Some q -> q <> H -> is_Some (store s !! q) -> is_Some (st !! q)) ->
  sinv (mkSst st after_slots hp') /\ forall A, abs s A -> abs (mkSst st after_slots hp') (<[d:=zs]> A).
Proof.
  intros Hok Hst Hkeep. assert (Hh : forall a q xs, after_slots !! a = Some q -> holds s q xs -> holds (mkSst st after_slots hp') q xs).
  { intros a q xs Ha [?|(q0 & Hq & Hx)]; [by left|right]. destruct (Hkeep a q Ha) as [qs Hqs]; [by apply (str_not_H s q q0)|eauto|].
    destruct (Hst q qs Hqs) as (q1 & Hq1 & _ & Hr & _). exists qs. split; [done|]. apply Hr. congruence. }
  split.
  - split; [done| | |].
    + intros q qs Hq. destruct (Hst q qs Hq) as (q0 & Hq0 & Ed & _ & Hu & Hm & Hcr & Hr). destruct (si_str _ I q q0 Hq0) as [_ J _ _]. split; try done. cbn. by rewrite Ed, J, Hm.
    + intros q qs Hq. destruct (Hst q qs Hq) as (q0 & Hq0 & _ & Hr & _). destruct (si_repr _ I q q0 Hq0) as [xs Hx]. exists xs. auto.
    + intros a q Ha. destruct (decide (q = H)) as [?|Hq]; [by left|right]. apply (Hkeep a q Ha Hq). cbn in Ha. unfold after_slots in Ha. apply lookup_insert_Some in Ha as [[<- <-]|[_ Ha]].
      * destruct Hns as [[? _]|(st' & ? & _)]; [done|eauto].
      * by destruct (si_slot _ I a q Ha).
  - intros A HA a. cbn. destruct (decide (d = a)) as [<-|Hn].
    + unfold after_slots. rewrite !lookup_insert_eq. apply (Hh d); [by apply lookup_insert_eq|done].
    + specialize (HA a). unfold after_slots. rewrite !lookup_insert_ne by done. destruct (slots s !! a) as [q|] eqn:Ea, (A !! a); try done.
      apply (Hh a); [by unfold after_slots; rewrite lookup_insert_ne|done].
Qed.
Lemma assign_other q q0 : store s !! q = Some q0 -> p <> q -> stays_in (hp s) q q0.
Proof.
  intros Hq Hn. destruct (si_str _ I q q0 Hq) as [J0 _ J1 J2]. pose proof (assign_count q) as Hcnt. rewrite (decide_False (P := p = q)) in Hcnt by done.
  exists q0. do 5 (split; [done|]). split; [|done]. destruct (decide (ns = q)) as [<-|]; [|lia]. destruct (Hc (str_not_H s _ q0 I Hq)) as (st & Hst & ?). simplify_eq. lia.
Qed.
Lemma meets_assign (Q : unit -> sst -> Prop) E :
  (forall s', sinv s' -> (forall A, abs s A -> abs s' (<[d:=zs]> A)) -> slots s' = after_slots -> (ns <> p -> store s' !! ns = store s !! ns) -> Q tt s') ->
  meets (destroy p;; set_slot d ns) s Q E.
Proof.
  intros HQ. assert (Hfin : forall st hp', (ns <> p -> st !! ns = store s !! ns) -> sinv (mkSst st after_slots hp') /\ (forall A, abs s A -> abs (mkSst st after_slots hp') (<[d:=zs]> A)) -> Q tt (mkSst st after_slots hp')).
  { intros st hp' E0 [K1 K2]. by apply HQ. }
  unfold destroy. destruct (Z.eqb_spec p H) as [Ep|Ep].
  { apply (Hfin (store s) (hp s)); [done|]. apply assign_state; [apply I| |done]. intros q qs Hq. apply assign_other; [done|]. intros <-. by apply (str_not_H s p qs I Hq). }
  destruct (si_slot _ I d p Hd) as [?|[st Hst]]; [done|]. apply meets_bind, (meets_str _ _ st); [done|]. destruct (si_str _ I p st Hst) as [J1 J2 J3 J4].
  assert (Er : ref_less (s_ref st) = s_ref st - 1) by (unfold ref_less; case_match; lia). rewrite Er. pose proof (assign_count p) as Hcp.
  rewrite (decide_True (P := p = p)) in Hcp by done. pose proof (count_one p d _ Hd) as Hc1.
  assert (Hpc : ns = p -> Z.of_nat (count p (slots s)) + 1 <= s_ref st) by (intros ->; destruct (Hc Ep) as (st' & ? & ?); by simplify_eq).
  assert (Hcp' : Z.of_nat (count p after_slots) <= s_ref st - 1) by (case_decide as Ed; [specialize (Hpc Ed)|]; lia). destruct (Z.ltb_spec 0 (s_ref st - 1)) as [Hr|Hr].
  - apply (Hfin (<[p:=with_ref (s_ref st - 1) st]> (store s)) (hp s)); [intros Hn; by rewrite lookup_insert_ne|]. apply assign_state; [apply I| |].
    + intros q qs. rewrite lookup_insert_Some. intros [[<- <-]|[Hn Hq]]; [|by apply assign_other]. exists st. split; [done|]. split; [done|].
      split; [intros xs Hx; destruct Hx; [by eapply repr_ascii|by eapply repr_runes]|]. split; [done|]. split; [done|]. cbn. lia.
    + intros a q _ _ Hs. apply lookup_insert_is_Some. destruct (decide (p = q)); [by left|by right].
  - destruct (free_ok (hp s) (D2H p) (si_pool _ I) J1) as [Hok Hfree]. apply (Hfin (delete p (store s)) (poolfree (hp s) (D2H p))); [intros Hn; by rewrite lookup_delete_ne|]. apply assign_state; [done| |].
    + intros q qs. rewrite lookup_delete_Some. intros [Hn Hq]. destruct (assign_other q qs Hq Hn) as (q0 & K1 & K2 & K3 & K4 & K5 & K6).
      assert (Hd2 : D2H q <> D2H p) by (unfold D2H; lia). destruct (Hfree (D2H q)) as [F1 F2]. exists q0. do 3 (split; [done|]). split; [by apply F1|]. split; [by apply F2|done].
    + intros a q Ha _ Hs. apply lookup_delete_is_Some. split; [|done]. intros <-. assert (Hc0 : count p after_slots = 0%nat) by lia. pose proof (count_one p a after_slots Ha). lia.
Qed.
End Assign.

(** A string with one reference is changed in its place. *)
Lemma sinv_update s p st st' zs : sinv s -> store s !! p = Some st -> s_ref st = 1 -> s_ref st' = 1 ->
  length (s_data st') = length (s_data st) -> repr st' zs -> sinv (put p st' s).
Proof.
  intros I Hst Hr Hr' Hl Hz. destruct (si_str _ I p st Hst) as [J1 J2 J3 J4]. destruct I as [I1 I2 I3 I4]. split; [done| | |].
  - intros q qs. destruct (decide (p = q)) as [<-|Hn]; [|rewrite store_put_ne by done; intros Hq; by destruct (I2 q qs Hq)].
    rewrite store_put. intros [= <-]. split; [done|by rewrite Hl|cbn; lia|lia].
  - intros q qs. destruct (decide (p = q)) as [<-|Hn]; [rewrite store_put; intros [= <-]; eauto|rewrite store_put_ne by done; apply I3].
  - intros a q Ha. destruct (I4 a q Ha) as [?|Hs]; [by left|right]. apply lookup_insert_is_Some. destruct (decide (p = q)); [by left|by right].
Qed.
Lemma abs_mutate s d p st st' zs A : sinv s -> slots s !! d = Some p -> store s !! p = Some st -> s_ref st = 1 -> repr st' zs ->
  abs s A -> abs (put p st' s) (<[d:=zs]> A).
Proof.
  intros I Hd Hst Hr Hz HA a. destruct (si_str _ I p st Hst) as [J1 J2 J3 J4]. specialize (HA a). cbn. destruct (decide (d = a)) as [<-|Hn].
  - rewrite Hd, lookup_insert_eq in *. destruct (A !! d); [|done]. right. exists st'. by rewrite store_put.
  - rewrite lookup_insert_ne by done. destruct (slots s !! a) as [q|] eqn:Ea, (A !! a); try done. apply (holds_eq s); [|done]. apply store_put_ne.
    intros <-. pose proof (count_two p d a (slots s) Hn Hd Ea). lia.
Qed.
Lemma abs_orphan s p st' A : (forall a, slots s !! a <> Some p) -> abs s A -> abs (put p st' s) A.
Proof.
  intros Hn HA a. specialize (HA a). cbn. destruct (slots s !! a) as [q|] eqn:Ea, (A !! a); try done. apply (holds_eq s); [|done]. apply store_put_ne.
  intros <-. by apply (Hn a).
Qed.

(** A string no slot has can be given to one. *)
Lemma uncounted s p xs : sinv s -> holds s p xs -> p <> H -> count p (slots s) = 0%nat -> exists st, store s !! p = Some st /\ Z.of_nat (count p (slots s)) + 1 <= s_ref st.
Proof.
  intros I [[? _]|(st & Hst & _)] Hp Hc; [done|]. exists st. split; [done|]. rewrite Hc. pose proof (in_ref _ _ _ (si_str _ I p st Hst)). lia.
Qed.

End Inv.
