(* ===== verification/StrNew.v ===== *)
(** * New strings

    The routines that make a string of what others hold, as rules: a copy, a string
    of runes from one of bytes, a slice, and splitc, which gives a slot its own. *)

From S2P Require Import Prelude Utf Str StrInv.

Section Inv.
Context {P : Type} {BP : Blocks P} {BO : BlocksOk P}.
Abbreviation sst := (@sst P).
Abbreviation S := (ST sst).

(** ** New strings *)

(** [s1] is [s] with the new string [p], the characters [zs], that no slot has; [w]
    is known of it, or of nil. *)
Record fresh (s s1 : sst) (p : Z) (w : option Str -> Prop) (zs : list Z) : Prop := {
  fh_inv : sinv s1;
  fh_store : forall q st, store s !! q = Some st -> store s1 !! q = Some st;
  fh_slots : slots s1 = slots s;
  fh_new : p = H /\ zs = [] /\ w None \/ exists st, store s1 !! p = Some st /\ repr st zs /\ s_ref st = 1 /\ w (Some st);
  fh_count : p <> H -> count p (slots s1) = 0%nat;
}.
Definition makes (c : S Z) (s : sst) (w : option Str -> Prop) (zs : list Z) : Prop :=
  forall B (k : Z -> S B) Q E, (forall p s1, fresh s s1 p w zs -> meets (k p) s1 Q E) -> failed s E -> meets (c ≫= k) s Q E.
Lemma fresh_mono s s1 p (w w' : option Str -> Prop) zs : (zs = [] -> w None -> w' None) -> (forall st, repr st zs -> w (Some st) -> w' (Some st)) -> fresh s s1 p w zs -> fresh s s1 p w' zs.
Proof.
  intros H1 H2 [F1 F2 F3 F4 F5]. split; [done..| |done]. destruct F4 as [(? & ? & ?)|(st & ? & ? & ? & ?)]; [left; auto|right; exists st; auto].
Qed.
Lemma makes_mono c s (w w' : option Str -> Prop) zs : (zs = [] -> w None -> w' None) -> (forall st, repr st zs -> w (Some st) -> w' (Some st)) -> makes c s w zs -> makes c s w' zs.
Proof. intros H1 H2 Hm B k Q E Hk He. apply Hm; [|done]. intros p s1 F. by apply Hk, (fresh_mono _ _ _ w). Qed.
Lemma fresh_holds s s1 p w zs : fresh s s1 p w zs -> holds s1 p zs.
Proof. intros F. destruct (fh_new _ _ _ _ _ F) as [(? & ? & _)|(st & H1 & H2 & _)]; [by left|right; by exists st]. Qed.
Lemma fresh_counted s s1 p w zs : fresh s s1 p w zs -> p <> H -> exists st, store s1 !! p = Some st /\ Z.of_nat (count p (slots s1)) + 1 <= s_ref st.
Proof.
  intros F Hp. apply (uncounted s1 p zs); [apply F|by apply (fresh_holds s s1 p w)|done|by apply F].
Qed.
Lemma fresh_abs s s1 p w zs A : fresh s s1 p w zs -> abs s A -> abs s1 A.
Proof.
  intros F HA a. specialize (HA a). rewrite (fh_slots _ _ _ _ _ F). destruct (slots s !! a), (A !! a); try done.
  destruct HA as [?|(st & H1 & H2)]; [by left|right]. exists st. split; [|done]. by apply (fh_store _ _ _ _ _ F).
Qed.
Lemma fresh_not_slot s s1 p w zs a : fresh s s1 p w zs -> p <> H -> slots s1 !! a <> Some p.
Proof. intros F Hp Ha. pose proof (count_one p a _ Ha). rewrite (fh_count _ _ _ _ _ F Hp) in *. lia. Qed.
Lemma fresh_nil s (w : option Str -> Prop) : sinv s -> w None -> fresh s s H w [].
Proof. intros I Hw. split; [done|done|done|by left|done]. Qed.
Lemma fresh_put s s1 p n st (w : option Str -> Prop) zs : sinv s1 -> same s s1 -> room p n s1 -> s_ref st = 1 -> Z.of_nat (length (s_data st)) = n -> repr st zs -> w (Some st) -> fresh s (put p st s1) p w zs.
Proof.
  intros I [E1 E2] R Hr Hl Hz Hw. split; [by apply (seal s1 p n st zs)| |done| |].
  - intros q st' Hq. rewrite store_put_ne; [by rewrite E1|]. intros ->. rewrite <- E1, (ro_new _ _ _ R) in Hq. done.
  - right. exists st. by rewrite store_put.
  - intros _. cbn. rewrite E2. apply count_none. rewrite <- E2. apply (ro_slots _ _ _ R).
Qed.
Lemma room_ne p n s s1 q st : same s s1 -> room p n s1 -> store s !! q = Some st -> p <> q /\ store s1 !! q = Some st.
Proof. intros [E1 _] R Hq. rewrite E1. split; [|done]. intros ->. rewrite <- E1, (ro_new _ _ _ R) in Hq. done. Qed.

Lemma splice_blank (n : nat) cs : (length cs <= n)%nat -> splice (replicate n None) 0 cs = Some (cs ++ replicate (n - length cs) None).
Proof. intros Hl. rewrite (splice_at [] (replicate n None)); [by rewrite drop_replicate|done|by rewrite length_replicate]. Qed.
Lemma splice_next (a cs : list (option Z)) off n : off = Z.of_nat (length a) -> (length cs <= n)%nat ->
  splice (a ++ replicate n None) off cs = Some (a ++ cs ++ replicate (n - length cs) None).
Proof. intros E Hl. rewrite splice_at; [by rewrite drop_replicate|done|by rewrite length_replicate]. Qed.

(** *** Copies of parts *)

Definition any_str (o : option Str) : Prop := True.
Definition of_runes (o : option Str) : Prop := match o with None => False | Some st => s_len st < 0 end.
Definition not_nil (o : option Str) : Prop := o <> None.
Lemma makes_ascii s q st l zs rest off n : sinv s -> store s !! q = Some st -> s_data st = (Some <$> l) ++ (Some <$> zs) ++ rest -> Forall is_ascii zs ->
  off = Z.of_nat (length l) -> n = Z.of_nat (length zs) -> makes (ns ← newstring n; memmove ns 0 q off n;; mret ns) s not_nil zs.
Proof.
  intros I Hs Ed Ha -> -> B k Q E Hk He. apply meets_bind. pose proof (str_bound s q st I Hs) as Hb. rewrite Ed, !length_app, !length_fmap in Hb.
  apply meets_newstring; [done|lia| |done]. intros p max s1 I1 S1 R Hmax. destruct (room_ne _ _ _ _ q st S1 R Hs) as [Hpq Hs1].
  unfold STRUCTALIGN in *. eapply (meets_memmove _ _ q _ _ (Some <$> zs)); [by rewrite store_put_ne|rewrite Ed; apply cells_at; by rewrite length_fmap|by apply store_put| |].
  { apply splice_blank. rewrite length_fmap. lia. }
  rewrite put_put. apply meets_ret, Hk. apply (fresh_put _ _ _ (max + 8)); [done|done|done|done| | |done].
  - cbn. rewrite length_app, length_fmap, length_replicate. lia.
  - eapply repr_ascii; cbn; [done|done|lia| |done]. rewrite length_app, length_fmap, length_replicate. unfold STRUCTALIGN. lia.
Qed.
Lemma makes_runes s q st l zs rest off n m : sinv s -> store s !! q = Some st -> s_data st = rcells l ++ rcells zs ++ rest -> Forall is_rune zs -> zs <> [] ->
  off = 4 * Z.of_nat (length l) -> m = Z.of_nat (length zs) -> n = 4 * m -> makes (ns ← newrunes m; memmove ns 0 q off n;; mret ns) s of_runes zs.
Proof.
  intros I Hs Ed Ha Hz -> -> -> B k Q E Hk He. apply meets_bind. pose proof (str_bound s q st I Hs) as Hb. rewrite Ed, !length_app, !length_rcells in Hb.
  assert (Hzs : (1 <= length zs)%nat) by (destruct zs; [done|cbn; lia]).
  apply meets_newrunes; [done|lia| |done]. intros p max m s1 I1 S1 R Hmax Hm. destruct (room_ne _ _ _ _ q st S1 R Hs) as [Hpq Hs1]. unfold STRUCTALIGN in *.
  eapply (meets_memmove _ _ q _ _ (rcells zs)); [by rewrite store_put_ne|rewrite Ed; apply cells_at; rewrite length_rcells; lia|by apply store_put| |].
  { apply splice_blank. rewrite length_rcells. lia. }
  rewrite put_put. apply meets_ret, Hk. apply (fresh_put _ _ _ m); [done|done|done|done| | |cbn; lia].
  - cbn. rewrite length_app, length_rcells, length_replicate. lia.
  - eapply repr_runes; cbn; [lia|done|done|lia| |done]. rewrite length_app, length_rcells, length_replicate. lia.
Qed.

(** A copy is of runes if what it is of is. *)
Definition dup_of (s : sst) (q : Z) (o : option Str) : Prop :=
  match o with
  | None => q = H
  | Some st' => forall st, store s !! q = Some st -> s_len st < 0 -> s_len st' < 0
  end.
Lemma makes_stringdup s q zs : sinv s -> holds s q zs -> makes (stringdup q) s (dup_of s q) zs.
Proof.
  intros I Hq B k Q E Hk He. apply meets_bind. unfold stringdup. destruct (Z.eqb_spec q H) as [Eq|Eq].
  { destruct Hq as [[_ ->]|(st & Hs & _)]; [|by destruct (str_not_H s q st I Hs)]. subst q. by apply meets_ret, Hk, fresh_nil. }
  destruct Hq as [[? _]|(st & Hs & Hz)]; [done|]. apply (meets_str _ _ st); [done|]. destruct Hz as [rest El Ha Hm Hc Ed|rest El Hn Hr Hm Hc Ed].
  - rewrite (proj2 (Z.leb_le 0 _)) by lia. apply meets_bind_inv. assert (Hd : makes (ns ← newstring (s_len st); memmove ns 0 q 0 (s_len st);; mret ns) s (dup_of s q) zs).
    { apply (makes_mono _ _ not_nil); [done| |by apply (makes_ascii s q st [] zs rest)]. intros st' _ _ st0 Hs0 Hl. simplify_eq. lia. }
    by apply Hd.
  - assert (Hzs : (1 <= length zs)%nat) by (destruct zs; [done|cbn; lia]). rewrite (proj2 (Z.leb_gt 0 _)) by lia. apply meets_bind_inv.
    assert (Hd : makes (ns ← newrunes (- s_len st); memmove ns 0 q 0 (- s_len st * sizeof_Rune);; mret ns) s (dup_of s q) zs).
    { apply (makes_mono _ _ of_runes); [done|intros st' _ Hl st0 _ _; exact Hl|]. apply (makes_runes s q st [] zs rest); try done; unfold sizeof_Rune; lia. }
    by apply Hd.
Qed.

Lemma put_id p st (s : sst) : store s !! p = Some st -> put p st s = s.
Proof. intros Hs. unfold put, with_store. destruct s. cbn in *. by rewrite insert_id. Qed.
Lemma with_data_id st : with_data (s_data st) st = st.
Proof. by destruct st. Qed.
Lemma meets_cvtup_loop {B} xs ys p q i j st sq a r rest (k : unit -> S B) s Q E :
  p <> q -> store s !! p = Some st -> store s !! q = Some sq -> s_data st = a ++ r -> Z.of_nat (length a) = 4 * i ->
  s_data sq = (Some <$> (ys ++ xs)) ++ rest -> j = Z.of_nat (length ys) -> (4 * length xs <= length r)%nat ->
  meets (k tt) (put p (with_data (a ++ rcells xs ++ list.drop (4 * length xs) r) st) s) Q E ->
  meets (cvtup_loop (length xs) p i q j ≫= k) s Q E.
Proof.
  intros Hpq. revert ys i j st a r s. induction xs as [|x xs IH]; intros ys i j st a r s Hp Hq Ed Ea Eq Ej Hl Hk.
  - cbn [length cvtup_loop]. apply meets_bind, meets_ret. replace (a ++ rcells [] ++ list.drop (4 * length (@nil Z)) r) with (s_data st) in Hk by (rewrite Ed; reflexivity).
    rewrite with_data_id in Hk. by rewrite (put_id _ _ _ Hp) in Hk.
  - cbn [length cvtup_loop]. apply meets_bind, (meets_str _ _ sq); [done|]. apply (meets_option _ _ x).
    { rewrite Eq. apply byte_at_list; [|lia]. rewrite Ej, Nat2Z.id. rewrite list.lookup_app_r by lia. by rewrite Nat.sub_diag. }
    unfold set_rune. cbn [length] in Hl. eapply meets_write; [done| |].
    { rewrite Ed. apply splice_at; [unfold sizeof_Rune; lia|]. rewrite length_rune_cells. lia. }
    apply meets_bind_inv. apply (IH (ys ++ [x]) (i + 1) (j + 1) (with_data (a ++ rune_cells x ++ list.drop (length (rune_cells x)) r) st) (a ++ rune_cells x) (list.drop 4 r)).
    + apply store_put.
    + by rewrite store_put_ne.
    + cbn. by rewrite <- app_assoc.
    + rewrite length_app, length_rune_cells. lia.
    + rewrite Eq. by rewrite <- app_assoc.
    + rewrite length_app. cbn. lia.
    + rewrite length_drop. lia.
    + rewrite put_put. rewrite rcells_cons, <- !app_assoc, drop_drop in *. cbn [with_data s_ref s_len s_max].
      replace (4 + 4 * length xs)%nat with (4 * Datatypes.S (length xs))%nat by lia. exact Hk.
Qed.
Lemma meets_cvtup {B} xs p q i st sq a r rest (k : unit -> S B) s Q E :
  p <> q -> store s !! p = Some st -> store s !! q = Some sq -> s_data st = a ++ r -> Z.of_nat (length a) = 4 * i ->
  s_data sq = (Some <$> xs) ++ rest -> s_len sq = Z.of_nat (length xs) -> (4 * length xs <= length r)%nat ->
  meets (k tt) (put p (with_data (a ++ rcells xs ++ list.drop (4 * length xs) r) st) s) Q E ->
  meets (cvtup p i q ≫= k) s Q E.
Proof.
  intros Hpq Hp Hq Ed Ea Eq El Hl Hk. apply meets_bind. unfold cvtup. apply (meets_str _ _ sq); [done|]. rewrite El, Nat2Z.id.
  by apply meets_bind_inv, (meets_cvtup_loop xs [] p q i 0 st sq a r rest).
Qed.

(** A string of runes from one of bytes, and the parts of a string. *)
Lemma makes_expanded s q sq zs rest : sinv s -> store s !! q = Some sq -> s_data sq = (Some <$> zs) ++ rest -> s_len sq = Z.of_nat (length zs) -> zs <> [] ->
  Forall is_ascii zs -> makes (ns ← newrunes (s_len sq); cvtup ns 0 q;; mret ns) s of_runes zs.
Proof.
  intros I Hs Ed El Hz Ha B k Q E Hk He. apply meets_bind. pose proof (str_bound s q sq I Hs) as Hb. rewrite Ed, length_app, length_fmap in Hb.
  assert (Hzs : (1 <= length zs)%nat) by (destruct zs; [done|cbn; lia]).
  apply meets_newrunes; [done|lia| |done]. intros p max n s1 I1 S1 R Hmax Hn. destruct (room_ne _ _ _ _ q sq S1 R Hs) as [Hpq Hs1]. unfold STRUCTALIGN in *.
  eapply (meets_cvtup zs _ _ 0 _ sq [] (replicate (Z.to_nat n) None)); [done|by apply store_put|by rewrite store_put_ne|done|done|done|done|rewrite length_replicate; lia|].
  rewrite put_put. apply meets_ret, Hk. apply (fresh_put _ _ _ n); [done|done|done|done| | |cbn; lia].
  - cbn. rewrite length_app, length_rcells, length_drop, length_replicate. lia.
  - eapply repr_runes; cbn; [lia|done| |lia| |done]; [exact (Forall_impl _ ascii_rune Ha)|].
    rewrite length_app, length_rcells, length_drop, length_replicate. lia.
Qed.

(** ** Splitting off, slicing *)

Lemma meets_assoc {A B C} (c : S A) (k : A -> S B) (l : B -> S C) s Q E : meets (c ≫= fun a => k a ≫= l) s Q E -> meets ((c ≫= k) ≫= l) s Q E.
Proof. unfold meets, mbind, ST_bind. by destruct (c s). Qed.
Lemma meets_group {A B C} (c : S A) (d : S B) (l : S C) s Q E : meets ((c;; d);; l) s Q E -> meets (c;; d;; l) s Q E.
Proof. unfold meets, mbind, ST_bind. by destruct (c s). Qed.
Lemma holds_repr s p st xs : sinv s -> store s !! p = Some st -> holds s p xs -> repr st xs.
Proof. intros I Hp [[-> _]|(st' & Hs & Hx)]; [by destruct (str_not_H s H st I Hp)|]. by simplify_eq. Qed.
Lemma repr_nil_len st : repr st [] -> s_len st = 0.
Proof. by intros [rest El|rest El]. Qed.
Lemma repr_runes_nonempty st xs : repr st xs -> s_len st < 0 -> xs <> [].
Proof. by intros [rest El|rest El Hn] Hl; [lia|]. Qed.

(** After splitc the string of [d] is its own, and one of runes if it is to be. *)
Lemma meets_splitc {B} s d p st xs (expand : bool) (k : Z -> S B) Q E :
  sinv s -> slots s !! d = Some p -> p <> H -> store s !! p = Some st -> repr st xs ->
  (forall s1 ns st', sinv s1 -> (forall A, abs s A -> abs s1 (<[d:=xs]> A)) -> slots s1 !! d = Some ns -> ns <> H ->
     store s1 !! ns = Some st' -> s_ref st' = 1 -> repr st' xs -> (expand -> xs <> [] -> s_len st' < 0) -> meets (k ns) s1 Q E) ->
  failed s E -> meets (splitc d expand ≫= k) s Q E.
Proof.
  intros I Hd Hp Hst Hx Hk He. apply meets_bind. unfold splitc. apply (meets_slot _ _ p); [done|]. apply (meets_str _ _ st); [done|].
  set (w := fun o => match o with None => False | Some st' => expand -> xs <> [] -> s_len st' < 0 end).
  assert (Hm : makes (if expand && (0 <? s_len st) then ns ← newrunes (s_len st); cvtup ns 0 p;; mret ns else stringdup p) s w xs).
  { destruct (expand && (0 <? s_len st)) eqn:Ee.
    - apply andb_prop in Ee as [_ Ee]. destruct Hx as [rest El Ha Hm Hc Ed|rest El]; [|lia].
      apply (makes_mono _ _ of_runes); [done|intros st' _ Hl _ _; exact Hl|]. apply (makes_expanded s p st xs rest); [done..|intros ->; cbn in El; lia|done].
    - apply (makes_mono _ _ (dup_of s p)); [done| |apply makes_stringdup; [done|right; by exists st]].
      intros st' _ Hl He' Hn. apply (Hl st Hst). destruct expand; [|done]. cbn in Ee. destruct Hx as [rest El|rest El]; destruct xs; try done; cbn in El; lia. }
  apply Hm; [|exact He]. intros ns s1 F. pose proof (fh_inv _ _ _ _ _ F) as I1.
  destruct (fh_new _ _ _ _ _ F) as [(_ & _ & [])|(st' & Hs' & Hx' & Hr' & Hw)].
  apply meets_group, meets_bind, (meets_assign s1 d p ns xs I1); [by rewrite (fh_slots _ _ _ _ _ F)|by apply (fresh_holds s s1 ns w)|by apply (fresh_counted s s1 ns w xs)|].
  intros s2 I2 A2 E1 E2. apply meets_ret. assert (Hnp : ns <> p) by (intros ->; apply (fresh_not_slot s s1 p w xs d F Hp); by rewrite (fh_slots _ _ _ _ _ F)).
  apply (Hk s2 ns st'); [done| | | |by rewrite E2|done|done|done].
  - intros A HA. apply A2. by apply (fresh_abs s s1 ns w xs).
  - rewrite E1. apply lookup_insert_eq.
  - by apply (str_not_H s1 ns st').
Qed.

Lemma slice_split {A} (xs : list A) a b : (a <= b <= length xs)%nat ->
  exists l r, xs = l ++ list.take (b - a) (list.drop a xs) ++ r /\ length l = a /\ length (list.take (b - a) (list.drop a xs)) = (b - a)%nat.
Proof.
  intros Hab. exists (list.take a xs), (list.drop (b - a) (list.drop a xs)). rewrite take_drop, take_drop. split; [done|]. rewrite !length_take, length_drop. lia.
Qed.
Definition in_slice (start v : Z) (xs : list Z) : Prop := start <= v <= Z.of_nat (length xs).
Definition slice (start v : Z) (xs : list Z) : list Z := list.take (Z.to_nat v - Z.to_nat start) (list.drop (Z.to_nat start) xs).
Lemma slice_empty v xs : slice v v xs = [].
Proof. unfold slice. by rewrite Nat.sub_diag. Qed.

Lemma meets_slicer {B} s q start v xs (k : Z -> S B) Q E : sinv s -> holds s q xs -> 0 <= start < M32 -> 0 <= v < M32 ->
  (in_slice start v xs -> forall p s1, fresh s s1 p any_str (slice start v xs) -> meets (k p) s1 Q E) ->
  (~ in_slice start v xs -> E exBounds s) -> failed s E -> meets (slicer start v q ≫= k) s Q E.
Proof.
  intros I Hq Hs Hv Hk Hb He. apply meets_bind. unfold slicer. assert (E1 : u32 start = start) by int_lia. assert (E2 : u32 v = v) by int_lia. rewrite E1, E2.
  destruct (Z.eqb_spec q H) as [Eq|Eq].
  { destruct Hq as [[_ ->]|(st & Hst & _)]; [|by destruct (str_not_H s q st I Hst)]. destruct (Z.eqb_spec start 0) as [->|?], (Z.eqb_spec v 0) as [->|?]; cbn [andb];
      [apply meets_ret, Hk; [done|by apply fresh_nil]|apply Hb; unfold in_slice; cbn; lia..]. }
  destruct Hq as [[? _]|(st & Hst & Hx)]; [done|]. apply (meets_str _ _ st); [done|]. pose proof (str_bound s q st I Hst) as Hbd. set (n := length xs) in *.
  assert (Hcase : forall (oob : bool) c, (if oob then ~ in_slice start v xs else in_slice start v xs) ->
    (in_slice start v xs -> start <> v -> meets c s (fun a s' => meets (k a) s' Q E) E) ->
    meets (if oob then error exBounds else if u32 (v - start) =? 0 then mret H else c) s (fun a s' => meets (k a) s' Q E) E).
  { intros [] c Hoob Hc; [by apply Hb|]. destruct (Z.eqb_spec (u32 (v - start)) 0) as [E0|E0].
    - assert (v = start) as -> by (unfold in_slice in Hoob; clear - E0 Hoob Hs Hv; int_lia). apply meets_ret, Hk; [done|]. rewrite slice_empty. by apply fresh_nil.
    - apply Hc; [done|]. intros ->. apply E0. by rewrite Z.sub_diag. }
  assert (Hsl : in_slice start v xs -> start <> v -> exists l r, xs = l ++ slice start v xs ++ r /\ start = Z.of_nat (length l) /\
    u32 (v - start) = Z.of_nat (length (slice start v xs)) /\ slice start v xs <> []).
  { intros Hin Hne. unfold in_slice in Hin. destruct (slice_split xs (Z.to_nat start) (Z.to_nat v)) as (l & r & Ex & El & Es); [lia|]. exists l, r.
    fold (slice start v xs) in Ex, Es. split; [exact Ex|]. split; [lia|]. split; [clear - Hin Hne Hs Hv Es; int_lia|]. intros Ez. rewrite Ez in Es. cbn in Es. lia. }
  destruct Hx as [rest El Ha Hm Hc Ed|rest El Hn Hr Hm Hc Ed].
  - rewrite (proj2 (Z.ltb_ge (s_len st) 0)) by lia. apply Hcase.
    { unfold in_slice. destruct (Z.ltb_spec v start), (Z.ltb_spec (s_len st) v); cbn [orb]; lia. }
    intros Hin Hne. destruct (Hsl Hin Hne) as (l & r & Exs & Ell & En & _). apply meets_bind_inv.
    apply (makes_ascii s q st l (slice start v xs) ((Some <$> r) ++ rest)); [done|done| | |done|done| |done].
    + by rewrite Ed, Exs at 1; rewrite !fmap_app, <- !app_assoc.
    + rewrite Exs in Ha. apply Forall_app in Ha as [_ Ha]. by apply Forall_app in Ha as [Ha _].
    + intros p s1 F. apply Hk; [done|]. by apply (fresh_mono _ _ _ not_nil).
  - rewrite (proj2 (Z.ltb_lt (s_len st) 0)) by (destruct xs; [done|cbn in El; lia]). apply Hcase.
    { unfold in_slice. destruct (Z.ltb_spec v start), (Z.ltb_spec (- s_len st) v); cbn [orb]; lia. }
    intros Hin Hne. destruct (Hsl Hin Hne) as (l & r & Exs & Ell & En & Hne'). apply meets_bind_inv.
    apply (makes_runes s q st l (slice start v xs) (rcells r ++ rest)); [done|done| | |done|unfold sizeof_Rune; lia|done|unfold sizeof_Rune; lia| |done].
    + by rewrite Ed, Exs at 1; rewrite !rcells_app, <- !app_assoc.
    + rewrite Exs in Hr. apply Forall_app in Hr as [_ Hr]. by apply Forall_app in Hr as [Hr _].
    + intros p s1 F. apply Hk; [done|]. by apply (fresh_mono _ _ _ of_runes).
Qed.

End Inv.
