(* ===== verification/StrText.v ===== *)
(** * Strings as text

    Comparison is the order of the characters, and the conversions between strings
    and UTF-8 undo each other. *)

From S2P Require Import Prelude Utf Str StrInv StrNew.

(** ** Comparison *)

(** The order of characters one by one, a beginning first. *)
Fixpoint lex (xs ys : list Z) : Z :=
  match xs, ys with
  | [], [] => 0
  | [], _ => -1
  | _, [] => 1
  | x :: xs, y :: ys => if x =? y then lex xs ys else if x <? y then -1 else 1
  end.
Lemma lex_refl xs : lex xs xs = 0.
Proof. induction xs as [|x xs IH]; [done|]. cbn. by rewrite Z.eqb_refl. Qed.
Lemma lex_zero xs ys : lex xs ys = 0 -> xs = ys.
Proof.
  revert ys. induction xs as [|x xs IH]; intros [|y ys]; cbn; [done..|]. destruct (Z.eqb_spec x y) as [->|]; [|by case_match]. intros E. f_equal. by apply IH.
Qed.

(** What the loop finds among as many characters as both have. *)
Lemma cmp_loop_lex xs ys i f g n : n = Nat.min (length xs) (length ys) ->
  (forall k x, xs !! k = Some x -> f (i + Z.of_nat k) = Some x) -> (forall k y, ys !! k = Some y -> g (i + Z.of_nat k) = Some y) ->
  exists r, cmp_loop n i f g = Some r /\
    match r with
    | Some (c1, c2) => lex xs ys = if c1 <? c2 then -1 else 1
    | None => lex xs ys = Z.sgn (Z.of_nat (length xs) - Z.of_nat (length ys))
    end.
Proof.
  revert ys i n. induction xs as [|x xs IH]; intros ys i n -> Hf Hg.
  { exists None. split; [done|]. destruct ys; cbn [lex length]; lia. }
  destruct ys as [|y ys]; [exists None; split; [done|]; cbn [lex length]; lia|]. cbn [length Nat.min cmp_loop].
  pose proof (Hf 0%nat x eq_refl) as Hx. pose proof (Hg 0%nat y eq_refl) as Hy. rewrite Z.add_0_r in Hx, Hy. rewrite Hx, Hy. cbn [mbind option_bind lex].
  destruct (Z.eqb_spec x y) as [->|Hn]; [|by eexists].
  destruct (IH ys (i + 1) _ eq_refl) as (r & -> & Hr).
  - intros k z Hk. rewrite <- (Hf (Datatypes.S k) z Hk). f_equal. lia.
  - intros k z Hk. rewrite <- (Hg (Datatypes.S k) z Hk). f_equal. lia.
  - exists r. split; [done|]. destruct r as [[c1 c2]|]; [done|]. rewrite Hr. f_equal. cbn [length]. lia.
Qed.

(** The characters as the ints they are compared as. *)
Abbreviation ints := (fmap (M := list) s32).
Lemma ints_ascii xs : Forall is_ascii xs -> ints xs = xs.
Proof. induction 1 as [|x xs Hx _ IH]; [done|]. cbn. rewrite IH. f_equal. unfold is_ascii in Hx. int_lia. Qed.
Lemma ints_small xs : Forall is_rune xs -> Forall (fun c => c < 2 ^ 31) xs -> ints xs = xs.
Proof.
  induction 1 as [|x xs Hx _ IH]; intros Hs; [done|]. apply Forall_cons_iff in Hs as [Hs Hxs]. cbn. rewrite (IH Hxs). f_equal. unfold is_rune in Hx. cbn in Hs. int_lia.
Qed.
Lemma ints_inj xs ys : Forall is_rune xs -> Forall is_rune ys -> ints xs = ints ys -> xs = ys.
Proof.
  intros Hx. revert ys. induction Hx as [|x xs Hx _ IH]; intros [|y ys] Hy; [done..|]. apply Forall_cons_iff in Hy as [Hy Hys]. intros [= E1 E2]. f_equal; [|by apply IH].
  unfold is_rune in *. int_lia.
Qed.
Lemma at_ascii st xs rest k x : s_data st = (Some <$> xs) ++ rest -> Forall is_ascii xs -> xs !! k = Some x ->
  byte_at (s_data st) (0 + Z.of_nat k) = Some x /\ ascii_at st (0 + Z.of_nat k) = Some x.
Proof.
  intros Ed Ha Hk. assert (Hb : byte_at (s_data st) (0 + Z.of_nat k) = Some x) by (rewrite Ed; apply byte_at_list; [by rewrite Z.add_0_l, Nat2Z.id|lia]).
  split; [done|]. unfold ascii_at. rewrite Hb. cbn. f_equal. rewrite Forall_lookup in Ha. specialize (Ha k x Hk). unfold is_ascii in Ha. int_lia.
Qed.
Lemma at_rune st xs rest k x : s_data st = rcells xs ++ rest -> Forall is_rune xs -> ints xs !! k = Some x -> int_of_rune (rune_at st (0 + Z.of_nat k)) = Some x.
Proof.
  intros Ed Hr Hk. rewrite list_lookup_fmap in Hk. destruct (xs !! k) as [z|] eqn:Ez; [|done]. injection Hk as <-.
  by rewrite (rune_at_list st xs rest _ z); [|done|done|by rewrite Z.add_0_l, Nat2Z.id|lia].
Qed.
Lemma sgn_1 (b : bool) : Z.sgn (if b then -1 else 1) = if b then -1 else 1.
Proof. by destruct b. Qed.

Lemma stringcmp_at_lex st1 st2 xs ys : repr st1 xs -> repr st2 ys -> Z.of_nat (length xs) < 2 ^ 30 -> Z.of_nat (length ys) < 2 ^ 30 ->
  exists r, stringcmp_at st1 st2 = Some r /\ Z.sgn r = lex (ints xs) (ints ys).
Proof.
  intros Hx Hy Lx Ly. cbn in Lx, Ly. unfold stringcmp_at.
  assert (Hfin : forall n f g, n = Nat.min (length xs) (length ys) ->
    (forall k x, ints xs !! k = Some x -> f (0 + Z.of_nat k) = Some x) -> (forall k y, ints ys !! k = Some y -> g (0 + Z.of_nat k) = Some y) ->
    exists r, (fun r => match r with Some (c1, c2) => if c1 <? c2 then -1 else 1 | None => s32 (Z.of_nat (length xs) - Z.of_nat (length ys)) end) <$> cmp_loop n 0 f g = Some r /\ Z.sgn r = lex (ints xs) (ints ys)).
  { intros n f g -> Hf Hg. destruct (cmp_loop_lex (ints xs) (ints ys) 0 f g (Nat.min (length xs) (length ys))) as (r & -> & Hr); [by rewrite !length_fmap|done|done|]. rewrite !length_fmap in Hr. eexists. split; [done|]. destruct r as [[c1 c2]|]; rewrite Hr; [apply sgn_1|].
    f_equal. int_lia. }
  destruct Hx as [rx El1 Hxa _ _ Ed1|rx El1 Hn1 Hxr _ _ Ed1], Hy as [ry El2 Hya _ _ Ed2|ry El2 Hn2 Hyr _ _ Ed2]; rewrite El1, El2;
    (assert (E1 : s32 (Z.of_nat (length xs)) = Z.of_nat (length xs)) by int_lia); (assert (E2 : s32 (Z.of_nat (length ys)) = Z.of_nat (length ys)) by int_lia);
    (assert (E3 : s32 (- Z.of_nat (length xs)) = - Z.of_nat (length xs)) by int_lia); (assert (E4 : s32 (- Z.of_nat (length ys)) = - Z.of_nat (length ys)) by int_lia);
    try (assert (N1 : (1 <= length xs)%nat) by (destruct xs; [done|cbn; lia])); try (assert (N2 : (1 <= length ys)%nat) by (destruct ys; [done|cbn; lia]));
    rewrite ?E1, ?E2, ?E3, ?E4;
    (assert (P1 : (Z.of_nat (length xs) <? 0) = false) by lia); (assert (P2 : (Z.of_nat (length ys) <? 0) = false) by lia);
    try (assert (P3 : (- Z.of_nat (length xs) <? 0) = true) by lia); try (assert (P4 : (- Z.of_nat (length ys) <? 0) = true) by lia);
    rewrite ?P1, ?P2; try rewrite P3; try rewrite P4; rewrite ?Z.opp_involutive, ?E1, ?E2; set (n := Z.to_nat _); (assert (En : n = Nat.min (length xs) (length ys)) by (unfold n; case_match; lia)).
  - rewrite (ints_ascii xs), (ints_ascii ys) by done. unfold memcmp. destruct (cmp_loop_lex xs ys 0 (byte_at (s_data st1)) (byte_at (s_data st2)) n En) as (r & -> & Hr).
    + intros k x Hk. by apply (at_ascii st1 xs rx).
    + intros k y Hk. by apply (at_ascii st2 ys ry).
    + eexists. split; [reflexivity|]. cbn. destruct r as [[c1 c2]|]; rewrite Hr; [by destruct (c1 <? c2)|]. cbn. f_equal. int_lia.
  - apply Hfin; [done|intros k x Hk; rewrite (ints_ascii xs) in Hk by done; by apply (at_ascii st1 xs rx)|intros k y Hk; by apply (at_rune st2 ys ry)].
  - apply Hfin; [done|intros k x Hk; by apply (at_rune st1 xs rx)|intros k y Hk; rewrite (ints_ascii ys) in Hk by done; by apply (at_ascii st2 ys ry)].
  - apply Hfin; [done|intros k x Hk; by apply (at_rune st1 xs rx)|intros k y Hk; by apply (at_rune st2 ys ry)].
Qed.

Section Inv.
Context {P : Type} {BP : Blocks P} {BO : BlocksOk P}.
Abbreviation sst := (@sst P).
Abbreviation S := (ST sst).

Lemma holds_length s p xs : sinv s -> holds s p xs -> Z.of_nat (length xs) < 2 ^ 30.
Proof.
  intros I [[_ ->]|(st & Hst & Hx)]; [done|]. pose proof (str_bound s p st I Hst) as Hb. destruct Hx as [r L _ M C _|r L _ _ M C _]; unfold STRUCTALIGN in *; lia.
Qed.
Lemma snil_repr : repr snil [].
Proof. by eapply (repr_ascii _ _ (s_data snil)); [|constructor|..]. Qed.
Lemma holds_str s p xs : sinv s -> holds s p xs ->
  exists st, (if p =? H then mret snil else str_at p) s = Ok st s /\ repr st xs.
Proof.
  intros I [[-> ->]|(st & Hst & Hx)]; [exists snil; split; [done|apply snil_repr]|]. exists st. rewrite (proj2 (Z.eqb_neq p H)) by by apply (str_not_H s p st).
  unfold str_at. by rewrite Hst.
Qed.

Lemma holds_runes (s : sst) p xs : holds s p xs -> Forall is_rune xs.
Proof.
  intros [[_ ->]|(st & _ & Hx)]; [constructor|]. destruct Hx as [r _ Ha _ _ _|r _ _ Hr _ _ _]; [|done]. revert Ha. apply Forall_impl. unfold is_ascii, is_rune. intros x Hx. int_lia.
Qed.
Lemma stringcmp_spec s p q xs ys : sinv s -> holds s p xs -> holds s q ys ->
  exists r, stringcmp p q s = Ok r s /\ Z.sgn r = lex (ints xs) (ints ys) /\ (r = 0 <-> xs = ys).
Proof.
  intros I Hp Hq. assert (Hr : exists r, stringcmp p q s = Ok r s /\ Z.sgn r = lex (ints xs) (ints ys)).
  { unfold stringcmp. destruct (Z.eqb_spec p q) as [->|_].
    - exists 0. split; [done|]. assert (xs = ys) as ->; [|by rewrite lex_refl].
      destruct Hp as [[-> ->]|(st & Hst & Hx)]; [|by apply (repr_unique st); [|apply (holds_repr s q)]].
      destruct Hq as [[_ ->]|(st & Hst & _)]; [done|]. by destruct (str_not_H s H st I Hst).
    - destruct (holds_str s p xs I Hp) as (st1 & E1 & X1), (holds_str s q ys I Hq) as (st2 & E2 & X2).
      rewrite (bind_ok _ _ _ _ _ E1), (bind_ok _ _ _ _ _ E2).
      destruct (stringcmp_at_lex st1 st2 xs ys X1 X2) as (r & -> & Hs); [by apply (holds_length s p)|by apply (holds_length s q)|].
      by exists r. }
  destruct Hr as (r & -> & Hs). exists r. split; [done|]. split; [done|]. split.
  - intros ->. apply ints_inj; [by apply (holds_runes s p)|by apply (holds_runes s q)|by apply lex_zero].
  - intros ->. rewrite lex_refl in Hs. lia.
Qed.

(** C17. stringcmp orders two strings, in bytes or runes or nil, as their lists of
    characters: the sign of its result is that of the first difference, a string
    before one it begins, and it is zero only of equal ones; it changes nothing.
    Characters are compared as signed ints, so that one of 2^31 or more, which insc
    can store, comes before the others; where there is none the order is that of the
    characters themselves. *)
Theorem stringcmp_lex s p q xs ys : sinv s -> holds s p xs -> holds s q ys ->
  exists r, stringcmp p q s = Ok r s /\ Z.sgn r = lex (s32 <$> xs) (s32 <$> ys) /\ (r = 0 <-> xs = ys) /\
    (Forall (fun c => c < 2 ^ 31) (xs ++ ys) -> Z.sgn r = lex xs ys).
Proof.
  intros I Hp Hq. destruct (stringcmp_spec s p q xs ys I Hp Hq) as (r & E & Hl & Hz). exists r. do 3 (split; [done|]).
  intros [Hx Hy]%Forall_app. rewrite Hl, !ints_small; [done|by apply (holds_runes s q)|done|by apply (holds_runes s p)|done].
Qed.

(** ** From UTF-8 *)

(** The characters of the bytes [p]: runes while complete, an error rune for a byte
    that begins none. *)
Fixpoint chars (fuel : nat) (p : list Z) : list Z :=
  match p, fuel with
  | c :: _, Datatypes.S fuel =>
      if announced c <=? Z.of_nat (length p) then
        match chartorune p with
        | Some (r, w) => r :: chars fuel (drop (Z.to_nat w) p)
        | None => []
        end
      else []
  | _, _ => []
  end.
Definition chars_of (p : list Z) : list Z := chars (length p) p.
Lemma announced_4 c : 1 <= announced c <= 4.
Proof. unfold announced. repeat case_match; lia. Qed.
Lemma chartorune_some c p : Forall is_byte (c :: p) -> announced c <= Z.of_nat (length (c :: p)) ->
  exists r w, chartorune (c :: p) = Some (r, w) /\ 1 <= w /\ (Z.to_nat w <= length (c :: p))%nat /\ is_rune r.
Proof.
  intros Hp Ha. pose proof Hp as [Hc Hq]%Forall_cons_iff. assert (He : exists r w, chartorune (c :: p) = Some (r, w)).
  { rewrite chartorune_decode by done. destruct (Z.ltb_spec c 128); [by do 2 eexists|]. unfold is_byte, M8 in Hc. cbn [length] in Ha.
    apply decode_announced; [lia|done|lia]. }
  destruct He as (r & w & E). exists r, w. split; [done|]. destruct (chartorune_exact _ _ _ Hp E) as (Hw & Hl & Hr). split; [lia|]. split; [done|].
  unfold is_rune, M32. destruct Hr as [[Hv _]|[-> _]]; [|done]. unfold valid_rune, Runemax in Hv. lia.
Qed.
Lemma Forall_bytes_drop n p : Forall is_byte p -> Forall is_byte (list.drop n p).
Proof. apply Forall_drop. Qed.
Lemma count_chars fuel p : Forall is_byte p -> (length p <= fuel)%nat -> count_runes fuel p = Some (Z.of_nat (length (chars fuel p))).
Proof.
  revert p. induction fuel as [|fuel IH]; intros [|c p] Hp Hl; [done|cbn in Hl; lia|done|]. pose proof Hp as [Hc Hq]%Forall_cons_iff. cbn [count_runes chars].
  unfold Runeself, UTFmax. destruct (Z.ltb_spec c 128) as [Hs|Hs].
  - unfold announced at 1. rewrite (proj2 (Z.ltb_lt c 128)), (proj2 (Z.leb_le _ _)) by (cbn [length]; lia).
    rewrite chartorune_decode, (proj2 (Z.ltb_lt c 128)) by done. change (list.drop (Z.to_nat 1) (c :: p)) with p.
    rewrite (IH p) by (done || (cbn in Hl; lia)). cbn [mbind option_bind length]. f_equal. lia.
  - assert (Hf : (full ← (if 4 <=? Z.of_nat (length (c :: p)) then Some true else fullrune (c :: p) (Z.of_nat (length (c :: p)))); Some full) = Some (announced c <=? Z.of_nat (length (c :: p)))).
    { pose proof (announced_4 c). destruct (Z.leb_spec 4 (Z.of_nat (length (c :: p)))); [cbn [mbind option_bind]; f_equal; symmetry; lia|].
      rewrite fullrune_announced by (cbn [length]; lia). done. }
    destruct (if 4 <=? _ then _ else _) as [full|]; [|done]. cbn [mbind option_bind] in *. apply (inj Some) in Hf as ->.
    destruct (Z.leb_spec (announced c) (Z.of_nat (length (c :: p)))) as [Ha|Ha]; [|done].
    destruct (chartorune_some c p Hp Ha) as (r & w & -> & Hw & Hwl & _). cbn [mbind option_bind].
    rewrite IH; [cbn [mbind option_bind length]; f_equal; lia|by apply Forall_bytes_drop|]. rewrite length_drop. lia.
Qed.
Lemma chars_more fuel fuel' p : Forall is_byte p -> (length p <= fuel)%nat -> (length p <= fuel')%nat -> chars fuel p = chars fuel' p.
Proof.
  revert fuel' p. induction fuel as [|fuel IH]; intros fuel' [|c p] Hp H1 H2; [by destruct fuel'|cbn in H1; lia|by destruct fuel'|].
  destruct fuel' as [|fuel']; [cbn in H2; lia|]. cbn [chars]. case_match eqn:Ea; [|done]. destruct (chartorune_some c p Hp ltac:(lia)) as (r & w & -> & Hw & Hwl & _).
  f_equal. apply IH; [by apply Forall_bytes_drop|rewrite length_drop; lia..].
Qed.
Lemma chars_of_cons c p : Forall is_byte (c :: p) -> announced c <= Z.of_nat (length (c :: p)) ->
  exists r w, chartorune (c :: p) = Some (r, w) /\ is_rune r /\ (1 <= Z.to_nat w)%nat /\ chars_of (c :: p) = r :: chars_of (list.drop (Z.to_nat w) (c :: p)).
Proof.
  intros Hp Ha. destruct (chartorune_some c p Hp Ha) as (r & w & E & Hw & Hl & Hr). exists r, w. split; [done|]. split; [done|]. split; [lia|]. unfold chars_of. cbn [length chars].
  rewrite (proj2 (Z.leb_le _ _)) by (cbn [length] in *; lia). rewrite E. f_equal. apply chars_more; [by apply Forall_bytes_drop|rewrite length_drop..]; cbn [length] in *; lia.
Qed.
Lemma chars_ascii a p : Forall is_ascii a -> Forall is_byte p -> chars_of (a ++ p) = a ++ chars_of p.
Proof.
  intros Ha Hp. induction Ha as [|c a Hc Ha IH]; [done|]. cbn [app]. unfold is_ascii in Hc. assert (Hb : Forall is_byte (c :: a ++ p)).
  { constructor; [unfold is_byte, M8; lia|]. apply Forall_app. split; [|done]. revert Ha. apply Forall_impl. unfold is_ascii, is_byte, M8. lia. }
  assert (Hn : announced c = 1) by (unfold announced; by rewrite (proj2 (Z.ltb_lt c 128)) by lia).
  destruct (chars_of_cons c (a ++ p) Hb ltac:(rewrite Hn; cbn [length]; lia)) as (r & w & E & _ & _ & ->). apply Forall_cons_iff in Hb as [Hb1 Hb2].
  rewrite chartorune_decode, (proj2 (Z.ltb_lt c 128)) in E by (done || lia). injection E as <- <-. change (list.drop (Z.to_nat 1) (c :: a ++ p)) with (a ++ p). by rewrite IH.
Qed.
Lemma ascii_prefix_spec cs : Forall is_byte cs -> let a := ascii_prefix cs in (a <= length cs)%nat /\ Forall is_ascii (list.take a cs).
Proof.
  induction 1 as [|c cs Hc Hcs [IH1 IH2]]; [by split; [|constructor]|]. cbn [ascii_prefix]. unfold Runeself. destruct (Z.leb_spec 128 c); [by split; [cbn; lia|constructor]|].
  split; [cbn; lia|]. cbn. constructor; [|done]. unfold is_byte, is_ascii in *. lia.
Qed.

Lemma chars_cons_inv p x xs : Forall is_byte p -> chars_of p = x :: xs ->
  exists w, chartorune p = Some (x, w) /\ is_rune x /\ chars_of (list.drop (Z.to_nat w) p) = xs.
Proof.
  intros Hp E. destruct p as [|c p]; [done|]. destruct (decide (announced c <= Z.of_nat (length (c :: p)))) as [Ha|Ha].
  - destruct (chars_of_cons c p Hp Ha) as (r & w & E1 & Hr & _ & E2). rewrite E2 in E. injection E as <- <-. by exists w.
  - unfold chars_of in E. cbn [length chars] in E. rewrite (proj2 (Z.leb_gt _ _)) in E by (cbn [length] in *; lia). done.
Qed.
Lemma chars_length p : Forall is_byte p -> (length (chars_of p) <= length p)%nat.
Proof.
  remember (length p) as n eqn:En. revert p En. induction n as [n IH] using lt_wf_ind. intros [|c p] -> Hp; [done|].
  destruct (decide (announced c <= Z.of_nat (length (c :: p)))) as [Ha|Ha].
  - destruct (chars_of_cons c p Hp Ha) as (r & w & _ & _ & Hw & ->).
    pose proof (IH (length (list.drop (Z.to_nat w) (c :: p))) ltac:(rewrite length_drop; cbn [length]; lia) _ eq_refl ltac:(by apply Forall_bytes_drop)) as Hl. revert Hl. rewrite length_drop. cbn [length]. lia.
  - unfold chars_of. cbn [length chars]. rewrite (proj2 (Z.leb_gt _ _)) by (cbn [length] in *; lia). cbn. lia.
Qed.
Lemma chars_runes p : Forall is_byte p -> Forall is_rune (chars_of p).
Proof.
  intros Hp. remember (chars_of p) as xs eqn:E. symmetry in E. revert p Hp E. induction xs as [|x xs IH]; intros p Hp E; [constructor|].
  destruct (chars_cons_inv p x xs Hp E) as (w & _ & Hx & E'). constructor; [done|]. apply (IH (list.drop (Z.to_nat w) p)); [by apply Forall_bytes_drop|done].
Qed.

Lemma meets_decode_runes {B} xs p i cs st a m (k : unit -> S B) (s : sst) Q E :
  Forall is_byte cs -> (exists ys, chars_of cs = xs ++ ys) -> store s !! p = Some st -> s_data st = a ++ replicate m None ->
  Z.of_nat (length a) = 4 * i -> (4 * length xs <= m)%nat ->
  meets (k tt) (put p (with_data (a ++ rcells xs ++ replicate (m - 4 * length xs) None) st) s) Q E -> meets (decode_runes (length xs) p i cs ≫= k) s Q E.
Proof.
  intros Hcs Hxs. revert i cs st a m s Hcs Hxs. induction xs as [|x xs IH]; intros i cs st a m s Hcs [ys Hxs] Hp Ed Ea Hm Hk.
  - cbn [length decode_runes]. apply meets_bind, meets_ret. replace (a ++ rcells [] ++ replicate (m - 4 * length (@nil Z)) None) with (s_data st) in Hk by (rewrite Ed; cbn; by rewrite Nat.sub_0_r).
    rewrite with_data_id in Hk. by rewrite (put_id _ _ _ Hp) in Hk.
  - destruct (chars_cons_inv cs x (xs ++ ys) Hcs Hxs) as (w & Ec & Hx & Er). cbn [length decode_runes] in *. apply meets_bind, (meets_option _ _ (x, w)); [done|].
    unfold set_rune. eapply meets_write; [done|rewrite Ed; apply splice_next; [unfold sizeof_Rune; lia|rewrite length_rune_cells; lia]|].
    apply meets_bind_inv. eapply (IH (i + 1) _ _ (a ++ rune_cells x) (m - 4)%nat).
    + by apply Forall_bytes_drop.
    + by exists ys.
    + apply store_put.
    + cbn. by rewrite <- app_assoc.
    + rewrite length_app, length_rune_cells. lia.
    + lia.
    + rewrite put_put. rewrite rcells_cons, <- !app_assoc in *. cbn [with_data s_ref s_len s_max]. by replace (m - 4 - 4 * length xs)%nat with (m - 4 * Datatypes.S (length xs))%nat by lia.
Qed.

(** c2string makes the string of the characters of the bytes. *)
Lemma makes_c2string cs (s : sst) : sinv s -> Forall is_byte cs -> Z.of_nat (length cs) < 2 ^ 29 -> makes (c2string cs) s not_nil (chars_of cs).
Proof.
  intros I Hcs Hl B k Q E Hk He. apply meets_bind. unfold c2string. destruct (ascii_prefix_spec cs Hcs) as [Ha1 Ha2]. set (a := ascii_prefix cs) in *.
  pose proof (take_drop a cs) as Ecs. assert (Hd : Forall is_byte (list.drop a cs)) by by apply Forall_bytes_drop. pose proof (chars_ascii (list.take a cs) (list.drop a cs) Ha2 Hd) as Ech. rewrite Ecs in Ech.
  case_bool_decide as Hfull.
  - rewrite list.take_ge, list.drop_ge in * by lia. rewrite app_nil_r in Ech. rewrite Ech in Hk.
    apply meets_newstring; [done|lia| |done]. intros p max s1 I1 S1 R Hmax. unfold STRUCTALIGN in *.
    eapply meets_write; [by apply store_put|apply splice_blank; rewrite length_fmap; lia|]. rewrite put_put. apply meets_ret, Hk.
    apply (fresh_put _ _ _ (max + 8)); [done|done|done|done| | |done]; cbn.
    + rewrite length_app, length_fmap, length_replicate. lia.
    + eapply repr_ascii; cbn; [done|done|lia| |done]. rewrite length_app, length_fmap, length_replicate. unfold STRUCTALIGN. lia.
  - eapply meets_option; [apply (count_chars (length cs)); [done|rewrite length_drop; lia]|]. rewrite (chars_more _ (length (list.drop a cs)) _ Hd) by (rewrite length_drop; lia). fold (chars_of (list.drop a cs)).
    assert (En : Z.of_nat a + Z.of_nat (length (chars_of (list.drop a cs))) = Z.of_nat (length (chars_of cs))) by (rewrite Ech, length_app, length_take; lia). rewrite En, Nat2Z.id.
    pose proof (chars_length cs Hcs) as Hcl. pose proof (chars_runes cs Hcs) as Hcr. set (xs := chars_of cs) in *. assert (Hnil : xs = [] \/ xs <> [] /\ (1 <= length xs)%nat) by (destruct xs; [by left|right; split; [done|cbn; lia]]).
    destruct Hnil as [Enil|[Hne Hpos]].
    + rewrite Enil. change (newrunes (Z.of_nat (length []))) with (newstring 0). apply meets_newstring; [done|lia| |done]. intros p max s1 I1 S1 R Hmax.
      cbn [length decode_runes]. apply meets_ret, Hk. unfold STRUCTALIGN in *. apply (fresh_put _ _ _ (max + 8)); [done|done|done|done|cbn; rewrite length_replicate; lia| |done].
      rewrite Enil. eapply repr_ascii; cbn; [done|constructor|lia| |done]. rewrite length_replicate. unfold STRUCTALIGN. lia.
    + apply meets_newrunes; [done|lia| |done]. intros p max n s1 I1 S1 R Hmax Hn. unfold STRUCTALIGN in *.
      eapply (meets_decode_runes xs p 0 cs _ [] (Z.to_nat n)); [done|by exists []; rewrite app_nil_r|apply store_put|done|done|lia|]. rewrite put_put. apply meets_ret, Hk.
      apply (fresh_put _ _ _ n); [done|done|done|done| | |done]; cbn.
      * rewrite length_app, length_rcells, length_replicate. lia.
      * eapply repr_runes; cbn; [lia|done|done|lia| |done]. rewrite length_app, length_rcells, length_replicate. lia.
Qed.

(** ** To UTF-8 and back *)

Definition valid (xs : list Z) : Prop := Forall (fun c => valid_rune c = true) xs.
Lemma enc_valid_bytes rs : valid rs -> Forall is_byte (enc rs).
Proof.
  induction 1 as [|r rs Hv _ IH]; [constructor|]. rewrite enc_cons. apply Forall_app. split; [|done]. apply utf8_bytes. unfold valid_rune in Hv. lia.
Qed.
Lemma utf8_announced r bs : valid_rune r = true -> exists c p, utf8 r ++ bs = c :: p /\ announced c <= Z.of_nat (length (utf8 r ++ bs)).
Proof.
  intros Hv. unfold valid_rune, Runemax in Hv. unfold utf8. repeat case_match; (eexists _, _; split; [reflexivity|]); rewrite length_app; unfold announced; cbn [length];
    repeat case_match; try lia; Z.div_mod_to_equations; lia.
Qed.
Lemma chars_enc rs : valid rs -> chars_of (enc rs) = rs.
Proof.
  induction 1 as [|r rs Hv Hrs IH]; [done|]. rewrite enc_cons. destruct (utf8_announced r (enc rs) Hv) as (c & p & E & Ha).
  assert (Hb : Forall is_byte (utf8 r ++ enc rs)) by (rewrite <- enc_cons; apply enc_valid_bytes; by constructor).
  pose proof (valid_decode r (enc rs) Hv (enc_valid_bytes rs Hrs)) as Hd. rewrite E in *. destruct (chars_of_cons c p Hb Ha) as (r' & w & E1 & _ & _ & ->).
  rewrite Hd in E1. injection E1 as <- <-. rewrite <- E, Nat2Z.id, list.drop_app_length. by rewrite IH.
Qed.
Lemma enc_ascii xs : Forall is_ascii xs -> enc xs = xs.
Proof.
  induction 1 as [|x xs Hx _ IH]; [done|]. rewrite enc_cons, IH. unfold utf8. unfold is_ascii in Hx. by rewrite (proj2 (Z.ltb_lt x 128)) by lia.
Qed.
Lemma enc_length_4 rs : (length (enc rs) <= 4 * length rs)%nat.
Proof. induction rs as [|r rs IH]; [done|]. rewrite enc_cons, length_app. pose proof (utf8_length r). cbn [length]. lia. Qed.
Lemma holds_enc_length s p xs : sinv s -> holds s p xs -> Z.of_nat (length (enc xs)) < 2 ^ 29.
Proof.
  intros I [[_ ->]|(st & Hst & Hx)]; [done|]. pose proof (str_bound s p st I Hst) as Hb. pose proof (enc_length_4 xs) as Hl. destruct Hx as [r L A M C _|r L _ _ M C _]; unfold STRUCTALIGN in *; [|lia].
  rewrite enc_ascii by done. lia.
Qed.
Lemma valid_chars xs : valid xs -> Forall is_rune xs /\ Forall (fun c => c < 2 ^ 31) xs.
Proof. intros Hv. split; revert Hv; apply Forall_impl; intros c Hc; unfold valid_rune, Runemax, is_rune, M32 in *; cbn; lia. Qed.

(** A string may be changed beyond its characters. *)
Lemma sinv_beyond s p st st' : sinv s -> store s !! p = Some st -> s_ref st <= s_ref st' -> length (s_data st') = length (s_data st) -> (forall xs, repr st xs -> repr st' xs) ->
  sinv (put p st' s) /\ (forall q xs, holds s q xs -> holds (put p st' s) q xs) /\ (forall A, abs s A -> abs (put p st' s) A).
Proof.
  intros I Hst Hr Hl Hx. assert (Hh : forall q xs, holds s q xs -> holds (put p st' s) q xs).
  { intros q xs [?|(st0 & Hq & Hq')]; [by left|right]. destruct (decide (p = q)) as [<-|Hn]; [|exists st0; by rewrite store_put_ne]. simplify_eq. exists st'. rewrite store_put. auto. }
  split; [|split; [done|]].
  - destruct (si_str _ I p st Hst) as [J1 J2 J3 J4], (si_repr _ I p st Hst) as [xs Hxs]. destruct I as [I1 I2 I3 I4]. split; [done| | |].
    + intros q qs. destruct (decide (p = q)) as [<-|Hn]; [|rewrite store_put_ne by done; intros Hq; by destruct (I2 q qs Hq)].
      rewrite store_put. intros [= <-]. split; [done|by rewrite Hl|cbn; lia|lia].
    + intros q qs. destruct (decide (p = q)) as [<-|Hn]; [rewrite store_put; intros [= <-]; eauto|rewrite store_put_ne by done; apply I3].
    + intros a q Ha. destruct (I4 a q Ha) as [?|Hs]; [by left|right]. apply lookup_insert_is_Some. destruct (decide (p = q)); [by left|by right].
  - intros A HA a. specialize (HA a). cbn. destruct (slots s !! a), (A !! a); [by apply Hh|done..].
Qed.
Lemma repr_lookup_rune st xs rest i : s_data st = rcells xs ++ rest -> Forall is_rune xs -> Forall (fun c => c < 2 ^ 31) xs -> forall k x, xs !! k = Some x -> i = Z.of_nat k -> int_of_rune (rune_at st i) = Some x.
Proof.
  intros Ed Hr Hs k x Hk ->. rewrite (rune_at_list st xs rest _ x); [|done|done|by rewrite Nat2Z.id|lia]. cbn. f_equal.
  rewrite Forall_lookup in Hr, Hs. specialize (Hr k x Hk). specialize (Hs k x Hk). unfold is_rune in Hr. cbn in Hs. int_lia.
Qed.
Lemma string2c_loop_enc st xs rest : s_data st = rcells xs ++ rest -> valid xs -> forall ys zs, xs = ys ++ zs -> string2c_loop (length zs) st (Z.of_nat (length ys)) = Some (enc zs ++ [0]).
Proof.
  intros Ed Hv. destruct (valid_chars xs Hv) as [Hr Hs]. intros ys zs. revert ys. induction zs as [|z zs IH]; intros ys Exs; [done|]. cbn [length string2c_loop].
  assert (Hz : xs !! length ys = Some z) by (rewrite Exs, list.lookup_app_r by done; by rewrite Nat.sub_diag).
  rewrite (repr_lookup_rune st xs rest _ Ed Hr Hs _ z Hz eq_refl). cbn [mbind option_bind].
  replace (Z.of_nat (length ys) + 1) with (Z.of_nat (length (ys ++ [z]))) by (rewrite length_app; cbn; lia). rewrite (IH (ys ++ [z])) by (by rewrite <- app_assoc).
  cbn [mbind option_bind]. f_equal. rewrite enc_cons, <- app_assoc. f_equal. unfold valid in Hv. rewrite Forall_lookup in Hv, Hr. pose proof (Hv _ _ Hz) as Hvz. specialize (Hr _ _ Hz). cbn in Hvz. unfold is_rune in Hr.
  unfold Runeself. assert (Eu : u32 z = z) by int_lia. destruct (Z.ltb_spec z 128); [|by rewrite Eu, runetochar_utf8, Hvz by lia].
  unfold utf8. rewrite (proj2 (Z.ltb_lt z 128)) by lia. f_equal. int_lia.
Qed.
Lemma mapM_some (xs : list Z) : mapM (fun c => c) (Some <$> xs) = Some xs.
Proof. induction xs as [|x xs IH]; [done|]. cbn. by rewrite IH. Qed.
Lemma meets_string2c p xs (s : sst) (Q : list Z -> sst -> Prop) E : sinv s -> holds s p xs -> valid xs ->
  (forall s', sinv s' -> (forall q ys, holds s q ys -> holds s' q ys) -> (forall A, abs s A -> abs s' A) -> slots s' = slots s -> Q (enc xs ++ [0]) s') -> meets (string2c p) s Q E.
Proof.
  intros I Hp Hv HQ. unfold string2c. destruct (Z.eqb_spec p H) as [->|Hn].
  { destruct Hp as [[_ ->]|(st & Hst & _)]; [by apply meets_ret, HQ|]. by destruct (str_not_H s H st I Hst). }
  destruct Hp as [[? _]|(st & Hst & Hx)]; [done|]. apply (meets_str _ _ st); [done|]. destruct Hx as [rest El Ha Hm Hc Ed|rest El Hne Hr Hm Hc Ed].
  - rewrite (proj2 (Z.leb_le 0 _)) by lia. rewrite El. unfold set_ascii, STRUCTALIGN in *. pose proof (f_equal length Ed) as Hdl. rewrite length_app, length_fmap in Hdl.
    change [Some (u8 0)] with [Some 0]. eapply meets_write; [done|rewrite Ed; apply splice_at; [by rewrite length_fmap|cbn; lia]|]. cbn [length].
    set (st' := with_data _ st). assert (Hst' : store (put p st' s) !! p = Some st') by apply store_put. apply (meets_str _ _ st'); [done|]. rewrite enc_ascii in HQ by done.
    assert (Hl : length (s_data st') = length (s_data st)) by (cbn; rewrite Ed, !length_app; cbn; rewrite length_drop; lia).
    eapply (meets_option _ _ (Some <$> xs ++ [0])); [cbn; rewrite fmap_app; replace ((Some <$> xs) ++ Some 0 :: list.drop 1 rest) with (((Some <$> xs) ++ [Some 0]) ++ list.drop 1 rest) by (by rewrite <- app_assoc); apply cells_front; rewrite length_app, length_fmap; cbn; lia|].
    assert (Hx' : forall ys, repr st ys -> repr st' ys).
    { intros ys Hy. assert (ys = xs) as ->. { apply (repr_unique st); [done|]. by eapply repr_ascii. } eapply repr_ascii; cbn; [done|done|done| |done]. change (s_data st') with (s_data st') in Hl. cbn in Hl. rewrite Hl. exact Hc. }
    destruct (sinv_beyond s p st st' I Hst ltac:(done) Hl Hx') as (I' & Hh & HA). unfold meets. rewrite mapM_some. cbn. by apply HQ.
  - assert (Hpos : (1 <= length xs)%nat) by (destruct xs; [done|cbn; lia]). rewrite (proj2 (Z.leb_gt 0 _)) by lia. rewrite El, Z.opp_involutive, Nat2Z.id. unfold meets.
    pose proof (string2c_loop_enc st xs rest Ed Hv [] xs eq_refl) as Hl. cbn [length] in Hl. change (Z.of_nat 0) with 0 in Hl. rewrite Hl. cbn. by apply HQ.
Qed.

(** For any bytes c2string returns a new string of the characters they encode,
    an error rune for each byte that begins none, up to a sequence that is not
    complete at the end, or fails for want of memory; no byte beyond the array is
    read, none beyond the block of the string written, and no other string changes. *)
Theorem c2string_chars cs (s : sst) : sinv s -> Forall is_byte cs -> Z.of_nat (length cs) < 2 ^ 29 ->
  match c2string cs s with
  | Ok p s' => sinv s' /\ p <> H /\ holds s' p (chars_of cs) /\ count p (slots s') = 0%nat /\ forall A, abs s A -> abs s' A
  | Err e s' => e = exHeap /\ sinv s' /\ forall A, abs s A -> abs s' A
  | Fault => False
  end.
Proof.
  intros I Hcs Hl. pose proof (makes_c2string cs s I Hcs Hl Z mret
    (fun p s' => sinv s' /\ p <> H /\ holds s' p (chars_of cs) /\ count p (slots s') = 0%nat /\ forall A, abs s A -> abs s' A) (fun e s' => e = exHeap /\ sinv s' /\ forall A, abs s A -> abs s' A)) as Hm.
  apply meets_bind_inv in Hm; [unfold meets in Hm; by destruct (c2string cs s)| |].
  - intros p s' F. apply meets_ret. assert (Hp : p <> H).
    { destruct (fh_new _ _ _ _ _ F) as [(_ & _ & Hn)|(st & Hst & _)]; [by destruct Hn|]. by apply (str_not_H s' p st (fh_inv _ _ _ _ _ F)). }
    split; [apply F|]. split; [done|]. split; [by apply (fresh_holds s s' p not_nil)|]. split; [by apply (fh_count _ _ _ _ _ F)|]. intros A. by apply (fresh_abs s s' p not_nil (chars_of cs)).
  - intros s1 I1 S1. split; [done|]. split; [done|]. intros A. by apply abs_same.
Qed.

(** C16. A string of code points as C text is their UTF-8 encoding and a NUL, and
    from these bytes comes a string that compares equal to the first. *)
Theorem string_text_roundtrip p xs (s : sst) : sinv s -> holds s p xs -> valid xs ->
  match (bs ← string2c p; q ← c2string (removelast bs); r ← stringcmp p q; mret (bs, q, r)) s with
  | Ok (bs, q, r) s' => bs = enc xs ++ [0] /\ r = 0 /\ holds s' q xs /\ sinv s' /\ forall A, abs s A -> abs s' A
  | Err e s' => e = exHeap /\ sinv s' /\ forall A, abs s A -> abs s' A
  | Fault => False
  end.
Proof.
  intros I Hp Hv. destruct (valid_chars xs Hv) as [_ Hc].
  cut (meets (bs ← string2c p; q ← c2string (removelast bs); r ← stringcmp p q; mret (bs, q, r)) s
    (fun a s' => a.1.1 = enc xs ++ [0] /\ a.2 = 0 /\ holds s' a.1.2 xs /\ sinv s' /\ forall A, abs s A -> abs s' A) (fun e s' => e = exHeap /\ sinv s' /\ forall A, abs s A -> abs s' A)).
  { unfold meets. by destruct ((string2c p ≫= _) s) as [[[bs q] r] s'|e s'|]. }
  apply meets_bind, (meets_string2c p xs); [done|done|done|]. intros s1 I1 H1 A1 _. rewrite removelast_last.
  apply makes_c2string; [done|by apply enc_valid_bytes|by apply (holds_enc_length s p)| |].
  - intros q s2 F. rewrite chars_enc in F by done. pose proof (fh_inv _ _ _ _ _ F) as I2. pose proof (fresh_holds _ _ _ _ _ F) as Hq.
    assert (Hp2 : holds s2 p xs). { destruct (H1 p xs Hp) as [?|(st & Hst & Hx)]; [by left|right]. exists st. split; [|done]. by apply (fh_store _ _ _ _ _ F). }
    destruct (stringcmp_spec s2 p q xs xs I2 Hp2 Hq) as (r & Er & _ & Hr). unfold meets. rewrite (bind_ok _ _ _ _ _ Er). cbn.
    split; [done|]. split; [by apply Hr|]. split; [done|]. split; [done|]. intros A HA. apply (fresh_abs s1 s2 q not_nil xs A F). by apply A1.
  - intros s2 I2 S2. split; [done|]. split; [done|]. intros A HA. apply (abs_same s1); [done|]. by apply A1.
Qed.

End Inv.
