(* ===== verification/StrOps.v ===== *)
(** * The instructions on strings

    Rules for addc, slicec and insc, and how they do on the strings in their blocks
    what they mean on lists of characters. *)

From S2P Require Import Prelude Utf Str StrInv StrNew StrText.

Section Inv.
Context {P : Type} {BP : Blocks P} {BO : BlocksOk P}.
Abbreviation sst := (@sst P).
Abbreviation S := (ST sst).

(** ** Sums *)

Lemma repr_length st xs : repr st xs -> Z.abs (s_len st) = Z.of_nat (length xs).
Proof. intros [rest El|rest El]; lia. Qed.
Lemma grown_bounds append l : 0 <= l < 2 ^ 29 -> l <= grown append l < 2 ^ 30 - 32.
Proof. intros Hl. unfold grown. destruct append; Z.quot_rem_to_equations; lia. Qed.

(** The characters of [q] after those that the string [p] of runes has. *)
Lemma meets_append_runes s p q st sq xs ys r l (Q : Z -> sst -> Prop) E :
  p <> q -> store s !! p = Some st -> store s !! q = Some sq -> s_data st = rcells xs ++ r -> repr sq ys -> (4 * length ys <= length r)%nat ->
  Q p (put p (mkStr (s_ref st) l (s_max st) (rcells (xs ++ ys) ++ list.drop (4 * length ys) r)) s) ->
  meets (change p (with_len l);; st2 ← str_at q;
      (if s_len st2 <? 0 then memmove p (sizeof_Rune * Z.of_nat (length xs)) q 0 (- s_len st2 * sizeof_Rune) else cvtup p (Z.of_nat (length xs)) q);; mret p) s Q E.
Proof.
  intros Hpq Hp Hq Ed Hy Hl HQ. apply (meets_change _ _ _ st); [done|]. apply (meets_str _ _ sq); [by rewrite store_put_ne|]. unfold sizeof_Rune.
  destruct Hy as [rest El Ha Hm Hc Edq|rest El Hn Hr Hm Hc Edq].
  - rewrite (proj2 (Z.ltb_ge _ 0)) by lia. eapply (meets_cvtup ys _ _ _ _ sq (rcells xs) r rest); [done|by apply store_put|by rewrite store_put_ne|done|rewrite length_rcells; lia|done|done|done|].
    rewrite put_put. apply meets_ret. by rewrite rcells_app, <- app_assoc in HQ.
  - rewrite (proj2 (Z.ltb_lt _ 0)) by (destruct ys; [done|cbn in El; lia]).
    eapply (meets_memmove _ _ q _ _ (rcells ys)); [by rewrite store_put_ne|rewrite Edq; apply cells_front; rewrite length_rcells; lia|by apply store_put| |].
    { cbn. rewrite Ed. apply splice_at; rewrite length_rcells; lia. }
    rewrite put_put. apply meets_ret. rewrite length_rcells. by rewrite rcells_app, <- app_assoc in HQ.
Qed.
Lemma meets_append_ascii s p q st sq xs ys r rest l (Q : Z -> sst -> Prop) E :
  p <> q -> store s !! p = Some st -> store s !! q = Some sq -> s_data st = (Some <$> xs) ++ r -> s_data sq = (Some <$> ys) ++ rest ->
  s_len sq = Z.of_nat (length ys) -> (length ys <= length r)%nat ->
  Q p (put p (mkStr (s_ref st) l (s_max st) ((Some <$> xs ++ ys) ++ list.drop (length ys) r)) s) ->
  meets (change p (with_len l);; st2 ← str_at q; memmove p (Z.of_nat (length xs)) q 0 (s_len st2);; mret p) s Q E.
Proof.
  intros Hpq Hp Hq Ed Edq El Hl HQ. apply (meets_change _ _ _ st); [done|]. apply (meets_str _ _ sq); [by rewrite store_put_ne|].
  eapply (meets_memmove _ _ q _ _ (Some <$> ys)); [by rewrite store_put_ne|rewrite Edq; apply cells_front; by rewrite length_fmap|by apply store_put| |].
  { cbn. rewrite Ed. apply splice_at; rewrite ?length_fmap; [done|lia]. }
  rewrite put_put. apply meets_ret. rewrite length_fmap. by rewrite fmap_app, <- app_assoc in HQ.
Qed.

(** What a sum may be: a new string, or the first one longer. *)
Definition grows (s s1 : sst) (p : Z) (zs : list Z) : Prop :=
  exists st st', s1 = put p st' s /\ store s !! p = Some st /\ s_ref st = 1 /\ s_ref st' = 1 /\ length (s_data st') = length (s_data st) /\ repr st' zs.
Section Addstring.
Context (s : sst) (p1 p2 : Z) (st1 st2 : Str) (xs ys : list Z).
Context (I : sinv s) (Hp1 : store s !! p1 = Some st1) (Hp2 : store s !! p2 = Some st2) (Hx : repr st1 xs) (Hy : repr st2 ys).
Context (Q : Z -> sst -> Prop) (E : string -> sst -> Prop) (HE : failed s E).
Context (Hnew : forall p s1, fresh s s1 p any_str (xs ++ ys) -> Q p s1).

Lemma sum_bound : Z.of_nat (length xs + length ys) < 2 ^ 29.
Proof.
  pose proof (str_bound s p1 st1 I Hp1) as B1. pose proof (str_bound s p2 st2 I Hp2) as B2. pose proof (repr_length _ _ Hx). pose proof (repr_length _ _ Hy).
  unfold STRUCTALIGN in *. destruct Hx, Hy; unfold STRUCTALIGN in *; lia.
Qed.
Lemma meets_sum_runes (append : bool) l : s_len st1 < 0 -> l = Z.of_nat (length xs + length ys) ->
  (append = true -> l <= s_max st1 -> s_ref st1 = 1 /\ p1 <> p2) -> (append = true -> forall s1, grows s s1 p1 (xs ++ ys) -> Q p1 s1) ->
  meets (ns ← (if append && (l <=? s_max st1) then mret p1
            else ns ← newrunes (grown append l); memmove ns 0 p1 0 (- s_len st1 * sizeof_Rune);; mret ns);
      change ns (with_len (- l));;
      st2 ← str_at p2;
      (if s_len st2 <? 0 then memmove ns (sizeof_Rune * - s_len st1) p2 0 (- s_len st2 * sizeof_Rune) else cvtup ns (- s_len st1) p2);;
      mret ns) s Q E.
Proof.
  intros Hneg El Ha Hin. pose proof sum_bound as Hb. destruct Hx as [rest El1|rest El1 Hn Hr Hm Hc Ed]; [lia|].
  assert (En : - s_len st1 = Z.of_nat (length xs)) by lia. rewrite En. assert (Hys : Forall is_rune ys) by (destruct Hy as [? ? Hya|? ? ? Hyr]; [exact (Forall_impl _ ascii_rune Hya)|done]).
  assert (Hxy : Forall is_rune (xs ++ ys)) by (by apply Forall_app). assert (Hne : xs ++ ys <> []) by (by intros [? ?]%app_eq_nil).
  assert (Hzs : (1 <= length xs)%nat) by (destruct xs; [done|cbn; lia]). pose proof (f_equal length Ed) as Hdl. rewrite length_app, length_rcells in Hdl.
  destruct (append && (l <=? s_max st1)) eqn:Eap.
  - apply andb_prop in Eap as [Eap Emax]. destruct (Ha Eap ltac:(lia)) as [Href Hpq]. apply meets_bind, meets_ret.
    apply (meets_append_runes _ _ _ st1 st2 xs ys rest); [exact Hpq|exact Hp1|exact Hp2|exact Ed|exact Hy|lia|]. apply Hin; [done|]. eexists st1, _. split; [done|]. split; [done|]. split; [done|]. split; [exact Href|]. split; cbn.
    + rewrite Ed, !length_app, !length_rcells, length_drop, length_app. lia.
    + eapply repr_runes; cbn; [rewrite length_app; lia|done|done|lia| |done]. rewrite length_app, length_rcells, length_drop, length_app. lia.
  - destruct (grown_bounds append l ltac:(lia)) as [Hg1 Hg2]. apply meets_bind. apply meets_newrunes; [done|lia| |done].
    intros p max n s1 I1 S1 R Hmax Hn'. destruct (room_ne _ _ _ _ p1 st1 S1 R Hp1) as [Hpq1 Hs1]. destruct (room_ne _ _ _ _ p2 st2 S1 R Hp2) as [Hpq2 Hs2]. unfold STRUCTALIGN, sizeof_Rune in *.
    eapply (meets_memmove _ _ p1 _ _ (rcells xs)); [by rewrite store_put_ne|rewrite Ed; apply cells_front; rewrite length_rcells; lia|by apply store_put| |].
    { apply splice_blank. rewrite length_rcells. lia. }
    rewrite put_put. apply meets_ret. eapply (meets_append_runes _ _ _ _ st2 xs ys); [done|by apply store_put|by rewrite store_put_ne|done|done| |].
    { rewrite length_replicate, length_rcells. lia. }
    rewrite put_put. apply Hnew. apply (fresh_put _ _ _ n); [done|done|done|done| | |done]; cbn.
    + rewrite length_app, length_rcells, length_app, length_drop, length_replicate, length_rcells. lia.
    + eapply repr_runes; cbn; [rewrite length_app; lia|done|done|lia| |done]. rewrite length_app, length_rcells, length_app, length_drop, length_replicate, length_rcells. lia.
Qed.
Lemma meets_sum_ascii (append : bool) l : 0 <= s_len st1 -> 0 <= s_len st2 -> l = s_len st1 + s_len st2 ->
  (append = true -> l <= s_max st1 -> s_ref st1 = 1 /\ p1 <> p2) -> (append = true -> forall s1, grows s s1 p1 (xs ++ ys) -> Q p1 s1) ->
  meets (ns ← (if append && (l <=? s_max st1) then mret p1
            else ns ← newstring (grown append l); memmove ns 0 p1 0 (s_len st1);; mret ns);
      change ns (with_len l);;
      st2 ← str_at p2;
      memmove ns (s_len st1) p2 0 (s_len st2);;
      mret ns) s Q E.
Proof.
  intros Hpos1 Hpos2 El Ha Hin. pose proof sum_bound as Hb. destruct Hx as [rest El1 Hxa Hm Hc Ed|rest El1 Hn]; [|destruct xs; [done|cbn in El1; lia]].
  destruct Hy as [rest2 El2 Hya Hm2 Hc2 Ed2|rest2 El2 Hn2]; [|destruct ys; [done|cbn in El2; lia]]. rewrite El1 in *.
  assert (Hxy : Forall is_ascii (xs ++ ys)) by (by apply Forall_app). pose proof (f_equal length Ed) as Hdl. rewrite length_app, length_fmap in Hdl. unfold STRUCTALIGN in *.
  destruct (append && (l <=? s_max st1)) eqn:Eap.
  - apply andb_prop in Eap as [Eap Emax]. destruct (Ha Eap ltac:(lia)) as [Href Hpq]. apply meets_bind, meets_ret.
    apply (meets_append_ascii _ _ _ st1 st2 xs ys rest rest2); [exact Hpq|exact Hp1|exact Hp2|exact Ed|exact Ed2|exact El2|lia|]. apply Hin; [done|].
    eexists st1, _. split; [done|]. split; [done|]. split; [done|]. split; [exact Href|]. split; cbn.
    + rewrite Ed, !length_app, !length_fmap, length_drop, length_app. lia.
    + eapply repr_ascii; cbn; [rewrite length_app; lia|done|lia| |done]. rewrite length_app, length_fmap, length_drop, length_app. unfold STRUCTALIGN. lia.
  - destruct (grown_bounds append l ltac:(lia)) as [Hg1 Hg2]. apply meets_bind. apply meets_newstring; [done|lia| |done].
    intros p max s1 I1 S1 R Hmax. destruct (room_ne _ _ _ _ p1 st1 S1 R Hp1) as [Hpq1 Hs1]. destruct (room_ne _ _ _ _ p2 st2 S1 R Hp2) as [Hpq2 Hs2]. unfold STRUCTALIGN in *.
    eapply (meets_memmove _ _ p1 _ _ (Some <$> xs)); [by rewrite store_put_ne|rewrite Ed; apply cells_front; by rewrite length_fmap|by apply store_put| |].
    { apply splice_blank. rewrite length_fmap. lia. }
    rewrite put_put. apply meets_ret. eapply (meets_append_ascii _ _ _ _ st2 xs ys); [done|by apply store_put|by rewrite store_put_ne|done|exact Ed2|exact El2| |].
    { rewrite length_replicate, length_fmap. lia. }
    rewrite put_put. apply Hnew. apply (fresh_put _ _ _ (max + 8)); [done|done|done|done| | |done]; cbn.
    + rewrite length_app, length_fmap, length_app, length_drop, length_replicate, length_fmap. lia.
    + eapply repr_ascii; cbn; [rewrite length_app; lia|done|lia| |done]. rewrite length_app, length_fmap, length_app, length_drop, length_replicate, length_fmap. unfold STRUCTALIGN. lia.
Qed.
Lemma meets_sum_mixed (append : bool) l : 0 <= s_len st1 -> s_len st2 < 0 -> l = s_len st1 - s_len st2 ->
  meets (ns ← newrunes (grown append l);
      change ns (with_len (- l));;
      cvtup ns 0 p1;;
      memmove ns (sizeof_Rune * s_len st1) p2 0 (- s_len st2 * sizeof_Rune);;
      mret ns) s Q E.
Proof.
  intros Hpos1 Hneg2 El. pose proof sum_bound as Hb. destruct Hx as [rest El1 Hxa Hm Hc Ed|rest El1 Hn]; [|destruct xs; [done|cbn in El1; lia]].
  destruct Hy as [rest2 El2|rest2 El2 Hn2 Hr2 Hm2 Hc2 Ed2]; [lia|]. assert (Hys : (1 <= length ys)%nat) by (destruct ys; [done|cbn; lia]).
  assert (Hxy : Forall is_rune (xs ++ ys)) by (apply Forall_app; split; [exact (Forall_impl _ ascii_rune Hxa)|done]).
  destruct (grown_bounds append l ltac:(lia)) as [Hg1 Hg2]. apply meets_newrunes; [done|lia| |done].
  intros p max n s1 I1 S1 R Hmax Hn'. destruct (room_ne _ _ _ _ p1 st1 S1 R Hp1) as [Hpq1 Hs1]. destruct (room_ne _ _ _ _ p2 st2 S1 R Hp2) as [Hpq2 Hs2]. unfold STRUCTALIGN, sizeof_Rune in *.
  eapply meets_change; [by apply store_put|]. rewrite put_put.
  eapply (meets_cvtup xs _ p1 0 _ st1 [] (replicate (Z.to_nat n) None)); [done|by apply store_put|by rewrite store_put_ne|done|done|exact Ed|done|rewrite length_replicate; lia|].
  rewrite put_put. eapply (meets_memmove _ _ p2 _ _ (rcells ys)); [by rewrite store_put_ne|rewrite Ed2; apply cells_front; rewrite length_rcells; lia|by apply store_put| |].
  { cbn. rewrite drop_replicate. apply splice_next; rewrite length_rcells; lia. }
  rewrite put_put. apply meets_ret, Hnew. apply (fresh_put _ _ _ n); [done|done|done|done| | |done]; cbn.
  - rewrite !length_app, !length_rcells, length_replicate. lia.
  - eapply (repr_runes _ _ (replicate (Z.to_nat n - 4 * length xs - length (rcells ys)) None)); cbn; [rewrite length_app; lia|intros [? ?]%app_eq_nil; subst; done|done|lia| |by rewrite rcells_app, <- app_assoc].
    rewrite !length_app, !length_rcells, length_replicate. lia.
Qed.
End Addstring.

(** A string has not the room to be added to itself, or is shared. *)
Definition no_room (st : Str) : Prop := 1 < s_ref st \/ s_max st < 2 * Z.abs (s_len st).
Lemma meets_addstring s p1 p2 (append : bool) xs ys (Q : Z -> sst -> Prop) E :
  sinv s -> holds s p1 xs -> holds s p2 ys -> (append = true -> p1 = p2 -> p1 = H \/ exists st, store s !! p1 = Some st /\ no_room st) ->
  (forall p s1, fresh s s1 p any_str (xs ++ ys) -> Q p s1) -> (append = true -> forall s1, grows s s1 p1 (xs ++ ys) -> Q p1 s1) ->
  failed s E -> meets (addstring p1 p2 append) s Q E.
Proof.
  intros I Hx Hy Hal Hnew Hin He. unfold addstring.
  assert (Hdup : forall p zs, holds s p zs -> zs = xs ++ ys -> meets (stringdup p) s Q E).
  { intros p zs Hp ->. pose proof (makes_stringdup s p (xs ++ ys) I Hp Z mret Q E) as Hm. apply meets_bind_inv in Hm; [|intros q s1 F; apply Hnew, (fresh_mono _ _ _ (dup_of s p)); done|done].
    revert Hm. unfold meets. by destruct (stringdup p s). }
  destruct (Z.eqb_spec p1 H) as [E1|E1].
  { assert (xs = []) as ->. { destruct Hx as [[_ ->]|(st & Hst & _)]; [done|by destruct (str_not_H s p1 st I Hst)]. }
    destruct (Z.eqb_spec p2 H) as [E2|E2]; [|by apply (Hdup p2 ys)]. apply meets_ret, Hnew.
    assert (ys = []) as ->. { destruct Hy as [[_ ->]|(st & Hst & _)]; [done|by destruct (str_not_H s p2 st I Hst)]. }
    by apply fresh_nil. }
  destruct Hx as [[? _]|(st1 & Hp1 & Hx)]; [done|]. apply (meets_str _ _ st1); [done|]. set (ap := append && negb (1 <? s_ref st1)).
  assert (Hap : ap = true -> append = true /\ s_ref st1 = 1 /\ (p1 = p2 -> s_max st1 < 2 * Z.abs (s_len st1))).
  { intros [Ea Er]%andb_prop. assert (Hr : s_ref st1 = 1) by (pose proof (in_ref _ _ _ (si_str _ I p1 st1 Hp1)); lia). split; [done|]. split; [done|].
    intros Epp. destruct (Hal Ea Epp) as [?|(st & Hst & Hroom)]; [done|]. replace st with st1 in Hroom by congruence. unfold no_room in Hroom. lia. }
  destruct (Z.eqb_spec p2 H) as [E2|E2].
  { assert (ys = []) as ->. { destruct Hy as [[_ ->]|(st & Hst & _)]; [done|by destruct (str_not_H s p2 st I Hst)]. }
    destruct ap; [|apply (Hdup p1 xs); [right; by exists st1|by rewrite app_nil_r]]. destruct (Hap eq_refl) as (Ha & Hr & _).
    apply meets_ret, (Hin Ha). exists st1, st1. rewrite app_nil_r, put_id by done. done. }
  destruct Hy as [[? _]|(st2 & Hp2 & Hy)]; [done|]. apply (meets_str _ _ st2); [done|]. pose proof (repr_length _ _ Hx) as L1. pose proof (repr_length _ _ Hy) as L2.
  assert (Hap1 : ap = true -> Z.abs (s_len st1) + Z.abs (s_len st2) <= s_max st1 -> s_ref st1 = 1 /\ p1 <> p2).
  { intros Ea Hl. destruct (Hap Ea) as (_ & Hr & Hne). split; [done|]. intros Epp. specialize (Hne Epp). simplify_eq. lia. }
  assert (Hin1 : ap = true -> forall s1, grows s s1 p1 (xs ++ ys) -> Q p1 s1) by (intros Ea; by apply Hin, Hap).
  destruct (Z.ltb_spec (s_len st1) 0) as [N1|N1]; [|destruct (Z.ltb_spec (s_len st2) 0) as [N2|N2]].
  - apply (meets_sum_runes s p1 p2 st1 st2 xs ys); try done; [destruct (Z.ltb_spec (s_len st2) 0); lia|]. intros Ea Hl. apply Hap1; [done|]. destruct (Z.ltb_spec (s_len st2) 0); lia.
  - apply (meets_sum_mixed s p1 p2 st1 st2 xs ys); try done.
  - apply (meets_sum_ascii s p1 p2 st1 st2 xs ys); try done. intros Ea Hl. apply Hap1; [done|lia].
Qed.

(** ** The instructions *)

Definition results (s : sst) (d : Z) (zs : list Z) (Q : unit -> sst -> Prop) : Prop :=
  forall s', sinv s' -> (forall A, abs s A -> abs s' (<[d:=zs]> A)) -> Q tt s'.
(** [if(ns != *sp) { destroy( *sp); *sp = ns; }] *)
Lemma meets_install s s0 d ns zs (Q : unit -> sst -> Prop) E : sinv s -> is_Some (slots s !! d) -> holds s ns zs -> (ns <> H -> count ns (slots s) = 0%nat) ->
  (forall A, abs s0 A -> abs s A) -> results s0 d zs Q -> meets (p ← slot d; if ns =? p then mret tt else destroy p;; set_slot d ns) s Q E.
Proof.
  intros I [p Hd] Hns Hc HA HQ. apply (meets_slot _ _ p); [done|]. destruct (Z.eqb_spec ns p) as [<-|Hn].
  - assert (ns = H) as ->. { destruct (decide (ns = H)) as [?|Hn]; [done|]. pose proof (count_one ns d _ Hd). specialize (Hc Hn). lia. }
    assert (zs = []) as ->. { destruct Hns as [[_ ->]|(st & Hst & _)]; [done|by destruct (str_not_H s H st I Hst)]. }
    apply meets_ret, HQ; [done|]. intros A HA0. apply HA in HA0. intros a. specialize (HA0 a). destruct (decide (d = a)) as [<-|Hda].
    + rewrite Hd, lookup_insert_eq in *. by left.
    + by rewrite lookup_insert_ne.
  - apply (meets_assign s d p ns zs I Hd Hns); [intros Hnn; apply (uncounted s ns zs); auto|]. intros s' I' A' _ _. apply HQ; [done|]. intros A HA0. by apply A', HA.
Qed.
Lemma fresh_install s s1 d ns w zs (Q : unit -> sst -> Prop) E : fresh s s1 ns w zs -> is_Some (slots s !! d) -> results s d zs Q ->
  meets (p ← slot d; if ns =? p then mret tt else destroy p;; set_slot d ns) s1 Q E.
Proof.
  intros F Hd HQ. apply (meets_install s1 s d ns zs); [apply F|by rewrite (fh_slots _ _ _ _ _ F)|by apply (fresh_holds s s1 ns w)|apply F|intros A; by apply (fresh_abs s s1 ns w zs)|done].
Qed.

(** The string is not added to itself where it has the room to be. *)
Definition self_ok (s : sst) (a m d : Z) : Prop := a = m -> m = d -> forall p st, slots s !! d = Some p -> store s !! p = Some st -> no_room st.
Lemma meets_addc s a m d p1 p2 xs ys (Q : unit -> sst -> Prop) E : sinv s -> slots s !! m = Some p1 -> slots s !! a = Some p2 -> is_Some (slots s !! d) ->
  holds s p1 xs -> holds s p2 ys -> self_ok s a m d -> results s d (xs ++ ys) Q -> failed s E -> meets (addc a m d) s Q E.
Proof.
  intros I Hm Ha Hd Hx Hy Hal HQ He. unfold addc. apply (meets_slot _ _ p1); [done|]. apply (meets_slot _ _ p2); [done|]. apply meets_bind.
  apply (meets_addstring s p1 p2 _ xs ys); [done|done|done| | | |done].
  - intros ->%Z.eqb_eq <-. destruct (si_slot _ I d p1 Hm) as [?|[st Hst]]; [by left|right]. exists st. split; [done|].
    destruct (decide (a = d)) as [->|Hne]; [by apply (Hal eq_refl eq_refl p1)|left]. pose proof (count_two p1 a d _ Hne Ha Hm) as Hc. pose proof (in_refs _ _ _ (si_str _ I p1 st Hst)). lia.
  - intros p s1 F. by apply (fresh_install s s1 d p any_str (xs ++ ys)).
  - intros ->%Z.eqb_eq s1 (st & st' & -> & Hst & Hr & Hr' & Hl & Hz). apply (meets_slot _ _ p1); [done|]. rewrite Z.eqb_refl. apply meets_ret, HQ.
    + by apply (sinv_update s p1 st st' (xs ++ ys)).
    + intros A HA. by apply (abs_mutate s d p1 st).
Qed.
Lemma meets_slicec s start v d p xs (Q : unit -> sst -> Prop) E : sinv s -> slots s !! d = Some p -> holds s p xs -> 0 <= start < M32 -> 0 <= v < M32 ->
  (in_slice start v xs -> results s d (slice start v xs) Q) -> (~ in_slice start v xs -> E exBounds s) -> failed s E -> meets (slicec start v d) s Q E.
Proof.
  intros I Hd Hx Hs Hv HQ Hb He. unfold slicec. apply (meets_slot _ _ p); [done|]. apply (meets_slicer s p start v xs); [done|done|done|done| |done|done].
  intros Hin ns s1 F. rewrite <- (fh_slots _ _ _ _ _ F) in Hd. apply (meets_slot _ _ p); [done|].
  apply (meets_assign s1 d p ns (slice start v xs)); [apply F|done|by apply (fresh_holds s s1 ns any_str)|by apply (fresh_counted s s1 ns any_str (slice start v xs))|].
  intros s2 I2 A2 _ _. apply HQ; [done|done|]. intros A HA. apply A2. by apply (fresh_abs s s1 ns any_str (slice start v xs)).
Qed.

(** ** insc *)

Definition put_char (v r : Z) (xs : list Z) : list Z := if v <? Z.of_nat (length xs) then <[Z.to_nat v := r]> xs else xs ++ [r].
Definition in_string (v : Z) (xs : list Z) : Prop := v <= Z.of_nat (length xs).
Lemma put_char_in v r xs a x b : xs = a ++ x :: b -> v = Z.of_nat (length a) -> put_char v r xs = a ++ r :: b.
Proof.
  intros -> ->. unfold put_char. rewrite length_app. cbn [length]. rewrite (proj2 (Z.ltb_lt _ _)) by lia. rewrite Nat2Z.id.
  rewrite list.insert_take_drop by (rewrite length_app; cbn; lia). rewrite list.take_app_length. f_equal. f_equal.
  change (x :: b) with ([x] ++ b). rewrite app_assoc. apply list.drop_app_length'. rewrite length_app. cbn. lia.
Qed.
Lemma put_char_end r xs v : v = Z.of_nat (length xs) -> put_char v r xs = xs ++ [r].
Proof. intros ->. unfold put_char. by rewrite Z.ltb_irrefl. Qed.
Lemma Forall_put_char (C : Z -> Prop) v r xs : Forall C xs -> C r -> Forall C (put_char v r xs).
Proof.
  intros Hx Hr. unfold put_char. case_match; [by apply Forall_insert|]. apply Forall_app. split; [done|]. by constructor.
Qed.
Lemma split_index (xs : list Z) v : 0 <= v < Z.of_nat (length xs) -> exists a x b, xs = a ++ x :: b /\ v = Z.of_nat (length a).
Proof.
  intros Hv. destruct (lookup_lt_is_Some_2 xs (Z.to_nat v) ltac:(lia)) as [x Hx]. destruct (split_at xs _ x Hx) as (a & b & -> & Ea). exists a, x, b. split; [done|lia].
Qed.

Section Insc.
Context (s : sst) (ss : Z) (st : Str) (xs : list Z) (v r : Z) (I : sinv s) (Hst : store s !! ss = Some st) (Href : s_ref st = 1) (Hv : 0 <= v < M32).
Context (Q : Z -> sst -> Prop) (E : string -> sst -> Prop) (HE : failed s E) (Hbd : ~ in_string v xs -> E exBounds s).
Context (Hold : forall st', in_string v xs -> s_ref st' = 1 -> length (s_data st') = length (s_data st) -> repr st' (put_char v r xs) -> Q ss (put ss st' s)).
Context (Hnew : forall p s1, in_string v xs -> fresh s s1 p any_str (put_char v r xs) -> Q p s1).

Lemma meets_insc_rune rest : s_data st = rcells xs ++ rest -> Forall is_rune xs -> is_rune r -> Z.of_nat (length xs) <= s_max st -> 4 * s_max st <= Z.of_nat (length (s_data st)) ->
  (xs <> [] -> s_len st = - Z.of_nat (length xs)) -> meets (insc_rune ss (Z.of_nat (length xs)) v r) s Q E.
Proof.
  intros Ed Hxs Hr Hm Hc Hlen. pose proof (str_bound s ss st I Hst) as Hb. pose proof (f_equal length Ed) as Hdl. rewrite length_app, length_rcells in Hdl.
  assert (Hzs : Forall is_rune (put_char v r xs)) by by apply Forall_put_char. unfold insc_rune, set_rune, sizeof_Rune, STRUCTALIGN in *. apply (meets_str _ _ st); [done|].
  destruct (Z.ltb_spec v (Z.of_nat (length xs))) as [Hlt|Hge].
  { destruct (split_index xs v) as (a & x & b & Ex & Ev); [lia|]. pose proof (put_char_in v r xs a x b Ex Ev) as Ez. rewrite Ex, length_app in Hdl, Hm. cbn [length] in Hdl, Hm.
    eapply meets_write; [done| |].
    { rewrite Ed, Ex, rcells_app, rcells_cons, <- !app_assoc. apply splice_over; [rewrite length_rcells; lia|done]. }
    apply meets_ret, Hold; [unfold in_string; lia|done| |].
    - cbn. rewrite Ed, Ex, rcells_app, rcells_cons, !length_app, !length_rune_cells. cbn. lia.
    - eapply (repr_runes _ _ rest); cbn; rewrite Ez in *.
      + rewrite Hlen by (rewrite Ex; by destruct a). rewrite Ex, !length_app. done.
      + by destruct a.
      + done.
      + rewrite Hlen by (rewrite Ex; by destruct a). rewrite Ex, length_app. cbn. lia.
      + rewrite !length_app, !length_rcells, length_rune_cells. lia.
      + rewrite rcells_app, rcells_cons, <- !app_assoc. done. }
  destruct (Z.eqb_spec v (Z.of_nat (length xs))) as [Ev|Nv]; cbn [andb negb]; [|apply Hbd; unfold in_string; lia].
  rewrite (put_char_end r xs v Ev) in *. destruct (Z.ltb_spec v (s_max st)) as [Hlt|Hfull].
  - apply (meets_change _ _ _ st); [done|]. eapply meets_write; [by apply store_put| |].
    { cbn. rewrite Ed. apply splice_at; rewrite ?length_rcells, ?length_rune_cells; lia. }
    rewrite put_put. apply meets_ret, Hold; [unfold in_string; lia|done| |]; cbn.
    + rewrite Ed, !length_app, length_drop, length_rune_cells. lia.
    + eapply repr_runes; cbn; [rewrite length_app; cbn; lia|by destruct xs|done|lia| |by rewrite rcells_snoc, <- app_assoc].
      rewrite !length_app, length_drop, length_rcells, length_rune_cells. lia.
  - assert (Eg : u32 (v + 1 + v / 4) = v + 1 + v / 4) by (clear - Hb Ev Hv Hdl; int_lia). rewrite Eg. apply meets_newstring; [done|Z.div_mod_to_equations; lia| |done].
    intros p max s1 I1 S1 R Hmax. destruct (room_ne _ _ _ _ ss st S1 R Hst) as [Hpq Hs1]. unfold STRUCTALIGN in *.
    eapply (meets_memmove _ _ ss _ _ (rcells xs)); [by rewrite store_put_ne|rewrite Ed; apply cells_front; rewrite length_rcells; lia|by apply store_put| |].
    { apply splice_blank. rewrite length_rcells. Z.div_mod_to_equations. lia. }
    rewrite put_put. eapply meets_write; [by apply store_put| |].
    { cbn. apply splice_next; [rewrite length_rcells; lia|]. rewrite length_rune_cells, length_rcells. Z.div_mod_to_equations. lia. }
    rewrite put_put. eapply meets_change; [by apply store_put|]. rewrite put_put. eapply meets_change; [by apply store_put|]. rewrite put_put.
    apply meets_ret, Hnew; [unfold in_string; lia|]. assert (Em : u64 max / 4 = max / 4) by (clear - Hmax Hv; int_lia). apply (fresh_put _ _ _ (max + 8)); [done|done|done|done| | |done]; cbn.
    + rewrite !length_app, length_rcells, length_rune_cells, length_replicate. Z.div_mod_to_equations. lia.
    + eapply repr_runes; cbn; [rewrite length_app; cbn; lia|by destruct xs|done|rewrite Em; Z.div_mod_to_equations; lia| |by rewrite rcells_snoc, <- app_assoc].
      rewrite !length_app, length_rcells, length_rune_cells, length_replicate, Em. Z.div_mod_to_equations. lia.
Qed.
Lemma meets_insc_ascii rest : s_data st = (Some <$> xs) ++ rest -> Forall is_ascii xs -> is_ascii r -> Z.of_nat (length xs) <= s_max st ->
  s_max st + STRUCTALIGN <= Z.of_nat (length (s_data st)) -> s_len st = Z.of_nat (length xs) -> meets (insc_ascii ss (Z.of_nat (length xs)) v r) s Q E.
Proof.
  intros Ed Hxs Hr Hm Hc Hlen. pose proof (str_bound s ss st I Hst) as Hb. pose proof (f_equal length Ed) as Hdl. rewrite length_app, length_fmap in Hdl.
  assert (Hzs : Forall is_ascii (put_char v r xs)) by by apply Forall_put_char. unfold insc_ascii, set_ascii, STRUCTALIGN in *. apply (meets_str _ _ st); [done|].
  assert (Er : u8 r = r) by (unfold is_ascii in Hr; int_lia). rewrite Er.
  destruct (Z.ltb_spec v (Z.of_nat (length xs))) as [Hlt|Hge].
  { destruct (split_index xs v) as (a & x & b & Ex & Ev); [lia|]. pose proof (put_char_in v r xs a x b Ex Ev) as Ez. rewrite Ex, length_app in Hdl, Hm. cbn [length] in Hdl, Hm.
    eapply meets_write; [done| |].
    { rewrite Ed, Ex, fmap_app, fmap_cons, <- !app_assoc. by apply (splice_over _ [Some x]); [rewrite length_fmap|]. }
    apply meets_ret, Hold; [unfold in_string; lia|done| |].
    - cbn. rewrite Ed, Ex, fmap_app, fmap_cons, !length_app, !length_fmap. cbn. rewrite !length_app, length_fmap. lia.
    - eapply (repr_ascii _ _ rest); cbn; rewrite Ez in *.
      + rewrite Hlen, Ex, !length_app. done.
      + done.
      + rewrite Hlen, Ex, length_app. cbn. lia.
      + rewrite !length_app, !length_fmap. cbn. rewrite length_app, length_fmap. unfold STRUCTALIGN. lia.
      + by rewrite fmap_app, fmap_cons, <- !app_assoc. }
  destruct (Z.eqb_spec v (Z.of_nat (length xs))) as [Ev|Nv]; cbn [andb negb]; [|apply Hbd; unfold in_string; lia].
  rewrite (put_char_end r xs v Ev) in *. destruct (Z.ltb_spec v (s_max st)) as [Hlt|Hfull].
  - apply (meets_change _ _ _ st); [done|]. eapply meets_write; [by apply store_put| |].
    { cbn. rewrite Ed. apply splice_at; rewrite ?length_fmap; [done|cbn; lia]. }
    rewrite put_put. apply meets_ret, Hold; [unfold in_string; lia|done| |]; cbn.
    + rewrite Ed, !length_app. cbn. rewrite length_drop, length_fmap. lia.
    + eapply repr_ascii; cbn; [rewrite length_app; cbn; lia|done|lia| |by rewrite fmap_app, <- app_assoc].
      rewrite !length_app. cbn. rewrite length_drop, length_fmap. unfold STRUCTALIGN. lia.
  - assert (Eg : u32 (v + 1 + v / 4) = v + 1 + v / 4) by (clear - Hb Ev Hv Hdl; int_lia). rewrite Eg. apply meets_newstring; [done|Z.div_mod_to_equations; lia| |done].
    intros p max s1 I1 S1 R Hmax. destruct (room_ne _ _ _ _ ss st S1 R Hst) as [Hpq Hs1]. unfold STRUCTALIGN in *.
    eapply (meets_memmove _ _ ss _ _ (Some <$> xs)); [by rewrite store_put_ne|rewrite Ed; apply cells_front; by rewrite length_fmap|by apply store_put| |].
    { apply splice_blank. rewrite length_fmap. Z.div_mod_to_equations. lia. }
    rewrite put_put. eapply meets_write; [by apply store_put| |].
    { cbn. apply splice_next; [by rewrite length_fmap|]. rewrite length_fmap. cbn. Z.div_mod_to_equations. lia. }
    rewrite put_put. eapply meets_change; [by apply store_put|]. rewrite put_put.
    apply meets_ret, Hnew; [unfold in_string; lia|]. apply (fresh_put _ _ _ (max + 8)); [done|done|done|done| | |done]; cbn.
    + rewrite !length_app, length_fmap. cbn. rewrite length_replicate. Z.div_mod_to_equations. lia.
    + eapply repr_ascii; cbn; [rewrite length_app; cbn; lia|done|Z.div_mod_to_equations; lia| |by rewrite fmap_app, <- app_assoc].
      rewrite !length_app, length_fmap. cbn. rewrite length_replicate. unfold STRUCTALIGN. Z.div_mod_to_equations. lia.
Qed.
End Insc.

(** insc ends: the string it was to change has been, or there is another. *)
Section Install.
Context (s0 s : sst) (d ss : Z) (st : Str) (zs : list Z) (I : sinv s) (HA : forall A, abs s0 A -> abs s A).
Context (Hst : store s !! ss = Some st) (Href : s_ref st = 1).
Context (Hslot : slots s !! d = Some ss \/ slots s !! d = Some H /\ forall a, slots s !! a <> Some ss).
Context (Q : unit -> sst -> Prop) (E : string -> sst -> Prop) (HQ : results s0 d zs Q).
Abbreviation install ns := (p ← slot d; if ns =? p then mret tt else destroy p;; set_slot d ns).

Lemma install_old st' : s_ref st' = 1 -> length (s_data st') = length (s_data st) -> repr st' zs -> meets (install ss) (put ss st' s) Q E.
Proof.
  intros Hr Hl Hz. assert (I' : sinv (put ss st' s)) by (by apply (sinv_update s ss st st' zs)). destruct Hslot as [Hd|[Hd Hn]].
  - apply (meets_slot _ _ ss); [done|]. rewrite Z.eqb_refl. apply meets_ret, HQ; [done|]. intros A HA0. by apply (abs_mutate s d ss st), HA.
  - apply (meets_install _ s0 d ss zs); [done|by exists H| | | |done].
    + right. exists st'. by rewrite store_put.
    + intros _. by apply count_none.
    + intros A HA0. by apply abs_orphan, HA.
Qed.
Lemma install_new ns s1 w : fresh s s1 ns w zs -> meets (install ns) s1 Q E.
Proof.
  intros F. apply (meets_install s1 s0 d ns zs); [apply F| |by apply (fresh_holds s s1 ns w)|apply F| |done].
  - rewrite (fh_slots _ _ _ _ _ F). destruct Hslot as [->|[-> _]]; eauto.
  - intros A HA0. by apply (fresh_abs s s1 ns w zs), HA.
Qed.
End Install.

Definition wide_ok (s : sst) (d r : Z) : Prop := 128 <= r -> forall p st, slots s !! d = Some p -> store s !! p = Some st -> s_len st <> 0.

Section InscOp.
Context (s0 : sst) (d v r : Z) (xs : list Z) (Hv : 0 <= v < M32) (Hr : is_rune r).
Context (Q : unit -> sst -> Prop) (E : string -> sst -> Prop) (HQ : in_string v xs -> results s0 d (put_char v r xs) Q).
Context (HB : ~ in_string v xs -> forall s1, sinv s1 -> (forall A, abs s0 A -> abs s1 A) -> E exBounds s1).
Context (HE : forall s1, sinv s1 -> (forall A, abs s0 A -> abs s1 A) -> E exHeap s1).
Abbreviation install ns := (p ← slot d; if ns =? p then mret tt else destroy p;; set_slot d ns).

Section Body.
Context (s : sst) (ss : Z) (st : Str) (I : sinv s) (HA : forall A, abs s0 A -> abs s A).
Context (Hst : store s !! ss = Some st) (Href : s_ref st = 1).
Context (Hslot : slots s !! d = Some ss \/ slots s !! d = Some H /\ forall a, slots s !! a <> Some ss).
Lemma insc_failed : failed s E.
Proof. intros s1 I1 S1. apply HE; [done|]. intros A HA0. by apply (abs_same s), HA. Qed.
Lemma insc_body_runes rest : s_data st = rcells xs ++ rest -> Forall is_rune xs -> Z.of_nat (length xs) <= s_max st ->
  4 * s_max st <= Z.of_nat (length (s_data st)) -> (xs <> [] -> s_len st = - Z.of_nat (length xs)) ->
  meets (ns ← insc_rune ss (Z.of_nat (length xs)) v r; install ns) s Q E.
Proof.
  intros Ed Hx Hm Hc Hl. apply meets_bind. apply (meets_insc_rune s ss st xs v r I Hst Href Hv _ _ insc_failed) with (rest := rest); try done.
  - intros Hn. by apply HB.
  - intros st' Hi Hr' Hl' Hz. by apply (install_old s0 s d ss st (put_char v r xs) I HA Hst Href Hslot _ _ (HQ Hi)).
  - intros p s1 Hi F. by apply (install_new s0 s d ss (put_char v r xs) HA Hslot _ _ (HQ Hi) p s1 any_str).
Qed.
Lemma insc_body_ascii rest : is_ascii r -> s_data st = (Some <$> xs) ++ rest -> Forall is_ascii xs -> Z.of_nat (length xs) <= s_max st ->
  s_max st + STRUCTALIGN <= Z.of_nat (length (s_data st)) -> s_len st = Z.of_nat (length xs) ->
  meets (ns ← insc_ascii ss (Z.of_nat (length xs)) v r; install ns) s Q E.
Proof.
  intros Ha Ed Hx Hm Hc Hl. apply meets_bind. apply (meets_insc_ascii s ss st xs v r I Hst Href Hv _ _ insc_failed) with (rest := rest); try done.
  - intros Hn. by apply HB.
  - intros st' Hi Hr' Hl' Hz. by apply (install_old s0 s d ss st (put_char v r xs) I HA Hst Href Hslot _ _ (HQ Hi)).
  - intros p s1 Hi F. by apply (install_new s0 s d ss (put_char v r xs) HA Hslot _ _ (HQ Hi) p s1 any_str).
Qed.
(** The choice of the branch. *)
Lemma insc_body (w : bool) : w = (Runeself <=? r) -> repr st xs -> (128 <= r -> s_len st < 0) ->
  meets (ns ← (st ← str_at ss; let l := s_len st in if (l <? 0) || w then insc_rune ss (- l) v r else insc_ascii ss l v r); install ns) s Q E.
Proof.
  intros -> Hx Hw. apply meets_assoc, (meets_str _ _ st); [done|]. unfold Runeself. destruct Hx as [rest El Ha Hm Hc Ed|rest El Hn Hrn Hm Hc Ed].
  - assert (Hr' : r < 128) by lia. rewrite (proj2 (Z.ltb_ge _ 0)), (proj2 (Z.leb_gt _ _)) by lia. cbn [orb]. rewrite El.
    apply (insc_body_ascii rest); [unfold is_ascii, is_rune in *; lia|done|done|lia|done|done].
  - assert (Hneg : s_len st < 0) by (destruct xs; [done|cbn in El; lia]). rewrite (proj2 (Z.ltb_lt _ 0)) by lia. cbn [orb].
    replace (- s_len st) with (Z.of_nat (length xs)) by lia. apply (insc_body_runes rest); [done|done|lia|done|done].
Qed.
End Body.

Lemma meets_insc p : sinv s0 -> slots s0 !! d = Some p -> holds s0 p xs -> wide_ok s0 d r -> meets (insc r v d) s0 Q E.
Proof.
  intros I Hd Hx Hw. unfold insc. assert (Ev : u32 v = v) by int_lia. rewrite Ev. set (wide := Runeself <=? r).
  assert (HE0 : failed s0 E) by (intros s1 I1 S1; apply HE; [done|]; intros A; by apply abs_same).
  apply meets_bind. unfold insc_target. apply (meets_slot _ _ p); [done|]. destruct (Z.eqb_spec p H) as [->|Hp].
  - assert (Exs : xs = []). { destruct Hx as [[_ ->]|(st & Hst & _)]; [done|by destruct (str_not_H s0 H st I Hst)]. }
    apply meets_newstring; [done|lia| |done]. intros ss max s1 I1 S1 R Hmax. pose proof (ro_new _ _ _ R) as Hnew. pose proof (ro_slots _ _ _ R) as Hns.
    set (st := mkStr 1 0 max _). assert (Hlen : Z.of_nat (length (s_data st)) = max + STRUCTALIGN) by (cbn; rewrite length_replicate; unfold STRUCTALIGN; lia).
    assert (Hrepr : forall m, 0 <= m <= max -> repr (with_max m st) xs) by (intros m Hm; rewrite Exs; eapply (repr_ascii _ _ (s_data st)); cbn in *; [done|constructor|lia|lia|done]).
    assert (Is : sinv (put ss st s1)) by (apply (seal s1 ss (max + STRUCTALIGN) st xs); [done|done|done|done|apply (Hrepr max); lia]).
    assert (HA : forall m A, abs s0 A -> abs (put ss (with_max m st) s1) A) by (intros m A HA0; apply abs_put; [done|by apply (abs_same s0)]).
    assert (Hd1 : forall m, slots (put ss (with_max m st) s1) !! d = Some ss \/ slots (put ss (with_max m st) s1) !! d = Some H /\ forall a, slots (put ss (with_max m st) s1) !! a <> Some ss).
    { intros m. right. split; [|done]. destruct S1 as [_ S1]. cbn. by rewrite S1. }
    destruct wide eqn:Ew.
    + apply (meets_change _ _ _ st); [by apply store_put|]. rewrite put_put. apply meets_ret. cbn [s_max st].
      replace (insc_rune ss 0 v r) with (insc_rune ss (Z.of_nat (length xs)) v r) by (by rewrite Exs).
      assert (Em : u64 max / sizeof_Rune = max / 4) by (unfold sizeof_Rune; clear - Hmax; int_lia). rewrite Em.
      assert (Hm4 : 0 <= max / 4 <= max) by (Z.div_mod_to_equations; lia).
      apply (insc_body_runes (put ss (with_max (max / 4) st) s1) ss (with_max (max / 4) st)) with (rest := s_data st); try done; try (rewrite Exs; cbn; (done || lia)).
      * rewrite <- (put_put ss st). apply (sinv_update _ ss st _ xs); [done|by apply store_put|done|done|done|by apply Hrepr].
      * by apply HA.
      * by apply store_put.
      * change (s_data (with_max (max / 4) st)) with (s_data st). rewrite Hlen. cbn. unfold STRUCTALIGN. Z.div_mod_to_equations. lia.
    + apply meets_ret. apply (insc_body (put ss st s1) ss st Is) with (w := false); [apply (HA max)|by apply store_put|done|apply (Hd1 max)|done|apply (Hrepr max); lia|].
      unfold wide, Runeself in Ew. lia.
  - destruct Hx as [[? _]|(st & Hst & Hx)]; [done|]. apply (meets_str _ _ st); [done|].
    destruct ((1 <? s_ref st) || wide && (0 <? s_len st)) eqn:Esplit.
    + apply (meets_splitc s0 d p st xs wide); [done|done|done|done|done| |done]. intros s1 ns st' I1 A1 Hd1 Hn1 Hs1 Hr1 Hx1 Hl1. apply meets_ret.
      apply (insc_body s1 ns st' I1) with (w := wide); [|done|done|by left|done|done|].
      * intros A HA0. pose proof (A1 A HA0) as HA1. replace (<[d:=xs]> A) with A in HA1; [done|]. symmetry. apply insert_id.
        destruct (abs_slot s0 A d p HA0 Hd) as (xs' & HAd & Hx'). rewrite HAd. f_equal.
        apply (repr_unique st); [|done]. by apply (holds_repr s0 p).
      * intros Hw'. apply Hl1; [unfold wide, Runeself; by rewrite (proj2 (Z.leb_le _ _))|]. intros ->. apply (Hw Hw' p st Hd Hst). by apply repr_nil_len.
    + apply meets_ret. apply orb_false_elim in Esplit as [E1 E2]. apply (insc_body s0 p st I) with (w := wide); [done|done| |by left|done|done|].
      * pose proof (in_ref _ _ _ (si_str _ I p st Hst)). lia.
      * intros Hw'. pose proof (Hw Hw' p st Hd Hst) as Hne. unfold wide, Runeself in E2. rewrite (proj2 (Z.leb_le _ _)) in E2 by lia. cbn in E2. lia.
Qed.
End InscOp.

Lemma meets_cvtac s a d p zs (Q : unit -> sst -> Prop) E : sinv s -> slots s !! d = Some p ->
  match a with None => zs = [] | Some bs => Forall is_byte bs /\ Z.of_nat (length bs) < 2 ^ 29 /\ zs = chars_of bs end ->
  results s d zs Q -> failed s E -> meets (cvtac a d) s Q E.
Proof.
  intros I Hd Ha HQ He. unfold cvtac. assert (Hm : makes (match a with None => mret H | Some bs => c2string bs end) s any_str zs).
  { destruct a as [bs|]; [|subst zs; intros B k Q' E' Hk _; apply Hk; by apply fresh_nil]. destruct Ha as (Hb & Hl & ->).
    apply (makes_mono _ _ not_nil); [done|done|by apply makes_c2string]. }
  apply Hm; [|done]. intros ns s1 F. rewrite <- (fh_slots _ _ _ _ _ F) in Hd. apply (meets_slot _ _ p); [done|].
  apply (meets_assign s1 d p ns zs); [apply F|done|by apply (fresh_holds s s1 ns any_str)|by apply (fresh_counted s s1 ns any_str zs)|].
  intros s2 I2 A2 _ _. apply HQ; [done|]. intros A HA. apply A2. by apply (fresh_abs s s1 ns any_str zs).
Qed.
(** The slot is set before the old string goes. *)
Lemma set_then_destroy p d v s (Q : unit -> sst -> Prop) E : meets (destroy p;; set_slot d v) s Q E -> meets (set_slot d v;; destroy p) s Q E.
Proof.
  unfold meets, set_slot, destroy, modify, mbind, ST_bind. destruct (p =? H); [done|]. unfold str_at. cbn [store with_slots]. destruct (store s !! p) as [st|]; [|done]. cbn.
  by destruct (0 <? _).
Qed.
Lemma meets_movp s a d p q xs (Q : unit -> sst -> Prop) E : sinv s -> slots s !! a = Some q -> holds s q xs -> slots s !! d = Some p -> results s d xs Q -> meets (movp a d) s Q E.
Proof.
  intros I Ha Hx Hd HQ. unfold movp. apply (meets_slot _ _ q); [done|]. destruct (Z.eqb_spec q H) as [Eq|Eq].
  - apply meets_bind, meets_ret, (meets_slot _ _ p), set_then_destroy, (meets_assign s d p q xs); [done|done|done|done|done|]. intros s' I' A' _ _. by apply HQ.
  - destruct (si_slot _ I a q Ha) as [?|[st Hst]]; [done|]. apply (meets_change _ _ _ st); [done|]. set (st' := with_ref _ st).
    assert (Hr : forall ys, repr st ys -> repr st' ys) by (intros ys [r L1 L2 L3 L4 L5|r L1 L2 L3 L4 L5 L6]; [by eapply repr_ascii|by eapply repr_runes]).
    destruct (sinv_beyond s q st st' I Hst) as (I' & Hh & HA); [cbn; lia|done|done|]. apply (meets_slot _ _ p); [done|].
    apply set_then_destroy, (meets_assign (put q st' s) d p q xs); [done|done|by apply Hh| |].
    + intros _. exists st'. split; [apply store_put|]. pose proof (in_refs _ _ _ (si_str _ I q st Hst)). cbn. lia.
    + intros s' I2 A2 _ _. apply HQ; [done|]. intros A HA0. by apply A2, HA.
Qed.

(** ** Strings as values *)

(** What an instruction does to the values of the slots; an index is its low 32 bits. *)
Definition astep (i : instr) (A : gmap Z (list Z)) : option (gmap Z (list Z)) :=
  match i with
  | Iinsc r v d => xs ← A !! d; if u32 v <=? Z.of_nat (length xs) then Some (<[d := put_char (u32 v) r xs]> A) else None
  | Islicec start v d => xs ← A !! d; if (u32 start <=? u32 v) && (u32 v <=? Z.of_nat (length xs)) then Some (<[d := slice (u32 start) (u32 v) xs]> A) else None
  | Iaddc s m d => xs ← A !! m; ys ← A !! s; Some (<[d := xs ++ ys]> A)
  | Icvtac a d => Some (<[d := match a with None => [] | Some bs => chars_of bs end]> A)
  | Imovp s d => xs ← A !! s; Some (<[d := xs]> A)
  end.
(** The slots of an instruction are strings, a character is 32 bits, an array of
    bytes is of fewer than 2^29; and not the two uses that write out of a block: a
    character that is not ASCII put into an empty string that is not nil, and a string
    added to itself in its own place that no other slot has and that has the room. *)
Definition permitted (s : sst) (i : instr) : Prop :=
  match i with
  | Iinsc r v d => is_Some (slots s !! d) /\ is_rune r /\ wide_ok s d r
  | Islicec start v d => is_Some (slots s !! d)
  | Iaddc a m d => is_Some (slots s !! a) /\ is_Some (slots s !! m) /\ is_Some (slots s !! d) /\ self_ok s a m d
  | Icvtac a d => is_Some (slots s !! d) /\ match a with None => True | Some bs => Forall is_byte bs /\ Z.of_nat (length bs) < 2 ^ 29 end
  | Imovp a d => is_Some (slots s !! a) /\ is_Some (slots s !! d)
  end.
Definition simulates (i : instr) (A : gmap Z (list Z)) (s : sst) : Prop :=
  meets (exec i) s (fun _ s' => exists A', astep i A = Some A' /\ sinv s' /\ abs s' A')
    (fun e s' => (e = exHeap \/ e = exBounds /\ astep i A = None) /\ sinv s' /\ abs s' A).
Lemma u32_bound v : 0 <= u32 v < M32.
Proof. unfold u32, M32. apply Z.mod_pos_bound. lia. Qed.
Lemma u32_u32 v : u32 (u32 v) = u32 v.
Proof. unfold u32. by rewrite Z.mod_mod. Qed.
Lemma insc_u32 r v d : insc r v d = insc r (u32 v) d.
Proof. unfold insc. by rewrite u32_u32. Qed.
Lemma slicec_u32 start v d : slicec start v d = slicec (u32 start) (u32 v) d.
Proof. unfold slicec, slicer. by rewrite !u32_u32. Qed.
Lemma exec_simulates i A s : sinv s -> abs s A -> permitted s i -> simulates i A s.
Proof.
  intros I HA Hp. destruct i as [r v d|start v d|a m d|a d|a d]; unfold simulates, astep; cbn [exec permitted] in *.
  - rewrite insc_u32. pose proof (u32_bound v) as Hv. generalize dependent (u32 v). clear v. intros v Hv. destruct Hp as ([p Hd] & Hr & Hw). destruct (abs_slot s A d p HA Hd) as (xs & EA & Hx). rewrite EA. cbn [mbind option_bind].
    apply (meets_insc s d v r xs Hv Hr) with (p := p); [| | |done|done|done|done].
    + intros Hn s' I' A'. rewrite (proj2 (Z.leb_le _ _)) by done. eexists. split; [done|]. split; [done|by apply A'].
    + intros Hn s' I' A'. split; [right|by split; [|apply A']]. by rewrite (proj2 (Z.leb_gt _ _)) by (unfold in_string in Hn; lia).
    + intros s' I' A'. split; [by left|]. split; [done|by apply A'].
  - rewrite slicec_u32. pose proof (u32_bound v) as Hv. pose proof (u32_bound start) as Hs. generalize dependent (u32 v). generalize dependent (u32 start). clear v start. intros start Hs v Hv.
    destruct Hp as [p Hd]. destruct (abs_slot s A d p HA Hd) as (xs & EA & Hx). rewrite EA. cbn [mbind option_bind].
    assert (Hin : (start <=? v) && (v <=? Z.of_nat (length xs)) = bool_decide (in_slice start v xs)) by (unfold in_slice; case_bool_decide; lia). rewrite Hin.
    apply (meets_slicec s start v d p xs); [done|done|done|done|done| | |].
    + intros Hi s' I' A'. rewrite bool_decide_eq_true_2 by done. eexists. split; [done|]. split; [done|by apply A'].
    + intros Hn. split; [right|done]. by rewrite bool_decide_eq_false_2.
    + intros s' I' S'. split; [by left|]. split; [done|by apply (abs_same s)].
  - destruct Hp as ([p2 Ha] & [p1 Hm] & Hd & Hne). destruct (abs_slot s A m p1 HA Hm) as (xs & EA & Hx). destruct (abs_slot s A a p2 HA Ha) as (ys & EB & Hy).
    rewrite EA, EB. cbn [mbind option_bind]. apply (meets_addc s a m d p1 p2 xs ys); [done|done|done|done|done|done|done| |].
    + intros s' I' A'. eexists. split; [done|]. split; [done|by apply A'].
    + intros s' I' S'. split; [by left|]. split; [done|by apply (abs_same s)].
  - destruct Hp as ([p Hd] & Ha). apply (meets_cvtac s a d p (match a with None => [] | Some bs => chars_of bs end)); [done|done|destruct a; [by destruct Ha|done]| |].
    + intros s' I' A'. eexists. split; [done|]. split; [done|by apply A'].
    + intros s' I' S'. split; [by left|]. split; [done|by apply (abs_same s)].
  - destruct Hp as ([q Ha] & [p Hd]). destruct (abs_slot s A a q HA Ha) as (xs & EA & Hx). rewrite EA. cbn [mbind option_bind].
    apply (meets_movp s a d p q xs); [done|done|done|done|]. intros s' I' A'. eexists. split; [done|]. split; [done|by apply A'].
Qed.

(** C15. The instructions on strings do on the strings in their blocks, shared and
    counted, in bytes or in runes, what they mean on lists of characters: every
    access is within a block, every slot keeps its value but the one assigned, the
    invariant is kept, and an instruction fails only for want of memory, or for an
    index that is not of the string, and then no value changes.  An index counts
    modulo 2^32.  Not of a character that is not ASCII put into an empty string that
    is not nil, nor of a string with room added to itself in its own place, which
    write out of a block, nor of arrays of 2^29 bytes or more. *)
Theorem strings_refine i A s : sinv s -> abs s A -> permitted s i ->
  match exec i s with
  | Ok _ s' => exists A', astep i A = Some A' /\ sinv s' /\ abs s' A'
  | Err e s' => (e = exHeap \/ e = exBounds /\ astep i A = None) /\ sinv s' /\ abs s' A
  | Fault => False
  end.
Proof. apply exec_simulates. Qed.
End Inv.

(** ** What is not permitted *)

Section Overflow.
Context {P : Type} {BP : Blocks P}.
Abbreviation sst := (@sst P).

Lemma cells_length d off n cs : cells d off n = Some cs -> Z.of_nat (length cs) = n.
Proof.
  unfold cells. destruct ((0 <=? off) && (0 <=? n) && (off + n <=? Z.of_nat (length d))) eqn:E; [|done]. intros [= <-]. rewrite length_take, length_drop. lia.
Qed.
Lemma splice_over_end d off cs : Z.of_nat (length d) < off + Z.of_nat (length cs) -> splice d off cs = None.
Proof. intros Hl. unfold splice. by rewrite (proj2 (Z.leb_gt _ _) Hl), andb_false_r. Qed.
(** Runs that fault. *)
Lemma fault_bind {A B} (c : ST sst A) (k : A -> ST sst B) s : c s = Fault -> (c ≫= k) s = Fault.
Proof. intros E. unfold mbind, ST_bind. by rewrite E. Qed.
Lemma run_slot {B} a (k : Z -> ST sst B) p s : slots s !! a = Some p -> (slot a ≫= k) s = k p s.
Proof. intros E. unfold mbind, ST_bind, slot. by rewrite E. Qed.
Lemma run_str {B} p (k : Str -> ST sst B) st s : store s !! p = Some st -> (str_at p ≫= k) s = k st s.
Proof. intros E. unfold mbind, ST_bind, str_at. by rewrite E. Qed.
Lemma run_change {B} p f (k : unit -> ST sst B) st (s : sst) : store s !! p = Some st -> (change p f ≫= k) s = k tt (put p (f st) s).
Proof. intros E. unfold change. unfold mbind, ST_bind, str_at. by rewrite E. Qed.
Lemma write_over p off cs (s : sst) st : store s !! p = Some st -> Z.of_nat (length (s_data st)) < off + Z.of_nat (length cs) -> write p off cs s = Fault.
Proof. intros Hp Hl. unfold write. rewrite (run_str _ _ st) by done. unfold mbind, ST_bind. by rewrite splice_over_end. Qed.
Lemma memmove_over p off q qoff n (s : sst) st : store s !! p = Some st -> is_Some (store s !! q) -> Z.of_nat (length (s_data st)) < off + n -> memmove p off q qoff n s = Fault.
Proof.
  intros Hp [sq Hq] Hl. unfold memmove. rewrite (run_str _ _ sq) by done. destruct (cells (s_data sq) qoff n) as [cs|] eqn:E; [|done].
  apply (write_over p off cs s st Hp). rewrite (cells_length _ _ _ _ E). lia.
Qed.

(** C39. A string that is added to itself in its place, [s += s] with one operand
    of all three, is changed in the middle: addstring takes the new length for
    the number of characters to add.  When the string has room for twice its
    characters and no room for three times, it writes out of the block. *)
Theorem addc_self_overflows d p st (s : sst) : slots s !! d = Some p -> p <> H -> store s !! p = Some st -> s_ref st = 1 ->
  2 * Z.abs (s_len st) <= s_max st -> Z.of_nat (length (s_data st)) < 3 * Z.abs (s_len st) * (if s_len st <? 0 then sizeof_Rune else 1) -> addc d d d s = Fault.
Proof.
  intros Hd Hn Hp Hr Hm Hl. unfold addc. rewrite !(run_slot _ _ p) by done. apply fault_bind. unfold addstring. rewrite Z.eqb_refl, (proj2 (Z.eqb_neq p H)) by done.
  rewrite !(run_str _ _ st) by done. rewrite Hr. cbn [Z.ltb Z.compare Pos.compare Pos.compare_cont negb andb]. unfold sizeof_Rune in *.
  destruct (Z.ltb_spec (s_len st) 0) as [L|L].
  - rewrite (proj2 (Z.leb_le (- s_len st - s_len st) _)) by lia. change (mret p ≫= ?k) with (k p). cbv beta. rewrite (run_change _ _ _ st) by done.
    rewrite (run_str _ _ (with_len (- (- s_len st - s_len st)) st)) by apply store_put. apply fault_bind. cbn [s_len with_len]. rewrite (proj2 (Z.ltb_lt (- _) 0)) by lia.
    eapply memmove_over; [apply store_put|rewrite store_put; by eexists|cbn [s_data with_len]; lia].
  - rewrite (proj2 (Z.leb_le (s_len st + s_len st) _)) by lia. change (mret p ≫= ?k) with (k p). cbv beta. rewrite (run_change _ _ _ st) by done.
    rewrite (run_str _ _ (with_len (s_len st + s_len st) st)) by apply store_put. apply fault_bind. cbn [s_len with_len].
    eapply memmove_over; [apply store_put|rewrite store_put; by eexists|cbn [s_data with_len]; lia].
Qed.

(** insc of [n] times the character [r], from index [v] on. *)
Fixpoint insc_run (n : nat) (r v d : Z) : ST sst unit :=
  match n with
  | O => mret tt
  | Datatypes.S n => insc r v d;; insc_run n r (v + 1) d
  end.
Lemma insc_rune_end r k p st (s : sst) : store s !! p = Some st -> s_ref st = 1 -> k < s_max st ->
  insc_rune p k k r s = match splice (s_data st) (4 * k) (rune_cells r) with Some dd => Ok p (put p (mkStr 1 (- (k + 1)) (s_max st) dd) s) | None => Fault end.
Proof.
  intros Hp Hr Hk. unfold insc_rune. rewrite (run_str _ _ st), Z.ltb_irrefl, Z.eqb_refl, (proj2 (Z.ltb_lt k _)) by done. cbn [andb].
  rewrite (run_change _ _ _ st) by done. unfold set_rune, write, sizeof_Rune. unfold mbind at 1, ST_bind at 1. erewrite run_str by apply store_put. cbn [s_data with_len].
  destruct (splice (s_data st) (4 * k) (rune_cells r)) as [dd|]; [|done].
  match goal with |- _ = Ok p ?b => change (Ok p (put p (with_data dd (with_len (- (k + 1)) st)) (put p (with_len (- (k + 1)) st) s)) = Ok p b) end.
  rewrite put_put. unfold with_data, with_len. cbn. by rewrite Hr.
Qed.
Lemma insc_wide_step r k d p st (s : sst) : slots s !! d = Some p -> p <> H -> store s !! p = Some st -> s_ref st = 1 -> s_len st = - k -> 0 <= k < s_max st -> k < M32 -> 128 <= r ->
  insc r k d s = match splice (s_data st) (4 * k) (rune_cells r) with Some dd => Ok tt (put p (mkStr 1 (- (k + 1)) (s_max st) dd) s) | None => Fault end.
Proof.
  intros Hd Hn Hp Hr Hl Hk Hk2 Hw. unfold insc. assert (Ek : u32 k = k) by int_lia. rewrite Ek. unfold Runeself. rewrite (proj2 (Z.leb_le 128 r)) by done.
  assert (Et : insc_target d true s = Ok (p, false) s).
  { unfold insc_target. rewrite (run_slot _ _ p), (proj2 (Z.eqb_neq p H)), (run_str _ _ st) by done. rewrite Hr, Hl, (proj2 (Z.ltb_ge 0 (- k))) by lia. done. }
  rewrite (bind_ok _ _ _ _ _ Et). cbv iota beta. unfold mbind at 1, ST_bind at 1. rewrite (run_str _ _ st) by done. cbv zeta. rewrite orb_true_r, Hl, Z.opp_involutive, (insc_rune_end r k p st) by (done || lia).
  destruct (splice _ _ _) as [dd|]; [|done]. rewrite (run_slot _ _ p) by done. by rewrite Z.eqb_refl.
Qed.
Lemma splice_length d off cs d' : splice d off cs = Some d' -> length d' = length d.
Proof.
  unfold splice. destruct ((0 <=? off) && (off + Z.of_nat (length cs) <=? Z.of_nat (length d))) eqn:E; [|done]. intros [= <-]. rewrite !length_app, length_take, length_drop. lia.
Qed.

(** C40. A character that is not ASCII put into an empty string that is not nil, as
    one from an empty array of bytes, leaves [max] in bytes, where of runes there
    is room for a quarter: as more follow, insc writes out of the block. *)
Theorem insc_empty_overflows r d p st (s : sst) : slots s !! d = Some p -> p <> H -> store s !! p = Some st -> s_ref st = 1 -> s_len st = 0 ->
  Z.of_nat (length (s_data st)) < 4 * s_max st -> s_max st < M32 -> 128 <= r -> insc_run (Datatypes.S (length (s_data st) / 4)) r 0 d s = Fault.
Proof.
  intros Hd Hn Hp Hr Hl Hm Hm2 Hw. set (n := length (s_data st)) in *. assert (Hgen : forall m k s st, slots s !! d = Some p -> store s !! p = Some st -> s_ref st = 1 -> s_len st = - k -> 0 <= k ->
    length (s_data st) = n -> Z.of_nat n < 4 * s_max st -> s_max st < M32 -> 4 * (k + Z.of_nat m) <= Z.of_nat n < 4 * (k + Z.of_nat m + 1) -> insc_run (Datatypes.S m) r k d s = Fault).
  { clearbody n. clear s st Hd Hp Hr Hl Hm Hm2. intros m. induction m as [|m IH]; intros k s st Hd Hp Hr Hl Hk Hln Hm Hm2 Hn4; cbn [insc_run]; unfold mbind, ST_bind;
      rewrite (insc_wide_step r k d p st s) by (done || lia).
    - rewrite splice_over_end; [done|]. rewrite length_rune_cells. lia.
    - destruct (splice _ _ _) as [dd|] eqn:E; [|done]. apply (IH (k + 1) _ (mkStr 1 (- (k + 1)) (s_max st) dd)); [done|apply store_put|done|done|lia| |done|done|lia].
      cbn. by rewrite (splice_length _ _ _ _ E). }
  apply (Hgen _ 0 s st); try done. pose proof (Nat.div_mod_eq n 4). pose proof (Nat.mod_upper_bound n 4). lia.
Qed.
End Overflow.
