(* ===== verification/StrPool.v ===== *)
(** * Strings in the pool

    The pool allocator keeps what the strings ask of it: poolalloc, poolmsize and
    poolfree of the heap pool, while the host gives no more memory, are an instance
    of [Blocks] that satisfies [BlocksOk].  Then the strings of a small heap, for the
    cases of the other files, and where insc and addc write out of a block. *)

From S2P Require Import Prelude Pool Utf Str StrInv StrNew StrOps StrText.

(** ** The instance *)

Section Instance.
Context (restricted : bool).

(** The host has no memory left: brk fails. *)
Definition pool_blocks : Blocks Pool.Pool := {|
  poolalloc n p := match Pool.poolalloc (fun _ => None) 0 1 restricted n (p, 0) with Ok r st => (r, st.1) | _ => (None, p) end;
  poolmsize p h := Pool.poolmsize p h;
  poolfree p h := (Pool.poolfree p h 0).1;
|}.
#[local] Existing Instance pool_blocks.
(** Arenas below the top of memory, none of 2^28 bytes. *)
Definition arena_small (x : Z * Z) : Prop := 0 <= x.1 /\ x.2 < 2 ^ 63 /\ x.2 - x.1 < 2 ^ 28.
Definition p_ok (p : Pool.Pool) : Prop := pool_ok p /\ Forall (fun l => arena_small (area l)) (arenas p).
Definition p_used (p : Pool.Pool) (h : Z) : Prop := exists b, b ∈ used (arenas p) /\ h = B2D (b_addr b).

Lemma areas_spans ch ch' : spans ch' = spans ch -> Forall (fun l => l <> []) ch -> Forall (fun l => l <> []) ch' -> area <$> ch' = area <$> ch.
Proof.
  revert ch'. induction ch as [|l ch IH]; intros [|l' ch'] E N N'; [done|done|done|]. cbn in E. injection E as E1 E2 E3. cbn. f_equal; [|apply IH; [done|by inversion N|by inversion N']].
  by apply area_eq.
Qed.
Lemma small_spans p p' : pool_ok p -> pool_ok p' -> spans (arenas p') = spans (arenas p) -> Forall (fun l => arena_small (area l)) (arenas p) -> Forall (fun l => arena_small (area l)) (arenas p').
Proof.
  intros HP HP' E Hs. assert (Hn : forall q, pool_ok q -> Forall (fun l => l <> []) (arenas q)).
  { intros q [[A _ _] _ _]. revert A. apply Forall_impl. intros l [_ (x & m & e & -> & _)]. done. }
  apply Forall_map with (f := area). pose proof (areas_spans _ _ E (Hn _ HP) (Hn _ HP')) as Ea. change (map area) with (fmap (M := list) area) in *. rewrite Ea. by apply Forall_map.
Qed.
Lemma p_msize p b : pool_ok p -> b ∈ used (arenas p) -> 0 <= b_addr b -> Pool.poolmsize p (B2D (b_addr b)) = b_size b - BHDRSIZE.
Proof.
  intros HP Hb Ha. unfold Pool.poolmsize. rewrite (proj2 (Z.eqb_neq _ 0)) by (unfold B2D, sizeof_Bhdr; lia). f_equal. unfold block_size.
  replace (D2B (B2D (b_addr b))) with (b_addr b) by (unfold D2B, B2D; lia). rewrite block_found; [done|apply arenas_nodup, HP|]. by apply elem_used in Hb as [_ Hb].
Qed.
Lemma p_block p b : p_ok p -> b ∈ used (arenas p) -> 0 <= b_addr b /\ b_addr b + b_size b < 2 ^ 63 /\ 0 < b_size b < 2 ^ 28.
Proof.
  intros [HP Hs] Hb. destruct (used_within _ b (po_arenas _ HP) Hb) as (l & Hl & H1 & H2 & H3). rewrite Forall_forall in Hs. destruct (Hs l) as (S1 & S2 & S3); [by apply list_elem_of_In|].
  change (pool_quanta + 1) with 128 in H3. lia.
Qed.
(** A block that stays has its size. *)
Lemma p_stays p p' b : p_ok p -> p_ok p' -> b ∈ used (arenas p) -> b ∈ used (arenas p') -> Pool.poolmsize p' (B2D (b_addr b)) = Pool.poolmsize p (B2D (b_addr b)).
Proof. intros H1 H2 B1 B2. destruct (p_block p b H1 B1) as [Ha _]. rewrite !p_msize; [done|apply H1|done|done|apply H2|done|done]. Qed.
Lemma p_alloc n p : p_ok p -> 0 <= n -> let '(r, p') := poolalloc n p in
  p_ok p' /\ spans (arenas p') = spans (arenas p) /\
  match r with None => (used (arenas p') ≡ₚ used (arenas p)) | Some h => exists b, h = B2D (b_addr b) /\ (used (arenas p') ≡ₚ b :: used (arenas p)) /\ (b_addr b ∉ addrs (used (arenas p))) /\ n + BHDRSIZE <= b_size b end.
Proof.
  intros [HP Hs] Hn. cbn [poolalloc pool_blocks Pool.poolalloc]. rewrite (bind_ok _ _ p (p, 0) (p, 0)) by done.
  assert (Hno : forall m, p_ok (mkPool (arenas p) (with_arenasize (fun k => k + m) (pst p)))) by (intros m; split; [by apply grown_ok|done]).
  destruct (_ && restricted); [done|]. destruct (_ <=? n); [done|]. destruct (search _ _ _) as [[a s]|] eqn:Es.
  - cbn. destruct (round_size_ok n Hn) as [Hr _]. destruct HP as [A T C]. pose proof T as (T1 & _ & _).
    destruct (search_ok (root (pst p)) (round_size n) None T1) as [([a' s'] & E & Hin & Has & _)|[E _]]; rewrite E in Es; [|done]. injection Es as -> ->. cbn [snd] in Has.
    destruct (alloc_found_ok p a s (round_size n)) as (b & HP' & [T3 T4 T5 T6 _] & <- & Hbs); [by split|done|unfold BHDRSIZE, sizeof_Bhdr in Hr; lia|].
    split; [split; [done|by apply (small_spans p)]|]. split; [done|]. exists b. split; [done|]. split; [done|]. split; [done|]. lia.
  - destruct (new_size _ _) as [ns|]; [|done]. by split; [apply Hno|].
Qed.
Lemma p_used_cons p p' b h : used (arenas p') ≡ₚ b :: used (arenas p) -> (p_used p' h <-> h = B2D (b_addr b) \/ p_used p h).
Proof.
  intros E. unfold p_used. setoid_rewrite E. setoid_rewrite elem_of_cons. split; [intros (x & [->|Hx] & ->); eauto|intros [->|(x & Hx & ->)]; eauto].
Qed.
Lemma B2D_same x y : B2D x = B2D y -> x = y.
Proof. unfold B2D. lia. Qed.

Lemma p_bound p h : p_ok p -> p_used p h -> poolmsize p h < 2 ^ 28 /\ H2D h <> H.
Proof.
  intros Hp (b & Hb & ->). destruct (p_block p b Hp Hb) as (H1 & H2 & H3). cbn [poolmsize pool_blocks]. rewrite p_msize by (apply Hp || done).
  unfold BHDRSIZE, sizeof_Bhdr, H2D, sizeof_Heap, B2D, sizeof_Bhdr, H, M64. split; lia.
Qed.
Lemma p_alloc_ok n p : p_ok p -> 0 <= n ->
  let '(r, p') := poolalloc n p in
  p_ok p' /\ (forall x, p_used p x -> poolmsize p' x = poolmsize p x) /\
  match r with
  | None => forall x, p_used p' x <-> p_used p x
  | Some h => n <= poolmsize p' h /\ ~ p_used p h /\ forall x, p_used p' x <-> x = h \/ p_used p x
  end.
Proof.
  intros Hp Hn. pose proof (p_alloc n p Hp Hn) as Ha. destruct (poolalloc n p) as [r p']. destruct Ha as (Hp' & _ & Hr). split; [done|].
  assert (Hstay : forall x, p_used p x -> p_used p' x -> Pool.poolmsize p' x = Pool.poolmsize p x).
  { intros x (b & Hb & ->) (b' & Hb' & E). apply B2D_same in E. assert (Hin : b ∈ used (arenas p')) by (destruct r as [h|]; [destruct Hr as (b0 & _ & -> & _); by constructor|by rewrite Hr]). by apply p_stays. }
  destruct r as [h|].
  + destruct Hr as (b & -> & Hu & Hnew & Hs). split; [intros x Hx; apply Hstay; [done|rewrite p_used_cons by done; by right]|].
    assert (Hb : b ∈ used (arenas p')) by (rewrite Hu; constructor). destruct (p_block p' b Hp' Hb) as (H1 & _). split; [cbn [poolmsize pool_blocks]; rewrite p_msize by (apply Hp' || done); lia|].
    split; [|intros x; by apply p_used_cons]. intros (b' & Hb' & E%B2D_same). apply Hnew. rewrite E. by apply list_elem_of_fmap_2.
  + assert (Hiff : forall x, p_used p' x <-> p_used p x) by (intros x; unfold p_used; by setoid_rewrite Hr). split; [|done]. intros x Hx. apply Hstay; [done|by apply Hiff].
Qed.
Lemma p_free_ok p h : p_ok p -> p_used p h ->
  p_ok (poolfree p h) /\ forall x, (p_used (poolfree p h) x <-> x <> h /\ p_used p x) /\ (x <> h -> p_used p x -> poolmsize (poolfree p h) x = poolmsize p x).
Proof.
  intros Hp (b & Hb & ->). pose proof Hp as [HP Hs]. assert (Eb : b_addr b = D2B (B2D (b_addr b))) by (unfold D2B, B2D; lia).
  pose proof (poolfree_ok p (B2D (b_addr b)) 0 b (ar_ok _ (po_arenas _ HP)) (arenas_nodup _ (po_arenas _ HP)) Hb Eb) as Hf. cbn [poolfree pool_blocks].
  destruct (Pool.poolfree p (B2D (b_addr b)) 0) as [p' q]. destruct Hf as ([F1 F2 F3] & Hu & _). cbn [fst]. assert (Hp' : p_ok p') by (split; [by apply F3|by apply (small_spans p); [|apply F3|..]]).
  split; [done|]. intros x. assert (Hnd : b_addr b ∉ addrs (used (arenas p'))).
  { pose proof (arenas_nodup _ (po_arenas _ HP)) as Hnd. assert (Hnu : NoDup (addrs (used (arenas p)))) by (apply (sublist_NoDup _ (addrs (concat (arenas p)))); [done|apply fmap_sublist, sublist_filter]).
    unfold addrs in Hnu. rewrite Hu in Hnu. cbn in Hnu. by apply list.NoDup_cons in Hnu as [Hnu _]. }
  assert (Hiff : p_used p' x <-> x <> B2D (b_addr b) /\ p_used p x).
  { rewrite (p_used_cons p' p b x Hu). split; [|by intros [? [?|?]]]. intros Hx. split; [|by right]. intros ->. destruct Hx as (b' & Hb' & E%B2D_same). apply Hnd. rewrite E. by apply list_elem_of_fmap_2. }
  split; [done|]. intros Hx Hux. destruct (proj2 Hiff (conj Hx Hux)) as (b' & Hb' & ->). apply p_stays; [done|done|by apply F2|done].
Qed.
Definition pool_blocks_ok : BlocksOk Pool.Pool := {| used_bound := p_bound; alloc_ok := p_alloc_ok; free_ok := p_free_ok |}.
End Instance.

(** ** A small heap *)

Section Demo.
#[local] Instance demo_blocks : Blocks Pool.Pool := pool_blocks true.
#[local] Instance demo_blocks_ok : BlocksOk Pool.Pool := pool_blocks_ok true.
Abbreviation sst := (@sst Pool.Pool).

(** Three nil slots, and a pool with one arena and a block of another. *)
Definition none : sst := mkSst ∅ (<[1 := H]> (<[2 := H]> (<[3 := H]> ∅))) pool1.
Definition nothing : gmap Z (list Z) := <[1 := []]> (<[2 := []]> (<[3 := []]> ∅)).
Definition go (i : instr) (s : sst) : sst := match exec i s with Ok _ s' => s' | _ => s end.
Lemma pool1_small : p_ok pool1.
Proof. split; [apply pool1_ok|]. repeat constructor; vm_compute; congruence. Qed.
Lemma none_ok : sinv none /\ abs none nothing.
Proof.
  split.
  - split; [apply pool1_small|done|done|]. intros a p Ha. left. cbn in Ha. by repeat (apply lookup_insert_Some in Ha as [[_ <-]|[_ Ha]]; [done|]).
  - intros a. cbn. unfold nothing. rewrite !lookup_insert. repeat case_decide; try (by left). by rewrite !lookup_empty.
Qed.
Definition ran (i : instr) (s : sst) : bool := match exec i s with Ok _ _ => true | _ => false end.
Lemma go_ok i A A' s : sinv s -> abs s A -> permitted s i -> ran i s = true -> astep i A = Some A' -> sinv (go i s) /\ abs (go i s) A'.
Proof.
  intros I HA Hp Hr Ea. pose proof (exec_simulates i A s I HA Hp) as Hs. unfold simulates, meets, ran, go in *. destruct (exec i s); [|done..].
  destruct Hs as (A2 & E & I' & HA'). by simplify_eq.
Qed.
(** ["hi"] and a euro sign, shared by two slots. *)
Definition hi_euro : list Z := [104; 105; 8364].
Definition bytes2 : sst := go (Icvtac (Some [104; 105]) 1) none.
Definition runes3 : sst := go (Iinsc 8364 2 1) bytes2.
Definition shared : sst := go (Imovp 1 2) runes3.
Definition held : gmap Z (list Z) := <[2 := hi_euro]> (<[1 := hi_euro]> (<[1 := [104; 105]]> nothing)).
Definition wide_okb (s : sst) (d : Z) : bool :=
  match slots s !! d with Some p => match store s !! p with Some st => negb (s_len st =? 0) | None => true end | None => true end.
Lemma wide_okb_ok (s : sst) d r : wide_okb s d = true -> wide_ok s d r.
Proof. unfold wide_okb. intros Hb _ p st Hp Hst. rewrite Hp, Hst in Hb. lia. Qed.
Definition in_slots (s : sst) (d : Z) : bool := bool_decide (is_Some (slots s !! d)).
Lemma may_insc (s : sst) r v d : in_slots s d && (0 <=? r) && (r <? M32) && wide_okb s d = true -> permitted s (Iinsc r v d).
Proof.
  intros (((H1 & H2)%andb_prop & H3)%andb_prop & H4)%andb_prop. apply bool_decide_eq_true in H1.
  split; [done|]. split; [unfold is_rune; lia|by apply wide_okb_ok].
Qed.
Ltac slot_here := eexists; vm_compute; reflexivity.
Lemma shared_ok : sinv shared /\ abs shared held.
Proof.
  destruct none_ok as [I0 A0].
  destruct (go_ok (Icvtac (Some [104; 105]) 1) nothing (<[1 := [104; 105]]> nothing) none I0 A0) as [I1 A1]; [split; [slot_here|split; [by repeat constructor|done]]|vm_compute; reflexivity|vm_compute; reflexivity|].
  destruct (go_ok (Iinsc 8364 2 1) _ (<[1 := hi_euro]> (<[1 := [104; 105]]> nothing)) bytes2 I1 A1) as [I2 A2];
    [apply may_insc; vm_compute; reflexivity|vm_compute; reflexivity|vm_compute; reflexivity|].
  apply (go_ok (Imovp 1 2) _ held runes3 I2 A2); [split; slot_here|vm_compute; reflexivity|vm_compute; reflexivity].
Qed.

(** The string in a slot. *)
Definition in_slot (s : sst) (a : Z) : Z := default H (slots s !! a).
Lemma in_slot_holds (s : sst) A a xs : abs s A -> A !! a = Some xs -> holds s (in_slot s a) xs.
Proof. intros HA Ha. destruct (abs_value s A a xs HA Ha) as (p & Hp & Hx). unfold in_slot. by rewrite Hp. Qed.

(** The second slot gets its own string, of runes like the first. *)
Lemma strings_refine_witness : sinv (go (Iinsc 104 1 2) shared) /\ abs (go (Iinsc 104 1 2) shared) (<[2 := [104; 104; 8364]]> held).
Proof.
  destruct shared_ok as [I A]. pose proof (strings_refine (Iinsc 104 1 2) held shared I A) as Hr. unfold go.
  assert (Hp : permitted shared (Iinsc 104 1 2)) by (apply may_insc; vm_compute; reflexivity). specialize (Hr Hp).
  assert (Er : ran (Iinsc 104 1 2) shared = true) by (vm_compute; reflexivity). unfold ran in Er. destruct (exec (Iinsc 104 1 2) shared) as [u s'|e s'|]; [|done..].
  destruct Hr as (A' & E & I' & HA'). assert (Ea : astep (Iinsc 104 1 2) held = Some (<[2 := [104; 104; 8364]]> held)) by (vm_compute; reflexivity). rewrite Ea in E. injection E as <-. exact (conj I' HA').
Defined.

Definition own : sst := go (Iinsc 104 1 2) shared.
Definition held2 : gmap Z (list Z) := <[2 := [104; 104; 8364]]> held.
Lemma own_ok : sinv own /\ abs own held2.
Proof.
  destruct shared_ok as [I A]. apply (go_ok (Iinsc 104 1 2) held held2 shared I A); [apply may_insc|..]; vm_compute; reflexivity.
Qed.
Lemma stringcmp_lex_witness : exists r, stringcmp (in_slot own 1) (in_slot own 2) own = Ok r own /\ Z.sgn r = 1.
Proof.
  destruct own_ok as [I A]. destruct (stringcmp_lex own (in_slot own 1) (in_slot own 2) hi_euro [104; 104; 8364] I) as (r & E & Hs & _).
  - apply (in_slot_holds own held2); [done|vm_compute; reflexivity].
  - apply (in_slot_holds own held2); [done|vm_compute; reflexivity].
  - exists r. split; [done|]. by rewrite Hs.
Defined.

(** Of an [a], a euro sign, a byte that begins nothing, and the beginning of another
    sign come three characters. *)
Definition stray : list Z := [97; 226; 130; 172; 128; 226; 130].
Lemma c2string_chars_witness : match c2string stray shared with Ok p s' => holds s' p [97; 8364; Runeerror] /\ abs s' held | _ => False end.
Proof.
  destruct shared_ok as [I A]. pose proof (c2string_chars stray shared I ltac:(by repeat constructor) ltac:(done)) as Hc.
  assert (Er : match c2string stray shared with Ok _ _ => true | _ => false end = true) by (vm_compute; reflexivity). destruct (c2string stray shared) as [p s'|e s'|]; [|done..].
  destruct Hc as (_ & _ & Hh & _ & HA). split; [|by apply HA]. replace [97; 8364; Runeerror] with (chars_of stray) by (vm_compute; reflexivity). done.
Defined.
Lemma string_text_roundtrip_witness :
  match (bs ← string2c (in_slot shared 1); q ← c2string (removelast bs); r ← stringcmp (in_slot shared 1) q; mret (bs, q, r)) shared with
  | Ok (bs, q, r) s' => bs = [104; 105; 226; 130; 172; 0] /\ r = 0 /\ holds s' q hi_euro
  | _ => False
  end.
Proof.
  destruct shared_ok as [I A]. assert (Hh : holds shared (in_slot shared 1) hi_euro) by (apply (in_slot_holds shared held); [done|vm_compute; reflexivity]).
  pose proof (string_text_roundtrip (in_slot shared 1) hi_euro shared I Hh ltac:(by repeat constructor)) as Hr.
  assert (Er : match (bs ← string2c (in_slot shared 1); q ← c2string (removelast bs); r ← stringcmp (in_slot shared 1) q; mret (bs, q, r)) shared with Ok _ _ => true | _ => false end = true) by (vm_compute; reflexivity).
  match type of Er with match ?c with _ => _ end = true => destruct c as [[[bs q] r] s'|e s'|] end; [|done..]. destruct Hr as (H1 & H2 & H3 & _). split; [rewrite H1; vm_compute; reflexivity|exact (conj H2 H3)].
Defined.

(** Eleven characters, and none, in the third slot. *)
Definition eleven : sst := go (Icvtac (Some (replicate 11 97)) 3) shared.
Definition empty : sst := go (Icvtac (Some []) 3) shared.
Definition str_in_slot (s : sst) (a : Z) : Str := default snil (store s !! in_slot s a).
Lemma addc_self_overflows_witness : s_len (str_in_slot eleven 3) = 11 /\ addc 3 3 3 eleven = Fault.
Proof.
  split; [vm_compute; reflexivity|]. apply (addc_self_overflows 3 (in_slot eleven 3) (str_in_slot eleven 3)); try (vm_compute; reflexivity); vm_compute; congruence.
Defined.
Lemma insc_empty_overflows_witness : ran (Iinsc 8364 0 3) empty = true /\ insc_run 9 8364 0 3 empty = Fault.
Proof.
  split; [vm_compute; reflexivity|]. assert (El : (length (s_data (str_in_slot empty 3)) / 4 = 8)%nat) by (vm_compute; reflexivity).
  pose proof (insc_empty_overflows 8364 3 (in_slot empty 3) (str_in_slot empty 3) empty) as Ho. rewrite El in Ho. apply Ho; try (vm_compute; reflexivity); vm_compute; congruence.
Defined.
End Demo.
