(* ===== verification/Clean.v ===== *)
(** * Path names (lib9/cleanname.c, and addelem, cleancname of emu/port/chan.c)

    cleanname rewrites a name in its place; the name is a list of bytes with the NUL
    and what room there is after it, the pointers [p], [q] and [dotdot] are indices
    into it, and an access outside is [None].  What it makes of a name is given by
    [clean], on the elements of the name; the two are the same. *)

From S2P Require Import Prelude.

Definition slash : Z := 47.
Definition period : Z := 46.
Definition hash : Z := 35.
Definition SEP (x : Z) : bool := (x =? slash) || (x =? 0).
Definition wr (b : list Z) (i : nat) (c : Z) : option (list Z) :=
  if (i <? length b)%nat then Some (<[i := c]> b) else None.

Record cst : Type := mkCst { buf : list Z; pp : nat; qq : nat; dd : nat; erasedprefix : bool }.

(** [while(--q > dotdot && *q != '/');] *)
Fixpoint backtrack (b : list Z) (q dotdot : nat) : option nat :=
  match q with
  | O => None
  | S q =>
      if (dotdot <? q)%nat then c ← b !! q; if c =? slash then Some q else backtrack b q dotdot
      else Some q
  end.
(** [while(( *q = *p) != '/' && *q != 0) p++, q++;] *)
Fixpoint copy_elem (fuel : nat) (b : list Z) (p q : nat) : option (list Z * nat * nat) :=
  c ← b !! p;
  b ← wr b q c;
  if SEP c then Some (b, p, q)
  else match fuel with O => None | S fuel => copy_elem fuel b (p + 1) (q + 1) end.
(** The body of the loop, [c] at [p]. *)
Definition clean_step (rooted : bool) (c : Z) (st : cst) : option cst :=
  let '(mkCst b p q dotdot e) := st in
  let start := Nat.b2n rooted in
  if c =? slash then Some (mkCst b (p + 1) q dotdot e)
  else
    c1 ← b !! (p + 1)%nat;
    if (c =? period) && SEP c1 then Some (mkCst b (p + 1) q dotdot (if (p =? 0)%nat then true else e))
    else
      up ← (if (c =? period) && (c1 =? period) then c2 ← b !! (p + 2)%nat; Some (SEP c2) else Some false);
      if up : bool then
        bq ← (if (dotdot <? q)%nat then q ← backtrack b q dotdot; Some (b, q, dotdot)
              else if negb rooted then
                bq ← (if negb (q =? 0)%nat then b ← wr b q slash; Some (b, (q + 1)%nat) else Some (b, q));
                b ← wr bq.1 bq.2 period;
                b ← wr b (bq.2 + 1) period;
                Some (b, (bq.2 + 2)%nat, (bq.2 + 2)%nat)
              else Some (b, q, dotdot));
        let '(b, q, dotdot) := bq in
        Some (mkCst b (p + 2) q dotdot (if (q =? 0)%nat then true else e))
      else
        bq ← (if negb (q =? start)%nat then b ← wr b q slash; Some (b, (q + 1)%nat) else Some (b, q));
        '(b, p, q) ← copy_elem (length bq.1) bq.1 p bq.2;
        Some (mkCst b p q dotdot e).
Fixpoint clean_loop (fuel : nat) (rooted : bool) (st : cst) : option cst :=
  c ← buf st !! pp st;
  if c =? 0 then Some st
  else match fuel with
  | O => None
  | S fuel => st ← clean_step rooted c st; clean_loop fuel rooted st
  end.
(** The bytes up to the NUL. *)
Fixpoint cstr (b : list Z) : option (list Z) :=
  match b with
  | [] => None
  | c :: b => if c =? 0 then Some [] else s ← cstr b; Some (c :: s)
  end.
(** [memmove(name+2, name, strlen(name)+1); name[0] = '.'; name[1] = '/';] *)
Definition not_device (b : list Z) : option (list Z) :=
  s ← cstr b;
  if (length s + 3 <=? length b)%nat
  then Some (period :: slash :: s ++ 0 :: drop (length s + 3) b) else None.
Definition cleanname (b : list Z) : option (list Z) :=
  c ← b !! 0%nat;
  let rooted := c =? slash in
  let start := Nat.b2n rooted in
  st ← clean_loop (length b) rooted (mkCst b start start start false);
  bq ← (if (qq st =? 0)%nat then b ← wr (buf st) (qq st) period; Some (b, (qq st + 1)%nat) else Some (buf st, qq st));
  b ← wr bq.1 bq.2 0;
  c ← b !! 0%nat;
  if erasedprefix st && (c =? hash) then not_device b else Some b.

(** ** In terms of elements *)

Definition dot : list Z := [period].
Definition dotdot : list Z := [period; period].
Fixpoint split (s : list Z) : list (list Z) :=
  match s with
  | [] => [[]]
  | c :: s =>
      if c =? slash then [] :: split s
      else match split s with e :: es => (c :: e) :: es | [] => [[c]] end
  end.
(** The elements kept, [k] times up and then [es], and whether all was erased. *)
Record path : Type := mkPath { ups : nat; downs : list (list Z); erased : bool }.
Definition step (rooted : bool) (x : path) (e : list Z) : path :=
  if decide (e = [] \/ e = dot) then x
  else if decide (e = dotdot) then
    match downs x with
    | [] => if rooted then x else mkPath (ups x + 1) [] (erased x)
    | _ => let es := removelast (downs x) in mkPath (ups x) es (erased x || negb rooted && bool_decide (ups x = 0%nat /\ es = []))
    end
  else mkPath (ups x) (downs x ++ [e]) (erased x).
Fixpoint joined (es : list (list Z)) : list Z :=
  match es with
  | [] => []
  | [e] => e
  | e :: es => e ++ slash :: joined es
  end.
Definition shown (rooted : bool) (x : path) : list Z :=
  (if rooted then [slash] else []) ++ joined (replicate (ups x) dotdot ++ downs x).
Definition is_rooted (s : list Z) : bool := match s with c :: _ => c =? slash | [] => false end.
Definition path_of (s : list Z) : path :=
  fold_left (step (is_rooted s)) (split s) (mkPath 0 [] (bool_decide (list.head (split s) = Some dot))).
Definition clean (s : list Z) : list Z :=
  let x := path_of s in
  let r := shown (is_rooted s) x in
  let r := if decide (r = []) then dot else r in
  if erased x && bool_decide (list.head r = Some hash) then period :: slash :: r else r.

(** ** Elements and bytes *)

Definition plain (e : list Z) : Prop := e <> [] /\ Forall (fun c => c <> slash /\ c <> 0) e.
Definition text (s : list Z) : Prop := Forall (fun c => c <> 0) s.
Lemma joined_snoc es e : es <> [] -> joined (es ++ [e]) = joined es ++ slash :: e.
Proof.
  induction es as [|a es IH]; [done|]. intros _. destruct es as [|b es]; [done|].
  change ((a :: b :: es) ++ [e]) with (a :: (b :: es) ++ [e]). specialize (IH ltac:(done)).
  change (joined (a :: (b :: es) ++ [e])) with (a ++ slash :: joined ((b :: es) ++ [e])). rewrite IH. cbn [joined]. by rewrite <- app_assoc.
Qed.
Lemma joined_nil es : Forall plain es -> joined es = [] -> es = [].
Proof. intros Hes E. destruct es as [|e [|e2 es]]; [done| |]; inversion Hes as [|? ? [He _] _]; subst; [done|]. by destruct e. Qed.
Lemma plain_dotdot : plain dotdot.
Proof. by repeat constructor. Qed.
Lemma plain_ups k es : Forall plain es -> Forall plain (replicate k dotdot ++ es).
Proof. intros He. apply Forall_app. split; [|done]. induction k; constructor; [apply plain_dotdot|done]. Qed.
(** What is before the first element, and where nothing more is erased. *)
Definition front (rooted : bool) : list Z := if rooted then [slash] else [].
Definition base (rooted : bool) (k : nat) : list Z := front rooted ++ joined (replicate k dotdot).
Definition path_ok (rooted : bool) (x : path) : Prop := Forall plain (downs x) /\ (rooted = true -> ups x = 0%nat).
Definition nothing (x : path) : Prop := ups x = 0%nat /\ downs x = [].
Lemma shown_front rooted x : path_ok rooted x -> (length (shown rooted x) = Nat.b2n rooted <-> nothing x).
Proof.
  intros [Hd _]. unfold shown, nothing. rewrite length_app. destruct x as [k es e]. cbn in *. split.
  - intros El. assert (Ej : joined (replicate k dotdot ++ es) = []) by (apply length_zero_iff_nil; destruct rooted; cbn in *; lia).
    apply joined_nil in Ej; [|by apply plain_ups]. apply app_eq_nil in Ej as [Ek ->]. by destruct k.
  - intros [-> ->]. by destruct rooted.
Qed.
Lemma shown_down rooted x e : path_ok rooted x ->
  shown rooted (mkPath (ups x) (downs x ++ [e]) (erased x)) = shown rooted x ++ (if bool_decide (nothing x) then [] else [slash]) ++ e.
Proof.
  intros Hx. unfold shown. cbn. rewrite app_assoc. case_bool_decide as Hn.
  - destruct Hn as [-> ->]. cbn. by rewrite app_nil_r.
  - rewrite joined_snoc; [by rewrite <- app_assoc|]. intros [Ek Ee]%app_eq_nil. apply Hn. split; [by destruct (ups x)|done].
Qed.
Lemma shown_base rooted k e : shown rooted (mkPath k [] e) = base rooted k.
Proof. unfold shown, base. cbn. by rewrite app_nil_r. Qed.
Lemma joined_app xs ys : xs <> [] -> ys <> [] -> joined (xs ++ ys) = joined xs ++ slash :: joined ys.
Proof.
  intros Hx Hy. induction xs as [|x xs IH]; [done|]. destruct xs as [|x2 xs]; [by destruct ys|].
  change ((x :: x2 :: xs) ++ ys) with (x :: (x2 :: xs) ++ ys). change (joined (x :: (x2 :: xs) ++ ys)) with (x ++ slash :: joined ((x2 :: xs) ++ ys)).
  rewrite IH by done. change (joined (x :: x2 :: xs)) with (x ++ slash :: joined (x2 :: xs)). by rewrite <- app_assoc.
Qed.
Lemma base_le rooted x : path_ok rooted x -> (length (base rooted (ups x)) <= length (shown rooted x))%nat /\ (length (base rooted (ups x)) = length (shown rooted x) -> downs x = []).
Proof.
  intros [Hp _]. unfold base, shown, front. rewrite !length_app. destruct (decide (downs x = [])) as [->|Hd]; [rewrite app_nil_r; split; [lia|done]|].
  assert (Hj : joined (downs x) <> []) by (intros E; by apply joined_nil in E). assert (Hl : (0 < length (joined (downs x)))%nat) by (destruct (joined (downs x)); [done|cbn; lia]).
  destruct (ups x) as [|k]; [cbn; split; lia|]. rewrite joined_app by done. rewrite !length_app. cbn [length]. split; lia.
Qed.

(** ** Bytes of the buffer *)

Lemma look_at (a : list Z) c r i : i = length a -> (a ++ c :: r) !! i = Some c.
Proof. intros ->. apply list_lookup_middle. done. Qed.
Lemma wr_at a g r c i : i = length a -> wr (a ++ g :: r) i c = Some (a ++ c :: r).
Proof.
  intros ->. unfold wr. rewrite (proj2 (Nat.ltb_lt _ _)) by (rewrite length_app; cbn; lia). f_equal.
  rewrite list.insert_app_r_alt by lia. by rewrite Nat.sub_diag.
Qed.
(** Bytes that are no slash are passed over. *)
Lemma backtrack_over b a w t dotdot : b = a ++ w ++ t -> Forall (fun x => x <> slash) w -> (dotdot < length a)%nat ->
  backtrack b (length a + length w) dotdot = backtrack b (length a) dotdot.
Proof.
  revert t. induction w as [|x w IH] using rev_ind; intros t Eb Hw Hd; [by rewrite Nat.add_0_r|].
  apply Forall_app in Hw as [Hw Hx]. apply Forall_cons_iff in Hx as [Hx _]. rewrite length_app, Nat.add_assoc, Nat.add_1_r. cbn [backtrack].
  rewrite (proj2 (Nat.ltb_lt _ _)) by lia. assert (Ex : b !! (length a + length w)%nat = Some x).
  { rewrite Eb, <- !app_assoc, (app_assoc a w). apply look_at. by rewrite length_app. }
  rewrite Ex. cbn [mbind option_bind]. rewrite (proj2 (Z.eqb_neq x slash)) by done. apply (IH ([x] ++ t)); [by rewrite Eb, <- !app_assoc|done|done].
Qed.
Lemma backtrack_base b a c w t : b = a ++ c :: w ++ t -> Forall (fun x => x <> slash) w -> backtrack b (length a + 1 + length w) (length a) = Some (length a).
Proof.
  intros Eb Hw. pose proof (backtrack_over b (a ++ [c]) w t (length a)) as Ho. rewrite length_app in Ho. cbn [length] in Ho.
  rewrite Ho; [|by rewrite Eb, <- app_assoc|done|lia]. rewrite Nat.add_1_r. cbn [backtrack]. by rewrite Nat.ltb_irrefl.
Qed.
Lemma backtrack_slash b a w t dotdot : b = a ++ slash :: w ++ t -> Forall (fun x => x <> slash) w -> (dotdot < length a)%nat -> backtrack b (length a + 1 + length w) dotdot = Some (length a).
Proof.
  intros Eb Hw Hd. pose proof (backtrack_over b (a ++ [slash]) w t dotdot) as Ho. rewrite length_app in Ho. cbn [length] in Ho.
  rewrite Ho; [|by rewrite Eb, <- app_assoc|done|lia]. rewrite Nat.add_1_r. cbn [backtrack]. rewrite (proj2 (Nat.ltb_lt _ _)) by done.
  rewrite Eb, look_at by done. done.
Qed.
Lemma copy_elem_at w : forall a g c t fuel, Forall (fun x => SEP x = false) w -> SEP c = true -> (length w <= fuel)%nat ->
  exists g', length g' = length g /\
    copy_elem fuel (a ++ g ++ w ++ c :: t) (length a + length g) (length a) = Some (a ++ w ++ g' ++ c :: t, (length a + length g + length w)%nat, (length a + length w)%nat).
Proof.
  induction w as [|x w IH]; intros a g c t fuel Hw Hc Hf.
  - cbn [app length]. rewrite !Nat.add_0_r. destruct g as [|y g].
    + exists []. split; [done|]. cbn [app length]. rewrite Nat.add_0_r. destruct fuel; cbn [copy_elem]; rewrite look_at by done; cbn [mbind option_bind]; rewrite wr_at by done; cbn [mbind option_bind]; by rewrite Hc.
    + exists (c :: g). split; [done|]. assert (Er : (a ++ (y :: g) ++ c :: t) !! (length a + length (y :: g))%nat = Some c) by (rewrite app_assoc; apply look_at; by rewrite length_app).
      destruct fuel; cbn [copy_elem]; rewrite Er; cbn [mbind option_bind app]; rewrite wr_at by done; cbn [mbind option_bind]; by rewrite Hc.
  - apply Forall_cons_iff in Hw as [Hx Hw]. destruct fuel as [|fuel]; [cbn in Hf; lia|]. cbn [copy_elem].
    assert (Er : (a ++ g ++ (x :: w) ++ c :: t) !! (length a + length g)%nat = Some x) by (rewrite app_assoc; apply look_at; by rewrite length_app). rewrite Er. cbn [mbind option_bind].
    assert (Hwr : exists g1, length g1 = length g /\ wr (a ++ g ++ (x :: w) ++ c :: t) (length a) x = Some ((a ++ [x]) ++ g1 ++ w ++ c :: t)).
    { destruct g as [|y g]; [exists []; split; [done|]; cbn [app]; rewrite wr_at by done; by rewrite <- app_assoc|].
      exists (g ++ [x]). split; [rewrite length_app; cbn; lia|]. cbn [app]. rewrite wr_at by done. by rewrite <- !app_assoc. }
    destruct Hwr as (g1 & El & ->). cbn [mbind option_bind]. rewrite Hx.
    destruct (IH (a ++ [x]) g1 c t fuel Hw Hc ltac:(cbn in Hf; lia)) as (g' & El' & E). rewrite length_app, El in E. cbn [length] in E.
    exists g'. split; [lia|]. replace (length a + length g + 1)%nat with (length a + 1 + length g)%nat by lia. rewrite E. cbn [length app]. rewrite <- app_assoc. cbn [app].
    f_equal. f_equal; [f_equal; lia|lia].
Qed.

(** ** A round of the loop *)

Definition ends (t : list Z) : Prop := match t with [] => True | c :: _ => c = slash end.
Lemma step_skip rooted (x : path) : step rooted x [] = x.
Proof. unfold step. by rewrite decide_True by by left. Qed.
Lemma split_elem t : exists w t1 es, t = w ++ t1 /\ Forall (fun c => c <> slash) w /\ ends t1 /\ split t = w :: es /\
  forall rooted (x : path), fold_left (step rooted) es x = fold_left (step rooted) (split t1) x.
Proof.
  induction t as [|c t (w & t1 & es & -> & Hw & He & Hs & Hf)].
  - exists [], [], []. do 4 (split; [done|]). intros rooted x. cbn. by rewrite step_skip.
  - destruct (Z.eqb_spec c slash) as [->|Hc].
    + exists [], (slash :: w ++ t1), (split (w ++ t1)). do 3 (split; [done|]). cbn [split]. rewrite Z.eqb_refl. split; [done|]. intros rooted x. cbn [fold_left]. by rewrite step_skip.
    + exists (c :: w), t1, es. split; [done|]. split; [by constructor|]. split; [done|]. split; [|done]. cbn [app split]. by rewrite (proj2 (Z.eqb_neq c slash)), Hs.
Qed.

(** The loop has made [x] of what it read, and [t] is left. *)
Record at_ (rooted : bool) (x : path) (t rest : list Z) (st : cst) : Prop := {
  at_buf : exists gap, buf st = shown rooted x ++ gap ++ t ++ 0 :: rest /\ pp st = (length (shown rooted x) + length gap)%nat /\ (gap <> [] \/ nothing x \/ ends t);
  at_qq : qq st = length (shown rooted x);
  at_dd : dd st = length (base rooted (ups x));
  at_erased : erasedprefix st = erased x;
  at_ok : path_ok rooted x;
  at_text : text t;
  at_start : pp st = 0%nat -> list.head (split t) <> Some dot;
}.
Lemma ends_sep t1 rest : ends t1 -> exists c r, t1 ++ 0 :: rest = c :: r /\ SEP c = true.
Proof. destruct t1 as [|c t1]; [intros _; by exists 0, rest|]. cbn. intros ->. by exists slash, (t1 ++ 0 :: rest). Qed.
Lemma SEP_false c : c <> slash -> c <> 0 -> SEP c = false.
Proof. intros H1 H2. unfold SEP. by rewrite (proj2 (Z.eqb_neq _ _) H1), (proj2 (Z.eqb_neq _ _) H2). Qed.
Lemma at_move rooted x' t t1 w rest b q d e p : text t -> t = w ++ t1 -> path_ok rooted x' ->
  (exists gap, b = shown rooted x' ++ gap ++ t1 ++ 0 :: rest /\ p = (length (shown rooted x') + length gap)%nat /\ (gap <> [] \/ nothing x' \/ ends t1)) ->
  q = length (shown rooted x') -> d = length (base rooted (ups x')) -> e = erased x' -> p <> 0%nat -> at_ rooted x' t1 rest (mkCst b p q d e).
Proof. intros Ht -> Hok Hb -> -> -> Hp. apply Forall_app in Ht as [_ Ht]. by split. Qed.

Section Round.
Context (rooted : bool) (x : path) (t rest : list Z) (st : cst) (A : at_ rooted x t rest st).

Lemma round_skip t1 e' : t = slash :: t1 \/ (exists r, t = period :: t1 /\ t1 ++ 0 :: rest = r) -> e' = erased x -> at_ rooted x t1 rest (mkCst (buf st) (pp st + 1) (qq st) (dd st) e').
Proof.
  intros Ht ->. destruct (at_buf _ _ _ _ _ A) as (gap & Eb & Ep & _). assert (Hc : exists c, t = c :: t1) by (destruct Ht as [->|(r & -> & _)]; by eexists). destruct Hc as [c Ec].
  apply (at_move rooted x t t1 [c]); [apply A|done|apply A| |apply A|apply A|done|lia].
  exists (gap ++ [c]). rewrite length_app, Eb, Ec, <- app_assoc. split; [done|]. split; [cbn; lia|]. left. by destruct gap.
Qed.
(** An element that is kept. *)
Lemma round_down w t1 : t = w ++ t1 -> ends t1 -> plain w -> w <> dot -> w <> dotdot ->
  exists st1, (bq ← (if negb (qq st =? Nat.b2n rooted)%nat then b ← wr (buf st) (qq st) slash; Some (b, (qq st + 1)%nat) else Some (buf st, qq st));
      '(b, p, q) ← copy_elem (length bq.1) bq.1 (pp st) bq.2; Some (mkCst b p q (dd st) (erasedprefix st))) = Some st1 /\ at_ rooted (step rooted x w) t1 rest st1.
Proof.
  intros Et Hends [Hw0 Hw] Hd Hdd. destruct (at_buf _ _ _ _ _ A) as (gap & Eb & Ep & Hgap). pose proof (at_ok _ _ _ _ _ A) as Hok. destruct (ends_sep t1 rest Hends) as (c & r & Ecr & Hc).
  assert (Hw' : Forall (fun x => SEP x = false) w) by (revert Hw; apply Forall_impl; intros y [H1 H2]; by apply SEP_false).
  assert (Estep : step rooted x w = mkPath (ups x) (downs x ++ [w]) (erased x)) by (unfold step; rewrite decide_False by (intros [?|?]; done); by rewrite decide_False).
  assert (Hok' : path_ok rooted (step rooted x w)).
  { rewrite Estep. destruct Hok as [H1 H2]. split; [|done]. apply Forall_app. split; [done|]. constructor; [by split|constructor]. }
  set (sl := if bool_decide (nothing x) then [] else [slash]). assert (Hsl : exists gap', (if negb (qq st =? Nat.b2n rooted)%nat then b ← wr (buf st) (qq st) slash; Some (b, (qq st + 1)%nat) else Some (buf st, qq st)) =
      Some ((shown rooted x ++ sl) ++ gap' ++ w ++ c :: r, length (shown rooted x ++ sl)) /\ pp st = (length (shown rooted x ++ sl) + length gap')%nat).
  { assert (Hq : (qq st =? Nat.b2n rooted)%nat = bool_decide (nothing x)).
    { rewrite (at_qq _ _ _ _ _ A). case_bool_decide as Hn; [apply Nat.eqb_eq|apply Nat.eqb_neq; intros Hn']; [by apply shown_front|by apply Hn, (shown_front rooted)]. }
    rewrite Hq. unfold sl. rewrite Eb, Et, <- (app_assoc w), Ecr. case_bool_decide as Hn; cbn [negb].
    - exists gap. rewrite app_nil_r. by rewrite (at_qq _ _ _ _ _ A).
    - destruct Hgap as [Hgap|[?|Hgap]]; [|done|].
      + destruct gap as [|g gap]; [done|]. exists gap. cbn [app]. rewrite wr_at by apply A. cbn [mbind option_bind]. rewrite <- app_assoc. cbn [app]. rewrite length_app, (at_qq _ _ _ _ _ A). split; [done|].
        rewrite Ep. cbn. lia.
      + rewrite Et in Hgap. destruct w as [|y w]; [done|]. cbn in Hgap. apply Forall_cons_iff in Hw as [[? _] _]. done. }
  destruct Hsl as (gap' & -> & Ep'). cbn [mbind option_bind fst snd].
  destruct (copy_elem_at w (shown rooted x ++ sl) gap' c r (length ((shown rooted x ++ sl) ++ gap' ++ w ++ c :: r)) Hw' Hc) as (g2 & El2 & E2); [rewrite !length_app; lia|].
  rewrite Ep', E2. cbn [mbind option_bind]. eexists. split; [done|].
  assert (Esh : shown rooted (step rooted x w) = (shown rooted x ++ sl) ++ w) by (rewrite Estep; etransitivity; [exact (shown_down rooted x w Hok)|by rewrite <- app_assoc]).
  apply (at_move rooted _ t t1 w); [apply A|exact Et|exact Hok'| | | | |].
  - exists g2. rewrite Esh, Ecr. split; [by rewrite <- !app_assoc|]. split; [rewrite (length_app _ w); lia|by right; right].
  - rewrite Esh. symmetry. apply length_app.
  - rewrite Estep. apply A.
  - rewrite Estep. apply A.
  - destruct w; [done|cbn; lia].
Qed.
(** Up from an element that is kept. *)
Lemma backtrack_down es e r : downs x = es ++ [e] -> backtrack (shown rooted x ++ r) (length (shown rooted x)) (length (base rooted (ups x))) = Some (length (shown rooted (mkPath (ups x) es (erased x)))).
Proof.
  intros Ed. set (x0 := mkPath (ups x) es (erased x)). pose proof (at_ok _ _ _ _ _ A) as [Hp Hr]. rewrite Ed in Hp. apply Forall_app in Hp as [Hes He]. apply Forall_cons_iff in He as [[He0 He] _].
  assert (Hok0 : path_ok rooted x0) by (by split). assert (Hw : Forall (fun c => c <> slash) e) by (revert He; apply Forall_impl; by intros c [? _]).
  assert (Esh : shown rooted x = shown rooted x0 ++ (if bool_decide (nothing x0) then [] else [slash]) ++ e) by (rewrite <- (shown_down rooted x0 e Hok0); destruct x; cbn in *; by rewrite Ed).
  destruct (base_le rooted x0 Hok0) as [Hle Heq]. change (ups x) with (ups x0). rewrite Esh. case_bool_decide as Hn.
  - assert (El : length (base rooted (ups x0)) = length (shown rooted x0)) by (destruct Hn as [En Ee]; unfold base, shown; rewrite En, Ee; done). rewrite El. destruct e as [|c w]; [done|]. apply Forall_cons_iff in Hw as [_ Hw].
    rewrite !length_app. cbn [length app]. replace (length (shown rooted x0) + (0 + Datatypes.S (length w)))%nat with (length (shown rooted x0) + 1 + length w)%nat by lia.
    apply (backtrack_base _ _ c w r); [by rewrite <- app_assoc|done].
  - rewrite !length_app. cbn [length app]. replace (length (shown rooted x0) + (1 + length e))%nat with (length (shown rooted x0) + 1 + length e)%nat by lia.
    destruct (decide (length (base rooted (ups x0)) = length (shown rooted x0))) as [El|Nl].
    + rewrite El. apply (backtrack_base _ _ slash e r); [by rewrite <- !app_assoc|done].
    + apply (backtrack_slash _ _ e r); [by rewrite <- !app_assoc|done|lia].
Qed.
Definition up_dots : option (list Z * nat * nat) :=
  bq ← (if negb (qq st =? 0)%nat then b ← wr (buf st) (qq st) slash; Some (b, (qq st + 1)%nat) else Some (buf st, qq st));
  b ← wr bq.1 bq.2 period;
  b ← wr b (bq.2 + 1) period;
  Some (b, (bq.2 + 2)%nat, (bq.2 + 2)%nat).
Definition up_body : option (list Z * nat * nat) :=
  if (dd st <? qq st)%nat then q ← backtrack (buf st) (qq st) (dd st); Some (buf st, q, dd st)
  else if negb rooted then up_dots
  else Some (buf st, qq st, dd st).
Lemma up_result t1 x' b q d : t = dotdot ++ t1 -> path_ok rooted x' -> (exists gap, b = shown rooted x' ++ gap ++ t1 ++ 0 :: rest /\ (pp st + 2 = length (shown rooted x') + length gap)%nat /\ (gap <> [] \/ nothing x' \/ ends t1)) ->
  q = length (shown rooted x') -> d = length (base rooted (ups x')) -> (if (q =? 0)%nat then true else erased x) = erased x' ->
  at_ rooted x' t1 rest (mkCst b (pp st + 2) q d (if (q =? 0)%nat then true else erasedprefix st)).
Proof.
  intros Et Hok Hb Hq Hd He. apply (at_move rooted x' t t1 dotdot); [apply A|exact Et|done|done|done|done| |lia]. by rewrite (at_erased _ _ _ _ _ A).
Qed.
Lemma round_up_down t1 es e : t = dotdot ++ t1 -> ends t1 -> downs x = es ++ [e] ->
  exists b q d, up_body = Some (b, q, d) /\ at_ rooted (step rooted x dotdot) t1 rest (mkCst b (pp st + 2) q d (if (q =? 0)%nat then true else erasedprefix st)).
Proof.
  intros Et Hends Ed. destruct (at_buf _ _ _ _ _ A) as (gap & Eb & Ep & _). pose proof (at_ok _ _ _ _ _ A) as [Hp Hr]. destruct (base_le rooted x (at_ok _ _ _ _ _ A)) as [Hle Heq].
  set (x0 := mkPath (ups x) es (erased x)). assert (Hx0 : path_ok rooted x0) by (split; [rewrite Ed in Hp; by apply Forall_app in Hp as [Hp _]|done]).
  assert (Estep : step rooted x dotdot = mkPath (ups x) es (erased x || negb rooted && bool_decide (ups x = 0%nat /\ es = []))).
  { unfold step. rewrite decide_False by (intros [?|?]; done). rewrite decide_True by done. rewrite Ed. destruct (es ++ [e]) as [|y l] eqn:El; [by destruct es|]. rewrite <- El. by rewrite removelast_last. }
  assert (Esh : shown rooted (step rooted x dotdot) = shown rooted x0) by (by rewrite Estep). unfold up_body. rewrite (at_dd _ _ _ _ _ A), (at_qq _ _ _ _ _ A).
  rewrite (proj2 (Nat.ltb_lt _ _)) by (destruct (decide (length (base rooted (ups x)) = length (shown rooted x))) as [El|]; [apply Heq in El; rewrite El in Ed; by destruct es|lia]).
  rewrite Eb, (backtrack_down es e _ Ed). cbn [mbind option_bind]. do 3 eexists. split; [done|]. fold x0.
  assert (Hpre : exists y, shown rooted x = shown rooted x0 ++ y) by (eexists; assert (Ex : x = mkPath (ups x0) (downs x0 ++ [e]) (erased x0)) by (destruct x; cbn in *; by rewrite Ed); rewrite Ex at 1; exact (shown_down rooted x0 e Hx0)).
  destruct Hpre as [y Ey]. apply up_result; [exact Et| | |by rewrite Esh|by rewrite Estep|].
  - rewrite Estep. exact Hx0.
  - exists (y ++ gap ++ dotdot). rewrite Esh, Ey, Et. split; [by rewrite <- !app_assoc|]. rewrite Ep, Ey, !length_app. split; [cbn; lia|]. left. intros En. apply app_eq_nil in En as [_ En]. apply app_eq_nil in En as [_ En]. done.
  - rewrite Estep. cbn [erased]. destruct (Nat.eqb_spec (length (shown rooted x0)) 0) as [E0|N0].
    + assert (Hrt : rooted = false) by (destruct rooted; [unfold shown in E0; rewrite length_app in E0; cbn in E0; lia|done]).
      assert (Hn : nothing x0) by (apply (shown_front rooted x0 Hx0); rewrite E0, Hrt; done). destruct Hn as [Hn1 Hn2]. rewrite bool_decide_eq_true_2 by done. rewrite Hrt. by rewrite orb_true_r.
    + destruct rooted eqn:Er; [by rewrite orb_false_r|]. rewrite bool_decide_eq_false_2; [by rewrite orb_false_r|]. intros Hn. apply N0. by apply (proj2 (shown_front false x0 Hx0)).
Qed.
(** Up from where nothing is left. *)
Lemma wr_two (a : list Z) g1 g2 r i : i = length a -> (b ← wr (a ++ g1 :: g2 :: r) i period; b ← wr b (i + 1) period; Some b) = Some ((a ++ dotdot) ++ r).
Proof.
  intros ->. rewrite wr_at by done. cbn [mbind option_bind]. replace (a ++ period :: g2 :: r) with ((a ++ [period]) ++ g2 :: r) by (by rewrite <- app_assoc).
  rewrite wr_at by (rewrite length_app; done). cbn [mbind option_bind]. by rewrite <- !app_assoc.
Qed.
Lemma base_up rooted' k : base rooted' (k + 1) = base rooted' k ++ (if bool_decide (k = 0%nat) then [] else [slash]) ++ dotdot.
Proof.
  unfold base. rewrite replicate_add. cbn [replicate]. destruct k as [|k]; [cbn; by rewrite app_nil_r|].
  etransitivity; [apply (f_equal (app (front rooted'))), joined_snoc; done|]. rewrite bool_decide_eq_false_2 by done. by rewrite <- app_assoc.
Qed.
Lemma up_dots_ok gap t1 k : buf st = shown rooted x ++ gap ++ t ++ 0 :: rest -> t = dotdot ++ t1 -> qq st = length (base rooted k) -> shown rooted x = base rooted k ->
  (qq st =? 0)%nat = bool_decide (k = 0%nat) -> (k <> 0%nat -> gap <> []) ->
  exists gap', up_dots = Some (base rooted (k + 1) ++ gap' ++ t1 ++ 0 :: rest, length (base rooted (k + 1)), length (base rooted (k + 1))) /\
    (length (base rooted k) + length gap + 2 = length (base rooted (k + 1)) + length gap')%nat.
Proof.
  intros Eb Et Eq Esh Hq Hgap. unfold up_dots. rewrite Hq, Eq, Eb, Et, Esh. set (tl := t1 ++ 0 :: rest). replace (gap ++ (dotdot ++ t1) ++ 0 :: rest) with ((gap ++ dotdot) ++ tl) by (unfold tl; by rewrite <- !app_assoc).
  case_bool_decide as Hk; cbn [negb].
  - assert (Hg : exists g1 g2 gap', gap ++ dotdot = g1 :: g2 :: gap' /\ length gap = length gap'). { destruct gap as [|g1 [|g2 gap]]; [by exists period, period, []|by exists g1, period, [period]|exists g1, g2, (gap ++ dotdot); split; [done|rewrite length_app; cbn; lia]]. }
    destruct Hg as (g1 & g2 & gap' & Eg & El). exists gap'. cbn [mbind option_bind fst snd]. rewrite Eg. cbn [app]. pose proof (wr_two (base rooted k) g1 g2 (gap' ++ tl) _ eq_refl) as Hw. rewrite base_up, bool_decide_eq_true_2 by done. cbn [app].
    revert Hw. destruct (wr _ _ _) as [b1|]; [|done]. cbn [mbind option_bind]. destruct (wr b1 _ _) as [b2|]; [|done]. cbn [mbind option_bind]. intros [= ->]. rewrite length_app. cbn [length dotdot]. split; [by rewrite <- app_assoc|]. lia.
  - assert (Hg' : exists g0 g1 g2 gap', gap ++ dotdot = g0 :: g1 :: g2 :: gap' /\ (length gap = length gap' + 1)%nat).
    { destruct gap as [|g0 [|g1 [|g2 gap]]]; [by destruct (Hgap Hk)|by exists g0, period, period, []|by exists g0, g1, period, [period]|exists g0, g1, g2, (gap ++ dotdot); split; [done|rewrite length_app; cbn; lia]]. }
    destruct Hg' as (g0 & g1 & g2 & gap' & Eg & El). exists gap'. rewrite Eg. cbn [app]. rewrite wr_at by done. cbn [mbind option_bind fst snd].
    replace (base rooted k ++ slash :: g1 :: g2 :: gap' ++ tl) with ((base rooted k ++ [slash]) ++ g1 :: g2 :: gap' ++ tl) by (by rewrite <- app_assoc).
    pose proof (wr_two (base rooted k ++ [slash]) g1 g2 (gap' ++ tl) (length (base rooted k) + 1)) as Hw. rewrite length_app in Hw. specialize (Hw eq_refl). rewrite base_up, bool_decide_eq_false_2 by done.
    revert Hw. destruct (wr _ _ _) as [b1|]; [|done]. cbn [mbind option_bind]. destruct (wr b1 _ _) as [b2|]; [|done]. cbn [mbind option_bind]. intros [= ->]. rewrite !length_app. cbn [length dotdot app]. rewrite <- !app_assoc. cbn [app].
    rewrite Nat.add_assoc. split; [done|]. lia.
Qed.
Lemma round_up_base t1 : t = dotdot ++ t1 -> ends t1 -> downs x = [] ->
  exists b q d, up_body = Some (b, q, d) /\ at_ rooted (step rooted x dotdot) t1 rest (mkCst b (pp st + 2) q d (if (q =? 0)%nat then true else erasedprefix st)).
Proof.
  intros Et Hends Ed. destruct (at_buf _ _ _ _ _ A) as (gap & Eb & Ep & Hgap). pose proof (at_ok _ _ _ _ _ A) as [Hp Hr].
  assert (Ex : x = mkPath (ups x) [] (erased x)) by (destruct x; cbn in *; by rewrite Ed). assert (Esh : shown rooted x = base rooted (ups x)) by (rewrite Ex; apply shown_base).
  assert (Estep : step rooted x dotdot = if rooted then x else mkPath (ups x + 1) [] (erased x)).
  { unfold step. rewrite decide_False by (intros [?|?]; done). rewrite decide_True by done. by rewrite Ed. }
  set (k := ups x) in *. assert (Eub : up_body = if negb rooted then up_dots else Some (buf st, qq st, dd st)) by (unfold up_body; by rewrite (at_dd _ _ _ _ _ A), (at_qq _ _ _ _ _ A), Esh, Nat.ltb_irrefl).
  rewrite Eub. destruct (decide (rooted = true)) as [Er|Er%not_true_is_false].
  - exists (buf st), (qq st), (dd st). split; [by rewrite Er|]. assert (Es : step rooted x dotdot = x) by (by rewrite Estep, Er). rewrite Es. apply (up_result t1 x); [exact Et|by split| |apply A|apply A|].
    + exists (gap ++ dotdot). rewrite Eb, Et. split; [by rewrite <- !app_assoc|]. rewrite Ep, length_app. split; [cbn; lia|]. left. by intros [_ ?]%app_eq_nil.
    + rewrite (at_qq _ _ _ _ _ A). unfold shown. rewrite Er, length_app. done.
  - assert (Hq : (qq st =? 0)%nat = bool_decide (k = 0%nat)).
    { pose proof (shown_front rooted x (at_ok _ _ _ _ _ A)) as Hf. rewrite (at_qq _ _ _ _ _ A). rewrite Er in Hf at 2. cbn in Hf. case_bool_decide as Hk; [apply Nat.eqb_eq, Hf; by split|apply Nat.eqb_neq; intros Hn; apply Hf in Hn as [? _]; done]. }
    destruct (up_dots_ok gap t1 k Eb Et) as (gap' & Eu & El); [by rewrite (at_qq _ _ _ _ _ A), Esh|done|done| |].
    { intros Hk ->. destruct Hgap as [?|[[? _]|Hg]]; [done|done|rewrite Et in Hg; done]. }
    exists (base rooted (k + 1) ++ gap' ++ t1 ++ 0 :: rest), (length (base rooted (k + 1))), (length (base rooted (k + 1))).
    split; [transitivity up_dots; [by rewrite Er|exact Eu]|]. assert (Es : step rooted x dotdot = mkPath (k + 1) [] (erased x)) by (by rewrite Estep, Er). rewrite Es. apply (up_result t1); [exact Et|split; [constructor|cbn; congruence]| | |done|].
    + exists gap'. rewrite shown_base. split; [done|]. rewrite Ep, Esh. split; [lia|by right; right].
    + by rewrite shown_base.
    + cbn [erased]. rewrite base_up, !length_app. cbn [length dotdot]. by rewrite (proj2 (Nat.eqb_neq _ 0)) by lia.
Qed.
End Round.
Section Loop.
Context (rooted : bool).

Lemma look_in x t rest st i : at_ rooted x t rest st -> buf st !! (pp st + i)%nat = (t ++ 0 :: rest) !! i.
Proof.
  intros A. destruct (at_buf _ _ _ _ _ A) as (gap & -> & -> & _). rewrite app_assoc. rewrite list.lookup_app_r by (rewrite length_app; lia). f_equal. rewrite length_app. lia.
Qed.
Lemma clean_step_up x t rest st t1 : at_ rooted x t rest st -> t = dotdot ++ t1 -> ends t1 ->
  clean_step rooted period st = ('(b, q, d) ← up_body rooted st; Some (mkCst b (pp st + 2) q d (if (q =? 0)%nat then true else erasedprefix st))).
Proof.
  intros A Et Hends. pose proof (look_in x t rest st 1 A) as H1. pose proof (look_in x t rest st 2 A) as H2. rewrite Et in H1, H2. destruct (ends_sep t1 rest Hends) as (c & r & Ec & Hc).
  rewrite <- app_assoc, Ec in H1, H2. cbn in H1, H2. destruct st as [b p q d e]. cbn [buf pp qq dd erasedprefix] in *. unfold clean_step, up_body, up_dots. cbn [buf pp qq dd erasedprefix].
  rewrite H1. cbn [mbind option_bind]. change (SEP period) with false. rewrite H2. cbn [mbind option_bind]. rewrite Hc. cbn. done.
Qed.
Lemma clean_step_down x t rest st c w t1 : at_ rooted x t rest st -> t = (c :: w) ++ t1 -> ends t1 -> plain (c :: w) -> c :: w <> dot -> c :: w <> dotdot ->
  clean_step rooted c st = (bq ← (if negb (qq st =? Nat.b2n rooted)%nat then b ← wr (buf st) (qq st) slash; Some (b, (qq st + 1)%nat) else Some (buf st, qq st));
      '(b, p, q) ← copy_elem (length bq.1) bq.1 (pp st) bq.2; Some (mkCst b p q (dd st) (erasedprefix st))).
Proof.
  intros A Et Hends [_ Hw] Hd Hdd. pose proof (look_in x t rest st 1 A) as H1. pose proof (look_in x t rest st 2 A) as H2. rewrite Et in H1, H2. destruct (ends_sep t1 rest Hends) as (s & r & Es & Hs).
  rewrite <- app_assoc, Es in H1, H2. destruct st as [b p q d e]. cbn [buf pp qq dd erasedprefix] in *. unfold clean_step. apply Forall_cons_iff in Hw as [[Hc Hc0] Hw]. rewrite (proj2 (Z.eqb_neq c slash)) by done.
  destruct w as [|c1 w]; cbn in H1, H2; rewrite H1; cbn [mbind option_bind].
  - assert (Hp : (c =? period) = false) by (apply Z.eqb_neq; intros ->; by apply Hd). by rewrite Hp.
  - apply Forall_cons_iff in Hw as [[Hc1 Hc10] Hw]. rewrite (SEP_false c1), andb_false_r by done. destruct w as [|c2 w]; cbn in H2.
    + assert (Hp : (c =? period) && (c1 =? period) = false) by (apply andb_false_iff; destruct (Z.eqb_spec c period) as [->|]; [right; apply Z.eqb_neq; intros ->; by apply Hdd|by left]). by rewrite Hp.
    + apply Forall_cons_iff in Hw as [[Hc2 Hc20] Hw]. rewrite H2. cbn [mbind option_bind]. rewrite (SEP_false c2) by done. by destruct (_ && _).
Qed.
Lemma clean_round x c t rest st : at_ rooted x (c :: t) rest st ->
  exists st1 t1 x1, clean_step rooted c st = Some st1 /\ at_ rooted x1 t1 rest st1 /\ (length t1 <= length t)%nat /\
    fold_left (step rooted) (split (c :: t)) x = fold_left (step rooted) (split t1) x1.
Proof.
  intros A. destruct (split_elem (c :: t)) as (w & t1 & es & Et & Hw & Hends & Hs & Hf). pose proof (at_text _ _ _ _ _ A) as Htx. rewrite Et in Htx. apply Forall_app in Htx as [Hwx _].
  assert (Hskip : forall t2, c :: t = c :: t2 -> c = slash \/ c = period -> at_ rooted x t2 rest (mkCst (buf st) (pp st + 1) (qq st) (dd st) (erasedprefix st))).
  { intros t2 E Hc. apply (round_skip rooted x (c :: t) rest st A); [destruct Hc as [->| ->]; [left; done|right; eexists; split; done]|apply A]. }
  destruct w as [|c' w].
  - destruct t1 as [|c' t1]; [done|]. cbn in Et, Hends. injection Et as -> ->. subst c'. exists (mkCst (buf st) (pp st + 1) (qq st) (dd st) (erasedprefix st)), t1, x.
    split; [by destruct st|]. split; [apply Hskip; [done|by left]|]. split; [done|]. cbn [split]. rewrite Z.eqb_refl. cbn [fold_left]. by rewrite step_skip.
  - cbn in Et. injection Et as <- Et. destruct (decide (c :: w = dot)) as [Ed|Hd]; [|destruct (decide (c :: w = dotdot)) as [Edd|Hdd]].
    + injection Ed as -> ->. cbn in Et. subst t1. destruct (decide (pp st = 0%nat)) as [E0|N0]; [exfalso; apply (at_start _ _ _ _ _ A E0); by rewrite Hs|].
      exists (mkCst (buf st) (pp st + 1) (qq st) (dd st) (erasedprefix st)), t, x. split.
      { pose proof (look_in x _ rest st 1 A) as H1. destruct (ends_sep t rest Hends) as (s & r & Es & Hsp). cbn [app] in H1. rewrite Es in H1. cbn in H1.
        destruct st as [b p q d e]. cbn [buf pp] in *. unfold clean_step. cbn [Z.eqb]. change (period =? slash) with false. rewrite H1. cbn [mbind option_bind]. rewrite Z.eqb_refl, Hsp. cbn. by rewrite (proj2 (Nat.eqb_neq p 0)). }
      split; [apply Hskip; [done|by right]|]. split; [done|]. rewrite Hs. cbn [fold_left]. rewrite Hf. unfold step at 2. by rewrite decide_True by by right.
    + injection Edd as -> ->. assert (Et2 : period :: t = dotdot ++ t1) by (by rewrite Et). rewrite (clean_step_up x _ rest st t1 A Et2 Hends).
      assert (Hup : exists b q d, up_body rooted st = Some (b, q, d) /\ at_ rooted (step rooted x dotdot) t1 rest (mkCst b (pp st + 2) q d (if (q =? 0)%nat then true else erasedprefix st))).
      { destruct (downs x) as [|y l] eqn:Ed using rev_ind; [by apply (round_up_base rooted x _ rest st A)|]. by apply (round_up_down rooted x _ rest st A t1 l y). }
      destruct Hup as (b & q & d & -> & A1). do 3 eexists. split; [reflexivity|]. split; [exact A1|]. split; [rewrite Et; cbn; lia|]. rewrite Hs. cbn [fold_left]. by rewrite Hf.
    + assert (Hpl : plain (c :: w)) by (split; [done|]; apply Forall_and; done). assert (Et2 : c :: t = (c :: w) ++ t1) by (by rewrite Et).
      rewrite (clean_step_down x _ rest st c w t1 A Et2 Hends Hpl Hd Hdd). destruct (round_down rooted x _ rest st A (c :: w) t1 Et2 Hends Hpl Hd Hdd) as (st1 & -> & A1).
      do 3 eexists. split; [reflexivity|]. split; [exact A1|]. split; [rewrite Et, length_app; lia|]. rewrite Hs. cbn [fold_left]. by rewrite Hf.
Qed.
Lemma clean_loop_ok n : forall x t rest st fuel, (length t <= n)%nat -> (n <= fuel)%nat -> at_ rooted x t rest st ->
  exists st', clean_loop fuel rooted st = Some st' /\ at_ rooted (fold_left (step rooted) (split t) x) [] rest st'.
Proof.
  induction n as [|n IH]; intros x t rest st fuel Hl Hf A; pose proof (look_in x t rest st 0 A) as H0; rewrite Nat.add_0_r in H0; destruct t as [|c t]; cbn in H0.
  1,3: exists st; (split; [destruct fuel; cbn [clean_loop]; by rewrite H0|]); cbn [split fold_left]; by rewrite step_skip.
  { cbn in Hl. lia. }
  assert (Hc : (c =? 0) = false) by (apply Z.eqb_neq; pose proof (at_text _ _ _ _ _ A) as Ht; by apply Forall_cons_iff in Ht as [? _]).
  destruct fuel as [|fuel]; [lia|]. destruct (clean_round x c t rest st A) as (st1 & t1 & x1 & E1 & A1 & Hl1 & Ef).
  destruct (IH x1 t1 rest st1 fuel) as (st' & E' & A'); [cbn in Hl; lia|lia|done|]. exists st'. split; [|by rewrite Ef]. cbn [clean_loop]. rewrite H0. cbn [mbind option_bind]. rewrite Hc, E1. done.
Qed.
End Loop.

(** ** The elements that are kept *)

Definition kept (e : list Z) : Prop := plain e /\ e <> dot /\ e <> dotdot.
Definition good (rooted : bool) (x : path) : Prop := Forall kept (downs x) /\ (rooted = true -> ups x = 0%nat).
Lemma good_ok rooted x : good rooted x -> path_ok rooted x.
Proof. intros [Hk Hr]. split; [|done]. revert Hk. apply Forall_impl. by intros e [? _]. Qed.
Definition clear (e : list Z) : Prop := Forall (fun c => c <> slash /\ c <> 0) e.
Lemma split_clear s : text s -> Forall clear (split s) /\ split s <> [].
Proof.
  induction 1 as [|c s Hc Hs [IH Hn]]; [by repeat constructor|]. cbn [split]. destruct (Z.eqb_spec c slash) as [->|Hsl]; [by repeat constructor|].
  destruct (split s) as [|e es]; [done|]. apply Forall_cons_iff in IH as [He Hes]. split; [|done]. constructor; [by constructor|done].
Qed.
Lemma step_good rooted x e : good rooted x -> clear e -> good rooted (step rooted x e).
Proof.
  intros [Hk Hr] He. unfold step. destruct (decide (e = [] \/ e = dot)) as [?|H1]; [done|]. destruct (decide (e = dotdot)) as [->|H2].
  - destruct (downs x) as [|y l _] eqn:Ed using rev_ind.
    + destruct rooted; [by split; [rewrite Ed|]|]. by split; [constructor|].
    + assert (Hl : exists z l', l ++ [y] = z :: l') by (destruct l; by eexists _, _). destruct Hl as (z & l' & El). rewrite El. cbv zeta. rewrite <- El, removelast_last.
      split; [|done]. by apply Forall_app in Hk as [Hk _].
  - split; [|done]. cbn [downs]. apply Forall_app. split; [done|]. constructor; [|constructor]. split; [|split]; [split; [by intros ->; auto|done]|by intros ->; auto|done].
Qed.
Lemma fold_good rooted es : forall x, good rooted x -> Forall clear es -> good rooted (fold_left (step rooted) es x).
Proof. induction es as [|e es IH]; intros x Hx Hes; [done|]. apply Forall_cons_iff in Hes as [He Hes]. by apply IH; [apply step_good|]. Qed.
Lemma path_good s : text s -> good (is_rooted s) (path_of s).
Proof. intros Ht. apply fold_good; [by split; [constructor|]|by apply split_clear]. Qed.

(** *** Their length, with a slash after them and what is put before a '#' *)

Definition room (rooted : bool) (x : path) : nat := length (shown rooted x) + (if bool_decide (nothing x) then 0 else 1) + (if erased x then 2 else 0).
Lemma step_room rooted x e : good rooted x -> clear e -> (room rooted (step rooted x e) <= room rooted x + length e + 1)%nat.
Proof.
  intros Hg He. pose proof (good_ok _ _ Hg) as Hok. unfold step. case_decide as H1; [lia|]. case_decide as H2; [subst e|].
  - destruct (downs x) as [|y l _] eqn:Ed using rev_ind.
    + destruct rooted eqn:Er; [lia|]. unfold room. rewrite (bool_decide_eq_false_2 (nothing (mkPath _ _ _))) by (intros [En _]; cbn in En; lia).
      assert (Ex : shown false x = base false (ups x)) by (destruct x; cbn [downs] in Ed; subst; apply shown_base). rewrite shown_base, base_up, Ex, !length_app. cbn [length dotdot erased].
      destruct (bool_decide_reflect (ups x = 0%nat)) as [E0|N0]; [rewrite (bool_decide_eq_true_2 (nothing x)) by done; cbn; lia|]. rewrite (bool_decide_eq_false_2 (nothing x)) by (by intros [? _]). cbn. lia.
    + assert (Hl : exists z l', l ++ [y] = z :: l') by (destruct l; by eexists _, _). destruct Hl as (z & l' & El). rewrite El. cbv zeta. rewrite <- El, removelast_last.
      unfold room. set (x0 := mkPath (ups x) l _). assert (Hok0 : path_ok rooted x0) by (destruct Hok as [Hp Hr]; split; [rewrite Ed in Hp; by apply Forall_app in Hp as [Hp _]|done]).
      assert (Esh : shown rooted x = shown rooted x0 ++ (if bool_decide (nothing x0) then [] else [slash]) ++ y) by (rewrite <- (shown_down rooted x0 y Hok0); unfold shown; cbn; by rewrite Ed).
      rewrite (bool_decide_eq_false_2 (nothing x)) by (intros [_ En]; rewrite Ed in En; by destruct l). rewrite Esh, !length_app. cbn [length dotdot].
      destruct (bool_decide_reflect (nothing x0)) as [H0|H0]; [destruct (erased x0), (erased x); cbn; lia|]. assert (E0 : erased x0 = erased x).
      { unfold x0. cbn [erased]. rewrite (bool_decide_eq_false_2 (_ /\ _)) by done. by rewrite andb_false_r, orb_false_r. }
      rewrite E0. cbn [length]. lia.
  - unfold room. rewrite (bool_decide_eq_false_2 (nothing (mkPath _ _ _))) by (intros [_ En]; cbn in En; by destruct (downs x)).
    cbn [erased]. etransitivity; [apply Nat.eq_le_incl; apply (f_equal (fun l => (length l + 1 + (if erased x then 2 else 0))%nat)), shown_down, Hok|]. rewrite !length_app. destruct (bool_decide (nothing x)); cbn [length]; lia.
Qed.
Definition weight (es : list (list Z)) : nat := foldr (fun e n => length e + 1 + n)%nat 0%nat es.
Lemma fold_room rooted es : forall x, good rooted x -> Forall clear es -> (room rooted (fold_left (step rooted) es x) <= room rooted x + weight es)%nat.
Proof.
  induction es as [|e es IH]; intros x Hx Hes; [cbn; lia|]. apply Forall_cons_iff in Hes as [He Hes]. pose proof (step_room rooted x e Hx He). pose proof (IH _ (step_good _ _ _ Hx He) Hes). cbn [fold_left weight foldr] in *. unfold weight in *. lia.
Qed.
Lemma split_weight s : weight (split s) = (length s + 1)%nat.
Proof.
  unfold weight. induction s as [|c s IH]; [done|]. cbn [split]. case_match; [cbn [foldr length]; lia|].
  destruct (split s); cbn [foldr length] in *; lia.
Qed.
Lemma room_start rooted b : room rooted (mkPath 0 [] b) = (Nat.b2n rooted + (if b then 2 else 0))%nat.
Proof. by destruct rooted. Qed.
Lemma fold_start rooted b es n : Forall clear es -> (weight es <= n)%nat -> (room rooted (fold_left (step rooted) es (mkPath 0 [] b)) <= Nat.b2n rooted + (if b then 2 else 0) + n)%nat.
Proof. intros Hc Hw. assert (Hg : good rooted (mkPath 0 [] b)) by (by split; [constructor|]). pose proof (fold_room rooted es _ Hg Hc) as Hr. rewrite room_start in Hr. lia. Qed.
Lemma path_room s : text s -> s <> [] -> (room (is_rooted s) (path_of s) <= length s + 1)%nat.
Proof.
  intros Ht Hs. destruct (split_clear s Ht) as [Hc _]. pose proof (split_weight s) as Hw. destruct s as [|c s]; [done|]. unfold path_of, is_rooted. destruct (c =? slash) eqn:Ec.
  - assert (Es : split (c :: s) = [] :: split s) by (cbn [split]; by rewrite Ec). rewrite Es in *. cbn [fold_left list.head length]. rewrite step_skip, bool_decide_eq_false_2 by done.
    apply Forall_cons_iff in Hc as [_ Hc]. pose proof (fold_start true false (split s) (length s + 1) Hc) as Hr. rewrite split_weight in Hr. cbn [Nat.b2n] in Hr. lia.
  - case_bool_decide as Hd.
    + destruct (split (c :: s)) as [|e es]; [done|]. injection Hd as ->. cbn [fold_left]. assert (E0 : step false (mkPath 0 [] true) dot = mkPath 0 [] true) by done. rewrite E0. apply Forall_cons_iff in Hc as [_ Hc].
      pose proof (fold_start false true es (length s) Hc) as Hr. unfold weight in Hr, Hw. cbn [foldr length dot Nat.b2n] in *. lia.
    + pose proof (fold_start false false _ _ Hc (Nat.eq_le_incl _ _ Hw)) as Hr. cbn [Nat.b2n] in Hr. lia.
Qed.

(** ** What cleanname makes *)

Lemma shown_text rooted x : good rooted x -> text (shown rooted x).
Proof.
  intros [Hk _]. unfold shown. apply Forall_app. split; [by destruct rooted; repeat constructor|].
  assert (He : Forall clear (replicate (ups x) dotdot ++ downs x)).
  { apply Forall_app. split; [induction (ups x); by repeat constructor|]. revert Hk. apply Forall_impl. by intros e [[_ ?] _]. }
  induction He as [|e es He Hes IH]; [constructor|]. assert (Ht : text e) by (revert He; apply Forall_impl; by intros c [_ ?]).
  destruct es as [|e2 es]; [done|]. change (joined (e :: e2 :: es)) with (e ++ slash :: joined (e2 :: es)). apply Forall_app. split; [done|]. by constructor.
Qed.
Lemma cstr_text s r : text s -> cstr (s ++ 0 :: r) = Some s.
Proof. induction 1 as [|c s Hc Hs IH]; [done|]. cbn. by rewrite (proj2 (Z.eqb_neq c 0)), IH. Qed.
Lemma at_init rooted x t rest gap p : nothing x -> text t -> (p = Nat.b2n rooted + length gap)%nat -> (p = 0%nat -> list.head (split t) <> Some dot) ->
  at_ rooted x t rest (mkCst (front rooted ++ gap ++ t ++ 0 :: rest) p (Nat.b2n rooted) (Nat.b2n rooted) (erased x)).
Proof.
  intros [Hu Hd] Ht -> Hs. destruct x as [k es e]. cbn in Hu, Hd. subst. assert (Es : forall e, shown rooted (mkPath 0 [] e) = front rooted) by (intros e'; unfold shown; cbn; by rewrite app_nil_r).
  split; cbn [buf pp qq dd erasedprefix ups]; rewrite ?Es; [|by destruct rooted..|done|by split; [constructor|]|done|done].
  exists gap. split; [done|]. split; [by destruct rooted|]. right. by left.
Qed.
(** The start of the loop, past a period that is the first element. *)
Lemma clean_start s rest : text s -> exists st', clean_loop (length (s ++ 0 :: rest)) (is_rooted s) (mkCst (s ++ 0 :: rest) (Nat.b2n (is_rooted s)) (Nat.b2n (is_rooted s)) (Nat.b2n (is_rooted s)) false) = Some st' /\
  at_ (is_rooted s) (path_of s) [] rest st'.
Proof.
  intros Ht. unfold path_of. destruct (decide (list.head (split s) = Some dot)) as [Ed|Nd].
  - destruct (split_elem s) as (w & t1 & es & -> & Hw & Hends & Hs & Hf). rewrite Hs in Ed. injection Ed as ->. rewrite Hs. cbn [app is_rooted list.head fold_left]. change (period =? slash) with false.
    rewrite bool_decide_eq_true_2 by done. rewrite Hf. set (b := period :: t1 ++ 0 :: rest). set (x0 := mkPath 0 [] true). assert (E0 : forall w, w = dot -> step false x0 w = x0) by (intros w ->; unfold step; by rewrite decide_True by by right). assert (Ert : is_rooted (dot ++ t1) = false) by done. rewrite Ert, (E0 _ eq_refl).
    destruct (ends_sep t1 rest Hends) as (c & r & Ec & Hc). assert (E1 : clean_step false period (mkCst b 0 0 0 false) = Some (mkCst b 1 0 0 true)).
    { unfold clean_step. change (period =? slash) with false. assert (Eb : b !! 1%nat = Some c) by (unfold b; rewrite Ec; done). rewrite Nat.add_0_l, Eb. cbn [mbind option_bind]. by rewrite Z.eqb_refl, Hc. }
    destruct (clean_loop_ok false (length t1) x0 t1 rest (mkCst b 1 0 0 true) (length (t1 ++ 0 :: rest))) as (st & El & A); [done|rewrite length_app; lia| |].
    { apply (at_init false x0 t1 rest [period]); [done|by apply Forall_cons_iff in Ht as [_ Ht]|done|done]. }
    exists st. split; [|done]. change (length ((dot ++ t1) ++ 0 :: rest)) with (Datatypes.S (length (t1 ++ 0 :: rest))). cbn [clean_loop Nat.b2n]. change ((dot ++ t1) ++ 0 :: rest) with b.
    change (buf (mkCst b 0 0 0 false) !! pp (mkCst b 0 0 0 false)) with (Some period). cbn [mbind option_bind]. change (period =? 0) with false. cbv iota. by rewrite E1.
  - rewrite bool_decide_eq_false_2 by done. destruct (is_rooted s) eqn:Er.
    + destruct s as [|c t]; [done|]. cbn in Er. apply Z.eqb_eq in Er as ->. cbn [split]. rewrite Z.eqb_refl. cbn [fold_left]. rewrite step_skip. apply Forall_cons_iff in Ht as [_ Ht].
      apply (clean_loop_ok true (length t)); [done|rewrite length_app; cbn; lia|]. by apply (at_init true (mkPath 0 [] false) t rest []).
    + apply (clean_loop_ok false (length s)); [done|rewrite length_app; lia|]. by apply (at_init false (mkPath 0 [] false) s rest []).
Qed.
(** The length of the buffer stays. *)
Lemma wr_length b i c b' : wr b i c = Some b' -> length b' = length b.
Proof. unfold wr. case_match; [|done]. intros [= <-]. apply length_insert. Qed.
Lemma copy_length fuel : forall b p q b' p' q', copy_elem fuel b p q = Some (b', p', q') -> length b' = length b.
Proof.
  induction fuel as [|fuel IH]; intros b p q b' p' q'; cbn [copy_elem]; destruct (b !! p) as [c|]; [|done| |done]; cbn [mbind option_bind];
    (destruct (wr b q c) as [b1|] eqn:E; [|done]; apply wr_length in E; cbn [mbind option_bind]; destruct (SEP c); [by intros [= <- _ _]|]); [done|]. intros Hc. apply IH in Hc. congruence.
Qed.
Lemma clean_step_length rooted c st st' : clean_step rooted c st = Some st' -> length (buf st') = length (buf st).
Proof.
  destruct st as [b p q d e]. unfold clean_step. destruct (c =? slash); [by intros [= <-]|]. intros (c1 & _ & Hs)%bind_Some.
  destruct ((c =? period) && SEP c1); [by injection Hs as <-|]. apply bind_Some in Hs as ([] & _ & Hs).
  - apply bind_Some in Hs as ([[b1 q1] d1] & E & [= <-]). cbn [buf]. revert E. destruct (d <? q)%nat.
    + intros (q2 & _ & [= <- _ _])%bind_Some. done.
    + destruct (negb rooted); [|by intros [= <- _ _]]. intros ([b2 q2] & E2 & E)%bind_Some. apply bind_Some in E as (b3 & E3%wr_length & E). apply bind_Some in E as (b4 & E4%wr_length & [= <- _ _]).
      assert (length b2 = length b); [|cbn [fst] in *; congruence]. revert E2. destruct (negb (q =? 0)%nat); [|by intros [= <- _]]. intros (b5 & E5%wr_length & [= <- _])%bind_Some. done.
  - apply bind_Some in Hs as ([b1 q1] & E1 & Hs). apply bind_Some in Hs as ([[b2 p2] q2] & E2%copy_length & [= <-]). cbn [buf fst] in *. rewrite E2.
    revert E1. destruct (negb (q =? Nat.b2n rooted)%nat); [|by intros [= <- _]]. intros (b5 & E5%wr_length & [= <- _])%bind_Some. done.
Qed.
Lemma clean_loop_length rooted fuel : forall st st', clean_loop fuel rooted st = Some st' -> length (buf st') = length (buf st).
Proof.
  induction fuel as [|fuel IH]; intros st st'; cbn [clean_loop]; intros (c & _ & H)%bind_Some; (destruct (c =? 0); [by injection H as <-|]); [done|].
  apply bind_Some in H as (st1 & E1%clean_step_length & E2%IH). congruence.
Qed.
(** In place, if the name made is not longer than the name and the room after it. *)
Lemma wr_end (a : list Z) b c : (length a < length b)%nat -> (exists g, b = a ++ g) -> exists r, wr b (length a) c = Some (a ++ c :: r) /\ length (a ++ c :: r) = length b.
Proof. intros Hl [[|g r] ->]; [rewrite app_nil_r in Hl; lia|]. exists r. rewrite wr_at by done. split; [done|]. by rewrite !length_app. Qed.
(** What is made before a '#' at its start is looked at. *)
Definition made (s : list Z) : list Z := let sh := shown (is_rooted s) (path_of s) in if decide (sh = []) then dot else sh.
Definition not_a_device (s : list Z) : bool := erased (path_of s) && bool_decide (list.head (made s) = Some hash).
Lemma clean_made s : clean s = if not_a_device s then period :: slash :: made s else made s.
Proof. done. Qed.
Lemma made_text s : text s -> text (made s).
Proof. intros Ht. unfold made. cbv zeta. case_decide; [constructor; [discriminate|constructor]|]. by apply shown_text, path_good. Qed.
(** It is not longer than the name, but "." is made of none. *)
Lemma clean_length s : text s -> s <> [] -> (length (clean s) <= length s)%nat.
Proof.
  intros Ht Hs. pose proof (path_room s Ht Hs) as Hr. rewrite clean_made. unfold room, not_a_device, made in *. cbv zeta in *. set (sh := shown _ _) in *.
  destruct (decide (sh = [])) as [E|Hn]; [rewrite bool_decide_eq_false_2, andb_false_r by done; destruct s; [done|cbn; lia]|].
  destruct (bool_decide_reflect (nothing (path_of s))) as [H0|H0].
  - pose proof (proj2 (shown_front _ _ (good_ok _ _ (path_good s Ht))) H0) as E. change (length sh = Nat.b2n (is_rooted s)) in E. destruct (is_rooted s); [|exfalso; apply Hn; by destruct sh].
    assert (Eh : list.head sh = Some slash) by done. rewrite Eh, bool_decide_eq_false_2, andb_false_r by done. destruct s; [done|cbn [length Nat.b2n] in *; lia].
  - destruct (erased (path_of s)); cbn [andb]; [|lia]. case_bool_decide; cbn [length]; lia.
Qed.
Lemma cleanname_made s rest : text s -> (length (made s) <= length s + length rest)%nat ->
  exists r', length (made s ++ 0 :: r') = length (s ++ 0 :: rest) /\ cleanname (s ++ 0 :: rest) = if not_a_device s then not_device (made s ++ 0 :: r') else Some (made s ++ 0 :: r').
Proof.
  intros Ht Hl. destruct (clean_start s rest Ht) as (st & El & A). unfold cleanname. set (b0 := s ++ 0 :: rest) in *.
  assert (H0 : exists c, b0 !! 0%nat = Some c /\ (c =? slash) = is_rooted s) by (destruct s as [|c s]; [by exists 0|by exists c]). destruct H0 as (c0 & -> & Er). cbn [mbind option_bind]. rewrite Er, El. cbn [mbind option_bind].
  destruct (at_buf _ _ _ _ _ A) as (gap & Eb & _ & _). rewrite (at_qq _ _ _ _ _ A), (at_erased _ _ _ _ _ A). cbn [app] in Eb. apply clean_loop_length in El. cbn [buf] in El.
  assert (Hb0 : length b0 = (length s + 1 + length rest)%nat) by (unfold b0; rewrite length_app; cbn; lia). set (r := is_rooted s) in *. set (x := path_of s) in *. pose proof (shown_text r x (path_good s Ht)) as Hst. unfold not_a_device, made in *. fold r x in Hl |- *. cbv zeta in *. set (sh := shown r x) in *.
  set (out := if decide (sh = []) then dot else sh) in *. assert (Hout : text out) by (unfold out; destruct (decide (sh = [])); [constructor; [discriminate|constructor]|exact Hst]).
  assert (Hlo : (length out < length (buf st))%nat) by (rewrite El, Hb0; lia).
  assert (Hq : exists b1, (if (length sh =? 0)%nat then b ← wr (buf st) (length sh) period; Some (b, (length sh + 1)%nat) else Some (buf st, length sh)) = Some (b1, length out) /\ (exists g, b1 = out ++ g) /\ length b1 = length (buf st)).
  { unfold out in *. destruct (decide (sh = [])) as [E0|N0].
    - rewrite E0 in *. cbn [length app] in *. change (0 =? 0)%nat with true. cbv iota. destruct (buf st) as [|y b]; [cbn in Hlo; lia|]. cbn. eexists. split; [done|]. split; [by eexists|done].
    - rewrite (proj2 (Nat.eqb_neq _ 0)) by (by destruct sh). eexists. split; [done|]. split; [by eexists|done]. }
  destruct Hq as (b1 & -> & Hg & Hl1). cbn [mbind option_bind fst snd]. destruct (wr_end out b1 0) as (r' & -> & Hl2); [lia|done|]. cbn [mbind option_bind].
  assert (Hh : exists c, (out ++ 0 :: r') !! 0%nat = Some c /\ (c =? hash) = bool_decide (list.head out = Some hash)).
  { destruct out as [|c out']; [exists 0; by split|]. exists c. split; [done|]. cbn. destruct (Z.eqb_spec c hash) as [->|Hc]; [by rewrite bool_decide_eq_true_2|]. rewrite bool_decide_eq_false_2; [done|]. by intros [= ?]. }
  destruct Hh as (c & -> & Hch). cbn [mbind option_bind]. rewrite Hch. exists r'. split; [by rewrite Hl2, Hl1, El|done].
Qed.
Lemma cleanname_is_clean s rest : text s -> (length (clean s) <= length s + length rest)%nat -> exists r', cleanname (s ++ 0 :: rest) = Some (clean s ++ 0 :: r').
Proof.
  intros Ht Hl. rewrite clean_made in Hl |- *. destruct (cleanname_made s rest Ht) as (r' & El & ->); [destruct (not_a_device s) in Hl; cbn [length] in Hl; lia|].
  destruct (not_a_device s); [|by exists r']. unfold not_device. rewrite cstr_text by by apply made_text. cbn [mbind option_bind]. rewrite length_app in El. rewrite length_app in El. cbn [length] in El, Hl.
  rewrite (proj2 (Nat.leb_le _ _)) by (rewrite length_app; cbn [length]; lia). by eexists.
Qed.

(** ** Twice is once *)

Lemma split_word e : Forall (fun c => c <> slash) e -> split e = [e].
Proof. induction 1 as [|c e Hc He IH]; [done|]. cbn [split]. by rewrite (proj2 (Z.eqb_neq c slash)), IH. Qed.
Lemma split_word_slash e t : Forall (fun c => c <> slash) e -> split (e ++ slash :: t) = e :: split t.
Proof. induction 1 as [|c e Hc He IH]; [cbn [app split]; by rewrite Z.eqb_refl|]. cbn [app split]. by rewrite (proj2 (Z.eqb_neq c slash)), IH. Qed.
Lemma plain_no_slash e : plain e -> Forall (fun c => c <> slash) e.
Proof. intros [_ He]. revert He. apply Forall_impl. by intros c [? _]. Qed.
Lemma split_joined es : Forall plain es -> es <> [] -> split (joined es) = es.
Proof.
  induction 1 as [|e es He Hes IH]; [done|]. intros _. destruct es as [|e2 es]; [by apply split_word, plain_no_slash|].
  change (joined (e :: e2 :: es)) with (e ++ slash :: joined (e2 :: es)). rewrite split_word_slash by by apply plain_no_slash. by rewrite IH.
Qed.
Lemma fold_downs rooted es : forall k l b, Forall kept es -> fold_left (step rooted) es (mkPath k l b) = mkPath k (l ++ es) b.
Proof.
  induction es as [|e es IH]; intros k l b He; [by rewrite app_nil_r|]. apply Forall_cons_iff in He as [([He0 _] & Hd & Hdd) Hes]. cbn [fold_left].
  assert (E : step rooted (mkPath k l b) e = mkPath k (l ++ [e]) b) by (unfold step; rewrite decide_False by (intros [?|?]; done); by rewrite decide_False).
  rewrite E, IH by done. by rewrite <- app_assoc.
Qed.
Lemma fold_ups n : forall k b, fold_left (step false) (replicate n dotdot) (mkPath k [] b) = mkPath (k + n) [] b.
Proof. induction n as [|n IH]; intros k b; [by rewrite Nat.add_0_r|]. cbn [replicate fold_left]. change (step false (mkPath k [] b) dotdot) with (mkPath (k + 1) [] b). rewrite IH. f_equal. lia. Qed.
Lemma fold_elems rooted x b : good rooted x -> fold_left (step rooted) (replicate (ups x) dotdot ++ downs x) (mkPath 0 [] b) = mkPath (ups x) (downs x) b.
Proof.
  intros [Hk Hr]. rewrite fold_left_app. assert (E : fold_left (step rooted) (replicate (ups x) dotdot) (mkPath 0 [] b) = mkPath (ups x) [] b); [|by rewrite E, fold_downs].
  destruct rooted; [by rewrite Hr|apply fold_ups].
Qed.
Lemma good_plain rooted x : good rooted x -> Forall plain (replicate (ups x) dotdot ++ downs x).
Proof. intros Hg. by apply plain_ups, (good_ok rooted). Qed.
Lemma elems_head rooted x : good rooted x -> list.head (replicate (ups x) dotdot ++ downs x) <> Some dot.
Proof. intros [Hk _]. destruct (ups x); [|done]. cbn [replicate app]. destruct Hk as [|e es (_ & Hd & _) _]; [done|]. by intros [= ->]. Qed.
(** What is shown is read back. *)
Lemma shown_false_split x : good false x -> shown false x <> [] -> split (shown false x) = replicate (ups x) dotdot ++ downs x /\ is_rooted (shown false x) = false.
Proof.
  intros Hg Hn. unfold shown in *. cbn [app] in *. pose proof (good_plain _ _ Hg) as Hp. set (es := replicate (ups x) dotdot ++ downs x) in *. assert (Hes : es <> []) by (intros E; by rewrite E in Hn).
  split; [by apply split_joined|]. destruct Hp as [|e es' He _]; [done|]. destruct He as [He0 He]. destruct e as [|c e]; [done|]. apply Forall_cons_iff in He as [[Hc _] _]. apply Z.eqb_neq in Hc.
  by destruct es'.
Qed.
Lemma path_shown rooted x : good rooted x -> shown rooted x <> [] -> is_rooted (shown rooted x) = rooted /\ path_of (shown rooted x) = mkPath (ups x) (downs x) false.
Proof.
  intros Hg Hn. destruct rooted.
  - split; [done|]. unfold path_of, shown. cbn [app is_rooted]. rewrite Z.eqb_refl. cbn [split]. rewrite Z.eqb_refl. cbn [list.head fold_left]. rewrite bool_decide_eq_false_2 by done. rewrite step_skip.
    pose proof (good_plain _ _ Hg) as Hp. pose proof (fold_elems true x false Hg) as Hf. set (es := replicate (ups x) dotdot ++ downs x) in *.
    destruct (decide (es = [])) as [E|Hes]; [|by rewrite split_joined]. rewrite E in *. cbn [joined split fold_left] in *. by rewrite step_skip.
  - destruct (shown_false_split x Hg Hn) as [Hs Hr]. split; [done|]. unfold path_of. rewrite Hr, Hs, bool_decide_eq_false_2 by by apply (elems_head false). by apply fold_elems.
Qed.
Lemma clean_shown rooted x : good rooted x -> shown rooted x <> [] -> clean (shown rooted x) = shown rooted x.
Proof.
  intros Hg Hn. destruct (path_shown rooted x Hg Hn) as [Hr Hp]. unfold clean. rewrite Hr, Hp. cbn [erased andb]. change (shown rooted (mkPath (ups x) (downs x) false)) with (shown rooted x).
  by rewrite decide_False.
Qed.
(** A name that would begin with '#' is kept apart from a device. *)
Lemma path_not_device x : good false x -> shown false x <> [] -> path_of (period :: slash :: shown false x) = mkPath (ups x) (downs x) true.
Proof.
  intros Hg Hn. destruct (shown_false_split x Hg Hn) as [Hs _].
  assert (Er : is_rooted (period :: slash :: shown false x) = false) by done. assert (Es : split (period :: slash :: shown false x) = dot :: split (shown false x)) by done.
  unfold path_of. rewrite Er, Es. cbn [list.head fold_left]. rewrite bool_decide_eq_true_2 by done.
  assert (E0 : step false (mkPath 0 [] true) dot = mkPath 0 [] true) by done. by rewrite E0, Hs, fold_elems by done.
Qed.
Lemma clean_not_device x : good false x -> list.head (shown false x) = Some hash -> clean (period :: slash :: shown false x) = period :: slash :: shown false x.
Proof.
  intros Hg Hh. assert (Hn : shown false x <> []) by by destruct (shown false x). assert (Er : is_rooted (period :: slash :: shown false x) = false) by done.
  unfold clean. rewrite Er, path_not_device by done. cbn [erased andb]. change (shown false (mkPath (ups x) (downs x) true)) with (shown false x).
  rewrite decide_False by done. by rewrite bool_decide_eq_true_2.
Qed.
Lemma clean_clean s : text s -> clean (clean s) = clean s.
Proof.
  intros Ht. pose proof (path_good s Ht) as Hg. unfold clean at 2 3. set (r := is_rooted s) in *. set (x := path_of s) in *. cbv zeta. destruct (decide (shown r x = [])) as [E|Hn].
  - by rewrite bool_decide_eq_false_2, andb_false_r.
  - destruct (erased x); cbn [andb]; [|by apply clean_shown]. case_bool_decide as Hh; [|by apply clean_shown]. destruct r; [done|]. by apply clean_not_device.
Qed.
(** The name made is of the same place. *)
Lemma path_clean s : text s -> is_rooted (clean s) = is_rooted s /\ ups (path_of (clean s)) = ups (path_of s) /\ downs (path_of (clean s)) = downs (path_of s).
Proof.
  intros Ht. pose proof (path_good s Ht) as Hg. unfold clean. set (r := is_rooted s) in *. set (x := path_of s) in *. cbv zeta. destruct (decide (shown r x = [])) as [E|Hn].
  - destruct r; [done|]. assert (Hx : nothing x) by (apply (shown_front false x); [by apply good_ok|by rewrite E]). rewrite bool_decide_eq_false_2, andb_false_r by done. by destruct Hx as [-> ->].
  - assert (Hp : is_rooted (shown r x) = r /\ ups (path_of (shown r x)) = ups x /\ downs (path_of (shown r x)) = downs x) by (destruct (path_shown r x Hg Hn) as [-> ->]; done).
    destruct (erased x); cbn [andb]; [|done]. case_bool_decide as Hh; [|done]. destruct r; [done|]. by rewrite path_not_device.
Qed.
Lemma clean_text s : text s -> text (clean s).
Proof.
  intros Ht. pose proof (shown_text _ _ (path_good s Ht)) as Hs. unfold clean. cbv zeta. set (sh := shown _ _) in *. assert (Ho : text (if decide (sh = []) then dot else sh)) by (destruct (decide (sh = [])); [by constructor|done]).
  destruct (_ && _); [|done]. by do 2 (constructor; [done|]).
Qed.
(** ** cleanname *)

(** C19. cleanname rewrites a name in its place, in the bytes the name has, to the
    name of the same place that is left without the empty elements, "." and each ".."
    with what it goes up from: the elements joined by one slash, "." for none, and
    "./" before them if they would now be taken for a device.  It is not longer than
    the name, and cleaning twice is cleaning once.  The one exception is the empty
    name, for which a byte more is written than it has. *)
Theorem cleanname_correct s rest : text s -> s <> [] ->
  (exists r', cleanname (s ++ 0 :: rest) = Some (clean s ++ 0 :: r')) /\ cleanname [0] = None /\
  (length (clean s) <= length s)%nat /\ clean (clean s) = clean s /\
  is_rooted (clean s) = is_rooted s /\ ups (path_of (clean s)) = ups (path_of s) /\ downs (path_of (clean s)) = downs (path_of s).
Proof.
  intros Ht Hs. pose proof (clean_length s Ht Hs) as Hl. split; [apply cleanname_is_clean; [done|lia]|]. split; [by vm_compute|]. split; [done|]. split; [by apply clean_clean|by apply path_clean].
Qed.

(** "a/../#c/" becomes "./#c". *)
Example cleanname_correct_witness :
  text [97; 47; 46; 46; 47; 35; 99; 47] /\ clean [97; 47; 46; 46; 47; 35; 99; 47] = [46; 47; 35; 99] /\
  (exists r', cleanname [97; 47; 46; 46; 47; 35; 99; 47; 0] = Some (clean [97; 47; 46; 46; 47; 35; 99; 47] ++ 0 :: r')).
Proof.
  assert (Ht : text [97; 47; 46; 46; 47; 35; 99; 47]) by (unfold text; repeat constructor; discriminate).
  split; [exact Ht|]. split; [vm_compute; reflexivity|]. apply (cleanname_correct _ [] Ht). discriminate.
Defined.
