(* ===== verification/Path.v ===== *)
(** * Names of channels (emu/port/chan.c)

    A name given to the kernel is split by parsename, and the elements walked are put
    one by one at the end of the name of the channel by addelem, which cleans it
    after a "..".  The name of a Cname is its bytes without the NUL; the copy made of
    it when it is shared is not seen, and it is cleaned in as many bytes as it takes,
    though CNAMESLOP more may be there. *)

From S2P Require Import Prelude Utf Clean.

Definition Delta : nat := 8.
Definition isdotdot (p : list Z) : bool := bool_decide (p = dotdot).
(** cleanname of a name in a buffer of its length. *)
Definition cleaned (s : list Z) : option (list Z) := b ← cleanname (s ++ [0]); cstr b.
Definition cleancname (s : list Z) : option (list Z) :=
  if bool_decide (list.head s = Some hash) then
    i ← strchr_loop 0 (s ++ [0]) slash;
    match i with
    | None => Some s
    | Some i =>
        let i := Z.to_nat i in
        p ← cleaned (drop i s);
        if bool_decide (p = [slash]) && negb (bool_decide (s !! 1%nat = Some slash)) then Some (take i s) else Some (take i s ++ p)
    end
  else cleaned s.
Definition addelem (n : list Z) (s : list Z) : option (list Z) :=
  if bool_decide (s = dot) then Some n
  else
    let slashes := bool_decide (n <> []) && negb (bool_decide (list.last n = Some slash)) && negb (bool_decide (list.head s = Some slash)) in
    let n := n ++ (if slashes then [slash] else []) ++ s in
    if isdotdot s then cleancname n else Some n.
(** The loop of walk over the elements of a name. *)
Fixpoint addelems (n : list Z) (names : list (list Z)) : option (list Z) :=
  match names with
  | [] => Some n
  | s :: names => n ← addelem n s; addelems n names
  end.

Fixpoint skipslash (name : list Z) : list Z :=
  match name with
  | c :: rest =>
      if (c =? slash) || (c =? period) && match rest with [] => true | c1 :: _ => c1 =? slash end
      then skipslash rest else name
  | [] => []
  end.
(** [off] is the array with what is allocated of it. *)
Record Elemlist : Type := mkElemlist { elems : list (list Z); off : list Z; mustbedir : bool }.
Definition nelems (e : Elemlist) : nat := length (elems e).
(** The first [nelems] of the offsets are copied, the rest is clear. *)
Definition growparse (e : Elemlist) : Elemlist :=
  if (nelems e mod Delta =? 0)%nat
  then mkElemlist (elems e) (take (nelems e) (off e) ++ replicate (Delta + 1) 0) (mustbedir e) else e.
Fixpoint parse_loop (fuel : nat) (total : Z) (name : list Z) (e : Elemlist) : option Elemlist :=
  match fuel with
  | O => None
  | S fuel =>
      match skipslash name with
      | [] => Some (mkElemlist (elems e) (off e) true)
      | name =>
          let e := growparse e in
          slash ← utfrune (name ++ [0]) slash;
          match slash with
          | None => off ← wr (off e) (nelems e + 1) total; Some (mkElemlist (elems e ++ [name]) off false)
          | Some i =>
              off ← wr (off e) (nelems e + 1) (total - Z.of_nat (length name) + i);
              parse_loop fuel total (drop (Z.to_nat i + 1) name) (mkElemlist (elems e ++ [take (Z.to_nat i) name]) off (mustbedir e))
          end
      end
  end.
Definition parsename (name : list Z) : option Elemlist :=
  let total := Z.of_nat (length name) in
  parse_loop (S (length name)) total name (mkElemlist [] [total - Z.of_nat (length (skipslash name))] false).

(** The bytes below ' ' and '/' and DEL. *)
Definition isfrog (c : Z) : bool := (c <? 32) || (c =? slash) || (c =? 127).
Inductive Valid : Type := Vok | Vtoolong | Vbadchar.
Fixpoint valid_loop (fuel : nat) (name : list Z) (slashok : bool) : option Valid :=
  match fuel with
  | O => None
  | S fuel =>
      match name with
      | [] => None
      | c :: rest =>
          if c =? 0 then Some Vok
          else if Runeself <=? c then '(_, n) ← chartorune name; valid_loop fuel (drop (Z.to_nat n) name) slashok
          else if isfrog c && (negb slashok || negb (c =? slash)) then Some Vbadchar
          else valid_loop fuel rest slashok
      end
  end.
(** [memchr(name, 0, 1<<16)] looks for the NUL in the first 65536 bytes. *)
Definition validname (aname : list Z) (slashok : bool) : option Valid :=
  match list_find (fun c => c = 0) (take (Z.to_nat 65536) aname) with
  | None => Some Vtoolong
  | Some _ => valid_loop (S (length aname)) aname slashok
  end.

(** ** In terms of elements *)

Definition word (e : list Z) : bool := negb (bool_decide (e = [])) && negb (bool_decide (e = dot)).
Definition words (s : list Z) : list (list Z) := filter (fun e => word e = true) (split s).
(** Where the elements end, the first of [es] being at [pos]. *)
Fixpoint word_ends (pos : nat) (es : list (list Z)) : list nat :=
  match es with
  | [] => []
  | e :: es => (if word e then [(pos + length e)%nat] else []) ++ word_ends (pos + length e + 1) es
  end.
(** The name of the channel [x] below a root, the slash of the name space or a device. *)
Definition named (root : list Z) (x : path) : list Z :=
  if bool_decide (1 < length root)%nat && bool_decide (nothing x) then root else root ++ shown true x.
Definition is_root (root : list Z) : Prop :=
  root = [] \/ root = [hash] \/ exists d, root = hash :: d /\ d <> [] /\ Forall (fun c => c <> slash /\ c <> 0) d.

(** ** Elements of a name *)

Lemma split_slash a b : split (a ++ slash :: b) = split a ++ split b.
Proof.
  induction a as [|c a IH]; [done|]. cbn [app split]. rewrite IH. destruct (c =? slash); [done|]. destruct (split a) as [|e es] eqn:E; [|done].
  by destruct a as [|c2 a]; [|cbn in E; destruct (c2 =? slash); [|destruct (split a)]].
Qed.
Lemma word_step rooted (x : path) e : word e = false -> step rooted x e = x.
Proof.
  unfold word, step. destruct (decide (e = [] \/ e = dot)) as [?|Hn]; [done|]. rewrite !bool_decide_eq_false_2 by (by intros ->; auto). done.
Qed.
Lemma fold_words rooted es : forall x : path, fold_left (step rooted) (filter (fun e => word e = true) es) x = fold_left (step rooted) es x.
Proof.
  induction es as [|e es IH]; intros x; [done|]. rewrite filter_cons. destruct (decide (word e = true)) as [Hw|Hw]; [apply IH|].
  cbn [fold_left]. rewrite word_step by (by apply not_true_is_false). apply IH.
Qed.
Lemma words_clear s : text s -> Forall clear (words s).
Proof. intros Ht. destruct (split_clear s Ht) as [Hc _]. unfold words. induction Hc as [|e es He _ IH]; [constructor|]. rewrite filter_cons. case_decide; [by constructor|done]. Qed.

(** ** Rooted names *)

Lemma step_erased (x : path) e : erased (step true x e) = erased x.
Proof.
  unfold step. destruct (decide (e = [] \/ e = dot)); [done|]. destruct (decide (e = dotdot)); [|done]. destruct (downs x); [done|]. cbn [erased negb andb]. apply orb_false_r.
Qed.
Lemma fold_erased es : forall x : path, erased (fold_left (step true) es x) = erased x.
Proof. induction es as [|e es IH]; intros x; [done|]. cbn [fold_left]. by rewrite IH, step_erased. Qed.
Definition rooted_path (t : list Z) : path := fold_left (step true) (split t) (mkPath 0 [] false).
Lemma path_rooted t : path_of (slash :: t) = rooted_path t.
Proof. unfold path_of, rooted_path. change (is_rooted (slash :: t)) with true. change (split (slash :: t)) with ([] :: split t). cbn [fold_left list.head]. rewrite bool_decide_eq_false_2 by done. by rewrite step_skip. Qed.
Lemma clean_rooted t : clean (slash :: t) = shown true (rooted_path t).
Proof.
  unfold clean. rewrite path_rooted. change (is_rooted (slash :: t)) with true. cbv zeta. assert (E : erased (rooted_path t) = false) by (unfold rooted_path; by rewrite fold_erased). rewrite E. cbn [andb]. by rewrite decide_False by done.
Qed.
Lemma cleaned_rooted t : text t -> cleaned (slash :: t) = Some (shown true (rooted_path t)).
Proof.
  intros Ht. assert (Ht' : text (slash :: t)) by (by constructor). destruct (cleanname_is_clean (slash :: t) [] Ht') as [r' E].
  { rewrite Nat.add_0_r. by apply clean_length. }
  unfold cleaned. rewrite E. cbn [mbind option_bind]. rewrite clean_rooted. apply cstr_text. rewrite <- clean_rooted. by apply clean_text.
Qed.
Lemma step_good_true (x : path) e : good true x -> clear e -> good true (step true x e).
Proof. apply step_good. Qed.
(** The name with one more element. *)
Definition sep (x : path) : list Z := if bool_decide (nothing x) then [] else [slash].
Lemma good_ups (x : path) : good true x -> ups x = 0%nat.
Proof. intros [_ H]. by apply H. Qed.
Lemma rooted_more x e : good true x -> erased x = false -> clear e -> exists t, shown true x ++ sep x ++ e = slash :: t /\ text t /\ rooted_path t = step true x e.
Proof.
  intros Hg He Hc. assert (Hce : text e) by (revert Hc; apply Forall_impl; by intros c [_ ?]). pose proof (shown_text true x Hg) as Hs. pose proof (good_ups x Hg) as Hu. pose proof (fold_elems true x false Hg) as Hf.
  pose proof (good_plain _ _ Hg) as Hp. rewrite Hu in Hp, Hf. cbn [replicate app] in Hp, Hf.
  assert (Esh : shown true x = slash :: joined (downs x)) by (unfold shown; by rewrite Hu). rewrite Esh in *. cbn [app]. unfold sep. apply Forall_cons_iff in Hs as [_ Hs]. eexists. split; [done|]. unfold rooted_path.
  assert (Ex : mkPath (ups x) (downs x) false = x) by (destruct x; cbn in *; by subst). rewrite Hu in Ex. rewrite Ex in Hf. case_bool_decide as Hn.
  - destruct Hn as [_ Hd]. rewrite Hd in *. split; [exact Hce|]. cbn [joined app fold_left] in *. destruct (split_elem e) as (w & t1 & es & -> & Hw & Hends & Es & Ef).
    assert (Et : t1 = []). { apply Forall_app in Hc as [_ Hc]. destruct t1 as [|c t1]; [done|]. cbn in Hends. subst. by apply Forall_cons_iff in Hc as [[? _] _]. }
    subst t1. rewrite app_nil_r in *. rewrite split_word by done. cbn [fold_left]. by rewrite Hf.
  - assert (Hd : downs x <> []) by (intros Hd; by apply Hn). split; [apply Forall_app; split; [done|by constructor]|]. cbn [app]. rewrite split_slash, fold_left_app, split_joined by done. rewrite Hf.
    rewrite split_word; [done|]. revert Hc. apply Forall_impl. by intros c [? _].
Qed.

(** ** addelem *)

Lemma shown_last x : good true x -> bool_decide (list.last (shown true x) = Some slash) = bool_decide (nothing x).
Proof.
  intros Hg. pose proof (good_ups x Hg) as Hu. destruct Hg as [Hk _]. unfold shown, nothing. rewrite Hu. cbn [replicate app]. destruct (downs x) as [|e es _] using rev_ind; [by rewrite !bool_decide_eq_true_2|].
  apply Forall_app in Hk as [_ Hk]. apply Forall_cons_iff in Hk as [([Hn He] & _) _]. rewrite (bool_decide_eq_false_2 (_ /\ _)) by (intros [_ Ea]; by destruct es). apply bool_decide_eq_false_2.
  assert (Ej : exists w, joined (es ++ [e]) = w ++ e) by (destruct es as [|e2 es]; [by exists []|rewrite joined_snoc by done; exists (joined (e2 :: es) ++ [slash]); by rewrite <- app_assoc]). destruct Ej as [w ->].
  destruct e as [|c e _] using rev_ind; [done|]. rewrite app_comm_cons, app_assoc, last_snoc. intros [= ->]. apply Forall_app in He as [_ He]. by apply Forall_cons_iff in He as [[? _] _].
Qed.
Lemma clear_head e : clear e -> bool_decide (list.head e = Some slash) = false.
Proof. intros He. apply bool_decide_eq_false_2. destruct He as [|c e [Hc _] _]; [done|]. by intros [= ->]. Qed.
Lemma strchr_here w t : Forall (fun c => c <> slash /\ c <> 0) w -> forall o, strchr_loop o (w ++ slash :: t) slash = Some (Some (o + Z.of_nat (length w))).
Proof.
  induction 1 as [|c w [Hc H0] Hw IH]; intros o; cbn [app strchr_loop]; [rewrite Z.eqb_refl; cbn; by rewrite Z.add_0_r|].
  rewrite (proj2 (Z.eqb_neq c slash)), (proj2 (Z.eqb_neq c 0)), IH by done. cbn [length]. do 2 f_equal. lia.
Qed.
Lemma strchr_none w : Forall (fun c => c <> slash /\ c <> 0) w -> forall o, strchr_loop o (w ++ [0]) slash = Some None.
Proof.
  induction 1 as [|c w [Hc H0] Hw IH]; intros o; cbn [app strchr_loop]; [done|]. by rewrite (proj2 (Z.eqb_neq c slash)), (proj2 (Z.eqb_neq c 0)), IH by done.
Qed.
Lemma root_clear root : is_root root -> clear root.
Proof. intros [->|[->|(d & -> & _ & Hd)]]; repeat constructor; done. Qed.
Lemma root_head root t : is_root root -> bool_decide (list.head (root ++ slash :: t) = Some hash) = bool_decide (root <> []).
Proof. intros [->|[->|(d & -> & _ & Hd)]]; done. Qed.
(** The name below a root is cleaned, and the slash after a device goes. *)
Lemma cleancname_root root t : is_root root -> text t -> cleancname (root ++ slash :: t) = Some (named root (rooted_path t)).
Proof.
  intros Hr Ht. unfold cleancname, named. rewrite root_head by done. case_bool_decide as Hn.
  - rewrite <- app_assoc. cbn [app]. rewrite strchr_here by by apply root_clear. cbn [mbind option_bind]. rewrite Z.add_0_l, Nat2Z.id, list.drop_app_length, cleaned_rooted by done. cbn [mbind option_bind].
    rewrite list.take_app_length. set (x := rooted_path t). assert (Hg : good true x) by (unfold x; rewrite <- path_rooted; apply (path_good (slash :: t)); by constructor).
    assert (Ep : bool_decide (shown true x = [slash]) = bool_decide (nothing x)).
    { apply bool_decide_ext. rewrite <- (shown_front true) by apply (good_ok _ _ Hg). split; [by intros ->|]. unfold shown. cbn [app length Nat.b2n]. intros [= El]. by destruct (joined _). }
    rewrite Ep. destruct Hr as [->|[->|(d & -> & Hd & Hc)]]; [done| |].
    + cbn [app lookup list_lookup]. rewrite (bool_decide_eq_true_2 (Some slash = _)) by done. cbn [negb]. rewrite andb_false_r. by rewrite (bool_decide_eq_false_2 (1 < _)%nat) by (cbn; lia).
    + destruct d as [|c d]; [done|]. apply Forall_cons_iff in Hc as [[Hc _] _]. cbn [app lookup list_lookup]. rewrite (bool_decide_eq_false_2 (Some c = _)) by (by intros [= ->]). cbn [negb]. rewrite andb_true_r.
      rewrite (bool_decide_eq_true_2 (1 < _)%nat) by (cbn; lia). cbn [andb]. by destruct (bool_decide (nothing x)).
  - assert (root = []) as -> by (by destruct root; [|contradict Hn]). cbn [app length]. rewrite cleaned_rooted by done. by rewrite bool_decide_eq_false_2 by lia.
Qed.

Lemma last_app_ne (a b : list Z) : b <> [] -> list.last (a ++ b) = list.last b.
Proof. destruct b as [|c b _] using rev_ind; [done|]. intros _. by rewrite app_assoc, !last_snoc. Qed.
Lemma addelem_slash root x e : is_root root -> good true x -> clear e -> let n := named root x in
  n ++ (if bool_decide (n <> []) && negb (bool_decide (list.last n = Some slash)) && negb (bool_decide (list.head e = Some slash)) then [slash] else []) ++ e = root ++ shown true x ++ sep x ++ e.
Proof.
  intros Hr Hg He. cbv zeta. rewrite clear_head by done. cbn [negb]. rewrite andb_true_r. unfold named. destruct (bool_decide (1 < length root)%nat && bool_decide (nothing x)) eqn:E.
  - apply andb_true_iff in E as [H1%bool_decide_eq_true_1 H2]. unfold sep. rewrite H2. apply bool_decide_eq_true_1 in H2.
    assert (Es : shown true x = [slash]) by (apply (shown_front true x) in H2; [|by apply good_ok]; unfold shown in *; cbn [app length Nat.b2n] in *; injection H2 as H2; by destruct (joined _)).
    rewrite Es. rewrite (bool_decide_eq_true_2 (root <> [])) by (intros ->; cbn in H1; lia). rewrite bool_decide_eq_false_2; [done|]. pose proof (root_clear _ Hr) as Hc. destruct root as [|c root _] using rev_ind; [cbn in H1; lia|].
    rewrite last_snoc. intros [= ->]. apply Forall_app in Hc as [_ Hc]. by apply Forall_cons_iff in Hc as [[? _] _].
  - rewrite last_app_ne by done. rewrite shown_last by done. rewrite (bool_decide_eq_true_2 (_ ++ _ <> [])) by (by intros [_ En]%app_eq_nil). unfold sep. cbn [andb]. rewrite <- app_assoc. by destruct (bool_decide (nothing x)).
Qed.
Lemma named_not_nothing root x : ~ nothing x -> named root x = root ++ shown true x.
Proof. intros Hn. unfold named. by rewrite (bool_decide_eq_false_2 (nothing x)), andb_false_r. Qed.
Lemma addelem_named root x e : is_root root -> good true x -> erased x = false -> clear e -> e <> [] -> addelem (named root x) e = Some (named root (step true x e)).
Proof.
  intros Hr Hg Hx He Hn. unfold addelem. case_bool_decide as Hd; [by rewrite word_step by (unfold word; subst e; done)|]. rewrite addelem_slash by done.
  destruct (rooted_more x e Hg Hx He) as (t & Et & Ht & Ep). unfold isdotdot. case_bool_decide as Hdd; [by rewrite Et, cleancname_root, Ep|].
  assert (Es : step true x e = mkPath (ups x) (downs x ++ [e]) (erased x)) by (unfold step; rewrite decide_False by (by intros [?|?]); by rewrite decide_False).
  rewrite Es. rewrite named_not_nothing by (intros [_ Ea]; by destruct (downs x)). do 2 f_equal. symmetry. exact (shown_down true x e (good_ok _ _ Hg)).
Qed.
Lemma addelems_named root es : is_root root -> Forall (fun e => clear e /\ e <> []) es -> forall x, good true x -> erased x = false -> addelems (named root x) es = Some (named root (fold_left (step true) es x)).
Proof.
  intros Hr. induction 1 as [|e es [He Hn] Hes IH]; intros x Hg Hx; [done|]. cbn [addelems fold_left]. rewrite addelem_named by done. cbn [mbind option_bind].
  apply IH; [by apply step_good|by rewrite step_erased].
Qed.
Lemma addelems_words root s : is_root root -> text s -> addelems (named root (mkPath 0 [] false)) (words s) = Some (named root (rooted_path s)).
Proof.
  intros Hr Ht. rewrite addelems_named; [by unfold words; rewrite fold_words|done| |by split; [constructor|]|done].
  pose proof (words_clear s Ht) as Hc. unfold words in *. induction (split s) as [|e es IH]; [constructor|]. rewrite filter_cons in *. case_decide as Hw; [|by apply IH].
  apply Forall_cons_iff in Hc as [He Hc]. constructor; [|by apply IH]. split; [done|]. by intros ->.
Qed.

(** ** parsename *)

Lemma split_cons_slash t : split (slash :: t) = [] :: split t.
Proof. done. Qed.
Lemma split_dot t : ends t -> split (period :: t) = dot :: match t with [] => [] | _ :: t => split t end.
Proof. destruct t as [|c t]; [done|]. cbn [ends]. intros ->. done. Qed.
Definition lastword (es : list (list Z)) : bool := match list.last es with Some e => word e | None => false end.
Lemma split_not_nil t : split t <> [].
Proof. destruct t as [|c t]; [done|]. cbn [split]. destruct (c =? slash); [done|]. by destruct (split t). Qed.
Lemma lastword_cons e es : es <> [] -> lastword (e :: es) = lastword es.
Proof. by destruct es. Qed.
Lemma words_cons e es : filter (fun e => word e = true) (e :: es) = (if word e then [e] else []) ++ filter (fun e => word e = true) es.
Proof. rewrite filter_cons. destruct (decide (word e = true)) as [E|E]; [by rewrite E|]. by rewrite (not_true_is_false _ E). Qed.
(** What is skipped holds no word, and then a word comes. *)
Record skipped (t t' : list Z) : Prop := {
  sk_prefix : exists p, t = p ++ t' /\ forall pos, word_ends pos (split t) = word_ends (pos + length p) (split t');
  sk_words : words t = words t';
  sk_last : lastword (split t) = lastword (split t');
}.
Lemma skipped_refl t : skipped t t.
Proof. split; [|done|done]. exists []. split; [done|]. intros pos. cbn. by rewrite Nat.add_0_r. Qed.
Lemma skipped_cons c t t' : c = slash \/ c = period /\ ends t -> skipped t t' -> skipped (c :: t) t'.
Proof.
  intros Hc [(p & -> & Hw) Hs Hl]. set (t := p ++ t') in *. pose proof (split_not_nil t) as Hn. destruct Hc as [->|[-> He]].
  - split; rewrite ?split_cons_slash.
    + exists (slash :: p). split; [done|]. intros pos. cbn [word_ends length]. change (word []) with false. cbn [app]. rewrite Hw. f_equal. lia.
    + unfold words in *. by rewrite split_cons_slash, words_cons.
    + by rewrite lastword_cons.
  - assert (Et : t = [] \/ exists r, t = slash :: r) by (destruct t as [|c r]; [by left|right; exists r; cbn in He; by subst]). split.
    + exists (period :: p). split; [done|]. intros pos. rewrite split_dot by done. cbn [word_ends length]. change (word dot) with false. change (length dot) with 1%nat. cbn [app].
      replace (pos + Datatypes.S (length p))%nat with (pos + 1 + length p)%nat by lia. rewrite <- Hw. destruct Et as [->|[r ->]]; [done|]. rewrite split_cons_slash. cbn [word_ends length]. change (word []) with false. cbn [app]. f_equal. lia.
    + rewrite <- Hs. unfold words. rewrite split_dot by done. rewrite words_cons. change (word dot) with false. destruct Et as [->|[r ->]]; done.
    + rewrite <- Hl, split_dot by done. destruct Et as [->|[r ->]]; [done|]. rewrite split_cons_slash, !lastword_cons by apply split_not_nil. done.
Qed.
Lemma skipslash_skipped t : skipped t (skipslash t).
Proof.
  induction t as [|c t IH]; [apply skipped_refl|]. cbn [skipslash]. destruct (c =? slash) eqn:E1; [apply Z.eqb_eq in E1; apply skipped_cons; auto|]. cbn [orb].
  destruct ((c =? period) && _) eqn:E2; [|apply skipped_refl]. apply andb_true_iff in E2 as [->%Z.eqb_eq E2]. apply skipped_cons; [|done]. right. split; [done|]. destruct t as [|c1 t]; [done|]. by apply Z.eqb_eq in E2.
Qed.
Lemma skipslash_word t : skipslash t = [] \/ exists w t1, skipslash t = w ++ t1 /\ Forall (fun c => c <> slash) w /\ ends t1 /\ word w = true.
Proof.
  induction t as [|c t IH]; [by left|]. cbn [skipslash]. destruct ((c =? slash) || _) eqn:E; [done|]. right. apply orb_false_iff in E as [Ec%Z.eqb_neq E].
  destruct (split_elem (c :: t)) as (w & t1 & es & Et & Hw & He & _). exists w, t1. do 3 (split; [done|]). unfold word. rewrite !bool_decide_eq_false_2; [done| |].
  - intros ->. cbn in Et. injection Et as -> Et. subst t. rewrite Z.eqb_refl in E. cbn [andb] in E. destruct t1 as [|c1 t1]; [done|]. cbn in He. subst. done.
  - intros ->. cbn in Et. subst t1. by cbn in He.
Qed.
(** The number of offsets there is room for, and those that growparse does not copy. *)
Definition room_for (n : nat) : nat := if (n =? 0)%nat then 1%nat else (8 * ((n + 7) / 8) + 1)%nat.
Definition lost (i n : nat) : bool := (i mod Delta =? 0)%nat && (i <? n)%nat.
Record offs (e : Elemlist) (ends : list nat) : Prop := {
  offs_count : length ends = (nelems e + 1)%nat;
  offs_room : length (off e) = room_for (nelems e);
  offs_at : forall i x, ends !! i = Some x -> off e !! i = Some (if lost i (nelems e) then 0 else Z.of_nat x);
}.
Lemma room_next n : (n + 1 < room_for (n + 1))%nat /\ (n < room_for n)%nat /\ (n mod 8 = 0 -> room_for (n + 1) = n + 9)%nat /\ (n mod 8 <> 0 -> room_for (n + 1) = room_for n)%nat.
Proof.
  unfold room_for. rewrite (proj2 (Nat.eqb_neq (n + 1) 0)) by lia. destruct (Nat.eqb_spec n 0) as [->|Hn]; [by vm_compute; lia|].
  assert (E : n = (8 * (n / 8) + n mod 8)%nat) by (apply Nat.div_mod_eq). pose proof (Nat.mod_upper_bound n 8). set (q := (n / 8)%nat) in *. set (r := (n mod 8)%nat) in *.
  assert (E1 : ((n + 1 + 7) / 8 = q + 1)%nat) by (symmetry; apply (Nat.div_unique _ 8 _ r); lia).
  assert (E2 : ((n + 7) / 8 = if r =? 0 then q else q + 1)%nat) by (destruct (Nat.eqb_spec r 0); symmetry; [apply (Nat.div_unique _ 8 _ 7)|apply (Nat.div_unique _ 8 _ (r - 1))]; lia).
  rewrite E1, E2. destruct (Nat.eqb_spec r 0); lia.
Qed.
Lemma offs_put e ends w x b : offs e ends -> exists o, wr (off (growparse e)) (nelems e + 1) (Z.of_nat x) = Some o /\ offs (mkElemlist (elems e ++ [w]) o b) (ends ++ [x]).
Proof.
  intros [Hc Hr Ha]. set (n := nelems e) in *. destruct (room_next n) as (R1 & R2 & R3 & R4).
  assert (Hg : length (off (growparse e)) = room_for (n + 1) /\ forall i y, ends !! i = Some y -> off (growparse e) !! i = Some (if lost i (n + 1) then 0 else Z.of_nat y)).
  { unfold growparse. change (nelems e) with n. change Delta with 8%nat. destruct (Nat.eqb_spec (n mod 8) 0) as [E|E]; cbn [off].
    - split; [rewrite length_app, length_take, length_replicate, Hr; unfold Delta; lia|]. intros i y Hy. pose proof (lookup_lt_Some _ _ _ Hy) as Hi. destruct (decide (i < n)%nat) as [Hlt|Hge].
      + rewrite lookup_app_l, lookup_take_lt by (rewrite ?length_take; lia). rewrite (Ha i y Hy). unfold lost. by rewrite !(proj2 (Nat.ltb_lt _ _)) by lia.
      + assert (i = n) as -> by lia. rewrite lookup_app_r by (rewrite length_take; lia). rewrite length_take. rewrite lookup_replicate_2 by lia. unfold lost, Delta. rewrite E. by rewrite (proj2 (Nat.ltb_lt _ _)) by lia.
    - split; [by rewrite Hr, R4|]. intros i y Hy. pose proof (lookup_lt_Some _ _ _ Hy) as Hi. rewrite (Ha i y Hy). unfold lost, Delta. destruct (decide (i < n)%nat) as [Hlt|Hge]; [by rewrite !(proj2 (Nat.ltb_lt _ _)) by lia|].
      assert (i = n) as -> by lia. by rewrite (proj2 (Nat.eqb_neq _ _) E). }
  destruct Hg as [Hl Hg]. unfold wr. rewrite (proj2 (Nat.ltb_lt _ _)) by lia. eexists. split; [done|]. assert (En : forall o, nelems (mkElemlist (elems e ++ [w]) o b) = (n + 1)%nat) by (intros o; unfold nelems; cbn [elems]; by rewrite length_app).
  split; rewrite ?En; [rewrite length_app; cbn; lia|cbn [off]; by rewrite length_insert|]. intros i y Hy. cbn [off]. apply lookup_app_Some in Hy as [Hy|[Hi Hy]].
  - pose proof (lookup_lt_Some _ _ _ Hy). rewrite list_lookup_insert_ne by lia. by apply Hg.
  - pose proof (lookup_lt_Some _ _ _ Hy) as Hlt. cbn in Hlt. assert (i = (n + 1)%nat) as -> by lia. rewrite Hc, Nat.sub_diag in Hy. injection Hy as <-. rewrite list_lookup_insert_eq by lia. unfold lost. by rewrite Nat.ltb_irrefl, andb_false_r.
Qed.
Lemma utfrune_slash w t1 : text (w ++ t1) -> Forall (fun c => c <> slash) w -> ends t1 -> utfrune ((w ++ t1) ++ [0]) slash = Some (match t1 with [] => None | _ => Some (Z.of_nat (length w)) end).
Proof.
  intros Ht Hw He. change (strchr_loop 0 ((w ++ t1) ++ [0]) slash = Some (match t1 with [] => None | _ => Some (Z.of_nat (length w)) end)).
  assert (Hc : Forall (fun c => c <> slash /\ c <> 0) w) by (apply Forall_and; [done|by apply Forall_app in Ht as [? _]]). destruct t1 as [|c t1]; [rewrite app_nil_r; by apply strchr_none|].
  cbn in He. subst c. rewrite <- app_assoc. cbn [app]. by rewrite strchr_here.
Qed.
Lemma parse_loop_ok n : forall name e pos xs fuel, (length name <= n)%nat -> (n < fuel)%nat -> text name -> offs e xs -> xs <> [] ->
  exists e', parse_loop fuel (Z.of_nat (pos + length name)) name e = Some e' /\
    elems e' = elems e ++ words name /\ offs e' (xs ++ word_ends pos (split name)) /\ mustbedir e' = negb (lastword (split name)).
Proof.
  induction n as [n IH] using (well_founded_induction lt_wf). intros name e pos xs fuel Hn Hf Ht Ho Hx. destruct fuel as [|fuel]; [lia|]. cbn [parse_loop].
  destruct (skipslash_skipped name) as [(p & Ep & Hw) Hs Hl]. rewrite Hs, Hw, Hl. assert (Ht' : text (skipslash name)) by (rewrite Ep in Ht; by apply Forall_app in Ht as [_ ?]).
  assert (En : length name = (length p + length (skipslash name))%nat) by (rewrite Ep at 1; apply length_app).
  destruct (skipslash_word name) as [E|(w & t1 & E & Hc & He & Hword)]; rewrite E in *.
  { eexists. split; [done|]. change (words []) with (@nil (list Z)). change (word_ends _ (split [])) with (@nil nat). rewrite !app_nil_r. split; [done|]. split; [|done]. by destruct Ho. }
  destruct w as [|z w']; [done|]. assert (Ez : (z :: w') ++ t1 = z :: w' ++ t1) by done. rewrite Ez. cbv iota. rewrite <- Ez. clear Ez. set (w := z :: w') in *. clearbody w.
  rewrite utfrune_slash by done. cbn [mbind option_bind].
  assert (Ee : elems (growparse e) = elems e) by (unfold growparse; by destruct (_ =? _)%nat). assert (Ene : nelems (growparse e) = nelems e) by (unfold nelems; by rewrite Ee). rewrite Ee, Ene. rewrite length_app in En.
  destruct t1 as [|c t1].
  - rewrite app_nil_r in *. destruct (offs_put e xs w (pos + length name) false Ho) as (o & Eo & Ho'). rewrite Eo. cbn [mbind option_bind]. eexists. split; [done|]. unfold words. rewrite split_word by done.
    rewrite words_cons. cbn [word_ends elems]. rewrite Hword. split; [done|]. split; [|unfold lastword; cbn; by rewrite Hword]. cbn [app]. cbn in En. by replace (pos + length p + length w)%nat with (pos + length name)%nat by lia.
  - cbn in He. subst c. cbn [length] in En. rewrite (length_app w). cbn [length]. replace (Z.of_nat (pos + length name) - Z.of_nat (length w + Datatypes.S (length t1)) + Z.of_nat (length w)) with (Z.of_nat (pos + length p + length w)) by lia.
    destruct (offs_put e xs w (pos + length p + length w) (mustbedir (growparse e)) Ho) as (o & Eo & Ho'). rewrite Eo. cbn [mbind option_bind]. rewrite Nat2Z.id, list.take_app_length.
    replace (drop (length w + 1) (w ++ slash :: t1)) with t1 by (rewrite Nat.add_1_r; by rewrite drop_app_ge, Nat.sub_succ_l, Nat.sub_diag by lia).
    assert (Ht1 : text t1) by (apply Forall_app in Ht' as [_ Ht1]; by apply Forall_cons_iff in Ht1 as [_ ?]).
    destruct (IH (length t1) ltac:(lia) t1 _ (pos + length p + length w + 1)%nat _ fuel (le_n _) ltac:(lia) Ht1 Ho') as (e' & Er & Hel & Hof & Hmb); [by intros [_ ?]%app_eq_nil|].
    replace (pos + length p + length w + 1 + length t1)%nat with (pos + length name)%nat in Er by lia. exists e'. split; [done|]. unfold words at 1. rewrite split_slash, split_word by done. cbn [app].
    rewrite words_cons, lastword_cons by apply split_not_nil. cbn [word_ends]. rewrite Hword. split; [by rewrite Hel; cbn [elems]; rewrite <- app_assoc|]. split; [by rewrite <- app_assoc in Hof|done].
Qed.
Lemma parsename_ok s : text s -> exists e, parsename s = Some e /\ elems e = words s /\ offs e ((length s - length (skipslash s))%nat :: word_ends 0 (split s)) /\ mustbedir e = negb (lastword (split s)).
Proof.
  intros Ht. assert (Ho : offs (mkElemlist [] [Z.of_nat (length s - length (skipslash s))] false) [(length s - length (skipslash s))%nat]).
  { split; [done|done|]. intros [|i] x Hx; [|by apply lookup_nil_Some in Hx || destruct i]. by injection Hx as <-. }
  destruct (parse_loop_ok (length s) s _ 0 _ (S (length s)) ltac:(lia) ltac:(lia) Ht Ho ltac:(done)) as (e & E & Hel & Hof & Hm). exists e. split; [|done].
  unfold parsename. destruct (skipslash_skipped s) as [(p & Ep & _) _ _]. assert (En : length s = (length p + length (skipslash s))%nat) by (rewrite Ep at 1; apply length_app).
  rewrite Nat2Z.inj_sub in E by lia. exact E.
Qed.

(** ** validname *)

Definition bad (slashok : bool) (c : Z) : bool := (c <? Runeself) && isfrog c && (negb slashok || negb (c =? slash)).
Lemma high_not_bad slashok cs : Forall (fun b => 128 <= b) cs -> existsb (bad slashok) cs = false.
Proof. induction 1 as [|c cs Hc _ IH]; [done|]. cbn [existsb]. rewrite IH, orb_false_r. unfold bad. change Runeself with 128. by rewrite (proj2 (Z.ltb_ge c 128)). Qed.
(** A rune that does not begin with an ASCII character holds none, nor the NUL. *)
Lemma chartorune_high c q rest : Forall is_byte (c :: q ++ 0 :: rest) -> 128 <= c ->
  exists r h q', chartorune (c :: q ++ 0 :: rest) = Some (r, Z.of_nat (Datatypes.S (length h))) /\ q = h ++ q' /\ Forall (fun b => 128 <= b) h.
Proof.
  intros Hb Hc. destruct (chartorune_nul c q rest Hb) as (r & m & E & Hm). destruct (chartorune_exact _ _ _ Hb E) as (_ & _ & Hr).
  set (k := (Z.to_nat m - 1)%nat). exists r, (take k q), (drop k q). assert (Ek : length (take k q) = k) by (rewrite length_take; lia). rewrite Ek, take_drop. split; [by replace (Z.of_nat (Datatypes.S k)) with m by lia|]. split; [done|].
  destruct Hr as [[Hv Ht]|[_ ->]]; [|constructor]. replace (Z.to_nat m) with (Datatypes.S k) in Ht by lia. cbn [take] in Ht. rewrite take_app_le in Ht by lia.
  destruct (Z.lt_ge_cases r 128) as [Hlo|Hhi].
  - assert (Eu : utf8 r = [r]) by (unfold utf8; by rewrite (proj2 (Z.ltb_lt r 128))). rewrite Eu in Ht. injection Ht as -> _. lia.
  - pose proof (utf8_high r Hv Hhi) as Hh. rewrite <- Ht in Hh. by apply Forall_cons_iff in Hh as [_ ?].
Qed.
Lemma valid_loop_ok slashok rest n : forall s fuel, (length s <= n)%nat -> (n < fuel)%nat -> Clean.text s -> Forall is_byte (s ++ 0 :: rest) ->
  valid_loop fuel (s ++ 0 :: rest) slashok = Some (if existsb (bad slashok) s then Vbadchar else Vok).
Proof.
  induction n as [n IH] using (well_founded_induction lt_wf). intros s fuel Hn Hf Ht Hb. destruct fuel as [|fuel]; [lia|]. destruct s as [|c s]; [done|].
  apply Forall_cons_iff in Ht as [Hc Ht]. cbn [length] in Hn. cbn [app valid_loop existsb]. rewrite (proj2 (Z.eqb_neq c 0)) by done. destruct (Runeself <=? c) eqn:Eh.
  - change Runeself with 128 in Eh. apply Z.leb_le in Eh. destruct (chartorune_high c s rest Hb Eh) as (r & h & q & E & -> & Hh). rewrite E. cbn [mbind option_bind]. rewrite Nat2Z.id. cbn [drop].
    rewrite existsb_app, (high_not_bad _ h) by done. assert (Ec : bad slashok c = false) by (pose proof (high_not_bad slashok [c] ltac:(by constructor)) as Hx; cbn in Hx; by rewrite orb_false_r in Hx). rewrite Ec. cbn [orb].
    rewrite <- app_assoc, list.drop_app_length. rewrite length_app in Hn. apply (IH (length q)); [lia|lia|lia|by apply Forall_app in Ht as [_ ?]|]. cbn [app] in Hb. rewrite <- app_assoc in Hb. apply Forall_cons_iff in Hb as [_ Hb]. by apply Forall_app in Hb as [_ ?].
  - unfold bad at 1. rewrite (proj2 (Z.ltb_lt c Runeself)) by (apply Z.leb_gt in Eh; lia). cbn [andb]. destruct (isfrog c && _); cbn [orb]; [done|].
    apply (IH (length s)); [lia|lia|lia|done|]. by apply Forall_cons_iff in Hb as [_ ?].
Qed.
Lemma find_nul s rest : Clean.text s -> forall n, (list_find (fun c => c = 0) (take n (s ++ 0 :: rest)) = None <-> (n <= length s)%nat).
Proof.
  induction 1 as [|c s Hc Hs IH]; intros n; (destruct n as [|n]; [split; [cbn; lia|done]|]); cbn [app take list_find length].
  - rewrite decide_True by done. split; [done|lia].
  - rewrite decide_False by done. rewrite fmap_None, IH. lia.
Qed.
(** validname accepts the names of fewer than 65536 bytes with no control character,
    and no slash if it is an error; the bytes of a longer rune are none of these, and
    none of them is passed over the NUL. *)
Theorem validname_ok s rest slashok : Clean.text s -> Forall is_byte (s ++ 0 :: rest) ->
  validname (s ++ 0 :: rest) slashok = Some (if 65536 <=? Z.of_nat (length s) then Vtoolong else if existsb (bad slashok) s then Vbadchar else Vok).
Proof.
  intros Ht Hb. unfold validname. pose proof (find_nul s rest Ht (Z.to_nat 65536)) as Hn. destruct (list_find _ _) as [p|].
  - destruct (Z.leb_spec 65536 (Z.of_nat (length s))) as [H1|H1]; [exfalso|]. { assert (Ex : Some p = None) by (apply Hn; lia). done. }
    apply (valid_loop_ok _ _ (length s)); [lia| |done|done]. rewrite length_app. lia.
  - rewrite (proj2 (Z.leb_le _ _)); [done|]. assert (Z.to_nat 65536 <= length s)%nat by by apply Hn. lia.
Qed.

(** ** The name of a channel *)

(** The name of what the name [s] is of, below a root. *)
Definition cname (root s : list Z) : list Z :=
  let p := clean (slash :: s) in
  if bool_decide (1 < length root)%nat && bool_decide (p = [slash]) then root else root ++ p.
Lemma cname_named root s : text s -> cname root s = named root (rooted_path s).
Proof.
  intros Ht. unfold cname, named. cbv zeta. rewrite clean_rooted. assert (Hg : good true (rooted_path s)) by (rewrite <- path_rooted; apply (path_good (slash :: s)); by constructor).
  replace (bool_decide (shown true (rooted_path s) = [slash])) with (bool_decide (nothing (rooted_path s))); [done|]. apply bool_decide_ext. rewrite <- (shown_front true) by apply (good_ok _ _ Hg).
  split; [|by intros ->]. unfold shown. cbn [app length Nat.b2n]. intros [= El]. by destruct (joined _).
Qed.
(** C18. The elements parsename takes from a name, put one by one by addelem after the
    name of the root, "/" or a device such as "#i" or "#/", make the cleaned name
    below the root: a ".." takes the element before it, "." and empty elements leave
    nothing, a device is not followed by a slash alone, and no step writes past the
    end of the name. *)
Theorem channel_name root s : is_root root -> text s ->
  exists e, parsename s = Some e /\ addelems (cname root []) (elems e) = Some (cname root s).
Proof.
  intros Hr Ht. destruct (parsename_ok s Ht) as (e & E & Hel & _). exists e. split; [done|].
  rewrite Hel, !cname_named by (done || constructor). by apply addelems_words.
Qed.
(** C30. parsename takes the elements of a name that are neither empty nor ".", says
    that the name must be of a directory if one of these is last, and notes where each
    element ends in the name; but when growparse takes a larger array for the elements,
    before every eighth, the offset last noted is not copied and is zero from then on.
    All its accesses are within the arrays. *)
Theorem parsename_correct s : text s ->
  exists e, parsename s = Some e /\ elems e = words s /\ mustbedir e = negb (lastword (split s)) /\
    (forall i x, ((length s - length (skipslash s))%nat :: word_ends 0 (split s)) !! i = Some x ->
      off e !! i = Some (if (i mod Delta =? 0)%nat && (i <? nelems e)%nat then 0 else Z.of_nat x)).
Proof.
  intros Ht. destruct (parsename_ok s Ht) as (e & E & Hel & [_ _ Ho] & Hm). by exists e.
Qed.
(** "#i/a/./../b" and "a//b". *)
Example channel_name_witness :
  is_root [35; 105] /\ text [97; 47; 46; 47; 46; 46; 47; 98] /\ cname [35; 105] [97; 47; 46; 47; 46; 46; 47; 98] = [35; 105; 47; 98] /\
  exists e, parsename [97; 47; 46; 47; 46; 46; 47; 98] = Some e /\ addelems (cname [35; 105] []) (elems e) = Some (cname [35; 105] [97; 47; 46; 47; 46; 46; 47; 98]).
Proof.
  assert (Hr : is_root [35; 105]) by (right; right; exists [105]; split; [reflexivity|]; split; [discriminate|]; repeat constructor; discriminate).
  assert (Ht : text [97; 47; 46; 47; 46; 46; 47; 98]) by (unfold text; repeat constructor; discriminate).
  split; [exact Hr|]. split; [exact Ht|]. split; [vm_compute; reflexivity|]. exact (channel_name _ _ Hr Ht).
Defined.
(** The name "a/a/a/a/a/a/a/a/a": the end of the eighth element is lost. *)
Definition nine : list Z := [97; 47; 97; 47; 97; 47; 97; 47; 97; 47; 97; 47; 97; 47; 97; 47; 97].
Example parsename_correct_witness :
  text nine /\ word_ends 0 (split nine) = [1; 3; 5; 7; 9; 11; 13; 15; 17]%nat /\
  exists e, parsename nine = Some e /\ nelems e = 9%nat /\ off e !! 8%nat = Some 0 /\ off e !! 9%nat = Some 17.
Proof.
  assert (Ht : text nine) by (unfold text, nine; repeat constructor; discriminate).
  split; [exact Ht|]. split; [vm_compute; reflexivity|]. destruct (parsename_correct nine Ht) as (e & E & Hel & _ & Ho). exists e. split; [exact E|].
  assert (Hn : nelems e = 9%nat) by (unfold nelems; rewrite Hel; vm_compute; reflexivity). rewrite Hn in Ho. split; [exact Hn|]. split; [apply (Ho 8%nat 15%nat)|apply (Ho 9%nat 17%nat)]; vm_compute; reflexivity.
Defined.
