(* ===== verification/Ns.v ===== *)
(** * The name space (emu/port/chan.c, pgrp.c)

    Channels, the mount table of a process group, and the walk of a path through it.
    Channels and mount heads are counted and have their addresses; the mounts of a
    head are a list, for no other pointer to one is followed.  The state is that of
    one group; what another group, a file descriptor or a caller refers to is in the
    counts.

    A process holds locks, for reading or writing alike: taking one that it holds is
    [Fault], for it would wait for itself; no other process uses the name space
    meanwhile.  [mem] is how often malloc succeeds.  What a device does is given by
    the class [Dev]: a walk from a file, by the type and number of its device and its
    qid.  A name is the list of its bytes, copied where the code shares one.  Closing
    a file at its device changes nothing here, and the channel that a union is read
    by (umc) and the state of the mount driver (mux) are not in a channel. *)

From S2P Require Import Prelude Clean Path.

(** ** The data *)

Definition MORDER : Z := 3.
Definition MREPL : Z := 0.
Definition MBEFORE : Z := 1.
Definition MAFTER : Z := 2.
Definition MCREATE : Z := 4.
Definition QTDIR : Z := 128.
Definition MNTHASH : nat := 32.
Definition MAXWELEM : nat := 16.
Definition Emount : string := "inconsistent mount".
Definition Eunmount : string := "not mounted".
Definition Eunion : string := "not in union".
Definition Enotdir : string := "not a directory".
Definition Edoesnotexist : string := "does not exist".
Definition Enomem : string := "out of memory: kernel".
Definition Enocreate : string := "mounted directory forbids creation".

Record Qid : Type := mkQid { q_path : Z; q_vers : Z; q_type : Z }.
(** What a channel is of, apart from how often it is referred to. *)
Record Chan : Type := mkChan {
  c_type : Z; c_dev : Z; c_qid : Qid; c_umh : option Z; c_mchan : option Z; c_name : list Z;
}.
Record Mount : Type := mkMount { m_id : Z; m_to : Z; m_flag : Z; m_spec : list Z }.
Record Mhead : Type := mkMhead { h_ref : Z; h_from : Z; h_mount : list Mount }.
Inductive lock : Type := Lns | Lhead (h : Z).
#[export] Instance lock_eq : EqDecision lock.
Proof. solve_decision. Defined.
(** A channel with its count. *)
Record nst : Type := mkNst {
  chans : gmap Z (Z * Chan); heads : gmap Z Mhead; mnthash : list (list Z); mountid : Z; held : list lock; mem : nat;
}.
Definition with_chans (f : gmap Z (Z * Chan) -> gmap Z (Z * Chan)) (s : nst) : nst := mkNst (f (chans s)) (heads s) (mnthash s) (mountid s) (held s) (mem s).
Definition with_heads (f : gmap Z Mhead -> gmap Z Mhead) (s : nst) : nst := mkNst (chans s) (f (heads s)) (mnthash s) (mountid s) (held s) (mem s).
Definition with_hash (f : list (list Z) -> list (list Z)) (s : nst) : nst := mkNst (chans s) (heads s) (f (mnthash s)) (mountid s) (held s) (mem s).
Definition with_mountid (n : Z) (s : nst) : nst := mkNst (chans s) (heads s) (mnthash s) n (held s) (mem s).
Definition with_held (f : list lock -> list lock) (s : nst) : nst := mkNst (chans s) (heads s) (mnthash s) (mountid s) (f (held s)) (mem s).
Definition with_mem (n : nat) (s : nst) : nst := mkNst (chans s) (heads s) (mnthash s) (mountid s) (held s) n.
Definition set_umh (u : option Z) (c : Chan) : Chan := mkChan (c_type c) (c_dev c) (c_qid c) u (c_mchan c) (c_name c).
Definition set_name (n : list Z) (c : Chan) : Chan := mkChan (c_type c) (c_dev c) (c_qid c) (c_umh c) (c_mchan c) n.
Definition set_href (n : Z) (h : Mhead) : Mhead := mkMhead n (h_from h) (h_mount h).
Definition set_mount (l : list Mount) (h : Mhead) : Mhead := mkMhead (h_ref h) (h_from h) l.

Abbreviation NS := (ST nst).
Definition chan (p : Z) : NS (Z * Chan) := fun s => of_option (chans s !! p) s.
Definition head (h : Z) : NS Mhead := fun s => of_option (heads s !! h) s.
Definition put_chan (p : Z) (c : Z * Chan) : NS unit := modify (with_chans (<[p := c]>)).
Definition put_head (h : Z) (m : Mhead) : NS unit := modify (with_heads (<[h := m]>)).
Definition wlock (l : lock) : NS unit := b ← gets (fun s => bool_decide (l ∈ held s)); if b : bool then fault else modify (with_held (cons l)).
Definition wunlock (l : lock) : NS unit := modify (with_held (filter (fun x => x <> l))).
(** An address not in use. *)
Definition above {A} (m : gmap Z A) : Z := 1 + foldr Z.max 0 (map_to_list m).*1.
(** [if(waserror()) { h; nexterror(); } c; poperror();] *)
Definition trying {A} (c : NS A) (h : NS unit) : NS A := fun s => match c s with Err e s' => (h;; error e) s' | r => r end.
Definition malloc : NS bool := n ← gets mem; match n with O => mret false | Datatypes.S n => modify (with_mem n);; mret true end.

(** ** Counting *)

Definition incref (p : Z) : NS unit := '(n, c) ← chan p; put_chan p (n + 1, c).
Definition href (h : Z) : NS unit := m ← head h; put_head h (set_href (h_ref m + 1) m).
Definition putmhead (h : option Z) : NS unit :=
  match h with
  | None => mret tt
  | Some h =>
      m ← head h;
      if h_ref m - 1 =? 0 then modify (with_heads (delete h)) else put_head h (set_href (h_ref m - 1) m)
  end.
(** cclose and chanfree; a channel freed closes that of its server. *)
Fixpoint cclose_in (fuel : nat) (p : Z) : NS unit :=
  '(n, c) ← chan p;
  if negb (n - 1 =? 0) then put_chan p (n - 1, c)
  else
    modify (with_chans (delete p));;
    putmhead (c_umh c);;
    match c_mchan c with
    | None => mret tt
    | Some q => match fuel with O => fault | Datatypes.S fuel => cclose_in fuel q end
    end.
Definition cclose (p : option Z) : NS unit :=
  match p with
  | None => mret tt
  | Some p => n ← gets (fun s => size (chans s)); cclose_in n p
  end.

(** ** Devices *)

Definition is_dir (q : Qid) : bool := negb (Z.land (q_type q) QTDIR =? 0).
(** The qids of the names, as many as there are; if there are none at all, [nil]. *)
Class Dev : Type := dev_walk : Z -> Z -> Qid -> list (list Z) -> option (list Qid).
(** [nqid] and the [qid]s, and [clone]. *)
Record Walkqid : Type := mkWalkqid { wqid : list Qid; clone : option Z }.
Definition eqchan (a b : Chan) : bool := (q_path (c_qid a) =? q_path (c_qid b)) && (c_type a =? c_type b) && (c_dev a =? c_dev b).
Definition eqchantdqid (a : Chan) (type dev : Z) (qid : Qid) : bool := (q_path (c_qid a) =? q_path qid) && (c_type a =? type) && (c_dev a =? dev).
Definition bucket (q : Qid) : nat := Z.to_nat (Z.land (q_path q) (Z.of_nat MNTHASH - 1)).
Definition mounth (q : Qid) : NS (list Z) := t ← gets mnthash; of_option (t !! bucket q).

Section Walk.
Context {D : Dev}.

(** [devtab[c->type]->walk(c, nil, names, n)]: the qids, and a new channel to the
    last if all names are there; it is of the server [c] is of. *)
Definition devwalk (p : Z) (names : list (list Z)) : NS (option Walkqid) :=
  '(_, c) ← chan p;
  match dev_walk (c_type c) (c_dev c) (c_qid c) names with
  | None => mret None
  | Some qs =>
      if (length qs <? length names)%nat then mret (Some (mkWalkqid qs None))
      else
        match c_mchan c with None => mret tt | Some q => incref q end;;
        nc ← gets (fun s => above (chans s));
        put_chan nc (1, mkChan (c_type c) (c_dev c) (default (c_qid c) (list.last qs)) None (c_mchan c) []);;
        mret (Some (mkWalkqid qs (Some nc)))
  end.
Definition cclone (p : Z) : NS Z :=
  wq ← devwalk p [];
  match wq with
  | Some (mkWalkqid _ (Some nc)) => '(_, c) ← chan p; '(r, n) ← chan nc; put_chan nc (r, set_name (c_name c) n);; mret nc
  | _ => error "clone failed"
  end.
Definition cunique (p : Z) : NS Z :=
  '(n, _) ← chan p;
  if n =? 1 then mret p else nc ← cclone p; cclose (Some p);; mret nc.

(** ** Looking up *)

(** [cp] and [mp] are what [*cp] and [*mp] hold; with no [mp] the code is given nil. *)
Fixpoint find_loop (l : list Z) (cp : option Z) (mp : option (option Z)) (type dev : Z) (qid : Qid) : NS (option (Z * option (option Z))) :=
  match l with
  | [] => wunlock Lns;; mret None
  | h :: l =>
      wlock (Lhead h);;
      m ← head h;
      '(_, c) ← chan (h_from m);
      if eqchantdqid c type dev qid then
        wunlock Lns;;
        mp ← match mp with None => mret None | Some old => href h;; putmhead old;; mret (Some (Some h)) end;
        cclose cp;;
        m ← head h;
        match h_mount m with
        | [] => fault
        | f :: _ => incref (m_to f);; wunlock (Lhead h);; mret (Some (m_to f, mp))
        end
      else wunlock (Lhead h);; find_loop l cp mp type dev qid
  end.
Definition findmount (cp : option Z) (mp : option (option Z)) (type dev : Z) (qid : Qid) : NS (option (Z * option (option Z))) :=
  wlock Lns;; l ← mounth qid; find_loop l cp mp type dev qid.
Definition domount (cp : Z) (mp : option (option Z)) : NS (Z * option (option Z)) :=
  '(_, c) ← chan cp;
  r ← findmount (Some cp) mp (c_type c) (c_dev c) (c_qid c);
  mret (default (cp, mp) r).
(** The channel mounted on, if [c] is mounted there under the name. *)
Fixpoint undo_mounts (ts : list Mount) (from c : Z) : NS Z :=
  match ts with
  | [] => mret c
  | t :: ts =>
      '(_, cc) ← chan c; '(_, to) ← chan (m_to t);
      if eqchan cc to then incref from;; cclose (Some c);; mret from else undo_mounts ts from c
  end.
Fixpoint undo_heads (hs : list Z) (c : Z) (name : list Z) : NS Z :=
  match hs with
  | [] => mret c
  | h :: hs =>
      m ← head h;
      '(_, from) ← chan (h_from m);
      c ← (if bool_decide (c_name from = name) then undo_mounts (h_mount m) (h_from m) c else mret c);
      undo_heads hs c name
  end.
Definition undomount (c : Z) (name : list Z) : NS Z :=
  wlock Lns;;
  t ← gets mnthash;
  c ← trying (undo_heads (concat t) c name) (wunlock Lns);
  wunlock Lns;; mret c.

(** ** Mounting

    The mounts that mountfree frees are taken from their head before, as nothing looks
    at the head in between. *)

Definition newmhead (from : Z) : NS Z :=
  incref from;; h ← gets (fun s => above (heads s)); put_head h (mkMhead 1 from []);; mret h.
Definition newmount (to flag : Z) (spec : list Z) : NS Mount :=
  ok ← malloc;
  if negb ok then error Enomem
  else incref to;; i ← gets mountid; modify (with_mountid (i + 1));; mret (mkMount (i + 1) to flag spec).
Fixpoint mountfree (ms : list Mount) : NS unit :=
  match ms with [] => mret tt | m :: ms => cclose (Some (m_to m));; mountfree ms end.
(** The head of the directory, with those before and after it in its chain. *)
Fixpoint hash_find (l before : list Z) (old : Chan) : NS (list Z * option (Z * list Z)) :=
  match l with
  | [] => mret (before, None)
  | h :: l =>
      m ← head h;
      '(_, c) ← chan (h_from m);
      if eqchan c old then mret (before, Some (h, l)) else hash_find l (before ++ [h]) old
  end.
(** [for(um = um->next; um; um = um->next) ...] *)
Fixpoint copy_union (ums : list Mount) (flg : Z) : NS (list Mount) :=
  match ums with
  | [] => mret []
  | um :: ums => f ← newmount (m_to um) flg (m_spec um); fs ← copy_union ums flg; mret (f :: fs)
  end.
Definition set_mounts (h : Z) (l : list Mount) : NS unit := m ← head h; put_head h (set_mount l m).
Definition no_mount (h : option Z) : NS (list Mount) := match h with None => mret [] | Some h => m ← head h; mret (h_mount m) end.
Definition forbidden (flag : Z) (um : list Mount) : bool :=
  negb (Z.land flag MCREATE =? 0) && match um with [] => false | [f] => Z.land (m_flag f) MCREATE =? 0 | _ => true end.
Definition order_of (flag : Z) : Z := Z.land flag MORDER.
Definition attach (h : Z) (order : Z) (nm : list Mount) : NS unit :=
  m ← head h;
  (match h_mount m with
   | [] => mret tt
   | l => if order =? MREPL then set_mounts h [];; mountfree l else mret tt
   end);;
  m ← head h;
  if negb (match h_mount m with [] => true | _ => false end) && (order =? MAFTER)
  then set_mounts h (h_mount m ++ nm) else set_mounts h (nm ++ h_mount m).
(** The head of the directory, made and put into its chain if there is none; a union
    begins with the directory itself. *)
Definition mount_head (old : Z) (o : Chan) (order : Z) : NS Z :=
  l ← mounth (c_qid o);
  '(before, found) ← hash_find l [] o;
  match found with
  | Some (m, _) => mret m
  | None =>
      m ← newmhead old;
      modify (with_hash (<[bucket (c_qid o) := before ++ [m]]>));;
      (if negb (order =? MREPL) then f ← newmount old 0 []; set_mounts m [f] else mret tt);;
      mret m
  end.
Definition mount_new (m new : Z) (mh : option Z) (flag order : Z) (spec : list Z) : NS Z :=
  wunlock Lns;;
  nm ← newmount new flag spec;
  um ← no_mount mh;
  fs ← copy_union (tail um) (if order =? MREPL then MAFTER else order);
  let nm := if negb (Z.land flag MCREATE =? 0) then mkMount (m_id nm) (m_to nm) (Z.lor (m_flag nm) MCREATE) (m_spec nm) else nm in
  attach m order (nm :: fs);;
  mret (m_id nm).
Definition cmount (new old flag : Z) (spec : list Z) : NS Z :=
  '(_, n) ← chan new; '(_, o) ← chan old;
  if negb (Z.land (Z.lxor (q_type (c_qid o)) (q_type (c_qid n))) QTDIR =? 0) then error Emount
  else
    let order := order_of flag in
    if negb (is_dir (c_qid o)) && negb (order =? MREPL) then error Emount
    else
      let mh := c_umh n in
      um ← no_mount mh;
      if forbidden flag um then error Emount
      else
        wlock Lns;;
        m ← mount_head old o order;
        wlock (Lhead m);;
        i ← trying (mount_new m new mh flag order spec) (wunlock (Lhead m));
        wunlock (Lhead m);;
        mret i.
(** Of the mounts, the first that is of the channel, or whose server is. *)
Fixpoint union_find (l before : list Mount) (mounted : Chan) : NS (option (list Mount * Mount * list Mount)) :=
  match l with
  | [] => mret None
  | f :: l =>
      '(_, to) ← chan (m_to f);
      same ← (if eqchan to mounted then mret true
              else match c_mchan to with None => mret false | Some q => '(_, c) ← chan q; mret (eqchan c mounted) end);
      if same : bool then mret (Some (before, f, l)) else union_find l (before ++ [f]) mounted
  end.
Definition cunmount (mnt : Z) (mounted : option Z) : NS unit :=
  '(_, c) ← chan mnt;
  wlock Lns;;
  let b := bucket (c_qid c) in
  l ← mounth (c_qid c);
  '(before, found) ← hash_find l [] c;
  match found with
  | None => wunlock Lns;; error Eunmount
  | Some (h, after) =>
      wlock (Lhead h);;
      m ← head h;
      match mounted with
      | None =>
          modify (with_hash (<[b := before ++ after]>));;
          wunlock Lns;;
          set_mounts h [];;
          mountfree (h_mount m);;
          cclose (Some (h_from m));;
          wunlock (Lhead h);;
          putmhead (Some h)
      | Some p =>
          '(_, mc) ← chan p;
          r ← union_find (h_mount m) [] mc;
          match r with
          | None => wunlock (Lhead h);; wunlock Lns;; error Eunion
          | Some (fs, f, rest) =>
              set_mounts h (fs ++ rest);;
              mountfree [f];;
              match fs ++ rest with
              | [] =>
                  modify (with_hash (<[b := before ++ after]>));;
                  cclose (Some (h_from m));;
                  wunlock (Lhead h);; wunlock Lns;;
                  putmhead (Some h)
              | _ => wunlock (Lhead h);; wunlock Lns
              end
          end
      end
  end.

(** ** Walking *)

Fixpoint creatable (l : list Mount) : option Mount :=
  match l with [] => None | f :: l => if negb (Z.land (m_flag f) MCREATE =? 0) then Some f else creatable l end.
Definition createdir (c : Z) (h : Z) : NS Z :=
  wlock (Lhead h);;
  trying (
    m ← head h;
    match creatable (h_mount m) with
    | Some f => nc ← cclone (m_to f); wunlock (Lhead h);; cclose (Some c);; mret nc
    | None => error Enocreate
    end) (wunlock (Lhead h)).
(** How many names to try at once, and whether it is "..". *)
Definition tries (names : list (list Z)) : nat * bool :=
  match list_find (fun n => isdotdot n = true) (take MAXWELEM names) with
  | Some (O, _) => (1%nat, true)
  | Some (i, _) => (i, false)
  | None => (length (take MAXWELEM names), false)
  end.
(** The mounts after the first are tried in turn. *)
Fixpoint union_walk (fs : list Mount) (names : list (list Z)) : NS (option (Walkqid * Z)) :=
  match fs with
  | [] => mret None
  | f :: fs =>
      wq ← devwalk (m_to f) names;
      match wq with Some wq => mret (Some (wq, m_to f)) | None => union_walk fs names end
  end.
Definition walk_first (c : Z) (mh : option Z) (nomount : bool) (names : list (list Z)) : NS (option (Walkqid * Z)) :=
  wq ← devwalk c names;
  match wq, mh, nomount with
  | Some wq, _, _ => mret (Some (wq, c))
  | None, Some h, false =>
      wlock (Lhead h);;
      m ← head h;
      r ← (match h_mount m with [] => fault | _ :: fs => union_walk fs names end);
      wunlock (Lhead h);; mret r
  | None, _, _ => mret None
  end.
(** [for(i=0; i<wq->nqid && i<ntry-1; i++) if(findmount(&nc, &nmh, type, dev, wq->qid[i])) break;] *)
Fixpoint find_along (qs : list Qid) (i : nat) (type dev : Z) : NS (option (nat * Z * option Z)) :=
  match qs with
  | [] => mret None
  | q :: qs =>
      r ← findmount None (Some None) type dev q;
      match r with
      | Some (nc, nmh) => mret (Some (i, nc, default None nmh))
      | None => find_along qs (i + 1) type dev
      end
  end.
(** The new channel, or how many names to display in an error and what it is, [None]
    for what the device has set. *)
Inductive Walked : Type := Wok (c : Z) | Wfail (nerror : nat) (errstr : option string).
Fixpoint addnames (cname : list Z) (names : list (list Z)) : NS (list Z) :=
  match names with [] => mret cname | n :: names => cname ← of_option (addelem cname n); addnames cname names end.
(** What a round of the loop comes to: the names walked, the channel, its name, and the head. *)
Inductive Round : Type := Rnext (n : nat) (c : Z) (cname : list Z) (mh : option Z) | Rfail (n : nat) (errstr : option string).
Definition walk_round (nomount : bool) (names : list (list Z)) (c : Z) (cname : list Z) (mh : option Z) : NS Round :=
  '(_, cc) ← chan c;
  if negb (is_dir (c_qid cc)) then cclose (Some c);; putmhead mh;; mret (Rfail 0 (Some Enotdir))
  else
    let (ntry, dotdot) := tries names in
    '(c, mh) ← (if negb dotdot && negb nomount then '(c, mp) ← domount c (Some mh); mret (c, default None mp) else mret (c, mh));
    r ← walk_first c mh nomount (take ntry names);
    match r with
    | None => cclose (Some c);; putmhead mh;; mret (Rfail 1 None)
    | Some (wq, p) =>
        if dotdot then
          match wqid wq, clone wq with
          | [_], Some nc =>
              cname ← of_option (addelem cname [period; period]);
              nc ← undomount nc cname;
              cclose (Some c);; putmhead mh;; mret (Rnext 1 nc cname None)
          | _, _ => fault
          end
        else
          '(_, pc) ← chan p;
          found ← (if nomount then mret None else find_along (take (ntry - 1) (wqid wq)) 0 (c_type pc) (c_dev pc));
          match found, clone wq with
          | None, None =>
              cclose (Some c);; putmhead mh;;
              match list.last (wqid wq) with
              | Some q => if is_dir q then mret (Rfail (length (wqid wq) + 1) (Some Edoesnotexist)) else mret (Rfail (length (wqid wq)) (Some Enotdir))
              | None => mret (Rfail 1 (Some Edoesnotexist))
              end
          | None, Some nc =>
              cname ← addnames cname (take (length (wqid wq)) names);
              cclose (Some c);; putmhead mh;; mret (Rnext (length (wqid wq)) nc cname None)
          | Some (i, nc, nmh), w =>
              cclose w;;
              cname ← addnames cname (take (i + 1) names);
              cclose (Some c);; putmhead mh;; mret (Rnext (i + 1) nc cname nmh)
          end
    end.
Fixpoint walk_loop (fuel : nat) (nomount : bool) (names : list (list Z)) (nhave : nat) (c : Z) (cname : list Z) (mh : option Z) : NS (Walked * list Z) :=
  match names with
  | [] =>
      putmhead mh;; mret (Wok c, cname)
  | _ =>
      match fuel with
      | O => fault
      | Datatypes.S fuel =>
          r ← walk_round nomount names c cname mh;
          match r with
          | Rfail n e => mret (Wfail (nhave + n) e, cname)
          | Rnext n c cname mh => walk_loop fuel nomount (drop n names) (nhave + n) c cname mh
          end
      end
  end.
Definition walk (cp : Z) (names : list (list Z)) (nomount : bool) : NS Walked :=
  incref cp;;
  '(_, c) ← chan cp;
  '(r, cname) ← walk_loop (length names) nomount names 0 cp (c_name c) None;
  match r with
  | Wfail n e => mret (Wfail n e)
  | Wok c =>
      c ← cunique c;
      '(n, cc) ← chan c;
      putmhead (c_umh cc);;
      put_chan c (n, set_name cname (set_umh None cc));;
      cclose (Some cp);;
      mret (Wok c)
  end.
End Walk.
