(* ===== verification/NsInv.v ===== *)
(** * What the name space keeps

    The counts are those of the references there are, in the mount table, from
    channels to the servers they are of, and what is owned outside; and each routine
    on counts is a step from one set of owned references to another. *)

From S2P Require Import Prelude Clean Path Ns.

(** ** Counting in lists *)

Definition cnt (l : list Z) (p : Z) : Z := Z.of_nat (count_occ Z.eq_dec l p).
Lemma cnt_app l1 l2 p : cnt (l1 ++ l2) p = cnt l1 p + cnt l2 p.
Proof. unfold cnt. rewrite count_occ_app. lia. Qed.
Lemma cnt_cons q l p : cnt (q :: l) p = (if decide (q = p) then 1 else 0) + cnt l p.
Proof. unfold cnt. cbn [count_occ]. destruct (Z.eq_dec q p) as [->|Hn]; [rewrite decide_True by done|rewrite decide_False by done]; lia. Qed.
Lemma cnt_nil p : cnt [] p = 0.
Proof. done. Qed.
Lemma cnt_nonneg l p : 0 <= cnt l p.
Proof. unfold cnt. lia. Qed.
Lemma cnt_perm l1 l2 p : l1 ≡ₚ l2 -> cnt l1 p = cnt l2 p.
Proof. intros Hp. unfold cnt. by rewrite (proj1 (Permutation_count_occ Z.eq_dec l1 l2) Hp p). Qed.
Lemma cnt_in l p : In p l <-> 0 < cnt l p.
Proof. unfold cnt. rewrite (count_occ_In Z.eq_dec). lia. Qed.

(** ** References from channels *)

Definition bag (f : Chan -> option Z) (m : gmap Z (Z * Chan)) : list Z := omap (fun kx => f kx.2.2) (map_to_list m).
Lemma bag_insert f m p x : m !! p = None -> bag f (<[p := x]> m) ≡ₚ option_list (f x.2) ++ bag f m.
Proof. intros Hp. unfold bag. rewrite map_to_list_insert by done. cbn. by destruct (f x.2). Qed.
Lemma bag_delete f m p x : m !! p = Some x -> bag f m ≡ₚ option_list (f x.2) ++ bag f (delete p m).
Proof. intros Hp. rewrite <- (insert_delete_id m p x Hp) at 1. apply bag_insert. apply lookup_delete_eq. Qed.
Lemma bag_update f m p x y : m !! p = Some x -> f y.2 = f x.2 -> bag f (<[p := y]> m) ≡ₚ bag f m.
Proof.
  intros Hp Hf. rewrite <- insert_delete_eq. rewrite bag_insert by apply lookup_delete_eq. rewrite Hf. symmetry. by apply bag_delete.
Qed.

(** ** The invariant *)

Record ent : Type := mkEnt { e_h : Z; e_from : Z; e_mounts : list Mount }.
Definition ent_refs (e : ent) : list Z := e_from e :: map m_to (e_mounts e).
Definition vrefs (V : list (list ent)) : list Z := concat V ≫= ent_refs.
Definition vheads (V : list (list ent)) : list Z := map e_h (concat V).
(** The identity of the channels, the table, the references owned to channels and to
    heads, the locks, the mallocs left and the last mount id. *)
Record ns : Type := mkNs { idents : gmap Z Chan; tab : list (list ent); own : list Z; hown : list Z; locks : list lock; budget : nat; ids : Z }.
Definition crefs (g : ns) (s : nst) : list Z := vrefs (tab g) ++ own g ++ bag c_mchan (chans s).
Definition hrefs (g : ns) (s : nst) : list Z := vheads (tab g) ++ hown g ++ bag c_umh (chans s).
Record inv (g : ns) (s : nst) : Prop := {
  i_hash : mnthash s = map (map e_h) (tab g);
  i_nodup : NoDup (vheads (tab g));
  i_chan : forall p, match chans s !! p with
    | Some (n, c) => n = cnt (crefs g s) p /\ 0 < n /\ idents g !! p = Some c /\ text (c_name c)
    | None => cnt (crefs g s) p = 0
    end;
  i_head : forall h, match heads s !! h with
    | Some m => h_ref m = cnt (hrefs g s) h /\ 0 < h_ref m
    | None => cnt (hrefs g s) h = 0
    end;
  i_table : forall h m, heads s !! h = Some m ->
    In (mkEnt h (h_from m) (h_mount m)) (concat (tab g)) \/ ~ In h (vheads (tab g)) /\ h_mount m = [];
  i_held : held s = locks g;
  i_mem : mem s = budget g;
  i_ids : mountid s = ids g;
}.

Lemma inv_perm K V E E' H H' L M I s : inv (mkNs K V E H L M I) s -> E ≡ₚ E' -> H ≡ₚ H' -> inv (mkNs K V E' H' L M I) s.
Proof.
  intros [] HE HH. split; try done.
  - intros p. specialize (i_chan0 p). unfold crefs in *. cbn [tab own idents] in *. rewrite !cnt_app, (cnt_perm _ _ p HE) in i_chan0. by rewrite !cnt_app.
  - intros h. specialize (i_head0 h). unfold hrefs in *. cbn [tab hown] in *. rewrite !cnt_app, (cnt_perm _ _ h HH) in i_head0. by rewrite !cnt_app.
Qed.
Lemma chan_live g s p : inv g s -> In p (crefs g s) -> exists n c, chans s !! p = Some (n, c) /\ idents g !! p = Some c /\ text (c_name c) /\ 0 < n.
Proof. intros Hi Hp. pose proof (i_chan _ _ Hi p) as Hc. apply cnt_in in Hp. destruct (chans s !! p) as [[n c]|]; [|lia]. exists n, c. destruct Hc as (_ & ? & ? & ?). auto. Qed.
Lemma owned_in g s p : In p (own g) -> In p (crefs g s).
Proof. intros Hp. unfold crefs. rewrite !in_app_iff. auto. Qed.
Lemma table_in g s p : In p (vrefs (tab g)) -> In p (crefs g s).
Proof. intros Hp. unfold crefs. rewrite !in_app_iff. auto. Qed.
Lemma chan_held g s p : inv g s -> In p (crefs g s) -> exists n c, chan p s = Ok (n, c) s /\ chans s !! p = Some (n, c) /\ idents g !! p = Some c /\ text (c_name c).
Proof. intros Hi Hp. destruct (chan_live g s p Hi Hp) as (n & c & Ec & HK & Ht & _). exists n, c. unfold chan. by rewrite Ec. Qed.
Lemma head_live g s h : inv g s -> In h (hrefs g s) -> exists m, heads s !! h = Some m /\ head h s = Ok m s.
Proof. intros Hi Hp. pose proof (i_head _ _ Hi h) as Hc. apply cnt_in in Hp. destruct (heads s !! h) as [m|] eqn:Em; [|lia]. exists m. split; [done|]. unfold head. by rewrite Em. Qed.
(** An entry is what its head says. *)
Lemma ent_head g s e : inv g s -> In e (concat (tab g)) -> exists m, heads s !! e_h e = Some m /\ head (e_h e) s = Ok m s /\ h_from m = e_from e /\ h_mount m = e_mounts e.
Proof.
  intros Hi He. assert (Hv : In (e_h e) (vheads (tab g))) by (by apply in_map). destruct (head_live g s (e_h e) Hi) as (m & Em & Eh); [unfold hrefs; rewrite in_app_iff; auto|].
  exists m. do 2 (split; [done|]). destruct (i_table _ _ Hi _ _ Em) as [Ht|[Ht _]]; [|done]. pose proof (i_nodup _ _ Hi) as Hn.
  assert (Ee : e = mkEnt (e_h e) (h_from m) (h_mount m)); [|by rewrite Ee].
  apply list_elem_of_In in He, Ht. apply list_elem_of_lookup in He as [i Hi1], Ht as [j Hj]. assert (i = j) as <-; [|congruence].
  unfold vheads in Hn. eapply (NoDup_lookup _ i j (e_h e) Hn); rewrite list_lookup_fmap; [by rewrite Hi1|by rewrite Hj].
Qed.

(** ** Steps *)

Section Steps.
Context (V : list (list ent)) (L : list lock) (M : nat) (I : Z).
Implicit Types (K : gmap Z Chan) (E H : list Z) (s : nst).
Abbreviation ok K E H := (inv (mkNs K V E H L M I)).

Lemma mchans_update s p n0 n c : chans s !! p = Some (n0, c) -> bag c_mchan (<[p := (n, c)]> (chans s)) ≡ₚ bag c_mchan (chans s).
Proof. intros Hp. by apply (bag_update _ _ _ (n0, c)). Qed.
Lemma umhs_update s p n0 n c : chans s !! p = Some (n0, c) -> bag c_umh (<[p := (n, c)]> (chans s)) ≡ₚ bag c_umh (chans s).
Proof. intros Hp. by apply (bag_update _ _ _ (n0, c)). Qed.
(** The count of one channel, and the owned references, change together. *)
Lemma put_count K E E' H s p n0 n c : ok K E H s -> chans s !! p = Some (n0, c) -> 0 < n -> (forall q, cnt E' q = cnt E q + if decide (p = q) then n - n0 else 0) ->
  ok K E' H (with_chans (<[p := (n, c)]>) s).
Proof.
  intros [] Hp Hn Hc. pose proof (mchans_update s p n0 n c Hp) as Pm. pose proof (umhs_update s p n0 n c Hp) as Pu. split; try done.
  - intros q. pose proof (i_chan0 q) as Hq. unfold crefs in *. cbn [chans with_chans tab own] in *. rewrite !cnt_app, (cnt_perm _ _ q Pm), Hc. rewrite !cnt_app in Hq. destruct (decide (p = q)) as [<-|Hne].
    + rewrite lookup_insert_eq. rewrite Hp in Hq. destruct Hq as (En & _ & HK & Ht). split; [lia|]. done.
    + rewrite lookup_insert_ne by done. rewrite Z.add_0_r. exact Hq.
  - intros h. pose proof (i_head0 h) as Hh. unfold hrefs in *. cbn [chans with_chans heads tab hown] in *. rewrite !cnt_app, (cnt_perm _ _ h Pu). rewrite !cnt_app in Hh. exact Hh.
Qed.
Lemma incref_ok K E H s p : ok K E H s -> is_Some (chans s !! p) -> exists s', incref p s = Ok tt s' /\ ok K (p :: E) H s'.
Proof.
  intros Hi [[n c] Hp]. unfold incref, chan. erewrite bind_ok; [|by rewrite Hp]. eexists. split; [done|].
  pose proof (i_chan _ _ Hi p) as Hq. rewrite Hp in Hq. apply (put_count K E _ H s p n); [done|done|lia|]. intros q. rewrite cnt_cons. case_decide; lia.
Qed.
Lemma put_href K E H H' s h m n : ok K E H s -> heads s !! h = Some m -> 0 < n -> (forall q, cnt H' q = cnt H q + if decide (h = q) then n - h_ref m else 0) ->
  ok K E H' (with_heads (<[h := set_href n m]>) s).
Proof.
  intros [] Hh Hn Hc. split; try done.
  - intros q. pose proof (i_head0 q) as Hq. unfold hrefs in *. cbn [chans with_heads heads tab hown] in *. rewrite !cnt_app, Hc. rewrite !cnt_app in Hq. destruct (decide (h = q)) as [<-|Hne].
    + rewrite lookup_insert_eq. rewrite Hh in Hq. cbn. lia.
    + rewrite lookup_insert_ne by done. rewrite Z.add_0_r. exact Hq.
  - intros q m'. cbn [heads with_heads]. destruct (decide (h = q)) as [<-|Hne]; [rewrite lookup_insert_eq; intros [= <-]; apply (i_table0 h m Hh)|rewrite lookup_insert_ne by done; apply i_table0].
Qed.
Lemma href_ok K E H s h : ok K E H s -> is_Some (heads s !! h) -> exists s', href h s = Ok tt s' /\ ok K E (h :: H) s'.
Proof.
  intros Hi [m Hh]. unfold href, head. erewrite bind_ok; [|by rewrite Hh]. eexists. split; [done|].
  pose proof (i_head _ _ Hi h) as Hq. rewrite Hh in Hq. apply (put_href K E H _ s h m); [done|done|lia|]. intros q. rewrite cnt_cons. case_decide; lia.
Qed.
Lemma head_freed K E H s h m : ok K E (h :: H) s -> heads s !! h = Some m -> h_ref m = 1 -> ok K E H (with_heads (delete h) s).
Proof.
  intros [] Hh Hr. pose proof (i_head0 h) as H0. rewrite Hh in H0. unfold hrefs in H0. cbn [tab hown] in H0. rewrite !cnt_app, cnt_cons, decide_True in H0 by done.
  pose proof (cnt_nonneg (vheads V) h). pose proof (cnt_nonneg H h). pose proof (cnt_nonneg (bag c_umh (chans s)) h). split; try done.
  - intros q. pose proof (i_head0 q) as Hq. unfold hrefs in *. cbn [chans with_heads heads tab hown] in *. rewrite !cnt_app in *. rewrite cnt_cons in Hq. destruct (decide (h = q)) as [<-|Hne].
    + rewrite lookup_delete_eq. lia.
    + rewrite lookup_delete_ne by done. rewrite Z.add_0_l in Hq. exact Hq.
  - intros q m'. cbn [heads with_heads]. intros [Hne Hq]%lookup_delete_Some. by apply i_table0.
Qed.
Lemma putmhead_ok K E H s o : ok K E (option_list o ++ H) s -> exists s', putmhead o s = Ok tt s' /\ ok K E H s' /\ chans s' = chans s.
Proof.
  destruct o as [h|]; [|intros Hi; by exists s]. cbn [option_list app]. intros Hi. destruct (head_live _ s h Hi) as (m & Em & Eh); [unfold hrefs; rewrite !in_app_iff; right; left; by left|].
  unfold putmhead. erewrite bind_ok by exact Eh. pose proof (i_head _ _ Hi h) as Hq. rewrite Em in Hq. destruct (Z.eqb_spec (h_ref m - 1) 0) as [E0|N0].
  - eexists. split; [done|]. split; [|done]. apply (head_freed K E H s h m); [done|done|lia].
  - eexists. split; [done|]. split; [|done]. apply (put_href K E (h :: H) H s h m); [done|done|lia|]. intros q. rewrite cnt_cons. case_decide; lia.
Qed.
(** A channel with no other reference goes, and what it refers to is owned. *)
Lemma chan_freed K E H s p c : ok K (p :: E) H s -> chans s !! p = Some (1, c) -> ok K (option_list (c_mchan c) ++ E) (option_list (c_umh c) ++ H) (with_chans (delete p) s).
Proof.
  intros [] Hp. pose proof (bag_delete c_mchan _ p _ Hp) as Pm. pose proof (bag_delete c_umh _ p _ Hp) as Pu. cbn [snd] in *.
  pose proof (i_chan0 p) as H0. rewrite Hp in H0. destruct H0 as (H0 & _). unfold crefs in H0. cbn [tab own] in H0. rewrite !cnt_app, cnt_cons, decide_True in H0 by done.
  pose proof (cnt_nonneg (vrefs V) p). pose proof (cnt_nonneg E p). pose proof (cnt_nonneg (bag c_mchan (chans s)) p). split; try done.
  - intros q. pose proof (i_chan0 q) as Hq. unfold crefs in *. cbn [chans with_chans tab own] in *. pose proof (cnt_perm _ _ q Pm) as Eq. rewrite !cnt_app in *. rewrite cnt_cons in Hq. destruct (decide (p = q)) as [<-|Hne].
    + rewrite lookup_delete_eq. lia.
    + rewrite lookup_delete_ne by done. rewrite Z.add_0_l in Hq. destruct (chans s !! q) as [[n c']|]; [|lia]. destruct Hq as (? & ? & ? & ?). split; [lia|done].
  - intros h. pose proof (i_head0 h) as Hh. unfold hrefs in *. cbn [chans with_chans heads tab hown] in *. pose proof (cnt_perm _ _ h Pu) as Eq. rewrite !cnt_app in *. destruct (heads s !! h); lia.
Qed.
Lemma cclose_in_ok K n : forall E H s p, ok K (p :: E) H s -> (size (chans s) <= n)%nat -> exists s', cclose_in n p s = Ok tt s' /\ ok K E H s'.
Proof.
  induction n as [|n IH]; intros E H s p Hi Hn; (destruct (chan_held _ s p Hi) as (r & c & Ec & Hp & _); [apply owned_in; by left|]).
  { assert (size (chans s) = 0)%nat as Hz by lia. apply map_size_empty_inv in Hz. by rewrite Hz in Hp. }
  cbn [cclose_in]. erewrite bind_ok by exact Ec. cbv beta iota. pose proof (i_chan _ _ Hi p) as Hq. rewrite Hp in Hq. destruct (Z.eqb_spec (r - 1) 0) as [E0|N0]; cbn [negb].
  - assert (r = 1) as -> by lia. pose proof (chan_freed K E H s p c Hi Hp) as Hf. erewrite bind_ok by done. destruct (putmhead_ok K _ _ _ _ Hf) as (s1 & E1 & Hi1 & Ech). erewrite bind_ok by exact E1.
    destruct (c_mchan c) as [q|]; [|by exists s1]. apply (IH E H s1 q); [done|]. rewrite Ech. cbn [chans with_chans]. rewrite map_size_delete_Some by by eexists. lia.
  - eexists. split; [done|]. apply (put_count K (p :: E) E H s p r); [done|done|lia|]. intros q. rewrite cnt_cons. case_decide; lia.
Qed.
Lemma cclose_ok K E H s o : ok K (option_list o ++ E) H s -> exists s', cclose o s = Ok tt s' /\ ok K E H s'.
Proof. destruct o as [p|]; [|intros Hi; by exists s]. intros Hi. unfold cclose. erewrite bind_ok by done. by apply cclose_in_ok. Qed.
End Steps.

(** ** The table *)

Lemma reshape K V E H L M I V' E' H' s s' : inv (mkNs K V E H L M I) s ->
  vrefs V ++ E ≡ₚ vrefs V' ++ E' -> vheads V ++ H ≡ₚ vheads V' ++ H' -> NoDup (vheads V') ->
  chans s' = chans s -> held s' = held s -> mem s' = mem s -> mountid s' = mountid s -> mnthash s' = map (map e_h) V' ->
  (forall h, h_ref <$> heads s' !! h = h_ref <$> heads s !! h) ->
  (forall h m, heads s' !! h = Some m -> In (mkEnt h (h_from m) (h_mount m)) (concat V') \/ ~ In h (vheads V') /\ h_mount m = []) ->
  inv (mkNs K V' E' H' L M I) s'.
Proof.
  intros [] Pc Ph Hn Ec El Em Ei Eh Hr Ht. split; cbn [tab own hown idents locks budget ids] in *; try done; try congruence.
  - intros p. pose proof (i_chan0 p) as Hp. rewrite Ec. unfold crefs in *. cbn [tab own] in *. rewrite Ec. rewrite app_assoc in Hp |- *. rewrite cnt_app in Hp |- *. rewrite <- (cnt_perm _ _ p Pc). exact Hp.
  - intros h. pose proof (i_head0 h) as Hh. specialize (Hr h). unfold hrefs in *. cbn [tab hown] in *. rewrite Ec. rewrite app_assoc in Hh |- *. rewrite cnt_app in Hh |- *. rewrite <- (cnt_perm _ _ h Ph).
    destruct (heads s !! h), (heads s' !! h); cbn in Hr; try done. by injection Hr as ->.
Qed.
Lemma concat_at {A} (V : list (list A)) b l : V !! b = Some l -> exists R, concat V ≡ₚ l ++ R /\ forall l', concat (<[b := l']> V) ≡ₚ l' ++ R.
Proof.
  intros Hb. exists (concat (take b V) ++ concat (drop (Datatypes.S b) V)). pose proof (lookup_lt_Some _ _ _ Hb) as Hl. split.
  - rewrite <- (take_drop_middle V b l Hb) at 1. rewrite concat_app. cbn [concat]. rewrite Permutation_app_swap_app. done.
  - intros l'. rewrite insert_take_drop by done. rewrite concat_app. cbn [concat]. rewrite Permutation_app_swap_app. done.
Qed.
Lemma vrefs_perm C C' : C ≡ₚ C' -> C ≫= ent_refs ≡ₚ C' ≫= ent_refs.
Proof. intros Hp. by rewrite Hp. Qed.
Lemma map_insert_hash (V : list (list ent)) b l : map (map e_h) (<[b := l]> V) = <[b := map e_h l]> (map (map e_h) V).
Proof. apply list_fmap_insert. Qed.
Lemma bind_cons e (es : list ent) : (e :: es) ≫= ent_refs = ent_refs e ++ es ≫= ent_refs.
Proof. done. Qed.

Section Table.
Context (K : gmap Z Chan) (L : list lock) (M : nat) (I : Z).
Implicit Types (V : list (list ent)) (E H : list Z) (s : nst).
Abbreviation ok V E H := (inv (mkNs K V E H L M I)).

(** Other mounts for a head: theirs are the references now, and not those of the old ones. *)
Lemma set_mounts_ok V E E' H s b xs e ys l : ok V E H s -> V !! b = Some (xs ++ e :: ys) -> map m_to (e_mounts e) ++ E ≡ₚ map m_to l ++ E' ->
  exists s', set_mounts (e_h e) l s = Ok tt s' /\ ok (<[b := xs ++ mkEnt (e_h e) (e_from e) l :: ys]> V) E' H s'.
Proof.
  intros Hi Hb PE. destruct (concat_at V b _ Hb) as (R & PV & PV'). specialize (PV' (xs ++ mkEnt (e_h e) (e_from e) l :: ys)).
  assert (He : In e (concat V)) by (rewrite PV, !in_app_iff; left; right; by left). destruct (ent_head _ s e Hi He) as (m & Em & Eh & Ef & Emt).
  unfold set_mounts. erewrite bind_ok by exact Eh. eexists. split; [done|]. set (V' := <[b := _]> V) in *.
  assert (Pv : vheads V' = map e_h (concat V')) by done. assert (Phd : vheads V' ≡ₚ vheads V) by (unfold vheads; rewrite PV, PV'; by rewrite !map_app).
  apply (reshape K V E H L M I V' _ H s); try done.
  - unfold vrefs. rewrite (vrefs_perm _ _ PV), (vrefs_perm _ _ PV'), !bind_app, !bind_cons. cbn [ent_refs e_from e_mounts app].
    transitivity ((xs ≫= ent_refs) ++ e_from e :: (map m_to (e_mounts e) ++ E) ++ (ys ≫= ent_refs) ++ (R ≫= ent_refs)); [solve_Permutation|rewrite PE; solve_Permutation].
  - by rewrite Phd.
  - rewrite Phd. apply (i_nodup _ _ Hi).
  - cbn. rewrite (i_hash _ _ Hi). cbn [tab]. unfold V'. rewrite map_insert_hash, map_app. cbn [map e_h]. rewrite list_insert_id; [done|]. rewrite list_lookup_fmap. rewrite Hb. cbn. by rewrite map_app.
  - intros h. cbn. destruct (decide (h = e_h e)) as [->|Hne]; [by rewrite lookup_insert_eq, Em|by rewrite lookup_insert_ne by congruence].
  - intros h m'. cbn. intros Hm'. destruct (decide (h = e_h e)) as [->|Hne].
    + rewrite lookup_insert_eq in Hm'. injection Hm' as <-. cbn. left. rewrite PV', !in_app_iff. left. right. left. by rewrite Ef.
    + rewrite lookup_insert_ne in Hm' by congruence. destruct (i_table _ _ Hi _ _ Hm') as [Ht|[Ht Hmm]]; cbn [tab] in Ht.
      * left. rewrite PV, !in_app_iff in Ht. rewrite PV', !in_app_iff. destruct Ht as [[?|[->|?]]|?]; [tauto| |cbn; tauto|tauto]. done.
      * right. split; [|done]. intros Hin. apply Ht. apply list_elem_of_In. apply list_elem_of_In in Hin. by rewrite <- Phd.
Qed.
(** A head put into its chain owns the channel it is on. *)
Lemma add_head_ok V E H s b l h from m : ok V (from :: E) (h :: H) s -> V !! b = Some l -> heads s !! h = Some m -> h_from m = from -> h_mount m = [] -> ~ In h (vheads V) ->
  ok (<[b := l ++ [mkEnt h from []]]> V) E H (with_hash (<[b := map e_h l ++ [h]]>) s).
Proof.
  intros Hi Hb Em Ef Emt Hn. destruct (concat_at V b _ Hb) as (R & PV & PV'). specialize (PV' (l ++ [mkEnt h from []])). set (V' := <[b := _]> V) in *.
  assert (Phd : vheads V' ≡ₚ h :: vheads V) by (unfold vheads; rewrite PV, PV', !map_app; cbn [map e_h]; solve_Permutation).
  apply (reshape K V (from :: E) (h :: H) L M I V' _ _ s); try done.
  - unfold vrefs. rewrite (vrefs_perm _ _ PV), (vrefs_perm _ _ PV'), !bind_app, !bind_cons. cbn [ent_refs e_from e_mounts map app]. solve_Permutation.
  - rewrite Phd. solve_Permutation.
  - rewrite Phd. constructor; [by rewrite list_elem_of_In|apply (i_nodup _ _ Hi)].
  - cbn. rewrite (i_hash _ _ Hi). cbn [tab]. unfold V'. rewrite map_insert_hash, map_app. done.
  - intros q mq. cbn. intros Hq. destruct (decide (q = h)) as [->|Hne].
    + rewrite Em in Hq. injection Hq as <-. left. rewrite Ef, Emt, PV', !in_app_iff. left. right. by left.
    + destruct (i_table _ _ Hi _ _ Hq) as [Ht|[Ht Hmm]]; cbn [tab] in Ht.
      * left. rewrite PV, in_app_iff in Ht. rewrite PV', !in_app_iff. tauto.
      * right. split; [|done]. intros Hin. apply list_elem_of_In in Hin. rewrite Phd in Hin. apply elem_of_cons in Hin as [->|Hin]; [done|]. apply Ht. by apply list_elem_of_In.
Qed.
(** A head with no mounts taken from its chain. *)
Lemma del_head_ok V E H s b xs e ys : ok V E H s -> V !! b = Some (xs ++ e :: ys) -> e_mounts e = [] ->
  ok (<[b := xs ++ ys]> V) (e_from e :: E) (e_h e :: H) (with_hash (<[b := map e_h xs ++ map e_h ys]>) s).
Proof.
  intros Hi Hb Hm. destruct (concat_at V b _ Hb) as (R & PV & PV'). specialize (PV' (xs ++ ys)). set (V' := <[b := _]> V) in *.
  assert (Phd : vheads V ≡ₚ e_h e :: vheads V') by (unfold vheads; rewrite PV, PV', !map_app; cbn [map]; solve_Permutation).
  assert (Hnd : NoDup (e_h e :: vheads V')) by (rewrite <- Phd; apply (i_nodup _ _ Hi)). apply list.NoDup_cons in Hnd as [Hnin Hnd].
  apply (reshape K V E H L M I V' _ _ s); try done.
  - unfold vrefs. rewrite (vrefs_perm _ _ PV), (vrefs_perm _ _ PV'), !bind_app, bind_cons. cbn [ent_refs app]. rewrite Hm. cbn [map app]. solve_Permutation.
  - rewrite Phd. solve_Permutation.
  - cbn. rewrite (i_hash _ _ Hi). cbn [tab]. unfold V'. by rewrite map_insert_hash, map_app.
  - intros q mq. cbn. intros Hq. destruct (i_table _ _ Hi _ _ Hq) as [Ht|[Ht Hmm]]; cbn [tab] in Ht.
    + rewrite PV, !in_app_iff in Ht. destruct Ht as [[Ht|[->|Ht]]|Ht]; cbn [e_h e_mounts] in *; [left; rewrite PV', !in_app_iff; tauto| |left; rewrite PV', !in_app_iff; tauto|left; rewrite PV', !in_app_iff; tauto].
      right. split; [by rewrite <- list_elem_of_In|done].
    + right. split; [|done]. intros Hin. apply Ht. apply list_elem_of_In. rewrite Phd. apply elem_of_cons. right. by apply list_elem_of_In.
Qed.
End Table.

(** ** New channels, mounts and heads; locks *)

Lemma above_max (l : list Z) x : In x l -> x <= foldr Z.max 0 l.
Proof. induction l as [|y l IH]; [done|]. cbn. intros [->|Hx]; [lia|]. specialize (IH Hx). lia. Qed.
Lemma above_fresh {A} (m : gmap Z A) : m !! above m = None.
Proof.
  destruct (m !! above m) as [x|] eqn:Em; [|done]. exfalso. assert (Hin : In (above m) (map_to_list m).*1).
  { apply list_elem_of_In, list_elem_of_fmap. exists (above m, x). split; [done|]. by apply elem_of_map_to_list. }
  apply above_max in Hin. unfold above in Hin at 1. lia.
Qed.
Definition agrees (ps : list Z) (K K' : gmap Z Chan) : Prop := forall p, In p ps -> K' !! p = K !! p.

Section Make.
Context (V : list (list ent)) (L : list lock).
Implicit Types (K : gmap Z Chan) (E H : list Z) (s : nst).

Lemma new_chan K E H M I s p c : inv (mkNs K V (option_list (c_mchan c) ++ E) (option_list (c_umh c) ++ H) L M I) s -> chans s !! p = None -> text (c_name c) ->
  inv (mkNs (<[p := c]> K) V (p :: E) H L M I) (with_chans (<[p := (1, c)]>) s).
Proof.
  intros [] Hp Ht. pose proof (bag_insert c_mchan _ p (1, c) Hp) as Pm. pose proof (bag_insert c_umh _ p (1, c) Hp) as Pu. cbn [snd] in *.
  pose proof (i_chan0 p) as H0. rewrite Hp in H0. unfold crefs in H0. cbn [tab own] in H0. rewrite !cnt_app in H0.
  pose proof (cnt_nonneg (vrefs V) p). pose proof (cnt_nonneg E p). pose proof (cnt_nonneg (option_list (c_mchan c)) p). pose proof (cnt_nonneg (bag c_mchan (chans s)) p). split; try done.
  - intros q. pose proof (i_chan0 q) as Hq. pose proof (cnt_perm _ _ q Pm) as Eq. unfold crefs in *. cbn [chans with_chans tab own idents] in *. rewrite !cnt_app in *. rewrite cnt_cons. destruct (decide (p = q)) as [<-|Hne].
    + rewrite !lookup_insert_eq. split; [lia|]. split; [lia|done].
    + rewrite !lookup_insert_ne by done. destruct (chans s !! q) as [[n c']|]; [|lia]. destruct Hq as (? & ? & ? & ?). split; [lia|done].
  - intros h. pose proof (i_head0 h) as Hh. pose proof (cnt_perm _ _ h Pu) as Eq. unfold hrefs in *. cbn [chans with_chans heads tab hown] in *. rewrite !cnt_app in *. destruct (heads s !! h); lia.
Qed.
Lemma put_ident K E H H' M I s p n c c' : inv (mkNs K V E (option_list (c_umh c') ++ H) L M I) s -> chans s !! p = Some (n, c) -> c_mchan c' = c_mchan c -> text (c_name c') -> option_list (c_umh c) ++ H = H' ->
  inv (mkNs (<[p := c']> K) V E H' L M I) (with_chans (<[p := (n, c')]>) s).
Proof.
  intros [] Hp Hm Ht <-. assert (Pm : bag c_mchan (<[p := (n, c')]> (chans s)) ≡ₚ bag c_mchan (chans s)) by by apply (bag_update _ _ _ (n, c)).
  pose proof (bag_delete c_umh _ p _ Hp) as Pu. pose proof (bag_insert c_umh (delete p (chans s)) p (n, c') (lookup_delete_eq _ _)) as Pu'. rewrite insert_delete_eq in Pu'. cbn [snd] in *. split; try done.
  - intros q. pose proof (i_chan0 q) as Hq. unfold crefs in *. cbn [chans with_chans tab own idents] in *. rewrite !cnt_app, (cnt_perm _ _ q Pm) in *. destruct (decide (p = q)) as [<-|Hne].
    + rewrite !lookup_insert_eq. rewrite Hp in Hq. destruct Hq as (? & ? & ? & ?). done.
    + rewrite !lookup_insert_ne by done. exact Hq.
  - intros h. pose proof (i_head0 h) as Hh. pose proof (cnt_perm _ _ h Pu) as Eq. pose proof (cnt_perm _ _ h Pu') as Eq'. unfold hrefs in *. cbn [chans with_chans heads tab hown] in *. rewrite !cnt_app in *. destruct (heads s !! h); lia.
Qed.
Lemma newmount_ok K E H M I s to flag spec : inv (mkNs K V E H L (Datatypes.S M) I) s -> is_Some (chans s !! to) ->
  exists s', newmount to flag spec s = Ok (mkMount (I + 1) to flag spec) s' /\ inv (mkNs K V (to :: E) H L M (I + 1)) s'.
Proof.
  intros Hi Hto. assert (Hi1 : inv (mkNs K V E H L M I) (with_mem M s)) by (destruct Hi; by split).
  destruct (incref_ok V L M I K E H _ to Hi1 Hto) as (s1 & E1 & Hi2). pose proof (i_ids _ _ Hi2) as Eid. cbn [ids] in Eid. exists (with_mountid (I + 1) s1). split; [|destruct Hi2; by split].
  unfold newmount, malloc. pose proof (i_mem _ _ Hi) as Em. cbn [budget] in Em. unfold mbind, ST_bind, gets. rewrite Em. unfold modify. cbn [negb mret ST_ret]. rewrite E1. cbn. by rewrite Eid.
Qed.
Lemma newmount_fails K E H I s to flag spec : inv (mkNs K V E H L 0 I) s -> newmount to flag spec s = Err Enomem s.
Proof. intros Hi. unfold newmount, malloc, mbind, ST_bind, gets. pose proof (i_mem _ _ Hi) as Em. cbn [budget] in Em. by rewrite Em. Qed.
Lemma incref_heads p s s' : incref p s = Ok tt s' -> heads s' = heads s.
Proof. unfold incref, chan. destruct (chans s !! p) as [[n c]|] eqn:Ep; unfold mbind, ST_bind; rewrite Ep; [|done]. by intros [= <-]. Qed.
Lemma newmhead_ok K E H M I s from : inv (mkNs K V E H L M I) s -> is_Some (chans s !! from) ->
  exists h s', newmhead from s = Ok h s' /\ heads s !! h = None /\ heads s' !! h = Some (mkMhead 1 from []) /\ ~ In h (vheads V) /\ inv (mkNs K V (from :: E) (h :: H) L M I) s'.
Proof.
  intros Hi Hf. destruct (incref_ok V L M I K E H _ from Hi Hf) as (s1 & E1 & Hi1). set (h := above (heads s1)). assert (Hh : heads s1 !! h = None) by apply above_fresh.
  pose proof (i_head _ _ Hi1 h) as H0. rewrite Hh in H0. unfold hrefs in H0. cbn [tab hown] in H0. rewrite !cnt_app in H0. pose proof (cnt_nonneg (vheads V) h). pose proof (cnt_nonneg H h). pose proof (cnt_nonneg (bag c_umh (chans s1)) h).
  exists h, (with_heads (<[h := mkMhead 1 from []]>) s1). split; [unfold newmhead; by erewrite bind_ok by exact E1|]. split; [by rewrite <- (incref_heads from s s1 E1)|]. split; [cbn; by rewrite lookup_insert_eq|]. assert (Hn : ~ In h (vheads V)) by (rewrite cnt_in; lia). split; [done|].
  destruct Hi1. split; try done.
  - intros q. pose proof (i_head0 q) as Hq. unfold hrefs in *. cbn [chans with_heads heads tab hown] in *. rewrite !cnt_app in *. rewrite cnt_cons. destruct (decide (h = q)) as [<-|Hne].
    + rewrite lookup_insert_eq. cbn. lia.
    + rewrite lookup_insert_ne by done. rewrite Z.add_0_l. exact Hq.
  - intros q m. cbn [heads with_heads tab]. destruct (decide (h = q)) as [<-|Hne]; [rewrite lookup_insert_eq; intros [= <-]; by right|rewrite lookup_insert_ne by done; apply i_table0].
Qed.
End Make.
Lemma wlock_ok K V E H L M I s l : inv (mkNs K V E H L M I) s -> l ∉ L -> exists s', wlock l s = Ok tt s' /\ inv (mkNs K V E H (l :: L) M I) s' /\ chans s' = chans s /\ heads s' = heads s.
Proof.
  intros Hi Hl. exists (with_held (cons l) s). pose proof (i_held _ _ Hi) as Eh. cbn [locks] in Eh. unfold wlock, mbind, ST_bind, gets. rewrite Eh, bool_decide_eq_false_2 by done.
  split; [done|]. split; [|done]. destruct Hi. split; try done. cbn. by rewrite Eh.
Qed.
Lemma wunlock_ok K V E H L M I s l : inv (mkNs K V E H L M I) s -> exists s', wunlock l s = Ok tt s' /\ inv (mkNs K V E H (filter (fun x => x <> l) L) M I) s' /\ chans s' = chans s /\ heads s' = heads s.
Proof.
  intros Hi. exists (with_held (filter (fun x => x <> l)) s). split; [done|]. split; [|done]. pose proof (i_held _ _ Hi) as Eh. cbn [locks] in Eh. destruct Hi. split; try done. cbn. by rewrite Eh.
Qed.

(** ** Looking up *)

Definition matches (K : gmap Z Chan) (type dev : Z) (qid : Qid) (e : ent) : bool :=
  match K !! e_from e with Some c => eqchantdqid c type dev qid | None => false end.
(** What is mounted on a file. *)
Definition find_ent (K : gmap Z Chan) (V : list (list ent)) (type dev : Z) (qid : Qid) : option ent :=
  l ← V !! bucket qid; List.find (matches K type dev qid) l.
Definition full (V : list (list ent)) : Prop := length V = MNTHASH /\ Forall (fun e => e_mounts e <> []) (concat V).
Lemma bucket_in (V : list (list ent)) q : length V = MNTHASH -> exists l, V !! bucket q = Some l.
Proof.
  intros Hl. apply lookup_lt_is_Some. rewrite Hl. unfold bucket. change (Z.of_nat MNTHASH - 1) with (Z.ones 5). rewrite Z.land_ones by done. unfold MNTHASH.
  pose proof (Z.mod_pos_bound (q_path q) (2 ^ 5) ltac:(done)). change (2 ^ 5) with 32 in *. lia.
Qed.
Lemma bucket_ents (V : list (list ent)) b l e : V !! b = Some l -> In e l -> In e (concat V).
Proof. intros Hb He. destruct (concat_at V b l Hb) as (R & PV & _). rewrite PV, in_app_iff. auto. Qed.
Lemma ent_refs_in (V : list (list ent)) e p : In e (concat V) -> In p (ent_refs e) -> In p (vrefs V).
Proof. intros He Hp. unfold vrefs. apply list_elem_of_In, list_elem_of_bind. exists e. by rewrite !list_elem_of_In. Qed.
Lemma unlock_ns h : filter (fun x => x <> Lns) [Lhead h; Lns] = [Lhead h].
Proof. done. Qed.
Lemma unlock_head h L : filter (fun x => x <> Lhead h) (Lhead h :: L) = filter (fun x => x <> Lhead h) L.
Proof. rewrite filter_cons. by rewrite decide_False by (intros Hn; by apply Hn). Qed.
Lemma lock_head_free h : Lhead h ∉ [Lns].
Proof. rewrite list_elem_of_singleton. done. Qed.

Ltac step E := erewrite bind_ok by exact E; cbv beta iota.

Section Look.
Context (K : gmap Z Chan) (V : list (list ent)) (M : nat) (I : Z).
Implicit Types (E H : list Z) (s : nst).
Abbreviation ok E H L := (inv (mkNs K V E H L M I)).

Lemma table_live E H L s e p : ok E H L s -> In e (concat V) -> In p (ent_refs e) -> is_Some (chans s !! p).
Proof. intros Hi He Hp. destruct (chan_live _ s p Hi) as (n & c & Ec & _); [apply table_in; cbn [tab]; by apply (ent_refs_in V e)|]. by eexists. Qed.
Lemma from_ok E H L s e : ok E H L s -> In e (concat V) -> exists n c, chan (e_from e) s = Ok (n, c) s /\ K !! e_from e = Some c.
Proof.
  intros Hi He. destruct (chan_held _ s (e_from e) Hi) as (n & c & Ec & _ & HK & _); [apply table_in; cbn [tab]; apply (ent_refs_in V e); [done|by left]|]. by exists n, c.
Qed.
Definition hown_after (mp : option (option Z)) (h : Z) (H : list Z) : list Z := match mp with None => H | Some _ => h :: H end.
Definition mp_after (mp : option (option Z)) (h : Z) : option (option Z) := match mp with None => None | Some _ => Some (Some h) end.
Lemma find_hit E H s cp mp e f fs : ok (option_list cp ++ E) (option_list (default None mp) ++ H) [Lhead (e_h e); Lns] s -> In e (concat V) -> e_mounts e = f :: fs ->
  exists s', (wunlock Lns;;
        mp ← match mp with None => mret None | Some old => href (e_h e);; putmhead old;; mret (Some (Some (e_h e))) end;
        cclose cp;;
        m ← head (e_h e);
        match h_mount m with
        | [] => fault
        | f :: _ => incref (m_to f);; wunlock (Lhead (e_h e));; mret (Some (m_to f, mp))
        end) s = Ok (Some (m_to f, mp_after mp (e_h e))) s' /\ ok (m_to f :: E) (hown_after mp (e_h e) H) [] s'.
Proof.
  intros Hi He Hm. destruct (wunlock_ok _ _ _ _ _ _ _ s Lns Hi) as (s1 & E1 & Hi1 & _). step E1. rewrite unlock_ns in Hi1.
  assert (Hmp : exists s2, (match mp with None => mret None | Some old => href (e_h e);; putmhead old;; mret (Some (Some (e_h e))) end) s1 = Ok (mp_after mp (e_h e)) s2 /\
    ok (option_list cp ++ E) (hown_after mp (e_h e) H) [Lhead (e_h e)] s2).
  { destruct mp as [old|]; [|by exists s1]. cbn [default hown_after mp_after] in *. destruct (ent_head _ s1 e Hi1 He) as (m & Em & _).
    destruct (href_ok V _ M I K _ _ s1 (e_h e) Hi1) as (s2 & E2 & Hi2); [by eexists|]. step E2.
    assert (Hi2' : ok (option_list cp ++ E) (option_list old ++ e_h e :: H) [Lhead (e_h e)] s2) by (refine (inv_perm _ _ _ _ _ _ _ _ _ _ Hi2 _ _); [done|solve_Permutation]).
    destruct (putmhead_ok V _ M I K _ _ s2 old Hi2') as (s3 & E3 & Hi3 & _). step E3. by exists s3. }
  destruct Hmp as (s2 & E2 & Hi2). step E2. destruct (cclose_ok V _ M I K _ _ s2 cp Hi2) as (s3 & E3 & Hi3). step E3.
  destruct (ent_head _ s3 e Hi3 He) as (m & _ & Eh & _ & Emt). step Eh. rewrite Emt, Hm.
  destruct (incref_ok V _ M I K _ _ s3 (m_to f) Hi3) as (s4 & E4 & Hi4); [eapply (table_live _ _ _ _ e); [exact Hi3|exact He|unfold ent_refs; rewrite Hm; right; by left]|]. step E4.
  destruct (wunlock_ok _ _ _ _ _ _ _ s4 (Lhead (e_h e)) Hi4) as (s5 & E5 & Hi5 & _). step E5. rewrite unlock_head in Hi5. by exists s5.
Qed.
Lemma find_loop_ok E H cp mp type dev qid es : forall s, Forall (fun e => In e (concat V) /\ e_mounts e <> []) es -> ok (option_list cp ++ E) (option_list (default None mp) ++ H) [Lns] s ->
  match List.find (matches K type dev qid) es with
  | None => exists s', find_loop (map e_h es) cp mp type dev qid s = Ok None s' /\ ok (option_list cp ++ E) (option_list (default None mp) ++ H) [] s'
  | Some e => forall f fs, e_mounts e = f :: fs ->
      exists s', find_loop (map e_h es) cp mp type dev qid s = Ok (Some (m_to f, mp_after mp (e_h e))) s' /\ ok (m_to f :: E) (hown_after mp (e_h e) H) [] s'
  end.
Proof.
  induction es as [|e es IH]; intros s Hes Hi.
  - destruct (wunlock_ok _ _ _ _ _ _ _ s Lns Hi) as (s1 & E1 & Hi1 & _). exists s1. split; [|exact Hi1]. cbn [map find_loop]. by step E1.
  - apply Forall_cons_iff in Hes as [[He Hne] Hes]. cbn [map find_loop List.find].
    destruct (wlock_ok _ _ _ _ _ _ _ s (Lhead (e_h e)) Hi (lock_head_free _)) as (s1 & E1 & Hi1 & _). step E1.
    destruct (ent_head _ s1 e Hi1 He) as (m & _ & Eh & Ef & _). step Eh. rewrite Ef. destruct (from_ok _ _ _ s1 e Hi1 He) as (n & c & Ec & HK). step Ec. unfold matches at 1. rewrite HK.
    destruct (eqchantdqid c type dev qid).
    + intros f fs Hm. by apply (find_hit E H s1 cp mp e f fs).
    + destruct (wunlock_ok _ _ _ _ _ _ _ s1 (Lhead (e_h e)) Hi1) as (s2 & E2 & Hi2 & _). rewrite unlock_head in Hi2. specialize (IH s2 Hes Hi2).
      destruct (List.find (matches K type dev qid) es) as [e'|].
      * intros f fs Hm. destruct (IH f fs Hm) as (s3 & E3 & Hi3). exists s3. by step E2.
      * destruct IH as (s3 & E3 & Hi3). exists s3. by step E2.
Qed.
Lemma mounth_ok E H L s q l : ok E H L s -> V !! bucket q = Some l -> mounth q s = Ok (map e_h l) s.
Proof.
  intros Hi Hb. unfold mounth, mbind, ST_bind, gets. rewrite (i_hash _ _ Hi). cbn [tab]. assert (El : map (map e_h) V !! bucket q = Some (map e_h l)) by (rewrite list_lookup_fmap, Hb; done). by rewrite El.
Qed.
(** findmount gives up the channel and the head it is given for those it finds. *)
Lemma findmount_ok E H s cp mp type dev qid : full V -> ok (option_list cp ++ E) (option_list (default None mp) ++ H) [] s ->
  match find_ent K V type dev qid with
  | None => exists s', findmount cp mp type dev qid s = Ok None s' /\ ok (option_list cp ++ E) (option_list (default None mp) ++ H) [] s'
  | Some e => exists f fs s', e_mounts e = f :: fs /\ findmount cp mp type dev qid s = Ok (Some (m_to f, mp_after mp (e_h e))) s' /\ ok (m_to f :: E) (hown_after mp (e_h e) H) [] s'
  end.
Proof.
  intros [Hl Hf] Hi. unfold find_ent. destruct (bucket_in V qid Hl) as [l Hb]. rewrite Hb. cbn [mbind option_bind].
  destruct (wlock_ok _ _ _ _ _ _ _ s Lns Hi) as (s1 & E1 & Hi1 & _); [by apply not_elem_of_nil|].
  assert (Hes : Forall (fun e => In e (concat V) /\ e_mounts e <> []) l).
  { rewrite List.Forall_forall in Hf |- *. intros e He. pose proof (bucket_ents V _ l e Hb He). auto. }
  pose proof (find_loop_ok E H cp mp type dev qid l s1 Hes Hi1) as Hr.
  assert (Eq : findmount cp mp type dev qid s = find_loop (map e_h l) cp mp type dev qid s1) by (unfold findmount; step E1; by step (mounth_ok _ _ _ s1 qid l Hi1 Hb)). rewrite Eq.
  destruct (List.find (matches K type dev qid) l) as [e|] eqn:Ee; [|exact Hr]. apply find_some in Ee as [He _]. rewrite List.Forall_forall in Hes. destruct (Hes e He) as [_ Hne].
  destruct (e_mounts e) as [|f fs]; [done|]. destruct (Hr f fs eq_refl) as (s' & E2 & Hi2). by exists f, fs, s'.
Qed.
End Look.

Section Walks.
Context {D : Dev}.
Context (V : list (list ent)) (L : list lock) (M : nat) (I : Z).
Implicit Types (K : gmap Z Chan) (E H : list Z) (s : nst).
Abbreviation ok K E H := (inv (mkNs K V E H L M I)).

Lemma mchan_live K E H s p n c q : ok K E H s -> chans s !! p = Some (n, c) -> c_mchan c = Some q -> is_Some (chans s !! q).
Proof.
  intros Hi Hp Hq. destruct (chan_live _ s q Hi) as (n' & c' & Ec & _); [|by eexists]. unfold crefs. rewrite !in_app_iff. right. right.
  apply list_elem_of_In, list_elem_of_omap. exists (p, (n, c)). split; [by apply elem_of_map_to_list|done].
Qed.
Definition child (c : Chan) (qs : list Qid) : Chan := mkChan (c_type c) (c_dev c) (default (c_qid c) (list.last qs)) None (c_mchan c) [].
(** A walk of all the names makes a channel. *)
Lemma devwalk_all K E H s p n c names qs : ok K E H s -> chans s !! p = Some (n, c) -> dev_walk (c_type c) (c_dev c) (c_qid c) names = Some qs -> (length names <= length qs)%nat ->
  exists nc s', devwalk p names s = Ok (Some (mkWalkqid qs (Some nc))) s' /\ chans s !! nc = None /\ ok (<[nc := child c qs]> K) (nc :: E) H s'.
Proof.
  intros Hi Hp Ed Hl. assert (Ec : chan p s = Ok (n, c) s) by (unfold chan; by rewrite Hp). unfold devwalk. step Ec. rewrite Ed, (proj2 (Nat.ltb_ge _ _)) by done.
  assert (Hm : exists s1, (match c_mchan c with None => mret tt | Some q => incref q end) s = Ok tt s1 /\ ok K (option_list (c_mchan c) ++ E) H s1 /\ (chans s1 !! above (chans s1) = None -> chans s !! above (chans s1) = None)).
  { destruct (c_mchan c) as [q|] eqn:Eq; [|by exists s]. pose proof (mchan_live K E H s p n c q Hi Hp Eq) as Hq. destruct (incref_ok V L M I K E H s q Hi Hq) as (s1 & E1 & Hi1). exists s1. do 2 (split; [done|]).
    destruct Hq as [[nq cq] Hq]. unfold incref, chan in E1. erewrite bind_ok in E1 by by rewrite Hq. injection E1 as <-. cbn. intros [Hn _]%lookup_insert_None. exact Hn. }
  destruct Hm as (s1 & E1 & Hi1 & Hf). step E1. set (nc := above (chans s1)) in *. assert (Hnc : chans s1 !! nc = None) by apply above_fresh.
  exists nc, (with_chans (<[nc := (1, child c qs)]>) s1). split; [done|]. split; [by apply Hf|]. apply (new_chan V L K E H M I s1 nc (child c qs)); [done|done|constructor].
Qed.
Lemma devwalk_some s p n c names qs : chans s !! p = Some (n, c) -> dev_walk (c_type c) (c_dev c) (c_qid c) names = Some qs -> (length qs < length names)%nat -> devwalk p names s = Ok (Some (mkWalkqid qs None)) s.
Proof. intros Hp Ed Hl. assert (Ec : chan p s = Ok (n, c) s) by (unfold chan; by rewrite Hp). unfold devwalk. step Ec. by rewrite Ed, (proj2 (Nat.ltb_lt _ _)). Qed.
Lemma devwalk_none s p n c names : chans s !! p = Some (n, c) -> dev_walk (c_type c) (c_dev c) (c_qid c) names = None -> devwalk p names s = Ok None s.
Proof. intros Hp Ed. assert (Ec : chan p s = Ok (n, c) s) by (unfold chan; by rewrite Hp). unfold devwalk. step Ec. by rewrite Ed. Qed.
(** A walk of no names makes a copy, which is of the same file. *)
Class DevClone : Prop := dev_clone : forall t d q, dev_walk t d q [] = Some [].
Context {DC : DevClone}.
Definition copy (c : Chan) : Chan := set_name (c_name c) (child c []).
Lemma held_chan K E H s p c : ok K E H s -> In p (vrefs V ++ E) -> K !! p = Some c -> exists n, chan p s = Ok (n, c) s /\ chans s !! p = Some (n, c) /\ text (c_name c).
Proof.
  intros Hi Hp HK. destruct (chan_held _ s p Hi) as (n & c' & Ec & Es & HK' & Ht); [unfold crefs; cbn [tab own]; rewrite !in_app_iff in *; tauto|].
  cbn [idents] in HK'. rewrite HK in HK'. injection HK' as <-. by exists n.
Qed.
Lemma fresh_not_held K E H s p nc : ok K E H s -> In p (vrefs V ++ E) -> chans s !! nc = None -> p <> nc.
Proof. intros Hi Hp Hnc ->. destruct (chan_live _ s nc Hi) as (n & c & Ec & _); [unfold crefs; cbn [tab own]; rewrite !in_app_iff in *; tauto|]. congruence. Qed.
Lemma cclone_ok K E H s p c : ok K E H s -> In p (vrefs V ++ E) -> K !! p = Some c ->
  exists nc s', cclone p s = Ok nc s' /\ ~ In nc (vrefs V ++ E) /\ ok (<[nc := copy c]> K) (nc :: E) H s'.
Proof.
  intros Hi Hp HK. destruct (held_chan K E H s p c Hi Hp HK) as (n & Ec & Es & Ht). destruct (devwalk_all K E H s p n c [] [] Hi Es (dev_clone _ _ _)) as (nc & s1 & E1 & Hnc & Hi1); [done|]. unfold cclone. step E1.
  assert (Hne : p <> nc) by by apply (fresh_not_held K E H s). assert (Hp1 : In p (vrefs V ++ nc :: E)) by (rewrite in_app_iff in *; cbn; tauto).
  destruct (held_chan _ _ _ s1 p c Hi1 Hp1) as (n1 & Ec1 & _); [by rewrite lookup_insert_ne by done|]. step Ec1.
  destruct (held_chan _ _ _ s1 nc (child c []) Hi1) as (n2 & Ec2 & Es2 & _); [rewrite in_app_iff; cbn; tauto|by rewrite lookup_insert_eq|]. step Ec2.
  eexists _, _. split; [done|]. split; [intros Hin; by destruct (fresh_not_held K E H s nc nc Hi Hin Hnc)|].
  rewrite <- (insert_insert_eq K nc (copy c) (child c [])). by apply (put_ident V L _ _ H H M I s1 nc n2 (child c [])).
Qed.
Lemma agrees_insert ps K p c : ~ In p ps -> agrees ps K (<[p := c]> K).
Proof. intros Hn q Hq. apply lookup_insert_ne. by intros ->. Qed.
(** A copy that only the caller has, of the same file and with the same name. *)
Lemma cunique_ok K E H s p c : ok K (p :: E) H s -> K !! p = Some c ->
  exists q c' K' s', cunique p s = Ok q s' /\ K' !! q = Some c' /\ (c' = c \/ c' = copy c) /\ ~ In q (vrefs V ++ E) /\ agrees (vrefs V ++ E) K K' /\ ok K' (q :: E) H s'.
Proof.
  intros Hi HK. assert (Hp : In p (vrefs V ++ p :: E)) by (rewrite in_app_iff; cbn; tauto). destruct (held_chan K _ H s p c Hi Hp HK) as (n & Ec & Es & _). unfold cunique. step Ec.
  destruct (Z.eqb_spec n 1) as [->|_].
  { exists p, c, K, s. do 2 (split; [done|]). split; [by left|]. split; [|split; [by intros q ?|done]]. pose proof (i_chan _ _ Hi p) as Hq. rewrite Es in Hq. destruct Hq as (Hq & _). unfold crefs in Hq. cbn [tab own] in Hq.
    rewrite cnt_in, cnt_app. rewrite !cnt_app, cnt_cons, decide_True in Hq by done. pose proof (cnt_nonneg (bag c_mchan (chans s)) p). lia. } destruct (cclone_ok K _ H s p c Hi Hp HK) as (nc & s1 & E1 & Hnc & Hi1). step E1.
  assert (Hi1' : ok (<[nc := copy c]> K) (option_list (Some p) ++ nc :: E) H s1) by (refine (inv_perm _ _ _ _ _ _ _ _ _ _ Hi1 _ _); [cbn; solve_Permutation|done]).
  destruct (cclose_ok V L M I _ _ H s1 (Some p) Hi1') as (s2 & E2 & Hi2). step E2. exists nc, (copy c), (<[nc := copy c]> K), s2. split; [done|]. split; [by rewrite lookup_insert_eq|]. split; [by right|]. assert (Hn : ~ In nc (vrefs V ++ E)) by (rewrite in_app_iff in *; cbn in Hnc; tauto). split; [done|]. split; [by apply agrees_insert|done].
Qed.
End Walks.

(** ** Mount points *)

Definition place : Type := Z * Z * Qid.
Definition place_of (c : Chan) : place := (c_type c, c_dev c, c_qid c).
Definition mounted (K : gmap Z Chan) (V : list (list ent)) (p : place) : option ent := let '(t, d, q) := p in find_ent K V t d q.
Section Mounts.
Context (V : list (list ent)) (M : nat) (I : Z).
Implicit Types (K : gmap Z Chan) (E H : list Z) (s : nst).
Abbreviation ok K E H := (inv (mkNs K V E H [] M I)).
(** domount gives up the channel and the head for those that are mounted there. *)
Lemma domount_ok K E H s p c mp : full V -> ok K (p :: E) (option_list (default None mp) ++ H) s -> K !! p = Some c ->
  match mounted K V (place_of c) with
  | None => exists s', domount p mp s = Ok (p, mp) s' /\ ok K (p :: E) (option_list (default None mp) ++ H) s'
  | Some e => exists f fs s', e_mounts e = f :: fs /\ domount p mp s = Ok (m_to f, mp_after mp (e_h e)) s' /\ ok K (m_to f :: E) (hown_after mp (e_h e) H) s'
  end.
Proof.
  intros Hf Hi HK. assert (Hp : In p (vrefs V ++ p :: E)) by (rewrite in_app_iff; cbn; tauto). destruct (held_chan V [] M I K _ _ s p c Hi Hp HK) as (n & Ec & _). cbn [mounted place_of].
  pose proof (findmount_ok K V M I E H s (Some p) mp (c_type c) (c_dev c) (c_qid c) Hf Hi) as Hr. unfold domount. destruct (find_ent K V _ _ _) as [e|].
  - destruct Hr as (f & fs & s1 & Em & E1 & Hi1). exists f, fs, s1. split; [done|]. split; [|done]. step Ec. by step E1.
  - destruct Hr as (s1 & E1 & Hi1). exists s1. split; [|done]. step Ec. by step E1.
Qed.
(** What is mounted on, for a channel and a name. *)
Definition at_place (K : gmap Z Chan) (p : Z) (q : Z) : bool := match K !! p, K !! q with Some c, Some d => eqchan c d | _, _ => false end.
Fixpoint out_mounts (K : gmap Z Chan) (ts : list Mount) (from c : Z) : Z :=
  match ts with [] => c | t :: ts => if at_place K c (m_to t) then from else out_mounts K ts from c end.
Definition named_as (K : gmap Z Chan) (p : Z) (name : list Z) : bool := match K !! p with Some c => bool_decide (c_name c = name) | None => false end.
Fixpoint out (K : gmap Z Chan) (es : list ent) (c : Z) (name : list Z) : Z :=
  match es with [] => c | e :: es => out K es (if named_as K (e_from e) name then out_mounts K (e_mounts e) (e_from e) c else c) name end.
Lemma swap_chan K E H L s p q : inv (mkNs K V (p :: E) H L M I) s -> is_Some (chans s !! q) -> exists s', (incref q;; cclose (Some p);; mret q) s = Ok q s' /\ inv (mkNs K V (q :: E) H L M I) s'.
Proof.
  intros Hi Hq. destruct (incref_ok V L M I K _ H s q Hi Hq) as (s1 & E1 & Hi1). step E1.
  assert (Hi1' : inv (mkNs K V (option_list (Some p) ++ q :: E) H L M I) s1) by (refine (inv_perm _ _ _ _ _ _ _ _ _ _ Hi1 _ _); [cbn; solve_Permutation|done]).
  destruct (cclose_ok V L M I K _ H s1 (Some p) Hi1') as (s2 & E2 & Hi2). step E2. by exists s2.
Qed.
Lemma undo_mounts_ok K E H L from ts : In from (vrefs V) -> Forall (fun t => In (m_to t) (vrefs V)) ts -> forall s c, inv (mkNs K V (c :: E) H L M I) s ->
  exists s', undo_mounts ts from c s = Ok (out_mounts K ts from c) s' /\ inv (mkNs K V (out_mounts K ts from c :: E) H L M I) s'.
Proof.
  intros Hf. induction 1 as [|t ts Ht _ IH]; intros s c Hi; [by exists s|]. cbn [undo_mounts out_mounts].
  destruct (chan_held _ s c Hi) as (n & cc & Ec & _ & HK & _); [apply owned_in; by left|]. step Ec. destruct (chan_held _ s (m_to t) Hi) as (n2 & ct & Et & _ & HKt & _); [by apply table_in|]. step Et.
  cbn [idents] in *. unfold at_place. rewrite HK, HKt. destruct (eqchan cc ct); [|by apply IH].
  apply (swap_chan K E H L s c from Hi). destruct (chan_live _ s from Hi) as (n3 & c3 & E3 & _); [by apply table_in|]. by eexists.
Qed.
Lemma undo_heads_ok K E H L name es : Forall (fun e => In e (concat V)) es -> forall s c, inv (mkNs K V (c :: E) H L M I) s ->
  exists s', undo_heads (map e_h es) c name s = Ok (out K es c name) s' /\ inv (mkNs K V (out K es c name :: E) H L M I) s'.
Proof.
  induction 1 as [|e es He _ IH]; intros s c Hi; [by exists s|]. cbn [map undo_heads out].
  destruct (ent_head _ s e Hi He) as (m & _ & Eh & Ef & Em). step Eh. rewrite Ef, Em. destruct (from_ok K V M I _ _ _ s e Hi He) as (n & cf & Ecf & HKf). step Ecf. unfold named_as. rewrite HKf. case_bool_decide; [|by apply IH].
  assert (Hts : Forall (fun t => In (m_to t) (vrefs V)) (e_mounts e)) by (apply List.Forall_forall; intros t Ht; apply (ent_refs_in V e); [done|]; right; by apply in_map).
  destruct (undo_mounts_ok K E H L (e_from e) (e_mounts e)) with (s := s) (c := c) as (s1 & E1 & Hi1); [apply (ent_refs_in V e); [done|by left]|done|done|]. step E1. by apply IH.
Qed.
Lemma undomount_ok K E H s c name : ok K (c :: E) H s -> exists s', undomount c name s = Ok (out K (concat V) c name) s' /\ ok K (out K (concat V) c name :: E) H s'.
Proof.
  intros Hi. unfold undomount. destruct (wlock_ok _ _ _ _ _ _ _ s Lns Hi) as (s1 & E1 & Hi1 & _); [by apply not_elem_of_nil|]. step E1.
  assert (Et : gets mnthash s1 = Ok (map (map e_h) V) s1) by (unfold gets; by rewrite (i_hash _ _ Hi1)). step Et. rewrite <- concat_map.
  destruct (undo_heads_ok K E H [Lns] name (concat V)) with (s := s1) (c := c) as (s2 & E2 & Hi2); [by apply List.Forall_forall|done|].
  assert (E2' : trying (undo_heads (map e_h (concat V)) c name) (wunlock Lns) s1 = Ok (out K (concat V) c name) s2) by (unfold trying; by rewrite E2). step E2'.
  destruct (wunlock_ok _ _ _ _ _ _ _ s2 Lns Hi2) as (s3 & E3 & Hi3 & _). step E3. by exists s3.
Qed.
End Mounts.
