(* ===== verification/NsMount.v ===== *)
(** * Mounting and unmounting

    What cmount and cunmount make of the mount table, and that every reference they
    take or give up is counted. *)

From S2P Require Import Prelude Clean Path Ns NsInv.

(** ** The table as a map from files to unions *)

Definition same_file (p : place) (c : Chan) : bool := let '(t, d, q) := p in (q_path (c_qid c) =? q_path q) && (c_type c =? t) && (c_dev c =? d).
Definition union_at (K : gmap Z Chan) (V : list (list ent)) (p : place) : list Mount := match mounted K V p with Some e => e_mounts e | None => [] end.
(** The mounts of a head, if it is in the table. *)
Definition union_of (V : list (list ent)) (h : option Z) : list Mount :=
  match h with Some h => match List.find (fun e => e_h e =? h) (concat V) with Some e => e_mounts e | None => [] end | None => [] end.

Lemma union_of_in V e : NoDup (vheads V) -> In e (concat V) -> union_of V (Some (e_h e)) = e_mounts e.
Proof.
  intros Hn He. cbn. destruct (List.find _ _) as [e'|] eqn:Ef.
  - apply find_some in Ef as [He' Eh%Z.eqb_eq]. f_equal. apply list_elem_of_In in He, He'. apply list_elem_of_lookup in He as [i Hi], He' as [j Hj].
    assert (i = j) as <-; [|congruence]. unfold vheads in Hn. eapply (NoDup_lookup _ i j (e_h e) Hn); rewrite list_lookup_fmap; [by rewrite Hi|by rewrite Hj, <- Eh].
  - exfalso. apply (find_none _ _ Ef) in He. by rewrite Z.eqb_refl in He.
Qed.
Lemma union_of_out V h : ~ In h (vheads V) -> union_of V (Some h) = [].
Proof. intros Hn. cbn. destruct (List.find _ _) as [e|] eqn:Ef; [|done]. apply find_some in Ef as [He Eh%Z.eqb_eq]. exfalso. apply Hn. rewrite <- Eh. by apply in_map. Qed.
Lemma no_mount_ok K V E H L M I s p n c : inv (mkNs K V E H L M I) s -> chans s !! p = Some (n, c) -> no_mount (c_umh c) s = Ok (union_of V (c_umh c)) s.
Proof.
  intros Hi Hp. destruct (c_umh c) as [h|] eqn:Eu; [|done]. cbn [no_mount].
  assert (Hb : In h (bag c_umh (chans s))) by (apply list_elem_of_In, list_elem_of_omap; exists (p, (n, c)); split; [by apply elem_of_map_to_list|done]).
  destruct (head_live _ s h Hi) as (m & Em & Eh); [unfold hrefs; rewrite !in_app_iff; auto|]. step Eh. pose proof (i_nodup _ _ Hi) as Hn. cbn [tab] in Hn.
  destruct (i_table _ _ Hi h m Em) as [Ht|[Ht Hm]]; cbn [tab] in Ht; [pose proof (union_of_in V _ Hn Ht) as Eu'; cbn [e_h e_mounts] in Eu'; by rewrite Eu'|by rewrite union_of_out, Hm].
Qed.
Lemma union_of_refs V h f : In f (union_of V h) -> In (m_to f) (vrefs V).
Proof.
  destruct h as [h|]; [|done]. cbn. destruct (List.find _ _) as [e|] eqn:Ef; [|done]. apply find_some in Ef as [He _]. intros Hf. apply (ent_refs_in V e); [done|]. right. by apply in_map.
Qed.

(** Changing one entry, or adding one at the end, changes what is on its file. *)
Lemma find_change (P : ent -> bool) xs e e' ys : P e' = P e -> List.find P (xs ++ e' :: ys) = match List.find P xs with Some x => Some x | None => if P e then Some e' else List.find P ys end.
Proof. intros He. induction xs as [|x xs IH]; cbn [app List.find]; [by rewrite He|]. by destruct (P x). Qed.
Lemma matches_same K p e c : K !! e_from e = Some c -> (let '(t, d, q) := p in matches K t d q e) = same_file p c.
Proof. intros HK. destruct p as [[t d] q]. unfold matches. by rewrite HK. Qed.
Lemma same_file_bucket p c : same_file p c = true -> bucket p.2 = bucket (c_qid c).
Proof. destruct p as [[t d] q]. unfold same_file, bucket. cbn. intros Hs. apply andb_true_iff in Hs as [[Hs _]%andb_true_iff _]. apply Z.eqb_eq in Hs. by rewrite Hs. Qed.
Lemma same_file_trans p c c' : same_file p c = true -> same_file p c' = true -> same_file (place_of c') c = true.
Proof. destruct p as [[t d] q]. unfold same_file, place_of. rewrite !andb_true_iff, !Z.eqb_eq. intros [[-> ->] ->] [[-> ->] ->]. done. Qed.
Lemma same_file_sym c c' : same_file (place_of c) c' = same_file (place_of c') c.
Proof. unfold same_file, place_of. by rewrite (Z.eqb_sym (q_path _)), (Z.eqb_sym (c_type _)), (Z.eqb_sym (c_dev _)). Qed.

Section Table.
Context (K : gmap Z Chan).
Implicit Types (V : list (list ent)).
Definition hit (o : Chan) (e : ent) : bool := matches K (c_type o) (c_dev o) (c_qid o) e.
Lemma mounted_place V o : mounted K V (place_of o) = l ← V !! bucket (c_qid o); List.find (hit o) l.
Proof. done. Qed.
Lemma same_hit p o e c : K !! e_from e = Some c -> hit o e = true -> same_file p c = same_file p o.
Proof.
  unfold hit, matches. intros ->. destruct p as [[t d] q]. unfold eqchantdqid, same_file. rewrite !andb_true_iff, !Z.eqb_eq. by intros [[-> ->] ->].
Qed.
(** The first entry of [o]'s file is changed. *)
Lemma mounted_change V xs e e' ys o p : Forall (fun e => is_Some (K !! e_from e)) (concat V) -> V !! bucket (c_qid o) = Some (xs ++ e :: ys) -> Forall (fun x => hit o x = false) xs -> hit o e = true -> e_from e' = e_from e ->
  mounted K (<[bucket (c_qid o) := xs ++ e' :: ys]> V) p = if same_file p o then Some e' else mounted K V p.
Proof.
  intros HK Hb Hxs He Ef. assert (Hall : forall x, In x (xs ++ e :: ys) -> exists c, K !! e_from x = Some c) by (intros x Hx; rewrite List.Forall_forall in HK; apply HK; by apply (bucket_ents V _ _ x Hb)).
  destruct (Hall e) as [c Hc]; [rewrite in_app_iff; right; by left|]. destruct p as [[t d] q]. cbn [mounted]. unfold find_ent.
  assert (Hm : matches K t d q e = same_file (t, d, q) o) by (rewrite <- (same_hit _ o e c Hc He); by apply (matches_same K (t, d, q) e c)).
  destruct (decide (bucket q = bucket (c_qid o))) as [Eb|Nb].
  - rewrite Eb. rewrite list_lookup_insert_eq by (by apply lookup_lt_Some in Hb). rewrite Hb. cbn [mbind option_bind]. rewrite (find_change _ xs e e' ys), (find_change _ xs e e ys), Hm by (unfold matches; by rewrite ?Ef).
    destruct (same_file (t, d, q) o) eqn:Es; [|done]. assert (Hn : List.find (matches K t d q) xs = None); [|by rewrite Hn].
    clear -Hxs Es Hall. induction Hxs as [|x xs Hx _ IH]; [done|]. cbn [List.find]. destruct (Hall x) as [cx Hcx]; [by left|]. pose proof (matches_same K (t, d, q) x cx Hcx) as Em. cbv beta iota in Em. rewrite Em.
    destruct (same_file (t, d, q) cx) eqn:Esx; [|apply IH; intros y Hy; apply Hall; by right]. exfalso. unfold hit, matches in Hx. rewrite Hcx in Hx. pose proof (same_file_trans _ _ _ Esx Es) as Hs. unfold same_file, place_of, eqchantdqid in *. by rewrite Hs in Hx.
  - rewrite list_lookup_insert_ne by done. destruct (same_file (t, d, q) o) eqn:Es; [|done]. exfalso. apply Nb. by apply (same_file_bucket (t, d, q)).
Qed.
(** An entry is added for a file that had none. *)
Lemma mounted_add V l e' o p : Forall (fun e => is_Some (K !! e_from e)) (concat V) -> V !! bucket (c_qid o) = Some l -> List.find (hit o) l = None -> K !! e_from e' = Some o ->
  mounted K (<[bucket (c_qid o) := l ++ [e']]> V) p = if same_file p o then Some e' else mounted K V p.
Proof.
  intros HK Hb Hn Ho. destruct p as [[t d] q]. cbn [mounted]. unfold find_ent. pose proof (matches_same K (t, d, q) e' o Ho) as Hm. cbv beta iota in Hm.
  destruct (decide (bucket q = bucket (c_qid o))) as [Eb|Nb].
  - rewrite Eb. rewrite list_lookup_insert_eq by (by apply lookup_lt_Some in Hb). rewrite Hb. cbn [mbind option_bind]. rewrite (find_change _ l e' e' []) by done. rewrite Hm.
    destruct (same_file (t, d, q) o) eqn:Es; [|by destruct (List.find (matches K t d q) l)]. assert (Hx : List.find (matches K t d q) l = None); [|by rewrite Hx].
    destruct (List.find (matches K t d q) l) as [x|] eqn:Ex; [|done]. exfalso. apply find_some in Ex as [Hx Ex]. apply (find_none _ _ Hn) in Hx as Hh. rewrite List.Forall_forall in HK. destruct (HK x) as [cx Hcx]; [by apply (bucket_ents V _ _ x Hb)|].
    pose proof (matches_same K (t, d, q) x cx Hcx) as Em. cbv beta iota in Em. rewrite Ex in Em. symmetry in Em. unfold hit, matches in Hh. rewrite Hcx in Hh. pose proof (same_file_trans _ _ _ Em Es) as Hs. unfold same_file, place_of, eqchantdqid in *. by rewrite Hs in Hh.
  - rewrite list_lookup_insert_ne by done. destruct (same_file (t, d, q) o) eqn:Es; [|done]. exfalso. apply Nb. by apply (same_file_bucket (t, d, q)).
Qed.
End Table.

(** No file has two entries. *)
Definition key (K : gmap Z Chan) (p : Z) : option (Z * Z * Z) := (fun c => (c_type c, c_dev c, q_path (c_qid c))) <$> K !! p.
Definition distinct (K : gmap Z Chan) (V : list (list ent)) : Prop := Forall (fun l => NoDup (map (fun e => key K (e_from e)) l)) V.
Lemma distinct_at K V b l : distinct K V -> V !! b = Some l -> NoDup (map (fun e => key K (e_from e)) l).
Proof. intros Hd Hb. exact (proj1 (list.Forall_lookup _ V) Hd b l Hb). Qed.
Lemma hit_key K o e : hit K o e = true <-> key K (e_from e) = Some (c_type o, c_dev o, q_path (c_qid o)).
Proof.
  unfold hit, matches, key. destruct (K !! e_from e) as [c|]; [|by split]. cbn. unfold eqchantdqid. rewrite !andb_true_iff, !Z.eqb_eq. split; [by intros [[-> ->] ->]|by intros [= -> -> ->]].
Qed.
Lemma distinct_same K V b l l' : distinct K V -> V !! b = Some l -> map e_from l' = map e_from l -> distinct K (<[b := l']> V).
Proof.
  intros Hd Hb Hl. apply list.Forall_insert; [done|]. assert (E : forall l : list ent, map (fun e => key K (e_from e)) l = map (key K) (map e_from l)) by (intros l0; by rewrite map_map).
  rewrite E, Hl, <- E. by apply (distinct_at K V b).
Qed.
Lemma distinct_add K V o l e' : distinct K V -> V !! bucket (c_qid o) = Some l -> List.find (hit K o) l = None -> K !! e_from e' = Some o -> distinct K (<[bucket (c_qid o) := l ++ [e']]> V).
Proof.
  intros Hd Hb Hn Ho. apply list.Forall_insert; [done|]. rewrite map_app. cbn [map]. apply list.NoDup_app. split; [by eapply distinct_at|]. split; [|apply list.NoDup_singleton].
  intros k Hk Hk'. apply list_elem_of_singleton in Hk' as ->. apply list_elem_of_In, in_map_iff in Hk as (e & Ek & He). pose proof (find_none _ _ Hn e He) as Hh. assert (Ht : hit K o e = true); [|congruence].
  apply hit_key. rewrite Ek. unfold key. by rewrite Ho.
Qed.
Lemma distinct_del K V b xs e ys : distinct K V -> V !! b = Some (xs ++ e :: ys) -> distinct K (<[b := xs ++ ys]> V).
Proof.
  intros Hd Hb. apply list.Forall_insert; [done|]. pose proof (distinct_at K V _ _ Hd Hb) as Hn. rewrite map_app in *. cbn [map] in Hn. rewrite <- Permutation_middle in Hn. by apply list.NoDup_cons in Hn as [_ ?].
Qed.
(** The entry of a file is taken away. *)
Lemma mounted_del K V xs e ys o p : Forall (fun e => is_Some (K !! e_from e)) (concat V) -> distinct K V -> V !! bucket (c_qid o) = Some (xs ++ e :: ys) -> Forall (fun x => hit K o x = false) xs -> hit K o e = true ->
  mounted K (<[bucket (c_qid o) := xs ++ ys]> V) p = if same_file p o then None else mounted K V p.
Proof.
  intros HK Hd Hb Hxs He. pose proof (distinct_at K V _ _ Hd Hb) as Hn. rewrite map_app in Hn. cbn [map] in Hn. rewrite <- Permutation_middle in Hn. apply list.NoDup_cons in Hn as [Hn _].
  assert (Hys : forall x, In x (xs ++ ys) -> hit K o x = false).
  { intros x Hx. destruct (hit K o x) eqn:Eh; [|done]. exfalso. apply Hn. apply hit_key in Eh, He. rewrite He, <- Eh, <- map_app. apply list_elem_of_In. by apply (in_map (fun e => key K (e_from e))). }
  assert (Hall : forall x, In x (xs ++ e :: ys) -> exists c, K !! e_from x = Some c) by (intros x Hx; rewrite List.Forall_forall in HK; apply HK; by apply (bucket_ents V _ _ x Hb)).
  destruct (Hall e) as [c Hc]; [rewrite in_app_iff; right; by left|]. destruct p as [[t d] q]. cbn [mounted]. unfold find_ent.
  assert (Hm : matches K t d q e = same_file (t, d, q) o) by (rewrite <- (same_hit K _ o e c Hc He); by apply (matches_same K (t, d, q) e c)).
  destruct (decide (bucket q = bucket (c_qid o))) as [Eb|Nb].
  - rewrite Eb. rewrite list_lookup_insert_eq by (by apply lookup_lt_Some in Hb). rewrite Hb. cbn [mbind option_bind]. destruct (same_file (t, d, q) o) eqn:Es.
    + destruct (List.find (matches K t d q) (xs ++ ys)) as [x|] eqn:Ex; [|done]. exfalso. apply find_some in Ex as [Hx Ex]. destruct (Hall x) as [cx Hcx]; [rewrite in_app_iff in *; cbn; tauto|].
      pose proof (matches_same K (t, d, q) x cx Hcx) as Em. cbv beta iota in Em. rewrite Ex in Em. symmetry in Em. pose proof (Hys x Hx) as Hh. unfold hit, matches in Hh. rewrite Hcx in Hh. pose proof (same_file_trans _ _ _ Em Es) as Hs. unfold same_file, place_of, eqchantdqid in *. by rewrite Hs in Hh.
    + rewrite (find_change _ xs e e ys), Hm by done. clear. induction xs as [|x xs IH]; [done|]. cbn [app List.find]. by destruct (matches K t d q x).
  - rewrite list_lookup_insert_ne by done. destruct (same_file (t, d, q) o) eqn:Es; [|done]. exfalso. apply Nb. by apply (same_file_bucket (t, d, q)).
Qed.

(** ** The pieces of cmount *)

Lemma entries_known K V E H L M I s : inv (mkNs K V E H L M I) s -> Forall (fun e => is_Some (K !! e_from e)) (concat V).
Proof. intros Hi. apply List.Forall_forall. intros e He. destruct (from_ok K V M I _ _ _ s e Hi He) as (n & c & _ & HK). by eexists. Qed.
Lemma hash_find_ok K V E H L M I s o es : inv (mkNs K V E H L M I) s -> forall before, Forall (fun e => In e (concat V)) es ->
  (List.find (hit K o) es = None /\ hash_find (map e_h es) before o s = Ok (before ++ map e_h es, None) s) \/
  (exists xs e ys, es = xs ++ e :: ys /\ Forall (fun x => hit K o x = false) xs /\ hit K o e = true /\
    hash_find (map e_h es) before o s = Ok (before ++ map e_h xs, Some (e_h e, map e_h ys)) s).
Proof.
  intros Hi. induction es as [|e es IH]; intros before Hes; [left; split; [done|]; cbn; by rewrite app_nil_r|]. apply Forall_cons_iff in Hes as [He Hes].
  destruct (ent_head _ s e Hi He) as (m & _ & Eh & Ef & _). destruct (from_ok K V M I _ _ _ s e Hi He) as (n & c & Ec & HK). cbn [map hash_find List.find].
  assert (Hh : hit K o e = eqchan c o) by (unfold hit, matches; by rewrite HK). rewrite Hh. destruct (eqchan c o) eqn:Eq.
  - right. exists [], e, es. split; [done|]. split; [constructor|]. split; [done|]. step Eh. rewrite Ef. step Ec. rewrite Eq. cbn. by rewrite app_nil_r.
  - assert (Hstep : hash_find (map e_h (e :: es)) before o s = hash_find (map e_h es) (before ++ [e_h e]) o s) by (cbn [map hash_find]; step Eh; rewrite Ef; step Ec; by rewrite Eq). cbn [map hash_find] in Hstep.
    destruct (IH (before ++ [e_h e]) Hes) as [[Hn Hr]|(xs & e' & ys & -> & Hxs & He' & Hr)].
    + left. split; [done|]. rewrite Hstep, Hr. by rewrite <- app_assoc.
    + right. exists (e :: xs), e', ys. split; [done|]. split; [by constructor|]. split; [done|]. rewrite Hstep, Hr. by rewrite <- app_assoc.
Qed.
Lemma bucket_all (V : list (list ent)) b l : V !! b = Some l -> Forall (fun e => In e (concat V)) l.
Proof. intros Hb. apply List.Forall_forall. intros e He. by apply (bucket_ents V b l). Qed.
Lemma concat_insert_in {A} (V : list (list A)) b l l' x : V !! b = Some l -> In x (concat (<[b := l']> V)) -> In x l' \/ In x (concat V).
Proof. intros Hb. destruct (concat_at V b l Hb) as (R & PV & PV'). rewrite (PV' l'), PV, !in_app_iff. tauto. Qed.
(** What mount_head finds or makes: an entry for the file, and the table with others for it. *)
Record located (K : gmap Z Chan) (V V1 : list (list ent)) (o : Chan) (xs : list ent) (e : ent) (ys : list ent) : Prop := {
  lo_at : V1 !! bucket (c_qid o) = Some (xs ++ e :: ys);
  lo_change : forall ms p, mounted K (<[bucket (c_qid o) := xs ++ mkEnt (e_h e) (e_from e) ms :: ys]> V1) p = if same_file p o then Some (mkEnt (e_h e) (e_from e) ms) else mounted K V p;
  lo_full : forall ms, ms <> [] -> full V -> full (<[bucket (c_qid o) := xs ++ mkEnt (e_h e) (e_from e) ms :: ys]> V1);
  lo_distinct : distinct K V -> forall ms, distinct K (<[bucket (c_qid o) := xs ++ mkEnt (e_h e) (e_from e) ms :: ys]> V1);
  lo_unions : forall h, In h (vheads V) -> union_of V1 (Some h) = union_of V (Some h);
  lo_heads : forall h, h <> e_h e -> In h (vheads V1) -> In h (vheads V);
}.
Lemma located_found K V E H L M I s o xs e ys : inv (mkNs K V E H L M I) s -> V !! bucket (c_qid o) = Some (xs ++ e :: ys) -> Forall (fun x => hit K o x = false) xs -> hit K o e = true -> located K V V o xs e ys.
Proof.
  intros Hi Hb Hxs He. split; try done.
  - intros ms p. apply (mounted_change K V xs e _ ys o p); [by eapply entries_known|done|done|done|done].
  - intros ms Hms [Hl Hf]. split; [by rewrite length_insert|]. rewrite List.Forall_forall in Hf |- *. intros x Hx. destruct (concat_at V _ _ Hb) as (R & PV & PV'). rewrite PV', !in_app_iff in Hx. destruct Hx as [[Hx|[<-|Hx]]|Hx]; [|done| |]; apply Hf; rewrite PV, !in_app_iff; cbn; tauto.
  - intros Hd ms. apply (distinct_same K V _ (xs ++ e :: ys)); [done|done|]. by rewrite !map_app.
Qed.
Lemma located_made K V E H L M I s o l h from ms0 : inv (mkNs K V E H L M I) s -> V !! bucket (c_qid o) = Some l -> List.find (hit K o) l = None -> K !! from = Some o -> ~ In h (vheads V) ->
  located K V (<[bucket (c_qid o) := l ++ [mkEnt h from ms0]]> V) o l (mkEnt h from ms0) [].
Proof.
  intros Hi Hb Hn Hf Hh. pose proof (lookup_lt_Some _ _ _ Hb) as Hlt. destruct (concat_at V _ _ Hb) as (R & PV & PV'). split.
  - by apply list_lookup_insert_eq.
  - intros ms p. rewrite list_insert_insert_eq. apply mounted_add; [by eapply entries_known|done|done|done].
  - intros ms Hms [Hl Hfu]. rewrite list_insert_insert_eq. split; [by rewrite length_insert|]. rewrite List.Forall_forall in Hfu |- *. intros x Hx. apply (concat_insert_in V _ l) in Hx; [|done].
    rewrite in_app_iff in Hx. destruct Hx as [[Hx|[<-|[]]]|Hx]; [|done|by apply Hfu]. apply Hfu. by eapply (bucket_ents V).
  - intros Hd ms. rewrite list_insert_insert_eq. by apply distinct_add.
  - intros h' Hin. apply in_map_iff in Hin as (e & <- & He). pose proof (i_nodup _ _ Hi) as Hnd. cbn [tab] in Hnd. rewrite (union_of_in V e Hnd He). apply union_of_in.
    + unfold vheads. rewrite PV', !map_app. cbn [map e_h].  unfold vheads in Hnd. rewrite PV, map_app in Hnd.
      rewrite <- app_assoc. cbn [app]. rewrite <- Permutation_middle. apply list.NoDup_cons. split; [|done]. rewrite list_elem_of_In. intros Hin. apply Hh. unfold vheads. apply list_elem_of_In. rewrite PV, map_app. by apply list_elem_of_In.
    + rewrite PV', !in_app_iff. rewrite PV, in_app_iff in He. tauto.
  - intros h' Hne Hin. unfold vheads in *. apply in_map_iff in Hin as (e & <- & He). apply in_map. apply (concat_insert_in V _ l) in He; [|done]. rewrite in_app_iff in He. destruct He as [[He|[<-|[]]]|He]; [by eapply (bucket_ents V)|done|done].
Qed.

Section Pieces.
Context (K : gmap Z Chan).
Implicit Types (V : list (list ent)) (E H : list Z) (L : list lock) (s : nst).

Lemma held_live V E H L M I s p : inv (mkNs K V E H L M I) s -> In p (vrefs V ++ E) -> is_Some (chans s !! p).
Proof. intros Hi Hp. destruct (chan_live _ s p Hi) as (n & c & Ec & _); [unfold crefs; cbn [tab own]; rewrite !in_app_iff in *; tauto|]. by eexists. Qed.
Lemma mount_head_ok V E H M I s old o order : inv (mkNs K V E H [Lns] (Datatypes.S M) I) s -> full V -> In old (vrefs V ++ E) -> K !! old = Some o ->
  exists s1 V1 xs e ys M1 I1, mount_head old o order s = Ok (e_h e) s1 /\ inv (mkNs K V1 E H [Lns] M1 I1) s1 /\ located K V V1 o xs e ys /\ (M <= M1)%nat /\
    (forall h, is_Some (heads s !! h) -> union_of V1 (Some h) = union_of V (Some h)) /\
    match mounted K V (place_of o) with
    | Some e0 => e = e0
    | None => e_mounts e = if order =? MREPL then [] else [mkMount (I + 1) old 0 []]
    end.
Proof.
  intros Hi Hfull Hold Ho. destruct (bucket_in V (c_qid o) (proj1 Hfull)) as [l Hb]. pose proof (mounth_ok K V _ I _ _ _ s (c_qid o) l Hi Hb) as Eh. unfold mount_head. step Eh.
  rewrite mounted_place, Hb. cbn [mbind option_bind]. destruct (hash_find_ok K V _ _ _ _ _ s o l Hi [] (bucket_all V _ l Hb)) as [[Hn Ef]|(xs & e & ys & -> & Hxs & He & Ef)].
  - step Ef. rewrite Hn. destruct (newmhead_ok V [Lns] K E H _ I s old Hi (held_live _ _ _ _ _ _ _ _ Hi Hold)) as (h & s1 & E1 & Hh0 & Hh & Hnh & Hi1). step E1.
    pose proof (add_head_ok K [Lns] _ I V E H s1 _ l h old _ Hi1 Hb Hh eq_refl eq_refl Hnh) as Hi2. set (s2 := with_hash _ s1) in Hi2. assert (E2 : modify (with_hash (<[bucket (c_qid o) := ([] ++ map e_h l) ++ [h]]>)) s1 = Ok tt s2) by done. step E2.
    set (V1 := <[bucket (c_qid o) := l ++ [mkEnt h old []]]> V) in *. assert (Hb1 : V1 !! bucket (c_qid o) = Some (l ++ mkEnt h old [] :: [])) by (apply list_lookup_insert_eq; by apply lookup_lt_Some in Hb).
    assert (Hun : forall ms h', is_Some (heads s !! h') -> union_of (<[bucket (c_qid o) := l ++ [mkEnt h old ms]]> V) (Some h') = union_of V (Some h')).
    { intros ms h' [mh Hmh]. pose proof (located_made K V _ _ _ _ _ s o l h old ms Hi Hb Hn Ho Hnh) as Hloc. destruct (in_dec Z.eq_dec h' (vheads V)) as [Hin|Hout]; [by apply (lo_unions _ _ _ _ _ _ _ Hloc)|].
      rewrite (union_of_out V h') by done. apply union_of_out. intros Hin. apply Hout. apply (lo_heads _ _ _ _ _ _ _ Hloc); [cbn; congruence|done]. }
    destruct (order =? MREPL); cbn [negb].
    + exists s2, V1, l, (mkEnt h old []), [], (Datatypes.S M), I. split; [done|]. split; [done|]. split; [by eapply located_made|]. split; [lia|]. split; [apply Hun|done].
    + assert (Hold2 : In old (vrefs V1 ++ E)) by (rewrite in_app_iff; left; apply (ent_refs_in V1 (mkEnt h old [])); [apply (bucket_ents V1 _ _ _ Hb1); rewrite in_app_iff; right; by left|by left]).
      destruct (newmount_ok V1 [Lns] K E H M I s2 old 0 [] Hi2 (held_live _ _ _ _ _ _ _ _ Hi2 Hold2)) as (s3 & E3 & Hi3).
      destruct (set_mounts_ok K [Lns] M (I + 1) V1 _ E H s3 _ l (mkEnt h old []) [] [mkMount (I + 1) old 0 []] Hi3 Hb1) as (s4 & E4 & Hi4); [done|]. cbn [e_h e_from e_mounts map app] in *.
      assert (E34 : (f ← newmount old 0 []; set_mounts h [f]) s2 = Ok tt s4) by (by step E3). step E34. unfold V1 in Hi4. rewrite list_insert_insert_eq in Hi4.
      eexists s4, _, l, (mkEnt h old [mkMount (I + 1) old 0 []]), [], M, (I + 1). split; [done|]. split; [exact Hi4|]. split; [by eapply located_made|]. split; [lia|]. split; [apply Hun|done].
  - step Ef. exists s, V, xs, e, ys, (Datatypes.S M), I. split; [done|]. split; [done|]. split; [by eapply located_found|]. split; [lia|]. split; [done|].
    assert (Hfind : List.find (hit K o) (xs ++ e :: ys) = Some e) by (rewrite (find_change _ xs e e ys), He by done; assert (Hx : List.find (hit K o) xs = None) by (clear -Hxs; induction Hxs as [|x xs Hx _ IH]; [done|]; cbn; by rewrite Hx); by rewrite Hx). by rewrite Hfind.
Qed.
Lemma mountfree_ok V H L M I E l : forall s, inv (mkNs K V (map m_to l ++ E) H L M I) s -> exists s', mountfree l s = Ok tt s' /\ inv (mkNs K V E H L M I) s'.
Proof.
  induction l as [|m l IH]; intros s Hi; [by exists s|]. cbn [mountfree]. destruct (cclose_ok V L M I K (map m_to l ++ E) H s (Some (m_to m)) Hi) as (s1 & E1 & Hi1). step E1. by apply IH.
Qed.
(** Copies of the rest of a union. *)
Definition copied (flg : Z) (um f : Mount) : Prop := m_to f = m_to um /\ m_flag f = flg /\ m_spec f = m_spec um.
Lemma copy_union_ok V H L flg ums : forall s E M I, inv (mkNs K V E H L (length ums + M) I) s -> Forall (fun um => In (m_to um) (vrefs V)) ums ->
  exists fs s' I', copy_union ums flg s = Ok fs s' /\ inv (mkNs K V (map m_to fs ++ E) H L M I') s' /\ Forall2 (copied flg) ums fs.
Proof.
  induction ums as [|um ums IH]; intros s E M I Hi Hu; [by exists [], s, I|]. apply Forall_cons_iff in Hu as [Hum Hu]. cbn [copy_union length Nat.add] in *.
  destruct (newmount_ok V L K E H _ I s (m_to um) flg (m_spec um) Hi) as (s1 & E1 & Hi1); [eapply held_live; [exact Hi|]; rewrite in_app_iff; by left|]. step E1.
  destruct (IH s1 (m_to um :: E) M (I + 1) Hi1 Hu) as (fs & s2 & I' & E2 & Hi2 & Hc). step E2. eexists _, s2, I'. split; [done|]. split; [|by constructor].
  refine (inv_perm _ _ _ _ _ _ _ _ _ _ Hi2 _ _); [cbn; solve_Permutation|done].
Qed.
Definition joined_to (order : Z) (l nm : list Mount) : list Mount :=
  if order =? MREPL then nm else if (order =? MAFTER) && negb (match l with [] => true | _ => false end) then l ++ nm else nm ++ l.
Lemma attach_ok V E H L M I s b xs e ys order nm : inv (mkNs K V (map m_to nm ++ E) H L M I) s -> V !! b = Some (xs ++ e :: ys) ->
  exists s', attach (e_h e) order nm s = Ok tt s' /\ inv (mkNs K (<[b := xs ++ mkEnt (e_h e) (e_from e) (joined_to order (e_mounts e) nm) :: ys]> V) E H L M I) s'.
Proof.
  intros Hi Hb. assert (He : In e (concat V)) by (apply (bucket_ents V b _ e Hb); rewrite in_app_iff; right; by left). destruct (ent_head _ s e Hi He) as (m & _ & Eh & _ & Em). unfold attach. step Eh. rewrite Em.
  assert (H1 : exists s1 e1 V1, (match e_mounts e with [] => mret tt | l => if order =? MREPL then set_mounts (e_h e) [];; mountfree l else mret tt end) s = Ok tt s1 /\
    V1 = <[b := xs ++ e1 :: ys]> V /\ e1 = mkEnt (e_h e) (e_from e) (if order =? MREPL then [] else e_mounts e) /\ inv (mkNs K V1 (map m_to nm ++ E) H L M I) s1).
  { destruct (order =? MREPL).
    - destruct (set_mounts_ok K L M I V _ (map m_to (e_mounts e) ++ map m_to nm ++ E) H s b xs e ys [] Hi Hb) as (s1 & E1 & Hi1); [done|]. destruct (mountfree_ok _ H L M I (map m_to nm ++ E) (e_mounts e) s1 Hi1) as (s2 & E2 & Hi2).
      destruct (e_mounts e) as [|f fs] eqn:Ems.
      + exists s, e, V. split; [done|]. split; [by rewrite list_insert_id|]. split; [destruct e; cbn in *; by subst|done].
      + eexists s2, _, _. split; [by step E1|]. split; [done|]. by split.
    - exists s, e, V. split; [by destruct (e_mounts e)|]. split; [by rewrite list_insert_id|]. split; [by destruct e|done]. }
  destruct H1 as (s1 & e1 & V1 & E1 & -> & -> & Hi1). step E1. set (e1 := mkEnt _ _ _) in *. assert (Hb1 : <[b := xs ++ e1 :: ys]> V !! b = Some (xs ++ e1 :: ys)) by (apply list_lookup_insert_eq; by apply lookup_lt_Some in Hb).
  assert (He1 : In e1 (concat (<[b := xs ++ e1 :: ys]> V))) by (apply (bucket_ents _ b _ e1 Hb1); rewrite in_app_iff; right; by left). destruct (ent_head _ s1 e1 Hi1 He1) as (m1 & _ & Eh1 & _ & Em1). change (e_h e1) with (e_h e) in Eh1. step Eh1. rewrite Em1.
  set (l1 := e_mounts e1) in *. assert (El : (if negb (match l1 with [] => true | _ => false end) && (order =? MAFTER) then set_mounts (e_h e) (l1 ++ nm) else set_mounts (e_h e) (nm ++ l1)) s1 = set_mounts (e_h e1) (joined_to order (e_mounts e) nm) s1 /\ map m_to (joined_to order (e_mounts e) nm) ++ E ≡ₚ map m_to l1 ++ map m_to nm ++ E).
  { unfold joined_to, l1, e1. cbn [e_mounts e_h]. destruct (order =? MREPL) eqn:Er.
    - cbn [negb andb]. rewrite app_nil_r. by split.
    - rewrite (andb_comm (negb _)). destruct ((order =? MAFTER) && _); split; try done; rewrite map_app; solve_Permutation. }
  destruct El as [-> Pl]. destruct (set_mounts_ok K L M I _ _ E H s1 b xs e1 ys (joined_to order (e_mounts e) nm) Hi1 Hb1) as (s2 & E2 & Hi2); [by rewrite Pl|].
  exists s2. split; [exact E2|]. by rewrite list_insert_insert_eq in Hi2.
Qed.
End Pieces.

(** ** cmount *)

Lemma create_set flag : negb (Z.land flag MCREATE =? 0) = true -> Z.lor flag MCREATE = flag.
Proof.
  rewrite negb_true_iff, Z.eqb_neq. intros Hf. assert (Hb : Z.testbit flag 2 = true).
  { destruct (Z.testbit flag 2) eqn:Eb; [done|]. exfalso. apply Hf. apply Z.bits_inj'. intros i Hi. rewrite Z.land_spec, Z.bits_0. unfold MCREATE. change 4 with (2 ^ 2). rewrite Z.pow2_bits_eqb by done. destruct (Z.eqb_spec 2 i) as [<-|]; [by rewrite Eb|apply andb_false_r]. }
  apply Z.bits_inj'. intros i Hi. rewrite Z.lor_spec. unfold MCREATE. change 4 with (2 ^ 2). rewrite Z.pow2_bits_eqb by done. destruct (Z.eqb_spec 2 i) as [<-|]; [by rewrite Hb|apply orb_false_r].
Qed.
Definition copy_flag (order : Z) : Z := if order =? MREPL then MAFTER else order.
(** What is on the directory before: a union begins with the directory itself. *)
Definition union_before (K : gmap Z Chan) (V : list (list ent)) (I : Z) (old : Z) (o : Chan) (order : Z) : list Mount :=
  match mounted K V (place_of o) with Some e => e_mounts e | None => if order =? MREPL then [] else [mkMount (I + 1) old 0 []] end.
Record allowed (V : list (list ent)) (n o : Chan) (flag : Z) : Prop := {
  al_kind : Z.land (Z.lxor (q_type (c_qid o)) (q_type (c_qid n))) QTDIR = 0;
  al_dir : is_dir (c_qid o) = true \/ order_of flag = MREPL;
  al_union : forbidden flag (union_of V (c_umh n)) = false;
}.
Lemma joined_not_nil order l f fs : joined_to order l (f :: fs) <> [].
Proof. unfold joined_to. destruct (_ =? _); [done|]. destruct (_ && _); [by destruct l|done]. Qed.
Lemma mount_new_ok K V E H M I s b xs e ys new n flag spec : inv (mkNs K V E H [Lhead (e_h e); Lns] (Datatypes.S (length (tail (union_of V (c_umh n))) + M)) I) s ->
  V !! b = Some (xs ++ e :: ys) -> In new (vrefs V ++ E) -> K !! new = Some n ->
  exists s' i fs I', mount_new (e_h e) new (c_umh n) flag (order_of flag) spec s = Ok i s' /\ Forall2 (copied (copy_flag (order_of flag))) (tail (union_of V (c_umh n))) fs /\
    inv (mkNs K (<[b := xs ++ mkEnt (e_h e) (e_from e) (joined_to (order_of flag) (e_mounts e) (mkMount i new flag spec :: fs)) :: ys]> V) E H [Lhead (e_h e)] M I') s'.
Proof.
  intros Hi Hb Hnew Hn. unfold mount_new. destruct (wunlock_ok _ _ _ _ _ _ _ s Lns Hi) as (s1 & E1 & Hi1 & _). rewrite unlock_ns in Hi1. step E1.
  destruct (newmount_ok V [Lhead (e_h e)] K E H _ I s1 new flag spec Hi1 (held_live K _ _ _ _ _ _ _ _ Hi1 Hnew)) as (s2 & E2 & Hi2). step E2.
  assert (Hnew2 : In new (vrefs V ++ new :: E)) by (rewrite in_app_iff; cbn; tauto). destruct (held_chan V _ _ _ K _ _ s2 new n Hi2 Hnew2 Hn) as (r & _ & Es & _). pose proof (no_mount_ok K V _ _ _ _ _ s2 new r n Hi2 Es) as Eu. step Eu.
  set (um := union_of V (c_umh n)) in *. assert (Hum : Forall (fun f => In (m_to f) (vrefs V)) (tail um)).
  { apply List.Forall_forall. intros f Hf. apply (union_of_refs V (c_umh n)). fold um. destruct um; [done|by right]. }
  destruct (copy_union_ok K V H _ (copy_flag (order_of flag)) (tail um) s2 (new :: E) M (I + 1) Hi2 Hum) as (fs & s3 & I' & E3 & Hi3 & Hc). unfold copy_flag at 1 in E3. step E3.
  assert (Hnm : (if negb (Z.land flag MCREATE =? 0) then mkMount (I + 1) new (Z.lor flag MCREATE) spec else mkMount (I + 1) new flag spec) = mkMount (I + 1) new flag spec).
  { destruct (negb (Z.land flag MCREATE =? 0)) eqn:Ec; [by rewrite create_set|done]. }
  cbv zeta. cbn [m_id m_to m_flag m_spec]. rewrite Hnm. assert (Hi3' : inv (mkNs K V (map m_to (mkMount (I + 1) new flag spec :: fs) ++ E) H [Lhead (e_h e)] M I') s3) by (refine (inv_perm _ _ _ _ _ _ _ _ _ _ Hi3 _ _); [cbn; solve_Permutation|done]).
  destruct (attach_ok K V E H _ M I' s3 b xs e ys (order_of flag) _ Hi3' Hb) as (s4 & E4 & Hi4). step E4. by exists s4, (I + 1), fs, I'.
Qed.
Lemma cmount_starts K V E H M I s new n old o flag spec : inv (mkNs K V E H [] M I) s -> In new (vrefs V ++ E) -> In old (vrefs V ++ E) -> K !! new = Some n -> K !! old = Some o -> allowed V n o flag ->
  exists s1, cmount new old flag spec s = (m ← mount_head old o (order_of flag); wlock (Lhead m);; i ← trying (mount_new m new (c_umh n) flag (order_of flag) spec) (wunlock (Lhead m)); wunlock (Lhead m);; mret i) s1 /\
    inv (mkNs K V E H [Lns] M I) s1 /\ heads s1 = heads s.
Proof.
  intros Hi Hnew Hold Hn Ho [A1 A2 A3]. destruct (held_chan V [] M I K E H s new n Hi Hnew Hn) as (r1 & Ec1 & Es1 & _). destruct (held_chan V [] M I K E H s old o Hi Hold Ho) as (r2 & Ec2 & _).
  destruct (wlock_ok _ _ _ _ _ _ _ s Lns Hi) as (s1 & E1 & Hi1 & _ & Eh); [by apply not_elem_of_nil|]. exists s1. split; [|done]. unfold cmount. step Ec1. step Ec2. rewrite A1. cbn [Z.eqb negb].
  assert (A2' : negb (is_dir (c_qid o)) && negb (order_of flag =? MREPL) = false) by (destruct A2 as [->| ->]; [done|by rewrite andb_false_r]). cbv zeta. rewrite A2'.
  pose proof (no_mount_ok K V _ _ _ _ _ s new r1 n Hi Es1) as Eu. step Eu. rewrite A3. by step E1.
Qed.
Lemma own_held (V : list (list ent)) E (p : Z) : In p E -> In p (vrefs V ++ E).
Proof. rewrite in_app_iff. auto. Qed.
Lemma cmount_ok K V E H M I s new n old o flag spec : inv (mkNs K V E H [] M I) s -> full V -> distinct K V -> In new E -> In old E -> K !! new = Some n -> K !! old = Some o -> allowed V n o flag ->
  (2 + length (tail (union_of V (c_umh n))) <= M)%nat ->
  exists i s' V' fs M' I', cmount new old flag spec s = Ok i s' /\ inv (mkNs K V' E H [] M' I') s' /\ full V' /\ distinct K V' /\ Forall2 (copied (copy_flag (order_of flag))) (tail (union_of V (c_umh n))) fs /\
    forall p, union_at K V' p = if same_file p o then joined_to (order_of flag) (union_before K V I old o (order_of flag)) (mkMount i new flag spec :: fs) else union_at K V p.
Proof.
  intros Hi Hfull Hdis Hnew Hold Hn Ho Hal HM. destruct (cmount_starts K V E H M I s new n old o flag spec Hi (own_held V E _ Hnew) (own_held V E _ Hold) Hn Ho Hal) as (s1 & -> & Hi1 & Eh1).
  set (um := union_of V (c_umh n)) in *. destruct M as [|M]; [lia|]. destruct (mount_head_ok K V E H M I s1 old o (order_of flag) Hi1 Hfull (own_held V E _ Hold) Ho) as (s2 & V1 & xs & e & ys & M1 & I1 & E2 & Hi2 & Hloc & HM1 & Hun & Hbase). step E2.
  destruct (wlock_ok _ _ _ _ _ _ _ s2 (Lhead (e_h e)) Hi2 (lock_head_free _)) as (s3 & E3 & Hi3 & _). step E3.
  assert (Hum : union_of V1 (c_umh n) = um).
  { destruct (c_umh n) as [h|] eqn:Eu; [|done]. apply Hun. destruct (held_chan V [Lns] _ I K E H s1 new n Hi1 (own_held V E _ Hnew) Hn) as (r & _ & Es & _).
    destruct (head_live _ s1 h Hi1) as (m & Em & _); [|by eexists]. unfold hrefs. rewrite !in_app_iff. right. right. apply list_elem_of_In, list_elem_of_omap. exists (new, (r, n)). split; [by apply elem_of_map_to_list|done]. }
  assert (EM : M1 = Datatypes.S (length (tail um) + (M1 - 1 - length (tail um)))) by lia. rewrite EM, <- Hum in Hi3.
  destruct (mount_new_ok K V1 E H _ I1 s3 _ xs e ys new n flag spec Hi3 (lo_at _ _ _ _ _ _ _ Hloc) (own_held V1 E _ Hnew) Hn) as (s4 & i & fs & I' & E4 & Hc & Hi4). rewrite Hum in Hc.
  assert (E4' : trying (mount_new (e_h e) new (c_umh n) flag (order_of flag) spec) (wunlock (Lhead (e_h e))) s3 = Ok i s4) by (unfold trying; by rewrite E4). step E4'.
  destruct (wunlock_ok _ _ _ _ _ _ _ s4 (Lhead (e_h e)) Hi4) as (s5 & E5 & Hi5 & _). rewrite unlock_head in Hi5. step E5.
  eexists i, s5, _, fs, _, I'. split; [done|]. split; [exact Hi5|]. split; [apply (lo_full _ _ _ _ _ _ _ Hloc); [apply joined_not_nil|done]|]. split; [by apply (lo_distinct _ _ _ _ _ _ _ Hloc)|]. split; [done|].
  intros p. unfold union_at at 1. rewrite (lo_change _ _ _ _ _ _ _ Hloc). destruct (same_file p o); [|done]. cbn [e_mounts]. f_equal. unfold union_before. destruct (mounted K V (place_of o)); [by subst|done].
Qed.
(** When the bind is not allowed nothing happens. *)
Lemma cmount_refused K V E H M I s new n old o flag spec : inv (mkNs K V E H [] M I) s -> In new E -> In old E -> K !! new = Some n -> K !! old = Some o -> ~ allowed V n o flag ->
  cmount new old flag spec s = Err Emount s.
Proof.
  intros Hi Hnew Hold Hn Ho Hal. destruct (held_chan V [] M I K E H s new n Hi (own_held V E _ Hnew) Hn) as (r1 & Ec1 & Es1 & _). destruct (held_chan V [] M I K E H s old o Hi (own_held V E _ Hold) Ho) as (r2 & Ec2 & _).
  unfold cmount. step Ec1. step Ec2. destruct (Z.eqb_spec (Z.land (Z.lxor (q_type (c_qid o)) (q_type (c_qid n))) QTDIR) 0) as [A1|]; [|done]. cbn [negb]. cbv zeta.
  destruct (negb (is_dir (c_qid o)) && negb (order_of flag =? MREPL)) eqn:A2; [done|]. pose proof (no_mount_ok K V _ _ _ _ _ s new r1 n Hi Es1) as Eu. step Eu. destruct (forbidden flag (union_of V (c_umh n))) eqn:A3; [done|]. exfalso. apply Hal. split; [done| |done].
  apply andb_false_iff in A2 as [A2|A2]; apply negb_false_iff in A2; [by left|right; by apply Z.eqb_eq].
Qed.

(** ** cunmount *)

(** The mounts that are of a channel, or whose server is. *)
Definition is_mount (K : gmap Z Chan) (mc : Chan) (f : Mount) : bool :=
  match K !! m_to f with
  | Some to => eqchan to mc || match c_mchan to with Some q => match K !! q with Some c => eqchan c mc | None => false end | None => false end
  | None => false
  end.
Fixpoint split_mount (K : gmap Z Chan) (mc : Chan) (l before : list Mount) : option (list Mount * Mount * list Mount) :=
  match l with [] => None | f :: l => if is_mount K mc f then Some (before, f, l) else split_mount K mc l (before ++ [f]) end.
Lemma split_mount_app K mc l : forall before fs f rest, split_mount K mc l before = Some (fs, f, rest) -> before ++ l = fs ++ f :: rest.
Proof. induction l as [|g l IH]; intros before fs f rest; [done|]. cbn. destruct (is_mount K mc g); [by intros [= -> -> ->]|]. intros Hs. apply IH in Hs. by rewrite <- app_assoc in Hs. Qed.
Lemma union_find_ok K V E H L M I s mc : inv (mkNs K V E H L M I) s -> forall l before, Forall (fun f => In (m_to f) (vrefs V)) l -> union_find l before mc s = Ok (split_mount K mc l before) s.
Proof.
  intros Hi. induction l as [|f l IH]; intros before Hl; [done|]. apply Forall_cons_iff in Hl as [Hf Hl]. cbn [union_find split_mount]. unfold is_mount.
  destruct (chan_held _ s (m_to f) Hi) as (n & to & Ec & Es & HK & _); [by apply table_in|]. step Ec. cbn [idents] in HK. rewrite HK.
  assert (Hb : (if eqchan to mc then mret true else match c_mchan to with None => mret false | Some q => '(_, c) ← chan q; mret (eqchan c mc) end) s =
    Ok (eqchan to mc || match c_mchan to with Some q => match K !! q with Some c => eqchan c mc | None => false end | None => false end) s).
  { destruct (eqchan to mc); [done|]. cbn [orb]. destruct (c_mchan to) as [q|] eqn:Eq; [|done]. destruct (mchan_live V L M I K E H s _ n to q Hi Es Eq) as [[n2 c2] Es2]. pose proof (i_chan _ _ Hi q) as Hq. rewrite Es2 in Hq. destruct Hq as (_ & _ & HK2 & _). cbn [idents] in HK2. rewrite HK2.
    assert (Ec2 : chan q s = Ok (n2, c2) s) by (unfold chan; by rewrite Es2). by step Ec2. }
  step Hb. destruct (_ || _); [done|]. by apply IH.
Qed.
Lemma full_change V b xs e ys ms : full V -> V !! b = Some (xs ++ e :: ys) -> ms <> [] -> full (<[b := xs ++ mkEnt (e_h e) (e_from e) ms :: ys]> V).
Proof.
  intros [Hl Hf] Hb Hms. split; [by rewrite length_insert|]. rewrite List.Forall_forall in Hf |- *. intros x Hx. apply (concat_insert_in V _ _ _ _ Hb) in Hx as [Hx|Hx]; [|by apply Hf].
  rewrite in_app_iff in Hx. destruct Hx as [Hx|[<-|Hx]]; [|done|]; apply Hf, (bucket_ents V b _ x Hb); rewrite in_app_iff; cbn; tauto.
Qed.
Lemma full_del V b xs e ys : full V -> V !! b = Some (xs ++ e :: ys) -> full (<[b := xs ++ ys]> V).
Proof.
  intros [Hl Hf] Hb. split; [by rewrite length_insert|]. rewrite List.Forall_forall in Hf |- *. intros x Hx. apply (concat_insert_in V _ _ _ _ Hb) in Hx as [Hx|Hx]; [|by apply Hf].
  apply Hf, (bucket_ents V b _ x Hb). rewrite in_app_iff in *. cbn. tauto.
Qed.
(** A head without mounts is taken from its chain, and the table's references with it. *)
Lemma drop_head K V E H L M I s b xs e ys : inv (mkNs K V E H L M I) s -> V !! b = Some (xs ++ e :: ys) -> e_mounts e = [] ->
  exists s', (modify (with_hash (<[b := map e_h xs ++ map e_h ys]>));; cclose (Some (e_from e))) s = Ok tt s' /\ inv (mkNs K (<[b := xs ++ ys]> V) E (e_h e :: H) L M I) s'.
Proof.
  intros Hi Hb Hm. pose proof (del_head_ok K L M I V E H s b xs e ys Hi Hb Hm) as Hi1. set (s1 := with_hash _ s) in Hi1.
  destruct (cclose_ok _ L M I K E (e_h e :: H) s1 (Some (e_from e)) Hi1) as (s2 & E2 & Hi2). exists s2. split; [|done]. assert (E1 : modify (with_hash (<[b := map e_h xs ++ map e_h ys]>)) s = Ok tt s1) by done. by step E1.
Qed.
Section Unmount.
Context (K : gmap Z Chan) (V : list (list ent)) (E H : list Z) (M : nat) (I : Z).
Context (Hfull : full V) (Hdis : distinct K V).
Context (mnt : Z) (c : Chan) (Hmnt : In mnt E) (Hc : K !! mnt = Some c).
Abbreviation b := (bucket (c_qid c)).

(** cunmount finds the head, with the name space locked. *)
Lemma cunmount_find s mounted_ : inv (mkNs K V E H [] M I) s ->
  (mounted K V (place_of c) = None /\ exists s', cunmount mnt mounted_ s = Err Eunmount s' /\ inv (mkNs K V E H [] M I) s') \/
  (exists xs e ys s1, V !! b = Some (xs ++ e :: ys) /\ Forall (fun x => hit K c x = false) xs /\ hit K c e = true /\ mounted K V (place_of c) = Some e /\ inv (mkNs K V E H [Lhead (e_h e); Lns] M I) s1 /\
    exists m, heads s1 !! e_h e = Some m /\ h_from m = e_from e /\ h_mount m = e_mounts e /\
    cunmount mnt mounted_ s = (match mounted_ with
      | None =>
          modify (with_hash (<[b := map e_h xs ++ map e_h ys]>));;
          wunlock Lns;;
          set_mounts (e_h e) [];;
          mountfree (h_mount m);;
          cclose (Some (h_from m));;
          wunlock (Lhead (e_h e));;
          putmhead (Some (e_h e))
      | Some p =>
          '(_, mc) ← chan p;
          r ← union_find (h_mount m) [] mc;
          match r with
          | None => wunlock (Lhead (e_h e));; wunlock Lns;; error Eunion
          | Some (fs, f, rest) =>
              set_mounts (e_h e) (fs ++ rest);;
              mountfree [f];;
              match fs ++ rest with
              | [] =>
                  modify (with_hash (<[b := map e_h xs ++ map e_h ys]>));;
                  cclose (Some (h_from m));;
                  wunlock (Lhead (e_h e));; wunlock Lns;;
                  putmhead (Some (e_h e))
              | _ => wunlock (Lhead (e_h e));; wunlock Lns
              end
          end
      end) s1).
Proof.
  intros Hi. destruct (bucket_in V (c_qid c) (proj1 Hfull)) as [l Hb]. destruct (held_chan V [] M I K E H s mnt c Hi (own_held V E _ Hmnt) Hc) as (r & Ec & _).
  destruct (wlock_ok _ _ _ _ _ _ _ s Lns Hi) as (s1 & E1 & Hi1 & _); [by apply not_elem_of_nil|]. pose proof (mounth_ok K V M I E H _ s1 (c_qid c) l Hi1 Hb) as Eh.
  destruct (hash_find_ok K V _ _ _ _ _ s1 c l Hi1 [] (bucket_all V _ l Hb)) as [[Hn Ef]|(xs & e & ys & -> & Hxs & He & Ef)].
  - left. split; [rewrite mounted_place, Hb; cbn; by rewrite Hn|]. destruct (wunlock_ok _ _ _ _ _ _ _ s1 Lns Hi1) as (s2 & E2 & Hi2 & _). exists s2. split; [|exact Hi2].
    unfold cunmount. step Ec. step E1. step Eh. step Ef. by step E2.
  - right. destruct (wlock_ok _ _ _ _ _ _ _ s1 (Lhead (e_h e)) Hi1 (lock_head_free _)) as (s2 & E2 & Hi2 & _). assert (Hin : In e (concat V)) by (apply (bucket_ents V _ _ e Hb); rewrite in_app_iff; right; by left).
    destruct (ent_head _ s2 e Hi2 Hin) as (m & Em & Ehd & Efr & Emt). exists xs, e, ys, s2. split; [done|]. split; [done|]. split; [done|]. split.
    { rewrite mounted_place, Hb. cbn [mbind option_bind]. rewrite (find_change _ xs e e ys), He by done. assert (Hx : List.find (hit K c) xs = None) by (clear -Hxs; induction Hxs as [|x xs Hx _ IH]; [done|]; cbn; by rewrite Hx). by rewrite Hx. }
    split; [done|]. exists m. do 3 (split; [done|]). unfold cunmount. step Ec. step E1. step Eh. step Ef. cbn [app]. step E2. by step Ehd.
Qed.
(** All that is mounted on a file is unmounted. *)
Lemma cunmount_all s e : inv (mkNs K V E H [] M I) s -> mounted K V (place_of c) = Some e ->
  exists s' V', cunmount mnt None s = Ok tt s' /\ inv (mkNs K V' E H [] M I) s' /\ full V' /\ distinct K V' /\ forall p, union_at K V' p = if same_file p c then [] else union_at K V p.
Proof.
  intros Hi Hm. destruct (cunmount_find s None Hi) as [[Hn _]|(xs & e' & ys & s1 & Hb & Hxs & He & Hm' & Hi1 & m & Em & Ef & Emt & ->)]; [congruence|]. rewrite Hm in Hm'. injection Hm' as <-. rewrite Ef, Emt.
  destruct (set_mounts_ok K _ M I V E (map m_to (e_mounts e) ++ E) H s1 _ xs e ys [] Hi1 Hb) as (s2 & E2 & Hi2); [done|]. set (e1 := mkEnt (e_h e) (e_from e) []) in *.
  assert (Hb2 : <[b := xs ++ e1 :: ys]> V !! b = Some (xs ++ e1 :: ys)) by (apply list_lookup_insert_eq; by apply lookup_lt_Some in Hb).
  pose proof (del_head_ok K _ M I _ _ H s2 _ xs e1 ys Hi2 Hb2 eq_refl) as Hi3. rewrite list_insert_insert_eq in Hi3. set (s3 := with_hash _ s2) in Hi3. destruct (wunlock_ok _ _ _ _ _ _ _ s3 Lns Hi3) as (s4 & E4 & Hi4 & _). rewrite unlock_ns in Hi4.
  assert (E14 : (modify (with_hash (<[b := map e_h xs ++ map e_h ys]>));; wunlock Lns;; set_mounts (e_h e) []) s1 = Ok tt s4).
  { revert E2 E4. unfold s3, set_mounts, head, wunlock, modify, mbind, ST_bind. cbn [with_hash with_held heads]. rewrite Em. cbn. unfold put_head, modify. by intros [= <-] [= <-]. }
  assert (Ereg : forall k : NS unit, (modify (with_hash (<[b := map e_h xs ++ map e_h ys]>));; wunlock Lns;; set_mounts (e_h e) [];; k) s1 = k s4).
  { intros k. revert E14. unfold mbind, ST_bind, modify, wunlock, modify. cbn. unfold mbind, ST_bind. intros E14. by rewrite E14. }
  rewrite Ereg. assert (Hi4' : inv (mkNs K (<[b := xs ++ ys]> V) (map m_to (e_mounts e) ++ e_from e :: E) (e_h e :: H) [Lhead (e_h e)] M I) s4) by (refine (inv_perm _ _ _ _ _ _ _ _ _ _ Hi4 _ _); [cbn; solve_Permutation|done]).
  destruct (mountfree_ok K _ _ _ M I _ (e_mounts e) s4 Hi4') as (s5 & E5 & Hi5). step E5. destruct (cclose_ok _ _ M I K E _ s5 (Some (e_from e)) Hi5) as (s6 & E6 & Hi6). step E6.
  destruct (wunlock_ok _ _ _ _ _ _ _ s6 (Lhead (e_h e)) Hi6) as (s7 & E7 & Hi7 & _). rewrite unlock_head in Hi7. step E7. destruct (putmhead_ok _ _ M I K E H s7 (Some (e_h e)) Hi7) as (s8 & E8 & Hi8 & _).
  eexists s8, _. split; [exact E8|]. split; [exact Hi8|]. split; [by eapply full_del|]. split; [by eapply distinct_del|]. intros p. unfold union_at. rewrite (mounted_del K V xs e ys c p); [|by eapply entries_known|done..]. by destruct (same_file p c).
Qed.
(** One mount is taken from a union; the last takes the head with it. *)
Lemma cunmount_one s e p mc : inv (mkNs K V E H [] M I) s -> In p E -> K !! p = Some mc -> mounted K V (place_of c) = Some e ->
  match split_mount K mc (e_mounts e) [] with
  | None => exists s', cunmount mnt (Some p) s = Err Eunion s' /\ inv (mkNs K V E H [] M I) s'
  | Some (fs, f, rest) => exists s' V', cunmount mnt (Some p) s = Ok tt s' /\ inv (mkNs K V' E H [] M I) s' /\ full V' /\ distinct K V' /\
      forall q, union_at K V' q = if same_file q c then fs ++ rest else union_at K V q
  end.
Proof.
  intros Hi Hp Hmc Hm. destruct (cunmount_find s (Some p) Hi) as [[Hn _]|(xs & e' & ys & s1 & Hb & Hxs & He & Hm' & Hi1 & m & Em & Ef & Emt & ->)]; [congruence|]. rewrite Hm in Hm'. injection Hm' as <-. rewrite Ef, Emt.
  destruct (held_chan V _ M I K E H s1 p mc Hi1 (own_held V E _ Hp) Hmc) as (r & Ec & _). step Ec. assert (Hin : In e (concat V)) by (apply (bucket_ents V _ _ e Hb); rewrite in_app_iff; right; by left).
  assert (Hrefs : Forall (fun f => In (m_to f) (vrefs V)) (e_mounts e)) by (apply List.Forall_forall; intros f Hf; apply (ent_refs_in V e); [done|]; right; by apply in_map).
  step (union_find_ok K V E H _ M I s1 mc Hi1 (e_mounts e) [] Hrefs). destruct (split_mount K mc (e_mounts e) []) as [[[fs f] rest]|] eqn:Es.
  2:{ destruct (wunlock_ok _ _ _ _ _ _ _ s1 (Lhead (e_h e)) Hi1) as (s2 & E2 & Hi2 & _). rewrite unlock_head in Hi2. destruct (wunlock_ok _ _ _ _ _ _ _ s2 Lns Hi2) as (s3 & E3 & Hi3 & _). exists s3. split; [|exact Hi3]. step E2. by step E3. }
  apply split_mount_app in Es. cbn [app] in Es. destruct (set_mounts_ok K _ M I V E (m_to f :: E) H s1 _ xs e ys (fs ++ rest) Hi1 Hb) as (s2 & E2 & Hi2); [rewrite Es, !map_app; cbn [map]; solve_Permutation|]. step E2.
  destruct (cclose_ok _ _ M I K E H s2 (Some (m_to f)) Hi2) as (s3 & E3 & Hi3). assert (E3' : mountfree [f] s2 = Ok tt s3) by (cbn [mountfree]; by step E3). step E3'. destruct (fs ++ rest) as [|g gs] eqn:Eg.
  - set (e1 := mkEnt (e_h e) (e_from e) []) in *. assert (Hb2 : <[b := xs ++ e1 :: ys]> V !! b = Some (xs ++ e1 :: ys)) by (apply list_lookup_insert_eq; by apply lookup_lt_Some in Hb).
    destruct (drop_head K _ E H _ M I s3 _ xs e1 ys Hi3 Hb2 eq_refl) as (s4 & E4 & Hi4). rewrite list_insert_insert_eq in Hi4. cbn [e_h e_from e1] in *.
    destruct (wunlock_ok _ _ _ _ _ _ _ s4 (Lhead (e_h e)) Hi4) as (s5 & E5 & Hi5 & _). rewrite unlock_head in Hi5. destruct (wunlock_ok _ _ _ _ _ _ _ s5 Lns Hi5) as (s6 & E6 & Hi6 & _). destruct (putmhead_ok _ _ M I K E H s6 (Some (e_h e)) Hi6) as (s7 & E7 & Hi7 & _).
    exists s7, (<[b := xs ++ ys]> V). split; [|split; [exact Hi7|split; [by eapply full_del|split; [by eapply distinct_del|]]]].
    + transitivity ((wunlock (Lhead (e_h e));; wunlock Lns;; putmhead (Some (e_h e))) s4); [|step E5; by step E6]. unfold mbind, ST_bind in E4 |- *. cbn in E4 |- *. unfold cclose in E4. by rewrite E4.
    + intros q. unfold union_at. rewrite (mounted_del K V xs e ys c q); [|by eapply entries_known|done..]. by destruct (same_file q c).
  - destruct (wunlock_ok _ _ _ _ _ _ _ s3 (Lhead (e_h e)) Hi3) as (s4 & E4 & Hi4 & _). rewrite unlock_head in Hi4. destruct (wunlock_ok _ _ _ _ _ _ _ s4 Lns Hi4) as (s5 & E5 & Hi5 & _).
    eexists s5, _. split; [by step E4|]. split; [exact Hi5|]. split; [by apply full_change|]. split; [apply (distinct_same K V _ (xs ++ e :: ys)); [done|done|by rewrite !map_app]|].
    intros q. unfold union_at. rewrite (mounted_change K V xs e _ ys c q); [|by eapply entries_known|done..]. by destruct (same_file q c).
Qed.
End Unmount.

(** ** Without memory *)

Lemma find_loop_fault K V E H M I e es type dev qid mp : In e (concat V) -> e_mounts e = [] -> forall xs s, Forall (fun e => In e (concat V)) xs -> Forall (fun x => matches K type dev qid x = false) xs -> matches K type dev qid e = true ->
  forall cp, inv (mkNs K V (option_list cp ++ E) (option_list (default None mp) ++ H) [Lns] M I) s -> find_loop (map e_h (xs ++ e :: es)) cp mp type dev qid s = Fault.
Proof.
  intros He Hm xs. induction xs as [|x xs IH]; intros s Hxs Hno Hyes cp Hi.
  - cbn [app map find_loop]. destruct (wlock_ok _ _ _ _ _ _ _ s (Lhead (e_h e)) Hi (lock_head_free _)) as (s1 & E1 & Hi1 & _). step E1. destruct (ent_head _ s1 e Hi1 He) as (m & Em & Eh & Ef & _). step Eh. rewrite Ef.
    destruct (from_ok K V M I _ _ _ s1 e Hi1 He) as (n & c & Ec & HK). step Ec. unfold matches in Hyes. rewrite HK in Hyes. rewrite Hyes. destruct (wunlock_ok _ _ _ _ _ _ _ s1 Lns Hi1) as (s2 & E2 & Hi2 & _ & Eh2). rewrite unlock_ns in Hi2. step E2.
    assert (Hmp : exists s3 mp', (match mp with None => mret None | Some old => href (e_h e);; putmhead old;; mret (Some (Some (e_h e))) end) s2 = Ok mp' s3 /\ exists H', inv (mkNs K V (option_list cp ++ E) H' [Lhead (e_h e)] M I) s3).
    { destruct mp as [old|]; [|exists s2, None; split; [done|by eexists]]. cbn [default] in *. destruct (href_ok V _ M I K _ _ s2 (e_h e) Hi2) as (s3 & E3 & Hi3); [rewrite Eh2, Em; by eexists|]. step E3.
      assert (Hi3' : inv (mkNs K V (option_list cp ++ E) (option_list old ++ e_h e :: H) [Lhead (e_h e)] M I) s3) by (refine (inv_perm _ _ _ _ _ _ _ _ _ _ Hi3 _ _); [done|solve_Permutation]).
      destruct (putmhead_ok V _ M I K _ _ s3 old Hi3') as (s4 & E4 & Hi4 & _). step E4. exists s4, (Some (Some (e_h e))). split; [done|by eexists]. }
    destruct Hmp as (s3 & mp' & E3 & H' & Hi3). step E3. destruct (cclose_ok V _ M I K E H' s3 cp Hi3) as (s4 & E4 & Hi4). step E4. destruct (ent_head _ s4 e Hi4 He) as (m4 & _ & Eh4 & _ & Em4). step Eh4. by rewrite Em4, Hm.
  - apply Forall_cons_iff in Hxs as [Hx Hxs]. apply Forall_cons_iff in Hno as [Hnx Hno]. cbn [app map find_loop]. destruct (wlock_ok _ _ _ _ _ _ _ s (Lhead (e_h x)) Hi (lock_head_free _)) as (s1 & E1 & Hi1 & _). step E1.
    destruct (ent_head _ s1 x Hi1 Hx) as (m & _ & Eh & Ef & _). step Eh. rewrite Ef. destruct (from_ok K V M I _ _ _ s1 x Hi1 Hx) as (n & c & Ec & HK). step Ec. unfold matches in Hnx. rewrite HK in Hnx. rewrite Hnx.
    destruct (wunlock_ok _ _ _ _ _ _ _ s1 (Lhead (e_h x)) Hi1) as (s2 & E2 & Hi2 & _). rewrite unlock_head in Hi2. step E2. by apply IH.
Qed.
Lemma find_none_all (P : ent -> bool) l : List.find P l = None -> Forall (fun x => P x = false) l.
Proof. intros Hn. apply List.Forall_forall. intros x Hx. by apply (find_none _ _ Hn). Qed.
(** When there is no memory for the first mount on a directory, the name space stays
    locked, or a head with no mounts stays in it. *)
Lemma cmount_nomem_ok K V E H I s new n old o flag spec : inv (mkNs K V (old :: E) H [] 0 I) s -> full V -> In new E -> K !! new = Some n -> K !! old = Some o -> allowed V n o flag -> mounted K V (place_of o) = None ->
  exists s', cmount new old flag spec s = Err Enomem s' /\ forall mp, default None mp = None -> domount old mp s' = Fault.
Proof.
  intros Hi HV Hnew Hn Ho Hal Hm. assert (Hold : In old (old :: E)) by by left. assert (Hnew' : In new (old :: E)) by by right.
  destruct (cmount_starts K V _ H 0 I s new n old o flag spec Hi (own_held V _ _ Hnew') (own_held V _ _ Hold) Hn Ho Hal) as (s1 & -> & Hi1 & _).
  destruct (bucket_in V (c_qid o) (proj1 HV)) as [l Hb]. rewrite mounted_place, Hb in Hm. cbn [mbind option_bind] in Hm. pose proof (mounth_ok K V _ I _ _ _ s1 (c_qid o) l Hi1 Hb) as Eh.
  destruct (hash_find_ok K V _ _ _ _ _ s1 o l Hi1 [] (bucket_all V _ l Hb)) as [[_ Ef]|(xs & e & ys & -> & Hxs & He & _)].
  2:{ exfalso. apply find_none_all in Hm. rewrite List.Forall_forall in Hm. specialize (Hm e). rewrite He in Hm. discriminate Hm. rewrite in_app_iff. right. by left. }
  destruct (newmhead_ok V [Lns] K _ H _ I s1 old Hi1 (held_live K _ _ _ _ _ _ _ _ Hi1 (own_held V _ _ Hold))) as (h & s2 & E2 & _ & Hh & Hnh & Hi2).
  pose proof (add_head_ok K [Lns] _ I V _ H s2 _ l h old _ Hi2 Hb Hh eq_refl eq_refl Hnh) as Hi3. set (s3 := with_hash _ s2) in Hi3. assert (E3 : modify (with_hash (<[bucket (c_qid o) := ([] ++ map e_h l) ++ [h]]>)) s2 = Ok tt s3) by done.
  set (V1 := <[bucket (c_qid o) := l ++ [mkEnt h old []]]> V) in *. assert (Hb1 : V1 !! bucket (c_qid o) = Some (l ++ mkEnt h old [] :: [])) by (apply list_lookup_insert_eq; by apply lookup_lt_Some in Hb).
  assert (Ehd : exists r, mount_head old o (order_of flag) s1 = r /\ r = ((if negb (order_of flag =? MREPL) then f ← newmount old 0 []; set_mounts h [f] else mret tt);; mret h) s3) by (eexists; split; [done|]; unfold mount_head; step Eh; step Ef; step E2; by step E3).
  destruct Ehd as (r & Ehd & ->). destruct (order_of flag =? MREPL) eqn:Er; cbn [negb] in Ehd.
  - erewrite bind_ok in Ehd by done. step Ehd. destruct (wlock_ok _ _ _ _ _ _ _ s3 (Lhead h) Hi3 (lock_head_free _)) as (s4 & E4 & Hi4 & _). step E4. destruct (wunlock_ok _ _ _ _ _ _ _ s4 Lns Hi4) as (s5 & E5 & Hi5 & _). rewrite unlock_ns in Hi5.
    destruct (wunlock_ok _ _ _ _ _ _ _ s5 (Lhead h) Hi5) as (s6 & E6 & Hi6 & _). rewrite unlock_head in Hi6. exists s6. split.
    { apply bind_err. unfold trying, mount_new. erewrite bind_ok by exact E5. erewrite bind_err by by eapply newmount_fails. by erewrite bind_ok by exact E6. }
    intros mp Hmp. destruct (held_chan V1 [] 0 I K _ H s6 old o Hi6 (own_held V1 _ _ Hold) Ho) as (r & Ec & _). unfold domount. step Ec. unfold mbind at 1, ST_bind. replace (findmount _ _ _ _ _ s6) with (@Fault nst (option (Z * option (option Z)))); [done|]. symmetry.
    destruct (wlock_ok _ _ _ _ _ _ _ s6 Lns Hi6) as (s7 & E7 & Hi7 & _); [by apply not_elem_of_nil|]. unfold findmount. step E7. step (mounth_ok K V1 _ I _ _ _ s7 (c_qid o) _ Hi7 Hb1).
    apply (find_loop_fault K V1 E H 0 I (mkEnt h old []) []) with (cp := Some old); [apply (bucket_ents V1 _ _ _ Hb1); rewrite in_app_iff; right; by left|done| |by apply find_none_all| |rewrite Hmp; exact Hi7].
    + apply List.Forall_forall. intros x Hx. apply (bucket_ents V1 _ _ _ Hb1). rewrite in_app_iff. by left.
    + apply (hit_key K o). cbn [e_from]. unfold key. by rewrite Ho.
  - exists s3. assert (Enm : newmount old 0 [] s3 = Err Enomem s3) by by eapply newmount_fails. split.
    { apply bind_err. rewrite Ehd. unfold mbind, ST_bind. unfold mbind, ST_bind in Enm. by rewrite Enm. }
    intros mp Hmp. destruct (held_chan V1 _ 0 I K _ H s3 old o Hi3 (own_held V1 _ _ Hold) Ho) as (r & Ec & _). unfold domount. step Ec. unfold mbind at 1, ST_bind, findmount, wlock, mbind, ST_bind, gets. rewrite (i_held _ _ Hi3). cbn [locks]. by rewrite bool_decide_eq_true_2 by by apply list_elem_of_singleton.
Qed.

(** ** What mounting and unmounting do *)

(** C13. cmount, when the two are both directories or both files, a file is not put
    into a union, and no union is bound to be created in, and when malloc has memory
    for a head, a mount and a copy of each further mount on the new channel, puts the
    new channel on the directory: alone, or before or after what is there, which is
    the directory itself if nothing was; what is mounted on the new channel goes with
    it, each further mount as a copy.  No other file's mounts change, no file has two
    entries, every reference is counted and no lock is kept.  When one of the
    conditions on the two and the flags does not hold it is refused and nothing
    changes.  Of malloc failing this says nothing: C37 does. *)
Theorem cmount_correct K V E H M I s new n old o flag spec :
  inv (mkNs K V E H [] M I) s -> full V -> distinct K V -> In new E -> In old E -> K !! new = Some n -> K !! old = Some o ->
  (allowed V n o flag -> (2 + length (tail (union_of V (c_umh n))) <= M)%nat ->
    exists i s' V' fs M' I', cmount new old flag spec s = Ok i s' /\ inv (mkNs K V' E H [] M' I') s' /\ full V' /\ distinct K V' /\
      Forall2 (copied (copy_flag (order_of flag))) (tail (union_of V (c_umh n))) fs /\
      forall p, union_at K V' p = if same_file p o then joined_to (order_of flag) (union_before K V I old o (order_of flag)) (mkMount i new flag spec :: fs) else union_at K V p) /\
  (~ allowed V n o flag -> cmount new old flag spec s = Err Emount s).
Proof.
  intros Hi HV Hd Hnew Hold Hn Ho. split; [intros Hal HM; by apply (cmount_ok K V E H M I s new n old o flag spec)|intros Hal; by eapply cmount_refused].
Qed.
(** C14. cunmount takes everything off a directory, or one channel (or what a channel
    serves) out of the union that is on it, and the directory's entry with the last;
    nothing else changes, and the references to what is taken off are given up.  If
    nothing is mounted there, or the channel is not in the union, it is an error and
    the table is as it was; no lock is kept. *)
Theorem cunmount_correct K V E H M I s mnt c mounted_ :
  inv (mkNs K V E H [] M I) s -> full V -> distinct K V -> In mnt E -> K !! mnt = Some c -> match mounted_ with Some p => In p E | None => True end ->
  match mounted K V (place_of c) with
  | None => exists s', cunmount mnt mounted_ s = Err Eunmount s' /\ inv (mkNs K V E H [] M I) s'
  | Some e =>
      match match mounted_ with None => Some [] | Some p => mc ← K !! p; '(fs, _, rest) ← split_mount K mc (e_mounts e) []; Some (fs ++ rest) end with
      | None => exists s', cunmount mnt mounted_ s = Err Eunion s' /\ inv (mkNs K V E H [] M I) s'
      | Some l => exists s' V', cunmount mnt mounted_ s = Ok tt s' /\ inv (mkNs K V' E H [] M I) s' /\ full V' /\ distinct K V' /\
          forall p, union_at K V' p = if same_file p c then l else union_at K V p
      end
  end.
Proof.
  intros Hi HV Hd Hmnt Hc Hp. destruct (mounted K V (place_of c)) as [e|] eqn:Em.
  - destruct mounted_ as [p|]; [|by apply cunmount_all with (e := e)]. destruct (held_chan V [] M I K E H s p) with (c := default c (K !! p)) as (n & _ & Es & _); [done|by apply own_held| |].
    { destruct (chan_held _ s p Hi) as (n & mc & _ & _ & HK & _); [by apply owned_in|]. cbn [idents] in HK. by rewrite HK. }
    destruct (chan_held _ s p Hi) as (n' & mc & _ & _ & HK & _); [by apply owned_in|]. cbn [idents] in HK. rewrite HK. cbn [mbind option_bind].
    pose proof (cunmount_one K V E H M I HV Hd mnt c Hmnt Hc s e p mc Hi Hp HK Em) as Hr. by destruct (split_mount K mc (e_mounts e) []) as [[[fs f] rest]|].
  - destruct (cunmount_find K V E H M I HV mnt c Hmnt Hc s mounted_ Hi) as [[_ Hr]|(xs & e & ys & s1 & _ & _ & _ & Hm' & _)]; [exact Hr|congruence].
Qed.
(** C37. When malloc fails for the first mount on a directory, the name space is lost:
    cmount reports it, but leaves the name space locked, or, for a mount that
    replaces, a head with no mounts in the table; the next lookup of the directory
    waits for ever, or follows a null pointer. *)
Theorem cmount_nomem K V E H I s new n old o flag spec :
  inv (mkNs K V (old :: E) H [] 0 I) s -> full V -> In new E -> K !! new = Some n -> K !! old = Some o -> allowed V n o flag -> mounted K V (place_of o) = None ->
  exists s', cmount new old flag spec s = Err Enomem s' /\ domount old (Some None) s' = Fault.
Proof.
  intros Hi HV Hnew Hn Ho Hal Hm. destruct (cmount_nomem_ok K V E H I s new n old o flag spec Hi HV Hnew Hn Ho Hal Hm) as (s' & E1 & Hf). exists s'. split; [done|]. by apply Hf.
Qed.

(** ** Creating in a union *)

Lemma creatable_in l f : creatable l = Some f -> In f l /\ Z.land (m_flag f) MCREATE <> 0.
Proof.
  induction l as [|g l IH]; [done|]. cbn [creatable]. destruct (Z.eqb_spec (Z.land (m_flag g) MCREATE) 0) as [E|E]; cbn [negb]; [intros Hf; destruct (IH Hf); split; [by right|done]|]. intros [= <-]. split; [by left|done].
Qed.
(** The channel is given up for a copy of the first that may be created in. *)
Lemma createdir_ok {D : Dev} {DC : DevClone} V M I K E H s c e : inv (mkNs K V (c :: E) H [] M I) s -> In e (concat V) ->
  match creatable (e_mounts e) with
  | Some f => exists nc cf K' s', K !! m_to f = Some cf /\ createdir c (e_h e) s = Ok nc s' /\ K' !! nc = Some (copy cf) /\ agrees (vrefs V ++ c :: E) K K' /\ inv (mkNs K' V (nc :: E) H [] M I) s'
  | None => exists s', createdir c (e_h e) s = Err Enocreate s' /\ inv (mkNs K V (c :: E) H [] M I) s'
  end.
Proof.
  intros Hi He. unfold createdir. destruct (wlock_ok _ _ _ _ _ _ _ s (Lhead (e_h e)) Hi) as (s1 & E1 & Hi1 & _); [by apply not_elem_of_nil|]. destruct (ent_head _ s1 e Hi1 He) as (m & _ & Eh & _ & Em).
  destruct (creatable (e_mounts e)) as [f|] eqn:Ef.
  - apply creatable_in in Ef as Hin. destruct Hin as [Hin _]. assert (Hf : In (m_to f) (vrefs V)) by (apply (ent_refs_in V e); [done|right; by apply in_map]).
    destruct (chan_held _ s1 (m_to f) Hi1) as (n & cf & _ & _ & HK & _); [by apply table_in|]. cbn [idents] in HK.
    destruct (cclone_ok V [Lhead (e_h e)] M I K _ H s1 (m_to f) cf Hi1) as (nc & s2 & E2 & Hnc & Hi2); [rewrite in_app_iff; by left|done|].
    destruct (wunlock_ok _ _ _ _ _ _ _ s2 (Lhead (e_h e)) Hi2) as (s3 & E3 & Hi3 & _). rewrite unlock_head in Hi3.
    assert (Hi3' : inv (mkNs (<[nc := copy cf]> K) V (option_list (Some c) ++ nc :: E) H [] M I) s3) by (refine (inv_perm _ _ _ _ _ _ _ _ _ _ Hi3 _ _); [cbn; solve_Permutation|done]).
    destruct (cclose_ok V [] M I _ _ H s3 (Some c) Hi3') as (s4 & E4 & Hi4). exists nc, cf, (<[nc := copy cf]> K), s4. split; [done|]. split; [|split; [by rewrite lookup_insert_eq|split; [by apply agrees_insert|done]]].
    step E1. unfold trying. erewrite bind_ok by exact Eh. rewrite Em, Ef. step E2. step E3. by step E4.
  - destruct (wunlock_ok _ _ _ _ _ _ _ s1 (Lhead (e_h e)) Hi1) as (s2 & E2 & Hi2 & _). rewrite unlock_head in Hi2. exists s2. split; [|done]. step E1. unfold trying. erewrite bind_ok by exact Eh. rewrite Em, Ef. cbn. by step E2.
Qed.
