(* ===== verification/NsWalk.v ===== *)
(** * Walking

    walk takes as many names at once as the device can; what it comes to is what
    taking one name after the other comes to, given that what is mounted is not
    itself mounted on, and it gives up every reference it takes. *)

From S2P Require Import Prelude Utf Clean Path Ns NsInv NsMount.

(** ** Names stay texts *)

Lemma cleaned_some s : text s -> s <> [] -> exists r, cleaned s = Some r /\ text r.
Proof.
  intros Ht Hs. pose proof (clean_text s Ht) as Hc. destruct (cleanname_is_clean s [] Ht) as [r' E]; [rewrite Nat.add_0_r; by apply clean_length|].
  exists (clean s). split; [|done]. unfold cleaned. rewrite E. cbn [mbind option_bind]. by apply cstr_text.
Qed.
Lemma strchr_in_text s : text s -> forall o, strchr_loop o (s ++ [0]) slash = Some None \/ exists i, (i < length s)%nat /\ strchr_loop o (s ++ [0]) slash = Some (Some (o + Z.of_nat i)).
Proof.
  induction 1 as [|c s Hc Hs IH]; intros o; [by left|]. cbn [app strchr_loop length]. destruct (Z.eqb_spec c slash) as [->|Hn]; [right; exists 0%nat; split; [lia|by rewrite Z.add_0_r]|].
  rewrite (proj2 (Z.eqb_neq c 0)) by done. destruct (IH (o + 1)) as [->|(i & Hi & ->)]; [by left|]. right. exists (Datatypes.S i). split; [lia|]. do 2 f_equal. lia.
Qed.
Lemma cleancname_some s : text s -> s <> [] -> exists r, cleancname s = Some r /\ text r.
Proof.
  intros Ht Hs. unfold cleancname. case_bool_decide; [|by apply cleaned_some]. destruct (strchr_in_text s Ht 0) as [->|(i & Hi & ->)]; cbn [mbind option_bind]; [by exists s|]. rewrite Z.add_0_l, Nat2Z.id.
  destruct (cleaned_some (drop i s)) as (p & -> & Hp); [by apply list.Forall_drop|intros E; apply (f_equal length) in E; rewrite length_drop in E; cbn in E; lia|]. cbn [mbind option_bind].
  destruct (_ && _); eexists; (split; [done|]); [by apply list.Forall_take|apply Forall_app; split; [by apply list.Forall_take|done]].
Qed.
Lemma addelem_some n s : text n -> text s -> exists r, addelem n s = Some r /\ text r.
Proof.
  intros Hn Hs. unfold addelem. case_bool_decide; [by exists n|]. cbv zeta. set (n' := n ++ _ ++ s). assert (Hn' : text n') by (apply Forall_app; split; [done|]; apply Forall_app; split; [destruct (_ && _); by repeat constructor|done]).
  unfold isdotdot. case_bool_decide as Hd; [|by exists n']. apply cleancname_some; [done|]. unfold n'. subst s. by destruct n, (_ && _).
Qed.

(** ** Name by name *)

Section Spec.
Context {D : Dev}.
(** What the documentation of walk says of devices: no names make a copy, one name is
    walked or not, more names are walked until one of them fails, which is an error
    only if it is the first, and a directory has a parent. *)
Class DevLaws : Prop := {
  dl_none :: DevClone;
  dl_one : forall t d q n qs, dev_walk t d q [n] = Some qs -> length qs = 1%nat;
  dl_cons : forall t d q n ns, ns <> [] -> dev_walk t d q (n :: ns) =
    match dev_walk t d q [n] with Some [q1] => Some (q1 :: (if is_dir q1 then default [] (dev_walk t d q1 ns) else [])) | _ => None end;
  dl_up : forall t d q, is_dir q = true -> exists q', dev_walk t d q [[period; period]] = Some [q'];
}.
Context {DL : DevLaws}.
Context (K : gmap Z Chan) (V : list (list ent)).
Definition dev_step (p : place) (n : list Z) : option place :=
  let '(t, d, q) := p in match dev_walk t d q [n] with Some [q1] => Some (t, d, q1) | _ => None end.
Definition place_at (p : Z) : option place := place_of <$> K !! p.
Fixpoint union_step (ms : list Mount) (n : list Z) : option place :=
  match ms with
  | [] => None
  | f :: ms => match (p ← place_at (m_to f); dev_step p n) with Some p => Some p | None => union_step ms n end
  end.
Definition same_place (p q : place) : bool := let '(t, d, a) := p in let '(t', d', b) := q in (q_path a =? q_path b) && (t =? t') && (d =? d').
Fixpoint out_mounts_of (ts : list Mount) (from : Z) (p : place) : place :=
  match ts with
  | [] => p
  | t :: ts => if match place_at (m_to t) with Some q => same_place p q | None => false end then default p (place_at from) else out_mounts_of ts from p
  end.
Fixpoint out_of (es : list ent) (p : place) (name : list Z) : place :=
  match es with [] => p | e :: es => out_of es (if named_as K (e_from e) name then out_mounts_of (e_mounts e) (e_from e) p else p) name end.
(** One name: from a directory, ".." by the device and then out of a mount, another
    name in the union that is mounted there, if any. *)
Definition elem_step (x : place * list Z) (n : list Z) : option (place * list Z) :=
  let '(p, cname) := x in
  if negb (is_dir p.2) then None
  else if isdotdot n then p ← dev_step p n; cname ← addelem cname n; Some (out_of (concat V) p cname, cname)
  else
    p ← match mounted K V p with None => dev_step p n | Some e => union_step (e_mounts e) n end;
    cname ← addelem cname n; Some (p, cname).
Fixpoint elem_steps (x : place * list Z) (ns : list (list Z)) : option (place * list Z) :=
  match ns with [] => Some x | n :: ns => x ← elem_step x n; elem_steps x ns end.
Lemma elem_steps_app x ns ns' : elem_steps x (ns ++ ns') = y ← elem_steps x ns; elem_steps y ns'.
Proof. revert x. induction ns as [|n ns IH]; intros x; [done|]. cbn. destruct (elem_step x n); [apply IH|done]. Qed.

(** *** Several names at a device *)

Lemma addnames_text cname ns : text cname -> Forall text ns -> exists r, addelems cname ns = Some r /\ text r.
Proof.
  intros Hc Hn. revert cname Hc. induction Hn as [|n ns Hn _ IH]; intros cname Hc; [by exists cname|]. cbn. destruct (addelem_some cname n Hc Hn) as (r & -> & Hr). by apply IH.
Qed.
(** The first name at the device, the others step by step. *)
Definition from_dev (p : place) (cname : list Z) (ns : list (list Z)) : option (place * list Z) :=
  match ns with [] => None | n :: ns => p ← dev_step p n; cname ← addelem cname n; elem_steps (p, cname) ns end.
Lemma dev_walk_first t d q n ns : match dev_walk t d q (n :: ns) with
  | None => dev_step (t, d, q) n = None
  | Some qs => exists q1, dev_step (t, d, q) n = Some (t, d, q1) /\ qs = q1 :: match ns with [] => [] | _ => if is_dir q1 then default [] (dev_walk t d q1 ns) else [] end
  end.
Proof.
  destruct ns as [|n2 ns].
  - unfold dev_step. destruct (dev_walk t d q [n]) as [qs|] eqn:E; [|done]. pose proof (dl_one _ _ _ _ _ E) as Hl. destruct qs as [|q1 [|? ?]]; try done. by exists q1.
  - rewrite dl_cons by done. unfold dev_step. destruct (dev_walk t d q [n]) as [qs|] eqn:E; [|done]. pose proof (dl_one _ _ _ _ _ E) as Hl. destruct qs as [|q1 [|? ?]]; try done. by exists q1.
Qed.
(** The first of the qids but the last that is mounted on. *)
Fixpoint along (t d : Z) (qs : list Qid) (i : nat) : option (nat * Qid * ent) :=
  match qs with
  | [] => None
  | q :: qs => match mounted K V (t, d, q) with Some e => Some (i, q, e) | None => along t d qs (i + 1) end
  end.
Lemma along_shift t d qs : forall i, along t d qs (i + 1) = (fun x => (x.1.1 + 1, x.1.2, x.2)%nat) <$> along t d qs i.
Proof. induction qs as [|q qs IH]; intros i; [done|]. cbn [along]. destruct (mounted K V (t, d, q)); [done|]. apply IH. Qed.
Lemma along_lt t d qs : forall i j q e, along t d qs i = Some (j, q, e) -> (i <= j < i + length qs)%nat /\ mounted K V (t, d, q) = Some e.
Proof.
  induction qs as [|q0 qs IH]; intros i j q e; [done|]. cbn [along]. destruct (mounted K V (t, d, q0)) as [e0|] eqn:Em; [intros [= <- <- <-]; cbn [length]; split; [lia|done]|]. intros [Hj Hm]%IH. cbn [length]. split; [lia|done].
Qed.
Lemma dev_walk_steps ns : forall t d q cname qs, ns <> [] -> Forall (fun n => isdotdot n = false /\ text n) ns -> text cname -> dev_walk t d q ns = Some qs ->
  (length qs <= length ns)%nat /\
  match along t d (take (length ns - 1) qs) 0 with
  | Some (i, qi, _) => exists cn, addelems cname (take (i + 1) ns) = Some cn /\ from_dev (t, d, q) cname (take (i + 1) ns) = Some ((t, d, qi), cn)
  | None => if decide (length qs = length ns) then exists ql cn, list.last qs = Some ql /\ addelems cname ns = Some cn /\ from_dev (t, d, q) cname ns = Some ((t, d, ql), cn)
            else from_dev (t, d, q) cname ns = None
  end.
Proof.
  induction ns as [|n ns IH]; [done|]. intros t d q cname qs _ [[Hdd Hn] Hns]%Forall_cons_iff Hc Ew. pose proof (dev_walk_first t d q n ns) as Hw. rewrite Ew in Hw. destruct Hw as (q1 & Es & ->).
  destruct (addelem_some cname n Hc Hn) as (c1 & Ea & Hc1). assert (Ef0 : forall ks, from_dev (t, d, q) cname (n :: ks) = elem_steps ((t, d, q1), c1) ks) by (intros ks; cbn [from_dev]; rewrite Es; cbn [mbind option_bind]; by rewrite Ea).
  assert (Ea0 : forall ks, addelems cname (n :: ks) = addelems c1 ks) by (intros ks; cbn [addelems]; by rewrite Ea). destruct ns as [|n2 ns].
  { cbn [length Nat.sub take along]. split; [lia|]. rewrite decide_True by done. exists q1, c1. by rewrite Ea0, Ef0. }
  replace (length (n :: n2 :: ns) - 1)%nat with (Datatypes.S (length ns)) by (cbn; lia). cbn [take along]. destruct (mounted K V (t, d, q1)) as [e|] eqn:Em.
  { split; [destruct (is_dir q1); [|cbn; lia]; destruct (dev_walk t d q1 (n2 :: ns)) as [qs|] eqn:E2; cbn [default length]; [|lia]; apply le_n_S; destruct (IH t d q1 c1 qs ltac:(done) Hns Hc1 E2) as [Hl _]; exact Hl|]. exists c1. cbn [Nat.add take]. by rewrite Ea0, Ef0. }
  assert (Hstep : forall ks, elem_steps ((t, d, q1), c1) (n2 :: ks) = if is_dir q1 then from_dev (t, d, q1) c1 (n2 :: ks) else None).
  { intros ks. cbn [elem_steps]. unfold elem_step at 1. cbn [snd]. destruct (is_dir q1); cbn [negb]; [|done]. apply Forall_cons_iff in Hns as [[Hd2 _] _]. rewrite Hd2, Em. cbn [from_dev]. destruct (dev_step (t, d, q1) n2); [|done]. cbn. by destruct (addelem c1 n2). }
  destruct (is_dir q1) eqn:Ed; [destruct (dev_walk t d q1 (n2 :: ns)) as [qs|] eqn:E2; cbn [default]; unfold id|].
  - destruct (IH t d q1 c1 qs ltac:(done) Hns Hc1 E2) as [Hl Hr]. cbn [length] in Hl, Hr. split; [cbn; lia|]. rewrite Nat.sub_succ, Nat.sub_0_r in Hr. rewrite (along_shift t d _ 0). destruct (along t d (take (length ns) qs) 0) as [[[i qi] e]|]; cbn [fmap option_fmap option_map fst snd].
    + destruct Hr as (cn & Ecn & Ef). exists cn. replace (i + 1 + 1)%nat with (Datatypes.S (Datatypes.S i)) by lia. rewrite (Nat.add_1_r i) in Ecn, Ef. cbn [take] in *. rewrite Ea0, Ef0, Hstep. by split.
    + cbn [length]. destruct (decide (length qs = Datatypes.S (length ns))) as [El|Nl].
      * rewrite decide_True by lia. destruct Hr as (ql & cn & Eq & Ecn & Ef). exists ql, cn. split; [destruct qs; [done|exact Eq]|]. rewrite Ea0, Ef0. split; [exact Ecn|]. rewrite Hstep. exact Ef.
      * rewrite decide_False by lia. rewrite Ef0, Hstep. exact Hr.
  - rewrite take_nil. cbn [along length]. split; [lia|]. rewrite decide_False by lia. rewrite Ef0, Hstep. pose proof (dev_walk_first t d q1 n2 ns) as Hw. rewrite E2 in Hw. cbn [from_dev]. by rewrite Hw.
  - rewrite take_nil. cbn [along length]. split; [lia|]. rewrite decide_False by lia. by rewrite Ef0, Hstep.
Qed.
End Spec.

(** ** The same table, other channels *)

Section Agrees.
Context {D : Dev} {DL : DevLaws} (V : list (list ent)) (K K' : gmap Z Chan) (HA : agrees (vrefs V) K K').
Lemma agrees_ent e p : In e (concat V) -> In p (ent_refs e) -> K' !! p = K !! p.
Proof. intros He Hp. apply HA. by apply (ent_refs_in V e). Qed.
Lemma mounted_agrees p : mounted K' V p = mounted K V p.
Proof.
  destruct p as [[t d] q]. cbn [mounted]. unfold find_ent. destruct (V !! bucket q) as [l|] eqn:Eb; [|done]. cbn [mbind option_bind].
  assert (Hl : Forall (fun e => In e (concat V)) l) by by apply (bucket_all V (bucket q)). clear Eb. induction Hl as [|e l He _ IH]; [done|]. cbn [List.find]. rewrite IH.
  unfold matches. by rewrite (agrees_ent e (e_from e) He) by by left.
Qed.
Lemma mounted_in k p e : mounted k V p = Some e -> In e (concat V).
Proof. destruct p as [[t d] q]. cbn [mounted]. unfold find_ent. intros (l & Eb & Ef)%bind_Some. apply find_some in Ef as [Hin _]. by eapply bucket_ents. Qed.
Lemma mount_live e f : In e (concat V) -> In f (e_mounts e) -> In (m_to f) (vrefs V).
Proof. intros He Hf. apply (ent_refs_in V e); [done|]. right. by apply in_map. Qed.
Lemma union_step_agrees e n ms : In e (concat V) -> incl ms (e_mounts e) -> union_step K' ms n = union_step K ms n.
Proof.
  intros He. induction ms as [|f ms IH]; [done|]. intros Hi. cbn [union_step]. unfold place_at. rewrite (HA (m_to f)) by (apply (mount_live e); [done|]; apply Hi; by left). destruct (_ ≫= _); [done|]. apply IH. intros x Hx. apply Hi. by right.
Qed.
Lemma out_mounts_agrees e from p ts : In e (concat V) -> In from (vrefs V) -> incl ts (e_mounts e) -> out_mounts_of K' ts from p = out_mounts_of K ts from p.
Proof.
  intros He Hf. induction ts as [|f ts IH]; [done|]. intros Hi. cbn [out_mounts_of]. unfold place_at. rewrite (HA (m_to f)) by (apply (mount_live e); [done|apply Hi; by left]). rewrite (HA from) by done. rewrite IH; [done|]. intros x Hx. apply Hi. by right.
Qed.
Lemma out_of_agrees name es : forall p, Forall (fun e => In e (concat V)) es -> out_of K' es p name = out_of K es p name.
Proof.
  induction es as [|e es IH]; intros p Hes; [done|]. apply Forall_cons_iff in Hes as [He Hes]. cbn [out_of]. assert (Hf : In (e_from e) (vrefs V)) by (apply (ent_refs_in V e); [done|by left]).
  assert (En : named_as K' (e_from e) name = named_as K (e_from e) name) by (unfold named_as; by rewrite HA). rewrite En, (out_mounts_agrees e) by (done || apply incl_refl). by apply IH.
Qed.
Lemma elem_step_agrees x n : elem_step K' V x n = elem_step K V x n.
Proof.
  destruct x as [p cname]. unfold elem_step. rewrite mounted_agrees. destruct (negb (is_dir p.2)); [done|]. destruct (isdotdot n).
  - destruct (dev_step p n); [|done]. cbn. destruct (addelem cname n); [|done]. cbn. by rewrite out_of_agrees by by apply List.Forall_forall.
  - destruct (mounted K V p) as [e|] eqn:Em; [|done]. by rewrite (union_step_agrees e) by (by eapply mounted_in || apply incl_refl).
Qed.
Lemma elem_steps_agrees ns : forall x, elem_steps K' V x ns = elem_steps K V x ns.
Proof. induction ns as [|n ns IH]; intros x; [done|]. cbn [elem_steps]. rewrite elem_step_agrees. destruct (elem_step K V x n); [apply IH|done]. Qed.
End Agrees.
(** The files there are, which walking does not leave: what is mounted first on one of
    them is a directory if it is, and is not a mount point of something else. *)
Section Simple.
Context {D : Dev} (real : place -> Prop).
Record simple (K : gmap Z Chan) (V : list (list ent)) : Prop := {
  s_walk : forall p n q, real p -> dev_step p n = Some q -> real q;
  s_table : forall x q, In x (vrefs V) -> place_at K x = Some q -> real q;
  s_once : forall p e f fs q, mounted K V p = Some e -> e_mounts e = f :: fs -> place_at K (m_to f) = Some q -> mounted K V q = None \/ mounted K V q = Some e;
  s_dirs : forall p e f fs q, real p -> mounted K V p = Some e -> e_mounts e = f :: fs -> place_at K (m_to f) = Some q -> is_dir q.2 = is_dir p.2;
}.
Lemma simple_agrees K K' V : agrees (vrefs V) K K' -> simple K V -> simple K' V.
Proof.
  intros HA [H0 Ht H1 H2]. assert (Hp : forall p e f fs q, mounted K' V p = Some e -> e_mounts e = f :: fs -> place_at K' (m_to f) = Some q -> mounted K V p = Some e /\ place_at K (m_to f) = Some q).
  { intros p e f fs q Hm He Hq. rewrite (mounted_agrees V K K' HA) in Hm. split; [done|]. unfold place_at in *. rewrite <- (HA (m_to f)); [done|]. apply (mount_live V e); [by eapply (mounted_in V)|]. rewrite He. by left. }
  split; [done| | |].
  - intros x q Hx. unfold place_at. rewrite (HA x Hx). by apply Ht.
  - intros p e f fs q Hm He Hq. destruct (Hp p e f fs q Hm He Hq) as [Hm' Hq']. rewrite (mounted_agrees V K K' HA). eauto.
  - intros p e f fs q Hr Hm He Hq. destruct (Hp p e f fs q Hm He Hq) as [Hm' Hq']. eauto.
Qed.
Context (K : gmap Z Chan) (V : list (list ent)) (HS : simple K V).
Lemma union_step_real e n p ms : In e (concat V) -> incl ms (e_mounts e) -> union_step K ms n = Some p -> real p.
Proof.
  intros He. induction ms as [|f ms IH]; [done|]. intros Hi. cbn [union_step]. destruct (place_at K (m_to f)) as [q|] eqn:Eq; cbn [mbind option_bind].
  - destruct (dev_step q n) as [p'|] eqn:Ed; [|apply IH; intros x Hx; apply Hi; by right]. intros [= <-]. apply (s_walk _ _ HS q n); [|done]. apply (s_table _ _ HS (m_to f)); [|done]. apply (mount_live V e); [done|]. apply Hi. by left.
  - apply IH. intros x Hx. apply Hi. by right.
Qed.
Lemma out_mounts_real from p ts : In from (vrefs V) -> real p -> real (out_mounts_of K ts from p).
Proof.
  intros Hf Hp. induction ts as [|t ts IH]; [done|]. cbn [out_mounts_of]. destruct (match place_at K (m_to t) with Some q => same_place p q | None => false end); [|done]. destruct (place_at K from) as [q|] eqn:Eq; [|done]. by apply (s_table _ _ HS from).
Qed.
Lemma out_of_real name es : forall p, Forall (fun e => In e (concat V)) es -> real p -> real (out_of K es p name).
Proof.
  induction es as [|e es IH]; intros p Hes Hp; [done|]. apply Forall_cons_iff in Hes as [He Hes]. cbn [out_of]. apply IH; [done|]. destruct (named_as K (e_from e) name); [|done]. apply out_mounts_real; [|done]. apply (ent_refs_in V e); [done|by left].
Qed.
Lemma elem_step_real p cn n q cn' : real p -> elem_step K V (p, cn) n = Some (q, cn') -> real q.
Proof.
  intros Hp. unfold elem_step. destruct (negb (is_dir p.2)); [done|]. destruct (isdotdot n).
  - destruct (dev_step p n) as [p'|] eqn:Ed; [|done]. cbn. destruct (addelem cn n); [|done]. cbn. intros [= <- _]. apply out_of_real; [by apply List.Forall_forall|]. by apply (s_walk _ _ HS p n).
  - destruct (match mounted K V p with None => dev_step p n | Some e => union_step K (e_mounts e) n end) as [p'|] eqn:Ed; [|done]. cbn. destruct (addelem cn n); [|done]. cbn. intros [= <- _].
    destruct (mounted K V p) as [e|] eqn:Em; [|by apply (s_walk _ _ HS p n)]. apply (union_step_real e n p' (e_mounts e)); [by eapply mounted_in|apply incl_refl|done].
Qed.
Lemma elem_steps_real ns : forall p cn q cn', real p -> elem_steps K V (p, cn) ns = Some (q, cn') -> real q.
Proof.
  induction ns as [|n ns IH]; intros p cn q cn' Hp; [by intros [= <- _]|]. cbn [elem_steps]. destruct (elem_step K V (p, cn) n) as [[p1 cn1]|] eqn:E1; [|done]. cbn [mbind option_bind]. apply IH. by apply (elem_step_real p cn n p1 cn1).
Qed.
End Simple.

(** ** The pieces of a round *)

Section Round.
Context {D : Dev} {DL : DevLaws} (V : list (list ent)) (M : nat) (I : Z).
Implicit Types (K : gmap Z Chan) (E H : list Z) (s : nst).
Abbreviation ok K E H L := (inv (mkNs K V E H L M I)).

Lemma find_along_ok K E H t d qs : full V -> forall s i, ok K E H [] s ->
  match along K V t d qs i with
  | None => exists s', find_along qs i t d s = Ok None s' /\ ok K E H [] s'
  | Some (j, q, e) => exists f fs s', e_mounts e = f :: fs /\ find_along qs i t d s = Ok (Some (j, m_to f, Some (e_h e))) s' /\ ok K (m_to f :: E) (e_h e :: H) [] s'
  end.
Proof.
  intros Hf. induction qs as [|q qs IH]; intros s i Hi; [by exists s|]. cbn [along find_along mounted]. pose proof (findmount_ok K V M I E H s None (Some None) t d q Hf Hi) as Hr. destruct (find_ent K V t d q) as [e|].
  - destruct Hr as (f & fs & s1 & Em & E1 & Hi1). exists f, fs, s1. split; [done|]. split; [|done]. by step E1.
  - destruct Hr as (s1 & E1 & Hi1). specialize (IH s1 (i + 1)%nat Hi1). destruct (along K V t d qs (i + 1)) as [[[j q'] e]|].
    + destruct IH as (f & fs & s2 & Em & E2 & Hi2). exists f, fs, s2. split; [done|]. split; [|done]. by step E1.
    + destruct IH as (s2 & E2 & Hi2). exists s2. split; [|done]. by step E1.
Qed.
Lemma addnames_ok cname ns s r : addelems cname ns = Some r -> addnames cname ns s = Ok r s.
Proof. revert cname. induction ns as [|n ns IH]; intros cname; [by intros [= ->]|]. cbn [addelems addnames]. destruct (addelem cname n) as [c|] eqn:Ea; [|done]. cbn [mbind option_bind]. intros Hr. rewrite <- (IH c Hr). by erewrite bind_ok by done. Qed.
(** What a walk of some names gives, from a channel of a list that is referred to. *)
Definition walked K E H L (tos : list Z) (ns : list (list Z)) (s : nst) (r : option (Walkqid * Z)) (s' : nst) : Prop :=
  match r with
  | None => (forall q, In q tos -> exists c, K !! q = Some c /\ dev_walk (c_type c) (c_dev c) (c_qid c) ns = None) /\ ok K E H L s'
  | Some (wq, q) => exists c pre post, K !! q = Some c /\ tos = pre ++ q :: post /\
      (forall x, In x pre -> exists cx, K !! x = Some cx /\ dev_walk (c_type cx) (c_dev cx) (c_qid cx) ns = None) /\
      dev_walk (c_type c) (c_dev c) (c_qid c) ns = Some (wqid wq) /\
      match clone wq with
      | None => (length (wqid wq) < length ns)%nat /\ ok K E H L s'
      | Some nc => (length ns <= length (wqid wq))%nat /\ ~ In nc (vrefs V ++ E) /\ inv (mkNs (<[nc := child c (wqid wq)]> K) V (nc :: E) H L M I) s'
      end
  end.
Lemma walked_cons K E H L q c tos ns s s0 r s' : K !! q = Some c -> dev_walk (c_type c) (c_dev c) (c_qid c) ns = None -> walked K E H L tos ns s r s' -> walked K E H L (q :: tos) ns s0 r s'.
Proof.
  intros HK Hd. destruct r as [[wq p]|].
  - intros (c' & pre & post & HK' & -> & Hpre & Hw). exists c', (q :: pre), post. do 2 (split; [done|]). split; [|done]. intros x [<-|Hx]; [by exists c|by apply Hpre].
  - intros [Hn Hi]. split; [|done]. intros x [<-|Hx]; [by exists c|by apply Hn].
Qed.
Lemma devwalk_ok K E H L s p c ns : inv (mkNs K V E H L M I) s -> In p (vrefs V ++ E) -> K !! p = Some c ->
  exists wq s', devwalk p ns s = Ok wq s' /\ walked K E H L [p] ns s (x ← wq; Some (x, p)) s'.
Proof.
  intros Hi Hp HK. destruct (held_chan V L M I K E H s p c Hi Hp HK) as (n & _ & Es & _). destruct (dev_walk (c_type c) (c_dev c) (c_qid c) ns) as [qs|] eqn:Ed.
  - destruct (Nat.lt_ge_cases (length qs) (length ns)) as [Hl|Hl].
    + eexists _, s. split; [by apply (devwalk_some s p n c)|]. exists c, [], []. split; [done|]. split; [done|]. split; [done|]. by split.
    + destruct (devwalk_all V L M I K E H s p n c ns qs Hi Es Ed Hl) as (nc & s' & E1 & Hnc & Hi1). eexists _, s'. split; [exact E1|]. exists c, [], []. split; [done|]. split; [done|]. split; [done|]. split; [done|]. split; [done|]. split; [|exact Hi1].
      intros Hin. by destruct (fresh_not_held V L M I K E H s nc nc Hi Hin Hnc).
  - eexists None, s. split; [by apply (devwalk_none s p n c)|]. split; [|done]. intros q [<-|[]]. by exists c.
Qed.
Lemma union_walk_ok K E H L ns fs : forall s, inv (mkNs K V E H L M I) s -> Forall (fun f => In (m_to f) (vrefs V)) fs -> exists r s', union_walk fs ns s = Ok r s' /\ walked K E H L (map m_to fs) ns s r s'.
Proof.
  induction fs as [|f fs IH]; intros s Hi Hfs; [exists None, s; split; [done|]; by split|]. apply Forall_cons_iff in Hfs as [Hf Hfs]. cbn [union_walk map].
  destruct (chan_held _ s (m_to f) Hi) as (n & c & _ & _ & HK & _); [by apply table_in|]. cbn [idents] in HK. assert (Hp : In (m_to f) (vrefs V ++ E)) by (rewrite in_app_iff; by left).
  destruct (devwalk_ok K E H L s (m_to f) c ns Hi Hp HK) as (wq & s1 & E1 & Hw). step E1. destruct wq as [wq|]; cbn [mbind option_bind] in Hw.
  - eexists _, s1. split; [done|]. destruct Hw as (c' & pre & post & HK' & Et & _ & Hd & Hc). exists c', [], (map m_to fs). split; [done|]. split; [done|]. split; [done|]. by split.
  - destruct Hw as [Hn Hi1]. destruct (IH s1 Hi1 Hfs) as (r & s2 & E2 & Hw2). exists r, s2. split; [done|]. destruct (Hn (m_to f) (or_introl eq_refl)) as (c' & HK' & Hd'). by apply (walked_cons K E H L _ c' _ _ s1).
Qed.
(** The channel, then the rest of the union it is of. *)
Definition tos_of (c : Z) (o : option ent) : list Z := match o with None => [c] | Some e => map m_to (e_mounts e) end.
Lemma walk_first_ok K E H s c cc o ns : ok K E H [] s -> In c (vrefs V ++ E) -> K !! c = Some cc -> match o with None => True | Some e => In e (concat V) /\ exists f fs, e_mounts e = f :: fs /\ c = m_to f end ->
  exists r s', walk_first c (e_h <$> o) false ns s = Ok r s' /\ walked K E H [] (tos_of c o) ns s r s'.
Proof.
  intros Hi Hc HK Ho. destruct (devwalk_ok K E H [] s c cc ns Hi Hc HK) as (wq & s1 & E1 & Hw). unfold walk_first. destruct wq as [wq|]; cbn [mbind option_bind] in Hw.
  - eexists _, s1. split; [by step E1|]. destruct Hw as (c' & pre & post & HK' & Et & Hpre & Hd & Hcl). destruct o as [e|]; cbn [tos_of]; [|by exists c', pre, post]. destruct Ho as (_ & f & fs & -> & ->). exists c', [], (map m_to fs). split; [done|]. split; [done|]. split; [done|]. by split.
  - destruct Hw as [Hn Hi1]. destruct o as [e|]; cbn [fmap option_fmap option_map tos_of].
    2:{ exists None, s1. split; [by step E1|]. by split. }
    destruct Ho as (He & f & fs & Em & ->). destruct (wlock_ok _ _ _ _ _ _ _ s1 (Lhead (e_h e)) Hi1) as (s2 & E2 & Hi2 & _); [by apply not_elem_of_nil|]. destruct (ent_head _ s2 e Hi2 He) as (m & _ & Eh & _ & Emt).
    assert (Hfs : Forall (fun f => In (m_to f) (vrefs V)) fs) by (apply List.Forall_forall; intros x Hx; apply (mount_live V e); [done|]; rewrite Em; by right).
    destruct (union_walk_ok K E H _ ns fs s2 Hi2 Hfs) as (r & s3 & E3 & Hw3).
    assert (Hun : exists s4, wunlock (Lhead (e_h e)) s3 = Ok tt s4 /\ walked K E H [] (map m_to fs) ns s2 r s4).
    { destruct r as [[wq q]|].
      - destruct Hw3 as (c' & pre & post & HK' & Et & Hpre & Hd & Hcl). destruct (clone wq) as [nc|] eqn:Ecl.
        + destruct Hcl as (Hl & Hnc & Hi3). destruct (wunlock_ok _ _ _ _ _ _ _ s3 (Lhead (e_h e)) Hi3) as (s4 & E4 & Hi4 & _). rewrite unlock_head in Hi4. exists s4. split; [done|]. exists c', pre, post. rewrite Ecl. done.
        + destruct Hcl as (Hl & Hi3). destruct (wunlock_ok _ _ _ _ _ _ _ s3 (Lhead (e_h e)) Hi3) as (s4 & E4 & Hi4 & _). rewrite unlock_head in Hi4. exists s4. split; [done|]. exists c', pre, post. rewrite Ecl. done.
      - destruct Hw3 as [Hn3 Hi3]. destruct (wunlock_ok _ _ _ _ _ _ _ s3 (Lhead (e_h e)) Hi3) as (s4 & E4 & Hi4 & _). rewrite unlock_head in Hi4. exists s4. split; [done|]. by split. }
    destruct Hun as (s4 & E4 & Hw4). exists r, s4. split.
    { step E1. step E2. step Eh. rewrite Emt, Em. step E3. by step E4. }
    rewrite Em. cbn [map]. destruct (Hn (m_to f) (or_introl eq_refl)) as (c' & HK' & Hd'). by apply (walked_cons K E H [] _ c' _ _ s2).
Qed.
End Round.

Section Loop.
Context {D : Dev} {DL : DevLaws} (real : place -> Prop) (V : list (list ent)) (M : nat) (I : Z) (HV : full V).
Implicit Types (K : gmap Z Chan) (E H : list Z) (s : nst).
Abbreviation ok K E H := (inv (mkNs K V E H [] M I)).

Lemma take_len {A} k (l : list A) : take (length (take k l)) l = take k l.
Proof. rewrite length_take. destruct (Nat.le_ge_cases k (length l)); [by rewrite Nat.min_l|]. by rewrite Nat.min_r, !take_ge by lia. Qed.
Lemma tries_spec names ntry up : names <> [] -> tries names = (ntry, up) ->
  if up then ntry = 1%nat /\ exists ns, names = [period; period] :: ns
  else (1 <= ntry <= length names)%nat /\ Forall (fun n => isdotdot n = false) (take ntry names).
Proof.
  intros Hn. unfold tries. destruct (list_find _ _) as [[i n]|] eqn:Ef.
  - apply list_find_Some in Ef as (Hi & Hd & Hb). apply lookup_take_Some in Hi as [Hi Hlt]. destruct i as [|i]; intros [= <- <-].
    + split; [done|]. destruct names as [|n' ns]; [done|]. injection Hi as ->. exists ns. unfold isdotdot in Hd. apply bool_decide_eq_true_1 in Hd. by subst.
    + pose proof (lookup_lt_Some _ _ _ Hi). split; [lia|]. apply list.Forall_forall. intros x Hx. apply list_elem_of_lookup in Hx as [j Hj]. apply lookup_take_Some in Hj as [Hj Hlt']. apply not_true_is_false. eapply Hb; [|exact Hlt']. apply lookup_take_Some. split; [exact Hj|lia].
  - intros [= <- <-]. apply list_find_None in Ef. split; [rewrite length_take; unfold MAXWELEM; destruct names; [done|cbn [length]; lia]|]. rewrite take_len.
    revert Ef. apply Forall_impl. intros x Hx. by apply not_true_is_false.
Qed.
(** [c] is where the names so far have come to, or what is mounted there. *)
Inductive at_walk (K : gmap Z Chan) (p : place) (c : Z) : option Z -> list (list Z) -> Prop :=
| at_here names : place_at K c = Some p -> at_walk K p c None names
| at_mounted e f fs n ns : mounted K V p = Some e -> e_mounts e = f :: fs -> c = m_to f -> isdotdot n = false -> at_walk K p c (Some (e_h e)) (n :: ns).
Definition entered (K : gmap Z Chan) (p : place) (c : Z) (o : option ent) : Prop :=
  o = mounted K V p /\ match o with None => place_at K c = Some p | Some e => exists f fs, e_mounts e = f :: fs /\ c = m_to f end.
Lemma round_enter K E H s p c mh names : simple real K V -> ok K (c :: E) (option_list mh ++ H) s -> at_walk K p c mh names ->
  exists c0 o s', ('(c, mp) ← domount c (Some mh); mret (c, default None mp)) s = Ok (c0, e_h <$> o) s' /\ entered K p c0 o /\ ok K (c0 :: E) (option_list (e_h <$> o) ++ H) s'.
Proof.
  intros Hs Hi Hat. pose proof (s_once _ _ _ Hs) as S1. destruct (chan_held _ s c Hi) as (n & cc & _ & _ & HK & _); [apply owned_in; by left|]. cbn [idents] in HK. pose proof (domount_ok V M I K E H s c cc (Some mh) HV Hi HK) as Hd.
  assert (Hcase : (exists e f fs, mounted K V p = Some e /\ e_mounts e = f :: fs /\ (mounted K V (place_of cc) = Some e \/ mounted K V (place_of cc) = None /\ mh = Some (e_h e) /\ c = m_to f)) \/ mounted K V p = None /\ place_at K c = Some p /\ mh = None /\ mounted K V (place_of cc) = None).
  { destruct Hat as [names Hp|e f fs n0 ns Hm Hf -> Hn].
    - unfold place_at in Hp. rewrite HK in Hp. cbn in Hp. injection Hp as <-. destruct (mounted K V (place_of cc)) as [e|] eqn:Em; [|right; unfold place_at; by rewrite HK]. left.
      destruct Hd as (f & fs & s' & Hf & _). exists e, f, fs. by auto.
    - left. exists e, f, fs. do 2 (split; [done|]). destruct (S1 p e f fs (place_of cc) Hm Hf) as [Hx|Hx]; [unfold place_at; by rewrite HK|by right|by left]. }
  destruct Hcase as [(e & f & fs & Hm & Hf & [Hx|(Hx & -> & ->)])|(Hm & Hp & -> & Hx)]; rewrite Hx in Hd.
  - destruct Hd as (f' & fs' & s' & Hf' & Ed & Hi'). rewrite Hf in Hf'. injection Hf' as <- <-. exists (m_to f), (Some e), s'. split; [by step Ed|]. split; [|done]. split; [done|]. by exists f, fs.
  - destruct Hd as (s' & Ed & Hi'). exists (m_to f), (Some e), s'. split; [by step Ed|]. split; [|done]. split; [done|]. by exists f, fs.
  - destruct Hd as (s' & Ed & Hi'). exists c, None, s'. split; [by step Ed|]. split; [by split|done].
Qed.
Lemma round_dir K E H s p c mh names : simple real K V -> real p -> ok K (c :: E) H s -> at_walk K p c mh names -> exists n cc, chan c s = Ok (n, cc) s /\ K !! c = Some cc /\ is_dir (c_qid cc) = is_dir p.2.
Proof.
  intros Hs Hp Hi Hat. destruct (chan_held _ s c Hi) as (n & cc & Ec & _ & HK & _); [apply owned_in; by left|]. cbn [idents] in HK. exists n, cc. do 2 (split; [done|]). destruct Hat as [names Hc|e f fs n0 ns Hm Hf -> Hn].
  - unfold place_at in Hc. rewrite HK in Hc. by injection Hc as <-.
  - apply (s_dirs _ _ _ Hs p e f fs (place_of cc) Hp Hm Hf). unfold place_at. by rewrite HK.
Qed.
(** The names as the device takes them are those of the specification. *)
Lemma dev_none_step c n ns : dev_walk (c_type c) (c_dev c) (c_qid c) (n :: ns) = None -> dev_step (place_of c) n = None.
Proof. intros Hd. pose proof (dev_walk_first (c_type c) (c_dev c) (c_qid c) n ns) as Hf. by rewrite Hd in Hf. Qed.
Lemma union_step_pre K n ns pre l : (forall x, In x (map m_to pre) -> exists cx, K !! x = Some cx /\ dev_walk (c_type cx) (c_dev cx) (c_qid cx) (n :: ns) = None) -> union_step K (pre ++ l) n = union_step K l n.
Proof.
  induction pre as [|f pre IH]; intros Hp; [done|]. cbn [app union_step]. destruct (Hp (m_to f)) as (cx & HK & Hd); [by left|]. unfold place_at at 1. rewrite HK. cbn [fmap option_fmap option_map mbind option_bind]. rewrite (dev_none_step _ _ _ Hd). apply IH. intros x Hx. apply Hp. by right.
Qed.
Lemma walked_spec K E H s s' p c0 o cname n ns r : entered K p c0 o -> is_dir p.2 = true -> isdotdot n = false -> walked V M I K E H [] (tos_of c0 o) (n :: ns) s r s' ->
  match r with
  | None => forall ks, elem_steps K V (p, cname) (n :: ks) = None
  | Some (wq, q) => exists c, K !! q = Some c /\ dev_walk (c_type c) (c_dev c) (c_qid c) (n :: ns) = Some (wqid wq) /\ forall ks, elem_steps K V (p, cname) (n :: ks) = from_dev K V (place_of c) cname (n :: ks)
  end.
Proof.
  intros [Ho He] Hd Hn. assert (Hs : forall ks, elem_steps K V (p, cname) (n :: ks) = y ← (p ← match o with None => dev_step p n | Some e => union_step K (e_mounts e) n end; cname ← addelem cname n; Some (p, cname)); elem_steps K V y ks).
  { intros ks. cbn [elem_steps]. unfold elem_step at 1. by rewrite Hd, Hn, <- Ho. }
  assert (Hfd : forall x ks, from_dev K V x cname (n :: ks) = y ← (p ← dev_step x n; cname ← addelem cname n; Some (p, cname)); elem_steps K V y ks) by (intros x ks; cbn [from_dev]; destruct (dev_step x n); [|done]; cbn; by destruct (addelem cname n)).
  destruct r as [[wq q]|].
  - intros (c & pre & post & HK & Et & Hpre & Hdw & _). exists c. do 2 (split; [done|]). intros ks. rewrite Hs, Hfd. destruct o as [e|]; cbn [tos_of] in Et.
    + apply map_eq_app in Et as (pre' & l & Em & <- & Hl). destruct l as [|f l]; [done|]. cbn in Hl. injection Hl as <- _. rewrite Em, (union_step_pre K n ns) by done. cbn [union_step]. unfold place_at. rewrite HK. cbn [fmap option_fmap option_map mbind option_bind].
      pose proof (dev_walk_first (c_type c) (c_dev c) (c_qid c) n ns) as Hf. rewrite Hdw in Hf. destruct Hf as (q1 & Hf & _). change (c_type c, c_dev c, c_qid c) with (place_of c) in Hf. by rewrite Hf.
    + destruct pre as [|? [|? ?]]; try done. injection Et as <-. unfold place_at in He. rewrite HK in He. by injection He as <-.
  - intros [Hnone _] ks. rewrite Hs. destruct o as [e|]; cbn [tos_of] in Hnone.
    + rewrite <- (app_nil_r (e_mounts e)), (union_step_pre K n ns) by done. done.
    + destruct (Hnone c0) as (c & HK & Hdw); [by left|]. unfold place_at in He. rewrite HK in He. injection He as <-. by rewrite (dev_none_step c n ns Hdw).
Qed.
Lemma along_agrees K K' t d qs : agrees (vrefs V) K K' -> forall i, along K' V t d qs i = along K V t d qs i.
Proof. intros HA. induction qs as [|q qs IH]; intros i; [done|]. cbn [along]. by rewrite (mounted_agrees V K K' HA), IH. Qed.
Lemma agrees_app ps qs K K' : agrees (ps ++ qs) K K' -> agrees ps K K'.
Proof. intros HA p Hp. apply HA. rewrite in_app_iff. by left. Qed.
Lemma agrees_cons ps q qs K K' : agrees (ps ++ q :: qs) K K' -> agrees (ps ++ qs) K K'.
Proof. intros HA p Hp. apply HA. rewrite in_app_iff in *. cbn. tauto. Qed.
(** What a round has come to. *)
Definition round_post K E H (p : place) (cname : list Z) (names : list (list Z)) (r : Round) s' : Prop :=
  match r with
  | Rfail _ _ => elem_steps K V (p, cname) names = None /\ exists K', agrees (vrefs V ++ E) K K' /\ ok K' E H s'
  | Rnext k c' cname' mh' => exists K' p', (1 <= k <= length names)%nat /\ elem_steps K V (p, cname) (take k names) = Some (p', cname') /\ text cname' /\
      agrees (vrefs V ++ E) K K' /\ ok K' (c' :: E) (option_list mh' ++ H) s' /\ at_walk K' p' c' mh' (drop k names)
  end.
Lemma leave_walk K E H s c mh r (k : NS r) : ok K (c :: E) (option_list mh ++ H) s -> exists s', (cclose (Some c);; putmhead mh;; k) s = k s' /\ ok K E H s'.
Proof.
  intros Hi. destruct (cclose_ok V [] M I K E _ s (Some c) Hi) as (s1 & E1 & Hi1). destruct (putmhead_ok V [] M I K E H s1 mh Hi1) as (s2 & E2 & Hi2 & _). exists s2. split; [|done]. step E1. by step E2.
Qed.
Lemma from_dev_none K x cname n ns ns' : from_dev K V x cname (n :: ns) = None -> from_dev K V x cname (n :: ns ++ ns') = None.
Proof. cbn [from_dev]. destruct (dev_step x n) as [y|]; [|done]. cbn [mbind option_bind]. destruct (addelem cname n); [|done]. cbn [mbind option_bind]. intros Hn. by rewrite elem_steps_app, Hn. Qed.

Section Tail.
Context (K K1 : gmap Z Chan) (E H : list Z) (s : nst) (c0 : Z) (mh0 : option Z) (q : Z) (c : Chan) (wq : Walkqid) (p : place) (cname n : list Z) (ns : list (list Z)) (ntry : nat).
Context (Hi : ok K1 (option_list (clone wq) ++ c0 :: E) (option_list mh0 ++ H) s) (HA : agrees (vrefs V ++ c0 :: E) K K1).
Context (Hq : In q (vrefs V ++ c0 :: E)) (HK : K !! q = Some c) (Hcn : text cname).
Context (Hnt : (1 <= ntry <= length (n :: ns))%nat) (HT : Forall (fun n => isdotdot n = false /\ text n) (take ntry (n :: ns))).
Context (Hdw : dev_walk (c_type c) (c_dev c) (c_qid c) (take ntry (n :: ns)) = Some (wqid wq)).
Context (Hcl : match clone wq with None => (length (wqid wq) < ntry)%nat | Some nc => (ntry <= length (wqid wq))%nat /\ K1 !! nc = Some (child c (wqid wq)) end).
Context (Hspec : forall ks, elem_steps K V (p, cname) (n :: ks) = from_dev K V (place_of c) cname (n :: ks)).

Lemma spec_take k : (1 <= k)%nat -> elem_steps K V (p, cname) (take k (n :: ns)) = from_dev K V (place_of c) cname (take k (n :: ns)).
Proof. destruct k; [lia|]. intros _. cbn [take]. apply Hspec. Qed.
Lemma round_tail : exists r s', (
      '(_, pc) ← chan q;
      found ← find_along (take (ntry - 1) (wqid wq)) 0 (c_type pc) (c_dev pc);
      match found, clone wq with
      | None, None =>
          cclose (Some c0);; putmhead mh0;;
          match list.last (wqid wq) with
          | Some q => if is_dir q then mret (Rfail (length (wqid wq) + 1) (Some Edoesnotexist)) else mret (Rfail (length (wqid wq)) (Some Enotdir))
          | None => mret (Rfail 1 (Some Edoesnotexist))
          end
      | None, Some nc =>
          cname ← addnames cname (take (length (wqid wq)) (n :: ns));
          cclose (Some c0);; putmhead mh0;; mret (Rnext (length (wqid wq)) nc cname None)
      | Some (i, nc, nmh), w =>
          cclose w;;
          cname ← addnames cname (take (i + 1) (n :: ns));
          cclose (Some c0);; putmhead mh0;; mret (Rnext (i + 1) nc cname nmh)
      end) s = Ok r s' /\ round_post K E H p cname (n :: ns) r s'.
Proof.
  assert (Hl : length (take ntry (n :: ns)) = ntry) by (rewrite length_take; lia). destruct (dev_walk_steps K V (take ntry (n :: ns)) _ _ _ cname _ ltac:(by destruct ntry; [lia|]) HT Hcn Hdw) as [Hlen Hst]. rewrite Hl in Hlen, Hst.
  destruct (held_chan V [] M I K1 _ _ s q c Hi) as (r0 & Ec & _); [rewrite !in_app_iff in *; tauto|by rewrite HA|]. assert (HAV : agrees (vrefs V) K K1) by by eapply agrees_app.
  pose proof (find_along_ok V M I K1 _ _ (c_type c) (c_dev c) (take (ntry - 1) (wqid wq)) HV s 0%nat Hi) as Hf. rewrite (along_agrees K K1) in Hf by done. destruct (along K V (c_type c) (c_dev c) (take (ntry - 1) (wqid wq)) 0) as [[[i qi] e]|] eqn:Eal.
  - destruct Hf as (f & fs & s1 & Em & E1 & Hi1). destruct Hst as (cn & Ecn & Efd). apply along_lt in Eal as [Hi0 Hme]. rewrite length_take in Hi0.
    assert (Htt : take (i + 1) (take ntry (n :: ns)) = take (i + 1) (n :: ns)) by (rewrite take_take; f_equal; lia). rewrite Htt in *.
    assert (Hi1' : ok K1 (option_list (clone wq) ++ c0 :: m_to f :: E) (option_list mh0 ++ e_h e :: H) s1) by (refine (inv_perm _ _ _ _ _ _ _ _ _ _ Hi1 _ _); solve_Permutation).
    destruct (cclose_ok V [] M I K1 _ _ s1 (clone wq) Hi1') as (s2 & E2 & Hi2). destruct (leave_walk K1 (m_to f :: E) (e_h e :: H) s2 c0 mh0 _ (mret (Rnext (i + 1) (m_to f) cn (Some (e_h e)))) Hi2) as (s3 & E3 & Hi3).
    exists (Rnext (i + 1) (m_to f) cn (Some (e_h e))), s3. split; [step Ec; step E1; step E2; by step (addnames_ok cname _ s2 cn Ecn)|]. destruct (addnames_text cname (take (i + 1) (n :: ns)) Hcn) as (cn' & Ecn' & Htx); [rewrite <- Htt; apply list.Forall_take; revert HT; apply Forall_impl; by intros x [_ ?]|].
    rewrite Ecn in Ecn'. injection Ecn' as <-. exists K1, (c_type c, c_dev c, qi). split; [lia|]. split; [by rewrite spec_take by lia|]. split; [done|]. split; [by eapply agrees_cons|]. split; [exact Hi3|].
    destruct (drop (i + 1) (n :: ns)) as [|n2 ns2] eqn:Edr; [apply (f_equal length) in Edr; rewrite length_drop in Edr; cbn [length] in *; lia|]. apply (at_mounted _ _ _ e f fs); [by rewrite (mounted_agrees V K K1 HAV)|done|done|].
    assert (Hn2 : (n :: ns) !! (i + 1)%nat = Some n2) by (rewrite <- (take_drop (i + 1) (n :: ns)), Edr; apply list_lookup_middle; rewrite length_take; cbn [length] in *; lia).
    assert (Hn3 : take ntry (n :: ns) !! (i + 1)%nat = Some n2) by (rewrite lookup_take_lt by lia; exact Hn2). by destruct (proj1 (list.Forall_lookup _ _) HT _ _ Hn3).
  - destruct Hf as (s1 & E1 & Hi1). destruct (clone wq) as [nc|] eqn:Ecl; cbn [option_list app] in *.
    + destruct Hcl as [Hge HKn]. assert (Hqs : length (wqid wq) = ntry) by lia. rewrite decide_True in Hst by done. destruct Hst as (ql & cn & Eql & Ecn & Efd).
      assert (Hi1' : ok K1 (c0 :: nc :: E) (option_list mh0 ++ H) s1) by (refine (inv_perm _ _ _ _ _ _ _ _ _ _ Hi1 _ _); solve_Permutation). destruct (leave_walk K1 (nc :: E) H s1 c0 mh0 _ (mret (Rnext (length (wqid wq)) nc cn None)) Hi1') as (s3 & E3 & Hi3).
      exists (Rnext (length (wqid wq)) nc cn None), s3. rewrite Hqs in *. split; [step Ec; step E1; by step (addnames_ok cname _ s1 cn Ecn)|]. destruct (addnames_text cname (take ntry (n :: ns)) Hcn) as (cn' & Ecn' & Htx); [revert HT; apply Forall_impl; by intros x [_ ?]|].
      rewrite Ecn in Ecn'. injection Ecn' as <-. exists K1, (c_type c, c_dev c, ql). split; [lia|]. split; [by rewrite spec_take by lia|]. split; [done|]. split; [by eapply agrees_cons|]. split; [exact Hi3|].
      apply at_here. unfold place_at. rewrite HKn. cbn. unfold place_of, child. cbn [c_type c_dev c_qid]. by rewrite Eql.
    + rewrite decide_False in Hst by lia. destruct (leave_walk K1 E H s1 c0 mh0 _ (match list.last (wqid wq) with Some q => if is_dir q then mret (Rfail (length (wqid wq) + 1) (Some Edoesnotexist)) else mret (Rfail (length (wqid wq)) (Some Enotdir)) | None => mret (Rfail 1 (Some Edoesnotexist)) end) Hi1) as (s3 & E3 & Hi3).
      assert (Hnone : elem_steps K V (p, cname) (n :: ns) = None).
      { rewrite Hspec. destruct ntry as [|k]; [lia|]. cbn [take] in Hst. rewrite <- (take_drop k ns). by apply from_dev_none. }
      assert (Hpost : exists K', agrees (vrefs V ++ E) K K' /\ ok K' E H s3) by (exists K1; split; [by eapply agrees_cons|exact Hi3]).
      destruct (list.last (wqid wq)) as [ql|] eqn:Eql; [destruct (is_dir ql) eqn:Edir|]; eexists _, s3; (split; [step Ec; step E1; exact E3|by split]).
Qed.
End Tail.

(** ** A round *)

Definition known K (es : list ent) : Prop := Forall (fun e => In e (concat V)) es /\ forall x, In x (vrefs V) -> is_Some (K !! x).
Lemma known_inv K E H L s : inv (mkNs K V E H L M I) s -> known K (concat V).
Proof. intros Hi. split; [by apply List.Forall_forall|]. intros x Hx. destruct (chan_live _ s x Hi) as (n & c & _ & HK & _); [by apply table_in|]. by eexists. Qed.
Lemma out_mounts_place K from ts : In from (vrefs V) -> Forall (fun t => In (m_to t) (vrefs V)) ts -> (forall x, In x (vrefs V) -> is_Some (K !! x)) -> forall c p, place_at K c = Some p ->
  place_at K (out_mounts K ts from c) = Some (out_mounts_of K ts from p).
Proof.
  intros Hf Hts Hk. induction Hts as [|t ts Ht _ IH]; intros c p Hp; [done|]. cbn [out_mounts out_mounts_of]. destruct (Hk _ Ht) as [ct Ect]. destruct (Hk _ Hf) as [cf Ecf]. unfold at_place, place_at in *. rewrite Ect, Ecf. cbn [fmap option_fmap option_map default].
  destruct (K !! c) as [cc|] eqn:Ecc; [|done]. injection Hp as <-. change (same_place (place_of cc) (place_of ct)) with (eqchan cc ct). destruct (eqchan cc ct); [by rewrite Ecf|]. apply IH. by rewrite Ecc.
Qed.
Lemma out_place K name es : (forall x, In x (vrefs V) -> is_Some (K !! x)) -> Forall (fun e => In e (concat V)) es -> forall c p, place_at K c = Some p -> place_at K (out K es c name) = Some (out_of K es p name).
Proof.
  intros Hk. induction 1 as [|e es He _ IH]; intros c p Hp; [done|]. cbn [out out_of]. destruct (named_as K (e_from e) name); [|by apply IH]. apply IH. apply out_mounts_place; [apply (ent_refs_in V e); [done|by left]| |done|done].
  apply List.Forall_forall. intros t Ht. by apply (mount_live V e).
Qed.
Lemma round_up K E H s p c cname ns : simple real K V -> ok K (c :: E) H s -> place_at K c = Some p -> text cname -> is_dir p.2 = true ->
  exists r s', (wf ← walk_first c None false [[period; period]];
    match wf with
    | None => cclose (Some c);; putmhead None;; mret (Rfail 1 None)
    | Some (wq, p) =>
        match wqid wq, clone wq with
        | [_], Some nc =>
            cname ← of_option (addelem cname [period; period]);
            nc ← undomount nc cname;
            cclose (Some c);; putmhead None;; mret (Rnext 1 nc cname None)
        | _, _ => fault
        end
    end) s = Ok r s' /\ round_post K E H p cname ([period; period] :: ns) r s'.
Proof.
  intros Hs Hi Hp Hcn Hd. unfold place_at in Hp. destruct (K !! c) as [cc|] eqn:HK; [|done]. injection Hp as <-. assert (Hc : In c (vrefs V ++ c :: E)) by (rewrite in_app_iff; cbn; tauto).
  destruct (walk_first_ok V M I K _ _ s c cc None [[period; period]] Hi Hc HK Logic.I) as (r & s1 & E1 & Hw). change (e_h <$> None) with (@None Z) in E1. step E1. destruct (dl_up (c_type cc) (c_dev cc) (c_qid cc) Hd) as [q' Eq].
  destruct r as [[wq q]|]; [|destruct Hw as [Hw _]; destruct (Hw c) as (c' & HK' & Hn); [by left|]; rewrite HK in HK'; injection HK' as <-; congruence].
  destruct Hw as (c' & pre & post & HK' & Et & _ & Edw & Hcl). destruct pre as [|? [|? ?]]; try done. injection Et as <- _. rewrite HK in HK'. injection HK' as <-. rewrite Eq in Edw. injection Edw as Ew. rewrite <- Ew in *.
  destruct (clone wq) as [nc|]; [|destruct Hcl as [Hcl _]; cbn in Hcl; lia]. destruct Hcl as (_ & Hnc & Hi1). destruct (addelem_some cname [period; period] Hcn) as (cn & Ea & Htx); [unfold text; repeat constructor; discriminate|].
  rewrite Ea. cbn [of_option]. erewrite bind_ok by done. set (K1 := <[nc := _]> K) in *. assert (HA : agrees (vrefs V ++ c :: E) K K1) by by apply agrees_insert. assert (HAV : agrees (vrefs V) K K1) by by eapply agrees_app.
  destruct (undomount_ok V M I K1 (c :: E) H s1 nc cn Hi1) as (s2 & E2 & Hi2). step E2. set (nc' := out K1 (concat V) nc cn) in *.
  assert (Hi2' : ok K1 (c :: nc' :: E) (option_list None ++ H) s2) by (refine (inv_perm _ _ _ _ _ _ _ _ _ _ Hi2 _ _); [solve_Permutation|done]). destruct (leave_walk K1 (nc' :: E) H s2 c None _ (mret (Rnext 1 nc' cn None)) Hi2') as (s3 & E3 & Hi3). exists (Rnext 1 nc' cn None), s3. split; [exact E3|].
  assert (Hpl : place_at K1 nc = Some (c_type cc, c_dev cc, q')) by (unfold place_at, K1; by rewrite lookup_insert_eq). destruct (known_inv _ _ _ _ _ Hi1) as [Hk1 Hk2]. pose proof (out_place K1 cn (concat V) Hk2 Hk1 nc _ Hpl) as Hout. rewrite (out_of_agrees V K K1 HAV) in Hout by done.
  exists K1, (out_of K (concat V) (c_type cc, c_dev cc, q') cn). split; [cbn; lia|]. split.
  { cbn [take elem_steps]. unfold elem_step. rewrite Hd. cbn [negb]. change (isdotdot [period; period]) with true. cbv iota. cbn [dev_step place_of]. rewrite Eq. cbn [mbind option_bind]. by rewrite Ea. }
  split; [done|]. split; [by eapply agrees_cons|]. split; [exact Hi3|]. by apply at_here.
Qed.
Lemma walk_round_ok K E H s p c mh cname names : simple real K V -> real p -> ok K (c :: E) (option_list mh ++ H) s -> at_walk K p c mh names -> names <> [] -> text cname -> Forall text names ->
  exists r s', walk_round false names c cname mh s = Ok r s' /\ round_post K E H p cname names r s'.
Proof.
  intros Hs Hrp Hi Hat Hne Hcn Htx. destruct (round_dir K E _ s p c mh names Hs Hrp Hi Hat) as (n0 & cc & Ec & HK & Edir). unfold walk_round. step Ec. rewrite Edir. destruct (is_dir p.2) eqn:Hd; cbn [negb].
  2:{ destruct (leave_walk K E H s c mh _ (mret (Rfail 0 (Some Enotdir))) Hi) as (s1 & E1 & Hi1). eexists _, s1. split; [exact E1|]. split; [|by exists K]. destruct names as [|n ns]; [done|]. cbn [elem_steps]. unfold elem_step at 1. by rewrite Hd. }
  destruct (tries names) as [ntry up] eqn:Et. pose proof (tries_spec names ntry up Hne Et) as Ht. destruct up; cbn [negb andb].
  { destruct Ht as (-> & ns & ->). assert (mh = None /\ place_at K c = Some p) as [-> Hp] by (inversion Hat; subst; [done|]; match goal with Hx : isdotdot _ = false |- _ => by vm_compute in Hx end). erewrite bind_ok by done. cbv beta iota. cbn [take]. by apply round_up. }
  destruct (round_enter K E H s p c mh names Hs Hi Hat) as (c0 & o & s1 & E1 & Hent & Hi1). step E1. destruct Ht as [Hnt HT]. destruct names as [|n ns]; [done|].
  assert (Hc0 : In c0 (vrefs V ++ c0 :: E)) by (rewrite in_app_iff; cbn; tauto). destruct (chan_held _ s1 c0 Hi1) as (n1 & cc0 & _ & _ & HK0 & _); [apply owned_in; by left|]. cbn [idents] in HK0.
  assert (Ho : match o with None => True | Some e => In e (concat V) /\ exists f fs, e_mounts e = f :: fs /\ c0 = m_to f end) by (destruct Hent as [Eo He]; destruct o as [e|]; [split; [by eapply (mounted_in V)|done]|done]).
  destruct (walk_first_ok V M I K _ _ s1 c0 cc0 o (take ntry (n :: ns)) Hi1 Hc0 HK0 Ho) as (r & s2 & E2 & Hw). step E2. destruct ntry as [|k]; [lia|]. assert (HTt : Forall (fun n => isdotdot n = false /\ text n) (take (Datatypes.S k) (n :: ns))) by (apply Forall_and; [done|by apply list.Forall_take]).
  cbn [take] in Hw. assert (Hn : isdotdot n = false) by (cbn [take] in HT; by apply Forall_cons_iff in HT as [? _]). pose proof (walked_spec K _ _ s1 s2 p c0 o cname n (take k ns) r Hent Hd Hn Hw) as Hsp. destruct r as [[wq q]|].
  - destruct Hsp as (c' & HK' & Hdw & Hspec). destruct Hw as (c2 & pre & post & HK2 & Etos & _ & _ & Hcl). rewrite HK' in HK2. injection HK2 as <-.
    assert (Hq : In q (vrefs V ++ c0 :: E)).
    { assert (Hqt : In q (tos_of c0 o)) by (rewrite Etos, in_app_iff; right; by left). destruct o as [e|]; cbn [tos_of] in Hqt; [|destruct Hqt as [<-|[]]; done]. apply in_map_iff in Hqt as (f & <- & Hf). rewrite in_app_iff. left. by apply (mount_live V e); [apply Ho|]. }
    assert (Hlen : length (n :: take k ns) = Datatypes.S k) by (cbn [length] in *; rewrite length_take; lia). rewrite Hlen in Hcl.
    apply (round_tail K (match clone wq with Some nc => <[nc := child c' (wqid wq)]> K | None => K end) E H s2 c0 (e_h <$> o) q c' wq p cname n ns (Datatypes.S k)); try done; destruct (clone wq) as [nc|].
    + by destruct Hcl as (_ & _ & ?).
    + by destruct Hcl as (_ & ?).
    + destruct Hcl as (_ & ? & _). by apply agrees_insert.
    + by intros x _.
    + destruct Hcl as (? & _). split; [done|by rewrite lookup_insert_eq].
    + by destruct Hcl as (? & _).
  - destruct Hw as [_ Hi2]. destruct (leave_walk K E H s2 c0 (e_h <$> o) _ (mret (Rfail 1 None)) Hi2) as (s3 & E3 & Hi3). eexists _, s3. split; [exact E3|]. split; [apply Hsp|by exists K].
Qed.

(** ** walk *)

Lemma agrees_trans ps K K' K'' : agrees ps K K' -> agrees ps K' K'' -> agrees ps K K''.
Proof. intros H1 H2 p Hp. by rewrite H2, H1. Qed.
Lemma walk_loop_ok fuel : forall names nhave K E H s p c mh cname, simple real K V -> real p -> ok K (c :: E) (option_list mh ++ H) s -> at_walk K p c mh names -> text cname -> Forall text names -> (length names <= fuel)%nat ->
  exists r cn s' K', walk_loop fuel false names nhave c cname mh s = Ok (r, cn) s' /\ agrees (vrefs V ++ E) K K' /\
    match r with
    | Wok c' => exists p', elem_steps K V (p, cname) names = Some (p', cn) /\ place_at K' c' = Some p' /\ text cn /\ ok K' (c' :: E) H s'
    | Wfail _ _ => elem_steps K V (p, cname) names = None /\ ok K' E H s'
    end.
Proof.
  induction fuel as [|fuel IH]; intros names nhave K E H s p c mh cname Hs Hrp Hi Hat Hcn Htx Hl.
  - destruct names as [|n ns]; [|cbn in Hl; lia]. inversion Hat as [? Hp Hm|]; subst. exists (Wok c), cname, s, K. split; [done|]. split; [by intros x _|]. by exists p.
  - destruct (decide (names = [])) as [->|Hne]; [inversion Hat as [? Hp Hm|]; subst; exists (Wok c), cname, s, K; split; [done|]; split; [by intros x _|]; by exists p|].
    destruct (walk_round_ok K E H s p c mh cname names Hs Hrp Hi Hat Hne Hcn Htx) as (r & s1 & E1 & Hr).
    assert (Eq : walk_loop (Datatypes.S fuel) false names nhave c cname mh s = match r with Rfail n e => mret (Wfail (nhave + n) e, cname) | Rnext n c cname mh => walk_loop fuel false (drop n names) (nhave + n) c cname mh end s1) by (cbn [walk_loop]; destruct names; [done|]; by step E1).
    rewrite Eq. destruct r as [k c' cn' mh'|k e].
    + destruct Hr as (K1 & p1 & Hk & Est & Htn & HA & Hi1 & Hat1). assert (HAV : agrees (vrefs V) K K1) by by eapply agrees_app.
      destruct (IH (drop k names) (nhave + k)%nat K1 E H s1 p1 c' mh' cn' (simple_agrees real K K1 V HAV Hs) (elem_steps_real real K V Hs _ _ _ _ _ Hrp Est) Hi1 Hat1 Htn (list.Forall_drop _ _ _ Htx)) as (r & cn & s2 & K2 & E2 & HA2 & Hr2); [rewrite length_drop; lia|].
      exists r, cn, s2, K2. split; [exact E2|]. split; [by eapply agrees_trans|]. assert (Esp : elem_steps K V (p, cname) names = elem_steps K1 V (p1, cn') (drop k names)) by (rewrite <- (take_drop k names) at 1; rewrite elem_steps_app, Est; cbn [mbind option_bind]; by rewrite (elem_steps_agrees V K K1)).
      rewrite Esp. exact Hr2.
    + destruct Hr as [Hn (K1 & HA & Hi1)]. exists (Wfail (nhave + k) e), cname, s1, K1. split; [done|]. by split.
Qed.
End Loop.
Lemma putmhead_chans o f s : putmhead o (with_chans f s) = match putmhead o s with Ok a s1 => Ok a (with_chans f s1) | Err e s1 => Err e (with_chans f s1) | Fault => Fault end.
Proof.
  destruct o as [h|]; [|done]. unfold putmhead, head, put_head, modify, mbind, ST_bind, of_option. cbn [heads with_chans]. destruct (heads s !! h) as [m|]; [|done]. cbn [mret ST_ret]. by destruct (h_ref m - 1 =? 0).
Qed.
Section Final.
Context {D : Dev} {DL : DevLaws} (V : list (list ent)) (M : nat) (I : Z).
Lemma finish_walk K E H s q n c cn : inv (mkNs K V (q :: E) H [] M I) s -> chans s !! q = Some (n, c) -> text cn ->
  exists s', (putmhead (c_umh c);; put_chan q (n, set_name cn (set_umh None c))) s = Ok tt s' /\ inv (mkNs (<[q := set_name cn (set_umh None c)]> K) V (q :: E) H [] M I) s'.
Proof.
  intros Hi Hq Ht. set (c2 := set_name cn (set_umh None c)). pose proof (put_ident V [] K (q :: E) H _ M I s q n c c2 Hi Hq eq_refl Ht eq_refl) as Hi1.
  destruct (putmhead_ok V [] M I _ _ H _ (c_umh c) Hi1) as (s2 & E2 & Hi2 & _). rewrite putmhead_chans in E2. destruct (putmhead (c_umh c) s) as [[] s1|e s1|] eqn:E1; [|done|done]. injection E2 as <-.
  exists (with_chans (<[q := (n, c2)]>) s1). split; [by step E1|exact Hi2].
Qed.
(** C11. walk goes where taking the names one after the other goes, the mount tables
    seen through at each, however many of them it gives to a device at once: it gives
    a channel to that file, with the name cleaned, which takes the place of the one
    it was given, or fails and leaves that one as it was when some name cannot be
    taken.  Nothing is left locked, and every reference it took is given up.  This is
    so where nothing that is mounted is mounted on itself, and the devices' qids keep
    saying what is a directory. *)
Theorem walk_correct real K E H s cp c names : full V -> simple real K V -> real (place_of c) -> inv (mkNs K V (cp :: E) H [] M I) s -> K !! cp = Some c -> Forall text names ->
  exists r s' K', walk cp names false s = Ok r s' /\ agrees (vrefs V ++ E) K K' /\
    match r with
    | Wok c' => exists p cn cc, elem_steps K V (place_of c, c_name c) names = Some (p, cn) /\ K' !! c' = Some cc /\ place_of cc = p /\ c_name cc = cn /\ c_umh cc = None /\
        inv (mkNs K' V (c' :: E) H [] M I) s'
    | Wfail _ _ => elem_steps K V (place_of c, c_name c) names = None /\ inv (mkNs K' V (cp :: E) H [] M I) s'
    end.
Proof.
  intros HV Hs Hrp Hi HK Htx. destruct (held_chan V [] M I K _ H s cp c Hi) as (n & _ & Es & Htc); [rewrite in_app_iff; cbn; tauto|done|]. destruct (incref_ok V [] M I K _ H s cp Hi) as (s1 & E1 & Hi1); [by eexists|].
  destruct (held_chan V [] M I K _ H s1 cp c Hi1) as (n1 & Ec1 & _); [rewrite in_app_iff; cbn; tauto|done|]. unfold walk. step E1. step Ec1.
  destruct (walk_loop_ok real V M I HV (length names) names 0 K (cp :: E) H s1 (place_of c) cp None (c_name c) Hs Hrp Hi1) as (r & cn & s2 & K2 & E2 & HA2 & Hr); [apply at_here; unfold place_at; by rewrite HK|done|done|done|]. step E2.
  destruct r as [c'|k e].
  2:{ destruct Hr as [Hn Hi2]. exists (Wfail k e), s2, K2. split; [done|]. split; [by eapply agrees_cons|]. by split. }
  destruct Hr as (p & Hst & Hpl & Hcn & Hi2). unfold place_at in Hpl. destruct (K2 !! c') as [c2|] eqn:HK2; [|done]. injection Hpl as <-.
  destruct (cunique_ok V [] M I K2 (cp :: E) H s2 c' c2 Hi2 HK2) as (q & c3 & K3 & s3 & E3 & HK3 & Hc3 & Hnq & HA3 & Hi3). step E3.
  destruct (held_chan V [] M I K3 _ H s3 q c3 Hi3) as (n3 & Ec3 & Es3 & _); [rewrite in_app_iff; cbn; tauto|done|]. step Ec3. destruct (finish_walk K3 (cp :: E) H s3 q n3 c3 cn Hi3 Es3 Hcn) as (s4 & E4 & Hi4).
  assert (Hi4' : inv (mkNs (<[q := set_name cn (set_umh None c3)]> K3) V (cp :: q :: E) H [] M I) s4) by (refine (inv_perm _ _ _ _ _ _ _ _ _ _ Hi4 _ _); [solve_Permutation|done]).
  destruct (cclose_ok V [] M I _ _ H s4 (Some cp) Hi4') as (s5 & E5 & Hi5). set (c4 := set_name cn (set_umh None c3)) in *. exists (Wok q), s5, (<[q := c4]> K3). split.
  { revert E4. unfold mbind, ST_bind. destruct (putmhead (c_umh c3) s3) as [[] sx|? ?|]; [|done|done]. intros ->. by rewrite E5. }
  split; [eapply agrees_cons; eapply agrees_trans; [exact HA2|]; eapply agrees_trans; [exact HA3|by apply agrees_insert]|].
  exists (place_of c2), cn, c4. split; [exact Hst|]. split; [by apply lookup_insert_eq|]. split; [destruct Hc3 as [-> | ->]; reflexivity|]. split; [reflexivity|]. split; [reflexivity|exact Hi5].
Qed.
End Final.
