(* ===== verification/NsDev.v ===== *)
(** * How a device walks (emu/port/dev.c, devroot.c)

    devwalk, by which the devices of the kernel walk, and the generators of entries it
    is given: devgen, for a device whose files are a table, or the device's own, as
    rootgen.  A generator may raise an error, as that of the profiler does where a name
    is not found.  [None] is DEVDOTDOT.  The channel to what is walked to is made by
    [Ns.devwalk]: here are its qids.  Those of devices whose generators raise
    no errors give the name space what it asks of them. *)

From S2P Require Import Prelude Clean Path Ns NsInv NsMount NsWalk.

Definition Enonexist : string := "file does not exist".
Record Dirtab : Type := mkDirtab { d_name : list Z; d_qid : Qid }.
(** What a generator returns: -1, 0, or 1 and an entry; or the error it raises. *)
Inductive Gen : Type := Gend | Gskip | Gent (name : list Z) (q : Qid) | Graise (e : string).
(** What comes of a name. *)
Inductive Found : Type := Fqid (q : Qid) | Fnot | Fraise (e : string).
(** devgen with its table, the directory itself and the rest, or a device's own, with
    what it leaves in [dir.qid] for "..", and as many entries as may have to be
    looked at. *)
Inductive Devgen : Type :=
| Gtab (self : Dirtab) (tab : list Dirtab)
| Gown (gen : Z -> Qid -> list Z -> nat -> Gen) (up : Z -> Qid -> string + Qid) (bound : nat).

Definition devgen (self : Dirtab) (tab : list Dirtab) (i : option nat) : Gen :=
  match i with
  | None => Gent (d_name self) (d_qid self)
  | Some i => match tab !! i with None => Gend | Some t => Gent (d_name t) (d_qid t) end
  end.
(** The entries from 0 on, until there is no more or one has the name. *)
Fixpoint gen_loop (fuel : nat) (gen : nat -> Gen) (n : list Z) (i : nat) : option Found :=
  match fuel with
  | O => None
  | Datatypes.S fuel =>
      match gen i with
      | Gend => Some Fnot
      | Gskip => gen_loop fuel gen n (i + 1)
      | Gent name q => if bool_decide (n = name) then Some (Fqid q) else gen_loop fuel gen n (i + 1)
      | Graise e => Some (Fraise e)
      end
  end.
Definition lookup_name (g : Devgen) (d : Z) (q : Qid) (n : list Z) : option Found :=
  match g with
  | Gtab self tab => if negb (q_path q =? q_path (d_qid self)) then Some Fnot else gen_loop (length tab + 1) (fun i => devgen self tab (Some i)) n 0
  | Gown gen _ bound => gen_loop (bound + 1) (gen d q n) n 0
  end.
Definition dotdot_of (g : Devgen) (d : Z) (q : Qid) : Found :=
  match g with
  | Gtab self tab => match devgen self tab None with Gent _ q => Fqid q | _ => Fnot end
  | Gown _ up _ => match up d q with inl e => Fraise e | inr q => Fqid q end
  end.
Definition dev_next (g : Devgen) (d : Z) (q : Qid) (n : list Z) : option Found :=
  if bool_decide (n = dot) then Some (Fqid q)
  else if bool_decide (n = dotdot) then Some (dotdot_of g d q)
  else lookup_name g d q n.
(** The error isdir raises, nil with the error string, or the qids.  An error that a
    generator raises makes the result nil, whatever has been found before. *)
Inductive Wres : Type := Wraise (e : string) | Wnil (e : string) | Wqids (qs : list Qid).
Fixpoint devwalk_loop (g : Devgen) (d : Z) (j : nat) (q : Qid) (names : list (list Z)) (qs : list Qid) : option Wres :=
  match names with
  | [] => Some (Wqids qs)
  | n :: names =>
      if negb (is_dir q) then Some (match j with O => Wnil Enotdir | _ => Wqids qs end)
      else
        r ← dev_next g d q n;
        match r with
        | Fnot => Some (match j with O => Wnil Enonexist | _ => Wqids qs end)
        | Fqid q => devwalk_loop g d (Datatypes.S j) q names (qs ++ [q])
        | Fraise e => Some (Wnil e)
        end
  end.
Definition devwalk (g : Devgen) (d : Z) (q : Qid) (names : list (list Z)) : option Wres :=
  if negb (bool_decide (names = [])) && negb (is_dir q) then Some (Wraise Enotdir) else devwalk_loop g d 0 q names [].

(** *** The root device *)

Record Rootdata : Type := mkRootdata { r_dotdot : Z; r_ptr : list Dirtab }.
Section Root.
Context (rootdata : Z -> Rootdata).
Definition rootgen (_ : Z) (q : Qid) (name : list Z) (_ : nat) : Gen :=
  if negb (is_dir q) then Graise Enotdir
  else match List.find (fun t => bool_decide (d_name t = name)) (r_ptr (rootdata (q_path q))) with Some t => Gent (d_name t) (d_qid t) | None => Gend end.
Definition root_dotdot (_ : Z) (q : Qid) : string + Qid := inr (mkQid (r_dotdot (rootdata (q_path q))) (q_vers q) QTDIR).
Definition rootwalk : Devgen := Gown rootgen root_dotdot 0.
End Root.

(** ** The search ends *)

(** A generator comes to its end, or to the name it is asked for, or raises an error. *)
Definition stops (n : list Z) (g : Gen) : Prop := match g with Gend | Graise _ => True | Gent name _ => name = n | Gskip => False end.
Definition ends (g : Devgen) : Prop :=
  match g with
  | Gtab _ _ => True
  | Gown gen up bound => forall d q n, exists i, (i <= bound)%nat /\ stops n (gen d q n i)
  end.
(** It raises none in a directory. *)
Definition quiet (g : Devgen) : Prop :=
  match g with
  | Gtab _ _ => True
  | Gown gen up bound => forall d q, is_dir q = true -> (forall n i e, gen d q n i <> Graise e) /\ exists q', up d q = inr q'
  end.
Lemma gen_loop_ends gen n k : forall i fuel, stops n (gen (i + k)%nat) -> (k < fuel)%nat -> is_Some (gen_loop fuel gen n i).
Proof.
  induction k as [|k IH]; intros i fuel Hk Hf; (destruct fuel as [|fuel]; [lia|]); cbn [gen_loop].
  - rewrite Nat.add_0_r in Hk. destruct (gen i); [by eexists|done| |by eexists]. cbn in Hk. subst. rewrite bool_decide_eq_true_2 by done. by eexists.
  - assert (Hr : is_Some (gen_loop fuel gen n (i + 1))) by (apply IH; [by replace (i + 1 + k)%nat with (i + Datatypes.S k)%nat by lia|lia]).
    destruct (gen i); [by eexists|done| |by eexists]. case_bool_decide; [by eexists|done].
Qed.
Lemma gen_loop_quiet gen n e fuel : (forall i e, gen i <> Graise e) -> forall i, gen_loop fuel gen n i <> Some (Fraise e).
Proof.
  intros Hq. induction fuel as [|fuel IH]; intros i; [done|]. cbn [gen_loop]. pose proof (Hq i) as Hi. destruct (gen i) as [| |name q|e']; [done|apply IH| |by destruct (Hi e')]. case_bool_decide; [done|apply IH].
Qed.
Lemma lookup_name_ends g d q n : ends g -> is_Some (lookup_name g d q n).
Proof.
  destruct g as [self tab|gen up bound]; cbn [ends lookup_name].
  - intros _. destruct (negb _); [by eexists|]. apply (gen_loop_ends _ n (length tab)); [|lia]. cbn [devgen Nat.add]. by rewrite (proj2 (lookup_ge_None tab (length tab))).
  - intros He. destruct (He d q n) as (i & Hi & Hs). apply (gen_loop_ends _ n i); [exact Hs|lia].
Qed.
Lemma dev_next_ends g d q n : ends g -> is_Some (dev_next g d q n).
Proof. intros Hg. unfold dev_next. case_bool_decide; [by eexists|]. case_bool_decide; [by eexists|by apply lookup_name_ends]. Qed.
Lemma dev_next_quiet g d q n e : quiet g -> is_dir q = true -> dev_next g d q n <> Some (Fraise e).
Proof.
  intros Hg Hd. unfold dev_next. case_bool_decide; [done|]. case_bool_decide; destruct g as [self tab|gen up bound]; cbn [dotdot_of lookup_name devgen] in *; [done| | |].
  - by destruct (Hg d q Hd) as [_ [q' ->]].
  - destruct (negb _); [done|]. apply gen_loop_quiet. intros i e'. by destruct (tab !! i).
  - apply gen_loop_quiet. intros i e'. apply (Hg d q Hd).
Qed.
Lemma rootwalk_ends rootdata : ends (rootwalk rootdata).
Proof.
  intros d q n. exists 0%nat. split; [lia|]. unfold rootgen. destruct (negb (is_dir q)); [done|]. destruct (List.find _ _) as [t|] eqn:Ef; [|done]. by apply find_some in Ef as [_ Et%bool_decide_eq_true_1].
Qed.
Lemma rootwalk_quiet rootdata : quiet (rootwalk rootdata).
Proof. intros d q Hd. split; [|by eexists]. intros n i e. unfold rootgen. rewrite Hd. cbn [negb]. by destruct (List.find _ _). Qed.

(** ** devwalk is a walk name by name *)

(** What comes of a name in a directory. *)
Definition dev_entry (g : Devgen) (d : Z) (q : Qid) (n : list Z) : Found := default Fnot (dev_next g d q n).
(** The names taken, until one is not there or is no directory, or an error. *)
Fixpoint dev_path (g : Devgen) (d : Z) (q : Qid) (names : list (list Z)) : string + list Qid :=
  match names with
  | [] => inr []
  | n :: names =>
      if is_dir q then
        match dev_entry g d q n with
        | Fqid q => match dev_path g d q names with inl e => inl e | inr qs => inr (q :: qs) end
        | Fnot => inr []
        | Fraise e => inl e
        end
      else inr []
  end.
Definition path_result (names : list (list Z)) (r : string + list Qid) : Wres :=
  match r with inl e => Wnil e | inr qs => match names, qs with _ :: _, [] => Wnil Enonexist | _, _ => Wqids qs end end.
Lemma devwalk_loop_path g d names : ends g -> forall j q qs, devwalk_loop g d (Datatypes.S j) q names qs =
  Some (match dev_path g d q names with inl e => Wnil e | inr qs' => Wqids (qs ++ qs') end).
Proof.
  intros Hg. induction names as [|n names IH]; intros j q qs; cbn [devwalk_loop dev_path]; [by rewrite app_nil_r|]. destruct (is_dir q); cbn [negb]; [|by rewrite app_nil_r].
  unfold dev_entry. destruct (dev_next_ends g d q n Hg) as [r ->]. cbn [mbind option_bind default]. unfold id. destruct r as [q'| |e]; [|by rewrite app_nil_r|done]. rewrite IH. destruct (dev_path g d q' names); [done|]. by rewrite <- app_assoc.
Qed.
Lemma devwalk_path g d q names : ends g -> is_dir q = true \/ names = [] -> devwalk g d q names = Some (path_result names (dev_path g d q names)).
Proof.
  intros Hg Hd. unfold devwalk. assert (Hn : negb (bool_decide (names = [])) && negb (is_dir q) = false) by (destruct Hd as [->| ->]; [by rewrite andb_false_r|done]). rewrite Hn. destruct names as [|n names]; [done|]. destruct Hd as [Hd|]; [|done].
  cbn [devwalk_loop dev_path]. rewrite Hd. cbn [negb]. unfold dev_entry. destruct (dev_next_ends g d q n Hg) as [r ->]. cbn [mbind option_bind default]. unfold id.
  destruct r as [q'| |e]; [|done|done]. rewrite devwalk_loop_path by done. by destruct (dev_path g d q' names).
Qed.
Lemma quiet_path g d q names : quiet g -> exists qs, dev_path g d q names = inr qs.
Proof.
  intros Hg. revert q. induction names as [|n names IH]; intros q; cbn [dev_path]; [by eexists|]. destruct (is_dir q) eqn:Hd; [|by eexists]. unfold dev_entry. pose proof (dev_next_quiet g d q n) as Hn.
  destruct (dev_next g d q n) as [[q'| |e]|]; cbn [default]; unfold id; [|by eexists|by destruct (Hn e Hg Hd)|by eexists]. destruct (IH q') as [qs ->]. by eexists.
Qed.

(** ** The devices of the kernel *)

Section Devtab.
Context (devtab : Z -> Devgen) (Hends : forall t, ends (devtab t)).
Definition kernel_dev : Dev := fun t d q names => match devwalk (devtab t) d q names with Some (Wqids qs) => Some qs | _ => None end.
#[local] Existing Instance kernel_dev.
Lemma kernel_walk t d q names : is_dir q = true \/ names = [] -> dev_walk t d q names = match path_result names (dev_path (devtab t) d q names) with Wqids qs => Some qs | _ => None end.
Proof. intros Hd. unfold dev_walk, kernel_dev. by rewrite devwalk_path. Qed.
Lemma kernel_file t d q n names : is_dir q = false -> dev_walk t d q (n :: names) = None.
Proof. intros Hd. unfold dev_walk, kernel_dev, devwalk. by rewrite Hd. Qed.
Lemma kernel_one t d q n : is_dir q = true -> dev_walk t d q [n] = match dev_entry (devtab t) d q n with Fqid q => Some [q] | _ => None end.
Proof. intros Hd. rewrite kernel_walk by auto. cbn [dev_path]. rewrite Hd. by destruct (dev_entry _ _ _ _). Qed.
Lemma devwalk_ends t d q names : is_Some (devwalk (devtab t) d q names).
Proof.
  destruct (is_dir q) eqn:Hd; [rewrite devwalk_path by auto; by eexists|]. destruct names; [rewrite devwalk_path by auto; by eexists|]. unfold devwalk. rewrite Hd. by eexists.
Qed.
Lemma kernel_laws : (forall t, quiet (devtab t)) -> DevLaws.
Proof.
  intros Hquiet. split.
  - intros t d q. by rewrite kernel_walk by auto.
  - intros t d q n qs. destruct (is_dir q) eqn:Hd; [|by rewrite kernel_file]. rewrite kernel_one by done. destruct (dev_entry _ _ _ _); [by intros [= <-]|done..].
  - intros t d q n ns Hns. destruct (is_dir q) eqn:Hd; [|by rewrite !kernel_file]. rewrite kernel_one, kernel_walk by auto. cbn [dev_path]. rewrite Hd. destruct (dev_entry _ _ _ _) as [q1| |e]; [|done|done].
    destruct (quiet_path (devtab t) d q1 ns (Hquiet t)) as [qs Eqs]. rewrite Eqs. cbn [path_result]. do 2 f_equal.
    destruct (is_dir q1) eqn:Hd1; [|by destruct ns; [done|cbn [dev_path] in Eqs; rewrite Hd1 in Eqs; injection Eqs as <-]]. rewrite kernel_walk by auto. rewrite Eqs. destruct ns; [done|]. by destruct qs.
  - intros t d q Hd. rewrite kernel_one by done. unfold dev_entry. pose proof (dev_next_quiet (devtab t) d q dotdot) as Hn. unfold dev_next in *. rewrite bool_decide_eq_false_2, bool_decide_eq_true_2 in * by done. cbn [default] in *. unfold id.
    assert (Hf : dotdot_of (devtab t) d q <> Fnot) by (unfold dotdot_of; destruct (devtab t) as [self tab|gen up bound]; [done|by destruct (up d q)]).
    destruct (dotdot_of (devtab t) d q) as [q'| |e]; [by exists q'|done|by destruct (Hn e (Hquiet t) Hd)].
Qed.
(** C12. devwalk, for a device with a table or a generator of its own that comes to an
    end of its entries, always ends, and from a directory takes the names one after
    the other: it gives the qids of those that are found, up to one that is not or
    that is behind a file; nil if the first is not found; and nil, with its error, as
    soon as a generator raises one, though names before were found.  When no generator
    raises an error in a directory, as devgen and that of the root do not, the devices
    walk as the name space asks of them, so that the theorems of walking hold of them:
    no names give a copy of the channel, several come to what one at a time come to,
    and ".." can be taken from every directory. *)
Theorem devwalk_laws :
  (forall t d q names, is_Some (devwalk (devtab t) d q names)) /\
  (forall t d q names, is_dir q = true -> devwalk (devtab t) d q names = Some (path_result names (dev_path (devtab t) d q names))) /\
  ((forall t, quiet (devtab t)) -> DevLaws).
Proof. split; [exact devwalk_ends|]. split; [|exact kernel_laws]. intros t d q names Hd. by apply devwalk_path; [|left]. Qed.
End Devtab.
