(* ===== verification/NsDemo.v ===== *)
(** * A name space at work

    The theorems of mounting and walking at a small tree, which three devices serve,
    and the walk through a directory that is mounted twice, which is not what its
    names one after the other come to. *)

From S2P Require Import Prelude Clean Path Ns NsInv NsMount NsWalk NsDev.

(** ** A tree

    A directory with a directory "a", with a file "b", and a file "b" of its own, as
    the root device has them. *)

Definition name_a : list Z := [97].
Definition name_b : list Z := [98].
Definition dir_qid (n : Z) : Qid := mkQid n 0 QTDIR.
Definition file_qid (n : Z) : Qid := mkQid n 0 0.
Definition tree_data (p : Z) : Rootdata :=
  mkRootdata 1 (if p =? 1 then [mkDirtab name_a (dir_qid 2); mkDirtab name_b (file_qid 4)] else if p =? 2 then [mkDirtab name_b (file_qid 3)] else []).
Definition tree_devtab (_ : Z) : Devgen := rootwalk tree_data.
Lemma tree_ends t : ends (tree_devtab t).
Proof. apply rootwalk_ends. Qed.
#[export] Instance tree_dev : Dev := kernel_dev tree_devtab.
Lemma tree_quiet t : quiet (tree_devtab t).
Proof. apply rootwalk_quiet. Qed.
(** "a/b" from the root, and "b/a", where "b" is a file. *)
Lemma devwalk_laws_witness : @DevLaws tree_dev /\
  devwalk (tree_devtab 0) 0 (dir_qid 1) [name_a; name_b] = Some (Wqids [dir_qid 2; file_qid 3]) /\
  devwalk (tree_devtab 0) 0 (dir_qid 1) [name_b; name_a] = Some (Wqids [file_qid 4]).
Proof.
  destruct (devwalk_laws tree_devtab tree_ends) as (_ & Hw & Hl). split; [exact (Hl tree_quiet)|]. rewrite !Hw by done. by vm_compute.
Defined.
#[export] Instance tree_laws : DevLaws.
Proof. apply kernel_laws; [exact tree_ends|exact tree_quiet]. Qed.

(** ** The start *)

Definition root_chan (d : Z) : Chan := mkChan 0 d (dir_qid 1) None None [slash].
Definition a_chan : Chan := mkChan 0 0 (dir_qid 2) None None (slash :: name_a).
Definition empty_tab : list (list ent) := replicate MNTHASH [].
Definition empty_ns (M : nat) : nst := mkNst ∅ ∅ (replicate MNTHASH []) 0 [] M.
Definition demo_idents : gmap Z Chan := <[4 := root_chan 2]> (<[3 := root_chan 1]> (<[2 := a_chan]> (<[1 := root_chan 0]> ∅))).
(** The first device, its directory, and two devices to mount. *)
Definition demo_ns (M : nat) : nst :=
  with_chans (<[4 := (1, root_chan 2)]>) (with_chans (<[3 := (1, root_chan 1)]>) (with_chans (<[2 := (1, a_chan)]>) (with_chans (<[1 := (1, root_chan 0)]>) (empty_ns M)))).
Lemma empty_inv M : inv (mkNs ∅ empty_tab [] [] [] M 0) (empty_ns M).
Proof. split; try done. apply (bool_decide_unpack _). by vm_compute. Qed.
Lemma demo_ns_inv M : inv (mkNs demo_idents empty_tab [4; 3; 2; 1] [] [] M 0) (demo_ns M).
Proof.
  assert (Ht : text [slash] /\ text (slash :: name_a)) by (split; by repeat constructor).
  repeat (apply new_chan; [cbn [option_list app c_mchan c_umh root_chan a_chan]|done|by destruct Ht]). apply empty_inv.
Qed.
Lemma empty_full : full empty_tab.
Proof. split; [done|]. by vm_compute. Qed.
Lemma empty_distinct K : distinct K empty_tab.
Proof. apply list.Forall_replicate. constructor. Qed.
Lemma empty_mounted K p : mounted K empty_tab p = None.
Proof. destruct p as [[t d] q]. cbn [mounted]. unfold find_ent. destruct (empty_tab !! bucket q) as [l|] eqn:El; [|done]. apply lookup_replicate in El as [-> _]. done. Qed.

(** ** One mount *)

Lemma mounted_none K V p : full V -> union_at K V p = [] -> mounted K V p = None.
Proof.
  intros [_ HV] Hu. unfold union_at in Hu. destruct (mounted K V p) as [e|] eqn:Em; [|done]. rewrite List.Forall_forall in HV. destruct (HV e); [by eapply mounted_in|done].
Qed.
Lemma one_mount M : exists i s V M' I', cmount 3 2 MREPL [] (demo_ns (2 + M)) = Ok i s /\ inv (mkNs demo_idents V [4; 3; 2; 1] [] [] M' I') s /\ full V /\ distinct demo_idents V /\
  forall p, union_at demo_idents V p = if same_file p a_chan then [mkMount i 3 MREPL []] else [].
Proof.
  destruct (cmount_ok demo_idents empty_tab [4; 3; 2; 1] [] (2 + M) 0 (demo_ns (2 + M)) 3 (root_chan 1) 2 a_chan MREPL [] (demo_ns_inv _) empty_full (empty_distinct _)) as (i & s & V & fs & M' & I' & E1 & Hi & HV & HD & Hfs & Hu); try done.
  - right. by left.
  - do 2 right. by left.
  - split; [done|by left|done].
  - cbn. lia.
  - apply Forall2_nil_inv_l in Hfs as ->. exists i, s, V, M', I'. split; [done|]. split; [done|]. split; [done|]. split; [done|]. intros p. rewrite Hu. unfold union_before, union_at. by rewrite !empty_mounted.
Qed.
Lemma one_mount_at V i : full V -> (forall p, union_at demo_idents V p = if same_file p a_chan then [mkMount i 3 MREPL []] else []) ->
  (exists e, mounted demo_idents V (place_of a_chan) = Some e /\ e_mounts e = [mkMount i 3 MREPL []]) /\ forall p, same_file p a_chan = false -> mounted demo_idents V p = None.
Proof.
  intros HV Hu. split.
  - pose proof (Hu (place_of a_chan)) as Ha. unfold union_at in Ha. destruct (mounted demo_idents V (place_of a_chan)) as [e|]; [by exists e|done].
  - intros p Hp. apply mounted_none; [done|]. by rewrite Hu, Hp.
Qed.
(** The files of the tree, on each of the devices. *)
Definition tree_file (p : place) : Prop := let '(t, _, q) := p in t = 0 /\ In q [dir_qid 1; dir_qid 2; file_qid 3; file_qid 4].
Lemma tree_entry d q n q1 : In q [dir_qid 1; dir_qid 2; file_qid 3; file_qid 4] -> dev_entry (tree_devtab 0) d q n = Fqid q1 -> In q1 [dir_qid 1; dir_qid 2; file_qid 3; file_qid 4].
Proof.
  intros Hq. unfold dev_entry, dev_next. destruct (bool_decide (n = dot)); [by intros [= <-]|]. destruct (bool_decide (n = dotdot)).
  { intros [= <-]. left. by repeat (destruct Hq as [<-|Hq]; [done|]). }
  cbn [lookup_name tree_devtab rootwalk gen_loop Nat.add]. unfold rootgen. destruct (negb (is_dir q)); [done|]. destruct (List.find _ _) as [t|] eqn:Ef; [|done]. apply find_some in Ef as [Ht Hn]. apply bool_decide_eq_true_1 in Hn. rewrite bool_decide_eq_true_2 by done. intros [= <-].
  repeat (destruct Hq as [<-|Hq]; [cbn in Ht; intuition; subst; cbn; tauto|]). done.
Qed.
Lemma tree_file_step p n q : tree_file p -> dev_step p n = Some q -> tree_file q.
Proof.
  destruct p as [[t d] q0]. intros [-> Hq0] Hs. unfold dev_step, tree_dev in Hs. destruct (is_dir q0) eqn:Hd; [|by rewrite kernel_file in Hs].
  rewrite (kernel_one tree_devtab tree_ends) in Hs by done. destruct (dev_entry (tree_devtab 0) d q0 n) as [q1| |e] eqn:Es; [|done|done]. injection Hs as <-. split; [done|]. by apply (tree_entry d q0 n).
Qed.
Lemma one_mount_simple V i M I s : inv (mkNs demo_idents V [4; 3; 2; 1] [] [] M I) s -> full V -> (forall p, union_at demo_idents V p = if same_file p a_chan then [mkMount i 3 MREPL []] else []) -> simple tree_file demo_idents V.
Proof.
  intros Hi HV Hu. destruct (one_mount_at V i HV Hu) as [_ Hn]. assert (Hf : forall p e f fs, mounted demo_idents V p = Some e -> e_mounts e = f :: fs -> same_file p a_chan = true /\ m_to f = 3).
  { intros p e f fs Hm He. pose proof (Hu p) as Hp. unfold union_at in Hp. rewrite Hm, He in Hp. destruct (same_file p a_chan); [|done]. by injection Hp as -> _. }
  split.
  - exact tree_file_step.
  - intros x q _ Hq. unfold place_at, demo_idents in Hq. repeat (rewrite lookup_insert in Hq; case_decide; [injection Hq as <-; split; [done|cbn; tauto]|]). by rewrite lookup_empty in Hq.
  - intros p e f fs q Hm He Hq. left. apply Hn. destruct (Hf p e f fs Hm He) as [_ Eto]. rewrite Eto in Hq. by injection Hq as <-.
  - intros p e f fs q Hp Hm He Hq. destruct (Hf p e f fs Hm He) as [Hs Eto]. rewrite Eto in Hq. injection Hq as <-. destruct p as [[t d] q]. destruct Hp as [_ Hp]. cbn [snd]. repeat (destruct Hp as [<-|Hp]; [done|]). done.
Qed.

(** ** The theorems there *)

Lemma cmount_correct_witness : exists i s V M I, cmount 3 2 MREPL [] (demo_ns 2) = Ok i s /\ inv (mkNs demo_idents V [4; 3; 2; 1] [] [] M I) s /\ union_at demo_idents V (place_of a_chan) = [mkMount i 3 MREPL []].
Proof.
  destruct (cmount_correct demo_idents empty_tab [4; 3; 2; 1] [] 2 0 (demo_ns 2) 3 (root_chan 1) 2 a_chan MREPL []) as [Hc _]; [apply demo_ns_inv|apply empty_full|apply empty_distinct|by right; left|by right; right; left|done|done|].
  destruct Hc as (i & s & V & fs & M & I & E1 & Hi & _ & _ & Hfs & Hu); [split; [done|by left|done]|cbn; lia|]. apply Forall2_nil_inv_l in Hfs as ->. exists i, s, V, M, I. split; [done|]. split; [done|]. rewrite Hu. unfold union_before. by rewrite empty_mounted.
Defined.
Lemma cunmount_correct_witness : exists i s s' V M I, cmount 3 2 MREPL [] (demo_ns 2) = Ok i s /\ cunmount 2 (Some 3) s = Ok tt s' /\ inv (mkNs demo_idents V [4; 3; 2; 1] [] [] M I) s' /\ union_at demo_idents V (place_of a_chan) = [].
Proof.
  destruct (one_mount 0) as (i & s & V & M & I & E1 & Hi & HV & HD & Hu). destruct (one_mount_at V i HV Hu) as [(e & Em & Ee) _].
  pose proof (cunmount_correct demo_idents V [4; 3; 2; 1] [] M I s 2 a_chan (Some 3) Hi HV HD) as Hc. rewrite Em, Ee in Hc. destruct Hc as (s' & V' & E2 & Hi2 & _ & _ & Hu2); [by right; right; left|done|by right; left|].
  exists i, s, s', V', M, I. do 3 (split; [done|]). by rewrite Hu2.
Defined.
Lemma cmount_nomem_witness : exists s, cmount 3 2 MREPL [] (demo_ns 0) = Err Enomem s /\ domount 2 (Some None) s = Fault.
Proof.
  apply (cmount_nomem demo_idents empty_tab [4; 3; 1] [] 0 (demo_ns 0) 3 (root_chan 1) 2 a_chan MREPL []); [|apply empty_full|by right; left|done|done|split; [done|by left|done]|apply empty_mounted].
  refine (inv_perm _ _ _ _ _ _ _ _ _ _ (demo_ns_inv 0) _ _); [solve_Permutation|done].
Defined.
(** "a/b" from the first device comes to the "b" of what is mounted. *)
Lemma walk_correct_witness : exists i s s' p c, cmount 3 2 MREPL [] (demo_ns 2) = Ok i s /\ walk 1 [name_a; name_b] false s = Ok (Wok p) s' /\ snd <$> chans s' !! p = Some c /\
  place_of c = (0, 1, file_qid 4) /\ c_name c = [slash; 97; slash; 98].
Proof.
  destruct (one_mount 0) as (i & s & V & M & I & E1 & Hi & HV & HD & Hu). destruct (one_mount_at V i HV Hu) as [(e & Em & Ee) Hn].
  destruct (walk_correct V M I tree_file demo_idents [4; 3; 2] [] s 1 (root_chan 0) [name_a; name_b]) as (r & s' & K' & E2 & _ & Hr); [done|by eapply one_mount_simple|split; [done|by left]| |done|by repeat constructor|].
  { refine (inv_perm _ _ _ _ _ _ _ _ _ _ Hi _ _); [solve_Permutation|done]. }
  assert (Hst : elem_steps demo_idents V (place_of (root_chan 0), c_name (root_chan 0)) [name_a; name_b] = Some (0, 1, file_qid 4, [slash; 97; slash; 98])).
  { assert (S1 : elem_step demo_idents V (place_of (root_chan 0), [slash]) name_a = Some (place_of a_chan, slash :: name_a)) by (unfold elem_step; rewrite (Hn (place_of (root_chan 0))) by done; by vm_compute).
    assert (S2 : elem_step demo_idents V (place_of a_chan, slash :: name_a) name_b = Some (0, 1, file_qid 4, [slash; 97; slash; 98])) by (unfold elem_step; rewrite Em, Ee; by vm_compute).
    cbn [elem_steps c_name root_chan]. rewrite S1. cbn [mbind option_bind]. by rewrite S2. }
  rewrite Hst in Hr. destruct r as [p|n er]; [|by destruct Hr]. destruct Hr as (q & cn & c & Hq & HK & Hpl & Hcn & _ & Hi'). injection Hq as <- <-. exists i, s, s', p, c. do 2 (split; [done|]). split; [|done].
  destruct (chan_held _ s' p Hi') as (n & c' & _ & Es & HK' & _); [apply owned_in; by left|]. cbn [idents] in HK'. rewrite HK in HK'. injection HK' as <-. by rewrite Es.
Defined.

(** ** A directory mounted on a mounted directory *)

(** Walks one after another. *)
Fixpoint walks (c : Z) (paths : list (list (list Z))) : NS (option Z) :=
  match paths with
  | [] => mret (Some c)
  | names :: paths => r ← walk c names false; match r with Wok c => walks c paths | Wfail _ _ => mret None end
  end.
Definition device_of (r : outcome nst (option Z)) : option Z := match r with Ok (Some p) s => (fun x => c_dev x.2) <$> chans s !! p | _ => None end.
Definition two_mounts : NS unit := cmount 4 3 MREPL [];; cmount 3 2 MREPL [];; mret tt.
(** When the root of a device is mounted on, and is itself mounted on a directory,
    a path through the directory depends on how it is walked: the directory alone and
    then the name in it come to the device that is mounted, and both in one walk to
    what is mounted on its root, for the loop that stops at a mount point has stepped
    through it, and steps through the next one when it goes on.  The comment at the
    loop says that the channel is on the other side. *)
Theorem walk_two_mounts : exists s, two_mounts (demo_ns 2) = Ok tt s /\
  device_of (walks 1 [[name_a]; [name_b]] s) = Some 1 /\ device_of (walks 1 [[name_a; name_b]] s) = Some 2.
Proof. eexists. split; [by vm_compute|]. split; by vm_compute. Qed.
